(* ===== verification/_CoqProject ===== *)
-Q . S2P
Prelude.v
Effects.v
GoStd.v
InvModel.v
InvStore.v
InvOps.v
InvReserve.v
InvTransport.v
InvInv.v
InvFrame.v
InvProofs.v
InvReserveProofs.v
InvIdem.v
InvSafety.v
InvSystem.v
InvDemo.v
InvTheorems.v
InvSettled.v
InvFefo.v
InvLive.v
OrdModel.v
OrdService.v
OrdSteps.v
OrdTheorems.v
OrdStock.v
OrdInventory.v
OrdDemo.v
OrdClaims.v
OrdPlaceClaims.v
OrdExpiry.v
FulModel.v
FulMessaging.v
FulSteps.v
FulInv.v
FulSystem.v
FulHandler.v
FulClaims.v
FulAnswers.v
FulBroker.v
FulDemo.v
NotModel.v
NotReplay.v
NotService.v
NotEvents.v
NotRouting.v
NotStream.v
NotDemo.v
CatModel.v
CatService.v
CatInv.v
CatSystem.v
CatIdem.v
CatClaims.v
CatReads.v
CatCreate.v
CatJson.v
CatHandler.v
CatAccess.v
CatDemo.v
OrdHttp.v
Gateway.v
GwDemo.v
InvHttp.v
AnaModel.v
AnaService.v
AnaRun.v
AnaClaims.v
AnaSummary.v
AnaDemo.v
AuthLimits.v
AuthModel.v
AuthSteps.v
AuthOutbox.v
AuthHandler.v
AuthInv.v
AuthLogin.v
AuthDelivery.v
AuthAudit.v
AuthLockout.v
AuthDemo.v
