(* ===== verification/Prelude.v ===== *)
(** * GelatoFlow backend: verification development

    GelatoFlow is the backend of a gelato shop, a set of services that share
    nothing but messages: customers place orders with the Order service, which
    reserves portions with Batch Inventory over gRPC and sends customers to a
    payment page; managers keep the flavors and their prices in the Catalog
    service, on Redis; paid orders become [order.placed] events, from which the
    Fulfillment service makes kitchen tickets and the Notification service
    remembers whom to notify; tickets and stock produce events of their own,
    which Notification turns into frames of the customers' and the kitchen's
    event streams.  Every service keeps its events in an outbox table next to
    its data, and every consumer must live with repeated messages.  The Auth
    service keeps the accounts and signs the tokens that the others verify; the
    Analytics service counts sales, refunds and waste by day, on MongoDB.  In
    front of them an API gateway verifies tokens and forwards requests with the
    identity they stand for.

    This library models the Go code of the gateway and of the seven services as
    functions and state machines, and proves what makes them correct.

    ** How code is modelled

    - A function that works in memory is a function (Notification); a function
      that talks to a database is a term of the monad [M] of [Effects]: state,
      errors, and an [oracle] from which it reads everything the environment
      decides - which statement fails and how, whether a failed [COMMIT] took
      effect, what the clock shows, which random identifier is drawn.  A theorem
      for all oracles covers every failure point.
    - Tables are finite maps with the constraints of the migrations (unique
      violations are errors of the insert); a SQL statement is one [stmt],
      [query] or [exec].  Transactions run one after the other: the code takes
      row and advisory locks, which the model records but does not interleave.
      Interleavings are those of whole transactions, messages and, in
      Notification, of lock regions and channel operations.  Redis is a map of
      typed keys with expiry times; a Lua script is one step whose reply may get
      lost, and Catalog mutations interleave between their reads and writes.
      MongoDB collections are maps too; a failed write may have taken effect.
    - Machine integers are [Z] with their wrap-around written out ([wrap32],
      [wrap64]) wherever the code's guards matter; instants are nanoseconds
      since the epoch.  PostgreSQL stores microseconds: the model keeps the
      nanoseconds, and no theorem is about digits below a microsecond.
    - Libraries outside the repository are type classes: the UUID parser
      ([UuidLib]), request digests ([Digest]), JSON decoding ([JsonResult],
      [Json], [NJson], [CatLib], [JsonLib]), JWT verification ([Jwt]), RFC 3339 parsing
      ([TimeParse]), name-based UUIDs ([NameUuid]), PostgreSQL's network errors
      ([PgConn]), PostgreSQL's reading of a UUID ([PgUuid]), password hashing,
      token signing and mail addresses ([AuthLib]), HTTP header syntax
      ([HttpLib]), the canonical form of header names ([HeaderKeys], with
      [HeaderLaws]), the bodies of the Order, Fulfillment and Inventory
      interfaces ([OrderJson], [FulfillmentJson], [InvHttpLib]), the decoding of
      analytics events ([AnaJson]), the order of query results and of Go maps
      ([Unordered]).  Go's own [strings], [unicode/utf8], [time], [net/url],
      [math] functions are written out in [GoStd].
    - Interfaces between services are classes too: [InventoryClient] is what the
      Order service calls, [StockService] what it relies on; [OrdInventory]
      proves that Batch Inventory, reached through the Order service's client
      over a network that loses and repeats calls, provides it.

    ** Files

    [Prelude], [Effects], [GoStd]: integers, orders and sums; the monad and its
    program logic; Go's standard library, URLs, gRPC status codes and
    timestamps.

    Batch Inventory ([batch-inventory-service/internal]): [InvModel] (data and
    tables of [inventory/model.go]), [InvStore] ([store.go], idempotency, the
    alerts of [service/inventory_service.go]), [InvOps] and [InvReserve]
    ([batches.go], [waste.go], [reservations.go]), [InvTransport] (the gRPC
    handlers and error mapping of [transport], the outbox dispatcher of
    [messaging], the client of Catalog), [InvHttp] (the REST interface of
    [transport] and [auth], with who may do what through it).  [InvInv], [InvFrame],
    [InvProofs], [InvReserveProofs], [InvSafety] carry the stock invariant
    through every operation, [InvSystem] is the service as a set of requests
    and background tasks, [InvIdem] the idempotency records, [InvSettled] what
    recorded answers mean, [InvDemo] a concrete environment.

    Order service ([order-service/internal]): [OrdModel] ([domain],
    [repository]), [OrdService] ([service], with the expiry, recovery and outbox
    workers), [OrdSteps] (items and prices, the abstract order machine and the
    refinement), [OrdTheorems], [OrdStock] (orders against the [StockService]
    interface), [OrdInventory] (the client against the Inventory model),
    [OrdClaims], [OrdPlaceClaims], [OrdExpiry], [OrdDemo]; [OrdHttp] ([handler],
    [grpc], the Fulfillment client of [client], [publisher]).

    API gateway ([api-gateway/internal]): [Gateway] ([middleware], [auth],
    [router], [proxy]), with what it lets through and what that means for the
    Order service behind it; [GwDemo].  Fiber's matching of routes, its limiter
    and its proxy are parameters.

    Fulfillment service ([fulfillment-service/internal]): [FulModel] ([models],
    [events], [repository]), [FulMessaging] ([messaging]: consumer and relay),
    [FulHandler] ([middleware], [handler], [router]), [FulSteps] (the abstract
    kitchen machine and the refinement), [FulInv] (its invariant), [FulSystem]
    (database, broker queues, crashes and redeliveries), [FulDemo].

    Notification service ([notification-service/internal]): [NotModel]
    ([stream], [hub], [notify/state.go]), [NotService] ([notify/service.go],
    [events], [messaging], [auth], [handler]), [NotStream] (the stream handler as
    a state machine), [NotReplay], [NotEvents], [NotRouting],
    [NotDemo].

    Catalog service ([catalog-service/internal]): [CatModel] ([model], [audit],
    [idempotency], and Redis with the Lua scripts of [repository]), [CatService]
    ([repository], [service]), [CatJson] and [CatHandler] ([auth], [middleware],
    [handler/v1], [router], [transport/grpc]); [CatInv] (the
    invariant of the store and the scripts), [CatSystem] (operations with lost
    replies), [CatIdem], [CatClaims] (requests that interleave between reading
    and writing), [CatCreate], [CatReads], [CatAccess], [CatDemo].  JSON, SHA-256, the permissions of the Redis user and the pages
    that SCAN hands out are parameters; [CatLaws] states what is relied on of
    JSON, and [CatDemo] has an instance that satisfies it.

    Auth service ([auth-service/internal]): [AuthLimits] ([middleware]: budgets,
    work slots, failed attempts), [AuthModel] ([model], [repository], [auth],
    [service]), [AuthOutbox] ([outbox]), [AuthHandler] ([handler], [audit],
    [router]); [AuthSteps] and [AuthInv] (the operations as steps on the tables,
    and the invariant), [AuthLogin] (signup, login and the verifiers of the
    other services), [AuthDelivery] (workers, broker and lost
    leases), [AuthAudit], [AuthLockout], [AuthDemo].  [AuthLaws], [TrimLaw]
    and [JwtLaws] state what is relied on of the libraries: a bcrypt hash matches
    the password it was made of and can always be compared, encoding is undone by
    decoding, a parsed mail address is valid UTF-8, lower case is stable and keeps
    trimmed text trimmed, and a signed token verifies with its secret until it
    expires; [AuthDemo] has instances.

    Analytics service ([analytics-service/internal]): [AnaModel] ([models] with
    IEEE double arithmetic, dates, [repository]), [AnaService] ([service],
    [messaging], [factory], [middleware], [handler/v1], [router], [client]);
    [AnaRun] (ledgers and meters, what one message does), [AnaClaims] (runs with
    and without failures), [AnaSummary] (the calendar and the summary),
    [AnaDemo].  One consumer process handles messages at a time, the unique
    index on the date is there, and the process runs in a time zone of fixed
    offset; [AnaJsonLaws] says that decoded integers fit their types.

    ** What is proved

    - Stock ([stock_invariant], [reserve_fefo], [settle_succeeds],
      [check_availability]): the balances of every batch add up and match the
      reservations in every reachable database; reservations only move forward; a
      reservation takes the first expiring sellable stock and succeeds exactly
      when there is enough; settling cannot get stuck; the reported availability
      is what a reservation could take.
    - The counter ([inventory_access]): who may change and see stock over HTTP,
      that every entry of the history names the owner of the token, and which
      bodies are read.
    - Idempotency ([exactly_once], [place_order_idempotent],
      [keyed_request_once], [signup_once]): a repeated request gets the first
      answer and changes nothing, another request under the same key is refused,
      over any interleaving of other requests.  In the catalog the keys of
      creations and those of changes are separate.
    - Orders ([order_service_refines], [order_tables_exact],
      [confirm_payment_answer], [order_totals_exact], [checkout_link_safe]):
      every operation is a step of a small state machine; orders only make its
      moves; the outbox holds exactly the events the orders call for; prices do
      not overflow; what a successful placement and payment confirmation leave
      behind; checkout links are handed out only for payable orders and to
      allowed hosts.
    - Orders and stock together ([orders_match_stock]): with lost and repeated
      calls between the two services, paid orders are backed by sold portions
      and cancelled orders hold none.
    - The front door ([gateway_identity], [orders_through_gateway]): what the
      gateway forwards names the owner of the one valid token and nobody else,
      whatever headers a client sends; behind it nobody sees or changes an order
      of somebody else, and only staff and the Payment service reach what is
      theirs.
    - Workers ([workers_complete]): the loops end, the sweep leaves no overdue
      order pending, recovery finishes every interrupted transition whose call
      Inventory settles.
    - Kitchen ([kitchen_invariant], [ticket_life], [cancel_final],
      [order_never_lost], [retry_policy], [relay_at_least_once],
      [update_status_answer], [access_control]): gapless queue numbers, legal
      histories, exact events, cancellation in any order of arrival (for an order
      without a ticket until its tombstone is deleted after 30 days), what staff
      are told when they move a ticket, no arrived
      order lost through crashes and failed retries, the retry policy, the
      relay, the capacity count, and who may do what.
    - Notifications ([replay_answers_history], [each_event_once],
      [notification_privacy], [memory_bounded], [stream_exactly_once]): the
      replay buffer answers like the history it stands for, redeliveries change
      nothing, notifications reach only those they are meant for, memory is
      bounded, and a stream has no duplicate and, while it keeps up, no gap in any
      interleaving with the consumer.
    - Catalog ([catalog_invariant], [no_lost_update], [catalog_reads],
      [request_body_exact], [catalog_access]): names are unique and every change
      is audited in every reachable state; no update is lost between reading and
      writing; readers see exactly what they may; which bodies are accepted; and
      that only managers change anything.
    - Accounts ([accounts_invariant], [login_answers], [signup_then_login],
      [token_accepted], [credentials_exact]): addresses are unique and every
      account is announced once in every reachable state; what a login answers
      on every branch, at the price of one password comparison whoever asks once
      the account was looked up;
      what was signed up can log in, and the token is accepted by every service
      until it expires.
    - Abuse of logins ([credential_limits], [login_lockout]): admitted attempts,
      concurrent password work and the tables that count them are bounded in
      every interleaving, and so are the wrong guesses an account sees from logins
      that come one after the other.
    - Announcements and evidence ([outbox_delivery],
      [audit_once]): rows are marked as published only after the broker
      confirmed them, whatever workers crash, and every message announces a
      stored account; every due event gets out; a retried audit write leaves one row.
    - Figures ([analytics_ledger], [analytics_exactly_once],
      [analytics_summary]): daily documents are sums of the events they count,
      none lost whatever fails and each counted once if nothing fails and no
      marker expires; a sale cancelled on its day nets to zero; and a summary, for
      managers only, adds up exactly the days of its period, per flavor those with
      positive sales.

    ** Bounds and fuel

    [uniqueJSONValue] and [uniqueJSON] get the number of tokens, and
    [request_body_exact] and [unique_exact] show that it is enough.
    [runes_fuel] decodes at least one byte per step and gets the length of the
    text.  [expire_loop] and [resume_loop] page through orders by id; they get
    one unit per stored order and one more, and [workers_complete] shows that
    they never run out.  [offer_loop] has the two attempts of the source and
    [retryAuditWrite] its three.  All other
    recursions are structural; the loops of tickers and consumers are step
    relations without a bound.

    ** Not modelled

    The Payment service (Java), which the Order service sees through parameters
    and its token; the clients of Catalog and Payment in the Order service, which
    pass one call on each; the probes of health and readiness; generated protobuf
    code; configuration, logging, broker topology, migrations, demonstration
    clients and start-up code, which hold no state of their own.  Transactions are serial: dead-locks and the races of READ
    COMMITTED below the level of whole transactions are outside the model.  In
    the hub a non-blocking offer is one step; with a reader in the middle of
    it, one more notification of a full channel may be dropped. *)

From stdpp Require Export base gmap strings list sorting.
From Stdlib Require Export ZArith Lia.
#[global] Open Scope Z_scope.

(** ** Machine integers *)

Definition MaxInt32 : Z := 2147483647.
Definition MaxInt64 : Z := 9223372036854775807.

(** Two's complement wrap-around of a 64-bit and of a 32-bit Go integer. *)
Definition wrap64 (z : Z) : Z := (z + 2^63) mod 2^64 - 2^63.
Definition wrap32 (z : Z) : Z := (z + 2^31) mod 2^32 - 2^31.

Definition in64 (z : Z) : Prop := - 2^63 ≤ z < 2^63.
Definition in32 (z : Z) : Prop := - 2^31 ≤ z < 2^31.

Lemma wrap64_id z : in64 z → wrap64 z = z.
Proof. unfold in64, wrap64. intros H. rewrite Z.mod_small; lia. Qed.

Lemma wrap32_id z : in32 z → wrap32 z = z.
Proof. unfold in32, wrap32. intros H. rewrite Z.mod_small; lia. Qed.

(** ** Instants and durations

    A [time.Time] is an instant in nanoseconds since the Unix epoch, a
    [time.Duration] a number of nanoseconds.  [zero_time] is Go's zero
    instant, 1 January of year 1, 00:00 UTC. *)

Definition second : Z := 1000000000.
Definition minute : Z := 60 * second.
Definition hour : Z := 60 * minute.
Definition zero_time : Z := -62135596800 * second.
Definition is_zero_time (t : Z) : bool := bool_decide (t = zero_time).

(** [t.Truncate(d)] of Go rounds down to a multiple of [d] counted from the
    zero instant. *)
Definition truncate (t d : Z) : Z :=
  if bool_decide (d ≤ 0) then t else t - (t - zero_time) mod d.

(** ** Lexicographic orders for [ORDER BY] clauses

    stdpp's [String.le] is the byte order of Go strings and of canonical
    UUIDs; [lex2] and [lex3] compare several columns in turn. *)

Definition lex2 {A} (k1 : A → Z) (k2 : A → string) (x y : A) : Prop :=
  k1 x < k1 y ∨ (k1 x = k1 y ∧ String.le (k2 x) (k2 y)).

Definition by_key {A} (k : A → Z) (x y : A) : Prop := k x ≤ k y.
#[global] Instance by_key_dec {A} k (x y : A) : Decision (by_key k x y).
Proof. unfold by_key. apply _. Defined.
#[global] Instance by_key_total {A} k : Total (@by_key A k).
Proof. intros x y. unfold by_key. lia. Qed.
#[global] Instance by_key_trans {A} k : Transitive (@by_key A k).
Proof. intros x y z. unfold by_key. lia. Qed.

Definition lex3 {A} (k1 k2 : A → Z) (k3 : A → string) (x y : A) : Prop :=
  k1 x < k1 y ∨ (k1 x = k1 y ∧ lex2 k2 k3 x y).

#[global] Instance lex2_dec {A} k1 k2 (x y : A) : Decision (lex2 k1 k2 x y).
Proof. unfold lex2. apply _. Defined.
#[global] Instance lex3_dec {A} k1 k2 k3 (x y : A) : Decision (lex3 k1 k2 k3 x y).
Proof. unfold lex3. apply _. Defined.

#[global] Instance lex2_total {A} k1 k2 : Total (@lex2 A k1 k2).
Proof.
  intros x y. unfold lex2.
  destruct (Z.lt_trichotomy (k1 x) (k1 y)) as [?|[?|?]]; [tauto| |tauto].
  destruct (total String.le (k2 x) (k2 y)); [left|right]; auto.
Qed.
#[global] Instance lex3_total {A} k1 k2 k3 : Total (@lex3 A k1 k2 k3).
Proof.
  intros x y. unfold lex3.
  destruct (Z.lt_trichotomy (k1 x) (k1 y)) as [?|[?|?]]; [tauto| |tauto].
  destruct (total (lex2 k2 k3) x y); [left|right]; auto.
Qed.
#[global] Instance lex2_trans {A} k1 k2 : Transitive (@lex2 A k1 k2).
Proof.
  intros x y z [?|[? H1]] [?|[? H2]]; unfold lex2; try (left; lia).
  right. split; [lia|]. by etrans.
Qed.
#[global] Instance lex3_trans {A} k1 k2 k3 : Transitive (@lex3 A k1 k2 k3).
Proof.
  intros x y z [?|[? H1]] [?|[? H2]]; unfold lex3; try (left; lia).
  right. split; [lia|]. by etrans.
Qed.

Lemma lex2_anti {A} k1 k2 (x y : A) : lex2 k1 k2 x y → lex2 k1 k2 y x → k2 x = k2 y.
Proof. intros [?|[? H1]] [?|[? H2]]; try lia. by apply (anti_symm String.le). Qed.
Lemma lex3_anti {A} k1 k2 k3 (x y : A) : lex3 k1 k2 k3 x y → lex3 k1 k2 k3 y x → k3 x = k3 y.
Proof. intros [?|[? H1]] [?|[? H2]]; try lia. by eapply lex2_anti. Qed.

Lemma StronglySorted_lookup {A} (R : relation A) l i j x y :
  StronglySorted R l → (i < j)%nat → l !! i = Some x → l !! j = Some y → R x y.
Proof.
  intros Hs Hij Hi Hj. rewrite <-(take_drop j l) in Hs. eapply StronglySorted_app_1_elem_of; [exact Hs|..].
  - apply (list_elem_of_lookup_2 _ i). by rewrite lookup_take_lt.
  - apply (list_elem_of_lookup_2 _ 0). by rewrite lookup_drop, Nat.add_0_r.
Qed.

Definition str_ltb (a b : string) : bool := bool_decide (String.le a b ∧ a ≠ b).

(** ** Sums over lists of rows: SQL's [sum(... ) FILTER (WHERE ...)] *)

Fixpoint sum_by {A} (f : A → Z) (l : list A) : Z :=
  match l with [] => 0 | x :: l => f x + sum_by f l end.

Definition sum_where {A} (P : A → bool) (f : A → Z) (l : list A) : Z :=
  sum_by (λ x, if P x then f x else 0) l.

Section sums.
Context {A : Type}.
Implicit Types (f g : A → Z) (l : list A).

Lemma sum_by_app f l1 l2 : sum_by f (l1 ++ l2) = sum_by f l1 + sum_by f l2.
Proof. induction l1; cbn; lia. Qed.

Lemma sum_by_perm f l1 l2 : l1 ≡ₚ l2 → sum_by f l1 = sum_by f l2.
Proof. induction 1; cbn; lia. Qed.

Lemma sum_by_ext f g l : (∀ x, x ∈ l → f x = g x) → sum_by f l = sum_by g l.
Proof.
  induction l as [|x l IH]; intros H; cbn; [done|].
  rewrite H by set_solver. rewrite IH; [done|]. intros y Hy. apply H. set_solver.
Qed.

Lemma sum_by_add f g l : sum_by (λ x, f x + g x) l = sum_by f l + sum_by g l.
Proof. induction l; cbn; lia. Qed.

Lemma sum_by_zero f l : (∀ x, x ∈ l → f x = 0) → sum_by f l = 0.
Proof. intros H. rewrite (sum_by_ext f (λ _, 0)) by done. induction l; cbn; set_solver by lia. Qed.

Lemma sum_by_nonneg f l : (∀ x, x ∈ l → 0 ≤ f x) → 0 ≤ sum_by f l.
Proof.
  induction l as [|x l IH]; cbn; intros H; [lia|].
  assert (0 ≤ f x) by (apply H; set_solver).
  assert (0 ≤ sum_by f l) by (apply IH; intros; apply H; set_solver). lia.
Qed.

Lemma sum_by_elem f l x : (∀ y, y ∈ l → 0 ≤ f y) → x ∈ l → f x ≤ sum_by f l.
Proof.
  intros Hpos [l1 [l2 ->]]%list_elem_of_split.
  rewrite sum_by_app. cbn.
  assert (0 ≤ sum_by f l1) by (apply sum_by_nonneg; intros; apply Hpos; set_solver).
  assert (0 ≤ sum_by f l2) by (apply sum_by_nonneg; intros; apply Hpos; set_solver).
  lia.
Qed.

Lemma sum_where_app P f l1 l2 :
  sum_where P f (l1 ++ l2) = sum_where P f l1 + sum_where P f l2.
Proof. apply sum_by_app. Qed.

Lemma sum_where_filter P f l : sum_where P f l = sum_by f (filter (λ x, P x = true) l).
Proof.
  induction l as [|x l IH]; [done|]. unfold sum_where in *.
  rewrite filter_cons. cbn [sum_by]. rewrite IH.
  destruct (P x); case_decide; try done; cbn [sum_by]; lia.
Qed.

Lemma sum_where_ext P Q f g l :
  (∀ x, x ∈ l → P x = Q x ∧ (Q x = true → f x = g x)) →
  sum_where P f l = sum_where Q g l.
Proof.
  intros H. apply sum_by_ext. intros x Hx. destruct (H x Hx) as [-> Hf].
  destruct (Q x); auto.
Qed.
End sums.

(** Selecting rows keeps their keys distinct. *)
Lemma NoDup_fmap_filter {A B} (f : A → B) (P : A → Prop) `{!∀ x, Decision (P x)} (l : list A) :
  NoDup (f <$> l) → NoDup (f <$> filter P l).
Proof.
  induction l as [|x l IH]; [done|]. intros [Hx Hl]%NoDup_cons. rewrite filter_cons.
  case_decide; [|auto]. apply NoDup_cons. split; [|auto].
  intros (y & Hy & [_ Hin]%list_elem_of_filter)%list_elem_of_fmap. apply Hx.
  rewrite Hy. apply list_elem_of_fmap. eauto.
Qed.

Lemma filter_none {A} (P : A → Prop) `{!∀ x, Decision (P x)} (l : list A) :
  (∀ x, x ∈ l → ¬ P x) → filter P l = [].
Proof.
  induction l as [|x l IH]; [done|]. intros Hl. rewrite filter_cons_False by (apply Hl; set_solver).
  apply IH. intros y Hy. apply Hl. set_solver.
Qed.

Lemma filter_ext_in {A} (P Q : A → Prop) `{!∀ x, Decision (P x), !∀ x, Decision (Q x)} (l : list A) :
  (∀ x, x ∈ l → P x ↔ Q x) → filter P l = filter Q l.
Proof.
  induction l as [|x l IH]; [done|]. intros Hl. rewrite !filter_cons. rewrite IH by (intros; apply Hl; set_solver).
  pose proof (Hl x ltac:(set_solver)) as Hx. repeat case_decide; naive_solver.
Qed.

(** ** Tactics *)

(** Split boolean guards in hypotheses and normalise [bool_decide]. *)
Ltac bool_guards :=
  repeat match goal with
  | H : _ && _ = true |- _ => apply andb_true_iff in H; destruct H
  | H : _ || _ = false |- _ => apply orb_false_iff in H; destruct H
  | H : negb _ = true |- _ => apply negb_true_iff in H
  | H : negb _ = false |- _ => apply negb_false_iff in H
  | H : bool_decide _ = true |- _ => apply bool_decide_eq_true in H
  | H : bool_decide _ = false |- _ => apply bool_decide_eq_false in H
  end.

(** Case on the innermost [if] or [match] of a hypothesis. *)
Ltac case_in H :=
  match type of H with
  | context [match ?x with _ => _ end] =>
      lazymatch x with
      | context [match _ with _ => _ end] => fail
      | _ => destruct x eqn:?; simplify_eq/=
      end
  end.
