(* ===== verification/Effects.v ===== *)
(** Effects shared by the services: a state-and-error monad over a database,
    statements that can fail, transactions that commit or roll back, the clock
    and the supply of random identifiers.

    Everything the environment decides is read from an [oracle]: whether the
    n-th interaction with the database fails and with which error, whether a
    [COMMIT] that reported an error took effect all the same, what the clock
    shows, and which random UUID is handed out.  A theorem that quantifies over
    the oracle therefore covers every failure point of the code. *)

From S2P Require Import Prelude.

(** The database errors the sources tell apart: context deadline and
    cancellation, network and connection errors, a unique violation (code
    23505) with its constraint, and other PostgreSQL error codes. *)
Inductive dberr :=
  | DbDeadline
  | DbCanceled
  | DbNet
  | DbConnect
  | DbUnique (constraint : string)
  | DbPg (code : string).
#[global] Instance dberr_eq_dec : EqDecision dberr.
Proof. solve_decision. Defined.

(** A statement sent to an aborted transaction. *)
Definition pg_in_failed_transaction : string := "25P02".

Record oracle := Oracle {
  or_fault : nat → option dberr;
  or_landed : nat → bool;
  or_clock : nat → Z;
  or_uuid : nat → string
}.

(** [w_tick] counts interactions with the environment, [w_aborted] says that a
    statement of the current transaction has failed, so PostgreSQL refuses
    every later one, and [w_locks] lists the advisory locks the current
    transaction has taken, oldest first. *)
Record world (S : Type) := World {
  w_db : S;
  w_tick : nat;
  w_aborted : bool;
  w_locks : list string
}.
Arguments World {S} _ _ _ _.
Arguments w_db {S} _.
Arguments w_tick {S} _.
Arguments w_aborted {S} _.
Arguments w_locks {S} _.

Definition M (S E A : Type) : Type := oracle → world S → (E + A) * world S.

(** How a service's error type carries a raw database error. *)
Class DbError (E : Type) := of_db : dberr → E.

Section ops.
Context {S E : Type}.

#[global] Instance M_ret : MRet (M S E) := λ A a o w, (inr a, w).
#[global] Instance M_bind : MBind (M S E) := λ A B f m o w,
  match m o w with
  | (inl e, w') => (inl e, w')
  | (inr a, w') => f a o w'
  end.

Definition throw {A} (e : E) : M S E A := λ o w, (inl e, w).

(** [x, err := m] followed by a look at [err]. *)
Definition try {E' A} (m : M S E A) : M S E' (E + A) := λ o w,
  let '(r, w') := m o w in (inr r, w').

(** [time.Now()]: no interaction with the database, cannot fail. *)
Definition go_now : M S E Z := λ o w,
  (inr (or_clock o (w_tick w)), World (w_db w) (Datatypes.S (w_tick w)) (w_aborted w) (w_locks w)).

(** [uuid.NewString()] / [uuid.New()]. *)
Definition new_uuid : M S E string := λ o w,
  (inr (or_uuid o (w_tick w)), World (w_db w) (Datatypes.S (w_tick w)) (w_aborted w) (w_locks w)).

Context `{!DbError E}.

(** One statement of a transaction.  [f] sees the clock (for
    [clock_timestamp()]) and the database, and may be refused by the server. *)
Definition stmt {A} (f : Z → S → dberr + (A * S)) : M S E A := λ o w,
  let n := w_tick w in
  if w_aborted w then
    (inl (of_db (DbPg pg_in_failed_transaction)), World (w_db w) (Datatypes.S n) true (w_locks w))
  else match or_fault o n with
  | Some e => (inl (of_db e), World (w_db w) (Datatypes.S n) true (w_locks w))
  | None =>
      match f (or_clock o n) (w_db w) with
      | inl e => (inl (of_db e), World (w_db w) (Datatypes.S n) true (w_locks w))
      | inr (a, s) => (inr a, World s (Datatypes.S n) false (w_locks w))
      end
  end.

Definition query {A} (f : S → A) : M S E A := stmt (λ _ s, inr (f s, s)).
Definition exec (f : S → S) : M S E unit := stmt (λ _ s, inr (tt, f s)).
Definition db_now : M S E Z := stmt (λ t s, inr (t, s)).

(** [pg_advisory_xact_lock]: held until the transaction ends. *)
Definition advisory_lock (key : string) : M S E unit := λ o w,
  match query (λ _, tt) o w with
  | (inl e, w') => (inl e, w')
  | (inr _, w') => (inr tt, World (w_db w') (w_tick w') (w_aborted w') (w_locks w' ++ [key]))
  end.

(** A statement sent to the pool outside a transaction: it commits by itself. *)
Definition pool_stmt {A} (f : Z → S → dberr + (A * S)) : M S E A := λ o w,
  let n := w_tick w in
  match or_fault o n with
  | Some e => (inl (of_db e), World (w_db w) (Datatypes.S n) (w_aborted w) (w_locks w))
  | None =>
      match f (or_clock o n) (w_db w) with
      | inl e => (inl (of_db e), World (w_db w) (Datatypes.S n) (w_aborted w) (w_locks w))
      | inr (a, s) => (inr a, World s (Datatypes.S n) (w_aborted w) (w_locks w))
      end
  end.
Definition pool_query {A} (f : Z → S → A) : M S E A := pool_stmt (λ t s, inr (f t s, s)).

(** How a transaction body ends: by asking for [COMMIT], or by returning a
    value and leaving the deferred rollback to run. *)
Inductive txend (A : Type) := Commit (a : A) | Leave (a : A).
Arguments Commit {A} a.
Arguments Leave {A} a.

Definition transaction {A} (body : M S E (txend A)) : M S E A := λ o w,
  let n := w_tick w in
  match or_fault o n with
  | Some e => (inl (of_db e), World (w_db w) (Datatypes.S n) false [])
  | None =>
      match body o (World (w_db w) (Datatypes.S n) false []) with
      | (inl e, w1) => (inl e, World (w_db w) (w_tick w1) false (w_locks w1))
      | (inr (Leave a), w1) => (inr a, World (w_db w) (w_tick w1) false (w_locks w1))
      | (inr (Commit a), w1) =>
          let m := w_tick w1 in
          if w_aborted w1 then
            (inl (of_db (DbPg pg_in_failed_transaction)), World (w_db w) (Datatypes.S m) false (w_locks w1))
          else match or_fault o m with
          | Some e =>
              let s := if or_landed o m then w_db w1 else w_db w in
              (inl (of_db e), World s (Datatypes.S m) false (w_locks w1))
          | None => (inr a, World (w_db w1) (Datatypes.S m) false (w_locks w1))
          end
      end
  end.
End ops.
Arguments Commit {A} a.
Arguments Leave {A} a.

(** [for _, x := range l] with a body that may return early with an error. *)
Fixpoint for_each {S E A} (l : list A) (f : A → M S E unit) : M S E unit :=
  match l with
  | [] => mret tt
  | x :: l => f x ;; for_each l f
  end.

(** The same with an accumulator. *)
Fixpoint fold_m {S E A B} (f : B → A → M S E B) (b : B) (l : list A) : M S E B :=
  match l with
  | [] => mret b
  | x :: l => b' ← f b x; fold_m f b' l
  end.

(** ** Reasoning about runs *)

Section laws.
Context {S E : Type} `{!DbError E}.
Implicit Types (o : oracle) (w : world S).

Lemma ret_ok {A} (a b : A) o w w' :
  (mret a : M S E A) o w = (inr b, w') → b = a ∧ w' = w.
Proof. cbn. by intros [= <- <-]. Qed.

Lemma bind_ok {A B} (m : M S E A) (f : A → M S E B) o w b w' :
  (m ≫= f) o w = (inr b, w') →
  ∃ a w1, m o w = (inr a, w1) ∧ f a o w1 = (inr b, w').
Proof.
  unfold mbind, M_bind. destruct (m o w) as [[e|a] w1]; [done|]. eauto.
Qed.

Lemma bind_fails {A B} (m : M S E A) (f : A → M S E B) o w e w' :
  (m ≫= f) o w = (inl e, w') →
  m o w = (inl e, w') ∨ ∃ a w1, m o w = (inr a, w1) ∧ f a o w1 = (inl e, w').
Proof. unfold mbind, M_bind. destruct (m o w) as [[e1|a] w1]; [|by eauto]. intros [= <- <-]. by left. Qed.

Lemma throw_ok {A} (e : E) (a : A) o w w' : (throw e : M S E A) o w = (inr a, w') → False.
Proof. done. Qed.

Lemma stmt_ok {A} (f : Z → S → dberr + (A * S)) o w a w' :
  (stmt f : M S E A) o w = (inr a, w') →
  w_aborted w = false ∧ or_fault o (w_tick w) = None ∧
  ∃ s, f (or_clock o (w_tick w)) (w_db w) = inr (a, s) ∧
       w' = World s (Datatypes.S (w_tick w)) false (w_locks w).
Proof.
  unfold stmt. destruct (w_aborted w); [done|].
  destruct (or_fault _ _); [done|].
  destruct (f _ _) as [?|[? ?]] eqn:Hf; [done|].
  intros [= <- <-]. eauto.
Qed.

(** A statement fails with a raw database error: of the environment, or the
    one the server answers with. *)
Lemma stmt_fails {A} (f : Z → S → dberr + (A * S)) o w e w' :
  (stmt f : M S E A) o w = (inl e, w') →
  ∃ er, e = of_db er ∧
    (w_aborted w = true ∨ or_fault o (w_tick w) = Some er ∨ f (or_clock o (w_tick w)) (w_db w) = inl er).
Proof.
  unfold stmt. destruct (w_aborted w); [intros [= <- _]; eauto|].
  destruct (or_fault _ _) as [er|]; [intros [= <- _]; eauto|].
  destruct (f _ _) as [er|[? ?]] eqn:Hf; [|done]. intros [= <- _]. eauto.
Qed.

Lemma query_ok {A} (f : S → A) o w a w' :
  (query f : M S E A) o w = (inr a, w') →
  a = f (w_db w) ∧ w' = World (w_db w) (Datatypes.S (w_tick w)) false (w_locks w).
Proof. intros (_&_&s&[= -> ->]&->)%stmt_ok. done. Qed.

Lemma exec_ok (f : S → S) o w a w' :
  (exec f : M S E unit) o w = (inr a, w') →
  w' = World (f (w_db w)) (Datatypes.S (w_tick w)) false (w_locks w).
Proof. intros (_&_&s&[= _ ->]&->)%stmt_ok. done. Qed.

Lemma db_now_ok o w t w' :
  (db_now : M S E Z) o w = (inr t, w') →
  t = or_clock o (w_tick w) ∧
  w' = World (w_db w) (Datatypes.S (w_tick w)) false (w_locks w).
Proof. intros (_&_&s&[= -> ->]&->)%stmt_ok. done. Qed.

Lemma go_now_ok o w t w' :
  (go_now : M S E Z) o w = (inr t, w') →
  t = or_clock o (w_tick w) ∧
  w' = World (w_db w) (Datatypes.S (w_tick w)) (w_aborted w) (w_locks w).
Proof. by intros [= <- <-]. Qed.

Lemma new_uuid_ok o w u w' :
  (new_uuid : M S E string) o w = (inr u, w') →
  u = or_uuid o (w_tick w) ∧
  w' = World (w_db w) (Datatypes.S (w_tick w)) (w_aborted w) (w_locks w).
Proof. by intros [= <- <-]. Qed.

Lemma advisory_lock_ok key o w u w' :
  (advisory_lock key : M S E unit) o w = (inr u, w') →
  w' = World (w_db w) (Datatypes.S (w_tick w)) false (w_locks w ++ [key]).
Proof.
  unfold advisory_lock. destruct (query _ o w) as [[e|[]] w1] eqn:H; [done|].
  apply query_ok in H as [_ ->]. by intros [= <- <-].
Qed.

Lemma try_ok {E' A} (m : M S E A) o w r w' :
  (try m : M S E' (E + A)) o w = (inr r, w') → m o w = (r, w').
Proof. unfold try. destruct (m o w) as [r1 w1]. by intros [= -> ->]. Qed.

(** A transaction leaves either the old database or the one its body built and
    asked to commit; in the second case no statement of it had failed. *)
Lemma transaction_cases {A} (body : M S E (txend A)) o w r w' :
  transaction body o w = (r, w') →
  w_db w' = w_db w ∨
  ∃ a w1, body o (World (w_db w) (Datatypes.S (w_tick w)) false []) = (inr (Commit a), w1) ∧
          w_aborted w1 = false ∧ w_db w' = w_db w1.
Proof.
  unfold transaction. destruct (or_fault o (w_tick w)); [intros [= _ <-]; by left|].
  destruct (body _ _) as [[e|[a|a]] w1] eqn:Hb; try (intros [= _ <-]; by left).
  destruct (w_aborted w1) eqn:Ha; [intros [= _ <-]; by left|].
  destruct (or_fault o (w_tick w1)); [|intros [= _ <-]; right; eauto].
  destruct (or_landed o (w_tick w1)); intros [= _ <-]; [right; eauto|by left].
Qed.

(** When the transaction reports success, what it reports is what the body
    returned, and the database is the body's exactly when it asked to commit. *)
Lemma transaction_ok {A} (body : M S E (txend A)) o w a w' :
  transaction body o w = (inr a, w') →
  ∃ w1, let w0 := World (w_db w) (Datatypes.S (w_tick w)) false [] in
    (body o w0 = (inr (Commit a), w1) ∧ w_aborted w1 = false ∧ w_db w' = w_db w1) ∨
    (body o w0 = (inr (Leave a), w1) ∧ w_db w' = w_db w).
Proof.
  unfold transaction. destruct (or_fault o (w_tick w)); [done|].
  destruct (body _ _) as [[e|[b|b]] w1] eqn:Hb; [done| |].
  - destruct (w_aborted w1) eqn:Ha; [done|].
    destruct (or_fault o (w_tick w1)); [done|].
    intros [= <- <-]. exists w1. left. eauto.
  - intros [= <- <-]. exists w1. right. eauto.
Qed.

(** When it reports an error, the error is the body's, or one of the database. *)
Lemma transaction_fails {A} (body : M S E (txend A)) o w e w' :
  transaction body o w = (inl e, w') →
  (∃ w1, body o (World (w_db w) (Datatypes.S (w_tick w)) false []) = (inl e, w1) ∧ w_db w' = w_db w) ∨
  ∃ er, e = of_db er ∧
    ((∃ n, or_fault o n = Some er) ∨
     ∃ a w1, body o (World (w_db w) (Datatypes.S (w_tick w)) false []) = (inr (Commit a), w1) ∧ w_aborted w1 = true).
Proof.
  unfold transaction. destruct (or_fault o (w_tick w)) as [f|] eqn:Hf; [intros [= <- _]; right; eauto|].
  destruct (body _ _) as [[e1|[b|b]] w1] eqn:Hb; [intros [= <- <-]; left; eauto| |done].
  destruct (w_aborted w1) eqn:Ha; [intros [= <- _]; right; eauto 10|].
  destruct (or_fault o (w_tick w1)) as [f|] eqn:Hf1; [intros [= <- _]; right; eauto|done].
Qed.
End laws.

(** To run a computation it is enough to know what it answers. *)
Lemma run_pair {S E A} (m : M S E A) o w r : (m o w).1 = r → m o w = (r, (m o w).2).
Proof. intros <-. apply surjective_pairing. Qed.

(** ** Runs without failures *)

(** No interaction with the database fails. *)
Definition reliable (o : oracle) : Prop := ∀ n, or_fault o n = None.

Section reliable.
Context {S E : Type} `{!DbError E} (o : oracle) (Ho : reliable o).
Implicit Types (w : world S).

Lemma bind_run {A B} (m : M S E A) (f : A → M S E B) w a w1 :
  m o w = (inr a, w1) → (m ≫= f) o w = f a o w1.
Proof. unfold mbind, M_bind. by intros ->. Qed.

Lemma bind_err {A B} (m : M S E A) (f : A → M S E B) w e w1 :
  m o w = (inl e, w1) → (m ≫= f) o w = (inl e, w1).
Proof. unfold mbind, M_bind. by intros ->. Qed.

Lemma stmt_run {A} (f : Z → S → dberr + (A * S)) w a s :
  w_aborted w = false → f (or_clock o (w_tick w)) (w_db w) = inr (a, s) →
  (stmt f : M S E A) o w = (inr a, World s (Datatypes.S (w_tick w)) false (w_locks w)).
Proof. intros Ha Hf. unfold stmt. by rewrite Ha, Ho, Hf. Qed.

Lemma query_run {A} (f : S → A) w : w_aborted w = false →
  (query f : M S E A) o w = (inr (f (w_db w)), World (w_db w) (Datatypes.S (w_tick w)) false (w_locks w)).
Proof. intros Ha. by apply stmt_run. Qed.

Lemma exec_run (f : S → S) w : w_aborted w = false →
  (exec f : M S E unit) o w = (inr tt, World (f (w_db w)) (Datatypes.S (w_tick w)) false (w_locks w)).
Proof. intros Ha. by apply stmt_run. Qed.

Lemma db_now_run w : w_aborted w = false →
  (db_now : M S E Z) o w =
  (inr (or_clock o (w_tick w)), World (w_db w) (Datatypes.S (w_tick w)) false (w_locks w)).
Proof. intros Ha. by apply stmt_run. Qed.

Lemma lock_run key w : w_aborted w = false →
  (advisory_lock key : M S E unit) o w =
  (inr tt, World (w_db w) (Datatypes.S (w_tick w)) false (w_locks w ++ [key])).
Proof. intros Ha. unfold advisory_lock. by rewrite query_run. Qed.

Lemma transaction_leave {A} (body : M S E (txend A)) w a w1 :
  body o (World (w_db w) (Datatypes.S (w_tick w)) false []) = (inr (Leave a), w1) →
  transaction body o w = (inr a, World (w_db w) (w_tick w1) false (w_locks w1)).
Proof. intros H. unfold transaction. by rewrite Ho, H. Qed.

Lemma transaction_commit {A} (body : M S E (txend A)) w a w1 :
  body o (World (w_db w) (Datatypes.S (w_tick w)) false []) = (inr (Commit a), w1) →
  w_aborted w1 = false →
  transaction body o w = (inr a, World (w_db w1) (Datatypes.S (w_tick w1)) false (w_locks w1)).
Proof. intros H Ha. unfold transaction. by rewrite Ho, H, Ha, Ho. Qed.

Lemma transaction_error {A} (body : M S E (txend A)) w e w1 :
  body o (World (w_db w) (Datatypes.S (w_tick w)) false []) = (inl e, w1) →
  transaction body o w = (inl e, World (w_db w) (w_tick w1) false (w_locks w1)).
Proof. intros H. unfold transaction. by rewrite Ho, H. Qed.
End reliable.

(** [m] cannot fail when the database does not. *)
Definition runs {S E A} (m : M S E A) : Prop :=
  ∀ o w, reliable o → w_aborted w = false → ∃ a w', m o w = (inr a, w') ∧ w_aborted w' = false.

Create HintDb runs.

Section runs.
Context {S E : Type} `{!DbError E}.

Lemma runs_ret {A} (a : A) : runs (mret a : M S E A).
Proof. intros o w Ho Ha. eauto. Qed.
Lemma runs_bind {A B} (m : M S E A) (f : A → M S E B) : runs m → (∀ a, runs (f a)) → runs (m ≫= f).
Proof.
  intros Hm Hf o w Ho Ha. destruct (Hm o w Ho Ha) as (a & w1 & E1 & H1).
  destruct (Hf a o w1 Ho H1) as (b & w2 & E2 & H2). exists b, w2. split; [|done].
  unfold mbind, M_bind. by rewrite E1.
Qed.
Lemma runs_query {A} (f : S → A) : runs (query f : M S E A).
Proof. intros o w Ho Ha. rewrite query_run by done. eauto. Qed.
Lemma runs_exec (f : S → S) : runs (exec f : M S E unit).
Proof. intros o w Ho Ha. rewrite exec_run by done. eauto. Qed.
Lemma runs_db_now : runs (db_now : M S E Z).
Proof. intros o w Ho Ha. rewrite db_now_run by done. eauto. Qed.
Lemma runs_lock key : runs (advisory_lock key : M S E unit).
Proof. intros o w Ho Ha. rewrite lock_run by done. eauto. Qed.
Lemma runs_new_uuid : runs (new_uuid : M S E string).
Proof. intros o w Ho Ha. eexists _, _. by split. Qed.
Lemma runs_try {E' A} (m : M S E A) : runs m → runs (try m : M S E' _).
Proof.
  intros Hm o w Ho Ha. destruct (Hm o w Ho Ha) as (a & w1 & E1 & H1). unfold try. rewrite E1. eauto.
Qed.
Lemma runs_stmt_ok {A} (f : Z → S → dberr + (A * S)) :
  (∀ t s, ∃ a s', f t s = inr (a, s')) → runs (stmt f : M S E A).
Proof.
  intros Hf o w Ho Ha. destruct (Hf (or_clock o (w_tick w)) (w_db w)) as (a & s' & Hs).
  eexists _, _. split; [by apply stmt_run|done].
Qed.
Lemma runs_for_each {A} (l : list A) (f : A → M S E unit) : (∀ x, runs (f x)) → runs (for_each l f).
Proof. intros Hf. induction l as [|x l IH]; cbn; [apply runs_ret|]. by apply runs_bind. Qed.
End runs.

#[export] Hint Resolve runs_ret runs_bind runs_query runs_exec runs_db_now runs_lock runs_new_uuid
  runs_try runs_for_each : runs.

(** Walk through a computation none of whose branches fails. *)
Ltac always_runs :=
  repeat first
    [ solve [eauto with runs]
    | progress cbv beta zeta
    | apply runs_bind; [|intros ?]
    | apply runs_for_each; intros ?
    | match goal with |- runs (match ?x with _ => _ end) => destruct x end ].

(** Take a successful run apart, one bind at a time. *)
Ltac run_inv1 H :=
  lazymatch type of H with
  | (_ ≫= _) _ _ = (inr _, _) =>
      let a := fresh "a" in let w1 := fresh "w" in let H1 := fresh "Hrun" in
      apply bind_ok in H; destruct H as (a & w1 & H1 & H); run_inv1 H1
  | mret _ _ _ = (inr _, _) => apply ret_ok in H; destruct H as [? ?]; subst
  | throw _ _ _ = (inr _, _) => exfalso; exact (throw_ok _ _ _ _ _ H)
  | query _ _ _ = (inr _, _) => apply query_ok in H; destruct H as [? ?]; subst
  | exec _ _ _ = (inr _, _) => apply exec_ok in H; subst
  | db_now _ _ = (inr _, _) => apply db_now_ok in H; destruct H as [? ?]; subst
  | go_now _ _ = (inr _, _) => apply go_now_ok in H; destruct H as [? ?]; subst
  | new_uuid _ _ = (inr _, _) => apply new_uuid_ok in H; destruct H as [? ?]; subst
  | advisory_lock _ _ _ = (inr _, _) => apply advisory_lock_ok in H; subst
  | _ => idtac
  end.

Ltac run_inv H :=
  repeat (progress (run_inv1 H); cbn [w_db w_tick w_aborted w_locks] in *).

(** Invariants of whole operations. *)
Definition preserves {S E A} (P : S → Prop) (m : M S E A) : Prop :=
  ∀ o w, P (w_db w) → P (w_db (m o w).2).

Create HintDb preserves.

Section preserves.
Context {S E : Type} `{!DbError E} (P : S → Prop).

Lemma preserves_ret {A} (a : A) : preserves P (mret a : M S E A).
Proof. by intros o w. Qed.
Lemma preserves_throw {A} (e : E) : preserves P (throw e : M S E A).
Proof. by intros o w. Qed.
Lemma preserves_bind {A B} (m : M S E A) (f : A → M S E B) :
  preserves P m → (∀ a, preserves P (f a)) → preserves P (m ≫= f).
Proof.
  intros Hm Hf o w Hw. unfold mbind, M_bind. specialize (Hm o w Hw).
  destruct (m o w) as [[e|a] w1]; [done|]. by apply Hf.
Qed.
Lemma preserves_try {E' A} (m : M S E A) : preserves P m → preserves P (try m : M S E' _).
Proof. intros Hm o w Hw. specialize (Hm o w Hw). unfold try. by destruct (m o w). Qed.
Lemma preserves_go_now : preserves P (go_now : M S E Z).
Proof. by intros o w. Qed.
Lemma preserves_new_uuid : preserves P (new_uuid : M S E string).
Proof. by intros o w. Qed.
Lemma preserves_pool_query {A} (f : Z → S → A) : preserves P (pool_query f : M S E A).
Proof. intros o w Hw. unfold pool_query, pool_stmt. by destruct (or_fault _ _). Qed.
Lemma preserves_pool_stmt {A} (f : Z → S → dberr + (A * S)) :
  (∀ t s a s', P s → f t s = inr (a, s') → P s') → preserves P (pool_stmt f : M S E A).
Proof.
  intros Hf o w Hw. unfold pool_stmt. destruct (or_fault _ _); [done|].
  destruct (f _ _) as [?|[? ?]] eqn:H; [done|]. cbn. eauto.
Qed.
Lemma preserves_stmt {A} (f : Z → S → dberr + (A * S)) :
  (∀ t s a s', P s → f t s = inr (a, s') → P s') → preserves P (stmt f : M S E A).
Proof.
  intros Hf o w Hw. unfold stmt. destruct (w_aborted w); [done|].
  destruct (or_fault _ _); [done|].
  destruct (f _ _) as [?|[? ?]] eqn:H; [done|]. cbn. eauto.
Qed.
Lemma preserves_query {A} (f : S → A) : preserves P (query f : M S E A).
Proof. apply preserves_stmt. by intros ? ? ? ? ? [= <- <-]. Qed.
Lemma preserves_exec (f : S → S) : (∀ s, P s → P (f s)) → preserves P (exec f : M S E unit).
Proof. intros Hf. apply preserves_stmt. intros ? ? ? ? ? [= <- <-]. auto. Qed.
Lemma preserves_db_now : preserves P (db_now : M S E Z).
Proof. apply preserves_stmt. by intros ? ? ? ? ? [= <- <-]. Qed.
Lemma preserves_lock key : preserves P (advisory_lock key : M S E unit).
Proof.
  intros o w Hw. unfold advisory_lock. pose proof (preserves_query (λ _, tt) o w Hw) as H.
  destruct (query _ o w) as [[e|a] w1]; done.
Qed.
Lemma preserves_ignore_try {A B} (m : M S E A) (f : E + A → M S E B) :
  preserves P m → (∀ r, preserves P (f r)) → preserves P ((try m : M S E _) ≫= f).
Proof. intros Hm Hf. apply preserves_bind; [by apply preserves_try|done]. Qed.
Lemma preserves_fold_m {A B} (f : B → A → M S E B) l : (∀ b a, preserves P (f b a)) →
  ∀ b, preserves P (fold_m f b l).
Proof.
  intros Hf. induction l as [|x l IH]; intros b; cbn; [apply preserves_ret|].
  apply preserves_bind; auto.
Qed.
Lemma preserves_for_each {A} (l : list A) (f : A → M S E unit) :
  (∀ a, preserves P (f a)) → preserves P (for_each l f).
Proof.
  intros Hf. induction l as [|x l IH]; cbn; [apply preserves_ret|].
  by apply preserves_bind.
Qed.
Lemma preserves_transaction {A} (body : M S E (txend A)) :
  (∀ o w a w', P (w_db w) → w_aborted w = false → body o w = (inr (Commit a), w') →
     w_aborted w' = false → P (w_db w')) →
  preserves P (transaction body).
Proof.
  intros Hb o w Hw. destruct (transaction body o w) as [r w'] eqn:H. cbn.
  apply transaction_cases in H as [->|(a&w1&H&Ha&->)]; [done|].
  by eapply Hb in H.
Qed.
Lemma preserves_transaction_body {A} (body : M S E (txend A)) : preserves P body → preserves P (transaction body).
Proof.
  intros Hb. apply preserves_transaction. intros o w a w' Hw _ H _. specialize (Hb o w Hw). by rewrite H in Hb.
Qed.
End preserves.

#[export] Hint Resolve preserves_ret preserves_throw preserves_bind preserves_try
  preserves_go_now preserves_new_uuid preserves_pool_query preserves_query
  preserves_db_now preserves_lock preserves_for_each preserves_fold_m : preserves.

(** Walk through a computation whose statements all keep [P]: binds, branches
    and loops are taken apart, statements are left to [auto]. *)
Ltac preserve :=
  repeat first
    [ solve [eauto with preserves]
    | progress cbv beta zeta
    | lazymatch goal with
      | |- preserves _ (_ ≫= _) => apply preserves_bind; [|intros ?]
      | |- preserves _ (exec _) => apply preserves_exec; intros ? ?; solve [auto]
      | |- preserves _ (try _) => apply preserves_try
      | |- preserves _ (for_each _ _) => apply preserves_for_each; intros ?
      | |- preserves _ (fold_m _ _ _) => apply preserves_fold_m; intros ? ?
      | |- preserves _ (match ?x with _ => _ end) => destruct x eqn:?
      end ].
