(* ===== verification/GoStd.v ===== *)
(** The parts of Go's standard library the services rely on: UTF-8 decoding,
    [strings.TrimSpace] and [ToUpper]/[ToLower], and parsing of calendar
    dates.  A Go string is a Rocq [string], a sequence of bytes. *)

From Stdlib Require Import Ascii String.
From S2P Require Import Prelude.
Local Open Scope Z_scope.
Local Open Scope list_scope.

(** ** Bytes and runes *)

Definition byte_of (c : ascii) : Z := Z.of_N (N_of_ascii c).

Fixpoint bytes (s : string) : list Z :=
  match s with EmptyString => [] | String c s => byte_of c :: bytes s end.

Fixpoint of_bytes (l : list Z) : string :=
  match l with [] => EmptyString | b :: l => String (ascii_of_N (Z.to_N b)) (of_bytes l) end.

Lemma bytes_range s : Forall (λ b, 0 ≤ b < 256) (bytes s).
Proof. induction s as [|c s IH]; constructor; [|done]. unfold byte_of. pose proof (N_ascii_bounded c). lia. Qed.
Lemma bytes_of_bytes l : Forall (λ b, 0 ≤ b < 256) l → bytes (of_bytes l) = l.
Proof.
  induction 1 as [|b l Hb _ IH]; [done|]. cbn. rewrite IH. f_equal. unfold byte_of. rewrite N_ascii_embedding by lia. lia.
Qed.
Lemma bytes_length s : List.length (bytes s) = String.length s.
Proof. induction s as [|c s IH]; cbn; congruence. Qed.
Lemma of_bytes_bytes s : of_bytes (bytes s) = s.
Proof. induction s as [|c s IH]; cbn; [done|]. rewrite IH. f_equal. unfold byte_of. rewrite N2Z.id. apply ascii_N_embedding. Qed.

Definition between (lo hi b : Z) : bool := (lo <=? b) && (b <=? hi).
Definition continuation (b : Z) : bool := between 0x80 0xBF b.

(** [utf8.DecodeRune]: the rune at the head and its width.  An invalid or
    incomplete sequence is U+FFFD of width one. *)
Definition RuneError : Z := 0xFFFD.

Definition decode_rune (l : list Z) : Z * nat :=
  match l with
  | [] => (RuneError, 0%nat)
  | b0 :: l1 =>
      if b0 <? 0x80 then (b0, 1%nat)
      else if between 0xC2 0xDF b0 then
        match l1 with
        | b1 :: _ =>
            if continuation b1 then ((b0 - 0xC0) * 64 + (b1 - 0x80), 2%nat) else (RuneError, 1%nat)
        | _ => (RuneError, 1%nat)
        end
      else if between 0xE0 0xEF b0 then
        match l1 with
        | b1 :: b2 :: _ =>
            let lo := if b0 =? 0xE0 then 0xA0 else 0x80 in
            let hi := if b0 =? 0xED then 0x9F else 0xBF in
            if between lo hi b1 && continuation b2
            then ((b0 - 0xE0) * 4096 + (b1 - 0x80) * 64 + (b2 - 0x80), 3%nat)
            else (RuneError, 1%nat)
        | _ => (RuneError, 1%nat)
        end
      else if between 0xF0 0xF4 b0 then
        match l1 with
        | b1 :: b2 :: b3 :: _ =>
            let lo := if b0 =? 0xF0 then 0x90 else 0x80 in
            let hi := if b0 =? 0xF4 then 0x8F else 0xBF in
            if between lo hi b1 && continuation b2 && continuation b3
            then ((b0 - 0xF0) * 262144 + (b1 - 0x80) * 4096 + (b2 - 0x80) * 64 + (b3 - 0x80), 4%nat)
            else (RuneError, 1%nat)
        | _ => (RuneError, 1%nat)
        end
      else (RuneError, 1%nat)
  end.

(** The runes of a byte sequence, each with the bytes it came from.  Every
    decoding step consumes at least one byte, so the length is enough fuel. *)
Fixpoint runes_fuel (fuel : nat) (l : list Z) : list (Z * list Z) :=
  match fuel, l with
  | S fuel, _ :: _ =>
      let '(r, n) := decode_rune l in (r, take n l) :: runes_fuel fuel (drop n l)
  | _, _ => []
  end.
Definition runes (s : string) : list (Z * list Z) := runes_fuel (String.length s) (bytes s).

(** [utf8.RuneCountInString(s)] and [len([]rune(s))]. *)
Definition rune_count (s : string) : Z := Z.of_nat (List.length (runes s)).

(** [unicode.IsSpace]. *)
Definition is_space (r : Z) : bool :=
  between 0x09 0x0D r || (r =? 0x20) || (r =? 0x85) || (r =? 0xA0) || (r =? 0x1680)
  || between 0x2000 0x200A r || (r =? 0x2028) || (r =? 0x2029) || (r =? 0x202F)
  || (r =? 0x205F) || (r =? 0x3000).

Fixpoint drop_spaces (l : list (Z * list Z)) : list (Z * list Z) :=
  match l with
  | (r, c) :: l' => if is_space r then drop_spaces l' else l
  | [] => []
  end.

(** [strings.TrimSpace]. *)
Definition trim_space (s : string) : string :=
  of_bytes (mjoin (snd <$> reverse (drop_spaces (reverse (drop_spaces (runes s)))))).

(** [strings.Fields]: the maximal runs of runes that are not white space. *)
Fixpoint fields_loop (word : list (list Z)) (l : list (Z * list Z)) : list (list (list Z)) :=
  match l with
  | [] => if bool_decide (word = []) then [] else [word]
  | (r, c) :: l =>
      if is_space r then
        if bool_decide (word = []) then fields_loop [] l else word :: fields_loop [] l
      else fields_loop (word ++ [c]) l
  end.
Definition fields (s : string) : list string := (λ w, of_bytes (mjoin w)) <$> fields_loop [] (runes s).

(** [strings.ToUpper] and [strings.ToLower] on ASCII text. *)
Fixpoint map_bytes (f : Z → Z) (s : string) : string :=
  match s with
  | EmptyString => EmptyString
  | String c s => String (ascii_of_N (Z.to_N (f (byte_of c)))) (map_bytes f s)
  end.
Definition to_upper : string → string := map_bytes (λ b, if between 97 122 b then b - 32 else b).
Definition to_lower : string → string := map_bytes (λ b, if between 65 90 b then b + 32 else b).
Lemma to_lower_again s : to_lower (to_lower s) = to_lower s.
Proof.
  unfold to_lower. induction s as [|c s IH]; [done|]. cbn [map_bytes]. rewrite IH. f_equal. clear.
  destruct c as [[] [] [] [] [] [] [] []]; reflexivity.
Qed.

(** [strings.EqualFold(s, t)] for a [t] of ASCII letters other than k and s: no
    rune outside ASCII folds to such a letter. *)
Definition equal_fold (s t : string) : bool := bool_decide (to_lower s = to_lower t).

(** [strings.ContainsRune(s, 0)]: byte 0 is the only encoding of U+0000. *)
Definition contains_nul (s : string) : bool := existsb (λ b, b =? 0) (bytes s).

Definition has_prefix (p s : string) : bool := String.prefix p s.

(** [strings.Contains]. *)
Fixpoint contains (sub s : string) : bool :=
  String.prefix sub s || match s with EmptyString => false | String _ s' => contains sub s' end.

(** ** Calendar dates *)

Definition leap (y : Z) : bool :=
  (y mod 4 =? 0) && (negb (y mod 100 =? 0) || (y mod 400 =? 0)).

Definition days_in (m y : Z) : Z :=
  if m =? 2 then (if leap y then 29 else 28)
  else if (m =? 4) || (m =? 6) || (m =? 9) || (m =? 11) then 30 else 31.

(** Days from 1 January 1970 to a date of the proleptic Gregorian calendar. *)
Definition days_from_civil (y m d : Z) : Z :=
  let y := if m <=? 2 then y - 1 else y in
  let era := y / 400 in
  let yoe := y - era * 400 in
  let mp := (m + 9) mod 12 in
  let doy := (153 * mp + 2) / 5 + d - 1 in
  let doe := yoe * 365 + yoe / 4 - yoe / 100 + doy in
  era * 146097 + doe - 719468.

Definition day : Z := 24 * hour.

Definition digit (b : Z) : option Z := if between 48 57 b then Some (b - 48) else None.

Fixpoint digits (n : nat) (acc : Z) (l : list Z) : option (Z * list Z) :=
  match n, l with
  | O, _ => Some (acc, l)
  | S n, b :: l => d ← digit b; digits n (acc * 10 + d) l
  | S _, [] => None
  end.

Definition dash (l : list Z) : option (list Z) :=
  match l with b :: l => if b =? 45 then Some l else None | [] => None end.

(** [time.Parse("2006-01-02", s)]. *)
Definition parse_date (s : string) : option Z :=
  '(y, l) ← digits 4 0 (bytes s);
  l ← dash l;
  '(m, l) ← digits 2 0 l;
  l ← dash l;
  '(d, l) ← digits 2 0 l;
  match l with
  | [] =>
      if between 1 12 m && between 1 (days_in m y) d
      then Some (days_from_civil y m d * day) else None
  | _ => None
  end.

Example parse_date_epoch : parse_date "1970-01-01" = Some 0.
Proof. reflexivity. Qed.
Example parse_date_2026 : parse_date "2026-09-02" = Some (1788307200 * second).
Proof. reflexivity. Qed.
Example parse_date_bad_day : parse_date "2026-02-29" = None.
Proof. reflexivity. Qed.
Example trim_space_nbsp :
  trim_space (of_bytes [32; 0xC2; 0xA0; 65; 66; 9]) = "AB"%string.
Proof. reflexivity. Qed.
Example fields_bearer : fields "  Bearer	abc " = ["Bearer"; "abc"]%string.
Proof. reflexivity. Qed.
Example rune_count_thai : rune_count (of_bytes [0xE0; 0xB8; 0x81; 65]) = 2.
Proof. reflexivity. Qed.

(** Go's [net/url]: what [url.Parse], [URL.Hostname] and [URL.User] say about a
    text, as far as the services look at it.  Bracketed IP literals are checked
    by [net/netip], which is the parameter [ip_literal]. *)

Local Open Scope Z_scope.
Local Open Scope list_scope.

Definition alpha (b : Z) : bool := between 65 90 b || between 97 122 b.
Definition is_digit (b : Z) : bool := between 48 57 b.

(** [strings.Cut] at a byte: what precedes it, and what follows if it occurs. *)
Fixpoint cut (sep : Z) (l : list Z) : list Z * option (list Z) :=
  match l with
  | [] => ([], None)
  | b :: l =>
      if b =? sep then ([], Some l)
      else let '(x, y) := cut sep l in (b :: x, y)
  end.

(** Split at the last occurrence of a byte. *)
Fixpoint cut_last (sep : Z) (l : list Z) : option (list Z * list Z) :=
  match l with
  | [] => None
  | b :: l =>
      match cut_last sep l with
      | Some (x, y) => Some (b :: x, y)
      | None => if b =? sep then Some ([], l) else None
      end
  end.

Definition control (b : Z) : bool := (b <? 0x20) || (b =? 0x7f).

(** [getScheme]: an error, no scheme, or a scheme with the rest. *)
Inductive scheme_result := SchemeError | NoScheme | Scheme (s rest : list Z).
Fixpoint get_scheme (i : nat) (acc l : list Z) : scheme_result :=
  match l with
  | [] => NoScheme
  | b :: l =>
      if alpha b then get_scheme (S i) (acc ++ [b]) l
      else if is_digit b || (b =? 43) || (b =? 45) || (b =? 46)
      then match i with O => NoScheme | _ => get_scheme (S i) (acc ++ [b]) l end
      else if b =? 58 then match i with O => SchemeError | _ => Scheme acc l end
      else NoScheme
  end.

Definition unhex (b : Z) : option Z :=
  if is_digit b then Some (b - 48)
  else if between 97 102 b then Some (b - 87)
  else if between 65 70 b then Some (b - 55)
  else None.

(** [unescape] of a path or fragment fails on a malformed percent escape. *)
Fixpoint escapes_ok (l : list Z) : bool :=
  match l with
  | 37 :: a :: b :: l' =>
      match unhex a, unhex b with Some _, Some _ => escapes_ok l' | _, _ => false end
  | 37 :: _ => false
  | _ :: l' => escapes_ok l'
  | [] => true
  end.

(** Bytes that may stand in a host as they are. *)
Definition host_byte (b : Z) : bool :=
  alpha b || is_digit b || (0x80 <=? b)
  || bool_decide (b ∈ bytes "-_.~!$&'()*+,;=:[]<>") || (b =? 34).

(** [unescape] of a host: only non-ASCII bytes and the percent sign may be
    escaped. *)
Fixpoint unescape_host (l : list Z) : option (list Z) :=
  match l with
  | [] => Some []
  | b :: l =>
      if b =? 37 then
        match l with
        | x :: y :: l' =>
            match unhex x, unhex y with
            | Some h, Some lo =>
                if (h <? 8) && negb ((x =? 50) && (y =? 53)) then None
                else rest ← unescape_host l'; Some (h * 16 + lo :: rest)
            | _, _ => None
            end
        | _ => None
        end
      else if host_byte b then rest ← unescape_host l; Some (b :: rest) else None
  end.

(** [validOptionalPort]. *)
Definition valid_optional_port (l : list Z) : bool :=
  match l with [] => true | b :: l => (b =? 58) && forallb is_digit l end.

Section parse.
Context (ip_literal : string → bool).

(** [parseHost]. *)
Definition parse_host (h : list Z) : option (list Z) :=
  match cut_last 91 h with
  | Some (before, inner) =>
      match cut_last 93 inner with
      | Some (addr, port) =>
          if valid_optional_port port && forallb (λ b, negb (b =? 91)) before
             && bool_decide (before = []) && ip_literal (of_bytes addr)
          then Some h else None
      | None => None
      end
  | None =>
      match cut_last 58 h with
      | Some (_, port) => if forallb is_digit port then unescape_host h else None
      | None => unescape_host h
      end
  end.

(** [URL.Hostname]. *)
Definition hostname (h : list Z) : list Z :=
  let h := match cut_last 58 h with
           | Some (x, port) => if forallb is_digit port then x else h
           | None => h
           end in
  match h, last h with
  | 91 :: t, Some 93 => removelast t
  | _, _ => h
  end.

(** What the code reads of a parsed URL: its scheme, whether it has user
    information, and its host name.  [None] is a parse error. *)
Record URL := MkURL { u_Scheme : string; u_User : bool; u_Hostname : string }.

Definition url_Parse (raw : string) : option URL :=
  let '(u, frag) := cut 35 (bytes raw) in
  if existsb control u then None
  else if negb (match frag with Some f => escapes_ok f | None => true end) then None
  else if bool_decide (u = [42]) then Some (MkURL "" false "")
  else
    match get_scheme 0 [] u with
    | SchemeError => None
    | NoScheme =>
        let '(rest, _) := cut 63 u in
        (* without a scheme the services refuse the URL whatever else it is *)
        if escapes_ok rest then Some (MkURL "" false "") else None
    | Scheme s rest =>
        let scheme := to_lower (of_bytes s) in
        let '(rest, _) := cut 63 rest in
        match rest with
        | 47 :: 47 :: rest =>
            let '(authority, path) := cut 47 rest in
            if negb (escapes_ok (default [] path)) then None
            else match cut_last 64 authority with
            | Some (_, h) =>
                _ ← parse_host h; Some (MkURL scheme true "")
            | None =>
                h ← parse_host authority;
                Some (MkURL scheme false (of_bytes (hostname h)))
            end
        | 47 :: rest => if escapes_ok rest then Some (MkURL scheme false "") else None
        | _ => Some (MkURL scheme false "")
        end
    end.
End parse.

Example url_stripe :
  url_Parse (λ _, false) "https://checkout.stripe.com:443/c/pay/cs_test_a1?x=1#frag" =
  Some (MkURL "https" false "checkout.stripe.com").
Proof. reflexivity. Qed.
Example url_userinfo : u_User <$> url_Parse (λ _, false) "https://stripe.com@evil.example/" = Some true.
Proof. reflexivity. Qed.
Example url_opaque : u_Hostname <$> url_Parse (λ _, false) "https:checkout" = Some "".
Proof. reflexivity. Qed.
Example url_bad_escape : url_Parse (λ _, false) "https://shop.example/%zz" = None.
Proof. reflexivity. Qed.

(** gRPC as the services use it: status codes, the errors a client sees, and
    protobuf timestamps. *)


Inductive Code :=
  | OK | Canceled | Unknown | InvalidArgument | DeadlineExceeded | NotFound | AlreadyExists
  | PermissionDenied | ResourceExhausted | FailedPrecondition | Aborted | OutOfRange
  | Unimplemented | Internal | Unavailable | DataLoss | Unauthenticated.
#[global] Instance Code_eq_dec : EqDecision Code.
Proof. solve_decision. Defined.

(** An error of a client call: a gRPC status, or an error that carries none. *)
Inductive RpcErr := RpcStatus (c : Code) (msg : string) | RpcOther.
#[global] Instance RpcErr_eq_dec : EqDecision RpcErr.
Proof. solve_decision. Defined.

(** [status.Code(err)]. *)
Definition code_of (e : RpcErr) : Code :=
  match e with RpcStatus c _ => c | RpcOther => Unknown end.

(** [timestamppb.Timestamp]. *)
Record Timestamp := MkTimestamp { ts_Seconds : Z; ts_Nanos : Z }.

(** [CheckValid]: between year 1 and year 9999, nanoseconds in range. *)
Definition ts_valid (t : Timestamp) : bool :=
  bool_decide (-62135596800 ≤ ts_Seconds t) && bool_decide (ts_Seconds t ≤ 253402300799)
  && bool_decide (0 ≤ ts_Nanos t) && bool_decide (ts_Nanos t < second).

Definition AsTime (t : Timestamp) : Z := ts_Seconds t * second + ts_Nanos t.

(** [timestamppb.New]. *)
Definition ts_New (t : Z) : Timestamp := MkTimestamp (t / second) (t mod second).

Lemma AsTime_New t : AsTime (ts_New t) = t.
Proof. unfold AsTime, ts_New, second. cbn. rewrite (Z.div_mod t 1000000000) at 3 by lia. lia. Qed.

(** The reservation states of the Inventory contract; an unknown name maps to
    the zero value. *)
Inductive PbStatus := PbUnspecified | PbActive | PbConfirmed | PbReleased | PbExpired | PbReturned.
#[global] Instance PbStatus_eq_dec : EqDecision PbStatus.
Proof. solve_decision. Defined.

Record PbAllocation := MkPbAllocation { pa_FlavorId : string; pa_BatchId : string; pa_Portions : Z }.

Record PbReservation := MkPbReservation {
  pr_ReservationId : string;
  pr_OrderId : string;
  pr_Status : PbStatus;
  pr_Allocations : list PbAllocation;
  pr_CreatedAt : option Timestamp;
  pr_ExpiresAt : option Timestamp
}.

Record PbPortionRequest := MkPortionRequest { pp_FlavorId : string; pp_Portions : Z }.
