(* ===== verification/InvModel.v ===== *)
(** Batch Inventory: the data of [internal/inventory/model.go], the actor
    context of [actor.go] and the tables of the inventory schema. *)

From S2P Require Import Prelude Effects GoStd.

(** ** The UUID library

    [github.com/google/uuid] is not part of the repository.  The services use
    three facts about [uuid.Parse] and [UUID.String]: parsing may fail, the
    empty text is no UUID, and the canonical text of a parsed UUID parses to
    itself. *)
Class UuidLib := {
  uuid_parse : string → option string;
  uuid_parse_canonical : ∀ s u, uuid_parse s = Some u → uuid_parse u = Some u;
  uuid_parse_empty : uuid_parse "" = None
}.

Definition uuid_nil : string := "00000000-0000-0000-0000-000000000000".

(** ** Errors *)

(** The sentinel errors of the package; [ErrInvalid] may carry the field that
    [wrapInvalid] adds, and [ErrDb] is an error of the driver. *)
Inductive IErr :=
  | ErrInvalid (field : string)
  | ErrNotFound
  | ErrConflict
  | ErrBatchCodeConflict
  | ErrStock
  | ErrState
  | ErrDependency
  | ErrResponseMissing
  | ErrResponseNotPersisted
  | ErrDecode
  | ErrNoRows
  | ErrDb (e : dberr).
#[global] Instance IErr_eq_dec : EqDecision IErr.
Proof. solve_decision. Defined.
#[global] Instance IErr_db : DbError IErr := ErrDb.

(** ** Data *)

Definition MaxPortions : Z := MaxInt32.

(** Batch and reservation states, as the CHECK constraints of the schema list
    them. *)
Inductive BatchStatus := BActive | BExhausted | BExpired | BArchived.
Inductive ResStatus := RActive | RConfirmed | RReleased | RExpired | RReturned.
#[global] Instance BatchStatus_eq_dec : EqDecision BatchStatus.
Proof. solve_decision. Defined.
#[global] Instance ResStatus_eq_dec : EqDecision ResStatus.
Proof. solve_decision. Defined.

Record Batch := MkBatch {
  b_ID : string;
  b_BatchCode : string;
  b_FlavorID : string;
  b_ProductionDate : string;
  b_ExpiresAt : Z;
  b_Initial : Z;
  b_Available : Z;
  b_Reserved : Z;
  b_Sold : Z;
  b_Wasted : Z;
  b_UnitCost : Z;
  b_Currency : string;
  b_Status : BatchStatus;
  b_CreatedAt : Z;
  b_UpdatedAt : Z
}.
#[global] Instance Batch_eq_dec : EqDecision Batch.
Proof. solve_decision. Defined.

Record CreateInput := MkCreateInput {
  ci_BatchCode : option string;
  ci_FlavorID : string;
  ci_ProductionDate : string;
  ci_ExpiresAt : Z;
  ci_Initial : Z;
  ci_UnitCost : option Z;
  ci_Currency : string
}.
#[global] Instance CreateInput_eq_dec : EqDecision CreateInput.
Proof. solve_decision. Defined.

Record Item := MkItem { it_FlavorID : string; it_Portions : Z }.
#[global] Instance Item_eq_dec : EqDecision Item.
Proof. solve_decision. Defined.

Record Availability := MkAvailability {
  av_FlavorID : string;
  av_Available : Z;
  av_EarliestExpiry : option Z
}.

Record Allocation := MkAllocation {
  al_FlavorID : string;
  al_BatchID : string;
  al_Portions : Z
}.
#[global] Instance Allocation_eq_dec : EqDecision Allocation.
Proof. solve_decision. Defined.

Record Reservation := MkReservation {
  r_ID : string;
  r_OrderID : string;
  r_Status : ResStatus;
  r_Allocations : list Allocation;
  r_CreatedAt : Z;
  r_ExpiresAt : Z
}.
#[global] Instance Reservation_eq_dec : EqDecision Reservation.
Proof. solve_decision. Defined.

Record ReserveInput := MkReserveInput {
  ri_OrderID : string;
  ri_Key : string;
  ri_Items : list Item
}.
#[global] Instance ReserveInput_eq_dec : EqDecision ReserveInput.
Proof. solve_decision. Defined.

Record TransitionInput := MkTransitionInput {
  ti_ReservationID : string;
  ti_OrderID : string;
  ti_Key : string;
  ti_Reason : string
}.
#[global] Instance TransitionInput_eq_dec : EqDecision TransitionInput.
Proof. solve_decision. Defined.

Record WasteInput := MkWasteInput {
  wi_Portions : Z;
  wi_Reason : string;
  wi_Note : string;
  wi_Key : string
}.
#[global] Instance WasteInput_eq_dec : EqDecision WasteInput.
Proof. solve_decision. Defined.

Record WasteRecord := MkWasteRecord {
  wr_ID : string;
  wr_BatchID : string;
  wr_FlavorID : string;
  wr_Portions : Z;
  wr_Reason : string;
  wr_Note : string;
  wr_CostLost : Z;
  wr_Currency : string;
  wr_RecordedAt : Z
}.
#[global] Instance WasteRecord_eq_dec : EqDecision WasteRecord.
Proof. solve_decision. Defined.

(** ** Validation *)

Section validation.
Context {uuid : UuidLib}.

Definition ID (raw : string) : option string :=
  match uuid_parse raw with
  | Some id => if bool_decide (id = uuid_nil) then None else Some id
  | None => None
  end.

(** The loop of [validItems]: [seen] is the map of the source, and the result
    carries the items with their flavor ids in canonical form. *)
Fixpoint validItems_loop (seen : gset string) (items : list Item) : option (list Item) :=
  match items with
  | [] => Some []
  | i :: items =>
      match ID (it_FlavorID i) with
      | None => None
      | Some id =>
          if bool_decide (id ∈ seen) || bool_decide (it_Portions i < 1)
             || bool_decide (it_Portions i > MaxPortions)
          then None
          else rest ← validItems_loop ({[id]} ∪ seen) items;
               Some (MkItem id (it_Portions i) :: rest)
      end
  end.

Definition validItems (items : list Item) : option (list Item) :=
  if bool_decide (length items = 0%nat) || bool_decide (100 < length items)%nat then None
  else validItems_loop ∅ items.

(** [WithActor]: an identity other than a non-nil UUID with role MANAGER or
    STAFF clears the actor. *)
Definition WithActor (subject role : string) : option (string * string) :=
  match uuid_parse subject with
  | Some id =>
      if negb (bool_decide (id = uuid_nil))
         && (bool_decide (role = "MANAGER") || bool_decide (role = "STAFF"))
      then Some (id, role) else None
  | None => None
  end.
End validation.

Definition validReason (v : string) : bool :=
  bool_decide (v = "EXPIRED") || bool_decide (v = "DAMAGED")
  || bool_decide (v = "QUALITY") || bool_decide (v = "ADJUSTMENT").

Definition shortText (v : string) (max : Z) : bool :=
  bool_decide (rune_count v ≤ max) && negb (contains_nul v).

(** ** Tables *)

(** A row of [batches]: the columns of [batchColumns] and the two
    notification marks of migration 000004. *)
Record BatchRow := MkBatchRow {
  br_batch : Batch;
  br_low_stock_notified_at : option Z;
  br_expiring_notified_at : option Z
}.

Record ResRow := MkResRow {
  rr_ID : string;
  rr_OrderID : string;
  rr_Status : ResStatus;
  rr_CreatedAt : Z;
  rr_ExpiresAt : Z;
  rr_UpdatedAt : Z;
  rr_ReleaseReason : string
}.

(** A row of [reservation_allocations]. *)
Record AllocRow := MkAllocRow {
  ar_ReservationID : string;
  ar_BatchID : string;
  ar_FlavorID : string;
  ar_Portions : Z;
  ar_Position : Z
}.

Inductive MoveKind := Produced | Reserved | Confirmed | Released | Wasted | Returned.
#[global] Instance MoveKind_eq_dec : EqDecision MoveKind.
Proof. solve_decision. Defined.

Record Movement := MkMovement {
  mv_ID : string;
  mv_BatchID : string;
  mv_ReservationID : option string;
  mv_Kind : MoveKind;
  mv_Portions : Z;
  mv_OccurredAt : Z;
  mv_Actor : option (string * string)
}.

Record WasteRow := MkWasteRow {
  ws_Record : WasteRecord;
  ws_ActorID : option string
}.

(** The CloudEvents the service writes to its outbox. *)
Inductive EventData :=
  | WasteRecorded (waste_id batch_id flavor_id : string) (date portions : Z)
      (reason : string) (cost_lost_minor : Z)
  | LowStock (batch_id flavor_id : string) (remaining threshold : Z)
  | Expiring (batch_id flavor_id : string) (expires_at : Z).

Record Event := MkEvent { ev_ID : string; ev_Time : Z; ev_Data : EventData }.

Record OutboxRow := MkOutboxRow {
  ob_ID : string;
  ob_Payload : Event;
  ob_CreatedAt : Z;
  ob_PublishedAt : option Z;
  ob_Attempts : Z;
  ob_NextAttemptAt : Z
}.

(** What [mutate] stores as a JSON response, one constructor per result type,
    and what it hashes, one constructor per input type. *)
Inductive Response :=
  | RespReservation (r : Reservation)
  | RespBatch (b : Batch)
  | RespWaste (w : WasteRecord).
#[global] Instance Response_eq_dec : EqDecision Response.
Proof. solve_decision. Defined.

Inductive Body :=
  | BodyReserve (in_ : ReserveInput)
  | BodyTransition (in_ : TransitionInput)
  | BodyCreate (in_ : CreateInput)
  | BodyWaste (batch : string) (in_ : WasteInput).
#[global] Instance Body_eq_dec : EqDecision Body.
Proof. solve_decision. Defined.

(** [sha256(json.Marshal(input))]: digests of bodies.  The claims that need it
    say so with [digest_inj]: two different bodies have different digests. *)
Class Digest := {
  digest_t : Type;
  digest_eq_dec :: EqDecision digest_t;
  digest : Body → digest_t
}.
Definition digest_inj `{!Digest} : Prop := ∀ x y, digest x = digest y → x = y.

Record IdemRow `{!Digest} := MkIdemRow {
  id_RequestHash : digest_t;
  id_Response : option Response
}.
Arguments MkIdemRow {_} _ _.

Record DB `{!Digest} := MkDB {
  batches : gmap string BatchRow;
  reservations : gmap string ResRow;
  reservation_allocations : list AllocRow;
  inventory_movements : list Movement;
  waste_records : list WasteRow;
  idempotency_records : gmap (string * string) IdemRow;
  outbox_events : list OutboxRow
}.
Arguments MkDB {_} _ _ _ _ _ _ _.

Section setters.
Context {dig : Digest}.
Definition set_batches (f : gmap string BatchRow → gmap string BatchRow) (d : DB) : DB :=
  MkDB (f (batches d)) (reservations d) (reservation_allocations d) (inventory_movements d)
    (waste_records d) (idempotency_records d) (outbox_events d).
Definition set_reservations (f : gmap string ResRow → gmap string ResRow) (d : DB) : DB :=
  MkDB (batches d) (f (reservations d)) (reservation_allocations d) (inventory_movements d)
    (waste_records d) (idempotency_records d) (outbox_events d).
Definition add_allocation (a : AllocRow) (d : DB) : DB :=
  MkDB (batches d) (reservations d) (reservation_allocations d ++ [a]) (inventory_movements d)
    (waste_records d) (idempotency_records d) (outbox_events d).
Definition add_movement (m : Movement) (d : DB) : DB :=
  MkDB (batches d) (reservations d) (reservation_allocations d) (inventory_movements d ++ [m])
    (waste_records d) (idempotency_records d) (outbox_events d).
Definition add_waste (x : WasteRow) (d : DB) : DB :=
  MkDB (batches d) (reservations d) (reservation_allocations d) (inventory_movements d)
    (waste_records d ++ [x]) (idempotency_records d) (outbox_events d).
Definition set_idempotency (f : gmap (string * string) IdemRow → gmap (string * string) IdemRow)
    (d : DB) : DB :=
  MkDB (batches d) (reservations d) (reservation_allocations d) (inventory_movements d)
    (waste_records d) (f (idempotency_records d)) (outbox_events d).
Definition set_outbox (f : list OutboxRow → list OutboxRow) (d : DB) : DB :=
  MkDB (batches d) (reservations d) (reservation_allocations d) (inventory_movements d)
    (waste_records d) (idempotency_records d) (f (outbox_events d)).
End setters.

Definition empty_db `{!Digest} : DB := MkDB ∅ ∅ [] [] [] ∅ [].
