(* ===== verification/InvStore.v ===== *)
(** Batch Inventory, storage layer: [internal/inventory/store.go], the REST
    replay lookup of [http_idempotency.go], and the stock alerts of
    [internal/service/inventory_service.go].  Each SQL statement of the source
    is one [stmt], [query] or [exec]. *)

From S2P Require Import Prelude Effects GoStd InvModel.

(** What the handlers put in the request context. *)
Record Ctx := MkCtx { cx_Actor : option (string * string); cx_RestKey : option string }.

Definition currentActor (c : Ctx) : option (string * string) := cx_Actor c.

(** Results that [mutate] can store and replay. *)
Class JsonResult (T : Type) := {
  to_resp : T → Response;
  of_resp : Response → option T;
  of_to_resp : ∀ x, of_resp (to_resp x) = Some x;
  to_of_resp : ∀ y x, of_resp y = Some x → y = to_resp x
}.
#[global] Program Instance json_reservation : JsonResult Reservation :=
  {| to_resp := RespReservation; of_resp r := match r with RespReservation x => Some x | _ => None end |}.
Solve Obligations with by intros; simplify_eq/=; repeat case_match; simplify_eq.
#[global] Program Instance json_batch : JsonResult Batch :=
  {| to_resp := RespBatch; of_resp r := match r with RespBatch x => Some x | _ => None end |}.
Solve Obligations with by intros; simplify_eq/=; repeat case_match; simplify_eq.
#[global] Program Instance json_waste : JsonResult WasteRecord :=
  {| to_resp := RespWaste; of_resp r := match r with RespWaste x => Some x | _ => None end |}.
Solve Obligations with by intros; simplify_eq/=; repeat case_match; simplify_eq.

Record mutationKey := MkKey { mk_operation : string; mk_key : string }.
#[global] Instance mutationKey_eq_dec : EqDecision mutationKey.
Proof. solve_decision. Defined.

(** The order [mutateKeys] claims keys in. *)
Definition key_le (x y : mutationKey) : Prop :=
  if decide (mk_operation x = mk_operation y) then String.le (mk_key x) (mk_key y)
  else String.le (mk_operation x) (mk_operation y).
#[global] Instance key_le_dec x y : Decision (key_le x y).
Proof. unfold key_le. case_decide; apply _. Defined.

Section store.
Context {uuid : UuidLib} {dig : Digest}.
Abbreviation I := (M DB IErr).

Definition invalid {A} : I A := throw (ErrInvalid "").
Definition wrapInvalid {A} (field : string) : I A := throw (ErrInvalid field).

Definition lock (key : string) : I unit := advisory_lock key.

(** [prev] starts as the empty string, like the source. *)
Fixpoint lockFlavors_loop (prev : string) (ids : list string) : I unit :=
  match ids with
  | [] => mret tt
  | id :: ids =>
      if bool_decide (id = prev) then lockFlavors_loop prev ids
      else lock ("flavor:" +:+ id) ;; lockFlavors_loop id ids
  end.
Definition lockFlavors (ids : list string) : I unit :=
  lockFlavors_loop "" (merge_sort String.le ids).

Definition now : I Z := db_now.

(** ** Idempotent mutations *)

(** INSERT ... ON CONFLICT DO NOTHING, with the number of rows affected. *)
Definition insert_idem (k : mutationKey) (h : digest_t) : I Z :=
  stmt (λ _ d, inr (match idempotency_records d !! (mk_operation k, mk_key k) with
    | Some _ => (0, d)
    | None => (1, set_idempotency <[(mk_operation k, mk_key k) := MkIdemRow h None]> d)
    end)).

Definition update_response (k : mutationKey) (r : Response) : I Z :=
  stmt (λ _ d, inr (match idempotency_records d !! (mk_operation k, mk_key k) with
    | Some row =>
        (1, set_idempotency <[(mk_operation k, mk_key k) := MkIdemRow (id_RequestHash row) (Some r)]> d)
    | None => (0, d)
    end)).

(** The claiming loop of [mutateKeys]: the keys this request claimed and the
    response to replay, if any key was already used for the same request. *)
Fixpoint claim_keys (h : digest_t) (prev : option mutationKey) (keys claimed : list mutationKey)
    (replay : option Response) : I (list mutationKey * option Response) :=
  match keys with
  | [] => mret (claimed, replay)
  | key :: keys =>
      if bool_decide (prev = Some key) then claim_keys h (Some key) keys claimed replay
      else
        n ← insert_idem key h;
        if bool_decide (n = 1) then claim_keys h (Some key) keys (claimed ++ [key]) replay
        else
          row ← query (λ d, idempotency_records d !! (mk_operation key, mk_key key));
          match row with
          | None => throw ErrNoRows
          | Some row =>
              if negb (bool_decide (h = id_RequestHash row)) then throw ErrConflict
              else match id_Response row with
              | None => throw ErrResponseMissing
              | Some response =>
                  match replay with
                  | Some prior =>
                      if bool_decide (prior = response)
                      then claim_keys h (Some key) keys claimed (Some response)
                      else throw ErrConflict
                  | None => claim_keys h (Some key) keys claimed (Some response)
                  end
              end
          end
  end.

Definition persist_response (r : Response) (claimed : list mutationKey) : I unit :=
  for_each claimed (λ key,
    n ← update_response key r;
    if bool_decide (n = 1) then mret tt else throw ErrResponseNotPersisted).

Definition mutateKeys_body `{!JsonResult T} (keys : list mutationKey) (input : Body) (fn : I T)
    : I (txend T) :=
  '(claimed, replay) ← claim_keys (digest input) None keys [] None;
  match replay with
  | Some response =>
      match of_resp response with
      | None => throw ErrDecode
      | Some result =>
          match claimed with
          | [] => mret (Leave result)
          | _ => persist_response response claimed ;; mret (Commit result)
          end
      end
  | None =>
      result ← fn;
      persist_response (to_resp result) claimed ;; mret (Commit result)
  end.

Definition mutateKeys `{!JsonResult T} (keys : list mutationKey) (input : Body) (fn : I T) : I T :=
  match keys with
  | [] => invalid
  | _ => transaction (mutateKeys_body (merge_sort key_le keys) input fn)
  end.

Definition mutate `{!JsonResult T} (op key : string) (input : Body) (fn : I T) : I T :=
  mutateKeys [MkKey op key] input fn.

Definition WithRESTKey (c : Ctx) (raw : string) : option Ctx :=
  key ← ID raw; Some (MkCtx (cx_Actor c) (Some key)).

Definition restKey (c : Ctx) : option string :=
  match cx_RestKey c with
  | Some key => if bool_decide (key = "") then None else Some key
  | None => None
  end.

(** A stored row without a response does not decode. *)
Definition lookupRESTMutation `{!JsonResult T} (op key : string) (input : Body) : I (option T) :=
  row ← pool_query (λ _ d, idempotency_records d !! (op, key));
  match row with
  | None => mret None
  | Some row =>
      if negb (bool_decide (digest input = id_RequestHash row)) then throw ErrConflict
      else match (id_Response row ≫= of_resp) with
      | None => throw ErrDecode
      | Some result => mret (Some result)
      end
  end.

(** ** Rows *)

(** [scanBatch] of a single-row query: no row is [ErrNotFound]. *)
Definition scanBatch (id : string) : I Batch :=
  b ← query (λ d, br_batch <$> batches d !! id);
  match b with None => throw ErrNotFound | Some b => mret b end.

Definition batchStatus (b : Batch) (t : Z) : BatchStatus :=
  if bool_decide (b_Status b = BArchived) then BArchived
  else if negb (bool_decide (t < b_ExpiresAt b)) then BExpired
  else if bool_decide (b_Available b = 0) then BExhausted
  else BActive.

(** The columns [saveBatch] writes. *)
Definition saved (b : Batch) (t : Z) (row : BatchRow) : BatchRow :=
  let o := br_batch row in
  MkBatchRow
    (MkBatch (b_ID o) (b_BatchCode o) (b_FlavorID o) (b_ProductionDate o) (b_ExpiresAt o)
       (b_Initial o) (b_Available b) (b_Reserved b) (b_Sold b) (b_Wasted b) (b_UnitCost o)
       (b_Currency o) (batchStatus b t) (b_CreatedAt o) t)
    (br_low_stock_notified_at row) (br_expiring_notified_at row).

Definition saveBatch (b : Batch) (t : Z) : I unit :=
  exec (set_batches (alter (saved b t) (b_ID b))).

Definition movement (c : Ctx) (batch res : string) (kind : MoveKind) (n t : Z) : I unit :=
  id ← new_uuid;
  exec (add_movement (MkMovement id batch (if bool_decide (res = "") then None else Some res)
    kind n t (currentActor c))).

(** The allocations of a reservation in position order. *)
Definition allocations_of (id : string) (d : DB) : list Allocation :=
  (λ a, MkAllocation (ar_FlavorID a) (ar_BatchID a) (ar_Portions a)) <$>
  merge_sort (by_key ar_Position)
    (filter (λ a, ar_ReservationID a = id) (reservation_allocations d)).

Definition loadReservation (id : string) : I Reservation :=
  row ← query (λ d, reservations d !! id);
  match row with
  | None => throw ErrNotFound
  | Some r =>
      allocs ← query (allocations_of id);
      mret (MkReservation (rr_ID r) (rr_OrderID r) (rr_Status r) allocs (rr_CreatedAt r) (rr_ExpiresAt r))
  end.

Definition reservationFlavors (id : string) : I (list string) :=
  query (λ d, remove_dups (ar_FlavorID <$>
    filter (λ a, ar_ReservationID a = id) (reservation_allocations d))).

(** ** Stock alerts *)

Definition LowStockThreshold : Z := 10.
Definition ExpiryAlertWindow : Z := 48 * hour.

Definition batch_rows (d : DB) : list BatchRow := (map_to_list (batches d)).*2.

(** SELECT COALESCE(sum(available_portions), 0) ... status = 'ACTIVE' AND
    expires_at > $2. *)
Definition total_available (flavorID : string) (t : Z) (d : DB) : Z :=
  sum_where (λ row, bool_decide (b_FlavorID (br_batch row) = flavorID)
                    && bool_decide (b_Status (br_batch row) = BActive)
                    && bool_decide (t < b_ExpiresAt (br_batch row)))
    (λ row, b_Available (br_batch row)) (batch_rows d).

Definition set_low_notified (flavorID : string) (v : option Z) (d : DB) : DB :=
  set_batches (fmap (λ row,
    if bool_decide (b_FlavorID (br_batch row) = flavorID)
    then MkBatchRow (br_batch row) v (br_expiring_notified_at row) else row)) d.

Definition notified_count (flavorID : string) (d : DB) : Z :=
  sum_where (λ row, bool_decide (b_FlavorID (br_batch row) = flavorID)
                    && bool_decide (br_low_stock_notified_at row ≠ None))
    (λ _, 1) (batch_rows d).

(** ORDER BY expires_at DESC, created_at DESC LIMIT 1. *)
Definition latest_batch (flavorID : string) (d : DB) : option string :=
  b_ID <$> head (merge_sort (lex3 (λ b, - b_ExpiresAt b) (λ b, - b_CreatedAt b) b_ID)
    (filter (λ b, b_FlavorID b = flavorID) (br_batch <$> batch_rows d))).

Definition insert_outbox (e : Event) (created : Z) : I unit :=
  stmt (λ t d, inr (tt, set_outbox (λ l, l ++ [MkOutboxRow (ev_ID e) e created None 0 t]) d)).

Definition CheckAndNotifyLowStock (flavorID : string) (t : Z) : I bool :=
  if bool_decide (flavorID = "") then mret false
  else
    total ← query (total_available flavorID t);
    if bool_decide (total > LowStockThreshold) then
      exec (set_low_notified flavorID None) ;; mret false
    else
      count ← query (notified_count flavorID);
      if bool_decide (count > 0) then mret false
      else
        batch ← query (latest_batch flavorID);
        match batch with
        | None => mret false
        | Some batchID =>
            exec (set_low_notified flavorID (Some t)) ;;
            eventID ← new_uuid;
            insert_outbox (MkEvent eventID t (LowStock batchID flavorID total LowStockThreshold)) t ;;
            mret true
        end.

Definition ResetLowStockNotified (flavorID : string) (t : Z) : I unit :=
  total ← query (total_available flavorID t);
  if bool_decide (total > LowStockThreshold) then exec (set_low_notified flavorID None)
  else mret tt.

(** The condition of the expiring-batch queries. *)
Definition expiring_now (t : Z) (row : BatchRow) : bool :=
  let b := br_batch row in
  bool_decide (b_Status b = BActive) && bool_decide (b_Available b > 0)
  && bool_decide (t < b_ExpiresAt b) && bool_decide (b_ExpiresAt b ≤ t + ExpiryAlertWindow)
  && bool_decide (br_expiring_notified_at row = None).

Definition mark_expiring (t : Z) (row : BatchRow) : BatchRow :=
  MkBatchRow (br_batch row) (br_low_stock_notified_at row) (Some t).

Definition notifyExpiringBatch (batchID flavorID : string) : I bool :=
  transaction (
    lock ("flavor:" +:+ flavorID) ;;
    t ← db_now;
    row ← query (λ d, batches d !! batchID);
    match row with
    | Some row =>
        if expiring_now t row then
          exec (set_batches (alter (mark_expiring t) batchID)) ;;
          eventID ← new_uuid;
          insert_outbox (MkEvent eventID t (Expiring batchID flavorID (b_ExpiresAt (br_batch row)))) t ;;
          mret (Commit true)
        else mret (Leave false)
    | None => mret (Leave false)
    end).

Definition NotifyExpiringBatches (limit : Z) : I Z :=
  let limit := if bool_decide (limit < 1) then 100 else limit in
  candidates ← pool_query (λ t d,
    take (Z.to_nat limit) (merge_sort (lex2 b_ExpiresAt b_ID)
      (br_batch <$> filter (λ row, expiring_now t row = true) (batch_rows d))));
  fold_m (λ notified b,
    ok ← notifyExpiringBatch (b_ID b) (b_FlavorID b);
    mret (if ok : bool then notified + 1 else notified)) 0 candidates.
End store.
