(* ===== verification/InvOps.v ===== *)
(** Batch Inventory, operations: [internal/inventory/batches.go],
    [reservations.go] and [waste.go]. *)

From S2P Require Import Prelude Effects GoStd InvModel InvStore.

(** [err] ignored with [_ =]. *)
Definition ignore {S E A} (m : M S E A) : M S E unit := _ ← (try m : M S E (E + A)); mret tt.

Section ops.
Context {uuid : UuidLib} {dig : Digest}.
Abbreviation I := (M DB IErr).

(** [s.TTL] of the service. *)
Context (TTL : Z).
(** [s.Catalog]: absent, or the answer of [CheckActive] for a flavor. *)
Context (catalog : option (string → option IErr)).

(** ** Batches *)

Definition code_char (first : bool) (c : Z) : bool :=
  let alnum := between 65 90 c || between 97 122 c || between 48 57 c in
  alnum || (negb first && ((c =? 95) || (c =? 45))).

Fixpoint code_chars (first : bool) (l : list Z) : bool :=
  match l with [] => true | c :: l => code_char first c && code_chars false l end.

Definition batchCode (raw : option string) (batchID : string) : I string :=
  match raw with
  | None => mret ("BATCH-" +:+ to_upper batchID)
  | Some raw =>
      let code := trim_space raw in
      if bool_decide (String.length code = 0%nat) || bool_decide (64 < String.length code)%nat
      then wrapInvalid "batch_code"
      else if code_chars true (bytes code) then mret (to_upper code)
      else wrapInvalid "batch_code"
  end.

(** INSERT INTO batches, refused on a used id or batch code. *)
Definition insert_batch (b : Batch) : I unit :=
  stmt (λ _ d,
    if bool_decide (is_Some (batches d !! b_ID b)) then inl (DbUnique "batches_pkey")
    else if existsb (λ row, bool_decide (b_BatchCode (br_batch row) = b_BatchCode b)) (batch_rows d)
    then inl (DbUnique "batches_batch_code_key")
    else inr (tt, set_batches <[b_ID b := MkBatchRow b None None]> d)).

Definition create_batch (c : Ctx) (batchID code : string) (cost : Z) (in_ : CreateInput) : I Batch :=
  lockFlavors [ci_FlavorID in_] ;;
  t ← now;
  if negb (bool_decide (t < ci_ExpiresAt in_)) then wrapInvalid "expires_at"
  else
    let b := MkBatch batchID code (ci_FlavorID in_) (ci_ProductionDate in_) (ci_ExpiresAt in_)
      (ci_Initial in_) (ci_Initial in_) 0 0 0 cost "THB" BActive t t in
    r ← try (insert_batch b);
    match r with
    | inl (ErrDb (DbUnique k)) =>
        if bool_decide (k = "batches_batch_code_key") then throw ErrBatchCodeConflict
        else throw (ErrDb (DbUnique k))
    | inl e => throw e
    | inr _ =>
        movement c (b_ID b) "" Produced (b_Initial b) t ;;
        ignore (ResetLowStockNotified (b_FlavorID b) t) ;;
        mret b
    end.

Definition Create (c : Ctx) (in_ : CreateInput) : I Batch :=
  match currentActor c with
  | Some (actor, role) =>
      if bool_decide (actor = "") || negb (bool_decide (role = "MANAGER"))
      then wrapInvalid "trusted Manager actor required"
      else match ID (ci_FlavorID in_) with
      | None => wrapInvalid "flavor_id"
      | Some flavor =>
          let in_ := MkCreateInput (ci_BatchCode in_) flavor (ci_ProductionDate in_)
            (ci_ExpiresAt in_) (ci_Initial in_) (ci_UnitCost in_) (ci_Currency in_) in
          batchID ← new_uuid;
          code ← batchCode (ci_BatchCode in_) batchID;
          match parse_date (ci_ProductionDate in_), ci_UnitCost in_ with
          | Some date, Some cost =>
              if is_zero_time (ci_ExpiresAt in_) || bool_decide (ci_ExpiresAt in_ < date)
                 || bool_decide (ci_Initial in_ < 1) || bool_decide (ci_Initial in_ > MaxPortions)
                 || bool_decide (cost < 0) || bool_decide (cost > MaxInt64 / ci_Initial in_)
                 || negb (bool_decide (ci_Currency in_ = "THB"))
              then invalid
              else
                let operation := "create_batch:" +:+ actor in
                original ← match restKey c with
                  | Some key => lookupRESTMutation operation key (BodyCreate in_)
                  | None => mret None
                  end;
                match original with
                | Some b => mret b
                | None =>
                    match catalog with
                    | None => throw ErrDependency
                    | Some check =>
                        match check flavor with
                        | Some e => throw e
                        | None =>
                            let create := create_batch c batchID code cost in_ in
                            match restKey c with
                            | Some key => mutate operation key (BodyCreate in_) create
                            | None => transaction (b ← create; mret (Commit b))
                            end
                        end
                    end
                end
          | _, _ => invalid
          end
      end
  | None => wrapInvalid "trusted Manager actor required"
  end.

Definition with_status (s : BatchStatus) (b : Batch) : Batch :=
  MkBatch (b_ID b) (b_BatchCode b) (b_FlavorID b) (b_ProductionDate b) (b_ExpiresAt b)
    (b_Initial b) (b_Available b) (b_Reserved b) (b_Sold b) (b_Wasted b) (b_UnitCost b)
    (b_Currency b) s (b_CreatedAt b) (b_UpdatedAt b).

Definition Get (raw : string) : I Batch :=
  match ID raw with
  | None => invalid
  | Some id =>
      row ← pool_query (λ _ d, br_batch <$> batches d !! id);
      match row with
      | None => throw ErrNotFound
      | Some b => t ← go_now; mret (with_status (batchStatus b t) b)
      end
  end.

Definition parse_status (s : string) : option BatchStatus :=
  if bool_decide (s = "ACTIVE") then Some BActive
  else if bool_decide (s = "EXHAUSTED") then Some BExhausted
  else if bool_decide (s = "EXPIRED") then Some BExpired
  else if bool_decide (s = "ARCHIVED") then Some BArchived
  else None.

(** An optional flavor filter: the empty string means no filter. *)
Definition flavor_filter (flavor : string) : option (option string) :=
  if bool_decide (flavor = "") then Some None
  else match ID flavor with None => None | Some id => Some (Some id) end.

Definition matches_flavor (f : option string) (b : Batch) : bool :=
  match f with None => true | Some id => bool_decide (b_FlavorID b = id) end.

Definition matches_status (st : option BatchStatus) (t : Z) (b : Batch) : bool :=
  match st with None => true | Some s => bool_decide (batchStatus b t = s) end.

Definition ListBatches (flavor status : string) : I (list Batch) :=
  match flavor_filter flavor with
  | None => invalid
  | Some f =>
      match (if bool_decide (status = "") then Some None
             else match parse_status status with None => None | Some s => Some (Some s) end) with
      | None => invalid
      | Some st =>
          rows ← pool_query (λ t d,
            merge_sort (lex3 b_ExpiresAt b_CreatedAt b_ID)
              (filter (λ b, matches_flavor f b && matches_status st t b = true)
                 (br_batch <$> batch_rows d)));
          fold_m (λ out b, t ← go_now; mret (out ++ [with_status (batchStatus b t) b])) [] rows
      end
  end.

Definition min_opt (a b : option Z) : option Z :=
  match a, b with
  | Some x, Some y => Some (Z.min x y)
  | Some x, None => Some x
  | None, y => y
  end.

(** The aggregate row of one flavor, at the statement's timestamp. *)
Definition availability_row (flavor : string) (t : Z) (bs : list Batch) : Availability :=
  let mine := filter (λ b, b_FlavorID b = flavor) bs in
  MkAvailability flavor
    (sum_where (λ b, (bool_decide (b_Status b = BActive) || bool_decide (b_Status b = BExhausted))
                     && bool_decide (t < b_ExpiresAt b)) b_Available mine)
    (foldr (λ b acc, if bool_decide (b_Available b > 0) && bool_decide (b_Status b = BActive)
                        && bool_decide (t < b_ExpiresAt b)
                     then min_opt (Some (b_ExpiresAt b)) acc else acc) None mine).

Definition AvailabilityOf (flavor : string) : I (list Availability * Z) :=
  match flavor_filter flavor with
  | None => invalid
  | Some f =>
      rows ← pool_query (λ t d,
        let bs := filter (λ b, matches_flavor f b = true) (br_batch <$> batch_rows d) in
        (λ fl, (availability_row fl t bs, t)) <$>
          merge_sort String.le (remove_dups (b_FlavorID <$> bs)));
      asOf ← go_now;
      mret (fst <$> rows, match last rows with Some (_, t) => t | None => asOf end)
  end.

(** [Check] keeps request order; a flavor without batches reads as zero. *)
Definition Check_ (items : list Item) : I (list Availability * Z) :=
  match validItems items with
  | None => invalid
  | Some items =>
      '(all, t) ← AvailabilityOf "";
      mret ((λ it, match list_find (λ a, av_FlavorID a = it_FlavorID it) all with
             | Some (_, a) => a
             | None => MkAvailability (it_FlavorID it) 0 None
             end) <$> items, t)
  end.

(** ** Waste *)

Definition recordWaste (c : Ctx) (b : Batch) (n : Z) (reason note actor reservation : string) (t : Z)
    : I WasteRecord :=
  id ← new_uuid;
  let w := MkWasteRecord id (b_ID b) (b_FlavorID b) n reason note (wrap64 (b_UnitCost b * n)) "THB" t in
  exec (add_waste (MkWasteRow w (if bool_decide (actor = "") then None else Some actor))) ;;
  movement c (b_ID b) reservation Wasted n t ;;
  eventID ← new_uuid;
  insert_outbox (MkEvent eventID t (WasteRecorded (wr_ID w) (b_ID b) (b_FlavorID b)
    (truncate t day) n reason (wr_CostLost w))) t ;;
  mret w.

(** [b.Available -= x; ...]: new balances, everything else unchanged. *)
Definition with_balances (avail res sold wasted : Z) (b : Batch) : Batch :=
  MkBatch (b_ID b) (b_BatchCode b) (b_FlavorID b) (b_ProductionDate b) (b_ExpiresAt b)
    (b_Initial b) avail res sold wasted (b_UnitCost b)
    (b_Currency b) (b_Status b) (b_CreatedAt b) (b_UpdatedAt b).

Definition waste_body (c : Ctx) (batchID actor : string) (in_ : WasteInput) : I WasteRecord :=
  b ← scanBatch batchID;
  lockFlavors [b_FlavorID b] ;;
  b ← scanBatch batchID;
  t ← now;
  if bool_decide (b_Status b = BArchived) then throw ErrState
  else if bool_decide (wi_Reason in_ = "EXPIRED") && bool_decide (t < b_ExpiresAt b) then invalid
  else if bool_decide (b_Available b < wi_Portions in_) then throw ErrStock
  else
    let b := with_balances (b_Available b - wi_Portions in_) (b_Reserved b) (b_Sold b)
      (b_Wasted b + wi_Portions in_) b in
    result ← recordWaste c b (wi_Portions in_) (wi_Reason in_) (wi_Note in_) actor "" t;
    saveBatch b t ;;
    CheckAndNotifyLowStock (b_FlavorID b) t ;;
    mret result.

Definition Waste (c : Ctx) (batchID actor : string) (in_ : WasteInput) : I WasteRecord :=
  match ID batchID, ID actor, ID (wi_Key in_) with
  | Some batchID, Some actor, Some key =>
      let in_ := MkWasteInput (wi_Portions in_) (wi_Reason in_) (wi_Note in_) key in
      if bool_decide (wi_Portions in_ < 1) || bool_decide (wi_Portions in_ > MaxPortions)
         || negb (validReason (wi_Reason in_)) || negb (shortText (wi_Note in_) 500)
      then invalid
      else
        let keys := MkKey ("waste:" +:+ actor) key ::
          match restKey c with
          | Some k => [MkKey ("rest_waste:" +:+ actor) k]
          | None => []
          end in
        mutateKeys keys (BodyWaste batchID in_) (waste_body c batchID actor in_)
  | _, _, _ => invalid
  end.
End ops.
