(* ===== verification/InvReserve.v ===== *)
(** Batch Inventory, reservations: [internal/inventory/reservations.go]. *)

From S2P Require Import Prelude Effects GoStd InvModel InvStore InvOps.

Section reserve.
Context {uuid : UuidLib} {dig : Digest}.
Abbreviation I := (M DB IErr).
Context (TTL : Z).

(** ** Reserve *)

(** The loop variables of [Reserve]: the map of changed batches, the
    allocations so far and the expiry of the reservation. *)
Record Picking := MkPicking {
  pk_Batches : gmap string Batch;
  pk_Allocations : list Allocation;
  pk_ExpiresAt : Z
}.

(** The rows of one flavor, first expired first out. *)
Definition fefo (x y : Batch) : Prop := lex3 b_ExpiresAt b_CreatedAt b_ID x y.
#[global] Instance fefo_dec x y : Decision (fefo x y).
Proof. unfold fefo. apply _. Defined.

Definition sellable (flavor : string) (t : Z) (b : Batch) : bool :=
  bool_decide (b_FlavorID b = flavor) && bool_decide (b_Status b = BActive)
  && bool_decide (b_Available b > 0) && bool_decide (t < b_ExpiresAt b).

Definition fefo_rows (flavor : string) (t : Z) (d : DB) : list Batch :=
  merge_sort fefo (filter (λ b, sellable flavor t b = true) (br_batch <$> batch_rows d)).

(** [for rows.Next()]: take what is still needed from each row in turn. *)
Fixpoint pick_rows (rows : list Batch) (needed : Z) (p : Picking) : Z * Picking :=
  match rows with
  | [] => (needed, p)
  | b :: rows =>
      if bool_decide (needed = 0) then pick_rows rows needed p
      else
        let take_ := Z.min needed (b_Available b) in
        let b' := with_balances (b_Available b - take_) (b_Reserved b + take_) (b_Sold b) (b_Wasted b) b in
        pick_rows rows (needed - take_)
          (MkPicking (<[b_ID b := b']> (pk_Batches p))
             (pk_Allocations p ++ [MkAllocation (b_FlavorID b) (b_ID b) take_])
             (if bool_decide (b_ExpiresAt b < pk_ExpiresAt p) then b_ExpiresAt b else pk_ExpiresAt p))
  end.

Definition pick_item (t : Z) (p : Picking) (item : Item) : I Picking :=
  rows ← query (fefo_rows (it_FlavorID item) t);
  let '(needed, p) := pick_rows rows (it_Portions item) p in
  if bool_decide (needed > 0) then throw ErrStock else mret p.

(** INSERT INTO reservations, with its primary key and UNIQUE (order_id).  The
    id column has type uuid, so PostgreSQL refuses an empty text (22P02). *)
Definition insert_reservation (r : Reservation) : I unit :=
  stmt (λ _ d,
    if bool_decide (r_ID r = "") then inl (DbPg "22P02")
    else if bool_decide (is_Some (reservations d !! r_ID r)) then inl (DbUnique "reservations_pkey")
    else if existsb (λ x, bool_decide (rr_OrderID x.2 = r_OrderID r)) (map_to_list (reservations d))
    then inl (DbUnique "reservations_order_id_key")
    else inr (tt, set_reservations <[r_ID r :=
      MkResRow (r_ID r) (r_OrderID r) RActive (r_CreatedAt r) (r_ExpiresAt r) (r_CreatedAt r) ""]> d)).

Definition zero_batch : Batch :=
  MkBatch "" "" "" "" zero_time 0 0 0 0 0 0 "" BActive zero_time zero_time.

(** [for i, a := range r.Allocations]: write the batch, the allocation and the
    movement. *)
Fixpoint write_allocations (c : Ctx) (rid : string) (bs : gmap string Batch) (current i : Z)
    (allocs : list Allocation) : I unit :=
  match allocs with
  | [] => mret tt
  | a :: allocs =>
      saveBatch (default zero_batch (bs !! al_BatchID a)) current ;;
      exec (add_allocation (MkAllocRow rid (al_BatchID a) (al_FlavorID a) (al_Portions a) i)) ;;
      movement c (al_BatchID a) rid Reserved (al_Portions a) current ;;
      write_allocations c rid bs current (i + 1) allocs
  end.

Definition order_reserved (orderID : string) (d : DB) : bool :=
  existsb (λ x, bool_decide (rr_OrderID x.2 = orderID)) (map_to_list (reservations d)).

Definition reserve_body (c : Ctx) (in_ : ReserveInput) : I Reservation :=
  lock ("order:" +:+ ri_OrderID in_) ;;
  exists_ ← query (order_reserved (ri_OrderID in_));
  if exists_ : bool then throw ErrConflict
  else
    lockFlavors (it_FlavorID <$> ri_Items in_) ;;
    t ← now;
    if bool_decide (TTL ≤ 0) then invalid
    else
      rid ← new_uuid;
      p ← fold_m (pick_item t) (MkPicking ∅ [] (t + TTL)) (ri_Items in_);
      let r := MkReservation rid (ri_OrderID in_) RActive (pk_Allocations p) t (pk_ExpiresAt p) in
      current ← now;
      if negb (bool_decide (current < r_ExpiresAt r)) then throw ErrState
      else
        insert_reservation r ;;
        write_allocations c rid (pk_Batches p) current 0 (r_Allocations r) ;;
        for_each (ri_Items in_) (λ item,
          _ ← CheckAndNotifyLowStock (it_FlavorID item) current; mret tt) ;;
        mret r.

Definition item_le (x y : Item) : Prop := String.le (it_FlavorID x) (it_FlavorID y).
#[global] Instance item_le_dec x y : Decision (item_le x y).
Proof. unfold item_le. apply _. Defined.

Definition Reserve (c : Ctx) (in_ : ReserveInput) : I Reservation :=
  match validItems (ri_Items in_), ID (ri_OrderID in_), ID (ri_Key in_) with
  | Some items, Some order, Some key =>
      let in_ := MkReserveInput order key (merge_sort item_le items) in
      mutate "reserve" key (BodyReserve in_) (reserve_body c in_)
  | _, _, _ => invalid
  end.

(** ** Confirm, release and expire *)

Definition with_r_status (s : ResStatus) (r : Reservation) : Reservation :=
  MkReservation (r_ID r) (r_OrderID r) s (r_Allocations r) (r_CreatedAt r) (r_ExpiresAt r).

(** One allocation of [transition]. *)
Definition settle_allocation (c : Ctx) (confirm : bool) (rid : string) (t : Z) (a : Allocation) : I unit :=
  b ← scanBatch (al_BatchID a);
  if bool_decide (b_Reserved b < al_Portions a) then throw ErrState
  else
    let reserved := b_Reserved b - al_Portions a in
    b ← (if confirm then
           if negb (bool_decide (t < b_ExpiresAt b)) || bool_decide (b_Status b = BArchived)
           then throw ErrState
           else
             movement c (b_ID b) rid Confirmed (al_Portions a) t ;;
             mret (with_balances (b_Available b) reserved (b_Sold b + al_Portions a) (b_Wasted b) b)
         else if negb (bool_decide (t < b_ExpiresAt b)) then
           let b := with_balances (b_Available b) reserved (b_Sold b) (b_Wasted b + al_Portions a) b in
           recordWaste c b (al_Portions a) "EXPIRED" "reservation expired after batch expiry" "" rid t ;;
           mret b
         else
           movement c (b_ID b) rid Released (al_Portions a) t ;;
           mret (with_balances (b_Available b + al_Portions a) reserved (b_Sold b) (b_Wasted b) b));
    saveBatch b t.

(** UPDATE reservations SET status, updated_at, release_reason WHERE id. *)
Definition update_reservation (id : string) (s : ResStatus) (t : Z) (reason : string) : I unit :=
  exec (set_reservations (alter (λ r,
    MkResRow (rr_ID r) (rr_OrderID r) s (rr_CreatedAt r) (rr_ExpiresAt r) t reason) id)).

Definition transition (c : Ctx) (in_ : TransitionInput) (confirm expiry : bool) : I Reservation :=
  lock ("order:" +:+ ti_OrderID in_) ;;
  ids ← reservationFlavors (ti_ReservationID in_);
  lockFlavors ids ;;
  r ← loadReservation (ti_ReservationID in_);
  if negb (bool_decide (r_OrderID r = ti_OrderID in_)) then throw ErrNotFound
  else
    t ← now;
    if expiry && (negb (bool_decide (r_Status r = RActive)) || bool_decide (t < r_ExpiresAt r))
    then mret r
    else if negb (bool_decide (r_Status r = RActive)) then
      if (confirm && bool_decide (r_Status r = RConfirmed))
         || (negb confirm && (bool_decide (r_Status r = RReleased) || bool_decide (r_Status r = RExpired)))
      then mret r
      else throw ErrState
    else if confirm && negb (bool_decide (t < r_ExpiresAt r)) then throw ErrState
    else
      let target := if confirm then RConfirmed
                    else if expiry || negb (bool_decide (t < r_ExpiresAt r)) then RExpired
                    else RReleased in
      for_each (r_Allocations r) (settle_allocation c confirm (r_ID r) t) ;;
      update_reservation (r_ID r) target t (ti_Reason in_) ;;
      (if confirm then mret tt
       else for_each ids (λ fid, ignore (ResetLowStockNotified fid t))) ;;
      mret (with_r_status target r).

(** The normalised input shared by [Transition] and [Return]. *)
Definition transition_input (in_ : TransitionInput) : option TransitionInput :=
  res ← ID (ti_ReservationID in_);
  order ← ID (ti_OrderID in_);
  key ← ID (ti_Key in_);
  if shortText (ti_Reason in_) 500 then Some (MkTransitionInput res order key (ti_Reason in_)) else None.

Definition Transition (c : Ctx) (confirm : bool) (in_ : TransitionInput) : I Reservation :=
  match transition_input in_ with
  | None => invalid
  | Some in_ =>
      let op := if confirm then "confirm" else "release" in
      let in_ := MkTransitionInput (ti_ReservationID in_) (ti_OrderID in_) (ti_Key in_)
        (if confirm then "" else ti_Reason in_) in
      mutate op (ti_Key in_) (BodyTransition in_) (transition c in_ confirm false)
  end.

(** ** Return *)

Definition return_allocation (c : Ctx) (rid : string) (t : Z) (a : Allocation) : I unit :=
  b ← scanBatch (al_BatchID a);
  if bool_decide (b_Sold b < al_Portions a) then throw ErrState
  else
    let sold := b_Sold b - al_Portions a in
    b ← (if negb (bool_decide (t < b_ExpiresAt b)) then
           let b := with_balances (b_Available b) (b_Reserved b) sold (b_Wasted b + al_Portions a) b in
           recordWaste c b (al_Portions a) "EXPIRED" "returned order after batch expiry" "" rid t ;;
           mret b
         else
           movement c (b_ID b) rid Returned (al_Portions a) t ;;
           mret (with_balances (b_Available b + al_Portions a) (b_Reserved b) sold (b_Wasted b) b));
    saveBatch b t.

Definition returnConfirmed (c : Ctx) (in_ : TransitionInput) : I Reservation :=
  lock ("order:" +:+ ti_OrderID in_) ;;
  ids ← reservationFlavors (ti_ReservationID in_);
  lockFlavors ids ;;
  r ← loadReservation (ti_ReservationID in_);
  if negb (bool_decide (r_OrderID r = ti_OrderID in_)) then throw ErrNotFound
  else if bool_decide (r_Status r = RReturned) then mret r
  else if negb (bool_decide (r_Status r = RConfirmed)) then throw ErrState
  else
    t ← now;
    for_each (r_Allocations r) (return_allocation c (r_ID r) t) ;;
    update_reservation (r_ID r) RReturned t (ti_Reason in_) ;;
    for_each ids (λ fid, ignore (ResetLowStockNotified fid t)) ;;
    mret (with_r_status RReturned r).

Definition Return_ (c : Ctx) (in_ : TransitionInput) : I Reservation :=
  match transition_input in_ with
  | None => invalid
  | Some in_ => mutate "return" (ti_Key in_) (BodyTransition in_) (returnConfirmed c in_)
  end.

(** ** Sweep *)

(** The transaction of [Sweep] for one overdue reservation. *)
Definition expireReservation (c : Ctx) (id order : string) : I unit :=
  transaction (
    _ ← transition c (MkTransitionInput id order "" "reservation timeout") false true;
    mret (Commit tt)).

Definition expire_body (c : Ctx) (id flavor : string) : I (txend unit) :=
  lockFlavors [flavor] ;;
  b ← scanBatch id;
  t ← now;
  if bool_decide (t < b_ExpiresAt b) || bool_decide (b_Status b = BArchived) then mret (Leave tt)
  else
    b ← (if bool_decide (b_Available b > 0) then
           let n := b_Available b in
           let b := with_balances 0 (b_Reserved b) (b_Sold b) (b_Wasted b + n) b in
           recordWaste c b n "EXPIRED" "batch expiry" "" "" t ;;
           mret b
         else mret b);
    saveBatch b t ;;
    CheckAndNotifyLowStock (b_FlavorID b) t ;;
    mret (Commit tt).

Definition expireBatch (c : Ctx) (id flavor : string) : I unit := transaction (expire_body c id flavor).

Definition overdue_reservations (limit t : Z) (d : DB) : list ResRow :=
  take (Z.to_nat limit) (merge_sort (lex2 rr_ExpiresAt rr_ID)
    (filter (λ r, rr_Status r = RActive ∧ rr_ExpiresAt r ≤ t) (map_to_list (reservations d)).*2)).

Definition overdue_batches (limit t : Z) (d : DB) : list Batch :=
  take (Z.to_nat limit) (merge_sort (lex2 b_ExpiresAt b_ID)
    (filter (λ b, b_Status b ≠ BArchived ∧ b_ExpiresAt b ≤ t ∧ (b_Available b > 0 ∨ b_Status b ≠ BExpired))
      (br_batch <$> batch_rows d))).

Definition Sweep (c : Ctx) (limit : Z) : I unit :=
  if bool_decide (limit < 1) || bool_decide (limit > 1000) then invalid
  else
    overdue ← pool_query (overdue_reservations limit);
    for_each overdue (λ r, expireReservation c (rr_ID r) (rr_OrderID r)) ;;
    bs ← pool_query (overdue_batches limit);
    for_each bs (λ b, expireBatch c (b_ID b) (b_FlavorID b)) ;;
    NotifyExpiringBatches limit ;;
    mret tt.
End reserve.
