(* ===== verification/InvTransport.v ===== *)
(** Batch Inventory: the gRPC surface, [internal/transport/grpc.go] and
    [internal/transport/errors.go], the delivery of its events,
    [internal/outbox/publisher.go] and [internal/messaging], and its client of
    the Catalog service, [internal/catalog/client.go]. *)

From S2P Require Import Prelude Effects GoStd InvModel InvStore InvOps InvReserve.

(** ** Errors *)

Record Classified := MkClassified { cl_HTTP : Z; cl_Code : Code; cl_Name : string; cl_Message : string }.

Definition unavailable_code (code : string) : bool :=
  has_prefix "08" code || bool_decide (code = "57P01") || bool_decide (code = "57P02")
  || bool_decide (code = "57P03") || bool_decide (code = "53300").
Definition retryable_code (code : string) : bool :=
  bool_decide (code = "40001") || bool_decide (code = "40P01") || bool_decide (code = "55P03").

Definition dependency_unavailable : Classified :=
  MkClassified 503 Unavailable "DEPENDENCY_UNAVAILABLE" "Dependency unavailable".
Definition internal_error : Classified :=
  MkClassified 500 Internal "INTERNAL_ERROR" "Inventory operation failed".

Definition classify (err : IErr) : Classified :=
  match err with
  | ErrDb DbDeadline => MkClassified 504 DeadlineExceeded "DEADLINE_EXCEEDED" "Request timed out"
  | ErrDb DbCanceled => MkClassified 408 Canceled "CANCELLED" "Request cancelled"
  | ErrInvalid _ => MkClassified 400 InvalidArgument "INVALID_ARGUMENT" "Invalid request"
  | ErrNotFound => MkClassified 404 NotFound "NOT_FOUND" "Resource not found"
  | ErrConflict => MkClassified 409 AlreadyExists "IDEMPOTENCY_CONFLICT" "Key or order already used with another request"
  | ErrBatchCodeConflict => MkClassified 409 AlreadyExists "BATCH_CODE_CONFLICT" "Batch code already exists"
  | ErrStock => MkClassified 409 FailedPrecondition "INSUFFICIENT_STOCK" "Insufficient available portions"
  | ErrState => MkClassified 409 FailedPrecondition "INVALID_STATE" "Invalid or expired reservation state"
  | ErrDependency | ErrDb DbNet | ErrDb DbConnect => dependency_unavailable
  | ErrDb (DbUnique _) => internal_error
  | ErrDb (DbPg code) =>
      if unavailable_code code then dependency_unavailable
      else if retryable_code code then
        MkClassified 503 Unavailable "RETRYABLE_CONFLICT" "Retry with the same idempotency key"
      else internal_error
  | ErrResponseMissing | ErrResponseNotPersisted | ErrDecode | ErrNoRows => internal_error
  end.

Definition rpcError (err : IErr) : RpcErr := RpcStatus (cl_Code (classify err)) (cl_Message (classify err)).

(** ** Handlers *)

Definition itemsFromProto (items : list PbPortionRequest) : list Item :=
  (λ v, MkItem (pp_FlavorId v) (pp_Portions v)) <$> items.

Definition status_toProto (s : ResStatus) : PbStatus :=
  match s with
  | RActive => PbActive
  | RConfirmed => PbConfirmed
  | RReleased => PbReleased
  | RExpired => PbExpired
  | RReturned => PbReturned
  end.

Definition toProto (r : Reservation) : PbReservation :=
  MkPbReservation (r_ID r) (r_OrderID r) (status_toProto (r_Status r))
    ((λ a, MkPbAllocation (al_FlavorID a) (al_BatchID a) (wrap32 (al_Portions a))) <$> r_Allocations r)
    (Some (ts_New (r_CreatedAt r))) (Some (ts_New (r_ExpiresAt r))).

Record PbFlavorAvailability := MkPbFlavorAvailability {
  fa_FlavorId : string; fa_Requested : Z; fa_Available : Z; fa_Sufficient : bool
}.
Record PbCheckResponse := MkPbCheckResponse {
  ck_AllAvailable : bool; ck_Items : list PbFlavorAvailability; ck_AsOf : Timestamp
}.

(** The loop of [CheckAvailability]; [inl] stops it with OUT_OF_RANGE. *)
Fixpoint check_loop (out : list Availability) (items : list Item) (all : bool) (acc : list PbFlavorAvailability)
    : RpcErr + (bool * list PbFlavorAvailability) :=
  match out, items with
  | a :: out, i :: items =>
      if bool_decide (av_Available a > MaxPortions) then
        inl (RpcStatus OutOfRange "Availability exceeds v1 int32 capacity")
      else
        let sufficient := bool_decide (it_Portions i ≤ av_Available a) in
        check_loop out items (all && sufficient)
          (acc ++ [MkPbFlavorAvailability (av_FlavorID a) (wrap32 (it_Portions i)) (wrap32 (av_Available a)) sufficient])
  | _, _ => inr (all, acc)
  end.

Section handlers.
Context {uuid : UuidLib} {dig : Digest}.
Context (TTL : Z).
Abbreviation G := (M DB RpcErr).

(** [result, err := h.svc.Op(...)], an error turned into a gRPC status. *)
Definition rpc {A} (m : M DB IErr A) : G A :=
  r ← try m;
  match r with inl e => throw (rpcError e) | inr a => mret a end.

Definition grpc_CheckAvailability (items : list PbPortionRequest) : G PbCheckResponse :=
  '(out, t) ← rpc (Check_ (itemsFromProto items));
  match check_loop out (itemsFromProto items) true [] with
  | inl e => throw e
  | inr (all, res) => mret (MkPbCheckResponse all res (ts_New t))
  end.

(** The context of a gRPC request carries no actor and no REST key. *)
Definition grpc_ctx : Ctx := MkCtx None None.

Definition grpc_ReservePortions (orderID key : string) (items : list PbPortionRequest) : G PbReservation :=
  r ← rpc (Reserve TTL grpc_ctx (MkReserveInput orderID key (itemsFromProto items)));
  mret (toProto r).
Definition grpc_ConfirmReservation (res order key : string) : G PbReservation :=
  r ← rpc (Transition grpc_ctx true (MkTransitionInput res order key ""));
  mret (toProto r).
Definition grpc_ReleaseReservation (res order key reason : string) : G PbReservation :=
  r ← rpc (Transition grpc_ctx false (MkTransitionInput res order key reason));
  mret (toProto r).
Definition grpc_ReturnConfirmedReservation (res order key reason : string) : G PbReservation :=
  r ← rpc (Return_ grpc_ctx (MkTransitionInput res order key reason));
  mret (toProto r).

(** The unary interceptor: [values] are the authorization headers of the call,
    [ctx_err] is the error of the context once the handler has returned. *)
Definition interceptor {A} (orderToken : string) (values : list string) (ctx_err : option dberr) (next : G A) : G A :=
  match values with
  | [value] =>
      match fields value with
      | [scheme; token] =>
          if negb (equal_fold scheme "Bearer") || (String.length orderToken <? 32)%nat
             || negb (bool_decide (token = orderToken))
          then throw (RpcStatus Unauthenticated "Invalid service credential")
          else
            r ← try next;
            match r, ctx_err with
            | inl _, Some e => throw (rpcError (ErrDb e))
            | inl e, None => throw e
            | inr a, _ => mret a
            end
      | _ => throw (RpcStatus Unauthenticated "Invalid service credential")
      end
  | _ => throw (RpcStatus Unauthenticated "Order service credential required")
  end.
End handlers.

(** ** Routing keys of the published events

    [ty] is the [type] member of the payload, [None] when the payload is no
    JSON object with a text there. *)
Definition ResolveRoutingKey (ty : option string) : string :=
  match ty with
  | Some t =>
      if bool_decide (t = "") then "inventory.waste"
      else if bool_decide (t = "com.gelatoflow.inventory.waste-recorded.v1") || bool_decide (t = "inventory.waste")
      then "inventory.waste"
      else if bool_decide (t = "com.gelatoflow.inventory.batch-low-stock.v1")
              || bool_decide (t = "com.gelatoflow.inventory.low-stock.v1") || bool_decide (t = "inventory.low_stock")
      then "inventory.low_stock"
      else if bool_decide (t = "com.gelatoflow.inventory.batch-expiring.v1")
              || bool_decide (t = "com.gelatoflow.inventory.expiring.v1") || bool_decide (t = "inventory.expiring")
      then "inventory.expiring"
      else if contains "waste" t then "inventory.waste"
      else if contains "low" t || contains "stock" t then "inventory.low_stock"
      else if contains "expir" t then "inventory.expiring"
      else "inventory.waste"
  | None => "inventory.waste"
  end.

(** ** Delivery of events *)

(** What an attempt at publishing met: whether each step succeeded, the answer to
    the confirmation, and whether the message came back as unroutable. *)
Record InvBroker := MkInvBroker {
  ib_dial : bool; ib_channel : bool; ib_exchange : bool; ib_confirm : bool; ib_publish : bool; ib_ack : option bool; ib_returned : bool
}.
(** [Rabbit.Publish]: whether it reports success. *)
Definition inv_Publish (b : InvBroker) : bool :=
  if negb (ib_dial b) then false
  else if negb (ib_channel b) then false
  else if negb (ib_exchange b) then false
  else if negb (ib_confirm b) then false
  else if negb (ib_publish b) then false
  else if negb (bool_decide (ib_ack b = Some true)) then false
  else negb (ib_returned b).

Definition outbox_due (t : Z) (row : OutboxRow) : bool :=
  bool_decide (ob_PublishedAt row = None) && bool_decide (ob_NextAttemptAt row ≤ t).
Definition tried (published : option Z) (next : Z) (row : OutboxRow) : OutboxRow :=
  MkOutboxRow (ob_ID row) (ob_Payload row) (ob_CreatedAt row) published (ob_Attempts row + 1) next.

Section outbox.
Context {dig : Digest}.

(** The SELECT and the UPDATEs of one row. *)
Definition next_due (t : Z) (d : DB) : option OutboxRow :=
  head (merge_sort (lex2 ob_CreatedAt ob_ID) (filter (λ row, outbox_due t row = true) (outbox_events d))).
Definition update_event (id : string) (f : OutboxRow → OutboxRow) : DB → DB :=
  set_outbox (fmap (λ row, if bool_decide (ob_ID row = id) then f row else row)).

(** [DispatchOne] with the broker as it is for the event; the second component is
    the error of publishing.  An error of the database ends it. *)
Definition inv_DispatchOne (broker : Event → InvBroker) : M DB IErr (bool * bool) :=
  transaction (
    row ← stmt (λ t d, inr (next_due t d, d));
    match row with
    | None => mret (Leave (false, false))
    | Some row =>
        if inv_Publish (broker (ob_Payload row)) then
          stmt (λ t d, inr (tt, update_event (ob_ID row) (λ x, tried (Some t) (ob_NextAttemptAt x) x) d)) ;;
          mret (Commit (true, false))
        else
          let delay := 2 ^ Z.min (ob_Attempts row) 8 * second in
          stmt (λ t d, inr (tt, update_event (ob_ID row) (λ x, tried (ob_PublishedAt x) (t + delay) x) d)) ;;
          mret (Commit (true, true))
    end).
End outbox.

(** ** The client of the Catalog service *)

(** The flavor of an answer of [GetFlavor], if there is one: its id and whether
    it is active. *)
Definition CheckActive (get : string → RpcErr + option (string * bool)) (ctx_err : option dberr) (id : string) : option IErr :=
  match get id with
  | inl e =>
      if bool_decide (code_of e = NotFound) then Some (ErrInvalid "flavor is missing or inactive")
      else match ctx_err with Some c => Some (ErrDb c) | None => Some ErrDependency end
  | inr None => Some (ErrInvalid "flavor is inactive")
  | inr (Some (flavor, active)) =>
      if negb (bool_decide (flavor = id)) || negb active then Some (ErrInvalid "flavor is inactive") else None
  end.
