(* ===== verification/InvInv.v ===== *)
(** Batch Inventory: the stock invariant and its preservation under the
    elementary writes.  The invariant only depends on the stock tables, so it
    is stated on their projection [core]; notification marks, idempotency
    records and the outbox do not matter for it. *)

From S2P Require Import Prelude Effects GoStd InvModel InvStore InvOps InvReserve.

Record Core := MkCore {
  c_batches : gmap string Batch;
  c_res : gmap string ResRow;
  c_allocs : list AllocRow;
  c_moves : list Movement;
  c_waste : list WasteRow
}.

Definition core `{!Digest} (d : DB) : Core :=
  MkCore (br_batch <$> batches d) (reservations d) (reservation_allocations d)
    (inventory_movements d) (waste_records d).

(** ** Aggregates *)

(** Portions of batch [b] that reservations in state [st] hold. *)
Definition has_status (c : Core) (st : ResStatus) (rid : string) : bool :=
  bool_decide (rr_Status <$> c_res c !! rid = Some st).
Definition held (c : Core) (st : ResStatus) (b : string) : Z :=
  sum_where (λ a, bool_decide (ar_BatchID a = b) && has_status c st (ar_ReservationID a))
    ar_Portions (c_allocs c).

(** Portions of batch [b] in the waste records. *)
Definition wasted_in (b : string) (l : list WasteRow) : Z :=
  sum_where (λ x, bool_decide (wr_BatchID (ws_Record x) = b)) (λ x, wr_Portions (ws_Record x)) l.

(** Portions of batch [b] in the movements of kind [k]. *)
Definition moved_in (k : MoveKind) (b : string) (l : list Movement) : Z :=
  sum_where (λ m, bool_decide (mv_BatchID m = b) && bool_decide (mv_Kind m = k)) mv_Portions l.

(** What a movement does to the available stock of its batch.  Waste taken from
    a reservation was not available before. *)
Definition delta (m : Movement) : Z :=
  match mv_Kind m with
  | Produced | Released | Returned => mv_Portions m
  | Reserved => - mv_Portions m
  | Confirmed => 0
  | Wasted => match mv_ReservationID m with None => - mv_Portions m | Some _ => 0 end
  end.
Definition ledger_in (b : string) (l : list Movement) : Z :=
  sum_where (λ m, bool_decide (mv_BatchID m = b)) delta l.

(** ** The invariant *)

(** The CHECK constraints of the schema on one batch row, and the bound
    [Create] puts on its cost. *)
Record row_ok (b : Batch) : Prop := {
  ok_available : 0 ≤ b_Available b;
  ok_reserved : 0 ≤ b_Reserved b;
  ok_sold : 0 ≤ b_Sold b;
  ok_wasted : 0 ≤ b_Wasted b;
  ok_initial : 1 ≤ b_Initial b ≤ MaxPortions;
  ok_conserved : b_Initial b = b_Available b + b_Reserved b + b_Sold b + b_Wasted b;
  ok_cost : 0 ≤ b_UnitCost b;
  ok_cost_bound : b_UnitCost b * b_Initial b ≤ MaxInt64
}.

(** A batch agrees with the reservations, the movement log and the waste
    records, and its stored status with its balances (no operation archives a
    batch), up to portions in flight: [dr] already taken out of the reserved
    balance and [ds] already added to the sold balance. *)
Record batch_ok (c : Core) (dr ds : Z) (id : string) (b : Batch) : Prop := {
  bo_id : b_ID b = id;
  bo_row : row_ok b;
  bo_reserved : b_Reserved b = held c RActive id - dr;
  bo_sold : b_Sold b = held c RConfirmed id + ds;
  bo_wasted : b_Wasted b = wasted_in id (c_waste c);
  bo_moved_wasted : b_Wasted b = moved_in Wasted id (c_moves c);
  bo_produced : b_Initial b = moved_in Produced id (c_moves c);
  bo_ledger : b_Available b = ledger_in id (c_moves c);
  bo_status : b_Status b ≠ BArchived ∧ (b_Status b = BExhausted → b_Available b = 0)
}.

Record alloc_ok (c : Core) (a : AllocRow) : Prop := {
  ao_positive : 0 < ar_Portions a;
  ao_refs : ∃ b r, c_batches c !! ar_BatchID a = Some b ∧ b_FlavorID b = ar_FlavorID a ∧
                   c_res c !! ar_ReservationID a = Some r ∧ rr_ExpiresAt r ≤ b_ExpiresAt b
}.

(** A waste record costs what its portions cost, without overflow. *)
Definition waste_ok (c : Core) (x : WasteRow) : Prop :=
  ∃ b, c_batches c !! wr_BatchID (ws_Record x) = Some b ∧
       wr_FlavorID (ws_Record x) = b_FlavorID b ∧
       0 < wr_Portions (ws_Record x) ≤ b_Initial b ∧
       wr_CostLost (ws_Record x) = b_UnitCost b * wr_Portions (ws_Record x).

Record ginv (c : Core) (dr ds : string → Z) : Prop := {
  gi_batches : ∀ id b, c_batches c !! id = Some b → batch_ok c (dr id) (ds id) id b;
  gi_allocs : ∀ a, a ∈ c_allocs c → alloc_ok c a;
  gi_nodup : NoDup ((λ a, (ar_ReservationID a, ar_BatchID a)) <$> c_allocs c);
  gi_res : ∀ id r, c_res c !! id = Some r →
             rr_ID r = id ∧ id ≠ "" ∧ rr_CreatedAt r < rr_ExpiresAt r;
  gi_orders : ∀ i j ri rj, c_res c !! i = Some ri → c_res c !! j = Some rj →
                rr_OrderID ri = rr_OrderID rj → i = j;
  gi_moves : ∀ m, m ∈ c_moves c → is_Some (c_batches c !! mv_BatchID m);
  gi_waste : ∀ x, x ∈ c_waste c → waste_ok c x
}.

Definition inv_core (c : Core) : Prop := ginv c (λ _, 0) (λ _, 0).
Definition Inv `{!Digest} (d : DB) : Prop := inv_core (core d).

(** ** Basic facts *)

Lemma wasted_in_app b l1 l2 : wasted_in b (l1 ++ l2) = wasted_in b l1 + wasted_in b l2.
Proof. apply sum_where_app. Qed.
Lemma moved_in_app k b l1 l2 : moved_in k b (l1 ++ l2) = moved_in k b l1 + moved_in k b l2.
Proof. apply sum_where_app. Qed.
Lemma ledger_in_app b l1 l2 : ledger_in b (l1 ++ l2) = ledger_in b l1 + ledger_in b l2.
Proof. apply sum_where_app. Qed.

Lemma sum_where_none {A} (P : A → bool) f l : (∀ x, x ∈ l → P x = false) → sum_where P f l = 0.
Proof. intros H. apply sum_by_zero. intros x Hx. by rewrite H. Qed.

Lemma held_empty c st b : (∀ a, a ∈ c_allocs c → ar_BatchID a ≠ b) → held c st b = 0.
Proof.
  intros H. apply sum_where_none. intros a Ha.
  rewrite bool_decide_eq_false_2 by auto. done.
Qed.

(** [row_ok] bounds every balance, so no portion count leaves 32 bits. *)
Lemma row_ok_bounds b : row_ok b →
  b_Available b ≤ MaxPortions ∧ b_Reserved b ≤ MaxPortions ∧
  b_Sold b ≤ MaxPortions ∧ b_Wasted b ≤ MaxPortions.
Proof. intros []. lia. Qed.

Lemma cost_no_overflow b n : row_ok b → 0 ≤ n ≤ b_Initial b →
  wrap64 (b_UnitCost b * n) = b_UnitCost b * n ∧ 0 ≤ b_UnitCost b * n ≤ MaxInt64.
Proof.
  intros [] Hn. assert (0 ≤ b_UnitCost b * n ≤ b_UnitCost b * b_Initial b) by nia.
  unfold MaxInt64 in *. split; [|lia]. apply wrap64_id. unfold in64. lia.
Qed.

(** ** One batch write *)

(** The row [saveBatch] leaves. *)
Definition saved_batch (b : Batch) (t : Z) (o : Batch) : Batch :=
  MkBatch (b_ID o) (b_BatchCode o) (b_FlavorID o) (b_ProductionDate o) (b_ExpiresAt o)
    (b_Initial o) (b_Available b) (b_Reserved b) (b_Sold b) (b_Wasted b) (b_UnitCost o)
    (b_Currency o) (batchStatus b t) (b_CreatedAt o) t.

(** A batch write with the log entries that go with it. *)
Definition post (c : Core) (b : Batch) (t : Z) (ms : list Movement) (ws : list WasteRow) : Core :=
  MkCore (alter (saved_batch b t) (b_ID b) (c_batches c)) (c_res c) (c_allocs c)
    (c_moves c ++ ms) (c_waste c ++ ws).

Definition bump (f : string → Z) (id : string) (n : Z) : string → Z :=
  λ x, if decide (x = id) then f x + n else f x.

Lemma held_post c b t ms ws st id : held (post c b t ms ws) st id = held c st id.
Proof. done. Qed.

Lemma moved_in_other k id ms : (∀ m, m ∈ ms → mv_BatchID m ≠ id) → moved_in k id ms = 0.
Proof.
  intros H. apply sum_where_none. intros m Hm. by rewrite bool_decide_eq_false_2 by auto.
Qed.
Lemma ledger_in_other id ms : (∀ m, m ∈ ms → mv_BatchID m ≠ id) → ledger_in id ms = 0.
Proof.
  intros H. apply sum_where_none. intros m Hm. by rewrite bool_decide_eq_false_2 by auto.
Qed.
Lemma wasted_in_other id ws : (∀ x, x ∈ ws → wr_BatchID (ws_Record x) ≠ id) → wasted_in id ws = 0.
Proof.
  intros H. apply sum_where_none. intros m Hm. by rewrite bool_decide_eq_false_2 by auto.
Qed.

Lemma post_lookup c b t ms ws id o' :
  c_batches (post c b t ms ws) !! id = Some o' →
  ∃ o, c_batches c !! id = Some o ∧
    o' = if decide (id = b_ID b) then saved_batch b t o else o.
Proof.
  cbn. rewrite lookup_alter. case_decide; subst.
  - destruct (c_batches c !! b_ID b) as [o|]; [|done]. intros [= <-]. exists o.
    by rewrite decide_True.
  - intros H1. exists o'. rewrite decide_False by done. done.
Qed.

Lemma post_lookup_Some c b t ms ws id o :
  c_batches c !! id = Some o →
  ∃ o', c_batches (post c b t ms ws) !! id = Some o' ∧
    b_FlavorID o' = b_FlavorID o ∧ b_ExpiresAt o' = b_ExpiresAt o ∧
    b_Initial o' = b_Initial o ∧ b_UnitCost o' = b_UnitCost o.
Proof.
  intros H. cbn. rewrite lookup_alter. case_decide; subst.
  - rewrite H. eexists. split; [done|]. done.
  - eauto 10.
Qed.

(** The balances a write moves portions between must add up, and its log entries
    must say the same. *)
Record write_ok (c : Core) (o b : Batch) (ms : list Movement) (ws : list WasteRow) (nr ns : Z) : Prop := {
  wo_row : row_ok (with_balances (b_Available b) (b_Reserved b) (b_Sold b) (b_Wasted b) o);
  wo_reserved : b_Reserved b = b_Reserved o - nr;
  wo_sold : b_Sold b = b_Sold o + ns;
  wo_waste : b_Wasted b = b_Wasted o + wasted_in (b_ID o) ws;
  wo_moved_wasted : b_Wasted b = b_Wasted o + moved_in Wasted (b_ID o) ms;
  wo_produced : moved_in Produced (b_ID o) ms = 0;
  wo_ledger : b_Available b = b_Available o + ledger_in (b_ID o) ms;
  wo_moves : ∀ m, m ∈ ms → mv_BatchID m = b_ID o;
  wo_wastes : ∀ x, x ∈ ws → wr_BatchID (ws_Record x) = b_ID o ∧ waste_ok c x;
  wo_status : b_Status b = b_Status o
}.

Lemma post_inv c dr ds o b t ms ws nr ns :
  ginv c dr ds → c_batches c !! b_ID b = Some o → write_ok c o b ms ws nr ns →
  ginv (post c b t ms ws) (bump dr (b_ID b) nr) (bump ds (b_ID b) ns).
Proof.
  intros [Hb Ha Hnd Hr Ho Hm Hw] Hlk [Wrow Wr Wsold Ww Wmw Wp Wl Wms Wws Wst].
  assert (Hid : b_ID o = b_ID b) by apply (Hb _ _ Hlk). rewrite Hid in *.
  split; try done.
  - intros id o' H'. apply post_lookup in H' as (o1 & H1 & ->).
    destruct (Hb _ _ H1) as [B1 B2 B3 B4 B5 B6 B7 B8 B9].
    unfold bump. case_decide as Heq; subst.
    + assert (o1 = o) as -> by (rewrite <-Heq in Hlk; congruence).
      split; rewrite ?held_post; cbn [post c_waste c_moves saved_batch b_ID b_Reserved b_Sold b_Wasted b_Initial b_Available];
        rewrite ?wasted_in_app, ?moved_in_app, ?ledger_in_app, ?Heq; try lia; try done.
      1: destruct Wrow; by constructor.
      all: try (rewrite Heq in *; lia).
      cbn [saved_batch b_Status]; unfold batchStatus; rewrite Wst. repeat case_bool_decide; naive_solver.
    + assert (∀ m, m ∈ ms → mv_BatchID m ≠ b_ID o1) as Hms by (intros m Hin E; apply Wms in Hin; congruence).
      assert (∀ x, x ∈ ws → wr_BatchID (ws_Record x) ≠ b_ID o1) as Hws by (intros x Hin E; apply Wws in Hin as [? _]; congruence).
      split; rewrite ?held_post; cbn [post c_waste c_moves];
        rewrite ?wasted_in_app, ?moved_in_app, ?ledger_in_app,
          ?(moved_in_other _ _ _ Hms), ?(ledger_in_other _ _ Hms), ?(wasted_in_other _ _ Hws); try lia; done.
  - intros a Hin. destruct (Ha a Hin) as [Hp (b0 & r0 & E1 & E2 & E3 & E4)].
    split; [done|]. destruct (post_lookup_Some c b t ms ws _ _ E1) as (o' & ? & ? & ? & ? & ?).
    exists o', r0. split_and!; auto; congruence.
  - cbn. intros m [Hin|Hin]%elem_of_app.
    + apply Hm in Hin as [x Hx]. destruct (post_lookup_Some c b t ms ws _ _ Hx) as (o' & ? & _). by exists o'.
    + apply Wms in Hin as ->. destruct (post_lookup_Some c b t ms ws _ _ Hlk) as (o' & ? & _). by exists o'.
  - cbn. intros x Hin.
    assert (waste_ok c x) as (b0 & E1 & E2 & E3 & E4).
    { apply elem_of_app in Hin as [Hin|Hin]; [by apply Hw|by apply Wws]. }
    destruct (post_lookup_Some c b t ms ws _ _ E1) as (o' & ? & E & ? & Ei & Ec).
    exists o'. by rewrite E, Ei, Ec.
Qed.
