(* ===== verification/InvFrame.v ===== *)
(** Batch Inventory: what each monadic operation does to the stock tables.
    Reads, locks, alerts and idempotency bookkeeping do not touch them. *)

From S2P Require Import Prelude Effects GoStd InvModel InvStore InvOps InvReserve InvInv.

Create HintDb quiet.

Section frame.
Context {uuid : UuidLib} {dig : Digest}.
Abbreviation I := (M DB IErr).

(** [m] leaves the stock tables alone, whether or not it succeeds. *)
Definition quiet {A} (m : I A) : Prop := ∀ c, preserves (λ d, core d = c) m.

Lemma quiet_ok {A} (m : I A) o w r w' : quiet m → m o w = (r, w') → core (w_db w') = core (w_db w).
Proof. intros Hq H. specialize (Hq (core (w_db w)) o w eq_refl). by rewrite H in Hq. Qed.

Lemma core_set_idempotency f d : core (set_idempotency f d) = core d.
Proof. done. Qed.
Lemma core_set_outbox f d : core (set_outbox f d) = core d.
Proof. done. Qed.
Lemma core_set_low_notified fid v d : core (set_low_notified fid v d) = core d.
Proof.
  unfold core. cbn. f_equal. apply map_eq. intros i.
  rewrite !lookup_fmap. destruct (batches d !! i) as [row|]; [|done]. cbn. by case_bool_decide.
Qed.
Lemma core_mark_expiring t id d : core (set_batches (alter (mark_expiring t) id) d) = core d.
Proof.
  unfold core. cbn. f_equal. apply map_eq. intros i.
  rewrite !lookup_fmap, lookup_alter. case_decide; [subst|done]. by destruct (batches d !! _).
Qed.

Lemma quiet_bind {A B} (m : I A) (f : A → I B) : quiet m → (∀ a, quiet (f a)) → quiet (m ≫= f).
Proof. intros Hm Hf c. apply preserves_bind; [apply Hm|intros a; apply Hf]. Qed.
Lemma quiet_exec f : (∀ d, core (f d) = core d) → quiet (exec f).
Proof. intros Hf c. apply preserves_exec. intros d Hd. by rewrite Hf. Qed.
Lemma quiet_for_each {A} (l : list A) f : (∀ a, quiet (f a)) → quiet (for_each l f).
Proof. intros Hf c. apply preserves_for_each. intros a. apply Hf. Qed.
Lemma quiet_ignore {A} (m : I A) : quiet m → quiet (ignore m).
Proof. intros Hm c. apply preserves_ignore_try; [apply Hm|]. intros r. apply preserves_ret. Qed.
Lemma quiet_ret {A} (a : A) : quiet (mret a).
Proof. intros c. apply preserves_ret. Qed.
Lemma quiet_throw {A} e : quiet (throw e : I A).
Proof. intros c. apply preserves_throw. Qed.
Lemma quiet_query {A} (f : DB → A) : quiet (query f).
Proof. intros c. apply preserves_query. Qed.
Lemma quiet_new_uuid : quiet new_uuid.
Proof. intros c. apply preserves_new_uuid. Qed.
Lemma quiet_now : quiet now.
Proof. intros c. apply preserves_db_now. Qed.
Lemma quiet_lock key : quiet (lock key).
Proof. intros c. apply preserves_lock. Qed.
Lemma quiet_insert_outbox e t : quiet (insert_outbox e t).
Proof. intros c. apply preserves_stmt. by intros ? ? ? ? ? [= <- <-]. Qed.
Lemma quiet_low_notified fid v : quiet (exec (set_low_notified fid v)).
Proof. apply quiet_exec. intros d. apply core_set_low_notified. Qed.
Hint Resolve quiet_bind quiet_ret quiet_throw quiet_query quiet_new_uuid quiet_now quiet_lock
  quiet_insert_outbox quiet_low_notified quiet_ignore quiet_for_each : quiet.

Lemma quiet_lockFlavors ids : quiet (lockFlavors ids).
Proof.
  unfold lockFlavors. generalize (merge_sort String.le ids) as l. generalize ""%string as prev.
  intros prev l. revert prev. induction l as [|i l IH]; intros prev; cbn; [auto with quiet|].
  case_bool_decide; auto with quiet.
Qed.
Lemma quiet_reset fid t : quiet (ResetLowStockNotified fid t).
Proof. unfold ResetLowStockNotified. apply quiet_bind; auto with quiet. intros a. case_bool_decide; auto with quiet. Qed.
Lemma quiet_check fid t : quiet (CheckAndNotifyLowStock fid t).
Proof.
  unfold CheckAndNotifyLowStock. case_bool_decide; [auto with quiet|].
  apply quiet_bind; [auto with quiet|]. intros total. case_bool_decide; [auto with quiet|].
  apply quiet_bind; [auto with quiet|]. intros count. case_bool_decide; [auto with quiet|].
  apply quiet_bind; [auto with quiet|]. intros [b|]; auto 7 with quiet.
Qed.
Lemma quiet_scanBatch id : quiet (scanBatch id).
Proof. unfold scanBatch. apply quiet_bind; auto with quiet. intros [b|]; auto with quiet. Qed.
Lemma quiet_loadReservation id : quiet (loadReservation id).
Proof. unfold loadReservation. apply quiet_bind; auto with quiet. intros [b|]; auto with quiet. Qed.
Lemma quiet_reservationFlavors id : quiet (reservationFlavors id).
Proof. unfold reservationFlavors. auto with quiet. Qed.
Hint Resolve quiet_lockFlavors quiet_reset quiet_check quiet_scanBatch quiet_loadReservation
  quiet_reservationFlavors : quiet.

(** Turn the successful run of a quiet operation into an equation. *)
Ltac quiet_run H := eapply quiet_ok in H; [|solve [eauto with quiet]].

(** ** Reads *)

Lemma scanBatch_ok id o w b w' :
  scanBatch id o w = (inr b, w') →
  c_batches (core (w_db w)) !! id = Some b ∧ core (w_db w') = core (w_db w).
Proof.
  intros H. split; [|by eapply quiet_ok in H; eauto with quiet].
  unfold scanBatch in H. run_inv H.
  destruct (batches (w_db w) !! id) as [row|] eqn:E; cbn in H; run_inv H.
  cbn. by rewrite lookup_fmap, E.
Qed.

Definition alloc_of (a : AllocRow) : Allocation := MkAllocation (ar_FlavorID a) (ar_BatchID a) (ar_Portions a).

Lemma loadReservation_ok id o w r w' :
  loadReservation id o w = (inr r, w') →
  core (w_db w') = core (w_db w) ∧
  ∃ row, c_res (core (w_db w)) !! id = Some row ∧
    r = MkReservation (rr_ID row) (rr_OrderID row) (rr_Status row) (allocations_of id (w_db w))
          (rr_CreatedAt row) (rr_ExpiresAt row).
Proof.
  intros H. split; [by eapply quiet_ok in H; eauto with quiet|].
  unfold loadReservation in H. run_inv H.
  destruct (reservations (w_db w) !! id) as [row|] eqn:E; run_inv H.
  exists row. by cbn.
Qed.

Lemma allocations_of_perm id (d : DB) :
  allocations_of id d ≡ₚ alloc_of <$> filter (λ a, ar_ReservationID a = id) (reservation_allocations d).
Proof. unfold allocations_of. by rewrite merge_sort_Permutation. Qed.

(** ** Writes *)

Lemma core_saveBatch b t (d : DB) :
  core (set_batches (alter (saved b t) (b_ID b)) d) =
  MkCore (alter (saved_batch b t) (b_ID b) (c_batches (core d))) (c_res (core d)) (c_allocs (core d))
    (c_moves (core d)) (c_waste (core d)).
Proof.
  unfold core. cbn. f_equal. apply map_eq. intros i.
  rewrite ?lookup_fmap, ?lookup_alter, ?lookup_fmap.
  case_decide; [subst|done]. by destruct (batches d !! _).
Qed.

Definition mk_move (id : string) (c : Ctx) (batch res : string) (kind : MoveKind) (n t : Z) : Movement :=
  MkMovement id batch (if bool_decide (res = "") then None else Some res) kind n t (currentActor c).

(** The stock tables with entries appended to the two logs. *)
Definition logged (k : Core) (ms : list Movement) (ws : list WasteRow) : Core :=
  MkCore (c_batches k) (c_res k) (c_allocs k) (c_moves k ++ ms) (c_waste k ++ ws).

Lemma movement_ok c batch res kind n t o w u w' :
  movement c batch res kind n t o w = (inr u, w') →
  ∃ id, core (w_db w') = logged (core (w_db w)) [mk_move id c batch res kind n t] [].
Proof.
  unfold movement, logged. intros H. run_inv H. eexists. rewrite app_nil_r. done.
Qed.

Lemma recordWaste_ok c b n reason note actor res t o w x w' :
  recordWaste c b n reason note actor res t o w = (inr x, w') →
  wr_BatchID x = b_ID b ∧ wr_FlavorID x = b_FlavorID b ∧ wr_Portions x = n ∧
  wr_CostLost x = wrap64 (b_UnitCost b * n) ∧
  ∃ id who, core (w_db w') =
    logged (core (w_db w)) [mk_move id c (b_ID b) res Wasted n t] [MkWasteRow x who].
Proof.
  unfold recordWaste. intros H. run_inv H.
  apply movement_ok in Hrun as [mid Hm].
  eapply quiet_ok in Hrun0; [|apply quiet_insert_outbox].
  cbn [wr_BatchID wr_FlavorID wr_Portions wr_CostLost].
  split_and!; [done..|]. eexists mid, _. cbn [w_db] in *. rewrite Hrun0, Hm.
  unfold logged. cbn. by rewrite app_nil_r.
Qed.

Lemma saveBatch_ok b t o w u w' :
  saveBatch b t o w = (inr u, w') →
  core (w_db w') = post (core (w_db w)) b t [] [].
Proof.
  unfold saveBatch. intros H. run_inv H. cbn [w_db]. rewrite core_saveBatch.
  unfold post. by rewrite !app_nil_r.
Qed.
End frame.

#[export] Hint Resolve quiet_bind quiet_ret quiet_throw quiet_query quiet_new_uuid quiet_now quiet_lock
  quiet_insert_outbox quiet_low_notified quiet_ignore quiet_for_each
  quiet_lockFlavors quiet_reset quiet_check quiet_scanBatch quiet_loadReservation
  quiet_reservationFlavors : quiet.

Ltac quiet_run H := eapply quiet_ok in H; [|solve [eauto with quiet]].

(** ** Frame conditions by table

    A property of the database that survives writes to the batches, the
    allocations, the two logs and the outbox survives every body that does not
    write other tables. *)

Record stock_writes `{!Digest} (P : DB → Prop) : Prop := {
  sw_batches : ∀ f d, P d → P (set_batches f d);
  sw_allocation : ∀ a d, P d → P (add_allocation a d);
  sw_movement : ∀ m d, P d → P (add_movement m d);
  sw_waste : ∀ x d, P d → P (add_waste x d);
  sw_outbox : ∀ f d, P d → P (set_outbox f d)
}.

Section stock_writes.
Context {uuid : UuidLib} {dig : Digest} (P : DB → Prop) (HP : stock_writes P).
Abbreviation keeps := (preserves P).
Hint Extern 1 (P _) => apply HP : core.

Lemma keeps_ignore {A} (m : M DB IErr A) : keeps m → keeps (ignore m).
Proof. intros Hm. unfold ignore. preserve. Qed.
Lemma keeps_insert_outbox e t : keeps (insert_outbox e t).
Proof. apply preserves_stmt. intros ? d ? d' Hd [= <- <-]. auto. Qed.
Lemma keeps_movement c b r k n t : keeps (movement c b r k n t).
Proof. unfold movement. preserve. Qed.
Lemma keeps_saveBatch b t : keeps (saveBatch b t).
Proof. unfold saveBatch. preserve. Qed.
Lemma keeps_low_notified fid v : keeps (exec (set_low_notified fid v)).
Proof. unfold set_low_notified. preserve. Qed.
Hint Resolve keeps_ignore keeps_insert_outbox keeps_movement keeps_saveBatch keeps_low_notified : preserves.

Lemma keeps_recordWaste c b n reason note actor res t : keeps (recordWaste c b n reason note actor res t).
Proof. unfold recordWaste. preserve. Qed.
Lemma keeps_lockFlavors ids : keeps (lockFlavors ids).
Proof.
  unfold lockFlavors. generalize (merge_sort String.le ids) as l. generalize ""%string as prev.
  intros prev l. revert prev. unfold lock. induction l as [|i l IH]; intros prev; cbn; preserve.
Qed.
Lemma keeps_scanBatch id : keeps (scanBatch id).
Proof. unfold scanBatch. preserve. Qed.
Lemma keeps_loadReservation id : keeps (loadReservation id).
Proof. unfold loadReservation. preserve. Qed.
Lemma keeps_reset fid t : keeps (ResetLowStockNotified fid t).
Proof. unfold ResetLowStockNotified. preserve. Qed.
Lemma keeps_check fid t : keeps (CheckAndNotifyLowStock fid t).
Proof. unfold CheckAndNotifyLowStock. preserve. Qed.
Lemma keeps_insert_batch b : keeps (insert_batch b).
Proof.
  apply preserves_stmt. intros ? d ? d' Hd H. case_bool_decide; [done|].
  destruct (existsb _ _); [done|]. simplify_eq. auto.
Qed.
Hint Resolve keeps_recordWaste keeps_lockFlavors keeps_scanBatch keeps_loadReservation keeps_reset
  keeps_check keeps_insert_batch : preserves.

Lemma keeps_pick_item t p i : keeps (pick_item t p i).
Proof. unfold pick_item. preserve. Qed.
Lemma keeps_write_allocations c rid bs t i l : keeps (write_allocations c rid bs t i l).
Proof. revert i. induction l as [|a l IH]; intros i; cbn; preserve. Qed.
Lemma keeps_settle c confirm rid t a : keeps (settle_allocation c confirm rid t a).
Proof. unfold settle_allocation. preserve. Qed.
Lemma keeps_return c rid t a : keeps (return_allocation c rid t a).
Proof. unfold return_allocation. preserve. Qed.
Hint Resolve keeps_pick_item keeps_write_allocations keeps_settle keeps_return : preserves.

Lemma keeps_create_batch c bid code cost in_ : keeps (create_batch c bid code cost in_).
Proof. unfold create_batch, wrapInvalid, now. preserve. Qed.
Lemma keeps_waste_body c bid actor in_ : keeps (waste_body c bid actor in_).
Proof. unfold waste_body, invalid, now. preserve. Qed.
Lemma keeps_expire_body c id fl : keeps (expire_body c id fl).
Proof. unfold expire_body, now. preserve. Qed.

(** Bodies that also write reservations. *)
Section reservation_writes.
Context (Hres : ∀ f d, P d → P (set_reservations f d)).

Lemma keeps_reserve_body TTL c in_ : keeps (reserve_body TTL c in_).
Proof.
  assert (∀ r, keeps (insert_reservation r)).
  { intros r. apply preserves_stmt. intros ? d ? d' Hd H. repeat case_match; simplify_eq; auto. }
  unfold reserve_body, invalid, now, lock. preserve.
Qed.
Lemma keeps_update_reservation id s t reason : keeps (update_reservation id s t reason).
Proof. unfold update_reservation. preserve. Qed.
Hint Resolve keeps_update_reservation : preserves.
Lemma keeps_transition c in_ confirm expiry : keeps (transition c in_ confirm expiry).
Proof. unfold transition, now, lock, reservationFlavors. preserve. Qed.
Lemma keeps_returnConfirmed c in_ : keeps (returnConfirmed c in_).
Proof. unfold returnConfirmed, now, lock, reservationFlavors. preserve. Qed.
End reservation_writes.
End stock_writes.
