(* ===== verification/InvProofs.v ===== *)
(** Batch Inventory: the stock invariant is preserved by the bodies of the
    transactions. *)

From S2P Require Import Prelude Effects GoStd InvModel InvStore InvOps InvReserve InvInv InvFrame.

Lemma ginv_ext c dr ds dr' ds' :
  ginv c dr ds → (∀ id, dr id = dr' id) → (∀ id, ds id = ds' id) → ginv c dr' ds'.
Proof.
  intros [Hb ? ? ? ? ? ?] E1 E2. split; try done.
  intros id b Hlk. rewrite <-E1, <-E2. by apply Hb.
Qed.

Lemma post_logged c b t ms ws : post (logged c ms ws) b t [] [] = post c b t ms ws.
Proof. unfold post, logged. cbn. by rewrite !app_nil_r. Qed.

(** Sums over short literal logs. *)
Ltac log_sums :=
  unfold moved_in, ledger_in, wasted_in, sum_where, delta, mk_move; cbn;
  repeat (case_bool_decide; cbn); try congruence; try lia.

Lemma waste_ok_intro c b x n :
  c_batches c !! b_ID b = Some b → row_ok b → 0 < n ≤ b_Initial b →
  wr_BatchID (ws_Record x) = b_ID b → wr_FlavorID (ws_Record x) = b_FlavorID b →
  wr_Portions (ws_Record x) = n → wr_CostLost (ws_Record x) = wrap64 (b_UnitCost b * n) →
  waste_ok c x.
Proof.
  intros Hlk Hok Hn E1 E2 E3 E4. exists b. rewrite E1, E2, E3, E4. split_and!; try done; try lia.
  apply cost_no_overflow; [done|lia].
Qed.

(** Sum of allocations per batch. *)
Definition alloc_sum (id : string) (l : list Allocation) : Z :=
  sum_where (λ a, bool_decide (al_BatchID a = id)) al_Portions l.

(** The obligations of [write_ok] for a concrete move of a batch whose row is
    in order. *)
Ltac write_step Hrow :=
  destruct Hrow; split; cbn; try done; try (log_sums; fail);
  try (split; cbn; lia); intros ? Hin; repeat (apply elem_of_cons in Hin as [->|Hin]);
  solve [by apply not_elem_of_nil in Hin|auto].

(** A waste record written for a batch whose row is in order. *)
Ltac waste_step Hm b Hrow :=
  match type of Hm with
  | _ = logged ?k _ [?x] =>
      assert (waste_ok k x) by (eapply (waste_ok_intro _ b); eauto; destruct Hrow; lia)
  end.

Section bodies.
Context {uuid : UuidLib} {dig : Digest}.
Abbreviation I := (M DB IErr).

(** ** Moving one allocation *)

(** Writing the log entries of a move and then the batch. *)
Lemma save_logged k b b' t ms ws nr ns o w1 u w' dr ds :
  ginv k dr ds → c_batches k !! b_ID b = Some b → b_ID b' = b_ID b →
  write_ok k b b' ms ws nr ns →
  core (w_db w1) = logged k ms ws → saveBatch b' t o w1 = (inr u, w') →
  ginv (core (w_db w')) (bump dr (b_ID b) nr) (bump ds (b_ID b) ns) ∧
  c_res (core (w_db w')) = c_res k ∧ c_allocs (core (w_db w')) = c_allocs k.
Proof.
  intros Hinv Hlk Hid Hwo Hc H. apply saveBatch_ok in H. rewrite H, Hc, post_logged.
  rewrite <-Hid in *. split; [|done]. by eapply post_inv.
Qed.

Ltac save_step Hinv Hlk Hm H :=
  eapply save_logged; [exact Hinv|exact Hlk| | |exact Hm|exact H]; [done|].

Lemma settle_allocation_ok cx confirm rid t a o w u w' dr ds :
  rid ≠ "" → 0 < al_Portions a → ginv (core (w_db w)) dr ds →
  settle_allocation cx confirm rid t a o w = (inr u, w') →
  ginv (core (w_db w')) (bump dr (al_BatchID a) (al_Portions a))
    (bump ds (al_BatchID a) (if confirm then al_Portions a else 0)) ∧
  c_res (core (w_db w')) = c_res (core (w_db w)) ∧
  c_allocs (core (w_db w')) = c_allocs (core (w_db w)).
Proof.
  intros Hrid Hpos Hinv H. unfold settle_allocation in H. run_inv H.
  apply scanBatch_ok in Hrun as [Hlk Hc]. rewrite <-Hc in *. clear Hc.
  destruct (gi_batches _ _ _ Hinv _ _ Hlk) as [Hid Hrow _ _ _ _ _ _ _].
  case_bool_decide as Hres; run_inv H. rename a0 into b.
  rewrite <-Hid in *.
  set (k := core (w_db w0)) in *.
  destruct confirm; [|destruct (bool_decide (t < b_ExpiresAt b)) eqn:Ht]; cbn in Hrun.
  - destruct (_ || _); run_inv Hrun. apply movement_ok in Hrun0 as [mid Hm].
    save_step Hinv Hlk Hm H; write_step Hrow.
  - run_inv Hrun. apply movement_ok in Hrun0 as [mid Hm].
    save_step Hinv Hlk Hm H; write_step Hrow.
  - run_inv Hrun. apply recordWaste_ok in Hrun0 as (E1 & E2 & E3 & E4 & mid & who & Hm).
    cbn [with_balances b_ID b_FlavorID b_UnitCost] in *.
    save_step Hinv Hlk Hm H.
    waste_step Hm b Hrow. write_step Hrow.
Qed.

Lemma return_allocation_ok cx rid t a o w u w' dr ds :
  rid ≠ "" → 0 < al_Portions a → ginv (core (w_db w)) dr ds →
  return_allocation cx rid t a o w = (inr u, w') →
  ginv (core (w_db w')) (bump dr (al_BatchID a) 0) (bump ds (al_BatchID a) (- al_Portions a)) ∧
  c_res (core (w_db w')) = c_res (core (w_db w)) ∧
  c_allocs (core (w_db w')) = c_allocs (core (w_db w)).
Proof.
  intros Hrid Hpos Hinv H. unfold return_allocation in H. run_inv H.
  apply scanBatch_ok in Hrun as [Hlk Hc]. rewrite <-Hc in *. clear Hc.
  destruct (gi_batches _ _ _ Hinv _ _ Hlk) as [Hid Hrow _ _ _ _ _ _ _].
  case_bool_decide as Hres; run_inv H. rename a0 into b. rewrite <-Hid in *.
  set (k := core (w_db w0)) in *.
  destruct (bool_decide (t < b_ExpiresAt b)) eqn:Ht; cbn in Hrun; run_inv Hrun.
  - apply movement_ok in Hrun0 as [mid Hm]. save_step Hinv Hlk Hm H; write_step Hrow.
  - apply recordWaste_ok in Hrun0 as (E1 & E2 & E3 & E4 & mid & who & Hm).
    cbn [with_balances b_ID b_FlavorID b_UnitCost] in *.
    save_step Hinv Hlk Hm H. waste_step Hm b Hrow. write_step Hrow.
Qed.

(** ** All allocations of a reservation *)

Lemma alloc_sum_cons id a l :
  alloc_sum id (a :: l) = (if decide (id = al_BatchID a) then al_Portions a else 0) + alloc_sum id l.
Proof. unfold alloc_sum, sum_where. cbn. repeat case_bool_decide; repeat case_decide; try congruence; lia. Qed.

(** Folding a move over the allocations adds up its in-flight portions. *)
Lemma for_each_moves (f : Allocation → I unit) (nr ns : Allocation → Z) (l : list Allocation) :
  (∀ a o w u w' dr ds, a ∈ l → ginv (core (w_db w)) dr ds → f a o w = (inr u, w') →
     ginv (core (w_db w')) (bump dr (al_BatchID a) (nr a)) (bump ds (al_BatchID a) (ns a)) ∧
     c_res (core (w_db w')) = c_res (core (w_db w)) ∧
     c_allocs (core (w_db w')) = c_allocs (core (w_db w))) →
  ∀ o w u w' dr ds, ginv (core (w_db w)) dr ds → for_each l f o w = (inr u, w') →
  ginv (core (w_db w'))
    (λ id, dr id + sum_where (λ a, bool_decide (al_BatchID a = id)) nr l)
    (λ id, ds id + sum_where (λ a, bool_decide (al_BatchID a = id)) ns l) ∧
  c_res (core (w_db w')) = c_res (core (w_db w)) ∧
  c_allocs (core (w_db w')) = c_allocs (core (w_db w)).
Proof.
  intros Hf. induction l as [|a l IH]; intros o w u w' dr ds Hinv H; cbn in H; run_inv H.
  - split; [|done]. eapply ginv_ext; [exact Hinv|..]; intros id; cbn; lia.
  - destruct (Hf a o w _ _ dr ds ltac:(by left) Hinv Hrun) as (H1 & R1 & A1).
    apply IH with (dr := bump dr (al_BatchID a) (nr a)) (ds := bump ds (al_BatchID a) (ns a)) in H
      as (H2 & R2 & A2); [|intros; eapply Hf; eauto; by right|done].
    split; [|split; congruence].
    eapply ginv_ext; [exact H2|..]; intros id; unfold bump, sum_where; cbn;
      case_bool_decide; case_decide; try congruence; lia.
Qed.

(** Portions of the allocation rows of reservation [rid] on batch [id]. *)
Definition rows_sum (rid id : string) (l : list AllocRow) : Z :=
  sum_where (λ a, bool_decide (ar_BatchID a = id) && bool_decide (ar_ReservationID a = rid)) ar_Portions l.

Lemma rows_sum_allocations rid id (d : DB) :
  alloc_sum id (allocations_of rid d) = rows_sum rid id (c_allocs (core d)).
Proof.
  unfold alloc_sum, sum_where. rewrite (sum_by_perm _ _ _ (allocations_of_perm rid d)).
  unfold rows_sum, sum_where. cbn. induction (reservation_allocations d) as [|a l IH]; [done|].
  rewrite filter_cons. cbn [sum_by]. rewrite <-IH.
  case_decide; cbn; repeat case_bool_decide; cbn; try congruence; lia.
Qed.

(** ** Changing the state of a reservation *)

Definition restate (st : ResStatus) (t : Z) (reason : string) (r : ResRow) : ResRow :=
  MkResRow (rr_ID r) (rr_OrderID r) st (rr_CreatedAt r) (rr_ExpiresAt r) t reason.

Definition set_res (c : Core) (rid : string) (st : ResStatus) (t : Z) (reason : string) : Core :=
  MkCore (c_batches c) (alter (restate st t reason) rid (c_res c)) (c_allocs c) (c_moves c) (c_waste c).

Lemma held_set_res c rid row st' t reason st id :
  c_res c !! rid = Some row →
  held (set_res c rid st' t reason) st id =
  held c st id - (if decide (rr_Status row = st) then rows_sum rid id (c_allocs c) else 0)
               + (if decide (st' = st) then rows_sum rid id (c_allocs c) else 0).
Proof.
  intros Hrow. unfold held, rows_sum, sum_where. cbn [set_res c_allocs].
  induction (c_allocs c) as [|a l IH]; cbn; [by repeat case_decide|].
  rewrite IH. clear IH. unfold has_status. cbn [set_res c_res].
  rewrite lookup_alter. destruct (decide (rid = ar_ReservationID a)) as [<-|Hne].
  - rewrite Hrow. cbn. rewrite (bool_decide_eq_true_2 (rid = rid)) by done.
    repeat case_bool_decide; repeat case_decide; cbn; simplify_eq; try congruence; lia.
  - rewrite (bool_decide_eq_false_2 (ar_ReservationID a = rid)) by done.
    rewrite andb_false_r. repeat case_decide; lia.
Qed.

(** Once the portions in flight are those of the reservation, changing its state
    settles them. *)
Lemma set_res_inv c dr ds rid row st' t reason dr' ds' :
  ginv c dr ds → c_res c !! rid = Some row →
  (∀ id, held (set_res c rid st' t reason) RActive id - dr' id = held c RActive id - dr id) →
  (∀ id, held (set_res c rid st' t reason) RConfirmed id + ds' id = held c RConfirmed id + ds id) →
  ginv (set_res c rid st' t reason) dr' ds'.
Proof.
  intros [Hb Ha Hnd Hr Ho Hm Hw] Hrow HA HC.
  assert (Hget : ∀ i r', c_res (set_res c rid st' t reason) !! i = Some r' →
     ∃ r, c_res c !! i = Some r ∧ rr_ID r' = rr_ID r ∧ rr_OrderID r' = rr_OrderID r ∧
          rr_CreatedAt r' = rr_CreatedAt r ∧ rr_ExpiresAt r' = rr_ExpiresAt r).
  { intros i r'. cbn. rewrite lookup_alter. case_decide; [subst|intros ?; by exists r'].
    destruct (c_res c !! _) as [r|]; [|done]. intros [= <-]. exists r. done. }
  split; try done.
  - intros id b Hlk. destruct (Hb id b Hlk). by split; rewrite ?HA, ?HC.
  - intros a Hin. destruct (Ha a Hin) as [Hp (b0 & r0 & E1 & E2 & E3 & E4)]. split; [done|].
    exists b0. cbn. rewrite lookup_alter. case_decide as Heq; [rewrite Heq|]; rewrite E3; eauto.
  - intros id r' (r & H1 & -> & _ & -> & ->)%Hget. by apply Hr.
  - intros i j ri rj (ri' & H1 & _ & -> & _)%Hget (rj' & H2 & _ & -> & _)%Hget. by apply Ho.
Qed.

Lemma update_reservation_ok id st t reason o w u w' :
  update_reservation id st t reason o w = (inr u, w') →
  core (w_db w') = set_res (core (w_db w)) id st t reason.
Proof. unfold update_reservation. intros H. by run_inv H. Qed.

Lemma allocs_positive c dr ds id (d : DB) :
  core d = c → ginv c dr ds → ∀ a, a ∈ allocations_of id d → 0 < al_Portions a.
Proof.
  intros <- Hinv a Ha. rewrite allocations_of_perm in Ha.
  apply list_elem_of_fmap in Ha as (r & -> & [_ Hin]%list_elem_of_filter).
  by destruct (gi_allocs _ _ _ Hinv r Hin).
Qed.

(** ** Transition and Return *)

Lemma sum_where_zero {A} (P : A → bool) l : sum_where P (λ _, 0) l = 0.
Proof. apply sum_by_zero. intros x _. by destruct (P x). Qed.

Lemma sum_where_if {A} (P : A → bool) (c : bool) f l :
  sum_where P (λ x, if c then f x else 0) l = if c then sum_where P f l else 0.
Proof. destruct c; [done|apply sum_where_zero]. Qed.
Lemma sum_where_opp {A} (P : A → bool) f l : sum_where P (λ x, - f x) l = - sum_where P f l.
Proof. unfold sum_where. induction l as [|x l IH]; cbn; [done|]. destruct (P x); lia. Qed.

(** The state a transition that goes through leaves the reservation in. *)
Definition target_status (confirm expiry : bool) (t expires : Z) : ResStatus :=
  if confirm then RConfirmed
  else if expiry || negb (bool_decide (t < expires)) then RExpired else RReleased.

(** What a successful change of the state of one reservation reports and does:
    either nothing, because there is nothing to do, or the move to [st]. *)
Record res_outcome (idle : ResStatus → Prop) (from : ResStatus) (to : Z → Z → ResStatus)
    (in_ : TransitionInput) (c c' : Core) (r : Reservation) : Prop := {
  ro_row : ∃ row t, c_res c !! ti_ReservationID in_ = Some row ∧
    rr_OrderID row = ti_OrderID in_ ∧ r_ID r = ti_ReservationID in_ ∧ r_OrderID r = ti_OrderID in_ ∧
    r_CreatedAt r = rr_CreatedAt row ∧ r_ExpiresAt r = rr_ExpiresAt row ∧
    ((r_Status r = rr_Status row ∧ c' = c ∧ idle (rr_Status row)) ∨
     (rr_Status row = from ∧ r_Status r = to t (rr_ExpiresAt row) ∧
      (r_Status r = RConfirmed → t < rr_ExpiresAt row) ∧
      c_allocs c' = c_allocs c ∧
      c_res c' = alter (restate (r_Status r) t (ti_Reason in_)) (ti_ReservationID in_) (c_res c)))
}.

Definition transition_idle (confirm expiry : bool) (st : ResStatus) : Prop :=
  expiry = true ∨ (if confirm then st = RConfirmed else st = RReleased ∨ st = RExpired).

Lemma transition_spec cx in_ confirm expiry o w r w' :
  inv_core (core (w_db w)) → transition cx in_ confirm expiry o w = (inr r, w') →
  inv_core (core (w_db w')) ∧
  res_outcome (transition_idle confirm expiry) RActive (target_status confirm expiry) in_
    (core (w_db w)) (core (w_db w')) r.
Proof.
  intros Hinv H. unfold transition in H. run_inv H.
  quiet_run Hrun. quiet_run Hrun0. quiet_run Hrun1.
  apply loadReservation_ok in Hrun2 as (Hc & row & Hrow & ->).
  cbn [w_db r_OrderID r_Status r_ExpiresAt r_Allocations r_ID] in *.
  assert (Hdb : core (w_db w) = core (w_db w2)) by congruence. rewrite Hdb in *.
  clear Hrun Hrun0 Hrun1 Hdb.
  destruct (negb (bool_decide (rr_OrderID row = _))) eqn:Hord; run_inv H. quiet_run Hrun. bool_guards.
  assert (Hdb : core (w_db w4) = core (w_db w2)) by congruence. clear Hrun.
  destruct (gi_res _ _ _ Hinv _ _ Hrow) as (Hid & Hne & _). rewrite Hid in *.
  destruct (expiry && _) eqn:Hexp.
  { bool_guards. run_inv H. rewrite Hdb. split; [done|]. split. exists row, 0.
    split_and!; try done. left. split_and!; auto. by left. }
  destruct (bool_decide (rr_Status row = RActive)) eqn:Hst; cbn [negb] in H.
  2: { clear Hexp. destruct (_ || _) eqn:Hidle; run_inv H. rewrite Hdb. split; [done|]. split. exists row, 0.
    split_and!; try done. left. split_and!; auto. right.
    destruct confirm; cbn in *; rewrite ?orb_false_r in Hidle; bool_guards; [done|].
    apply orb_true_iff in Hidle as [?|?]; bool_guards; auto. }
  destruct (confirm && _) eqn:Hlate; run_inv H. bool_guards.
  apply (for_each_moves _ al_Portions (λ a, if confirm then al_Portions a else 0)) with
    (dr := λ _, 0) (ds := λ _, 0) in Hrun as (H1 & R1 & A1).
  2: { intros. eapply settle_allocation_ok; eauto. eapply allocs_positive; [reflexivity|exact Hinv|eassumption]. }
  2: { by rewrite Hdb. }
  apply update_reservation_ok in Hrun0.
  assert (core (w_db w7) = core (w_db w6)) as ->.
  { destruct confirm; run_inv Hrun1; [done|]. eapply quiet_ok; [|exact Hrun1]. eauto with quiet. }
  rewrite Hrun0. split.
  - eapply set_res_inv; [exact H1|by rewrite R1, Hdb|..]; intros id;
    erewrite held_set_res by (by rewrite R1, Hdb); rewrite Hst, A1, Hdb, <-rows_sum_allocations;
    rewrite ?sum_where_if; unfold alloc_sum; repeat case_decide; try done;
    destruct confirm; try done; try lia; destruct (expiry || _); try done; lia.
  - split. eexists row, _. split_and!; try done. right. rewrite Hdb in R1, A1. cbn [set_res c_res c_allocs r_Status with_r_status]. rewrite R1.
    split_and!; try done. intros Ht. destruct confirm; cbn in *; [by bool_guards|].
    by destruct (_ || _).
Qed.

Lemma returnConfirmed_spec cx in_ o w r w' :
  inv_core (core (w_db w)) → returnConfirmed cx in_ o w = (inr r, w') →
  inv_core (core (w_db w')) ∧
  res_outcome (λ st, st = RReturned) RConfirmed (λ _ _, RReturned) in_ (core (w_db w)) (core (w_db w')) r.
Proof.
  intros Hinv H. unfold returnConfirmed in H. run_inv H.
  quiet_run Hrun. quiet_run Hrun0. quiet_run Hrun1.
  apply loadReservation_ok in Hrun2 as (Hc & row & Hrow & ->).
  cbn [w_db r_OrderID r_Status r_ExpiresAt r_Allocations r_ID] in *.
  assert (Hdb : core (w_db w) = core (w_db w2)) by congruence. rewrite Hdb in *.
  clear Hrun Hrun0 Hrun1 Hdb.
  destruct (negb (bool_decide (rr_OrderID row = _))) eqn:Hord; run_inv H. bool_guards.
  destruct (gi_res _ _ _ Hinv _ _ Hrow) as (Hid & Hne & _). rewrite Hid in *.
  destruct (bool_decide (rr_Status row = RReturned)) eqn:Hret.
  { bool_guards. run_inv H. rewrite Hc. split; [done|]. split. exists row, 0. split_and!; auto. }
  destruct (bool_decide (rr_Status row = RConfirmed)) eqn:Hst; cbn [negb] in H; run_inv H. bool_guards.
  quiet_run Hrun. assert (Hdb : core (w_db w4) = core (w_db w2)) by congruence. clear Hrun.
  apply (for_each_moves _ (λ _, 0) (λ a, - al_Portions a)) with
    (dr := λ _, 0) (ds := λ _, 0) in Hrun0 as (H1 & R1 & A1).
  2: { intros. eapply return_allocation_ok; eauto. eapply allocs_positive; [reflexivity|exact Hinv|eassumption]. }
  2: { by rewrite Hdb. }
  apply update_reservation_ok in Hrun1. quiet_run Hrun2. rewrite Hrun2, Hrun1. split.
  - eapply set_res_inv; [exact H1|by rewrite R1, Hdb|..]; intros id;
    erewrite held_set_res by (by rewrite R1, Hdb); rewrite Hst, A1, Hdb, <-rows_sum_allocations;
    rewrite ?sum_where_zero, ?sum_where_opp; repeat case_decide; try done; unfold alloc_sum; lia.
  - split. eexists row, _. split_and!; try done. right. rewrite Hdb in R1, A1. cbn [set_res c_res c_allocs r_Status with_r_status]. rewrite R1.
    split_and!; done.
Qed.
End bodies.
