(* ===== verification/InvReserveProofs.v ===== *)
(** Batch Inventory: picking stock for a reservation, and the stock invariant
    for [Reserve]. *)

From S2P Require Import Prelude Effects GoStd InvModel InvStore InvOps InvReserve InvInv InvFrame InvProofs.

(** ** Validation of the items *)

Section items.
Context {uuid : UuidLib}.

Lemma validItems_loop_spec seen items items' :
  validItems_loop seen items = Some items' →
  NoDup (fmap it_FlavorID items') ∧
  (∀ i, i ∈ items' → ¬ (it_FlavorID i ∈ seen) ∧ (1 ≤ it_Portions i ≤ MaxPortions)) ∧
  fmap it_Portions items' = fmap it_Portions items ∧
  Forall2 (λ i i', ID (it_FlavorID i) = Some (it_FlavorID i')) items items'.
Proof.
  revert seen items'. induction items as [|i items IH]; intros seen items' H; cbn in H.
  { simplify_eq. split_and!; [constructor|set_solver|done|constructor]. }
  destruct (ID (it_FlavorID i)) as [id|] eqn:Hid; [|done].
  destruct (_ || _) eqn:Hg; [done|]. bool_guards.
  destruct (validItems_loop _ items) as [rest|] eqn:Hl; [|done]. simplify_eq/=.
  apply IH in Hl as (N1 & N2 & N3 & N4). split_and!; cbn.
  - constructor; [|done]. intros (x & E & Hx)%list_elem_of_fmap. apply N2 in Hx as [Hx _]. clear -E Hx. set_solver.
  - intros x [->|Hx]%elem_of_cons; cbn; [split; [done|lia]|]. apply N2 in Hx as [Hx ?]. split; [|done]. clear -Hx. set_solver.
  - by f_equal.
  - by constructor.
Qed.

Lemma validItems_spec items items' :
  validItems items = Some items' →
  NoDup (fmap it_FlavorID items') ∧
  (∀ i, i ∈ items' → 1 ≤ it_Portions i ≤ MaxPortions) ∧
  fmap it_Portions items' = fmap it_Portions items ∧
  Forall2 (λ i i', ID (it_FlavorID i) = Some (it_FlavorID i')) items items'.
Proof.
  unfold validItems. destruct (_ || _); [done|]. intros (?&H&?&?)%validItems_loop_spec.
  split_and!; auto. intros i Hi. by destruct (H i Hi).
Qed.
End items.

(** ** Picking *)

Record pick_ok (c : Core) (bs : gmap string Batch) (exp : Z) (a : Allocation) : Prop := {
  po_positive : 0 < al_Portions a;
  po_batch : ∃ b, c_batches c !! al_BatchID a = Some b ∧ b_ID b = al_BatchID a ∧
    b_FlavorID b = al_FlavorID a ∧ al_Portions a ≤ b_Available b ∧ exp ≤ b_ExpiresAt b ∧
    bs !! al_BatchID a =
      Some (with_balances (b_Available b - al_Portions a) (b_Reserved b + al_Portions a)
              (b_Sold b) (b_Wasted b) b)
}.

Record picking_ok (c : Core) (t : Z) (p : Picking) : Prop := {
  pi_nodup : NoDup (al_BatchID <$> pk_Allocations p);
  pi_allocs : ∀ a, a ∈ pk_Allocations p → pick_ok c (pk_Batches p) (pk_ExpiresAt p) a;
  pi_expires : t < pk_ExpiresAt p
}.

(** What the rows of one flavor look like. *)
Record rows_ok (c : Core) (t : Z) (flavor : string) (rows : list Batch) : Prop := {
  ro_nodup : NoDup (b_ID <$> rows);
  ro_rows : ∀ b, b ∈ rows → c_batches c !! b_ID b = Some b ∧ b_FlavorID b = flavor ∧
                              0 < b_Available b ∧ t < b_ExpiresAt b
}.

Lemma rows_ok_tail c t fl b rows : rows_ok c t fl (b :: rows) → rows_ok c t fl rows.
Proof. intros [Hn Hr]. split; [by inversion Hn|]. intros x Hx. apply Hr. by right. Qed.

Lemma pick_rows_ok c t flavor rows needed p needed' p' :
  rows_ok c t flavor rows → 0 ≤ needed → picking_ok c t p →
  (∀ b, b ∈ rows → b_ID b ∉ al_BatchID <$> pk_Allocations p) →
  pick_rows rows needed p = (needed', p') →
  0 ≤ needed' ∧ picking_ok c t p' ∧
  (∀ a, a ∈ pk_Allocations p' → a ∈ pk_Allocations p ∨ al_FlavorID a = flavor) ∧
  sum_by al_Portions (pk_Allocations p') = sum_by al_Portions (pk_Allocations p) + (needed - needed').
Proof.
  revert needed p. induction rows as [|b rows IH]; intros needed p Hrows Hn Hp Hfresh H; cbn in H.
  { simplify_eq. split_and!; auto. lia. }
  pose proof (rows_ok_tail _ _ _ _ _ Hrows) as Htl.
  case_bool_decide.
  { eapply IH in H; eauto. intros x Hx. apply Hfresh. by right. }
  destruct (ro_rows _ _ _ _ Hrows b) as (Hlk & Hfl & Hav & Hexp); [by left|].
  assert (Hnb : b_ID b ∉ al_BatchID <$> pk_Allocations p) by (apply Hfresh; by left).
  destruct Hp as [Pn Pa Pe].
  apply IH in H as (H1 & H2 & H3 & H4); [|done|lia| |]; cbn [pk_Allocations].
  - split_and!; auto.
    + intros a Ha. destruct (H3 a Ha) as [Hin|]; [|by right]. cbn in Hin.
      apply elem_of_app in Hin as [|Hin]; [by left|]. right.
      apply list_elem_of_singleton in Hin as ->. done.
    + rewrite H4. cbn. rewrite sum_by_app. cbn. lia.
  - split; cbn.
    + rewrite fmap_app. apply NoDup_app. split_and!; [done| |apply NoDup_singleton].
      intros x Hx Hx'. cbn in Hx'. apply list_elem_of_singleton in Hx' as ->. done.
    + intros a [Ha|Ha]%elem_of_app.
      * destruct (Pa a Ha) as [Q1 (b0 & Q2 & Q3 & Q4 & Q5 & Q6 & Q7)]. split; [done|].
        exists b0. split_and!; auto; [case_bool_decide; lia|].
        rewrite lookup_insert_ne; [done|]. intros E. apply Hnb. rewrite E.
        apply list_elem_of_fmap. eauto.
      * apply list_elem_of_singleton in Ha as ->. split; cbn; [lia|].
        exists b. split_and!; auto; [lia|case_bool_decide; lia|]. by rewrite lookup_insert_eq.
    + case_bool_decide; lia.
  - intros x Hx. rewrite fmap_app. intros [Hin|Hin]%elem_of_app.
    + revert Hin. apply Hfresh. by right.
    + cbn in Hin. apply list_elem_of_singleton in Hin. destruct Hrows as [Hnd _].
      cbn in Hnd. apply NoDup_cons in Hnd as [Hnd _]. apply Hnd. rewrite <-Hin.
      apply list_elem_of_fmap. eauto.
Qed.

Section picking.
Context {uuid : UuidLib} {dig : Digest}.
Abbreviation I := (M DB IErr).

Lemma elem_of_batch_rows (d : DB) b :
  b ∈ br_batch <$> batch_rows d ↔ ∃ id, c_batches (core d) !! id = Some b.
Proof.
  unfold batch_rows. rewrite list_elem_of_fmap. cbn. split.
  - intros (row & -> & (x & -> & Hx)%list_elem_of_fmap). destruct x as [id row].
    apply elem_of_map_to_list in Hx. exists id. by rewrite lookup_fmap, Hx.
  - intros [id H]. rewrite lookup_fmap in H. destruct (batches d !! id) as [row|] eqn:E; [|done].
    simplify_eq/=. exists row. split; [done|]. apply list_elem_of_fmap. exists (id, row).
    by rewrite elem_of_map_to_list.
Qed.

Lemma NoDup_batch_ids (d : DB) dr ds :
  ginv (core d) dr ds → NoDup (b_ID <$> (br_batch <$> batch_rows d)).
Proof.
  intros Hinv. unfold batch_rows.
  replace (b_ID <$> (br_batch <$> (map_to_list (batches d)).*2)) with ((map_to_list (batches d)).*1).
  { apply NoDup_fst_map_to_list. }
  rewrite <-!list_fmap_compose. apply list_fmap_ext. intros i [id row] Hi. cbn.
  apply list_elem_of_lookup_2, elem_of_map_to_list in Hi.
  assert (c_batches (core d) !! id = Some (br_batch row)) as Hlk by (cbn; by rewrite lookup_fmap, Hi).
  by destruct (gi_batches _ _ _ Hinv _ _ Hlk).
Qed.

Lemma fefo_rows_ok flavor t (d : DB) dr ds :
  ginv (core d) dr ds → rows_ok (core d) t flavor (fefo_rows flavor t d).
Proof.
  intros Hinv. unfold fefo_rows. split.
  - rewrite merge_sort_Permutation.
    apply NoDup_fmap_filter. by eapply NoDup_batch_ids.
  - intros b Hb. rewrite merge_sort_Permutation in Hb.
    apply list_elem_of_filter in Hb as [Hs Hb]. unfold sellable in Hs. bool_guards.
    apply elem_of_batch_rows in Hb as [id Hlk].
    destruct (gi_batches _ _ _ Hinv _ _ Hlk) as [<- _ _ _ _ _ _ _]. split_and!; auto; lia.
Qed.

(** The fold over the items: distinct flavors pick distinct batches. *)
Lemma pick_items_ok t items :
  NoDup (it_FlavorID <$> items) → (∀ i, i ∈ items → 0 ≤ it_Portions i) →
  ∀ p o w p' w', inv_core (core (w_db w)) → picking_ok (core (w_db w)) t p →
  (∀ a, a ∈ pk_Allocations p → al_FlavorID a ∉ it_FlavorID <$> items) →
  fold_m (pick_item t) p items o w = (inr p', w') →
  w_db w' = w_db w ∧ picking_ok (core (w_db w)) t p' ∧
  sum_by al_Portions (pk_Allocations p') =
    sum_by al_Portions (pk_Allocations p) + sum_by it_Portions items.
Proof.
  induction items as [|i items IH]; intros Hnd Hpos p o w p' w' Hinv Hp Hfl H; cbn in H.
  { run_inv H. split_and!; auto. cbn. lia. }
  apply bind_ok in H as (p1 & w1 & H1 & H). unfold pick_item in H1. run_inv H1.
  destruct (pick_rows _ _ p) as [needed p2] eqn:Hpick. case_bool_decide; run_inv H1.
  apply NoDup_cons in Hnd as [Hni Hnd].
  eapply pick_rows_ok in Hpick as (N0 & Hp2 & Hsub & Hsum);
    [|by eapply fefo_rows_ok|apply Hpos; by left|done|].
  2: { intros b Hb (a & E & Ha)%list_elem_of_fmap.
       destruct (ro_rows _ _ _ _ (fefo_rows_ok (it_FlavorID i) t (w_db w) _ _ Hinv) b Hb)
         as (L1 & F1 & _).
       destruct (pi_allocs _ _ _ Hp a Ha) as [_ (b0 & L2 & _ & F2 & _)].
       rewrite <-E in L2. apply (Hfl a Ha). rewrite fmap_cons.
       replace (al_FlavorID a) with (it_FlavorID i) by congruence. by left. }
  apply IH in H as (Hw & Hp' & Hs); auto.
  - cbn [w_db] in *. split_and!; auto. rewrite Hs, Hsum. cbn. assert (needed = 0) by lia. lia.
  - intros x Hx. apply Hpos. by right.
  - intros a Ha. destruct (Hsub a Ha) as [Hin|Hin].
    + intros Hin'. apply (Hfl a Hin). rewrite fmap_cons. by right.
    + by rewrite Hin.
Qed.

(** ** Writing the reservation *)

Definition add_alloc (c : Core) (a : AllocRow) : Core :=
  MkCore (c_batches c) (c_res c) (c_allocs c ++ [a]) (c_moves c) (c_waste c).

Lemma held_add_alloc c a st id :
  held (add_alloc c a) st id = held c st id +
    if decide (ar_BatchID a = id ∧ rr_Status <$> c_res c !! ar_ReservationID a = Some st)
    then ar_Portions a else 0.
Proof.
  unfold held. cbn [add_alloc c_allocs]. rewrite sum_where_app. f_equal.
  unfold sum_where, has_status. cbn. rewrite Z.add_0_r. repeat case_bool_decide; cbn; case_decide; tauto.
Qed.

Lemma add_alloc_inv c dr ds a row :
  ginv c dr ds → alloc_ok c a → c_res c !! ar_ReservationID a = Some row → rr_Status row = RActive →
  (ar_ReservationID a, ar_BatchID a) ∉ (λ a, (ar_ReservationID a, ar_BatchID a)) <$> c_allocs c →
  ginv (add_alloc c a) (bump dr (ar_BatchID a) (ar_Portions a)) ds.
Proof.
  intros [Hb Ha Hnd Hr Ho Hm Hw] Hok Hres Hst Hnew. split; try done.
  - intros id b Hlk. destruct (Hb id b Hlk) as [? ? Br Bs ? ? ? ?]. split; rewrite ?held_add_alloc; try done; rewrite Hres;
      cbn; rewrite Hst; clear -Br Bs; unfold bump; repeat case_decide; try lia; naive_solver lia.
  - intros x [Hx|Hx]%elem_of_app; [by apply Ha in Hx as [? ?]|].
    by apply list_elem_of_singleton in Hx as ->; destruct Hok.
  - cbn. rewrite fmap_app. apply NoDup_app. split_and!; [done| |apply NoDup_singleton].
    intros x Hx Hx'. cbn in Hx'. apply list_elem_of_singleton in Hx' as ->. done.
Qed.

Lemma write_allocations_inv cx rid bs current row allocs :
  rid ≠ "" → rr_Status row = RActive →
  ∀ i o w u w', inv_core (core (w_db w)) → c_res (core (w_db w)) !! rid = Some row →
  NoDup (al_BatchID <$> allocs) →
  (∀ a, a ∈ allocs → pick_ok (core (w_db w)) bs (rr_ExpiresAt row) a) →
  (∀ r, r ∈ c_allocs (core (w_db w)) → ar_ReservationID r = rid → ar_BatchID r ∉ al_BatchID <$> allocs) →
  write_allocations cx rid bs current i allocs o w = (inr u, w') →
  inv_core (core (w_db w')).
Proof.
  intros Hne Hst. induction allocs as [|a allocs IH];
    intros i o w u w' Hinv Hrow Hnd Hpick Hfresh H; cbn in H; run_inv H; [done|].
  destruct (Hpick a) as [Hpos (b & Hlk & Hid & Hfl & Hav & Hexp & Hbs)]; [by left|].
  rewrite Hbs in Hrun. cbn [default] in Hrun. apply saveBatch_ok in Hrun.
  apply movement_ok in Hrun0 as [mid Hm].
  set (b' := with_balances _ _ _ _ b) in *. set (k := core (w_db w)) in *.
  set (row_a := MkAllocRow rid (al_BatchID a) (al_FlavorID a) (al_Portions a) i) in *.
  set (mv := mk_move mid cx (al_BatchID a) rid Reserved (al_Portions a) current) in *.
  assert (Hk : core (w_db w1) = add_alloc (post k b' current [mv] []) row_a).
  { cbn [w_db] in Hm. unfold id in Hrun. change (core (add_allocation row_a (w_db w0))) with (add_alloc (core (w_db w0)) row_a) in Hm.
    rewrite Hm, Hrun. unfold logged, add_alloc, post. cbn. by rewrite !app_nil_r. }
  assert (Hidb : b_ID b' = al_BatchID a) by done.
  apply NoDup_cons in Hnd as [Hna Hnd].
  eapply IH in H; [done|..]; rewrite ?Hk; try done.
  - eapply ginv_ext; [eapply (add_alloc_inv _ (bump (λ _, 0) (al_BatchID a) (- al_Portions a)) (bump (λ _, 0) (al_BatchID a) 0))|..].
    + rewrite <-Hidb. eapply (post_inv _ _ _ b); [done|by rewrite Hidb|].
      pose proof (bo_row _ _ _ _ _ (gi_batches _ _ _ Hinv _ _ Hlk)) as Hbrow. rewrite <-Hid in *.
      write_step Hbrow.
    + split; [done|]. destruct (post_lookup_Some k b' current [mv] [] _ _ Hlk) as (o' & L & F & X & _).
      exists o', row. cbn in *. rewrite F, X. split_and!; auto; lia.
    + cbn. exact Hrow.
    + done.
    + cbn. intros (r & E & Hin)%list_elem_of_fmap. injection E as E1 E2.
      apply (Hfresh r Hin (eq_sym E1)). rewrite <-E2. by left.
    + intros id. unfold bump. cbn. repeat case_decide; lia.
    + intros id. unfold bump. repeat case_decide; lia.
  - intros x Hx. destruct (Hpick x) as [Q0 (bx & Q1 & Q2 & Q3 & Q4 & Q5 & Q6)]; [by right|].
    split; [done|]. exists bx. split_and!; auto. cbn. rewrite lookup_alter_ne; [done|].
    rewrite Hid. intros E. apply Hna. rewrite E. apply list_elem_of_fmap. eauto.
  - cbn. intros r [Hin|Hin]%elem_of_app Hr.
    + intros Hin'. apply (Hfresh r Hin Hr). by right.
    + by apply list_elem_of_singleton in Hin as ->.
Qed.

Definition new_res (c : Core) (r : ResRow) : Core :=
  MkCore (c_batches c) (<[rr_ID r := r]> (c_res c)) (c_allocs c) (c_moves c) (c_waste c).

Definition res_row (r : Reservation) : ResRow :=
  MkResRow (r_ID r) (r_OrderID r) RActive (r_CreatedAt r) (r_ExpiresAt r) (r_CreatedAt r) "".

Lemma insert_reservation_ok r o w u w' :
  insert_reservation r o w = (inr u, w') →
  r_ID r ≠ "" ∧ c_res (core (w_db w)) !! r_ID r = None ∧
  (∀ i x, c_res (core (w_db w)) !! i = Some x → rr_OrderID x ≠ r_OrderID r) ∧
  core (w_db w') = new_res (core (w_db w)) (res_row r).
Proof.
  unfold insert_reservation. intros (_ & _ & s & H & ->)%stmt_ok.
  case_bool_decide as He; [done|]. case_bool_decide as Hk; [done|].
  destruct (existsb _ _) eqn:Hex; [done|]. simplify_eq. cbn.
  split_and!; auto.
  - by apply eq_None_not_Some.
  - intros i x Hx E. apply not_true_iff_false in Hex. apply Hex, existsb_exists.
    exists (i, x). split; [|by apply bool_decide_eq_true]. by apply list_elem_of_In, elem_of_map_to_list.
Qed.

Lemma new_res_inv c r :
  inv_core c → rr_ID r ≠ "" → rr_CreatedAt r < rr_ExpiresAt r →
  c_res c !! rr_ID r = None → (∀ i x, c_res c !! i = Some x → rr_OrderID x ≠ rr_OrderID r) →
  inv_core (new_res c r).
Proof.
  intros [Hb Ha Hnd Hr Ho Hm Hw] Hne Ht Hnone Hord.
  assert (Hheld : ∀ st id, held (new_res c r) st id = held c st id).
  { intros st id. apply sum_where_ext. intros a Hin. split; [|done]. f_equal.
    unfold has_status. cbn. destruct (Ha a Hin) as [_ (b & x & _ & _ & Hx & _)].
    rewrite lookup_insert_ne; [done|]. intros E. congruence. }
  split; try done.
  - intros id b Hlk. destruct (Hb id b Hlk). by split; rewrite ?Hheld.
  - intros a Hin. destruct (Ha a Hin) as [Hp (b & x & E1 & E2 & E3 & E4)]. split; [done|].
    exists b, x. split_and!; auto. cbn. rewrite lookup_insert_ne; [done|]. congruence.
  - intros id x. cbn. rewrite lookup_insert_Some. intros [[<- <-]|[_ Hx]]; [done|by apply Hr].
  - intros i j ri rj. cbn. rewrite !lookup_insert_Some.
    intros [[<- <-]|[_ Hi]] [[<- <-]|[_ Hj]] E; auto; naive_solver.
Qed.

Lemma start_ok c t e : t < e → picking_ok c t (MkPicking ∅ [] e).
Proof. split; cbn; [constructor|set_solver|done]. Qed.

Lemma reserve_body_inv (TTL : Z) cx in_ o w r w' :
  NoDup (it_FlavorID <$> ri_Items in_) → (∀ i, i ∈ ri_Items in_ → 0 ≤ it_Portions i) →
  inv_core (core (w_db w)) → reserve_body TTL cx in_ o w = (inr r, w') →
  inv_core (core (w_db w')).
Proof.
  intros Hnd Hpos Hinv H. unfold reserve_body, invalid in H. run_inv H. quiet_run Hrun.
  destruct (order_reserved _ _); run_inv H. quiet_run Hrun0. quiet_run Hrun1.
  case_bool_decide as Httl; run_inv H.
  cbn [w_db] in *. assert (Hdb : core (w_db w2) = core (w_db w)) by congruence. rewrite <-Hdb in Hinv.
  destruct (pick_items_ok a1 _ Hnd Hpos _ o (World (w_db w2) (S (w_tick w2)) (w_aborted w2) (w_locks w2)) _ _ Hinv (start_ok _ a1 (a1 + TTL) ltac:(lia)) ltac:(cbn; set_solver) Hrun2)
    as (Hw & [P1 P2 P3] & _).
  cbn [w_db] in *. quiet_run Hrun3. cbn [r_ExpiresAt r_Allocations] in *.
  destruct (bool_decide (_ < _)) eqn:Hcur; cbn [negb] in H; run_inv H.
  assert (Hc : core (w_db w4) = core (w_db w2)) by congruence. rewrite <-Hc in *.
  apply insert_reservation_ok in Hrun4 as (N1 & N2 & N3 & N4).
  quiet_run Hrun6. rewrite Hrun6.
  eapply (write_allocations_inv _ _ _ _ (res_row _)); [exact N1|done|..|exact Hrun5].
  - rewrite N4. by apply new_res_inv.
  - rewrite N4. apply lookup_insert_eq.
  - done.
  - intros a' Ha. rewrite N4. destruct (P2 a' Ha). by split.
  - rewrite N4. cbn. intros x Hx E. destruct (gi_allocs _ _ _ Hinv x Hx) as [_ (b & y & _ & _ & Hy & _)].
    cbn in *. congruence.
Qed.
End picking.
