(* ===== verification/InvIdem.v ===== *)
(** Batch Inventory: idempotent mutations.  A request that succeeded is
    recorded under its keys, the record is never overwritten, and the same
    request sent again is answered from it. *)

From S2P Require Import Prelude Effects GoStd InvModel InvStore InvOps InvReserve InvInv InvFrame.

Section idem.
Context {uuid : UuidLib} {dig : Digest}.
Abbreviation I := (M DB IErr).

Definition key_of (k : mutationKey) : string * string := (mk_operation k, mk_key k).

Lemma key_of_inj x y : key_of x = key_of y → x = y.
Proof. destruct x, y. unfold key_of. cbn. congruence. Qed.

(** Every key of a request holds its digest and its response. *)
Definition recorded (d : DB) (keys : list mutationKey) (h : digest_t) (resp : Response) : Prop :=
  ∀ k, k ∈ keys → idempotency_records d !! key_of k = Some (MkIdemRow h (Some resp)).

(** Records are never lost or changed. *)
Definition idem_grows (d d' : DB) : Prop := idempotency_records d ⊆ idempotency_records d'.

#[global] Instance idem_grows_preorder : PreOrder idem_grows.
Proof. unfold idem_grows. split; [intros d|intros x y z]; [done|by etrans]. Qed.

Lemma recorded_grows d d' keys h resp : idem_grows d d' → recorded d keys h resp → recorded d' keys h resp.
Proof. intros Hg Hr k Hk. eapply lookup_weaken; eauto. Qed.

(** Every stored record carries the response of its request. *)
Definition answered (d : DB) : Prop := ∀ i row, idempotency_records d !! i = Some row → is_Some (id_Response row).
Definition idem_evolves (d d' : DB) : Prop := idem_grows d d' ∧ (answered d → answered d').
#[global] Instance idem_evolves_preorder : PreOrder idem_evolves.
Proof. unfold idem_evolves. split; [done|]. intros x y z [H1 H2] [H3 H4]. split; [by etrans|auto]. Qed.

(** ** Claiming *)

Lemma insert_idem_ok k h o w n w' :
  insert_idem k h o w = (inr n, w') →
  (idempotency_records (w_db w) !! key_of k = None ∧ n = 1 ∧
   w_db w' = set_idempotency <[key_of k := MkIdemRow h None]> (w_db w)) ∨
  (is_Some (idempotency_records (w_db w) !! key_of k) ∧ n = 0 ∧ w_db w' = w_db w).
Proof.
  unfold insert_idem, key_of. intros (_ & _ & s & H & ->)%stmt_ok.
  destruct (_ !! _) eqn:E; simplify_eq/=; [right|left]; eauto.
Qed.

(** What a run of the claiming loop leaves: the keys it claimed were free and
    now hold the digest, the others hold the response to replay. *)
Record claim_ok (h : digest_t) (d : DB) (keys claimed claimed' : list mutationKey)
    (replay replay' : option Response) (d' : DB) : Prop := {
  co_grows : idem_grows d d';
  co_core : core d' = core d;
  co_claimed : ∀ k, k ∈ claimed → k ∈ claimed';
  co_new : ∀ k, k ∈ claimed' → k ∈ claimed ∨
    (idempotency_records d !! key_of k = None ∧ idempotency_records d' !! key_of k = Some (MkIdemRow h None));
  co_replay : ∀ r, replay = Some r → replay' = Some r;
  co_length : (length claimed ≤ length claimed')%nat;
  co_same : length claimed' = length claimed → d' = d;
  co_keys : ∀ k, k ∈ keys → k ∈ claimed' ∨
    ∃ r, replay' = Some r ∧ idempotency_records d' !! key_of k = Some (MkIdemRow h (Some r));
  co_only : ∀ i row, idempotency_records d' !! i = Some row →
    idempotency_records d !! i = Some row ∨ i ∈ key_of <$> claimed'
}.

Lemma claim_keys_ok h keys : ∀ prev claimed replay o w res w',
  claim_keys h prev keys claimed replay o w = (inr res, w') →
  (∀ k, prev = Some k → k ∈ claimed ∨
     ∃ r, replay = Some r ∧ idempotency_records (w_db w) !! key_of k = Some (MkIdemRow h (Some r))) →
  claim_ok h (w_db w) keys claimed res.1 replay res.2 (w_db w').
Proof.
  induction keys as [|key keys IH]; intros prev claimed replay o w res w' H Hprev; cbn in H.
  { run_inv H. split; cbn; auto; try done; set_solver. }
  case_bool_decide as Hp.
  - apply IH in H as [G1 G2 G3 G4 G5 G7 G8 G6 G9]; [|intros k [= <-]; by apply Hprev].
    split; try done. intros k [->|Hk]%elem_of_cons; [|by apply G6].
    destruct (Hprev _ Hp) as [?|(r & -> & Hr)]; [left; by apply G3|].
    right. exists r. split; [by apply G5|]. by eapply lookup_weaken.
  - run_inv H. apply insert_idem_ok in Hrun as [(N1 & -> & N2)|(N1 & -> & N2)]; cbn in H.
    + apply IH in H as [G1 G2 G3 G4 G5 G7 G8 G6 G9]; [|intros k [= <-]; left; set_solver].
      rewrite N2 in *. unfold idem_grows in *. cbn in *.
      assert (Hsub : idempotency_records (w_db w) ⊆ idempotency_records (w_db w')).
      { etrans; [|exact G1]. by apply insert_subseteq. }
      rewrite length_app in *. cbn in *. split; auto; try lia.
      * intros k Hk. apply G3. set_solver.
      * intros k Hk. destruct (G4 k Hk) as [[?|Hkk%list_elem_of_singleton]%elem_of_app|[E1 E2]].
        -- by left.
        -- right. subst k. split; [done|]. eapply lookup_weaken; [|exact G1]. apply lookup_insert_eq.
        -- right. split; [|done]. apply lookup_insert_None in E1. tauto.
      * intros k [->|Hk]%elem_of_cons; [|by apply G6]. left. apply G3. set_solver.
      * intros i row Hi. destruct (G9 i row Hi) as [[[<- _]|[_ ?]]%lookup_insert_Some|?]; [|by left|by right].
        right. apply list_elem_of_fmap_2, G3. set_solver.
    + rewrite bool_decide_eq_false_2 in H by done. run_inv H. rewrite N2 in H.
      change (mk_operation key, mk_key key) with (key_of key) in H.
      destruct N1 as [row Hrow]. rewrite Hrow in H.
      destruct (negb (bool_decide (h = _))) eqn:Hh; run_inv H. bool_guards.
      destruct row as [rh [resp|]]; cbn in *; [|run_inv H]. subst rh.
      assert (Hgo : claim_keys h (Some key) keys claimed (Some resp) o
        (World (w_db w) (S (w_tick w0)) false (w_locks w0)) = (inr res, w') ∧
        (∀ r, replay = Some r → r = resp)).
      { destruct replay as [prior|]; [|done]. case_bool_decide; run_inv H. split; [done|]. naive_solver. }
      destruct Hgo as [Hgo Hr].
      apply IH in Hgo as [G1 G2 G3 G4 G5 G7 G8 G6 G9]; cbn [w_db] in *.
      2: { intros k [= <-]. right. eauto. }
      split; auto.
      * intros r E. apply G5. f_equal. symmetry. by apply Hr.
      * intros k [->|Hk]%elem_of_cons; [|by apply G6]. right. exists resp.
        split; [by apply G5|]. by eapply lookup_weaken.
Qed.

(** ** Recording the response *)

Lemma update_response_ok k r o w n w' :
  update_response k r o w = (inr n, w') →
  core (w_db w') = core (w_db w) ∧
  idempotency_records (w_db w') =
    alter (λ row, MkIdemRow (id_RequestHash row) (Some r)) (key_of k) (idempotency_records (w_db w)).
Proof.
  unfold update_response, key_of. intros (_ & _ & s & H & ->)%stmt_ok.
  destruct (_ !! _) as [row|] eqn:E; simplify_eq/=; (split; [done|]); symmetry.
  - apply map_eq. intros i. rewrite lookup_alter, lookup_insert. case_decide; [subst|done]. by rewrite E.
  - apply map_eq. intros i. rewrite lookup_alter. case_decide; [subst|done]. by rewrite E.
Qed.

Lemma persist_ok r claimed o w u w' :
  persist_response r claimed o w = (inr u, w') →
  (∀ k row, k ∈ claimed → idempotency_records (w_db w) !! key_of k = Some row →
     idempotency_records (w_db w') !! key_of k = Some (MkIdemRow (id_RequestHash row) (Some r))) ∧
  (∀ i, i ∉ key_of <$> claimed →
     idempotency_records (w_db w') !! i = idempotency_records (w_db w) !! i).
Proof.
  unfold persist_response. revert w. induction claimed as [|key claimed IH]; intros w H; cbn in H.
  { run_inv H. split; [set_solver|done]. }
  run_inv H. apply update_response_ok in Hrun0 as [_ E]. case_bool_decide; run_inv Hrun.
  apply IH in H as [P1 P2]. rewrite E in *. split.
  - intros k row [->|Hk]%elem_of_cons Hrow.
    + destruct (decide (key_of key ∈ key_of <$> claimed)) as [Hin|Hin].
      * apply list_elem_of_fmap in Hin as (k' & Ek%key_of_inj & Hin). subst k'.
        erewrite P1; [|done|by rewrite lookup_alter_eq, Hrow]. done.
      * rewrite P2, lookup_alter_eq, Hrow by done. done.
    + destruct (decide (key_of k = key_of key)) as [Ek|Ek].
      * erewrite P1; [|done|by rewrite Ek, lookup_alter_eq, <-Ek, Hrow]. done.
      * erewrite P1; [|done|by rewrite lookup_alter_ne, Hrow by congruence]. done.
  - intros i Hi. rewrite P2 by set_solver. apply lookup_alter_ne. set_solver.
Qed.
(** ** The whole mutation *)

(** [m] does not touch the idempotency records. *)
Definition idem_frame {A} (m : I A) : Prop := ∀ x, preserves (λ d, idempotency_records d = x) m.

Lemma idem_frame_ok {A} (m : I A) o w r w' :
  idem_frame m → m o w = (r, w') → idempotency_records (w_db w') = idempotency_records (w_db w).
Proof. intros Hf H. specialize (Hf _ o w eq_refl). by rewrite H in Hf. Qed.

(** After claiming [keys], writing [resp] to the claimed ones records the
    request under all of them and touches no older record. *)
Lemma settle_keys h d keys claimed replay d1 (w2 w3 : world DB) resp o u :
  claim_ok h d keys [] claimed None replay d1 →
  idempotency_records (w_db w2) = idempotency_records d1 → (∀ r, replay = Some r → r = resp) →
  persist_response resp claimed o w2 = (inr u, w3) →
  idem_evolves d (w_db w3) ∧ recorded (w_db w3) keys h resp.
Proof.
  intros [G1 G2 G3 G4 G5 G7 G8 G6 G9] E Hr [P1 P2]%persist_ok. rewrite E in *.
  assert (Hc : ∀ k, k ∈ claimed → idempotency_records (w_db w3) !! key_of k = Some (MkIdemRow h (Some resp))).
  { intros k Hk. destruct (G4 k Hk) as [?|[_ E1]]; [set_solver|]. by rewrite (P1 _ _ Hk E1). }
  split; [split|].
  - apply map_subseteq_spec. intros i row Hi. rewrite P2; [by eapply lookup_weaken|].
    intros (k & -> & Hk)%list_elem_of_fmap. destruct (G4 k Hk) as [?|[E1 _]]; [set_solver|congruence].
  - intros Ha i row Hi. destruct (decide (i ∈ key_of <$> claimed)) as [(k & -> & Hk)%list_elem_of_fmap|Hn].
    + rewrite (Hc k Hk) in Hi. injection Hi as <-. by eexists.
    + rewrite P2 in Hi by done. destruct (G9 i row Hi) as [Hd|?]; [by eapply Ha|done].
  - intros k Hk. destruct (decide (k ∈ claimed)) as [?|Hn]; [by apply Hc|].
    destruct (G6 k Hk) as [?|(r & -> & E1)]; [done|]. rewrite P2; [by rewrite E1, (Hr r)|].
    intros (k' & ->%key_of_inj & Hk')%list_elem_of_fmap. done.
Qed.

Definition txvalue {A} (e : txend A) : A := match e with Commit a | Leave a => a end.

Lemma mutateKeys_body_ok `{!JsonResult T} keys input (fn : I T) o w e w' :
  idem_frame fn → mutateKeys_body keys input fn o w = (inr e, w') →
  idem_evolves (w_db w) (w_db w') ∧ recorded (w_db w') keys (digest input) (to_resp (txvalue e)) ∧
  (∀ a, e = Leave a → recorded (w_db w) keys (digest input) (to_resp a)).
Proof.
  intros Hfn H. unfold mutateKeys_body in H. run_inv H. destruct a as [claimed replay].
  apply claim_keys_ok in Hrun; [|done]. cbn [fst snd] in Hrun.
  destruct replay as [resp|]; [destruct (of_resp resp) as [x|] eqn:Hx|]; [| |]; run_inv H.
  - apply to_of_resp in Hx as ->. destruct claimed as [|k0 claimed]; run_inv H.
    + destruct Hrun as [G1 G2 G3 G4 G5 G7 G8 G6 G9]. cbn.
      assert (Hrec : recorded (w_db w0) keys (digest input) (to_resp x)).
      { intros k Hk. destruct (G6 k Hk) as [?|(r & [= <-] & E1)]; [set_solver|done]. }
      split_and!; auto; [by rewrite (G8 eq_refl)|]. intros a [= <-]. by rewrite <-(G8 eq_refl).
    + eapply settle_keys in Hrun0 as [? ?]; [|exact Hrun|done|naive_solver]. done.
  - eapply settle_keys in Hrun1 as [? ?]; [|exact Hrun|by eapply idem_frame_ok|done]. done.
Qed.
Lemma mutateKeys_ok `{!JsonResult T} keys input (fn : I T) o w r w' :
  idem_frame fn → mutateKeys keys input fn o w = (inr r, w') →
  recorded (w_db w') keys (digest input) (to_resp r).
Proof.
  intros Hfn H. unfold mutateKeys in H. destruct keys as [|k0 keys]; [done|].
  assert (Hsort : ∀ d x, recorded d (merge_sort key_le (k0 :: keys)) (digest input) x →
    recorded d (k0 :: keys) (digest input) x).
  { intros d x Hr k Hk. apply Hr. by rewrite merge_sort_Permutation. }
  apply transaction_ok in H as (w1 & [(H & _ & ->)|(H & ->)]);
    apply mutateKeys_body_ok in H as (_ & H1 & H2); auto.
Qed.

Lemma mutateKeys_grows d0 `{!JsonResult T} keys input (fn : I T) :
  idem_frame fn → preserves (idem_evolves d0) (mutateKeys keys input fn).
Proof.
  intros Hfn. unfold mutateKeys. destruct keys; [apply preserves_throw|].
  apply preserves_transaction. intros o w a w' Hg _ H _. apply mutateKeys_body_ok in H as (H & _); [|done].
  by etrans.
Qed.

(** ** Replay and conflict *)

Lemma insert_idem_used k h o w row :
  reliable o → w_aborted w = false → idempotency_records (w_db w) !! key_of k = Some row →
  insert_idem k h o w = (inr 0, World (w_db w) (S (w_tick w)) false (w_locks w)).
Proof. intros Ho Ha Hrow. unfold insert_idem. apply stmt_run; [done..|]. unfold key_of in Hrow. by rewrite Hrow. Qed.

Lemma claim_keys_replay h resp o : reliable o → ∀ keys prev claimed replay w,
  w_aborted w = false → recorded (w_db w) keys h resp → (replay = None → ∃ k, head keys = Some k ∧ prev ≠ Some k) →
  (∀ r, replay = Some r → r = resp) →
  ∃ w', claim_keys h prev keys claimed replay o w = (inr (claimed, Some resp), w') ∧ w_db w' = w_db w ∧
        w_aborted w' = false.
Proof.
  intros Ho. induction keys as [|key keys IH]; intros prev claimed replay w Ha Hrec Hhd Hr.
  { destruct replay as [r|]; [|by destruct Hhd as (? & ? & _)]. rewrite (Hr r eq_refl). by exists w. }
  assert (Hrec' : recorded (w_db w) keys h resp) by (intros k Hk; apply Hrec; by right).
  cbn. case_bool_decide as Hp.
  { apply IH; auto. intros ->. destruct Hhd as (k & [= <-] & ?); done. }
  pose proof (Hrec key ltac:(by left)) as Hk. erewrite bind_run by (by eapply insert_idem_used).
  rewrite bool_decide_eq_false_2 by done. erewrite bind_run by (by apply query_run). cbn [w_db w_tick w_locks].
  unfold key_of in Hk. rewrite Hk. cbn [id_RequestHash id_Response]. rewrite bool_decide_eq_true_2 by done. cbn [negb].
  destruct replay as [r|]; [rewrite (Hr r eq_refl), bool_decide_eq_true_2 by done|];
    destruct (IH (Some key) claimed (Some resp)
      (World (w_db w) (S (S (w_tick w))) false (w_locks w))) as (w' & H1 & H2 & H3); eauto; try done; naive_solver.
Qed.

Lemma mutateKeys_replay `{!JsonResult T} keys input (fn : I T) o w r :
  reliable o → keys ≠ [] → recorded (w_db w) keys (digest input) (to_resp r) →
  ∃ w', mutateKeys keys input fn o w = (inr r, w') ∧ w_db w' = w_db w.
Proof.
  intros Ho Hne Hrec. unfold mutateKeys. destruct keys as [|k0 keys0]; [done|]. clear Hne.
  set (keys := merge_sort key_le (k0 :: keys0)).
  assert (Hrec' : recorded (w_db w) keys (digest input) (to_resp r)).
  { intros k Hk. apply Hrec. unfold keys in Hk. by rewrite merge_sort_Permutation in Hk. }
  assert (Hhd : ∃ k, head keys = Some k ∧ None ≠ Some k).
  { destruct keys as [|k ?] eqn:E; [|by exists k]. exfalso.
    pose proof (merge_sort_Permutation key_le (k0 :: keys0)) as Hp. fold keys in Hp. rewrite E in Hp.
    by apply Permutation_nil_cons in Hp. }
  destruct (claim_keys_replay (digest input) (to_resp r) o Ho keys None [] None
    (World (w_db w) (S (w_tick w)) false [])) as (w1 & H1 & H2 & H3); auto; [done|].
  eexists. split; [|shelve].
  eapply transaction_leave; [done|]. unfold mutateKeys_body. erewrite bind_run by exact H1.
  cbn. by rewrite of_to_resp.
  Unshelve. done.
Qed.

Lemma claim_keys_conflict h o : reliable o → ∀ keys prev claimed replay w,
  w_aborted w = false → NoDup keys → (∀ k, prev = Some k → k ∉ keys) →
  (∀ k row, k ∈ keys → idempotency_records (w_db w) !! key_of k = Some row → is_Some (id_Response row)) →
  (∃ k row, k ∈ keys ∧ idempotency_records (w_db w) !! key_of k = Some row ∧ id_RequestHash row ≠ h) →
  ∃ w', claim_keys h prev keys claimed replay o w = (inl ErrConflict, w').
Proof.
  intros Ho. induction keys as [|key keys IH]; intros prev claimed replay w Ha Hnd Hp Hans (k & row & Hk & Hrow & Hh); [by apply elem_of_nil in Hk|].
  apply NoDup_cons in Hnd as [Hnot Hnd]. cbn. rewrite bool_decide_eq_false_2 by (intros ->; apply (Hp key eq_refl); by left).
  destruct (idempotency_records (w_db w) !! key_of key) as [row0|] eqn:E0.
  - erewrite bind_run by (by eapply insert_idem_used). rewrite bool_decide_eq_false_2 by done. erewrite bind_run by (by apply query_run).
    cbn [w_db w_tick w_locks]. change (mk_operation key, mk_key key) with (key_of key). rewrite E0.
    case_bool_decide as Hh0; cbn [negb]; [|by eexists].
    destruct (Hans key row0 ltac:(by left) E0) as [resp ->].
    assert (k ∈ keys) as Hk' by (apply elem_of_cons in Hk as [->|?]; [|done]; congruence).
    assert (∀ rep, ∃ w', claim_keys h (Some key) keys claimed rep o (World (w_db w) (S (S (w_tick w))) false (w_locks w)) = (inl ErrConflict, w')) as Hgo.
    { intros rep. apply IH; [done|done|by intros ? [= <-]| |by exists k, row]. intros k' row' Hk''. apply Hans. by right. }
    destruct replay as [prior|]; [|by apply Hgo]. case_bool_decide; [by apply Hgo|by eexists].
  - assert (insert_idem key h o w = (inr 1, World (set_idempotency <[key_of key := MkIdemRow h None]> (w_db w)) (S (w_tick w)) false (w_locks w))) as Hi.
    { unfold insert_idem. apply stmt_run; [done..|]. unfold key_of in E0. by rewrite E0. }
    erewrite bind_run by exact Hi. rewrite bool_decide_eq_true_2 by done.
    assert (k ∈ keys) as Hk' by (apply elem_of_cons in Hk as [->|?]; [congruence|done]).
    assert (∀ k', k' ∈ keys → key_of key ≠ key_of k') as Hne by (intros k' Hin Heq%key_of_inj; by subst).
    apply IH; [done|done|by intros ? [= <-]| |].
    + intros k' row' Hk''. cbn. rewrite lookup_insert_ne by by apply Hne. apply Hans. by right.
    + exists k, row. cbn. by rewrite lookup_insert_ne by by apply Hne.
Qed.

Lemma mutateKeys_conflict `{!JsonResult T} keys input (fn : I T) o w k row :
  reliable o → answered (w_db w) → NoDup keys → k ∈ keys →
  idempotency_records (w_db w) !! key_of k = Some row → id_RequestHash row ≠ digest input →
  ∃ w', mutateKeys keys input fn o w = (inl ErrConflict, w') ∧ w_db w' = w_db w.
Proof.
  intros Ho Ha Hnd Hk Hrow Hh. unfold mutateKeys. destruct keys as [|k0 keys0]; [by apply elem_of_nil in Hk|].
  destruct (claim_keys_conflict (digest input) o Ho (merge_sort key_le (k0 :: keys0)) None [] None (World (w_db w) (S (w_tick w)) false []))
    as [w1 E]; [done|by rewrite merge_sort_Permutation|done|by intros k' row' _; apply Ha|exists k, row; by rewrite merge_sort_Permutation|].
  eexists. split; [|shelve]. eapply transaction_error; [done|]. unfold mutateKeys_body. by eapply bind_err.
  Unshelve. done.
Qed.

(** ** Fresh keys *)

(** The database the body of a mutation with a fresh key starts on. *)
Definition claimed_db (op key : string) (input : Body) (d : DB) : DB :=
  set_idempotency <[(op, key) := MkIdemRow (digest input) None]> d.

Lemma mutate_fresh_ok `{!JsonResult T} op key input (fn : I T) o w r w' :
  idempotency_records (w_db w) !! (op, key) = None → mutate op key input fn o w = (inr r, w') →
  ∃ w1 w2, fn o w1 = (inr r, w2) ∧ w_db w1 = claimed_db op key input (w_db w).
Proof.
  intros Hfree H. unfold mutate, mutateKeys in H. change (merge_sort key_le [MkKey op key]) with [MkKey op key] in H.
  apply transaction_ok in H as (w1 & H). cbv zeta in H.
  assert (Hb : ∃ e, mutateKeys_body [MkKey op key] input fn o (World (w_db w) (S (w_tick w)) false []) = (inr e, w1) ∧
    txvalue e = r) by (destruct H as [(H & _)|(H & _)]; eexists; split; done).
  clear H. destruct Hb as (e & H & <-). unfold mutateKeys_body in H. run_inv H. destruct a as [claimed replay].
  cbn [claim_keys] in Hrun. rewrite bool_decide_eq_false_2 in Hrun by done. run_inv Hrun.
  apply insert_idem_ok in Hrun0 as [(_ & -> & E)|([? Hs] & _)]; [|unfold key_of in Hs; cbn in Hs; congruence].
  rewrite bool_decide_eq_true_2 in Hrun by done. run_inv Hrun. simplify_eq. run_inv H.
  eexists _, _. split; [exact Hrun|]. exact E.
Qed.

Section fresh.
Context `{!JsonResult T} (op key : string) (input : Body) (fn : I T) (o : oracle) (w : world DB).
Context (Ho : reliable o) (Hfree : idempotency_records (w_db w) !! (op, key) = None).
Let w1 : world DB := World (claimed_db op key input (w_db w)) (S (S (w_tick w))) false [].

Lemma mutate_claim : claim_keys (digest input) None [MkKey op key] [] None o (World (w_db w) (S (w_tick w)) false []) =
  (inr ([MkKey op key], None), w1).
Proof using Ho Hfree.
  cbn [claim_keys]. rewrite bool_decide_eq_false_2 by done.
  erewrite bind_run.
  2: { unfold insert_idem. apply stmt_run; [done..|]. cbn. rewrite Hfree. reflexivity. }
  rewrite bool_decide_eq_true_2 by done. done.
Qed.

Lemma mutate_fresh_run r w2 : idem_frame fn → fn o w1 = (inr r, w2) → w_aborted w2 = false →
  ∃ w', mutate op key input fn o w = (inr r, w') ∧ core (w_db w') = core (w_db w2).
Proof using Ho Hfree.
  intros Hf Hfn Ha. pose proof (idem_frame_ok _ _ _ _ _ Hf Hfn) as Hid. cbn in Hid.
  eexists. split; [|shelve]. eapply transaction_commit; [done| |].
  { unfold mutateKeys_body. change (merge_sort key_le [MkKey op key]) with [MkKey op key].
    erewrite bind_run by apply mutate_claim. cbv beta iota. erewrite bind_run by exact Hfn.
    erewrite bind_run; [reflexivity|]. unfold persist_response. cbn [for_each].
    erewrite bind_run; [reflexivity|]. erewrite bind_run.
    2: { unfold update_response. apply stmt_run; [done..|]. cbn. rewrite Hid, lookup_insert_eq. reflexivity. }
    rewrite bool_decide_eq_true_2 by done. reflexivity. }
  done.
  Unshelve. done.
Qed.

Lemma mutate_fresh_err e w2 : fn o w1 = (inl e, w2) → ∃ w', mutate op key input fn o w = (inl e, w').
Proof using Ho Hfree.
  intros Hfn. eexists. eapply transaction_error; [done|].
  unfold mutateKeys_body. change (merge_sort key_le [MkKey op key]) with [MkKey op key].
  erewrite bind_run by apply mutate_claim. cbv beta iota. by eapply bind_err.
Qed.
End fresh.
End idem.
