(* ===== verification/InvSafety.v ===== *)
(** Batch Inventory: every operation of the service keeps the stock invariant,
    whatever the database, the clock and the network do, and so does every
    sequence of operations. *)

From S2P Require Import Prelude Effects GoStd InvModel InvStore InvOps InvReserve InvInv InvFrame InvProofs InvReserveProofs.

(** ** A new batch *)

Definition add_batch (c : Core) (b : Batch) (m : Movement) : Core :=
  MkCore (<[b_ID b := b]> (c_batches c)) (c_res c) (c_allocs c) (c_moves c ++ [m]) (c_waste c).

Lemma logged_add_batch c b m :
  logged (MkCore (<[b_ID b := b]> (c_batches c)) (c_res c) (c_allocs c) (c_moves c) (c_waste c)) [m] [] =
  add_batch c b m.
Proof. unfold logged, add_batch. cbn. by rewrite app_nil_r. Qed.

Lemma add_batch_inv c b m :
  inv_core c → c_batches c !! b_ID b = None → row_ok b →
  b_Available b = b_Initial b → b_Status b = BActive → mv_BatchID m = b_ID b → mv_Kind m = Produced → mv_Portions m = b_Initial b →
  inv_core (add_batch c b m).
Proof.
  intros [Hb Ha Hnd Hr Ho Hm Hw] Hnone Hrow Hav Hst M1 M2 M3.
  assert (Hne : ∀ id x, c_batches c !! id = Some x → id ≠ b_ID b) by congruence.
  split; try done.
  - intros id b'. cbn. rewrite lookup_insert_Some. intros [[<- <-]|[Hid Hlk]].
    + assert (Hms : ∀ x, x ∈ c_moves c → mv_BatchID x ≠ b_ID b) by (intros x [? ?]%Hm; eauto).
      assert (Hws : ∀ x, x ∈ c_waste c → wr_BatchID (ws_Record x) ≠ b_ID b)
        by (intros x (? & ? & _)%Hw; eauto).
      assert (Hhs : ∀ st, held c st (b_ID b) = 0).
      { intros st. apply held_empty. intros a Hin. destruct (Ha a Hin) as [_ (b0 & _ & E & _)]. eauto. }
      destruct Hrow. split; try done; [..|by rewrite Hst]; cbn [add_batch c_waste c_moves];
        change (held (add_batch c b m)) with (held c);
        rewrite ?Hhs, ?moved_in_app, ?ledger_in_app, ?(moved_in_other _ _ _ Hms),
          ?(ledger_in_other _ _ Hms), ?(wasted_in_other _ _ Hws);
        try lia; unfold moved_in, ledger_in, sum_where, delta; cbn;
        rewrite ?(bool_decide_eq_true_2 _ M1), ?M2; cbn; repeat case_bool_decide; simplify_eq; lia.
    + destruct (Hb _ _ Hlk) as [B1 B2 B3 B4 B5 B6 B7 B8 B9]. subst id.
      assert (Hms : ∀ x, x ∈ [m] → mv_BatchID x ≠ b_ID b')
        by (intros x Hx%list_elem_of_singleton; congruence).
      split; try done; cbn [add_batch c_waste c_moves]; change (held (add_batch c b m)) with (held c);
        rewrite ?moved_in_app, ?ledger_in_app, ?(moved_in_other _ _ _ Hms), ?(ledger_in_other _ _ Hms);
        lia.
  - intros a Hin. destruct (Ha a Hin) as [Hp (b0 & r & E1 & E2)]. split; [done|].
    exists b0, r. cbn. rewrite lookup_insert_ne by (intros E; eapply Hne; eauto). done.
  - intros x [Hin|Hin%list_elem_of_singleton]%elem_of_app; cbn.
    + rewrite lookup_insert_is_Some'. right. auto.
    + rewrite Hin, M1, lookup_insert_eq. eauto.
  - intros x Hin. destruct (Hw x Hin) as (b0 & E1 & E2). exists b0. cbn.
    rewrite lookup_insert_ne by (intros E; eapply Hne; eauto). done.
Qed.

Section safety.
Context {uuid : UuidLib} {dig : Digest}.
Abbreviation I := (M DB IErr).

Lemma insert_batch_ok b o w u w' :
  insert_batch b o w = (inr u, w') →
  c_batches (core (w_db w)) !! b_ID b = None ∧
  core (w_db w') = MkCore (<[b_ID b := b]> (c_batches (core (w_db w)))) (c_res (core (w_db w)))
    (c_allocs (core (w_db w))) (c_moves (core (w_db w))) (c_waste (core (w_db w))).
Proof.
  unfold insert_batch. intros (_ & _ & s & H & ->)%stmt_ok.
  case_bool_decide as Hk; [done|]. destruct (existsb _ _); [done|]. simplify_eq.
  apply eq_None_not_Some in Hk. split; cbn; [by rewrite lookup_fmap, Hk|].
  unfold core. cbn. by rewrite fmap_insert.
Qed.

Lemma try_inr {A} (m : I A) o w a w' : (try m : I (IErr + A)) o w = (inr (inr a), w') → m o w = (inr a, w').
Proof. intros H. by apply try_ok in H. Qed.

Lemma create_batch_inv cx batchID code cost in_ o w b w' :
  1 ≤ ci_Initial in_ ≤ MaxPortions → 0 ≤ cost ≤ MaxInt64 / ci_Initial in_ →
  inv_core (core (w_db w)) → create_batch cx batchID code cost in_ o w = (inr b, w') →
  inv_core (core (w_db w')).
Proof.
  intros Hi Hcost Hinv H. unfold create_batch, wrapInvalid in H. run_inv H.
  quiet_run Hrun. quiet_run Hrun0. case_bool_decide as Ht; cbn [negb] in H; run_inv H.
  destruct a1 as [[]|u]; try (repeat case_match; run_inv H; fail).
  apply try_inr in Hrun1. run_inv H.
  apply insert_batch_ok in Hrun1 as [N1 N2]. apply movement_ok in Hrun2 as [mid Hm].
  quiet_run Hrun3. rewrite Hrun3, Hm, N2, logged_add_batch.
  assert (Hc : core (w_db w1) = core (w_db w)) by congruence. rewrite Hc in *.
  apply add_batch_inv; try done. split; cbn; try lia. pose proof (Z.mul_div_le MaxInt64 (ci_Initial in_)). nia.
Qed.

(** A write that moves nothing in or out of the reservations. *)
Lemma save_quiet k b av wa ms ws t o w1 u w' :
  inv_core k → c_batches k !! b_ID b = Some b →
  write_ok k b (with_balances av (b_Reserved b) (b_Sold b) wa b) ms ws 0 0 →
  core (w_db w1) = logged k ms ws →
  saveBatch (with_balances av (b_Reserved b) (b_Sold b) wa b) t o w1 = (inr u, w') →
  inv_core (core (w_db w')).
Proof.
  intros Hinv Hlk Hwo Hc H. destruct (save_logged _ b (with_balances _ _ _ _ b) _ _ _ _ _ _ _ _ _ _ _ Hinv Hlk eq_refl Hwo Hc H) as [Hg _].
  eapply ginv_ext; [exact Hg|..]; intros x; unfold bump; case_decide; lia.
Qed.

Lemma waste_body_inv cx batchID actor in_ o w r w' :
  1 ≤ wi_Portions in_ → inv_core (core (w_db w)) →
  waste_body cx batchID actor in_ o w = (inr r, w') → inv_core (core (w_db w')).
Proof.
  intros Hp Hinv H. unfold waste_body, invalid in H. run_inv H.
  apply scanBatch_ok in Hrun as [_ H1]. quiet_run Hrun0.
  apply scanBatch_ok in Hrun1 as [Hlk H2]. quiet_run Hrun2. rename a1 into b, a2 into t.
  case_bool_decide; run_inv H. destruct (_ && _); run_inv H.
  case_bool_decide as Hav; run_inv H.
  apply recordWaste_ok in Hrun as (E1 & E2 & E3 & E4 & mid & who & Hm). quiet_run Hrun3.
  assert (Hc : core (w_db w3) = core (w_db w)) by congruence.
  assert (Hc1 : core (w_db w1) = core (w_db w)) by congruence. rewrite Hc1 in Hlk. rewrite Hc in Hm.
  destruct (gi_batches _ _ _ Hinv _ _ Hlk) as [Hid Hrow _ _ _ _ _ _ _]. rewrite <-Hid in *.
  cbn [with_balances b_ID b_FlavorID b_UnitCost] in *. rewrite Hrun3.
  waste_step Hm b Hrow.
  eapply (save_quiet _ b); [exact Hinv|exact Hlk| |exact Hm|exact Hrun1]. write_step Hrow.
Qed.
Lemma expire_body_inv cx id flavor o w w' :
  inv_core (core (w_db w)) → expire_body cx id flavor o w = (inr (Commit tt), w') →
  inv_core (core (w_db w')).
Proof.
  intros Hinv H. unfold expire_body in H. run_inv H. quiet_run Hrun.
  apply scanBatch_ok in Hrun0 as [Hlk H2]. quiet_run Hrun1. rename a0 into b, a1 into t.
  destruct (_ || _); [by run_inv H|]. run_inv H.
  assert (Hc : core (w_db w2) = core (w_db w)) by congruence. rewrite Hrun, <-Hc in Hlk.
  rewrite <-Hc in Hinv. clear Hc Hrun H2 Hrun1.
  destruct (gi_batches _ _ _ Hinv _ _ Hlk) as [Hid Hrow _ _ _ _ _ _ _]. rewrite <-Hid in *.
  case_bool_decide as Hav; run_inv Hrun0.
  - apply recordWaste_ok in Hrun as (E1 & E2 & E3 & E4 & mid & who & Hm). quiet_run Hrun3.
    cbn [with_balances b_ID b_FlavorID b_UnitCost] in *. rewrite Hrun3. waste_step Hm b Hrow.
    eapply (save_quiet _ b); [exact Hinv|exact Hlk| |exact Hm|exact Hrun2]. write_step Hrow.
  - quiet_run Hrun3. rewrite Hrun3. destruct b as [bi bc bf bp be bn ba br bs bw bu bcu bst bca bua].
    eapply (save_quiet _ (MkBatch bi bc bf bp be bn ba br bs bw bu bcu bst bca bua) ba bw [] []);
      [exact Hinv|exact Hlk| | |exact Hrun2]; [write_step Hrow|].
    unfold logged. rewrite !app_nil_r. by destruct (core _).
Qed.
(** ** Idempotent mutations *)

Lemma quiet_insert_idem k h : quiet (insert_idem k h).
Proof. intros c. apply preserves_stmt. intros t d n d' Hd [= E]. by destruct (_ !! _); simplify_eq. Qed.
Lemma quiet_update_response k r : quiet (update_response k r).
Proof. intros c. apply preserves_stmt. intros t d n d' Hd [= E]. by destruct (_ !! _); simplify_eq. Qed.
Hint Resolve quiet_insert_idem quiet_update_response : quiet.

Lemma quiet_claim_keys h keys prev claimed replay : quiet (claim_keys h prev keys claimed replay).
Proof.
  revert prev claimed replay. induction keys as [|key keys IH]; intros prev claimed replay; cbn;
    [auto with quiet|].
  case_bool_decide; [auto|]. apply quiet_bind; [auto with quiet|]. intros n.
  case_bool_decide; [auto|]. apply quiet_bind; [auto with quiet|].
  intros [row|]; [|auto with quiet]. destruct (negb _); [auto with quiet|].
  destruct (id_Response row); [|auto with quiet]. destruct replay; [|auto].
  case_bool_decide; auto with quiet.
Qed.
Lemma quiet_persist r claimed : quiet (persist_response r claimed).
Proof.
  apply quiet_for_each. intros key. apply quiet_bind; [auto with quiet|].
  intros n. case_bool_decide; auto with quiet.
Qed.
Hint Resolve quiet_claim_keys quiet_persist : quiet.

(** ** Properties of the stock tables that every operation keeps

    The stock tables change only through the bodies of the transactions, so a
    property [Q] of them that the bodies keep is kept by every operation. *)

Definition body_keeps {A} (Q : Core → Prop) (m : I A) : Prop :=
  ∀ o w r w', Q (core (w_db w)) → m o w = (inr r, w') → Q (core (w_db w')).

Record stable (Q : Core → Prop) : Prop := {
  st_create : ∀ cx bid code cost in_, 1 ≤ ci_Initial in_ ≤ MaxPortions →
    0 ≤ cost ≤ MaxInt64 / ci_Initial in_ → body_keeps Q (create_batch cx bid code cost in_);
  st_reserve : ∀ TTL cx in_, NoDup (it_FlavorID <$> ri_Items in_) →
    (∀ i, i ∈ ri_Items in_ → 0 ≤ it_Portions i) → body_keeps Q (reserve_body TTL cx in_);
  st_transition : ∀ cx in_ confirm expiry, body_keeps Q (transition cx in_ confirm expiry);
  st_return : ∀ cx in_, body_keeps Q (returnConfirmed cx in_);
  st_waste : ∀ cx bid actor in_, 1 ≤ wi_Portions in_ → body_keeps Q (waste_body cx bid actor in_);
  st_expire : ∀ cx id fl o w w', Q (core (w_db w)) →
    expire_body cx id fl o w = (inr (Commit tt), w') → Q (core (w_db w'))
}.

Section stable.
Context (Q : Core → Prop) (HQ : stable Q).
Abbreviation keeps := (preserves (λ d, Q (core d))).

Lemma mutateKeys_keeps `{!JsonResult T} keys input (fn : I T) :
  body_keeps Q fn → keeps (mutateKeys keys input fn).
Proof.
  intros Hfn. unfold mutateKeys. destruct keys; [apply preserves_throw|].
  apply preserves_transaction. intros o w a w' Hinv _ H _. unfold mutateKeys_body in H.
  run_inv H. destruct a0 as [claimed replay]. quiet_run Hrun. rewrite <-Hrun in Hinv.
  destruct replay as [resp|].
  - destruct (of_resp resp); [|run_inv H]. destruct claimed; run_inv H; [done|].
    quiet_run Hrun0. by rewrite Hrun0.
  - run_inv H. quiet_run Hrun1. rewrite Hrun1. by eapply Hfn.
Qed.

Lemma Create_keeps catalog cx in_ : keeps (Create catalog cx in_).
Proof.
  unfold Create, wrapInvalid, invalid.
  destruct (currentActor cx) as [[actor role]|]; [|apply preserves_throw].
  destruct (_ || _); [apply preserves_throw|]. destruct (ID _) as [fl|]; [|apply preserves_throw].
  apply preserves_bind; [apply preserves_new_uuid|]. intros bid.
  apply preserves_bind; [unfold batchCode, wrapInvalid; preserve|].
  intros code. cbn [ci_ProductionDate ci_ExpiresAt ci_Initial ci_UnitCost ci_Currency].
  destruct (parse_date _) as [date|]; [|apply preserves_throw].
  destruct (ci_UnitCost in_) as [cost|]; [|apply preserves_throw].
  destruct (_ || _) eqn:Hg; [apply preserves_throw|]. bool_guards.
  apply preserves_bind; [unfold lookupRESTMutation; preserve|].
  intros [b|]; [apply preserves_ret|]. destruct catalog as [check|]; [|apply preserves_throw].
  destruct (check fl); [apply preserves_throw|].
  assert (Hb : body_keeps Q (create_batch cx bid code cost
    (MkCreateInput (ci_BatchCode in_) fl (ci_ProductionDate in_) (ci_ExpiresAt in_) (ci_Initial in_)
       (Some cost) (ci_Currency in_)))) by (apply HQ; cbn; lia).
  destruct (restKey cx); [by apply mutateKeys_keeps|].
  apply preserves_transaction. intros o w a w' Hinv _ Hr _. run_inv Hr. by eapply Hb.
Qed.

Lemma Reserve_keeps TTL cx in_ : keeps (Reserve TTL cx in_).
Proof.
  unfold Reserve, invalid. destruct (validItems _) as [items|] eqn:Hv; [|apply preserves_throw].
  destruct (ID _) as [order|]; [|apply preserves_throw]. destruct (ID _) as [key|]; [|apply preserves_throw].
  apply mutateKeys_keeps, HQ; apply validItems_spec in Hv as (N1 & N2 & _); cbn.
  - by rewrite merge_sort_Permutation.
  - intros i. rewrite merge_sort_Permutation. intros Hi. apply N2 in Hi. lia.
Qed.

Lemma Transition_keeps cx confirm in_ : keeps (Transition cx confirm in_).
Proof.
  unfold Transition, invalid. destruct (transition_input in_); [|apply preserves_throw].
  apply mutateKeys_keeps, HQ.
Qed.

Lemma Return_keeps cx in_ : keeps (Return_ cx in_).
Proof.
  unfold Return_, invalid. destruct (transition_input in_); [|apply preserves_throw].
  apply mutateKeys_keeps, HQ.
Qed.

Lemma Waste_keeps cx batchID actor in_ : keeps (Waste cx batchID actor in_).
Proof.
  unfold Waste, invalid. destruct (ID _); [|apply preserves_throw]. destruct (ID _); [|apply preserves_throw].
  destruct (ID _); [|apply preserves_throw]. destruct (_ || _) eqn:Hg; [apply preserves_throw|].
  bool_guards. apply mutateKeys_keeps, HQ. cbn in *. lia.
Qed.

Lemma notifyExpiringBatch_keeps id flavor : keeps (notifyExpiringBatch id flavor).
Proof.
  apply preserves_transaction. intros o w a w' Hinv _ H _. run_inv H. quiet_run Hrun.
  destruct (batches (w_db w0) !! id) as [row|]; [|by run_inv H]. destruct (expiring_now _ row); [|by run_inv H].
  run_inv H. quiet_run Hrun0. cbn [w_db] in *. by rewrite Hrun0, core_mark_expiring, Hrun.
Qed.

Lemma NotifyExpiringBatches_keeps limit : keeps (NotifyExpiringBatches limit).
Proof. pose proof notifyExpiringBatch_keeps. unfold NotifyExpiringBatches. preserve. Qed.

Lemma expireBatch_keeps cx id flavor : keeps (expireBatch cx id flavor).
Proof. apply preserves_transaction. intros o w [] w' Hinv _ H _. by eapply (st_expire _ HQ). Qed.

Lemma expireReservation_keeps cx id order : keeps (expireReservation cx id order).
Proof.
  apply preserves_transaction. intros o w [] w' Hinv _ H _. run_inv H. by eapply (st_transition _ HQ).
Qed.

Lemma Sweep_keeps cx limit : keeps (Sweep cx limit).
Proof.
  pose proof NotifyExpiringBatches_keeps. pose proof expireBatch_keeps.
  pose proof expireReservation_keeps. unfold Sweep, invalid. preserve.
Qed.
End stable.

Lemma inv_stable : stable inv_core.
Proof.
  split.
  - intros cx bid code cost in_ H1 H2 o w r w' Hinv H. by eapply create_batch_inv in H.
  - intros TTL cx in_ H1 H2 o w r w' Hinv H. by eapply reserve_body_inv in H.
  - intros cx in_ confirm expiry o w r w' Hinv H. by eapply transition_spec in H as [? _].
  - intros cx in_ o w r w' Hinv H. by eapply returnConfirmed_spec in H as [? _].
  - intros cx bid actor in_ H1 o w r w' Hinv H. by eapply waste_body_inv in H.
  - intros cx id fl o w w' Hinv H. by eapply expire_body_inv in H.
Qed.
End safety.
