(* ===== verification/InvSystem.v ===== *)
(** Batch Inventory as a system: the requests it serves, the background tasks
    it runs, and the databases that any sequence of them can lead to.  Each
    transaction of a background sweep is a task of its own as well, so the
    sequences include every interleaving of a sweep with requests. *)

From S2P Require Import Prelude Effects GoStd InvModel InvStore InvOps InvReserve InvInv InvFrame InvProofs InvReserveProofs InvIdem InvSafety InvTransport.

Inductive Request :=
  | ReqCreate (c : Ctx) (in_ : CreateInput)
  | ReqReserve (c : Ctx) (in_ : ReserveInput)
  | ReqTransition (c : Ctx) (confirm : bool) (in_ : TransitionInput)
  | ReqReturn (c : Ctx) (in_ : TransitionInput)
  | ReqWaste (c : Ctx) (batchID actor : string) (in_ : WasteInput).

Inductive Task :=
  | TaskSweep (c : Ctx) (limit : Z)
  | TaskExpireReservation (c : Ctx) (id order : string)
  | TaskExpireBatch (c : Ctx) (id flavor : string)
  | TaskNotifyExpiring (id flavor : string)
  | TaskDispatch (broker : Event → InvBroker).

Section system.
Context {uuid : UuidLib} {dig : Digest}.
Abbreviation I := (M DB IErr).
Context (TTL : Z) (catalog : option (string → option IErr)).

Definition run_request (q : Request) : I Response :=
  match q with
  | ReqCreate c in_ => b ← Create catalog c in_; mret (to_resp b)
  | ReqReserve c in_ => r ← Reserve TTL c in_; mret (to_resp r)
  | ReqTransition c confirm in_ => r ← Transition c confirm in_; mret (to_resp r)
  | ReqReturn c in_ => r ← Return_ c in_; mret (to_resp r)
  | ReqWaste c batchID actor in_ => x ← Waste c batchID actor in_; mret (to_resp x)
  end.

Definition run_task (k : Task) : I unit :=
  match k with
  | TaskSweep c limit => Sweep c limit
  | TaskExpireReservation c id order => expireReservation c id order
  | TaskExpireBatch c id flavor => expireBatch c id flavor
  | TaskNotifyExpiring id flavor => _ ← notifyExpiringBatch id flavor; mret tt
  | TaskDispatch broker => _ ← inv_DispatchOne broker; mret tt
  end.

(** One request or task, in any environment, whatever it answers. *)
Inductive step (d : DB) : DB → Prop :=
  | step_request q o w : w_db w = d → step d (w_db (run_request q o w).2)
  | step_task k o w : w_db w = d → step d (w_db (run_task k o w).2).

Definition steps : relation DB := rtc step.
Definition reachable (d : DB) : Prop := steps empty_db d.

(** ** Invariants of all steps *)

Lemma step_preserves (P : DB → Prop) :
  (∀ q, preserves P (run_request q)) → (∀ k, preserves P (run_task k)) → ∀ d d', step d d' → P d → P d'.
Proof. intros Hq Hk d d' [q o w <-|k o w <-] HP; [by apply Hq|by apply Hk]. Qed.

(** The dispatcher writes nothing but outbox rows. *)
Lemma dispatch_keeps (P : DB → Prop) broker : (∀ f d, P d → P (set_outbox f d)) → preserves P (inv_DispatchOne broker).
Proof.
  intros HP. apply preserves_transaction_body. unfold update_event.
  apply preserves_bind; [apply preserves_stmt; by intros t d a d' Hd [= <- <-]|].
  intros [row|]; [|apply preserves_ret]. cbv zeta.
  destruct (inv_Publish _); (apply preserves_bind; [apply preserves_stmt; intros t d a d' Hd [= _ <-]; by apply HP|intros ?; apply preserves_ret]).
Qed.

Lemma step_keeps Q : stable Q → ∀ d d', step d d' → Q (core d) → Q (core d').
Proof.
  intros HQ. apply (step_preserves (λ d, Q (core d))).
  - pose proof (Create_keeps Q HQ). pose proof (Reserve_keeps Q HQ). pose proof (Transition_keeps Q HQ).
    pose proof (Return_keeps Q HQ). pose proof (Waste_keeps Q HQ). intros []; cbn -[preserves]; preserve.
  - pose proof (Sweep_keeps Q HQ). pose proof (expireReservation_keeps Q HQ).
    pose proof (expireBatch_keeps Q HQ). pose proof (notifyExpiringBatch_keeps Q).
    assert (∀ broker, preserves (λ d, Q (core d)) (inv_DispatchOne broker)) by (intros; by apply dispatch_keeps).
    intros []; cbn -[preserves]; preserve.
Qed.

Lemma empty_inv : Inv empty_db.
Proof.
  split; cbn; try (intros; set_solver). constructor.
Qed.

Lemma steps_keep Q : stable Q → ∀ d d', steps d d' → Q (core d) → Q (core d').
Proof.
  intros HQ d d' Hs. induction Hs as [|x y z Hxy _ IH]; [done|]. intros Hx.
  apply IH. by eapply step_keeps.
Qed.

Lemma reachable_inv d : reachable d → Inv d.
Proof. intros Hr. eapply (steps_keep _ inv_stable); [exact Hr|apply empty_inv]. Qed.

(** ** Idempotency records *)

Lemma idem_frame_writes x : stock_writes (λ d : DB, idempotency_records d = x).
Proof. by split. Qed.

Lemma idem_transaction d0 {A} (body : I (txend A)) :
  idem_frame body → preserves (idem_evolves d0) (transaction body).
Proof.
  intros Hb. apply preserves_transaction. intros o w a w' Hg _ H _.
  eapply idem_frame_ok in H; [|done]. unfold idem_evolves, idem_grows, answered in *. by rewrite H.
Qed.

Lemma Create_grows d0 c in_ : preserves (idem_evolves d0) (Create catalog c in_).
Proof.
  assert (Hf : ∀ bid code cost in_, idem_frame (create_batch c bid code cost in_)).
  { intros bid code cost in' x. apply keeps_create_batch, idem_frame_writes. }
  assert (∀ op key i bid code cost in_,
    preserves (idem_evolves d0) (mutate op key i (create_batch c bid code cost in_))).
  { intros. apply mutateKeys_grows, Hf. }
  assert (∀ bid code cost in_,
    preserves (idem_evolves d0) (transaction (b ← create_batch c bid code cost in_; mret (Commit b)))).
  { intros. apply idem_transaction. intros x. apply preserves_bind; [apply Hf|]. intros b. apply preserves_ret. }
  unfold Create, wrapInvalid, invalid, batchCode, lookupRESTMutation. preserve.
Qed.

Lemma request_grows d0 q : preserves (idem_evolves d0) (run_request q).
Proof.
  destruct q as [c in_|c in_|c confirm in_|c in_|c bid actor in_]; cbn [run_request];
    (apply preserves_bind; [|intros ?; apply preserves_ret]).
  - apply Create_grows.
  - unfold Reserve, invalid. destruct (validItems _); [|apply preserves_throw].
    destruct (ID _); [|apply preserves_throw]. destruct (ID _); [|apply preserves_throw].
    apply mutateKeys_grows. intros x. by apply keeps_reserve_body; [apply idem_frame_writes|].
  - unfold Transition, invalid. destruct (transition_input _); [|apply preserves_throw].
    apply mutateKeys_grows. intros x. by apply keeps_transition; [apply idem_frame_writes|].
  - unfold Return_, invalid. destruct (transition_input _); [|apply preserves_throw].
    apply mutateKeys_grows. intros x. by apply keeps_returnConfirmed; [apply idem_frame_writes|].
  - unfold Waste, invalid. destruct (ID _); [|apply preserves_throw]. destruct (ID _); [|apply preserves_throw].
    destruct (ID _); [|apply preserves_throw]. destruct (_ || _); [apply preserves_throw|].
    apply mutateKeys_grows. intros x. apply keeps_waste_body, idem_frame_writes.
Qed.

Lemma notify_grows d0 id fl : preserves (idem_evolves d0) (notifyExpiringBatch id fl).
Proof.
  apply idem_transaction. intros x.
  assert (∀ e t, preserves (λ d : DB, idempotency_records d = x) (insert_outbox e t)).
  { intros e t. apply keeps_insert_outbox, idem_frame_writes. }
  unfold lock. preserve.
Qed.

Lemma task_grows d0 k : preserves (idem_evolves d0) (run_task k).
Proof.
  pose proof (notify_grows d0).
  assert (∀ c id order, preserves (idem_evolves d0) (expireReservation c id order)).
  { intros. apply idem_transaction. intros x. apply preserves_bind; [|intros ?; apply preserves_ret].
    by apply keeps_transition; [apply idem_frame_writes|]. }
  assert (∀ c id fl, preserves (idem_evolves d0) (expireBatch c id fl)).
  { intros. apply idem_transaction. intros x. apply keeps_expire_body, idem_frame_writes. }
  assert (∀ broker, preserves (idem_evolves d0) (inv_DispatchOne broker)) by (intros; by apply dispatch_keeps).
  destruct k; cbn [run_task]; unfold Sweep, invalid, NotifyExpiringBatches; preserve.
Qed.

Lemma steps_evolve d d' : steps d d' → idem_evolves d d'.
Proof.
  induction 1 as [|x y z Hxy _ IH]; [done|]. etrans; [|exact IH].
  eapply (step_preserves (idem_evolves x)); [apply request_grows|apply task_grows|exact Hxy|done].
Qed.
Lemma steps_grow d d' : steps d d' → idem_grows d d'.
Proof. by intros [H _]%steps_evolve. Qed.
Lemma reachable_answered d : reachable d → answered d.
Proof. intros [_ H]%steps_evolve. apply H. intros i row Hi. cbn in Hi. by rewrite lookup_empty in Hi. Qed.
End system.
