(* ===== verification/InvDemo.v ===== *)
(** Batch Inventory: a concrete environment in which the operations run, for
    the theorems that are applied to it. *)

From stdpp Require Import pretty.
From S2P Require Import Prelude Effects GoStd InvModel InvStore InvOps InvReserve InvSystem.

(** A UUID library that accepts texts of 36 bytes as they are. *)
#[global] Program Instance demo_uuid : UuidLib :=
  {| uuid_parse s := if bool_decide (String.length s = 36%nat) then Some s else None |}.
Next Obligation.
  intros s u. cbn. case_bool_decide; [|done]. intros [= <-]. by rewrite bool_decide_eq_true_2.
Qed.
Next Obligation. reflexivity. Qed.

#[global] Instance demo_digest : Digest := {| digest_t := Body; digest := id |}.

Lemma demo_digest_inj : digest_inj.
Proof. by intros x y. Qed.

(** A database that never fails, random ids that never repeat, and a clock that
    starts at [t] and advances by a nanosecond with every interaction. *)
Definition demo_id (n : N) : string := "00000000-0000-4000-8000-00000" +:+ pretty (1000000 + n)%N.
Definition clock_from (t : Z) : oracle :=
  Oracle (λ _, None) (λ _, false) (λ n, t + Z.of_nat n) (λ n, demo_id (100 + N.of_nat n)).

Lemma clock_from_reliable t : reliable (clock_from t).
Proof. by intros n. Qed.

Definition demo_TTL : Z := 15 * minute.
Definition demo_catalog : option (string → option IErr) := Some (λ _, None).
Definition manager : string := demo_id 1.
Definition vanilla : string := demo_id 2.
Definition order1 : string := demo_id 3.
Definition key1 : string := demo_id 4.
Definition key2 : string := demo_id 5.
Definition demo_cx : Ctx := MkCtx (Some (manager, "MANAGER")) None.
Definition w_empty : world DB := World empty_db 0 false [].

(** Two batches of 20 and 30 portions, one reservation of 25. *)
Definition create1 : Request :=
  ReqCreate demo_cx (MkCreateInput (Some "V-1") vanilla "1970-01-01" (1000 * hour) 20 (Some 700) "THB").
Definition create2 : Request :=
  ReqCreate demo_cx (MkCreateInput (Some "V-2") vanilla "1970-01-01" (2000 * hour) 30 (Some 800) "THB").
Definition reserve25 : ReserveInput := MkReserveInput order1 key1 [MkItem vanilla 25].
Definition reserve1 : Request := ReqReserve demo_cx reserve25.

Abbreviation request := (run_request demo_TTL demo_catalog).
Abbreviation task := (run_task).
Definition w_created1 : world DB := (request create1 (clock_from hour) w_empty).2.
Definition w_created : world DB := (request create2 (clock_from hour) w_created1).2.
Definition w_reserved : world DB := (request reserve1 (clock_from hour) w_created).2.

(** The reservation the demo obtains. *)
Definition demo_reservation : Reservation :=
  match (Reserve demo_TTL demo_cx reserve25 (clock_from hour) w_created).1 with
  | inr r => r
  | inl _ => MkReservation "" "" RActive [] 0 0
  end.
Definition confirm_in : TransitionInput := MkTransitionInput (r_ID demo_reservation) order1 key2 "".
Definition confirm1 : Request := ReqTransition demo_cx true confirm_in.
Definition w_confirmed : world DB := (request confirm1 (clock_from hour) w_reserved).2.

Abbreviation demo_step := (step demo_TTL demo_catalog).
Abbreviation demo_steps := (steps demo_TTL demo_catalog).

Lemma demo_created : reachable demo_TTL demo_catalog (w_db w_created).
Proof. eapply rtc_l; [by apply (step_request _ _ _ create1 (clock_from hour) w_empty)|].
  eapply rtc_l; [by apply (step_request _ _ _ create2 (clock_from hour) w_created1)|]. apply rtc_refl. Defined.

Lemma demo_reserve_step : demo_step (w_db w_created) (w_db w_reserved).
Proof. by apply (step_request _ _ _ reserve1 (clock_from hour) w_created). Defined.

Lemma demo_reserved : reachable demo_TTL demo_catalog (w_db w_reserved).
Proof. eapply rtc_r; [apply demo_created|apply demo_reserve_step]. Defined.

Lemma demo_confirm_step : demo_step (w_db w_reserved) (w_db w_confirmed).
Proof. by apply (step_request _ _ _ confirm1 (clock_from hour) w_reserved). Defined.
