(* ===== verification/InvTheorems.v ===== *)
(** Batch Inventory: the properties of the service. *)

From S2P Require Import Prelude Effects GoStd InvModel InvStore InvOps InvReserve InvInv InvFrame InvProofs InvReserveProofs InvIdem InvSafety InvSystem InvDemo InvTransport.

Section theorems.
Context {uuid : UuidLib} {dig : Digest}.
Abbreviation I := (M DB IErr).
Context (TTL : Z) (catalog : option (string → option IErr)).

(** ** Stock and the life of a reservation *)

(** The moves between the states of a reservation. *)
Definition res_next (a b : ResStatus) : Prop :=
  match a, b with
  | RActive, (RConfirmed | RReleased | RExpired) => True
  | RConfirmed, RReturned => True
  | _, _ => False
  end.

(** Every reservation of [c] is still there, for the same order and with the
    same times, in a state that follows from the one it had. *)
Definition lifecycle (c c' : Core) : Prop :=
  ∀ id r, c_res c !! id = Some r → ∃ r', c_res c' !! id = Some r' ∧
    rr_OrderID r' = rr_OrderID r ∧ rr_CreatedAt r' = rr_CreatedAt r ∧ rr_ExpiresAt r' = rr_ExpiresAt r ∧
    rtc res_next (rr_Status r) (rr_Status r').

#[local] Instance lifecycle_refl : Reflexive lifecycle.
Proof. intros c id r Hr. exists r. split_and!; auto. apply rtc_refl. Qed.

Lemma lifecycle_trans c1 c2 c3 : lifecycle c1 c2 → lifecycle c2 c3 → lifecycle c1 c3.
Proof.
  intros H1 H2 id r Hr. destruct (H1 id r Hr) as (r1 & L1 & E1 & E2 & E3 & E4).
  destruct (H2 id r1 L1) as (r2 & L2 & F1 & F2 & F3 & F4). exists r2.
  split_and!; try congruence. by etrans.
Qed.

Lemma lifecycle_same c c' : c_res c' = c_res c → lifecycle c c'.
Proof. intros E id r Hr. exists r. rewrite E. split_and!; auto. apply rtc_refl. Qed.

Lemma lifecycle_outcome idle from to in_ c c' r :
  (∀ t e, res_next from (to t e)) → res_outcome idle from to in_ c c' r → lifecycle c c'.
Proof.
  intros Hto [(row & t & Hrow & _ & _ & _ & _ & _ & [(_ & -> & _)|(Hf & Hst & _ & _ & E)])]; [done|].
  intros id x Hx. rewrite E, lookup_alter. case_decide as Hid; [|by apply lifecycle_refl].
  rewrite <-Hid in Hx. rewrite Hx. eexists. split; [done|]. cbn. split_and!; auto.
  apply rtc_once. assert (x = row) as -> by congruence. rewrite Hf, Hst. apply Hto.
Qed.

Lemma res_frame_ok {A} (m : I A) o w r w' :
  (∀ x, preserves (λ d, reservations d = x) m) → m o w = (r, w') →
  c_res (core (w_db w')) = c_res (core (w_db w)).
Proof. intros Hf H. specialize (Hf _ o w eq_refl). rewrite H in Hf. done. Qed.

Lemma res_frame_writes x : stock_writes (λ d : DB, reservations d = x).
Proof. by split. Qed.

Lemma reserve_body_res (T : Z) cx in_ o w r w' :
  reserve_body T cx in_ o w = (inr r, w') →
  c_res (core (w_db w)) !! r_ID r = None ∧
  c_res (core (w_db w')) = <[r_ID r := res_row r]> (c_res (core (w_db w))).
Proof.
  intros H. unfold reserve_body, invalid in H. run_inv H.
  destruct (order_reserved _ _); run_inv H. case_bool_decide; run_inv H.
  destruct (negb _); run_inv H.
  apply insert_reservation_ok in Hrun4 as (_ & N2 & _ & N4).
  assert (E1 : ∀ x, stock_writes (λ d : DB, reservations d = x)) by apply res_frame_writes.
  eapply res_frame_ok in Hrun5; [|intros x; by apply keeps_write_allocations].
  eapply res_frame_ok in Hrun6; [|intros x; apply preserves_for_each; intros i; apply preserves_bind;
    [by apply keeps_check|intros ?; apply preserves_ret]].
  eapply res_frame_ok in Hrun; [|intros x; unfold lock; preserve].
  eapply res_frame_ok in Hrun0; [|intros x; by apply keeps_lockFlavors].
  eapply res_frame_ok in Hrun1; [|intros x; unfold now; preserve].
  eapply res_frame_ok in Hrun2; [|intros x; apply preserves_fold_m; intros; by apply keeps_pick_item].
  eapply res_frame_ok in Hrun3; [|intros x; unfold now; preserve].
  cbn [w_db r_ID] in *. rewrite Hrun6, Hrun5, N4. cbn [new_res c_res res_row rr_ID r_ID].
  assert (E : c_res (core (w_db w4)) = c_res (core (w_db w))) by congruence. by rewrite E in *.
Qed.

Lemma lifecycle_stable c0 : stable (λ c, inv_core c ∧ lifecycle c0 c).
Proof.
  assert (Hsame : ∀ {A} (m : I A), (∀ x, preserves (λ d, reservations d = x) m) → body_keeps inv_core m →
    body_keeps (λ c, inv_core c ∧ lifecycle c0 c) m).
  { intros A m Hm Hi o w r w' [Hinv Hl] H. split; [by eapply Hi|]. eapply lifecycle_trans; [exact Hl|].
    apply lifecycle_same. by eapply res_frame_ok. }
  pose proof inv_stable as HI. pose proof res_frame_writes as Hw. split.
  - intros. apply Hsame; [intros x; by apply keeps_create_batch|by apply HI].
  - intros TTL' cx in_ Hnd Hpos o w r w' [Hinv Hl] H. split; [by eapply (st_reserve _ HI)|].
    eapply lifecycle_trans; [exact Hl|]. apply reserve_body_res in H as [E1 E2].
    intros id x Hx. exists x. rewrite E2, lookup_insert_ne by congruence.
    split_and!; auto. apply rtc_refl.
  - intros cx in_ confirm expiry o w r w' [Hinv Hl] H. apply transition_spec in H as [Hi Ho]; [|done].
    split; [done|]. eapply lifecycle_trans; [exact Hl|]. eapply lifecycle_outcome; [|exact Ho].
    intros t e. unfold target_status. destruct confirm; [done|]. by destruct (expiry || _).
  - intros cx in_ o w r w' [Hinv Hl] H. apply returnConfirmed_spec in H as [Hi Ho]; [|done].
    split; [done|]. eapply lifecycle_trans; [exact Hl|]. by eapply lifecycle_outcome; [|exact Ho].
  - intros. apply Hsame; [intros x; by apply keeps_waste_body|by apply HI].
  - intros cx id fl o w w' [Hinv Hl] H. split; [by eapply (st_expire _ HI)|].
    eapply lifecycle_trans; [exact Hl|]. apply lifecycle_same. eapply res_frame_ok; [|exact H].
    intros x. by apply keeps_expire_body.
Qed.

(** C1.  Whatever requests and background tasks run, in any order, with any
    failures of the database and any clock: in every reachable database each
    batch's available, reserved, sold and wasted portions are non-negative and
    add up to what was produced; the reserved and the sold portions are exactly
    those allocated to ACTIVE and to CONFIRMED reservations, the wasted ones
    those in the waste records; the movement log reproduces the balances; and
    every waste record carries the exact cost of its portions.  A reservation is
    never deleted or reassigned, its times never change, and its state only moves
    from ACTIVE to CONFIRMED, RELEASED or EXPIRED and from CONFIRMED to RETURNED,
    whatever runs between two moments. *)
Theorem stock_invariant d d' :
  reachable TTL catalog d → steps TTL catalog d d' → Inv d ∧ Inv d' ∧ lifecycle (core d) (core d').
Proof.
  intros Hr Hs. split; [by eapply reachable_inv|]. apply (steps_keep TTL catalog _ (lifecycle_stable (core d)) _ _ Hs).
  split; [by eapply reachable_inv|done].
Qed.

(** ** Idempotency *)

(** Requests that carry an idempotency key. *)
Definition keyed (q : Request) : Prop :=
  match q with ReqCreate c _ => is_Some (restKey c) | _ => True end.

Lemma mutate_again `{!JsonResult T} keys input (fn : I T) o w r w' o2 w2 :
  keys ≠ [] → idem_frame fn → mutateKeys keys input fn o w = (inr r, w') →
  steps TTL catalog (w_db w') (w_db w2) → reliable o2 →
  ∃ w2', mutateKeys keys input fn o2 w2 = (inr r, w2') ∧ w_db w2' = w_db w2.
Proof.
  intros Hne Hfn H Hs Ho. eapply mutateKeys_replay; [done|done|].
  eapply recorded_grows; [by eapply steps_grow|]. by eapply mutateKeys_ok.
Qed.

Lemma resp_again {T} `{!JsonResult T} (m : I T) o w resp w' o2 w2 :
  (∀ r, m o w = (inr r, w') → ∃ w2', m o2 w2 = (inr r, w2') ∧ w_db w2' = w_db w2) →
  (x ← m; mret (to_resp x)) o w = (inr resp, w') →
  ∃ w2', (x ← m; mret (to_resp x)) o2 w2 = (inr resp, w2') ∧ w_db w2' = w_db w2.
Proof.
  intros Hm H. run_inv H. destruct (Hm _ Hrun) as (w2' & E & Hd). exists w2'. split; [|done].
  by rewrite (bind_run _ _ _ _ _ _ E).
Qed.

(** A batch code that [batchCode] accepts. *)
Definition code_ok (raw : option string) : bool :=
  match raw with
  | None => true
  | Some raw =>
      let code := trim_space raw in
      negb (bool_decide (String.length code = 0%nat) || bool_decide (64 < String.length code)%nat) && code_chars true (bytes code)
  end.
Lemma batchCode_run raw bid o w : if code_ok raw then ∃ code, batchCode raw bid o w = (inr code, w) else ∃ e, batchCode raw bid o w = (inl e, w).
Proof. unfold batchCode, code_ok, wrapInvalid. destruct raw as [raw|]; [|by eexists]. destruct (_ || _); [by eexists|]. cbn. destruct (code_chars _ _); by eexists. Qed.

(** The key and the normalised body that a creation with an Idempotency-Key is
    recorded under, if it is valid. *)
Definition create_record (c : Ctx) (in_ : CreateInput) : option (list mutationKey * Body) :=
  '(actor, role) ← currentActor c;
  if bool_decide (actor = "") || negb (bool_decide (role = "MANAGER")) then None
  else
    flavor ← ID (ci_FlavorID in_); date ← parse_date (ci_ProductionDate in_); cost ← ci_UnitCost in_; key ← restKey c;
    if is_zero_time (ci_ExpiresAt in_) || bool_decide (ci_ExpiresAt in_ < date)
       || bool_decide (ci_Initial in_ < 1) || bool_decide (ci_Initial in_ > MaxPortions)
       || bool_decide (cost < 0) || bool_decide (cost > MaxInt64 / ci_Initial in_)
       || negb (bool_decide (ci_Currency in_ = "THB"))
    then None
    else if negb (code_ok (ci_BatchCode in_)) then None
    else Some ([MkKey ("create_batch:" +:+ actor) key],
      BodyCreate (MkCreateInput (ci_BatchCode in_) flavor (ci_ProductionDate in_) (ci_ExpiresAt in_) (ci_Initial in_) (ci_UnitCost in_) (ci_Currency in_))).

Lemma lookup_recorded `{!JsonResult T} op key input (r : T) o w :
  reliable o → recorded (w_db w) [MkKey op key] (digest input) (to_resp r) →
  ∃ w', lookupRESTMutation op key input o w = (inr (Some r), w') ∧ w_db w' = w_db w.
Proof.
  intros Ho Hr. unfold lookupRESTMutation. specialize (Hr _ ltac:(by left)). unfold key_of in Hr.
  eexists. split; [|shelve]. erewrite bind_run.
  2: { unfold pool_query, pool_stmt. by rewrite Ho. }
  cbn in Hr |- *. rewrite Hr. cbn. rewrite bool_decide_eq_true_2 by done. cbn. by rewrite of_to_resp.
  Unshelve. done.
Qed.

Lemma lookup_ok `{!JsonResult T} op key input (r : T) o w w' :
  lookupRESTMutation op key input o w = (inr (Some r), w') →
  recorded (w_db w) [MkKey op key] (digest input) (to_resp r) ∧ w_db w' = w_db w.
Proof.
  unfold lookupRESTMutation. intros H. run_inv H. unfold pool_query, pool_stmt in Hrun.
  destruct (or_fault _ _); simplify_eq. destruct (_ !! _) as [row|] eqn:E; [|by run_inv H].
  destruct (negb _) eqn:Hh; run_inv H. bool_guards. destruct (id_Response row ≫= of_resp) as [x|] eqn:Hx; run_inv H.
  destruct row as [h [resp|]]; [|done]. cbn in *. apply to_of_resp in Hx as ->. simplify_eq. split; [|done].
  intros k ->%list_elem_of_singleton. done.
Qed.

Lemma lookup_none `{!JsonResult T} op key input o w w' :
  lookupRESTMutation op key input o w = (inr (@None T), w') → w_db w' = w_db w.
Proof.
  unfold lookupRESTMutation. intros H. run_inv H. unfold pool_query, pool_stmt in Hrun.
  destruct (or_fault _ _); simplify_eq. repeat case_match; run_inv H; done.
Qed.

Lemma lookup_conflict `{!JsonResult T} op key input row o w :
  reliable o → idempotency_records (w_db w) !! (op, key) = Some row → id_RequestHash row ≠ digest input →
  ∃ w', lookupRESTMutation (T := T) op key input o w = (inl ErrConflict, w') ∧ w_db w' = w_db w.
Proof.
  intros Ho Hrow Hh. unfold lookupRESTMutation. eexists. split; [|shelve]. erewrite bind_run.
  2: { unfold pool_query, pool_stmt. by rewrite Ho. }
  cbn. rewrite Hrow, bool_decide_eq_false_2 by congruence. reflexivity.
  Unshelve. done.
Qed.

(** A valid creation looks its key up first. *)
Lemma Create_lookup c in_ ks body o w : create_record c in_ = Some (ks, body) →
  ∃ op key k w1, ks = [MkKey op key] ∧ w_db w1 = w_db w ∧
    Create catalog c in_ o w = (original ← lookupRESTMutation (T := Batch) op key body; match original with Some b => mret b | None => k end) o w1.
Proof.
  unfold create_record, Create. destruct (currentActor c) as [[actor role]|]; [|done]. cbn [mbind option_bind]. destruct (_ || _); [done|].
  destruct (ID _) as [fl|]; [|done].
  cbn [mbind option_bind ci_BatchCode ci_ProductionDate ci_ExpiresAt ci_Initial ci_UnitCost ci_Currency]. destruct (parse_date _) as [date|]; [|done]. cbn [mbind option_bind]. destruct (ci_UnitCost in_) as [cost|]; [|done]. cbn [mbind option_bind].
  destruct (restKey c) as [key|]; [|done]. cbn [mbind option_bind]. destruct (_ || _) eqn:Hg; [done|]. destruct (code_ok _) eqn:Hc; [|done]. intros [= <- <-].
  pose proof (batchCode_run (ci_BatchCode in_) (or_uuid o (w_tick w)) o (World (w_db w) (S (w_tick w)) (w_aborted w) (w_locks w))) as Hb.
  rewrite Hc in Hb. destruct Hb as [code Hb].
  exists ("create_batch:" +:+ actor), key. eexists _, (World (w_db w) (S (w_tick w)) (w_aborted w) (w_locks w)). split; [done|]. split; [done|].
  erewrite bind_run by reflexivity. erewrite bind_run by exact Hb. reflexivity.
Qed.
Lemma Create_valid c in_ o w b w' : is_Some (restKey c) → Create catalog c in_ o w = (inr b, w') →
  ∃ ks body, create_record c in_ = Some (ks, body) ∧ recorded (w_db w') ks (digest body) (to_resp b).
Proof.
  intros [key Hkey] H. unfold Create, wrapInvalid, invalid, create_record in *. rewrite Hkey in *.
  destruct (currentActor c) as [[actor role]|]; [|run_inv H]. cbn [mbind option_bind] in *. destruct (_ || _); [run_inv H|].
  destruct (ID _) as [fl|]; [|run_inv H].
  cbn [mbind option_bind ci_BatchCode ci_ProductionDate ci_ExpiresAt ci_Initial ci_UnitCost ci_Currency] in *. run_inv H.
  pose proof (batchCode_run (ci_BatchCode in_) (or_uuid o (w_tick w)) o (World (w_db w) (S (w_tick w)) (w_aborted w) (w_locks w))) as Hb.
  destruct (code_ok _); [|by destruct Hb as [e Hb]; rewrite Hb in Hrun].
  destruct (parse_date _) as [date|]; [|run_inv H]. destruct (ci_UnitCost in_) as [cost|]; [|run_inv H]. cbn [mbind option_bind].
  destruct (_ || _) eqn:Hg; run_inv H. eexists _, _. split; [done|]. destruct a0 as [b0|].
  - run_inv H. apply lookup_ok in Hrun0 as [Hr Hd]. by rewrite Hd.
  - destruct catalog as [check|]; [|run_inv H]. destruct (check fl); [run_inv H|].
    unfold mutate in H. eapply mutateKeys_ok in H; [done|]. intros x. apply keeps_create_batch, idem_frame_writes.
Qed.
Lemma Create_again c in_ o w b w' o2 w2 :
  is_Some (restKey c) → Create catalog c in_ o w = (inr b, w') →
  steps TTL catalog (w_db w') (w_db w2) → reliable o2 →
  ∃ w2', Create catalog c in_ o2 w2 = (inr b, w2') ∧ w_db w2' = w_db w2.
Proof.
  intros Hkey H Hs Ho. apply Create_valid in H as (ks & body & Hc & Hrec); [|done].
  destruct (Create_lookup c in_ ks body o2 w2 Hc) as (op & key & k & w1 & -> & Hw1 & ->).
  destruct (lookup_recorded op key body b o2 w1) as (w3 & Hl & Hd); [done| |].
  { rewrite Hw1. eapply recorded_grows; [by eapply steps_grow|done]. }
  exists w3. split; [by erewrite bind_run by exact Hl|]. by rewrite Hd.
Qed.

(** The same request again, however much later and whatever ran in between. *)
Lemma repeat_answered q o w resp w' o2 w2 :
  keyed q → run_request TTL catalog q o w = (inr resp, w') →
  steps TTL catalog (w_db w') (w_db w2) → reliable o2 →
  ∃ w2', run_request TTL catalog q o2 w2 = (inr resp, w2') ∧ w_db w2' = w_db w2.
Proof.
  intros Hk H Hs Ho. destruct q; cbn [run_request] in *; (eapply resp_again; [|exact H]); clear H; intros r H.
  - by eapply Create_again.
  - unfold Reserve, invalid in *. repeat case_match; try run_inv H.
    eapply mutate_again; [done| |exact H|done..]. intros x. by apply keeps_reserve_body; [apply idem_frame_writes|].
  - unfold Transition, invalid in *. case_match; try run_inv H.
    eapply mutate_again; [done| |exact H|done..]. intros x. by apply keeps_transition; [apply idem_frame_writes|].
  - unfold Return_, invalid in *. case_match; try run_inv H.
    eapply mutate_again; [done| |exact H|done..]. intros x. by apply keeps_returnConfirmed; [apply idem_frame_writes|].
  - unfold Waste, invalid in *. repeat case_match; try run_inv H;
    (eapply mutate_again; [done| |exact H|done..]; intros x; apply keeps_waste_body, idem_frame_writes).
Qed.

(** The keys and the normalised body that a valid request is recorded under. *)
Definition request_record (q : Request) : option (list mutationKey * Body) :=
  match q with
  | ReqCreate c in_ => create_record c in_
  | ReqReserve _ in_ =>
      items ← validItems (ri_Items in_); order ← ID (ri_OrderID in_); key ← ID (ri_Key in_);
      Some ([MkKey "reserve" key], BodyReserve (MkReserveInput order key (merge_sort item_le items)))
  | ReqTransition _ confirm in_ =>
      x ← transition_input in_;
      Some ([MkKey (if confirm : bool then "confirm" else "release") (ti_Key x)],
        BodyTransition (MkTransitionInput (ti_ReservationID x) (ti_OrderID x) (ti_Key x)
          (if confirm then "" else ti_Reason x)))
  | ReqReturn _ in_ => x ← transition_input in_; Some ([MkKey "return" (ti_Key x)], BodyTransition x)
  | ReqWaste c batchID actor in_ =>
      batchID ← ID batchID; actor ← ID actor; key ← ID (wi_Key in_);
      if bool_decide (wi_Portions in_ < 1) || bool_decide (wi_Portions in_ > MaxPortions)
         || negb (validReason (wi_Reason in_)) || negb (shortText (wi_Note in_) 500)
      then None
      else Some (MkKey ("waste:" +:+ actor) key :: match restKey c with Some k => [MkKey ("rest_waste:" +:+ actor) k] | None => [] end,
        BodyWaste batchID (MkWasteInput (wi_Portions in_) (wi_Reason in_) (wi_Note in_) key))
  end.

(** All but creations are one idempotent mutation. *)
Definition mutation_of (q : Request) (ks : list mutationKey) (b : Body) : Prop :=
  NoDup ks ∧ ∃ T (J : JsonResult T) (fn : I T), idem_frame fn ∧
    run_request TTL catalog q = (r ← mutateKeys ks b fn; mret (to_resp r)).

Lemma request_record_run q ks b : request_record q = Some (ks, b) →
  (∃ c in_, q = ReqCreate c in_ ∧ create_record c in_ = Some (ks, b)) ∨ mutation_of q ks b.
Proof.
  destruct q as [c in_|c in_|c confirm in_|c in_|c bid actor in_]; cbn [request_record]; intros H; [by left; eauto|right..].
  - destruct (validItems _) as [items|] eqn:E1; [|done].
    destruct (ID (ri_OrderID in_)) as [order|] eqn:E2; [|done]. cbn in H. destruct (ID (ri_Key in_)) as [k|] eqn:E3; simplify_eq/=.
    split; [apply NoDup_singleton|]. exists Reservation, json_reservation. eexists. split; cycle 1.
    + cbn [run_request]. unfold Reserve. rewrite E1, E2, E3. reflexivity.
    + intros x. by apply keeps_reserve_body; [apply idem_frame_writes|].
  - destruct (transition_input in_) as [x|] eqn:E1; simplify_eq/=. split; [apply NoDup_singleton|]. exists Reservation, json_reservation. eexists. split; cycle 1.
    + cbn [run_request]. unfold Transition. rewrite E1. reflexivity.
    + intros y. by apply keeps_transition; [apply idem_frame_writes|].
  - destruct (transition_input in_) as [x|] eqn:E1; simplify_eq/=. split; [apply NoDup_singleton|]. exists Reservation, json_reservation. eexists. split; cycle 1.
    + cbn [run_request]. unfold Return_. rewrite E1. reflexivity.
    + intros y. by apply keeps_returnConfirmed; [apply idem_frame_writes|].
  - destruct (ID bid) as [b'|] eqn:E1; [|done]. cbn in H. destruct (ID actor) as [a|] eqn:E2; [|done]. cbn in H.
    destruct (ID (wi_Key in_)) as [k|] eqn:E3; [|done]. cbn in H. destruct (_ || _) eqn:E4; [done|]. simplify_eq. split.
    { destruct (restKey c); [|apply NoDup_singleton]. apply NoDup_cons. split; [|apply NoDup_singleton]. by intros [= E]%list_elem_of_singleton. }
    exists WasteRecord, json_waste. eexists. split; cycle 1.
    + cbn [run_request]. unfold Waste. rewrite E1, E2, E3. cbv zeta. cbn [wi_Portions wi_Reason wi_Note]. rewrite E4. reflexivity.
    + intros x. apply keeps_waste_body, idem_frame_writes.
Qed.

Lemma success_recorded q ks b o w resp w' : request_record q = Some (ks, b) → keyed q →
  run_request TTL catalog q o w = (inr resp, w') → recorded (w_db w') ks (digest b) resp.
Proof.
  intros Hq Hk H. apply request_record_run in Hq as [(c & in_ & -> & Hc)|(_ & T & J & fn & Hf & Hq)].
  - cbn in H. run_inv H. apply Create_valid in Hrun as (ks' & b' & Hc' & Hrec); [|done]. rewrite Hc in Hc'. by simplify_eq.
  - rewrite Hq in H. run_inv H. by apply mutateKeys_ok in Hrun.
Qed.
(** Another request under a key that is taken. *)
Lemma reuse_refused q' ks' b' k row o2 w2 : reliable o2 → answered (w_db w2) → request_record q' = Some (ks', b') → k ∈ ks' →
  idempotency_records (w_db w2) !! key_of k = Some row → id_RequestHash row ≠ digest b' →
  ∃ w2', run_request TTL catalog q' o2 w2 = (inl ErrConflict, w2') ∧ w_db w2' = w_db w2.
Proof.
  intros Ho Ha Hq' Hk Hrow Hh. apply request_record_run in Hq' as [(c & in_ & -> & Hc)|(Hnd & T & J & fn & Hf & Hq')].
  - destruct (Create_lookup c in_ ks' b' o2 w2 Hc) as (op & key & cont & w1 & -> & Hw1 & E). apply list_elem_of_singleton in Hk as ->.
    destruct (lookup_conflict (T := Batch) op key b' row o2 w1) as (w3 & Hl & Hd); [done|by rewrite Hw1|done|].
    exists w3. split; [|congruence]. cbn [run_request]. apply (bind_err o2). rewrite E. by apply (bind_err o2).
  - destruct (mutateKeys_conflict (T := T) ks' b' fn o2 w2 k row Ho Ha Hnd Hk Hrow Hh) as (w3 & E & Hd).
    exists w3. split; [|done]. rewrite Hq'. by apply (bind_err o2).
Qed.

(** C2.  Exactly once: after a request with an idempotency key has succeeded,
    sending the same request again, however much later and whatever ran in
    between, returns the same response and changes nothing, if the database
    answers.  And the key belongs to that request: another valid request that
    shares a key with it (a creation by the same manager under the REST key, a
    waste record by the same person under either of its keys, a reserve, confirm,
    release or return request) and differs in its body is refused with a conflict
    and changes nothing, as long as the digest of the stored body tells the two
    bodies apart. *)
Theorem exactly_once q o w resp w' o2 w2 :
  keyed q → run_request TTL catalog q o w = (inr resp, w') →
  steps TTL catalog (w_db w') (w_db w2) → reliable o2 →
  (∃ w2', run_request TTL catalog q o2 w2 = (inr resp, w2') ∧ w_db w2' = w_db w2) ∧
  (∀ q' ks b ks' b' k, reachable TTL catalog (w_db w) → digest_inj →
     request_record q = Some (ks, b) → request_record q' = Some (ks', b') → k ∈ ks → k ∈ ks' → b ≠ b' →
     ∃ w2', run_request TTL catalog q' o2 w2 = (inl ErrConflict, w2') ∧ w_db w2' = w_db w2).
Proof.
  intros Hk H Hs Ho. split; [by eapply repeat_answered|]. intros q' ks b ks' b' k Hr Hinj Hq Hq' H1 H2 Hb.
  pose proof (success_recorded q ks b o w resp w' Hq Hk H) as Hrec.
  eapply recorded_grows in Hrec; [|by eapply steps_grow]. eapply reuse_refused; [done| |exact Hq'|exact H2|by apply Hrec|cbn; by intros ?%Hinj].
  eapply (reachable_answered TTL catalog). unfold reachable in *. etrans; [exact Hr|]. eapply rtc_l; [|exact Hs].
  pose proof (step_request TTL catalog (w_db w) q o w eq_refl) as Hst. by rewrite H in Hst.
Qed.

(** ** Atomicity *)

Definition atomic {A} (m : I A) : Prop :=
  ∀ o w e w', (∀ n, or_landed o n = false) → m o w = (inl e, w') → w_db w' = w_db w.

Lemma atomic_ret {A} (a : A) : atomic (mret a).
Proof. by intros o w e w' Ho H. Qed.
Lemma atomic_throw {A} e : atomic (throw e : I A).
Proof. intros o w e' w' Ho H. by injection H as <- <-. Qed.
Lemma atomic_transaction {A} (body : I (txend A)) : atomic (transaction body).
Proof.
  intros o w e w' Ho H. unfold transaction in H. destruct (or_fault _ _); simplify_eq; [done|].
  destruct (body _ _) as [[?|[a|a]] w1]; simplify_eq; [done|]. destruct (w_aborted w1); simplify_eq; [done|].
  destruct (or_fault _ _); simplify_eq. by rewrite Ho.
Qed.
Lemma atomic_bind {A B} (m : I A) (f : A → I B) :
  (∀ d, preserves (λ s, s = d) m) → (∀ a, atomic (f a)) → atomic (m ≫= f).
Proof.
  intros Hm Hf o w e w' Ho H. specialize (Hm (w_db w) o w eq_refl). unfold mbind, M_bind in H.
  destruct (m o w) as [[e1|a] w1]; simplify_eq/=; [done|]. rewrite <-Hm. by eapply Hf.
Qed.
Lemma atomic_mutateKeys `{!JsonResult T} keys input (fn : I T) : atomic (mutateKeys keys input fn).
Proof. unfold mutateKeys. destruct keys; [apply atomic_throw|apply atomic_transaction]. Qed.

Lemma atomic_Create c in_ : atomic (Create catalog c in_).
Proof.
  unfold Create, wrapInvalid, invalid. destruct (currentActor c) as [[]|]; [|apply atomic_throw].
  destruct (_ || _); [apply atomic_throw|]. destruct (ID _); [|apply atomic_throw].
  apply atomic_bind; [intros; preserve|]. intros bid. apply atomic_bind; [intros; unfold batchCode, wrapInvalid; preserve|].
  intros code. destruct (parse_date _); [|apply atomic_throw].
  destruct (ci_UnitCost _); [|apply atomic_throw]. destruct (_ || _); [apply atomic_throw|].
  apply atomic_bind; [intros; unfold lookupRESTMutation; preserve|]. intros [b|]; [apply atomic_ret|].
  destruct catalog as [check|]; [|apply atomic_throw]. destruct (check _); [apply atomic_throw|].
  destruct (restKey c); [apply atomic_mutateKeys|apply atomic_transaction].
Qed.
Lemma atomic_Waste c bid actor in_ : atomic (Waste c bid actor in_).
Proof. unfold Waste, invalid. repeat case_match; solve [apply atomic_throw|apply atomic_mutateKeys]. Qed.

(** ** Events *)

(** When the database answers, the dispatcher tries the oldest due event and marks
    it as published exactly if the broker took it; otherwise it is due again after
    1 to 256 seconds, twice as long with every attempt.  No row is lost and none
    changes but the one that was tried. *)
Lemma dispatch_effect broker o w : reliable o →
  match next_due (or_clock o (S (w_tick w))) (w_db w) with
  | None => (inv_DispatchOne broker o w).1 = inr (false, false) ∧ w_db (inv_DispatchOne broker o w).2 = w_db w
  | Some row =>
      let ok := inv_Publish (broker (ob_Payload row)) in
      let t := or_clock o (S (S (w_tick w))) in
      (inv_DispatchOne broker o w).1 = inr (true, negb ok) ∧
      w_db (inv_DispatchOne broker o w).2 = update_event (ob_ID row)
        (λ x, if ok then tried (Some t) (ob_NextAttemptAt x) x else tried (ob_PublishedAt x) (t + 2 ^ Z.min (ob_Attempts row) 8 * second) x) (w_db w)
  end.
Proof.
  intros Hr. unfold inv_DispatchOne, transaction, mbind, M_bind, stmt. rewrite !Hr. cbn.
  destruct (next_due _ _) as [row|]; cbn; [|done]. destruct (inv_Publish _); cbn; repeat (rewrite Hr; cbn); done.
Qed.
End theorems.

Lemma stock_invariant_witness : Inv (w_db w_reserved) ∧ Inv (w_db w_confirmed) ∧ lifecycle (core (w_db w_reserved)) (core (w_db w_confirmed)).
Proof.
  apply (stock_invariant demo_TTL demo_catalog); [apply demo_reserved|].
  apply rtc_once, demo_confirm_step.
Defined.

Lemma exactly_once_witness :
  (∃ w2', request reserve1 (clock_from (2 * hour)) w_confirmed =
          (inr (RespReservation demo_reservation), w2') ∧ w_db w2' = w_db w_confirmed) ∧
  (∃ w2', request (ReqReserve demo_cx (MkReserveInput order1 key1 [MkItem vanilla 24])) (clock_from (2 * hour)) w_confirmed =
          (inl ErrConflict, w2') ∧ w_db w2' = w_db w_confirmed).
Proof.
  destruct (exactly_once demo_TTL demo_catalog reserve1 (clock_from hour) w_created (RespReservation demo_reservation) w_reserved
    (clock_from (2 * hour)) w_confirmed) as [H1 H2].
  - done.
  - unfold w_reserved. apply run_pair. vm_compute. reflexivity.
  - apply rtc_once, demo_confirm_step.
  - apply clock_from_reliable.
  - split; [exact H1|]. eapply (H2 _ _ _ _ _ (MkKey "reserve" key1)).
    + apply demo_created.
    + apply demo_digest_inj.
    + vm_compute. reflexivity.
    + vm_compute. reflexivity.
    + by left.
    + by left.
    + discriminate.
Defined.
