(* ===== verification/InvSettled.v ===== *)
(** Batch Inventory: what a recorded answer means.  When a confirmation, a
    release or a return has been answered with success, under whatever key and
    however long ago, the reservation is in the state that answer promised or
    in one that follows it. *)

From S2P Require Import Prelude Effects GoStd InvModel InvStore InvOps InvReserve InvInv InvFrame InvProofs InvReserveProofs InvIdem InvSafety InvSystem InvTheorems InvTransport.

Definition settling : list string := ["confirm"; "release"; "return"].

Ltac not_settling :=
  unfold settling; rewrite !not_elem_of_cons; split_and!; first [discriminate|apply not_elem_of_nil].

(** The states a reservation may be in after an operation succeeded on it. *)
Definition settled_by (op : string) (st : ResStatus) : Prop :=
  if bool_decide (op = "confirm") then st = RConfirmed ∨ st = RReturned
  else if bool_decide (op = "return") then st = RReturned
  else st = RReleased ∨ st = RExpired.

Lemma settled_by_next op a b : settled_by op a → rtc res_next a b → settled_by op b.
Proof.
  intros Ha Hr. induction Hr as [|x y z Hxy _ IH]; [done|]. apply IH. unfold settled_by in *.
  destruct (bool_decide (op = "confirm")), (bool_decide (op = "return")), x, y; naive_solver.
Qed.

Section settled.
Context {uuid : UuidLib} {dig : Digest} (Hinj : digest_inj).
Abbreviation I := (M DB IErr).
Context (TTL : Z) (catalog : option (string → option IErr)).

(** The reservation [in_] names, settled by [op]. *)
Definition settled_res (c : Core) (op : string) (in_ : TransitionInput) : Prop :=
  ∃ row, c_res c !! ti_ReservationID in_ = Some row ∧ rr_OrderID row = ti_OrderID in_ ∧
    settled_by op (rr_Status row).

Definition settled_row (c : Core) (i : string * string) (row : IdemRow) : Prop :=
  i.1 ∈ settling → ∀ resp, id_Response row = Some resp →
  ∃ in_, id_RequestHash row = digest (BodyTransition in_) ∧ settled_res c i.1 in_.

Record settled (d : DB) : Prop := {
  se_inv : inv_core (core d);
  se_rows : map_Forall (settled_row (core d)) (idempotency_records d)
}.

Lemma settled_res_later c c' op in_ : lifecycle c c' → settled_res c op in_ → settled_res c' op in_.
Proof.
  intros Hl (row & H1 & H2 & H3). destruct (Hl _ _ H1) as (row' & L1 & L2 & _ & _ & L3).
  exists row'. split_and!; [done|congruence|]. by eapply settled_by_next.
Qed.

Lemma settled_row_later c c' i row : lifecycle c c' → settled_row c i row → settled_row c' i row.
Proof.
  intros Hl Hs Hi resp Hr. destruct (Hs Hi resp Hr) as (in_ & H1 & H2). exists in_.
  split; [done|]. by eapply settled_res_later.
Qed.

(** A change that keeps the life of the reservations and adds only records that
    are settled. *)
Lemma settled_upd d d' :
  settled d → inv_core (core d') → lifecycle (core d) (core d') →
  (∀ i row, idempotency_records d' !! i = Some row →
     idempotency_records d !! i = Some row ∨ settled_row (core d') i row) →
  settled d'.
Proof.
  intros [Hi Hs] Hi' Hl Hrec. split; [done|]. intros i row Hrow. destruct (Hrec i row Hrow) as [Hold|]; [|done].
  eapply settled_row_later; [exact Hl|]. by apply (Hs i row).
Qed.

(** ** Records of other keys stay as they are *)

Lemma claim_keys_other h i keys : ∀ prev claimed replay, i ∉ key_of <$> keys → ∀ x,
  preserves (λ d : DB, idempotency_records d !! i = x) (claim_keys h prev keys claimed replay).
Proof.
  induction keys as [|key keys IH]; intros prev claimed replay Hi x; cbn; [apply preserves_ret|].
  assert (Hi' : i ∉ key_of <$> keys) by set_solver.
  case_bool_decide; [by apply IH|]. apply preserves_bind.
  - apply preserves_stmt. intros t s a s' Hs E. destruct (_ !! (_, _)) eqn:?; simplify_eq; [done|].
    cbn. rewrite lookup_insert_ne; [done|]. unfold key_of in Hi. set_solver.
  - intros n. case_bool_decide; [by apply IH|]. apply preserves_bind; [apply preserves_query|].
    intros [row|]; [|apply preserves_throw]. destruct (negb _); [apply preserves_throw|].
    destruct (id_Response row); [|apply preserves_throw]. destruct replay; [|by apply IH].
    case_bool_decide; [by apply IH|apply preserves_throw].
Qed.

Lemma persist_other resp claimed o w u w' i :
  persist_response resp claimed o w = (inr u, w') → i ∉ key_of <$> claimed →
  idempotency_records (w_db w') !! i = idempotency_records (w_db w) !! i.
Proof. intros [_ H]%persist_ok Hi. by apply H. Qed.

Lemma claimed_subset h keys o w claimed replay w' :
  claim_keys h None keys [] None o w = (inr (claimed, replay), w') → ∀ k, k ∈ claimed → k ∈ keys.
Proof.
  assert (H : ∀ prev acc rep o w res w', claim_keys h prev keys acc rep o w = (inr res, w') →
    ∀ k, k ∈ res.1 → k ∈ acc ∨ k ∈ keys).
  { clear. induction keys as [|key keys IH]; intros prev acc rep o w res w' H k Hk; cbn in H.
    - run_inv H. by left.
    - case_bool_decide; [edestruct IH as [?|?]; [exact H|exact Hk|..]; set_solver|].
      run_inv H. case_bool_decide; [edestruct IH as [?|?]; [exact H|exact Hk|..]; set_solver|].
      run_inv H. destruct (idempotency_records _ !! _) as [row|]; [|done]. destruct (negb _); [done|].
      destruct (id_Response row); [|done]. destruct rep as [prior|].
      + case_bool_decide; [|done]. edestruct IH as [?|?]; [exact H|exact Hk|..]; set_solver.
      + edestruct IH as [?|?]; [exact H|exact Hk|..]; set_solver. }
  intros Hc k Hk. eapply H in Hc; [|exact Hk]. set_solver.
Qed.

Lemma mutateKeys_other `{!JsonResult T} keys input (fn : I T) o w e w' i :
  idem_frame fn → mutateKeys_body keys input fn o w = (inr e, w') → i ∉ key_of <$> keys →
  idempotency_records (w_db w') !! i = idempotency_records (w_db w) !! i.
Proof.
  intros Hfn H Hi. unfold mutateKeys_body in H. run_inv H. destruct a as [claimed replay].
  pose proof (claimed_subset _ _ _ _ _ _ _ Hrun) as Hsub.
  pose proof (claim_keys_other (digest input) i keys None [] None Hi _ o w eq_refl) as Ho. rewrite Hrun in Ho.
  assert (Hi' : i ∉ key_of <$> claimed).
  { intros (k & -> & Hk)%list_elem_of_fmap. apply Hi, list_elem_of_fmap. eauto. }
  destruct replay as [resp|]; [destruct (of_resp resp)|]; run_inv H.
  - destruct claimed; run_inv H; [done|]. by rewrite (persist_other _ _ _ _ _ _ _ Hrun0 Hi').
  - rewrite (persist_other _ _ _ _ _ _ _ Hrun1 Hi'). by rewrite (idem_frame_ok _ _ _ _ _ Hfn Hrun0).
Qed.

(** ** Operations that leave the settling records alone *)

Definition settling_frame {A} (m : I A) : Prop :=
  ∀ f : string * string → option IdemRow,
  preserves (λ d : DB, ∀ i, i.1 ∈ settling → idempotency_records d !! i = f i) m.

Lemma settling_frame_of {A} (m : I A) : idem_frame m → settling_frame m.
Proof.
  intros Hm f o w Hw. specialize (Hm _ o w eq_refl). cbn in Hm. intros i Hi. rewrite Hm. by apply Hw.
Qed.

Lemma mutateKeys_frame `{!JsonResult T} keys input (fn : I T) :
  idem_frame fn → (∀ k, k ∈ keys → mk_operation k ∉ settling) → settling_frame (mutateKeys keys input fn).
Proof.
  intros Hfn Hk f. unfold mutateKeys. destruct keys as [|k0 keys]; [apply preserves_throw|].
  apply preserves_transaction. intros o w a w' Hw _ H _ i Hi.
  rewrite (mutateKeys_other _ _ _ _ _ _ _ i Hfn H); [by apply Hw|].
  intros (k & -> & Hin)%list_elem_of_fmap. rewrite merge_sort_Permutation in Hin. by eapply Hk.
Qed.

(** Keeping the life of the reservations, in any database that has the stock
    invariant. *)
Definition lives {A} (m : I A) : Prop :=
  ∀ c0, preserves (λ d : DB, inv_core (core d) ∧ lifecycle c0 (core d)) m.

Lemma lives_refl c : lifecycle c c.
Proof. by apply lifecycle_same. Qed.

Lemma settled_frame {A} (m : I A) : lives m → settling_frame m → preserves settled m.
Proof.
  intros Hl Hf o w Hs. destruct (Hl (core (w_db w)) o w) as [Hi Hlc]; [split; [by apply Hs|apply lives_refl]|].
  eapply settled_upd; [exact Hs|exact Hi|exact Hlc|]. intros i row Hrow.
  destruct (decide (i.1 ∈ settling)) as [Hin|Hin]; [left|by right; intros ?].
  by rewrite <-(Hf (λ i, idempotency_records (w_db w) !! i) o w (λ i _, eq_refl) i Hin).
Qed.

(** ** Operations that settle *)

Lemma outcome_settled idle from to in_ c c' r op :
  res_outcome idle from to in_ c c' r → (∀ st, idle st → settled_by op st) → (∀ t e, settled_by op (to t e)) →
  settled_res c' op in_.
Proof.
  intros [(row & t & Hrow & Ho & _ & _ & _ & _ & [(_ & -> & Hid)|(_ & Hst & _ & _ & E)])] H1 H2.
  - exists row. auto.
  - exists (restate (r_Status r) t (ti_Reason in_) row). rewrite E, lookup_alter_eq, Hrow.
    split; [done|]. cbn. split; [done|]. rewrite Hst. apply H2.
Qed.

Lemma mutate_settled op key in_ (fn : I Reservation) :
  idem_frame fn → lives (mutate op key (BodyTransition in_) fn) →
  (∀ o w r w', inv_core (core (w_db w)) → fn o w = (inr r, w') → settled_res (core (w_db w')) op in_) →
  preserves settled (mutate op key (BodyTransition in_) fn).
Proof.
  intros Hfn Hl Hpost o w Hs. destruct (Hl (core (w_db w)) o w) as [Hi Hlc]; [split; [by apply Hs|apply lives_refl]|].
  destruct (mutate op key (BodyTransition in_) fn o w) as [res w'] eqn:H. cbn [snd] in *.
  eapply settled_upd; [exact Hs|exact Hi|exact Hlc|]. intros i row Hrow.
  unfold mutate, mutateKeys in H. change (merge_sort key_le [MkKey op key]) with [MkKey op key] in H.
  apply transaction_cases in H as [E|(a & w1 & H & _ & E)]; rewrite E in *; [by left|].
  destruct (decide (i = (op, key))) as [->|Hne].
  2: { left. pose proof (mutateKeys_other _ _ _ _ _ _ _ i Hfn H) as Hi'. cbn [w_db] in Hi'. rewrite <-Hi'; [done|].
    by intros ?%list_elem_of_singleton. }
  pose proof H as Hb. apply mutateKeys_body_ok in Hb as ([Hg _] & Hrec & _); [|done].
  specialize (Hrec (MkKey op key) ltac:(by left)). unfold key_of in Hrec. cbn in Hrec, Hg.
  destruct (idempotency_records (w_db w) !! (op, key)) as [row0|] eqn:Hold.
  { left. pose proof (lookup_weaken _ _ _ _ Hold Hg). cbn in *. congruence. }
  right. intros _ resp _. exists in_. assert (row = MkIdemRow (digest (BodyTransition in_)) (Some (RespReservation a))) as ->.
  { cbn in Hrec. congruence. }
  split; [done|]. unfold mutateKeys_body in H. run_inv H. destruct a0 as [claimed replay].
  cbn [claim_keys] in Hrun. rewrite bool_decide_eq_false_2 in Hrun by done. run_inv Hrun.
  apply insert_idem_ok in Hrun0 as [(_ & -> & E1)|([? Hk] & _)]; [|unfold key_of in Hk; cbn in Hk; congruence].
  rewrite bool_decide_eq_true_2 in Hrun by done. run_inv Hrun. simplify_eq. run_inv H.
  apply quiet_ok in Hrun0; [|apply quiet_persist]. rewrite Hrun0. eapply Hpost; [|exact Hrun]. rewrite E1. apply Hs.
Qed.

(** ** The whole service *)

Lemma create_settled c in_ : preserves settled (Create catalog c in_).
Proof.
  apply settled_frame; [intros c0; apply (Create_keeps _ (lifecycle_stable c0))|].
  assert (Hf : ∀ bid code cost in_, idem_frame (create_batch c bid code cost in_)).
  { intros bid code cost in' x. apply keeps_create_batch, idem_frame_writes. }
  intros f. set (P := λ d : DB, _).
  assert (∀ actor key i bid code cost in_,
    preserves P (mutate ("create_batch:" +:+ actor) key i (create_batch c bid code cost in_))).
  { intros. apply mutateKeys_frame; [apply Hf|]. intros k Hk%list_elem_of_singleton. subst k. cbn.
    not_settling. }
  assert (∀ bid code cost in_, preserves P (transaction (b ← create_batch c bid code cost in_; mret (Commit b)))).
  { intros. apply preserves_transaction. intros o w b w' Hw _ Hb _. run_inv Hb. intros i Hi.
    rewrite (idem_frame_ok _ _ _ _ _ (Hf _ _ _ _) Hrun). by apply Hw. }
  unfold Create, wrapInvalid, invalid, batchCode, lookupRESTMutation. preserve.
Qed.

Lemma waste_settled c bid actor in_ : preserves settled (Waste c bid actor in_).
Proof.
  apply settled_frame; [intros c0; apply (Waste_keeps _ (lifecycle_stable c0))|].
  intros f. unfold Waste, invalid. destruct (ID _); [|apply preserves_throw]. destruct (ID _); [|apply preserves_throw].
  destruct (ID _); [|apply preserves_throw]. destruct (_ || _); [apply preserves_throw|].
  apply mutateKeys_frame; [intros x; apply keeps_waste_body, idem_frame_writes|].
  intros k Hk. assert (Ho : ∃ a, mk_operation k = "waste:" +:+ a ∨ mk_operation k = "rest_waste:" +:+ a).
  { apply elem_of_cons in Hk as [->|Hk]; [by eexists; left|]. destruct (restKey c); [|set_solver].
    apply list_elem_of_singleton in Hk as ->. by eexists; right. }
  destruct Ho as [a [-> | ->]]; not_settling.
Qed.

Lemma reserve_settled c in_ : preserves settled (Reserve TTL c in_).
Proof.
  apply settled_frame; [intros c0; apply (Reserve_keeps _ (lifecycle_stable c0))|].
  intros f. unfold Reserve, invalid. destruct (validItems _); [|apply preserves_throw].
  destruct (ID _); [|apply preserves_throw]. destruct (ID _); [|apply preserves_throw].
  apply mutateKeys_frame; [intros x; by apply keeps_reserve_body; [apply idem_frame_writes|]|].
  intros k Hk%list_elem_of_singleton. subst k. cbn. not_settling.
Qed.

Lemma transition_settled c confirm in_ : preserves settled (Transition c confirm in_).
Proof.
  pose proof (λ c0, Transition_keeps _ (lifecycle_stable c0) c confirm in_) as Hl. fold (lives (Transition c confirm in_)) in Hl.
  unfold Transition, invalid in *. destruct (transition_input in_) as [in1|]; [|apply preserves_throw].
  apply mutate_settled; [intros x; by apply keeps_transition; [apply idem_frame_writes|]|exact Hl|].
  intros o w r w' Hinv H. apply transition_spec in H as [_ Ho]; [|done].
  eapply outcome_settled; [exact Ho|..]; unfold transition_idle, target_status, settled_by; destruct confirm; cbn.
  - naive_solver.
  - naive_solver.
  - intros t e. by left.
  - intros t e. destruct (bool_decide (t < e)); cbn; [by left|by right].
Qed.

Lemma return_settled c in_ : preserves settled (Return_ c in_).
Proof.
  pose proof (λ c0, Return_keeps _ (lifecycle_stable c0) c in_) as Hl. fold (lives (Return_ c in_)) in Hl.
  unfold Return_, invalid in *. destruct (transition_input in_) as [in1|]; [|apply preserves_throw].
  apply mutate_settled; [intros x; by apply keeps_returnConfirmed; [apply idem_frame_writes|]|exact Hl|].
  intros o w r w' Hinv H. apply returnConfirmed_spec in H as [_ Ho]; [|done]. by eapply outcome_settled.
Qed.

Lemma request_settled q : preserves settled (run_request TTL catalog q).
Proof.
  pose proof create_settled. pose proof waste_settled. pose proof reserve_settled.
  pose proof transition_settled. pose proof return_settled. destruct q; cbn [run_request]; preserve.
Qed.

Lemma task_settled k : preserves settled (run_task k).
Proof.
  pose proof idem_frame_writes as Hw. apply settled_frame.
  - intros c0. pose proof (lifecycle_stable c0) as HQ. pose proof (Sweep_keeps _ HQ). pose proof (expireReservation_keeps _ HQ).
    pose proof (expireBatch_keeps _ HQ). pose proof (notifyExpiringBatch_keeps (λ c, inv_core c ∧ lifecycle c0 c)).
    assert (∀ broker, preserves (λ d, inv_core (core d) ∧ lifecycle c0 (core d)) (inv_DispatchOne broker)) by (intros; by apply dispatch_keeps).
    destruct k; cbn -[preserves]; preserve.
  - intros f. assert (Ht : ∀ A (body : I (txend A)), idem_frame body →
      preserves (λ d : DB, ∀ i, i.1 ∈ settling → idempotency_records d !! i = f i) (transaction body)).
    { intros A body Hb. apply preserves_transaction. intros o w a w' Hd _ H _ i Hi.
      rewrite (idem_frame_ok _ _ _ _ _ Hb H). by apply Hd. }
    set (P := λ d : DB, _) in *.
    assert (∀ c id order, preserves P (expireReservation c id order)).
    { intros. apply Ht. intros x. apply preserves_bind; [by apply keeps_transition|intros ?; apply preserves_ret]. }
    assert (∀ c id fl, preserves P (expireBatch c id fl)).
    { intros. apply Ht. intros x. by apply keeps_expire_body. }
    assert (∀ id fl, preserves P (notifyExpiringBatch id fl)).
    { intros. apply Ht. intros x. assert (∀ e t, preserves (λ d : DB, idempotency_records d = x) (insert_outbox e t)).
      { intros e t. by apply keeps_insert_outbox. } unfold lock. preserve. }
    assert (∀ broker, preserves P (inv_DispatchOne broker)) by (intros; by apply dispatch_keeps).
    destruct k; cbn [run_task]; unfold Sweep, invalid, NotifyExpiringBatches; preserve.
Qed.

Lemma steps_settled d d' : steps TTL catalog d d' → settled d → settled d'.
Proof.
  induction 1 as [|x y z Hxy _ IH]; [done|]. intros Hs. apply IH.
  eapply (step_preserves TTL catalog settled); [apply request_settled|apply task_settled|exact Hxy|done].
Qed.

Lemma empty_settled : settled empty_db.
Proof. split; [apply empty_inv|done]. Qed.

(** ** What an answer promises *)

Lemma answered_settled op key in_ (fn : I Reservation) o w r w' :
  op ∈ settling → idem_frame fn → preserves settled (mutate op key (BodyTransition in_) fn) → settled (w_db w) →
  mutate op key (BodyTransition in_) fn o w = (inr r, w') → settled_res (core (w_db w')) op in_.
Proof using Hinj.
  intros Hop Hfn Hp Hs H. pose proof (Hp o w Hs) as Hs'. rewrite H in Hs'.
  unfold mutate in H. apply mutateKeys_ok in H; [|done]. specialize (H (MkKey op key) ltac:(by left)).
  destruct (se_rows _ Hs' _ _ H Hop _ eq_refl) as (in' & E & Hr). cbn in E.
  apply Hinj in E as [= <-]. done.
Qed.

Lemma transition_promise c confirm in_ o w r w' : settled (w_db w) → Transition c confirm in_ o w = (inr r, w') →
  ∃ in1, transition_input in_ = Some in1 ∧ settled_res (core (w_db w')) (if confirm then "confirm" else "release") in1.
Proof using Hinj.
  intros Hs H. pose proof (transition_settled c confirm in_) as Hp. unfold Transition, invalid in *.
  destruct (transition_input in_) as [in1|]; [|done]. exists in1. split; [done|].
  eapply answered_settled in H; [..|exact Hs]; [exact H| |intros x; by apply keeps_transition; [apply idem_frame_writes|]|exact Hp].
  destruct confirm; set_solver.
Qed.

Lemma return_promise c in_ o w r w' : settled (w_db w) → Return_ c in_ o w = (inr r, w') →
  ∃ in1, transition_input in_ = Some in1 ∧ settled_res (core (w_db w')) "return" in1.
Proof using Hinj.
  intros Hs H. pose proof (return_settled c in_) as Hp. unfold Return_, invalid in *.
  destruct (transition_input in_) as [in1|]; [|done]. exists in1. split; [done|].
  eapply answered_settled in H; [..|exact Hs]; [exact H| |intros x; by apply keeps_returnConfirmed; [apply idem_frame_writes|]|exact Hp].
  set_solver.
Qed.
End settled.
