(* ===== verification/InvFefo.v ===== *)
(** Batch Inventory: which stock [Reserve] takes.  The loops of the source are
    shown equal to a greedy allocation over the batches of a flavor in order of
    expiry, from which the order, the totals and the exact condition for
    [ErrStock] follow. *)

From S2P Require Import Prelude Effects GoStd InvModel InvStore InvOps InvReserve InvInv InvFrame InvProofs InvReserveProofs InvIdem InvSafety InvSystem InvDemo.

(** ** The greedy allocation *)

Fixpoint greedy (rows : list Batch) (n : Z) : list Allocation :=
  match rows with
  | [] => []
  | b :: rows =>
      if bool_decide (n = 0) then []
      else MkAllocation (b_FlavorID b) (b_ID b) (Z.min n (b_Available b))
             :: greedy rows (n - Z.min n (b_Available b))
  end.

(** The expiry of a reservation: that of its first batch to expire, but no later
    than the time to live allows. *)
Fixpoint earliest (rows : list Batch) (n e : Z) : Z :=
  match rows with
  | [] => e
  | b :: rows =>
      if bool_decide (n = 0) then e
      else earliest rows (n - Z.min n (b_Available b)) (Z.min (b_ExpiresAt b) e)
  end.

Lemma pick_rows_greedy rows : ∀ n p,
  let '(rest, p') := pick_rows rows n p in
  pk_Allocations p' = pk_Allocations p ++ greedy rows n ∧
  pk_ExpiresAt p' = earliest rows n (pk_ExpiresAt p).
Proof.
  induction rows as [|b rows IH]; intros n p; cbn; [by rewrite app_nil_r|].
  case_bool_decide as Hn.
  - specialize (IH n p). destruct (pick_rows rows n p) as [l p'] eqn:E. subst n.
    destruct IH as [-> ->]. by destruct rows.
  - match goal with |- context [pick_rows rows ?n' ?q] => specialize (IH n' q) end.
    destruct (pick_rows _ _ _) as [l p']. cbn in IH. destruct IH as [-> ->].
    rewrite <-app_assoc. split; [done|]. f_equal. case_bool_decide; lia.
Qed.

(** What is left unserved. *)
Lemma pick_rows_left rows : ∀ n p, 0 ≤ n → (∀ b, b ∈ rows → 0 < b_Available b) →
  (pick_rows rows n p).1 = Z.max 0 (n - sum_by b_Available rows).
Proof.
  induction rows as [|b rows IH]; intros n p Hn Hpos; cbn; [lia|].
  assert (0 < b_Available b) by (apply Hpos; by left).
  assert (0 ≤ sum_by b_Available rows).
  { apply sum_by_nonneg. intros x Hx. assert (0 < b_Available x) by (apply Hpos; by right). lia. }
  case_bool_decide; rewrite IH; try lia; intros x Hx; apply Hpos; by right.
Qed.

Lemma greedy_sum rows : ∀ n, 0 ≤ n → (∀ b, b ∈ rows → 0 < b_Available b) →
  sum_by al_Portions (greedy rows n) = Z.min n (sum_by b_Available rows).
Proof.
  induction rows as [|b rows IH]; intros n Hn Hpos; cbn; [lia|].
  assert (0 < b_Available b) by (apply Hpos; by left).
  assert (0 ≤ sum_by b_Available rows).
  { apply sum_by_nonneg. intros x Hx. assert (0 < b_Available x) by (apply Hpos; by right). lia. }
  case_bool_decide; cbn; [lia|]. rewrite IH; [lia|lia|]. intros x Hx. apply Hpos. by right.
Qed.

(** Every allocation comes from a batch of the list and takes at most what it
    has; the reservation expires no later than that batch. *)
Lemma greedy_elem rows : ∀ n a, 0 ≤ n → (∀ b, b ∈ rows → 0 < b_Available b) → a ∈ greedy rows n →
  ∃ b, b ∈ rows ∧ al_BatchID a = b_ID b ∧ al_FlavorID a = b_FlavorID b ∧ 0 < al_Portions a ≤ b_Available b.
Proof.
  induction rows as [|b rows IH]; intros n a Hn Hpos Ha; cbn in Ha; [set_solver|].
  assert (0 < b_Available b) by (apply Hpos; by left).
  case_bool_decide; [set_solver|]. apply elem_of_cons in Ha as [->|Ha].
  - exists b. cbn. split_and!; auto; [by left|lia|lia].
  - apply IH in Ha as (b' & ? & ?); [|lia|intros x Hx; apply Hpos; by right]. exists b'. split; [by right|done].
Qed.

(** First expired, first out: if a later batch of the list is touched, every
    earlier one is emptied. *)
Lemma greedy_prefix rows : ∀ n i j b1 b2 a, 0 ≤ n → (∀ b, b ∈ rows → 0 < b_Available b) →
  NoDup (b_ID <$> rows) → (i < j)%nat → rows !! i = Some b1 → rows !! j = Some b2 →
  a ∈ greedy rows n → al_BatchID a = b_ID b2 →
  MkAllocation (b_FlavorID b1) (b_ID b1) (b_Available b1) ∈ greedy rows n.
Proof.
  induction rows as [|b rows IH]; intros n i j b1 b2 a Hn Hpos Hnd Hij Hi Hj Ha Hid; [done|].
  assert (0 < b_Available b) by (apply Hpos; by left).
  assert (Hpos' : ∀ x, x ∈ rows → 0 < b_Available x) by (intros x Hx; apply Hpos; by right).
  cbn in Hnd. apply NoDup_cons in Hnd as [Hb Hnd]. destruct j as [|j]; [lia|]. cbn in Hj, Ha |- *.
  case_bool_decide as Hz; [set_solver|]. apply elem_of_cons in Ha as [->|Ha].
  { exfalso. apply Hb. cbn in Hid. rewrite Hid. apply list_elem_of_fmap. exists b2.
    split; [done|]. by eapply list_elem_of_lookup_2. }
  destruct i as [|i]; cbn in Hi.
  - simplify_eq. destruct (decide (n < b_Available b1)).
    + replace (n - Z.min n (b_Available b1)) with 0 in Ha by lia. destruct rows; set_solver.
    + rewrite Z.min_r by lia. by left.
  - right. eapply (IH _ i j); eauto; lia.
Qed.

Section reserve.
Context {uuid : UuidLib} {dig : Digest}.
Abbreviation I := (M DB IErr).

(** What a flavor can still sell at time [t]. *)
Definition stock (flavor : string) (t : Z) (d : DB) : Z := sum_by b_Available (fefo_rows flavor t d).

Lemma fefo_rows_positive flavor t (d : DB) b : b ∈ fefo_rows flavor t d → 0 < b_Available b.
Proof.
  unfold fefo_rows. rewrite merge_sort_Permutation. intros [Hs _]%list_elem_of_filter.
  unfold sellable in Hs. bool_guards. lia.
Qed.

Definition picked (t : Z) (d : DB) (items : list Item) : list Allocation :=
  items ≫= (λ it, greedy (fefo_rows (it_FlavorID it) t d) (it_Portions it)).

Lemma pick_items_picked t items : ∀ p o w p' w',
  (∀ i, i ∈ items → 0 ≤ it_Portions i) →
  fold_m (pick_item t) p items o w = (inr p', w') →
  w_db w' = w_db w ∧ pk_Allocations p' = pk_Allocations p ++ picked t (w_db w) items ∧
  pk_ExpiresAt p' = fold_left (λ e it, earliest (fefo_rows (it_FlavorID it) t (w_db w)) (it_Portions it) e)
    items (pk_ExpiresAt p) ∧
  (∀ i, i ∈ items → it_Portions i ≤ stock (it_FlavorID i) t (w_db w)).
Proof.
  induction items as [|i items IH]; intros p o w p' w' Hpos H; cbn in H.
  { run_inv H. split_and!; auto; [by rewrite app_nil_r|set_solver]. }
  apply bind_ok in H as (p1 & w1 & H1 & H). unfold pick_item in H1. run_inv H1.
  pose proof (pick_rows_greedy (fefo_rows (it_FlavorID i) t (w_db w)) (it_Portions i) p) as Hg.
  pose proof (pick_rows_left (fefo_rows (it_FlavorID i) t (w_db w)) (it_Portions i) p
    (Hpos i ltac:(by left)) (fefo_rows_positive _ _ _)) as Hl.
  destruct (pick_rows _ _ p) as [needed p2]. cbn in Hl. case_bool_decide; run_inv H1.
  apply IH in H as (E1 & E2 & E3 & E4); [|intros x Hx; apply Hpos; by right]. cbn [w_db] in *.
  destruct Hg as [G1 G2]. split_and!; auto.
  - rewrite E2, G1. cbn. by rewrite app_assoc.
  - by rewrite E3, G2.
  - intros x [->|Hx]%elem_of_cons; [|by apply E4]. unfold stock. lia.
Qed.

Lemma pick_items_run t items : ∀ p o w, reliable o → w_aborted w = false →
  (∀ i, i ∈ items → 0 ≤ it_Portions i) →
  (∀ i, i ∈ items → it_Portions i ≤ stock (it_FlavorID i) t (w_db w)) →
  ∃ p' w', fold_m (pick_item t) p items o w = (inr p', w') ∧ w_aborted w' = false.
Proof.
  induction items as [|i items IH]; intros p o w Ho Ha Hpos Hst; cbn; [by eexists _, _|].
  pose proof (pick_rows_left (fefo_rows (it_FlavorID i) t (w_db w)) (it_Portions i) p
    (Hpos i ltac:(by left)) (fefo_rows_positive _ _ _)) as Hl.
  pose proof (Hst i ltac:(by left)) as Hi. unfold stock in Hi.
  destruct (pick_rows _ _ p) as [needed p2] eqn:E. cbn in Hl.
  assert (Hstep : pick_item t p i o w = (inr p2, World (w_db w) (S (w_tick w)) false (w_locks w))).
  { unfold pick_item. erewrite bind_run by (by apply query_run). rewrite E. rewrite bool_decide_eq_false_2 by lia. done. }
  erewrite bind_run by exact Hstep. apply IH; auto; intros x Hx; [apply Hpos|apply Hst]; by right.
Qed.

Lemma pick_items_short t items : ∀ p o w, reliable o → w_aborted w = false →
  (∀ i, i ∈ items → 0 ≤ it_Portions i) →
  (∃ i, i ∈ items ∧ stock (it_FlavorID i) t (w_db w) < it_Portions i) →
  ∃ w', fold_m (pick_item t) p items o w = (inl ErrStock, w').
Proof.
  induction items as [|i items IH]; intros p o w Ho Ha Hpos (x & Hx & Hlt); [set_solver|]. cbn.
  pose proof (pick_rows_left (fefo_rows (it_FlavorID i) t (w_db w)) (it_Portions i) p
    (Hpos i ltac:(by left)) (fefo_rows_positive _ _ _)) as Hl.
  destruct (pick_rows _ _ p) as [needed p2] eqn:E. cbn in Hl.
  assert (Hstep : pick_item t p i o w = (if bool_decide (needed > 0) then inl ErrStock else inr p2,
    World (w_db w) (S (w_tick w)) false (w_locks w))).
  { unfold pick_item. erewrite bind_run by (by apply query_run). rewrite E. by case_bool_decide. }
  case_bool_decide.
  - eexists. by eapply bind_err.
  - erewrite bind_run by exact Hstep. apply IH; auto; [intros y Hy; apply Hpos; by right|].
    exists x. split; [|done]. apply elem_of_cons in Hx as [->|]; [|done]. unfold stock in Hlt. lia.
Qed.

(** ** Reserve *)

(** [m] does not change the database. *)
Definition reads {A} (m : I A) : Prop := ∀ d, preserves (λ s, s = d) m.
Lemma reads_ok {A} (m : I A) o w r w' : reads m → m o w = (r, w') → w_db w' = w_db w.
Proof. intros Hm H. specialize (Hm _ o w eq_refl). by rewrite H in Hm. Qed.
Lemma reads_lock k : reads (lock k).
Proof. intros d. unfold lock. preserve. Qed.
Lemma reads_now : reads now.
Proof. intros d. unfold now. preserve. Qed.
Lemma reads_lockFlavors ids : reads (lockFlavors ids).
Proof.
  intros d. unfold lockFlavors. generalize (merge_sort String.le ids) as l. generalize ""%string as prev.
  intros prev l. revert prev. unfold lock. induction l as [|i l IH]; intros prev; cbn; preserve.
Qed.

(** A successful body picked its allocations from the database it started on. *)
Lemma reserve_body_picks TTL cx in_ o w r w' :
  reserve_body TTL cx in_ o w = (inr r, w') →
  ∃ p w1 w2, 0 < TTL ∧ w_db w1 = w_db w ∧
    fold_m (pick_item (r_CreatedAt r)) (MkPicking ∅ [] (r_CreatedAt r + TTL)) (ri_Items in_) o w1 = (inr p, w2) ∧
    r_Allocations r = pk_Allocations p ∧ r_ExpiresAt r = pk_ExpiresAt p ∧
    r_OrderID r = ri_OrderID in_ ∧ r_Status r = RActive.
Proof.
  intros H. unfold reserve_body, invalid in H. run_inv H.
  destruct (order_reserved _ _); run_inv H. case_bool_decide; run_inv H. destruct (negb _); run_inv H.
  apply reads_ok in Hrun; [|apply reads_lock]. apply reads_ok in Hrun0; [|apply reads_lockFlavors].
  apply reads_ok in Hrun1; [|apply reads_now]. cbn [w_db] in *.
  eexists _, _, _. split; [lia|]. split; [|split; [exact Hrun2|done]]. cbn. congruence.
Qed.

Lemma earliest_le rows : ∀ n e, earliest rows n e ≤ e.
Proof.
  induction rows as [|b rows IH]; intros n e; cbn; [lia|]. case_bool_decide; [lia|].
  etrans; [apply IH|]. lia.
Qed.
Lemma earliest_items_le t (d : DB) items : ∀ e,
  fold_left (λ e it, earliest (fefo_rows (it_FlavorID it) t d) (it_Portions it) e) items e ≤ e.
Proof.
  induction items as [|i items IH]; intros e; cbn; [lia|]. etrans; [apply IH|]. apply earliest_le.
Qed.

#[global] Instance fefo_total : Total fefo.
Proof. unfold fefo. apply _. Qed.
#[global] Instance fefo_trans : Transitive fefo.
Proof. unfold fefo. apply _. Qed.
Lemma fefo_rows_sorted flavor t (d : DB) : StronglySorted fefo (fefo_rows flavor t d).
Proof. apply (StronglySorted_merge_sort fefo). Qed.

Lemma fefo_flavor flavor t (d : DB) b : b ∈ fefo_rows flavor t d ↔
  b ∈ br_batch <$> batch_rows d ∧ sellable flavor t b = true.
Proof. unfold fefo_rows. rewrite merge_sort_Permutation, list_elem_of_filter. naive_solver. Qed.

Lemma sellable_flavor flavor t b : sellable flavor t b = true → b_FlavorID b = flavor.
Proof. unfold sellable. intros H. by bool_guards. Qed.

Lemma picked_elem t (d : DB) items a : (∀ i, i ∈ items → 0 ≤ it_Portions i) → a ∈ picked t d items →
  ∃ i b, i ∈ items ∧ a ∈ greedy (fefo_rows (it_FlavorID i) t d) (it_Portions i) ∧
    b ∈ fefo_rows (it_FlavorID i) t d ∧ al_BatchID a = b_ID b ∧ al_FlavorID a = it_FlavorID i ∧
    b_FlavorID b = it_FlavorID i ∧ 0 < al_Portions a ≤ b_Available b.
Proof.
  intros Hpos Ha. unfold picked in Ha. apply list_elem_of_bind in Ha as (i & Hg & Hi).
  destruct (greedy_elem _ _ _ (Hpos i Hi) (fefo_rows_positive _ _ _) Hg) as (b & Hb & E1 & E2 & E3).
  pose proof Hb as [_ Hs%sellable_flavor]%fefo_flavor. exists i, b. split_and!; auto; congruence || lia.
Qed.

(** The portions picked for each item are the portions it asked for. *)
Lemma picked_item_sum t (d : DB) items i :
  NoDup (it_FlavorID <$> items) → (∀ i, i ∈ items → 0 ≤ it_Portions i) → i ∈ items →
  it_Portions i ≤ stock (it_FlavorID i) t d →
  sum_where (λ a, bool_decide (al_FlavorID a = it_FlavorID i)) al_Portions (picked t d items) = it_Portions i.
Proof.
  intros Hnd Hpos Hi Hst. apply list_elem_of_split in Hi as (l1 & l2 & ->). unfold picked.
  rewrite bind_app, bind_cons, !sum_where_app.
  assert (Hother : ∀ l, (∀ x, x ∈ l → x ∈ l1 ++ i :: l2) → it_FlavorID i ∉ it_FlavorID <$> l →
    sum_where (λ a, bool_decide (al_FlavorID a = it_FlavorID i)) al_Portions (picked t d l) = 0).
  { intros l Hsub Hni. apply sum_where_none. intros a Ha.
    apply picked_elem in Ha as (x & b & Hx & _ & _ & _ & -> & _); [|intros x Hx; apply Hpos; auto].
    apply bool_decide_eq_false. intros E. apply Hni. rewrite <-E. apply list_elem_of_fmap. eauto. }
  rewrite fmap_app, fmap_cons in Hnd. apply NoDup_app in Hnd as (_ & H1 & [H2 _]%NoDup_cons).
  unfold picked in Hother. rewrite (Hother l1), (Hother l2); [|set_solver..].
  unfold sum_where. rewrite (sum_by_ext _ al_Portions (greedy _ _)).
  - rewrite greedy_sum; [unfold stock in Hst; lia|apply Hpos; set_solver|apply fefo_rows_positive].
  - intros a Ha. destruct (greedy_elem _ _ _ (Hpos i ltac:(set_solver)) (fefo_rows_positive _ _ _) Ha)
      as (b & [_ Hs%sellable_flavor]%fefo_flavor & _ & -> & _). by rewrite bool_decide_eq_true_2.
Qed.

(** What a reservation under a new key holds. *)
Lemma reserve_holds TTL cx in_ key o w r w' :
  Inv (w_db w) → ID (ri_Key in_) = Some key →
  idempotency_records (w_db w) !! ("reserve"%string, key) = None →
  Reserve TTL cx in_ o w = (inr r, w') →
  let t := r_CreatedAt r in
  ∃ items, validItems (ri_Items in_) = Some items ∧
  (∀ i, i ∈ items →
     sum_where (λ a, bool_decide (al_FlavorID a = it_FlavorID i)) al_Portions (r_Allocations r) = it_Portions i) ∧
  (∀ a, a ∈ r_Allocations r → ∃ b, b ∈ br_batch <$> batch_rows (w_db w) ∧ b_ID b = al_BatchID a ∧
     sellable (al_FlavorID a) t b = true ∧ 0 < al_Portions a ≤ b_Available b ∧ r_ExpiresAt r ≤ b_ExpiresAt b) ∧
  t < r_ExpiresAt r ≤ t + TTL ∧
  (∀ a b1 b2, a ∈ r_Allocations r → b1 ∈ br_batch <$> batch_rows (w_db w) →
     b2 ∈ br_batch <$> batch_rows (w_db w) → al_BatchID a = b_ID b2 →
     sellable (al_FlavorID a) t b1 = true → fefo b1 b2 → b1 ≠ b2 →
     MkAllocation (b_FlavorID b1) (b_ID b1) (b_Available b1) ∈ r_Allocations r).
Proof.
  intros Hinv Hkey Hfree H t. unfold Reserve, invalid in H. rewrite Hkey in H.
  destruct (validItems _) as [items|] eqn:Hv; [|run_inv H]. destruct (ID (ri_OrderID in_)) as [order|]; [|run_inv H].
  apply mutate_fresh_ok in H as (w1 & w2 & H & Hdb); [|done]. exists items. split; [done|].
  apply reserve_body_picks in H as (p & w3 & w4 & Httl & Hw3 & Hp & -> & -> & _). fold t in Hp.
  apply validItems_spec in Hv as (N1 & N2 & _). cbn [ri_Items] in *.
  set (sorted := merge_sort item_le items) in *.
  assert (Hs : sorted ≡ₚ items) by apply merge_sort_Permutation.
  assert (Hpos : ∀ i, i ∈ sorted → 0 ≤ it_Portions i) by (intros i; rewrite Hs; intros Hi%N2; lia).
  assert (Hrows : ∀ f, fefo_rows f t (w_db w3) = fefo_rows f t (w_db w)) by (intros f; by rewrite Hw3, Hdb).
  assert (Hcore : core (w_db w3) = core (w_db w)) by (by rewrite Hw3, Hdb).
  rewrite <-Hs in N1.
  pose proof (pick_items_ok t sorted N1 Hpos _ o w3 _ _ ltac:(by unfold Inv in Hinv; rewrite Hcore)
    (start_ok _ t (t + TTL) ltac:(lia)) ltac:(cbn; set_solver) Hp) as (_ & [_ P2 P3] & _).
  apply pick_items_picked in Hp as (_ & E2 & E3 & E4); [|done]. cbn [pk_Allocations pk_ExpiresAt app] in *.
  assert (Hpk : picked t (w_db w3) sorted = picked t (w_db w) sorted).
  { unfold picked. apply list_bind_ext; [|done]. intros i. by rewrite Hrows. }
  rewrite Hpk in E2. rewrite E2. split_and!.
  - intros i Hi. rewrite <-Hs in Hi. apply picked_item_sum; auto. specialize (E4 i Hi). unfold stock in *.
    by rewrite Hrows in E4.
  - intros a Ha. pose proof Ha as Hin. rewrite <-E2 in Hin. destruct (P2 a Hin) as [_ (b0 & L0 & I0 & F0 & _ & X0 & _)].
    apply picked_elem in Ha as (i & b & Hi & _ & [Hb Hsl]%fefo_flavor & EB & EF & _ & Hq); [|done].
    exists b. rewrite EF. split_and!; auto; try lia.
    apply elem_of_batch_rows in Hb as [id Hlk]. destruct (gi_batches _ _ _ Hinv _ _ Hlk) as [Hid _ _ _ _ _ _ _ _].
    rewrite Hcore, EB, Hid, Hlk in L0. by injection L0 as ->.
  - done.
  - rewrite E3. apply earliest_items_le.
  - intros a b1 b2 Ha Hb1 Hb2 EB Hs1 Hle Hne.
    apply picked_elem in Ha as (i & b & Hi & Hg & Hb & EB' & EF & _); [|done].
    assert (Hrow1 : b1 ∈ fefo_rows (it_FlavorID i) t (w_db w)) by (apply fefo_flavor; rewrite <-EF; done).
    pose proof (fefo_rows_ok (it_FlavorID i) t (w_db w) _ _ Hinv) as [Hnd Hr].
    assert (b = b2) as ->.
    { apply elem_of_batch_rows in Hb2 as [id2 L2]. destruct (gi_batches _ _ _ Hinv _ _ L2) as [I2 _ _ _ _ _ _ _ _].
      destruct (Hr b Hb) as [Lb _]. rewrite <-EB', EB, I2, L2 in Lb. by injection Lb. }
    apply list_elem_of_lookup in Hrow1 as [n1 L1]. apply list_elem_of_lookup in Hb as [n2 L2].
    apply list_elem_of_bind. exists i. split; [|done].
    destruct (decide (n1 < n2)%nat) as [Hlt|Hge]; [by eapply greedy_prefix; eauto using fefo_rows_positive|].
    exfalso. apply Hne. destruct (decide (n1 = n2)) as [->|]; [congruence|].
    assert (Hback : fefo b2 b1).
    { eapply (StronglySorted_lookup _ _ n2 n1); [|lia|done..]. apply fefo_rows_sorted. }
    pose proof (lex3_anti _ _ _ _ _ Hle Hback) as Hid.
    destruct (Hr b1) as [L _]; [by eapply list_elem_of_lookup_2|].
    destruct (Hr b2) as [L' _]; [by eapply list_elem_of_lookup_2|]. rewrite Hid, L' in L. by injection L.
Qed.

(** ** When Reserve succeeds *)

Lemma runs_insert_outbox e t : runs (insert_outbox e t).
Proof. apply runs_stmt_ok. eauto. Qed.
Lemma runs_movement c b r k n t : runs (movement c b r k n t).
Proof. unfold movement. always_runs. Qed.
Lemma runs_saveBatch b t : runs (saveBatch b t).
Proof. unfold saveBatch. always_runs. Qed.
Lemma runs_lockFlavors ids : runs (lockFlavors ids).
Proof.
  unfold lockFlavors. generalize (merge_sort String.le ids) as l. generalize ""%string as prev.
  intros prev l. revert prev. unfold lock. induction l as [|i l IH]; intros prev; cbn; always_runs.
Qed.
Hint Resolve runs_insert_outbox runs_movement runs_saveBatch runs_lockFlavors : runs.
Lemma runs_check fid t : runs (CheckAndNotifyLowStock fid t).
Proof. unfold CheckAndNotifyLowStock. always_runs. Qed.
Lemma runs_write_allocations c rid bs t l : ∀ i, runs (write_allocations c rid bs t i l).
Proof. induction l as [|a l IH]; intros i; cbn; always_runs. Qed.
Hint Resolve runs_check runs_write_allocations : runs.

Lemma earliest_gt rows t : ∀ n e, (∀ b, b ∈ rows → t < b_ExpiresAt b) → t < e → t < earliest rows n e.
Proof.
  induction rows as [|b rows IH]; intros n e Hb He; cbn; [done|]. case_bool_decide; [done|].
  assert (t < b_ExpiresAt b) by (apply Hb; by left).
  apply IH; [|lia]. intros x Hx. apply Hb. by right.
Qed.
Lemma earliest_items_gt t (d : DB) items : ∀ e, t < e →
  t < fold_left (λ e it, earliest (fefo_rows (it_FlavorID it) t d) (it_Portions it) e) items e.
Proof.
  induction items as [|i items IH]; intros e He; cbn; [done|]. apply IH, earliest_gt; [|done].
  intros b [_ Hs]%fefo_flavor. unfold sellable in Hs. by bool_guards.
Qed.

Section complete.
Context (TTL : Z) (cx : Ctx) (in_ : ReserveInput) (o : oracle) (w : world DB) (t : Z).
Context (Ho : reliable o) (Hclock : ∀ n, or_clock o n = t) (Httl : 0 < TTL) (Ha : w_aborted w = false).
Context (Huuid : ∀ n, or_uuid o n ≠ ""%string ∧ reservations (w_db w) !! or_uuid o n = None).
Context (Horder : order_reserved (ri_OrderID in_) (w_db w) = false).
Context (Hpos : ∀ i, i ∈ ri_Items in_ → 0 ≤ it_Portions i).

(** The statements of the body before the stock is picked. *)
Lemma reserve_prelude : ∃ w1, w_db w1 = w_db w ∧ w_aborted w1 = false ∧
  reserve_body TTL cx in_ o w =
  (rid ← new_uuid;
   p ← fold_m (pick_item t) (MkPicking ∅ [] (t + TTL)) (ri_Items in_);
   let r := MkReservation rid (ri_OrderID in_) RActive (pk_Allocations p) t (pk_ExpiresAt p) in
   current ← now;
   if negb (bool_decide (current < r_ExpiresAt r)) then throw ErrState
   else
     insert_reservation r ;;
     write_allocations cx rid (pk_Batches p) current 0 (r_Allocations r) ;;
     for_each (ri_Items in_) (λ item, _ ← CheckAndNotifyLowStock (it_FlavorID item) current; mret tt) ;;
     mret r) o w1.
Proof using Ho Hclock Httl Ha Horder.
  set (w0 := World (w_db w) (S (S (w_tick w))) false (w_locks w ++ ["order:" +:+ ri_OrderID in_])).
  destruct (runs_lockFlavors (it_FlavorID <$> ri_Items in_) o w0 Ho eq_refl) as (u & w1 & E1 & H1).
  pose proof (reads_ok _ _ _ _ _ (reads_lockFlavors _) E1) as Hd.
  exists (World (w_db w1) (S (w_tick w1)) false (w_locks w1)). split_and!; [done|done|].
  unfold reserve_body. erewrite bind_run by (by apply lock_run). erewrite bind_run by (by apply query_run).
  cbn [w_db w_tick w_locks]. rewrite Horder. erewrite bind_run by exact E1.
  erewrite bind_run by (by apply db_now_run). rewrite bool_decide_eq_false_2, Hclock by lia. done.
Qed.

Lemma reserve_body_short :
  (∃ i, i ∈ ri_Items in_ ∧ stock (it_FlavorID i) t (w_db w) < it_Portions i) →
  ∃ w', reserve_body TTL cx in_ o w = (inl ErrStock, w').
Proof using All.
  intros Hs. destruct reserve_prelude as (w1 & Hd & Ha1 & ->). erewrite bind_run by reflexivity.
  destruct (pick_items_short t (ri_Items in_) (MkPicking ∅ [] (t + TTL)) o
    (World (w_db w1) (S (w_tick w1)) (w_aborted w1) (w_locks w1))) as [w2 E]; auto; [by cbn; rewrite Hd|].
  eexists. eapply bind_err. exact E.
Qed.

Lemma reserve_body_enough :
  (∀ i, i ∈ ri_Items in_ → it_Portions i ≤ stock (it_FlavorID i) t (w_db w)) →
  ∃ r w', reserve_body TTL cx in_ o w = (inr r, w') ∧ w_aborted w' = false.
Proof using All.
  intros Hs. destruct reserve_prelude as (w1 & Hd & Ha1 & ->). erewrite bind_run by reflexivity.
  destruct (pick_items_run t (ri_Items in_) (MkPicking ∅ [] (t + TTL)) o
    (World (w_db w1) (S (w_tick w1)) (w_aborted w1) (w_locks w1))) as (p & w2 & E & Ha2); auto; [by cbn; rewrite Hd|].
  erewrite bind_run by exact E. pose proof E as (Hd2 & _ & Hexp & _)%pick_items_picked; [|done].
  cbn [w_db pk_ExpiresAt] in *. cbv zeta. erewrite bind_run by (by apply db_now_run). rewrite Hclock.
  cbn [r_ExpiresAt]. rewrite bool_decide_eq_true_2 by (rewrite Hexp; apply earliest_items_gt; lia). cbn [negb].
  destruct (Huuid (w_tick w1)) as [Hne Hfree]. erewrite bind_run.
  2: { apply stmt_run; [done..|]. cbn [w_db r_ID r_OrderID]. rewrite Hd2, Hd.
    rewrite bool_decide_eq_false_2 by done. rewrite bool_decide_eq_false_2 by (rewrite Hfree; by intros [? ?]).
    unfold order_reserved in Horder. rewrite Horder. reflexivity. }
  match goal with |- ∃ r w', ?m o ?w3 = _ ∧ _ => assert (Hr : runs m); [|by apply Hr] end. always_runs.
Qed.
End complete.

(** When it succeeds. *)
Lemma reserve_decides TTL cx in_ items order key o w t :
  reliable o → (∀ n, or_clock o n = t) → 0 < TTL →
  (∀ n, or_uuid o n ≠ ""%string ∧ reservations (w_db w) !! or_uuid o n = None) →
  validItems (ri_Items in_) = Some items → ID (ri_OrderID in_) = Some order → ID (ri_Key in_) = Some key →
  order_reserved order (w_db w) = false → idempotency_records (w_db w) !! ("reserve"%string, key) = None →
  ((∃ i, i ∈ items ∧ stock (it_FlavorID i) t (w_db w) < it_Portions i) →
     (Reserve TTL cx in_ o w).1 = inl ErrStock) ∧
  ((∀ i, i ∈ items → it_Portions i ≤ stock (it_FlavorID i) t (w_db w)) →
     ∃ r, (Reserve TTL cx in_ o w).1 = inr r).
Proof.
  intros Ho Hclock Httl Huuid Hv Hord Hkey Hres Hfree.
  unfold Reserve. rewrite Hv, Hord, Hkey. pose proof (validItems_spec _ _ Hv) as (_ & N2 & _).
  set (in' := MkReserveInput order key (merge_sort item_le items)).
  assert (Hin : ∀ i, i ∈ ri_Items in' ↔ i ∈ items) by (intros i; cbn; by rewrite merge_sort_Permutation).
  assert (Hpos : ∀ i, i ∈ ri_Items in' → 0 ≤ it_Portions i) by (intros i Hi%Hin%N2; lia).
  set (w1 := World (claimed_db "reserve" key (BodyReserve in') (w_db w)) (S (S (w_tick w))) false []).
  split; intros Hs.
  - destruct (reserve_body_short TTL cx in' o w1 t) as [w2 E]; try done.
    { destruct Hs as (i & Hi & Hlt). exists i. split; [by apply Hin|done]. }
    destruct (mutate_fresh_err "reserve" key (BodyReserve in') _ o w Ho Hfree _ _ E) as [w' ->]. done.
  - destruct (reserve_body_enough TTL cx in' o w1 t) as (r & w2 & E & Ha); try done.
    { intros i Hi%Hin. by apply Hs. }
    destruct (mutate_fresh_run "reserve" key (BodyReserve in') (reserve_body TTL cx in') o w Ho Hfree r w2) as (w' & E' & _); try done.
    { intros x. by apply keeps_reserve_body; [apply idem_frame_writes|]. }
    exists r. by rewrite E'.
Qed.

(** C3.  Reserving stock under a new key.  A reservation that is made holds for
    every item exactly the portions it asked for, each allocation from a batch
    of the flavor that was ACTIVE, not expired and had that much available; it
    expires after it is made, no later than the time to live and no later than
    any of its batches; and stock leaves in order of expiry, so a batch is
    touched only when every sellable batch of the flavor that expires before it
    is emptied.  And when the database answers, it is made exactly when every
    flavor has enough sellable stock at that moment; otherwise the request is
    refused for lack of stock. *)
Theorem reserve_fefo TTL cx in_ items order key o w :
  Inv (w_db w) → validItems (ri_Items in_) = Some items → ID (ri_OrderID in_) = Some order → ID (ri_Key in_) = Some key →
  idempotency_records (w_db w) !! ("reserve"%string, key) = None →
  (∀ r w', Reserve TTL cx in_ o w = (inr r, w') → let t := r_CreatedAt r in
     (∀ i, i ∈ items →
        sum_where (λ a, bool_decide (al_FlavorID a = it_FlavorID i)) al_Portions (r_Allocations r) = it_Portions i) ∧
     (∀ a, a ∈ r_Allocations r → ∃ b, b ∈ br_batch <$> batch_rows (w_db w) ∧ b_ID b = al_BatchID a ∧
        sellable (al_FlavorID a) t b = true ∧ 0 < al_Portions a ≤ b_Available b ∧ r_ExpiresAt r ≤ b_ExpiresAt b) ∧
     t < r_ExpiresAt r ≤ t + TTL ∧
     (∀ a b1 b2, a ∈ r_Allocations r → b1 ∈ br_batch <$> batch_rows (w_db w) →
        b2 ∈ br_batch <$> batch_rows (w_db w) → al_BatchID a = b_ID b2 →
        sellable (al_FlavorID a) t b1 = true → fefo b1 b2 → b1 ≠ b2 →
        MkAllocation (b_FlavorID b1) (b_ID b1) (b_Available b1) ∈ r_Allocations r)) ∧
  (∀ t, reliable o → (∀ n, or_clock o n = t) → 0 < TTL →
     (∀ n, or_uuid o n ≠ ""%string ∧ reservations (w_db w) !! or_uuid o n = None) → order_reserved order (w_db w) = false →
     ((∃ i, i ∈ items ∧ stock (it_FlavorID i) t (w_db w) < it_Portions i) → (Reserve TTL cx in_ o w).1 = inl ErrStock) ∧
     ((∀ i, i ∈ items → it_Portions i ≤ stock (it_FlavorID i) t (w_db w)) → ∃ r, (Reserve TTL cx in_ o w).1 = inr r)).
Proof.
  intros Hinv Hv Hord Hkey Hfree. split; [|intros; by eapply reserve_decides].
  intros r w' H. destruct (reserve_holds TTL cx in_ key o w r w' Hinv Hkey Hfree H) as (items' & Hv' & Hrest).
  assert (items' = items) as -> by congruence. exact Hrest.
Qed.
End reserve.

(** A clock that stands still. *)
Definition clock_at (t : Z) : oracle := Oracle (λ _, None) (λ _, false) (λ _, t) (λ n, demo_id (100 + N.of_nat n)).

Lemma reserve_fefo_witness :
  (∀ i, i ∈ [MkItem vanilla 25] → sum_where (λ a, bool_decide (al_FlavorID a = it_FlavorID i)) al_Portions
     (r_Allocations demo_reservation) = it_Portions i) ∧
  (Reserve demo_TTL demo_cx (MkReserveInput order1 key1 [MkItem vanilla 51]) (clock_at (2 * hour)) w_created).1 = inl ErrStock ∧
  ∃ r, (Reserve demo_TTL demo_cx (MkReserveInput order1 key1 [MkItem vanilla 50]) (clock_at (2 * hour)) w_created).1 = inr r.
Proof.
  assert (Hinv : Inv (w_db w_created)) by apply (reachable_inv demo_TTL demo_catalog), demo_created.
  assert (Hres : reservations (w_db w_created) = ∅) by (vm_compute; reflexivity).
  assert (Hord : order_reserved order1 (w_db w_created) = false) by (vm_compute; reflexivity).
  assert (Hkey : idempotency_records (w_db w_created) !! ("reserve"%string, key1) = None) by (vm_compute; reflexivity).
  assert (Hitems : ∀ n, In n [25; 50; 51] → validItems [MkItem vanilla n] = Some [MkItem vanilla n])
    by (intros n [<-|[<-|[<-|[]]]]; vm_compute; reflexivity).
  assert (Hid1 : ID order1 = Some order1) by (vm_compute; reflexivity).
  assert (Hid2 : ID key1 = Some key1) by (vm_compute; reflexivity).
  assert (Hids : ∀ n, or_uuid (clock_at (2 * hour)) n ≠ ""%string ∧
    reservations (w_db w_created) !! or_uuid (clock_at (2 * hour)) n = None).
  { intros n. split; [discriminate|]. rewrite Hres. apply lookup_empty. }
  split_and!.
  - eapply (reserve_fefo demo_TTL demo_cx reserve25 [MkItem vanilla 25] order1 key1 (clock_from hour) w_created Hinv
      (Hitems 25 ltac:(by left)) Hid1 Hid2 Hkey). apply run_pair. vm_compute. reflexivity.
  - destruct (reserve_fefo demo_TTL demo_cx (MkReserveInput order1 key1 [MkItem vanilla 51]) [MkItem vanilla 51] order1 key1 (clock_at (2 * hour)) w_created
      Hinv (Hitems 51 ltac:(by right; right; left)) Hid1 Hid2 Hkey) as [_ H]. destruct (H (2 * hour) (λ _, eq_refl) (λ _, eq_refl) eq_refl Hids Hord) as [H' _]. apply H'.
    exists (MkItem vanilla 51). split; [by left|]. vm_compute. reflexivity.
  - destruct (reserve_fefo demo_TTL demo_cx (MkReserveInput order1 key1 [MkItem vanilla 50]) [MkItem vanilla 50] order1 key1 (clock_at (2 * hour)) w_created
      Hinv (Hitems 50 ltac:(by right; left)) Hid1 Hid2 Hkey) as [_ H]. destruct (H (2 * hour) (λ _, eq_refl) (λ _, eq_refl) eq_refl Hids Hord) as [_ H']. apply H'.
    intros i Hi. apply list_elem_of_singleton in Hi as ->. vm_compute. discriminate.
Defined.
