(* ===== verification/InvLive.v ===== *)
(** Batch Inventory: settling a reservation cannot get stuck.  The checks on
    reserved and sold balances in the loops of [transition] and
    [returnConfirmed] never fire in a reachable database. *)

From S2P Require Import Prelude Effects GoStd InvModel InvStore InvOps InvReserve InvInv InvFrame InvProofs InvReserveProofs InvIdem InvSafety InvSystem InvDemo InvFefo.

Lemma sum_by_le {A} (f g : A → Z) l : (∀ x, x ∈ l → f x ≤ g x) → sum_by f l ≤ sum_by g l.
Proof.
  induction l as [|x l IH]; cbn; intros H; [lia|].
  assert (f x ≤ g x) by (apply H; by left). assert (sum_by f l ≤ sum_by g l); [|lia].
  apply IH. intros y Hy. apply H. by right.
Qed.

(** The portions of one reservation are part of those its state accounts for. *)
Lemma held_rows_sum c st rid id row :
  (∀ a, a ∈ c_allocs c → 0 < ar_Portions a) → c_res c !! rid = Some row → rr_Status row = st →
  rows_sum rid id (c_allocs c) ≤ held c st id.
Proof.
  intros Hpos Hrow Hst. apply sum_by_le. intros a Ha. specialize (Hpos a Ha). unfold has_status.
  case_bool_decide as E1; cbn; [|lia]. case_bool_decide as E2; [|case_bool_decide; lia].
  rewrite E2, Hrow. cbn. rewrite bool_decide_eq_true_2 by congruence. lia.
Qed.

Section live.
Context {uuid : UuidLib} {dig : Digest}.
Abbreviation I := (M DB IErr).

Lemma alloc_sum_app id l1 l2 : alloc_sum id (l1 ++ l2) = alloc_sum id l1 + alloc_sum id l2.
Proof. apply sum_where_app. Qed.

Lemma alloc_sum_nonneg id l : (∀ a, a ∈ l → 0 < al_Portions a) → 0 ≤ alloc_sum id l.
Proof. intros H. apply sum_by_nonneg. intros a Ha. specialize (H a Ha). case_bool_decide; lia. Qed.

Lemma scanBatch_run id o w b : reliable o → w_aborted w = false → c_batches (core (w_db w)) !! id = Some b →
  scanBatch id o w = (inr b, World (w_db w) (S (w_tick w)) false (w_locks w)).
Proof.
  intros Ho Ha Hb. unfold scanBatch. erewrite bind_run by (by apply query_run).
  cbn in Hb. rewrite lookup_fmap in Hb. by rewrite Hb.
Qed.

Lemma runs_recordWaste c b n reason note actor res t : runs (recordWaste c b n reason note actor res t).
Proof.
  unfold recordWaste. pose proof (runs_movement c). pose proof runs_insert_outbox.
  repeat (apply runs_bind; [solve [eauto with runs]|intros ?]). apply runs_ret.
Qed.

(** One allocation, when its batch still holds the portions. *)
Lemma settle_run cx confirm rid t a o w b : reliable o → w_aborted w = false →
  c_batches (core (w_db w)) !! al_BatchID a = Some b → al_Portions a ≤ b_Reserved b →
  (confirm = true → t < b_ExpiresAt b ∧ b_Status b ≠ BArchived) →
  ∃ w', settle_allocation cx confirm rid t a o w = (inr tt, w') ∧ w_aborted w' = false.
Proof.
  intros Ho Ha Hb Hr Hc. unfold settle_allocation. erewrite bind_run by (by apply scanBatch_run).
  rewrite bool_decide_eq_false_2 by lia.
  match goal with |- ∃ w', ?m o ?w1 = _ ∧ _ => assert (Hm : runs m) end.
  { apply runs_bind; [|intros b'; apply runs_saveBatch].
    pose proof (runs_movement cx). pose proof (runs_recordWaste cx). destruct confirm.
    - destruct (Hc eq_refl) as [H1 H2]. rewrite bool_decide_eq_true_2 by done.
      rewrite bool_decide_eq_false_2 by done. cbn. apply runs_bind; auto. intros _. apply runs_ret.
    - destruct (negb _); (apply runs_bind; [auto|intros _; apply runs_ret]). }
  edestruct Hm as ([] & w' & E & Ha'); [exact Ho| |exists w'; split; [exact E|done]]. done.
Qed.

Lemma return_run cx rid t a o w b : reliable o → w_aborted w = false →
  c_batches (core (w_db w)) !! al_BatchID a = Some b → al_Portions a ≤ b_Sold b →
  ∃ w', return_allocation cx rid t a o w = (inr tt, w') ∧ w_aborted w' = false.
Proof.
  intros Ho Ha Hb Hr. unfold return_allocation. erewrite bind_run by (by apply scanBatch_run).
  rewrite bool_decide_eq_false_2 by lia.
  match goal with |- ∃ w', ?m o ?w1 = _ ∧ _ => assert (Hm : runs m) end.
  { apply runs_bind; [|intros b'; apply runs_saveBatch].
    pose proof (runs_movement cx). pose proof (runs_recordWaste cx).
    destruct (negb _); (apply runs_bind; [auto|intros _; apply runs_ret]). }
  edestruct Hm as ([] & w' & E & Ha'); [exact Ho| |exists w'; split; [exact E|done]]. done.
Qed.

(** What the loops need to know about the allocations of reservation [rid]: they
    are its rows, and its state [st] accounts for them. *)
Record owns (c : Core) (st : ResStatus) (rid : string) (row : ResRow) (allocs : list Allocation) : Prop := {
  ow_row : c_res c !! rid = Some row;
  ow_alloc : ∀ a, a ∈ allocs → ∃ r, r ∈ c_allocs c ∧ a = alloc_of r ∧ ar_ReservationID r = rid;
  ow_held : ∀ id, alloc_sum id allocs ≤ held c st id
}.

Lemma owns_allocations (d : DB) dr ds rid row :
  ginv (core d) dr ds → c_res (core d) !! rid = Some row →
  owns (core d) (rr_Status row) rid row (allocations_of rid d).
Proof.
  intros Hinv Hrow. split; [done|..].
  - intros a Ha. rewrite allocations_of_perm in Ha.
    apply list_elem_of_fmap in Ha as (r & -> & [Hr Hin]%list_elem_of_filter). eauto.
  - intros id. rewrite rows_sum_allocations. eapply held_rows_sum; [|done..].
    intros a Ha. by destruct (gi_allocs _ _ _ Hinv a Ha).
Qed.

Lemma owns_batch c dr ds st rid row allocs a : ginv c dr ds → owns c st rid row allocs → a ∈ allocs →
  0 < al_Portions a ∧ ∃ b, c_batches c !! al_BatchID a = Some b ∧ rr_ExpiresAt row ≤ b_ExpiresAt b.
Proof.
  intros Hinv [Hrow Ho _] (r & Hin & -> & Hr)%Ho.
  destruct (gi_allocs _ _ _ Hinv r Hin) as [Hp (b & x & Hb & _ & Hx & Hle)]. split; [done|].
  exists b. rewrite Hr in Hx. assert (x = row) as -> by congruence. done.
Qed.

Lemma owns_frame c c' st rid row allocs :
  c_res c' = c_res c → c_allocs c' = c_allocs c → owns c st rid row allocs → owns c' st rid row allocs.
Proof.
  intros R A [H1 H2 H3]. split; [by rewrite R|by rewrite A|].
  intros id. unfold held, has_status. rewrite A, R. apply H3.
Qed.

(** What is left of a batch covers the allocation at hand. *)
Lemma owns_covers c dr ds st rid row done_ a rest : ginv c dr ds → owns c st rid row (done_ ++ a :: rest) →
  al_Portions a ≤ held c st (al_BatchID a) - alloc_sum (al_BatchID a) done_.
Proof.
  intros Hinv Hown. pose proof (ow_held _ _ _ _ _ Hown (al_BatchID a)) as Oh.
  rewrite alloc_sum_app, alloc_sum_cons, decide_True in Oh by done.
  assert (0 ≤ alloc_sum (al_BatchID a) rest); [|lia]. apply alloc_sum_nonneg.
  intros x Hx. eapply (owns_batch _ _ _ _ _ _ _ x Hinv Hown). set_solver.
Qed.

(** The loop of [transition]: [done_] is already settled, [rest] is left. *)
Lemma settle_all_run cx confirm rid t row o : reliable o → rid ≠ ""%string →
  (confirm = true → t < rr_ExpiresAt row) →
  ∀ rest done_ w, w_aborted w = false →
  ginv (core (w_db w)) (λ id, alloc_sum id done_) (λ id, if confirm then alloc_sum id done_ else 0) →
  owns (core (w_db w)) RActive rid row (done_ ++ rest) →
  ∃ w', for_each rest (settle_allocation cx confirm rid t) o w = (inr tt, w') ∧ w_aborted w' = false.
Proof.
  intros Ho Hrid Hc. induction rest as [|a rest IH]; intros done_ w Ha Hinv Hown; cbn; [eauto|].
  destruct (owns_batch _ _ _ _ _ _ _ a Hinv Hown) as [Hap (b & Hb & Hexp)]; [set_solver|].
  destruct (gi_batches _ _ _ Hinv _ _ Hb) as [_ _ Hres _ _ _ _ _ [Hst _]].
  pose proof (owns_covers _ _ _ _ _ _ _ _ _ Hinv Hown) as Hle.
  destruct (settle_run cx confirm rid t a o w b) as (w1 & E1 & Ha1); auto; [lia| |].
  { intros ->. split; [|done]. specialize (Hc eq_refl). lia. }
  erewrite bind_run by exact E1.
  apply settle_allocation_ok with (dr := λ id, alloc_sum id done_)
    (ds := λ id, if confirm then alloc_sum id done_ else 0) in E1 as (H1 & R1 & A1); auto.
  apply (IH (done_ ++ [a])); auto.
  - eapply ginv_ext; [exact H1|..]; intros id; rewrite ?alloc_sum_app, ?alloc_sum_cons; unfold bump;
      repeat case_decide; destruct confirm; cbn; lia.
  - rewrite <-app_assoc. by eapply owns_frame.
Qed.

Lemma return_all_run cx rid t row o : reliable o → rid ≠ ""%string →
  ∀ rest done_ w, w_aborted w = false →
  ginv (core (w_db w)) (λ id, 0) (λ id, - alloc_sum id done_) →
  owns (core (w_db w)) RConfirmed rid row (done_ ++ rest) →
  ∃ w', for_each rest (return_allocation cx rid t) o w = (inr tt, w') ∧ w_aborted w' = false.
Proof.
  intros Ho Hrid. induction rest as [|a rest IH]; intros done_ w Ha Hinv Hown; cbn; [eauto|].
  destruct (owns_batch _ _ _ _ _ _ _ a Hinv Hown) as [Hap (b & Hb & Hexp)]; [set_solver|].
  destruct (gi_batches _ _ _ Hinv _ _ Hb) as [_ _ _ Hsold _ _ _ _ _].
  pose proof (owns_covers _ _ _ _ _ _ _ _ _ Hinv Hown) as Hle.
  destruct (return_run cx rid t a o w b) as (w1 & E1 & Ha1); auto; [lia|].
  erewrite bind_run by exact E1.
  apply return_allocation_ok with (dr := λ id, 0) (ds := λ id, - alloc_sum id done_) in E1 as (H1 & R1 & A1); auto.
  apply (IH (done_ ++ [a])); auto.
  - eapply ginv_ext; [exact H1|..]; intros id; rewrite ?alloc_sum_app, ?alloc_sum_cons; unfold bump;
      repeat case_decide; cbn; lia.
  - rewrite <-app_assoc. by eapply owns_frame.
Qed.

Lemma runs_reset fid t : runs (ResetLowStockNotified fid t).
Proof. unfold ResetLowStockNotified. always_runs. Qed.
Lemma runs_ignore {A} (m : I A) : runs m → runs (ignore m).
Proof. intros Hm. unfold ignore. apply runs_bind; [by apply runs_try|]. intros r. apply runs_ret. Qed.

(** Reading the reservation behind its locks. *)
Lemma load_run rid order o w row : reliable o → w_aborted w = false →
  reservations (w_db w) !! rid = Some row →
  ∃ ids w1, w_db w1 = w_db w ∧ w_aborted w1 = false ∧ ∀ A (k : list string → Reservation → I A),
    (lock ("order:" +:+ order) ;; ids ← reservationFlavors rid; lockFlavors ids ;; r ← loadReservation rid; k ids r) o w =
    k ids (MkReservation (rr_ID row) (rr_OrderID row) (rr_Status row) (allocations_of rid (w_db w))
          (rr_CreatedAt row) (rr_ExpiresAt row)) o w1.
Proof.
  intros Ho Ha Hrow. set (w0 := World (w_db w) (S (S (w_tick w))) false (w_locks w ++ ["order:" +:+ order])).
  eexists _. destruct (runs_lockFlavors (remove_dups (ar_FlavorID <$>
    filter (λ a, ar_ReservationID a = rid) (reservation_allocations (w_db w)))) o w0 Ho eq_refl) as (u & w1 & E1 & H1).
  pose proof (reads_ok _ _ _ _ _ (reads_lockFlavors _) E1) as Hd. cbn [w0 w_db] in Hd.
  exists (World (w_db w1) (S (S (w_tick w1))) false (w_locks w1)). split_and!; [done|done|]. intros A k.
  erewrite bind_run by (by apply lock_run). erewrite bind_run by (by apply query_run). cbn [w_db w_tick w_locks].
  erewrite bind_run by exact E1. unfold loadReservation. erewrite bind_run; [reflexivity|].
  erewrite bind_run by (by apply query_run). rewrite Hd, Hrow. cbn [w_db w_tick w_locks].
  by erewrite bind_run by (by apply query_run).
Qed.

Lemma transition_run cx in_ confirm o w t row :
  Inv (w_db w) → reliable o → w_aborted w = false → (∀ n, or_clock o n = t) →
  reservations (w_db w) !! ti_ReservationID in_ = Some row → rr_OrderID row = ti_OrderID in_ →
  rr_Status row = RActive → (confirm = true → t < rr_ExpiresAt row) →
  ∃ r w', transition cx in_ confirm false o w = (inr r, w') ∧ w_aborted w' = false ∧
          r_Status r = target_status confirm false t (rr_ExpiresAt row).
Proof.
  intros Hinv Ho Ha Hclock Hrow Hord Hst Hc.
  destruct (load_run _ (ti_OrderID in_) _ _ _ Ho Ha Hrow) as (ids & w1 & Hd & Ha1 & Hload).
  unfold transition. rewrite Hload. clear Hload. cbn [r_OrderID r_Status r_ExpiresAt r_ID r_Allocations].
  destruct (gi_res _ _ _ Hinv _ _ Hrow) as (Hid & Hne & _). rewrite Hid, Hord, Hst.
  rewrite !(bool_decide_eq_true_2 (_ = _)) by done. cbn [negb]. erewrite bind_run by (by apply db_now_run).
  rewrite Hclock. cbn [andb negb orb].
  assert (confirm && negb (bool_decide (t < rr_ExpiresAt row)) = false) as ->.
  { destruct confirm; [|done]. cbn. rewrite bool_decide_eq_true_2 by auto. done. }
  edestruct (settle_all_run cx confirm (ti_ReservationID in_) t row o Ho Hne Hc (allocations_of (ti_ReservationID in_) (w_db w)) []
    (World (w_db w1) (S (w_tick w1)) false (w_locks w1))) as (w2 & E2 & Ha2); [done|..].
  { cbn [w_db]. rewrite Hd. eapply ginv_ext; [exact Hinv|..]; intros id; cbn; [done|by destruct confirm]. }
  { cbn [w_db app]. rewrite Hd, <-Hst. by eapply owns_allocations. }
  erewrite bind_run by exact E2.
  match goal with |- ∃ r w', ?m o w2 = _ ∧ _ => assert (Hm : runs m) end.
  { apply runs_bind; [unfold update_reservation; apply runs_exec|]. intros _.
    apply runs_bind; [|intros _; apply runs_ret]. destruct confirm; [apply runs_ret|].
    apply runs_for_each. intros f. apply runs_ignore, runs_reset. }
  destruct (Hm o w2 Ho Ha2) as (r & w' & E & Ha'). exists r, w'. split_and!; auto.
  run_inv E. cbn. unfold target_status. by destruct confirm.
Qed.

Lemma return_body_run cx in_ o w row :
  Inv (w_db w) → reliable o → w_aborted w = false →
  reservations (w_db w) !! ti_ReservationID in_ = Some row → rr_OrderID row = ti_OrderID in_ →
  rr_Status row = RConfirmed →
  ∃ r w', returnConfirmed cx in_ o w = (inr r, w') ∧ w_aborted w' = false ∧ r_Status r = RReturned.
Proof.
  intros Hinv Ho Ha Hrow Hord Hst.
  destruct (load_run _ (ti_OrderID in_) _ _ _ Ho Ha Hrow) as (ids & w1 & Hd & Ha1 & Hload).
  unfold returnConfirmed. rewrite Hload. clear Hload. cbn [r_OrderID r_Status r_ExpiresAt r_ID r_Allocations].
  destruct (gi_res _ _ _ Hinv _ _ Hrow) as (Hid & Hne & _). rewrite Hid, Hord, Hst.
  rewrite (bool_decide_eq_true_2 (ti_OrderID in_ = _)), (bool_decide_eq_false_2 (_ = RReturned)),
    (bool_decide_eq_true_2 (_ = RConfirmed)) by done. cbn [negb].
  erewrite bind_run by (by apply db_now_run).
  edestruct (return_all_run cx (ti_ReservationID in_) (or_clock o (w_tick w1)) row o Ho Hne
    (allocations_of (ti_ReservationID in_) (w_db w)) []
    (World (w_db w1) (S (w_tick w1)) false (w_locks w1))) as (w2 & E2 & Ha2); [done|..].
  { cbn [w_db]. rewrite Hd. exact Hinv. }
  { cbn [w_db app]. rewrite Hd, <-Hst. by eapply owns_allocations. }
  erewrite bind_run by exact E2.
  match goal with |- ∃ r w', ?m o w2 = _ ∧ _ => assert (Hm : runs m) end.
  { apply runs_bind; [unfold update_reservation; apply runs_exec|]. intros _.
    apply runs_bind; [|intros _; apply runs_ret]. apply runs_for_each. intros f. apply runs_ignore, runs_reset. }
  destruct (Hm o w2 Ho Ha2) as (r & w' & E & Ha'). exists r, w'. split_and!; auto. by run_inv E.
Qed.

Lemma outcome_status idle from to in_ c c' r :
  ti_ReservationID in_ ≠ ""%string → res_outcome idle from to in_ c c' r →
  rr_Status <$> c_res c' !! ti_ReservationID in_ = Some (r_Status r).
Proof.
  intros Hne [(row & t & Hrow & _ & _ & _ & _ & _ & [(Hs & -> & _)|(_ & _ & _ & _ & E)])].
  - by rewrite Hrow, Hs.
  - by rewrite E, lookup_alter_eq, Hrow.
Qed.

Lemma transition_succeeds cx confirm in_ in' row o w t :
  Inv (w_db w) → reliable o → (∀ n, or_clock o n = t) → transition_input in_ = Some in' →
  reservations (w_db w) !! ti_ReservationID in' = Some row → rr_OrderID row = ti_OrderID in' →
  rr_Status row = RActive → (confirm = true → t < rr_ExpiresAt row) →
  idempotency_records (w_db w) !! (if confirm then "confirm" else "release", ti_Key in')%string = None →
  ∃ r w', Transition cx confirm in_ o w = (inr r, w') ∧
    r_Status r = target_status confirm false t (rr_ExpiresAt row) ∧
    rr_Status <$> reservations (w_db w') !! ti_ReservationID in' = Some (r_Status r).
Proof.
  intros Hinv Ho Hclock Hin Hrow Hord Hst Hc Hfree. unfold Transition. rewrite Hin.
  set (in2 := MkTransitionInput _ _ _ _). set (op := if confirm then _ else _) in *.
  set (w1 := World (claimed_db op (ti_Key in2) (BodyTransition in2) (w_db w)) (S (S (w_tick w))) false []).
  destruct (transition_run cx in2 confirm o w1 t row) as (r & w2 & E & Ha & Hr); auto.
  destruct (mutate_fresh_run op (ti_Key in2) (BodyTransition in2) (transition cx in2 confirm false) o w Ho Hfree r w2)
    as (w' & E' & Hcore); auto.
  { intros x. by apply keeps_transition; [apply idem_frame_writes|]. }
  exists r, w'. split_and!; auto. apply transition_spec in E as [_ Hout]; [|exact Hinv].
  change (reservations (w_db w')) with (c_res (core (w_db w'))). rewrite Hcore.
  eapply outcome_status in Hout; [exact Hout|]. by destruct (gi_res _ _ _ Hinv _ _ Hrow) as (_ & ? & _).
Qed.

Lemma return_succeeds cx in_ in' row o w :
  Inv (w_db w) → reliable o → transition_input in_ = Some in' →
  reservations (w_db w) !! ti_ReservationID in' = Some row → rr_OrderID row = ti_OrderID in' →
  rr_Status row = RConfirmed → idempotency_records (w_db w) !! ("return"%string, ti_Key in') = None →
  ∃ r w', Return_ cx in_ o w = (inr r, w') ∧ r_Status r = RReturned ∧
    rr_Status <$> reservations (w_db w') !! ti_ReservationID in' = Some RReturned.
Proof.
  intros Hinv Ho Hin Hrow Hord Hst Hfree. unfold Return_. rewrite Hin.
  set (w1 := World (claimed_db "return" (ti_Key in') (BodyTransition in') (w_db w)) (S (S (w_tick w))) false []).
  destruct (return_body_run cx in' o w1 row) as (r & w2 & E & Ha & Hr); auto.
  destruct (mutate_fresh_run "return" (ti_Key in') (BodyTransition in') (returnConfirmed cx in') o w Ho Hfree r w2)
    as (w' & E' & Hcore); auto.
  { intros x. by apply keeps_returnConfirmed; [apply idem_frame_writes|]. }
  exists r, w'. split_and!; auto. apply returnConfirmed_spec in E as [_ Hout]; [|exact Hinv].
  change (reservations (w_db w')) with (c_res (core (w_db w'))). rewrite Hcore, <-Hr.
  eapply outcome_status in Hout; [exact Hout|]. by destruct (gi_res _ _ _ Hinv _ _ Hrow) as (_ & ? & _).
Qed.

(** C4.  Settling a reservation cannot get stuck.  When the database answers,
    confirming an ACTIVE reservation before it expires always succeeds, and so
    does releasing one at any time: the balance, archive and batch-expiry checks
    on the way never fire, and the reservation ends up CONFIRMED, or RELEASED,
    or EXPIRED when its time was over.  Returning a CONFIRMED reservation always
    succeeds too and leaves it RETURNED. *)
Theorem settle_succeeds cx in_ in' row o w :
  Inv (w_db w) → reliable o → transition_input in_ = Some in' →
  reservations (w_db w) !! ti_ReservationID in' = Some row → rr_OrderID row = ti_OrderID in' →
  let stored_status w' := rr_Status <$> reservations (w_db w') !! ti_ReservationID in' in
  (∀ confirm t, (∀ n, or_clock o n = t) → rr_Status row = RActive → (confirm = true → t < rr_ExpiresAt row) →
     idempotency_records (w_db w) !! (if confirm then "confirm" else "release", ti_Key in')%string = None →
     ∃ r w', Transition cx confirm in_ o w = (inr r, w') ∧
       r_Status r = target_status confirm false t (rr_ExpiresAt row) ∧ stored_status w' = Some (r_Status r)) ∧
  (rr_Status row = RConfirmed → idempotency_records (w_db w) !! ("return"%string, ti_Key in') = None →
     ∃ r w', Return_ cx in_ o w = (inr r, w') ∧ r_Status r = RReturned ∧ stored_status w' = Some RReturned).
Proof.
  intros Hinv Ho Hin Hrow Hord stored_status. split.
  - intros confirm t Hclock Hst Hc Hfree. by apply transition_succeeds with (row := row).
  - intros Hst Hfree. by apply return_succeeds with (row := row).
Qed.
End live.

(** The row the demo reservation has while it is ACTIVE and once CONFIRMED. *)
Definition demo_row (st : ResStatus) (t : Z) : ResRow :=
  MkResRow (r_ID demo_reservation) order1 st (r_CreatedAt demo_reservation) (r_ExpiresAt demo_reservation) t "".

Lemma settle_succeeds_witness :
  (∃ r w', Transition demo_cx true confirm_in (clock_at (hour + minute)) w_reserved = (inr r, w') ∧
     r_Status r = RConfirmed ∧
     rr_Status <$> reservations (w_db w') !! r_ID demo_reservation = Some (r_Status r)) ∧
  (∃ r w', Return_ demo_cx confirm_in (clock_from (2 * hour)) w_confirmed = (inr r, w') ∧ r_Status r = RReturned ∧
     rr_Status <$> reservations (w_db w') !! r_ID demo_reservation = Some RReturned).
Proof.
  split.
  - apply (settle_succeeds demo_cx confirm_in confirm_in (demo_row RActive (r_CreatedAt demo_reservation))
      (clock_at (hour + minute)) w_reserved (reachable_inv demo_TTL demo_catalog _ demo_reserved) (λ n, eq_refl)) with (confirm := true) (t := hour + minute).
    + vm_compute. reflexivity.
    + vm_compute. reflexivity.
    + vm_compute. reflexivity.
    + intros n. reflexivity.
    + reflexivity.
    + intros _. vm_compute. reflexivity.
    + vm_compute. reflexivity.
  - assert (Hr : ∃ row, reservations (w_db w_confirmed) !! r_ID demo_reservation = Some row ∧
      rr_OrderID row = order1 ∧ rr_Status row = RConfirmed).
    { eexists. split; [vm_compute; reflexivity|]. split; vm_compute; reflexivity. }
    destruct Hr as (row & H1 & H2 & H3).
    apply (settle_succeeds demo_cx confirm_in confirm_in row (clock_from (2 * hour)) w_confirmed).
    + apply (reachable_inv demo_TTL demo_catalog). eapply rtc_r; [apply demo_reserved|apply demo_confirm_step].
    + intros n. reflexivity.
    + vm_compute. reflexivity.
    + exact H1.
    + exact H2.
    + exact H3.
    + vm_compute. reflexivity.
Defined.

(** Batch Inventory: the availability that the service reports is the stock
    that [Reserve] can take. *)


Section avail.
Context {uuid : UuidLib} {dig : Digest}.
Abbreviation I := (M DB IErr).

Lemma sum_by_filter {A} (P : A → Prop) `{!∀ x, Decision (P x)} f (l : list A) :
  sum_by f (filter P l) = sum_by (λ x, if bool_decide (P x) then f x else 0) l.
Proof.
  induction l as [|x l IH]; [done|]. rewrite filter_cons. cbn [sum_by]. rewrite <-IH.
  case_decide; case_bool_decide; done.
Qed.

Lemma stock_sum flavor t (d : DB) :
  stock flavor t d = sum_by (λ b, if sellable flavor t b then b_Available b else 0) (br_batch <$> batch_rows d).
Proof.
  unfold stock, fefo_rows. rewrite (sum_by_perm _ _ _ (merge_sort_Permutation fefo _)), sum_by_filter.
  apply sum_by_ext. intros b _. case_bool_decide as Hs; [by rewrite Hs|]. by apply not_true_is_false in Hs as ->.
Qed.

(** One row of the availability query. *)
Lemma availability_stock f flavor t (d : DB) :
  Inv d → (∀ b, b_FlavorID b = flavor → matches_flavor f b = true) →
  av_Available (availability_row flavor t (filter (λ b, matches_flavor f b = true) (br_batch <$> batch_rows d))) =
  stock flavor t d.
Proof.
  intros Hinv Hf. rewrite stock_sum. cbn [availability_row av_Available]. unfold sum_where.
  rewrite !sum_by_filter. apply sum_by_ext. intros b Hb.
  apply elem_of_batch_rows in Hb as [id Hlk].
  destruct (gi_batches _ _ _ Hinv _ _ Hlk) as [_ [Hav _ _ _ _ _ _ _] _ _ _ _ _ _ [_ Hex]].
  unfold sellable. repeat case_bool_decide; cbn; try done; try lia; try (rewrite Hex by done; done).
  all: exfalso; naive_solver.
Qed.

Lemma AvailabilityOf_ok flavor o w rows asOf w' :
  AvailabilityOf flavor o w = (inr (rows, asOf), w') →
  ∃ f, flavor_filter flavor = Some f ∧ w_db w' = w_db w ∧
  let t := or_clock o (w_tick w) in
  let bs := filter (λ b, matches_flavor f b = true) (br_batch <$> batch_rows (w_db w)) in
  rows = (λ fl, availability_row fl t bs) <$> merge_sort String.le (remove_dups (b_FlavorID <$> bs)).
Proof.
  unfold AvailabilityOf, invalid. destruct (flavor_filter flavor) as [f|]; [|done]. intros H. run_inv H.
  unfold pool_query, pool_stmt in Hrun. destruct (or_fault _ _); simplify_eq/=. exists f.
  split_and!; [done..|]. by rewrite <-list_fmap_compose.
Qed.

(** [CheckAvailability] answers for each requested flavor, in the order of
    the request, the stock that a reservation made at that instant could take,
    zero for a flavor without batches. *)
Theorem check_availability items items' o w avs asOf w' :
  Inv (w_db w) → validItems items = Some items' → Check_ items o w = (inr (avs, asOf), w') →
  w_db w' = w_db w ∧
  Forall2 (λ i av, av_FlavorID av = it_FlavorID i ∧
    av_Available av = stock (it_FlavorID i) (or_clock o (w_tick w)) (w_db w)) items' avs.
Proof.
  intros Hinv Hv H. unfold Check_ in H. rewrite Hv in H. run_inv H. destruct a as [all t]. run_inv H. simplify_eq.
  apply AvailabilityOf_ok in Hrun as (f & Hf & Hd & ->). split; [done|].
  unfold flavor_filter in Hf. rewrite bool_decide_eq_true_2 in Hf by done. simplify_eq.
  apply Forall2_fmap_r, Forall_Forall2_diag, Forall_forall. intros i _.
  set (t0 := or_clock o (w_tick w)). set (bs := filter _ _). unfold compose.
  destruct (list_find (λ a, av_FlavorID a = it_FlavorID i) _) as [[n a]|] eqn:E.
  - apply list_find_Some in E as (Hlk & Ha & _). split; [done|]. rewrite <-Ha.
    apply list_elem_of_lookup_2, list_elem_of_fmap in Hlk as (fl & -> & _).
    apply availability_stock; [done|]. done.
  - apply list_find_None in E. split; [done|]. cbn [av_Available]. rewrite stock_sum. symmetry.
    apply sum_by_zero. intros b Hb. destruct (sellable _ _ b) eqn:Hs; [|done]. exfalso.
    apply sellable_flavor in Hs. rewrite Forall_forall in E.
    apply (E (availability_row (it_FlavorID i) t0 bs)); [|done]. apply list_elem_of_fmap. eexists. split; [done|].
    rewrite merge_sort_Permutation. apply elem_of_remove_dups, list_elem_of_fmap. exists b. split; [done|].
    by apply list_elem_of_filter.
Qed.
End avail.

Lemma check_availability_witness :
  let run := Check_ [MkItem vanilla 3] (clock_from (2 * hour)) w_created in
  run.1 = inr ([MkAvailability vanilla 50 (Some (1000 * hour))], 2 * hour + Z.of_nat (w_tick w_created)) ∧
  w_db run.2 = w_db w_created ∧
  Forall2 (λ i av, av_FlavorID av = it_FlavorID i ∧
      av_Available av = stock (it_FlavorID i) (or_clock (clock_from (2 * hour)) (w_tick w_created)) (w_db w_created))
    [MkItem vanilla 3] [MkAvailability vanilla 50 (Some (1000 * hour))].
Proof.
  intros run.
  assert (E : run.1 = inr ([MkAvailability vanilla 50 (Some (1000 * hour))], 2 * hour + Z.of_nat (w_tick w_created)))
    by (vm_compute; reflexivity).
  split; [exact E|].
  apply (check_availability [MkItem vanilla 3] [MkItem vanilla 3] (clock_from (2 * hour)) w_created _
    (2 * hour + Z.of_nat (w_tick w_created))).
  - apply (reachable_inv demo_TTL demo_catalog), demo_created.
  - vm_compute. reflexivity.
  - by apply run_pair.
Defined.
