(* ===== verification/OrdModel.v ===== *)
(** Order service: the data of [internal/domain/order.go] and the repository of
    [internal/repository/order_repository.go].

    The service talks to other services while it works, so its state is a pair:
    the Order database and the state [X] of the Inventory service behind its
    gRPC interface.  No repository transaction calls another service. *)

From S2P Require Import Prelude Effects GoStd InvModel.

Inductive OrderStatus :=
  | StatusPendingPayment
  | StatusCancelPending
  | StatusPaymentConfirming
  | StatusPaid
  | StatusPreparing
  | StatusReadyForPickup
  | StatusCompleted
  | StatusCancelled
  | StatusStoreCancelPending.
#[global] Instance OrderStatus_eq_dec : EqDecision OrderStatus.
Proof. solve_decision. Defined.

Definition ReasonOrderCancelled : string := "ORDER_CANCELLED".
Definition ReasonReservationExpired : string := "RESERVATION_EXPIRED".
Definition ReasonStoreCancelled : string := "STORE_CANCELLED".

Record OrderItem := MkOrderItem {
  oi_FlavorID : string;
  oi_FlavorName : string;
  oi_Portions : Z;
  oi_UnitPriceMinor : Z;
  oi_SubtotalMinor : Z
}.
#[global] Instance OrderItem_eq_dec : EqDecision OrderItem.
Proof. solve_decision. Defined.

Record Order := MkOrder {
  o_ID : string;
  o_CustomerID : string;
  o_PickupAt : Z;
  o_Status : OrderStatus;
  o_IdempotencyKey : string;
  o_RequestHash : string;
  o_ReservationID : string;
  o_ReservationExpiresAt : Z;
  o_ConfirmIdempotencyKey : string;
  o_ReleaseIdempotencyKey : string;
  o_TotalAmountMinor : Z;
  o_Currency : string;
  o_CheckoutSessionID : string;
  o_CheckoutURL : string;
  o_CancellationReason : string;
  o_PaidAt : option Z;
  o_Items : list OrderItem;
  o_CreatedAt : Z;
  o_UpdatedAt : Z
}.
#[global] Instance Order_eq_dec : EqDecision Order.
Proof. solve_decision. Defined.

(** The column updates of the repository. *)
Definition set_checkout (session url : string) (t : Z) (o : Order) : Order :=
  MkOrder (o_ID o) (o_CustomerID o) (o_PickupAt o) (o_Status o) (o_IdempotencyKey o) (o_RequestHash o)
    (o_ReservationID o) (o_ReservationExpiresAt o) (o_ConfirmIdempotencyKey o) (o_ReleaseIdempotencyKey o)
    (o_TotalAmountMinor o) (o_Currency o) session url (o_CancellationReason o) (o_PaidAt o)
    (o_Items o) (o_CreatedAt o) t.
Definition set_status (s : OrderStatus) (t : Z) (o : Order) : Order :=
  MkOrder (o_ID o) (o_CustomerID o) (o_PickupAt o) s (o_IdempotencyKey o) (o_RequestHash o)
    (o_ReservationID o) (o_ReservationExpiresAt o) (o_ConfirmIdempotencyKey o) (o_ReleaseIdempotencyKey o)
    (o_TotalAmountMinor o) (o_Currency o) (o_CheckoutSessionID o) (o_CheckoutURL o) (o_CancellationReason o)
    (o_PaidAt o) (o_Items o) (o_CreatedAt o) t.
Definition set_url (url : string) (o : Order) : Order :=
  MkOrder (o_ID o) (o_CustomerID o) (o_PickupAt o) (o_Status o) (o_IdempotencyKey o) (o_RequestHash o)
    (o_ReservationID o) (o_ReservationExpiresAt o) (o_ConfirmIdempotencyKey o) (o_ReleaseIdempotencyKey o)
    (o_TotalAmountMinor o) (o_Currency o) (o_CheckoutSessionID o) url (o_CancellationReason o)
    (o_PaidAt o) (o_Items o) (o_CreatedAt o) (o_UpdatedAt o).
Definition set_reason (reason : string) (o : Order) : Order :=
  MkOrder (o_ID o) (o_CustomerID o) (o_PickupAt o) (o_Status o) (o_IdempotencyKey o) (o_RequestHash o)
    (o_ReservationID o) (o_ReservationExpiresAt o) (o_ConfirmIdempotencyKey o) (o_ReleaseIdempotencyKey o)
    (o_TotalAmountMinor o) (o_Currency o) (o_CheckoutSessionID o) (o_CheckoutURL o) reason
    (o_PaidAt o) (o_Items o) (o_CreatedAt o) (o_UpdatedAt o).
Definition set_paid_at (t : Z) (o : Order) : Order :=
  MkOrder (o_ID o) (o_CustomerID o) (o_PickupAt o) (o_Status o) (o_IdempotencyKey o) (o_RequestHash o)
    (o_ReservationID o) (o_ReservationExpiresAt o) (o_ConfirmIdempotencyKey o) (o_ReleaseIdempotencyKey o)
    (o_TotalAmountMinor o) (o_Currency o) (o_CheckoutSessionID o) (o_CheckoutURL o) (o_CancellationReason o)
    (Some t) (o_Items o) (o_CreatedAt o) (o_UpdatedAt o).
Definition set_times (t : Z) (o : Order) : Order :=
  MkOrder (o_ID o) (o_CustomerID o) (o_PickupAt o) (o_Status o) (o_IdempotencyKey o) (o_RequestHash o)
    (o_ReservationID o) (o_ReservationExpiresAt o) (o_ConfirmIdempotencyKey o) (o_ReleaseIdempotencyKey o)
    (o_TotalAmountMinor o) (o_Currency o) (o_CheckoutSessionID o) (o_CheckoutURL o) (o_CancellationReason o)
    (o_PaidAt o) (o_Items o) t t.

(** The data of the two events the service publishes. *)
Inductive EventBody :=
  | OrderPlaced (order customer : string) (pickup total : Z) (currency : string) (items : list OrderItem)
  | OrderCancelled (order customer reason : string)
  | PaidOrderCancelled (order customer reason : string) (total : Z) (currency : string)
      (items : list OrderItem) (paid_at : Z).

Record CloudEvent := MkCloudEvent { ce_ID : string; ce_Type : string; ce_Time : Z; ce_Data : EventBody }.

Record OutboxEvent := MkOutboxEvent {
  oe_ID : string;
  oe_OrderID : string;
  oe_RoutingKey : string;
  oe_Payload : CloudEvent;
  oe_PublishedAt : option Z;
  oe_CreatedAt : Z
}.

Record ODB := MkODB { orders : gmap string Order; outbox : list OutboxEvent }.
Definition empty_odb : ODB := MkODB ∅ [].

(** The state of a step: the Order database and the Inventory service. *)
Record OSt (X : Type) := MkOSt { od : ODB; ox : X }.
Arguments MkOSt {X} _ _.
Arguments od {X} _.
Arguments ox {X} _.

(** ** Errors of the repository *)

Inductive RErr := RNotFound | RInvalidTransition | RDb (e : dberr).
#[global] Instance RErr_db : DbError RErr := RDb.

(** The uuid type of PostgreSQL: the text it accepts for a uuid column, in
    canonical form.  The canonical text of a UUID is accepted as it is. *)
Class PgUuid `{!UuidLib} := {
  pg_uuid : string → option string;
  pg_uuid_canonical : ∀ s u, uuid_parse s = Some u → pg_uuid u = Some u
}.

(** ** The repository *)

Section repository.
Context {X : Type} {uuid : UuidLib} {pg : PgUuid}.
Abbreviation R := (M (OSt X) RErr).

Definition on_orders (f : gmap string Order → gmap string Order) (s : OSt X) : OSt X :=
  MkOSt (MkODB (f (orders (od s))) (outbox (od s))) (ox s).
Definition on_outbox (f : list OutboxEvent → list OutboxEvent) (s : OSt X) : OSt X :=
  MkOSt (MkODB (orders (od s)) (f (outbox (od s)))) (ox s).

(** [First(&order, "id = ?", id)]: text that is no uuid is refused by the
    server, no row is [ErrRecordNotFound]. *)
Definition find_order (id : string) (s : OSt X) : dberr + option Order :=
  match pg_uuid id with
  | None => inl (DbPg "22P02")
  | Some u => inr (orders (od s) !! u)
  end.

Definition First (id : string) : R Order :=
  r ← stmt (λ _ s, match find_order id s with inl e => inl e | inr v => inr (v, s) end);
  match r with None => throw RNotFound | Some order => mret order end.

(** [Model(&order).Updates(...)] on the row of a loaded order; gorm sets
    updated_at from the clock of the process. *)
Definition Updates (id : string) (f : Z → Order → Order) : R unit :=
  t ← go_now;
  exec (on_orders (alter (f t) id)).

(** [Where("id = ? AND status IN ?").Updates(...)] with the number of rows. *)
Definition UpdateWhere (id : string) (from : list OrderStatus) (f : Z → Order → Order) : R Z :=
  t ← go_now;
  stmt (λ _ s, match find_order id s with
    | inl e => inl e
    | inr (Some order) =>
        if bool_decide (o_Status order ∈ from)
        then inr (1, on_orders <[o_ID order := f t order]> s) else inr (0, s)
    | inr None => inr (0, s)
    end).

(** gorm fills in created_at when a row is created; order_id is a uuid column. *)
Definition CreateEvent (id order key : string) (payload : CloudEvent) : R unit :=
  t ← go_now;
  stmt (λ _ s, match pg_uuid order with
    | None => inl (DbPg "22P02")
    | Some u => inr (tt, on_outbox (λ l, l ++ [MkOutboxEvent id u key payload None t]) s)
    end).

Definition Create (order : Order) : R Order :=
  transaction (
    t ← go_now;
    stmt (λ _ s,
      if bool_decide (is_Some (orders (od s) !! o_ID order)) then inl (DbUnique "orders_pkey")
      else if existsb (λ x, bool_decide (o_CustomerID x.2 = o_CustomerID order)
                            && bool_decide (o_IdempotencyKey x.2 = o_IdempotencyKey order))
                (map_to_list (orders (od s)))
      then inl (DbUnique "idx_customer_idempotency")
      else if existsb (λ x, bool_decide (o_ReservationID x.2 = o_ReservationID order)) (map_to_list (orders (od s)))
      then inl (DbUnique "idx_orders_reservation_id")
      else inr (Commit (set_times t order), on_orders <[o_ID order := set_times t order]> s))).

Definition Get (id : string) : R Order :=
  r ← pool_stmt (λ _ s, match find_order id s with inl e => inl e | inr v => inr (v, s) end);
  match r with None => throw RNotFound | Some order => mret order end.

(** The first row of a customer's key, in primary key order. *)
Definition by_idempotency_key (customer key : string) (s : OSt X) : option Order :=
  head (merge_sort (λ x y, String.le (o_ID x) (o_ID y))
    (filter (λ o, o_CustomerID o = customer ∧ o_IdempotencyKey o = key) (map_to_list (orders (od s))).*2)).

Definition GetByIdempotencyKey (customer key : string) : R Order :=
  r ← pool_query (λ _ s, by_idempotency_key customer key s);
  match r with None => throw RNotFound | Some order => mret order end.

Definition BindCheckout (id session url : string) : R Order :=
  transaction (
    order ← First id;
    t ← go_now;
    if negb (bool_decide (o_Status order = StatusPendingPayment))
       || negb (bool_decide (t < o_ReservationExpiresAt order))
    then throw RInvalidTransition
    else if negb (bool_decide (o_CheckoutSessionID order = ""))
            && (negb (bool_decide (o_CheckoutSessionID order = session))
                || negb (bool_decide (o_CheckoutURL order = url)))
    then throw RInvalidTransition
    else
      (if bool_decide (o_CheckoutSessionID order = "")
       then Updates (o_ID order) (λ t, set_checkout session url t)
       else mret tt) ;;
      order ← First id;
      mret (Commit order)).

Definition transition_target (target : OrderStatus) : option OrderStatus :=
  match target with
  | StatusCancelPending => Some StatusCancelled
  | StatusPaymentConfirming => Some StatusPaid
  | _ => None
  end.

Definition BeginTransition (id : string) (target : OrderStatus) : R Order :=
  match transition_target target with
  | None => throw RInvalidTransition
  | Some terminal =>
      transaction (
        order ← First id;
        if bool_decide (o_Status order = target) || bool_decide (o_Status order = terminal)
        then mret (Commit order)
        else if negb (bool_decide (o_Status order = StatusPendingPayment)) then throw RInvalidTransition
        else
          t ← go_now;
          exec (on_orders (alter (λ o, set_url "" (set_status target t o)) (o_ID order))) ;;
          mret (Commit (set_url "" (set_status target t order))))
  end.

Definition page_limit (limit : Z) : Z :=
  if bool_decide (limit < 1) || bool_decide (limit > 500) then 100 else limit.

(** Rows after [afterID] in id order; an empty [afterID] starts at the front. *)
Definition page (afterID : string) (limit : Z) (keep : Order → bool) (s : OSt X) : list Order :=
  take (Z.to_nat (page_limit limit))
    (merge_sort (λ x y, String.le (o_ID x) (o_ID y))
      (filter (λ o, keep o = true ∧ (afterID = "" ∨ str_ltb afterID (o_ID o) = true))
         (map_to_list (orders (od s))).*2)).

Definition PendingTransitions (afterID : string) (limit : Z) : R (list Order) :=
  pool_query (λ _ s, page afterID limit (λ o, bool_decide (o_Status o ∈
    [StatusCancelPending; StatusPaymentConfirming; StatusStoreCancelPending])) s).

Definition RejectPaymentConfirmation (id : string) : R unit :=
  transaction (
    n ← UpdateWhere id [StatusPaymentConfirming] (λ t, set_status StatusCancelPending t);
    if bool_decide (n > 0) then mret (Commit tt)
    else
      current ← First id;
      if bool_decide (o_Status current = StatusCancelPending) || bool_decide (o_Status current = StatusCancelled)
      then mret (Commit tt)
      else throw RInvalidTransition).

Definition ExpiredPendingOrders (afterID : string) (now limit : Z) : R (list Order) :=
  pool_query (λ _ s, page afterID limit (λ o,
    bool_decide (o_Status o = StatusPendingPayment) && bool_decide (o_ReservationExpiresAt o ≤ now)) s).

Definition BeginExpiry (id : string) (now : Z) : R Order :=
  transaction (
    order ← First id;
    if negb (bool_decide (o_Status order = StatusPendingPayment))
       || bool_decide (now < o_ReservationExpiresAt order)
    then throw RInvalidTransition
    else
      t ← go_now;
      let upd := λ o, set_reason ReasonReservationExpired (set_url "" (set_status StatusCancelPending t o)) in
      exec (on_orders (alter upd (o_ID order))) ;;
      mret (Commit (upd order))).

Definition BeginStoreCancellation (id : string) : R Order :=
  transaction (
    order ← First id;
    if bool_decide (o_Status order = StatusStoreCancelPending)
       || (bool_decide (o_Status order = StatusCancelled)
           && bool_decide (o_CancellationReason order = ReasonStoreCancelled))
    then mret (Commit order)
    else if negb (bool_decide (o_Status order = StatusPaid)) then throw RInvalidTransition
    else
      t ← go_now;
      let upd := λ o, set_reason ReasonStoreCancelled (set_status StatusStoreCancelPending t o) in
      exec (on_orders (alter upd (o_ID order))) ;;
      mret (Commit (upd order))).

Definition MarkPaidWithOutbox (id : string) (paidAt : Z) (eid : string) (e : CloudEvent) : R unit :=
  transaction (
    n ← UpdateWhere id [StatusPaymentConfirming] (λ t o, set_paid_at paidAt (set_status StatusPaid t o));
    if bool_decide (n = 0) then
      current ← First id;
      if bool_decide (o_Status current = StatusPaid) then mret (Commit tt) else throw RInvalidTransition
    else
      CreateEvent eid id "order.placed" e ;;
      mret (Commit tt)).

Definition MarkCancelled (id eid : string) (e : CloudEvent) : R unit :=
  transaction (
    n ← UpdateWhere id [StatusCancelPending; StatusStoreCancelPending] (λ t, set_status StatusCancelled t);
    if bool_decide (n = 0) then
      current ← First id;
      if bool_decide (o_Status current = StatusCancelled) then mret (Commit tt) else throw RInvalidTransition
    else
      CreateEvent eid id "order.cancelled" e ;;
      mret (Commit tt)).

Definition PendingOutbox (limit : Z) : R (list OutboxEvent) :=
  pool_query (λ _ s, take (Z.to_nat (page_limit limit))
    (merge_sort (by_key oe_CreatedAt) (filter (λ e, oe_PublishedAt e = None) (outbox (od s))))).

Definition MarkOutboxPublished (id : string) : R unit :=
  pool_stmt (λ t s, inr (tt, on_outbox (fmap (λ e,
    if bool_decide (oe_ID e = id) && bool_decide (oe_PublishedAt e = None)
    then MkOutboxEvent (oe_ID e) (oe_OrderID e) (oe_RoutingKey e) (oe_Payload e) (Some t) (oe_CreatedAt e)
    else e)) s)).

Definition slot_statuses : list OrderStatus :=
  [StatusPendingPayment; StatusPaymentConfirming; StatusPaid; StatusPreparing; StatusReadyForPickup].

Definition CountOrdersInSlot (slot : Z) : R Z :=
  pool_query (λ _ s, Z.of_nat (length (filter (λ x, o_PickupAt x.2 = slot ∧ o_Status x.2 ∈ slot_statuses)
    (map_to_list (orders (od s)))))).
End repository.
