(* ===== verification/OrdService.v ===== *)
(** Order service: [internal/service/order_service.go] and the workers beside
    it, against the interfaces of its clients. *)

From S2P Require Import Prelude Effects GoStd InvModel OrdModel.

(** ** Errors *)

Record AppError := MkAppError {
  ae_Code : string;
  ae_Message : string;
  ae_HTTPStatus : Z;
  ae_Details : option string
}.
#[global] Instance AppError_eq_dec : EqDecision AppError.
Proof. solve_decision. Defined.

(** What the service returns: an application error, an error of the repository
    passed on as it is, the error of the context or of the broker, or several
    joined.  [SFuel] marks a loop that was cut off; it is never reached. *)
Inductive SErr :=
  | SApp (e : AppError)
  | SRepo (e : RErr)
  | SCtx
  | SPublish
  | SJoin (l : list SErr)
  | SFuel.

Definition app (code msg : string) (http : Z) : AppError := MkAppError code msg http None.
Definition badRequest (msg : string) : AppError := app "INVALID_ARGUMENT" msg 400.
Definition paymentRejected : AppError := app "PAYMENT_REJECTED" "order can no longer accept this payment" 410.
Definition conflict (code msg : string) : AppError := app code msg 409.
Definition dependencyError (code : string) : AppError :=
  app code "a required dependency could not complete the request" 503.

Definition mapGRPCError (dependency : string) (e : RpcErr) : AppError :=
  match e with
  | RpcOther => dependencyError (dependency +:+ "_UNAVAILABLE")
  | RpcStatus c msg =>
      match c with
      | InvalidArgument => badRequest msg
      | Unauthenticated => app "DEPENDENCY_UNAUTHENTICATED" msg 502
      | PermissionDenied => app "DEPENDENCY_FORBIDDEN" msg 502
      | NotFound => app "RESOURCE_NOT_FOUND" msg 404
      | FailedPrecondition | AlreadyExists | Aborted => conflict "DEPENDENCY_CONFLICT" msg
      | DeadlineExceeded => app "DEPENDENCY_TIMEOUT" "upstream service timed out" 504
      | Unavailable | ResourceExhausted => app "DEPENDENCY_UNAVAILABLE" "upstream service is unavailable" 503
      | _ => dependencyError (dependency +:+ "_ERROR")
      end
  end.

Definition mapRepositoryError (e : RErr) : AppError :=
  match e with
  | RNotFound => app "ORDER_NOT_FOUND" "order not found" 404
  | _ => dependencyError "ORDER_STORAGE_UNAVAILABLE"
  end.

(** ** Clients *)

(** The Inventory client: each call maps the state of the Inventory service to
    an answer and the state it leaves.  A call that fails may have taken
    effect. *)
Record ReserveRequest := MkReserveRequest { rq_OrderId : string; rq_Key : string; rq_Items : list PbPortionRequest }.
Record ReservationRequest := MkReservationRequest {
  rr_ReservationId : string; rr_OrderId : string; rr_Key : string; rr_Reason : string
}.
Class InventoryClient (X : Type) := {
  ReservePortions : nat → ReserveRequest → X → (RpcErr + option PbReservation) * X;
  ConfirmReservation : nat → ReservationRequest → X → (RpcErr + unit) * X;
  ReleaseReservation : nat → ReservationRequest → X → (RpcErr + unit) * X;
  ReturnConfirmedReservation : nat → ReservationRequest → X → (RpcErr + unit) * X
}.

(** A price of the Catalog: amount and currency may be missing. *)
Record PbMoney := MkPbMoney { mo_AmountMinor : option Z; mo_Currency : option string }.
Record PbFlavor := MkPbFlavor {
  pf_Id : string; pf_Name : string; pf_Active : bool; pf_Price : option PbMoney
}.

Record CheckoutRequest := MkCheckoutRequest {
  cr_OrderId : string; cr_CustomerId : string; cr_AmountMinor : Z; cr_Currency : string;
  cr_IdempotencyKey : string; cr_ReservationExpiresAt : Timestamp
}.

Inductive TicketErr := ErrTicketNotFound | ErrTicketForbidden | TicketOther.

Record Fulfillment := MkFulfillment {
  CheckSlotCapacity : nat → Z → option Z;
  GetTicket : nat → string → TicketErr + string
}.

(** The other clients, the cancellation of the caller's context, and the
    configuration of the service.  The first argument of a call is the moment
    it is made, so that answers may change. *)
Record Env := MkEnv {
  pickupLocation : option (Z → Z);
  maxPortionsPerOrder : Z;
  maxSlotCapacity : Z;
  BatchGetFlavors : nat → list string → RpcErr + list PbFlavor;
  CreateCheckoutSession : nat → CheckoutRequest → RpcErr + (string * string);
  fulfillment : option Fulfillment;
  ctx_done : nat → bool;
  ip_literal : string → bool
}.

(** Name-based UUIDs, and the hexadecimal SHA-256 of the canonical request. *)
Class OrderIds `{!UuidLib} := {
  uuid_sha1 : string → string;
  uuid_sha1_canonical : ∀ s, uuid_parse (uuid_sha1 s) = Some (uuid_sha1 s);
  request_hash : string → Z → list (string * Z) → string
}.

Record OrderItemInput := MkOrderItemInput { ii_FlavorID : string; ii_Portions : Z }.
Record CreateOrderInput := MkCreateOrderInput {
  co_CustomerID : string; co_PickupAt : Z; co_Items : list OrderItemInput
}.
Record CheckoutResponse := MkCheckoutResponse { ck_Order : Order; ck_CheckoutURL : string }.

Definition DefaultPickupSlotMaxCapacity : Z := 10.

(** [loc] gives the offset of local time from UTC at an instant. *)
Definition sameCalendarDay (a b : Z) (loc : Z → Z) : bool :=
  bool_decide ((a + loc a) / day = (b + loc b) / day).

(** ** Requests *)

Section service.
Context {X : Type} {uuid : UuidLib} {pg : PgUuid} {ids : OrderIds} {inv : InventoryClient X}.
Context (env : Env).
Abbreviation Svc := (M (OSt X) SErr).

Definition fail {A} (e : AppError) : Svc A := throw (SApp e).

(** [x, err := s.repo.Op(...)]. *)
Definition repo {A} (m : M (OSt X) RErr A) : Svc (RErr + A) := try m.

(** A call of the Inventory client. *)
Definition inventory {A} (f : nat → X → A * X) : Svc A := λ o w,
  let '(a, x) := f (w_tick w) (ox (w_db w)) in
  (inr a, World (MkOSt (od (w_db w)) x) (S (w_tick w)) (w_aborted w) (w_locks w)).

(** A call of another client. *)
Definition call {A} (f : nat → A) : Svc A := λ o w,
  (inr (f (w_tick w)), World (w_db w) (S (w_tick w)) (w_aborted w) (w_locks w)).

Fixpoint normalize_loop (items : list OrderItemInput) (result : gmap string Z) : AppError + gmap string Z :=
  match items with
  | [] => inr result
  | item :: items =>
      match uuid_parse (ii_FlavorID item) with
      | None => inl (badRequest "flavor_id must be a UUID")
      | Some key =>
          if bool_decide (ii_Portions item < 1) then inl (badRequest "portions must be positive")
          else if bool_decide (is_Some (result !! key)) then inl (badRequest "each flavor_id may appear only once")
          else normalize_loop items (<[key := ii_Portions item]> result)
      end
  end.

Definition normalizeItems (items : list OrderItemInput) : AppError + gmap string Z :=
  if bool_decide (length items = 0%nat) || bool_decide (100 < length items)%nat
  then inl (badRequest "items must contain between 1 and 100 flavors")
  else normalize_loop items ∅.

(** The keys of the map in sorted order. *)
Definition sorted_ids (items : gmap string Z) : list string :=
  merge_sort String.le (map_to_list items).*1.

Definition hashRequest (customer : string) (pickup : Z) (items : gmap string Z) : string :=
  request_hash customer pickup ((λ id, (id, default 0 (items !! id))) <$> sorted_ids items).

(** The pricing loop: total, lines and reservation items so far. *)
Record Priced := MkPriced { pc_Total : Z; pc_Items : list OrderItem; pc_Reserve : list PbPortionRequest }.

Definition price_line (byID : string → option PbFlavor) (items : gmap string Z) (p : Priced) (id : string)
    : AppError + Priced :=
  match byID id with
  | None => inl (dependencyError "CATALOG_INVALID_RESPONSE")
  | Some flavor =>
      if negb (pf_Active flavor) then
        inl (conflict "FLAVOR_INACTIVE" "one or more selected flavors are not available for sale")
      else match pf_Price flavor with
      | Some (MkPbMoney (Some amount) (Some currency)) =>
          if negb (bool_decide (currency = "THB")) || bool_decide (amount < 0) then
            inl (dependencyError "CATALOG_INVALID_PRICE")
          else
            let portions := default 0 (items !! id) in
            if bool_decide (portions > 0) && bool_decide (amount > MaxInt64 / portions) then
              inl (badRequest "order amount exceeds supported range")
            else
              let subtotal := wrap64 (amount * portions) in
              if bool_decide (pc_Total p > wrap64 (MaxInt64 - subtotal)) then
                inl (badRequest "order amount exceeds supported range")
              else inr (MkPriced (wrap64 (pc_Total p + subtotal))
                (pc_Items p ++ [MkOrderItem id (pf_Name flavor) portions amount subtotal])
                (pc_Reserve p ++ [MkPortionRequest id portions]))
      | _ => inl (dependencyError "CATALOG_INVALID_PRICE")
      end
  end.

Fixpoint price_all (byID : string → option PbFlavor) (items : gmap string Z) (p : Priced) (ids_ : list string)
    : AppError + Priced :=
  match ids_ with
  | [] => inr p
  | id :: ids_ =>
      match price_line byID items p id with
      | inl e => inl e
      | inr p => price_all byID items p ids_
      end
  end.

(** The map [byID]: a later flavor of the same id wins. *)
Definition by_id (flavors : list PbFlavor) (id : string) : option PbFlavor :=
  last (filter (λ f, pf_Id f = id) flavors).

Definition sum_portions (items : gmap string Z) : Z := sum_by snd (map_to_list items).

(** [GetByIdempotencyKey] decides whether the request was seen before. *)
Definition existing_order (customer key hash : string) : Svc (option Order) :=
  r ← repo (GetByIdempotencyKey customer key);
  match r with
  | inr existing =>
      if negb (bool_decide (o_RequestHash existing = hash))
      then fail (conflict "IDEMPOTENCY_KEY_REUSED" "Idempotency-Key was already used with a different request")
      else mret (Some existing)
  | inl RNotFound => mret None
  | inl _ => fail (dependencyError "ORDER_STORAGE_UNAVAILABLE")
  end.

(** The checks of the pickup time, the portion limit and the slot capacity. *)
Definition check_pickup (pickup : Z) (items : gmap string Z) : Svc unit :=
  t ← go_now;
  if negb (bool_decide (t < pickup)) then fail (badRequest "pickup_at must be a future RFC 3339 timestamp")
  else
    same ← match pickupLocation env with
      | Some loc => t ← go_now; mret (sameCalendarDay t pickup loc)
      | None => mret true
      end;
    if negb same then fail (app "PICKUP_NOT_SAME_DAY" "pickup_at must be today" 400)
    else if bool_decide (maxPortionsPerOrder env > 0)
            && bool_decide (sum_portions items > maxPortionsPerOrder env)
    then fail (app "PORTIONS_LIMIT_EXCEEDED" "order exceeds the portion limit" 400)
    else
      let maxCapacity := if bool_decide (maxSlotCapacity env ≤ 0) then DefaultPickupSlotMaxCapacity
                         else maxSlotCapacity env in
      count ← repo (CountOrdersInSlot pickup);
      match count with
      | inl _ => fail (dependencyError "ORDER_STORAGE_UNAVAILABLE")
      | inr count =>
          if bool_decide (maxCapacity ≤ count) then
            fail (conflict "SLOT_CAPACITY_EXCEEDED" "pickup slot capacity exceeded")
          else match fulfillment env with
          | None => mret tt
          | Some f =>
              capacity ← call (λ n, CheckSlotCapacity f n pickup);
              match capacity with
              | None => fail (dependencyError "FULFILLMENT_UNAVAILABLE")
              | Some capacity =>
                  if bool_decide (maxCapacity ≤ capacity) then
                    fail (conflict "SLOT_CAPACITY_EXCEEDED" "pickup slot capacity exceeded")
                  else mret tt
              end
          end
      end.

(** From the priced request to the stored order. *)
Definition reserve_and_save (draft : Order) (p : Priced) : Svc Order :=
  resp ← inventory (λ n, ReservePortions n (MkReserveRequest (o_ID draft) (o_IdempotencyKey draft) (pc_Reserve p)));
  match resp with
  | inl e => fail (mapGRPCError "INVENTORY" e)
  | inr None => fail (dependencyError "INVENTORY_INVALID_RESPONSE")
  | inr (Some r) =>
      if bool_decide (pr_ReservationId r = "") then fail (dependencyError "INVENTORY_INVALID_RESPONSE")
      else if negb (bool_decide (pr_Status r = PbActive)) then
        fail (conflict "RESERVATION_NOT_ACTIVE" "the reservation for this idempotent request is no longer active; retry with a new Idempotency-Key")
      else match uuid_parse (pr_ReservationId r) with
      | None => fail (dependencyError "INVENTORY_INVALID_RESPONSE")
      | Some rid =>
          let release reason := inventory (λ n, ReleaseReservation n
            (MkReservationRequest rid (o_ID draft) (o_ReleaseIdempotencyKey draft) reason)) in
          match pr_ExpiresAt r with
          | Some ts =>
              if negb (ts_valid ts) then
                release "ORDER_RESPONSE_INVALID" ;; fail (dependencyError "INVENTORY_INVALID_RESPONSE")
              else
                t ← go_now;
                if negb (bool_decide (t < AsTime ts)) then
                  release "ORDER_RESERVATION_EXPIRED" ;;
                  fail (conflict "RESERVATION_EXPIRED" "the Inventory reservation expired before the order could be created")
                else
                  let order := MkOrder (o_ID draft) (o_CustomerID draft) (o_PickupAt draft) (o_Status draft)
                    (o_IdempotencyKey draft) (o_RequestHash draft) rid (AsTime ts)
                    (o_ConfirmIdempotencyKey draft) (o_ReleaseIdempotencyKey draft) (pc_Total p) (o_Currency draft)
                    "" "" "" None (pc_Items p) zero_time zero_time in
                  created ← repo (Create order);
                  match created with
                  | inr order => mret order
                  | inl _ =>
                      again ← existing_order (o_CustomerID draft) (o_IdempotencyKey draft) (o_RequestHash draft);
                      match again with
                      | Some existing => mret existing
                      | None => fail (dependencyError "ORDER_STORAGE_UNAVAILABLE")
                      end
                  end
          | None => release "ORDER_RESPONSE_INVALID" ;; fail (dependencyError "INVENTORY_INVALID_RESPONSE")
          end
      end
  end.

(** The order as it is before its stock is reserved. *)
Definition draft_order (customer key hash : string) (pickup : Z) : Order :=
  let orderID := uuid_sha1 (customer +:+ "/" +:+ key) in
  MkOrder orderID customer pickup StatusPendingPayment key hash "" zero_time
    (uuid_sha1 (orderID +:+ "/confirm")) (uuid_sha1 (orderID +:+ "/release")) 0 "THB" "" "" "" None [] zero_time zero_time.

Definition placeOrder (input : CreateOrderInput) (idemKey : string) : Svc Order :=
  match uuid_parse (co_CustomerID input), uuid_parse idemKey with
  | None, _ => fail (badRequest "customer_id must be a UUID")
  | Some _, None => fail (badRequest "Idempotency-Key must be a UUID")
  | Some customer, Some key =>
      let pickup := co_PickupAt input in
      if is_zero_time pickup then fail (badRequest "pickup_at must be a future RFC 3339 timestamp")
      else if negb (bool_decide (truncate pickup (15 * minute) = pickup)) then
        fail (badRequest "pickup_at must be aligned to a 15-minute slot boundary")
      else match normalizeItems (co_Items input) with
      | inl e => fail e
      | inr items =>
          let hash := hashRequest customer pickup items in
          existing ← existing_order customer key hash;
          match existing with
          | Some order => mret order
          | None =>
              check_pickup pickup items ;;
              flavors ← call (λ n, BatchGetFlavors env n (sorted_ids items));
              match flavors with
              | inl e => fail (mapGRPCError "CATALOG" e)
              | inr flavors =>
                  match price_all (by_id flavors) items (MkPriced 0 [] []) (sorted_ids items) with
                  | inl e => fail e
                  | inr p =>
                      if bool_decide (pc_Total p < 1) || bool_decide (pc_Total p > 99999999) then
                        fail (badRequest "checkout total must be between 1 and 99999999 minor units")
                      else reserve_and_save (draft_order customer key hash pickup) p
                  end
              end
          end
      end
  end.

(** ** Checkout *)

Definition bind_checkout (id session url msg : string) : Svc CheckoutResponse :=
  bound ← repo (BindCheckout id session url);
  match bound with
  | inl RInvalidTransition => fail (conflict "CHECKOUT_STATE_CONFLICT" msg)
  | inl _ => fail (dependencyError "ORDER_STORAGE_UNAVAILABLE")
  | inr bound => mret (MkCheckoutResponse bound (o_CheckoutURL bound))
  end.

Definition valid_checkout (session url : string) : bool :=
  negb (bool_decide (session = "")) &&
  match url_Parse (ip_literal env) url with
  | None => false
  | Some u => bool_decide (u_Scheme u = "https") && negb (bool_decide (u_Hostname u = "")) && negb (u_User u)
  end.

Definition startPayment (order : Order) : Svc CheckoutResponse :=
  if negb (bool_decide (o_Status order = StatusPendingPayment)) then mret (MkCheckoutResponse order "")
  else
    t ← go_now;
    if negb (bool_decide (t < o_ReservationExpiresAt order)) then
      fail (conflict "RESERVATION_EXPIRED" "stock hold expired; create a new order with a new Idempotency-Key")
    else if negb (bool_decide (o_CheckoutSessionID order = "")) && negb (bool_decide (o_CheckoutURL order = "")) then
      bind_checkout (o_ID order) (o_CheckoutSessionID order) (o_CheckoutURL order) "order is no longer payable"
    else
      resp ← call (λ n, CreateCheckoutSession env n (MkCheckoutRequest (o_ID order) (o_CustomerID order)
        (o_TotalAmountMinor order) (o_Currency order) (uuid_sha1 (o_ID order +:+ "/checkout"))
        (ts_New (o_ReservationExpiresAt order))));
      match resp with
      | inl e =>
          let mapped := mapGRPCError "PAYMENT" e in
          fail (MkAppError (ae_Code mapped) (ae_Message mapped) (ae_HTTPStatus mapped) (Some (o_ID order)))
      | inr (session, url) =>
          if negb (valid_checkout session url) then fail (dependencyError "PAYMENT_INVALID_RESPONSE")
          else bind_checkout (o_ID order) session url "order is no longer payable or has a different payment session"
      end.

Definition PlaceOrder (input : CreateOrderInput) (idemKey : string) : Svc CheckoutResponse :=
  order ← placeOrder input idemKey;
  startPayment order.

(** ** Payment *)

Definition paymentStateError (orderID : string) : Svc unit :=
  r ← repo (Get orderID);
  match r with
  | inl e => fail (mapRepositoryError e)
  | inr order =>
      let wasPaid := negb (bool_decide (o_PaidAt order = None))
                     || bool_decide (o_CancellationReason order = ReasonStoreCancelled) in
      if (bool_decide (o_Status order = StatusCancelPending) || bool_decide (o_Status order = StatusCancelled))
         && negb wasPaid
      then fail paymentRejected
      else fail (conflict "ORDER_STATE_CONFLICT" "order is not awaiting payment")
  end.

Definition finishPayment (order : Order) : Svc unit :=
  r ← inventory (λ n, ConfirmReservation n
    (MkReservationRequest (o_ReservationID order) (o_ID order) (o_ConfirmIdempotencyKey order) ""));
  match r with
  | inl e =>
      if bool_decide (code_of e = FailedPrecondition) then
        saved ← repo (RejectPaymentConfirmation (o_ID order));
        match saved with
        | inl _ => fail (dependencyError "ORDER_STORAGE_UNAVAILABLE")
        | inr _ => fail paymentRejected
        end
      else fail (mapGRPCError "INVENTORY" e)
  | inr _ =>
      eventID ← new_uuid;
      paidAt ← go_now;
      saved ← repo (MarkPaidWithOutbox (o_ID order) paidAt eventID
        (MkCloudEvent eventID "com.gelatoflow.order.placed.v1" paidAt
          (OrderPlaced (o_ID order) (o_CustomerID order) (o_PickupAt order) (o_TotalAmountMinor order)
            (o_Currency order) (o_Items order))));
      match saved with
      | inl RInvalidTransition => fail (conflict "ORDER_STATE_CONFLICT" "order changed state before payment confirmation")
      | inl _ => fail (dependencyError "ORDER_STORAGE_UNAVAILABLE")
      | inr _ => mret tt
      end
  end.

Definition ConfirmPayment (orderID : string) : Svc unit :=
  r ← repo (BeginTransition orderID StatusPaymentConfirming);
  match r with
  | inl RInvalidTransition => paymentStateError orderID
  | inl e => fail (mapRepositoryError e)
  | inr order =>
      if bool_decide (o_Status order = StatusPaid) then mret tt
      else if negb (bool_decide (o_Status order = StatusPaymentConfirming)) then
        fail (conflict "ORDER_STATE_CONFLICT" "order is not awaiting payment")
      else finishPayment order
  end.

(** ** Cancellation *)

Definition commitCancellation (order : Order) (data : EventBody) : Svc unit :=
  eventID ← new_uuid;
  t ← go_now;
  saved ← repo (MarkCancelled (o_ID order) eventID
    (MkCloudEvent eventID "com.gelatoflow.order.cancelled.v1" t data));
  match saved with
  | inl RInvalidTransition => fail (conflict "ORDER_STATE_CONFLICT" "order changed state before cancellation")
  | inl _ => fail (dependencyError "ORDER_STORAGE_UNAVAILABLE")
  | inr _ => mret tt
  end.

Definition cancellationReason (order : Order) : string :=
  if negb (bool_decide (o_CancellationReason order = "")) then o_CancellationReason order
  else ReasonOrderCancelled.

Definition finishCancellation (order : Order) : Svc unit :=
  let reason := cancellationReason order in
  r ← inventory (λ n, ReleaseReservation n
    (MkReservationRequest (o_ReservationID order) (o_ID order) (o_ReleaseIdempotencyKey order) reason));
  match r with
  | inl e => fail (mapGRPCError "INVENTORY" e)
  | inr _ => commitCancellation order (OrderCancelled (o_ID order) (o_CustomerID order) reason)
  end.

Definition CancelOrder (orderID reason : string) : Svc unit :=
  if negb (bool_decide (reason = "CUSTOMER_REQUEST")) && negb (bool_decide (reason = "PAYMENT_FAILED")) then
    fail (badRequest "reason must be CUSTOMER_REQUEST or PAYMENT_FAILED")
  else
    r ← repo (BeginTransition orderID StatusCancelPending);
    match r with
    | inl RInvalidTransition => fail (conflict "ORDER_STATE_CONFLICT" "only pending-payment orders can be cancelled")
    | inl e => fail (mapRepositoryError e)
    | inr order =>
        if bool_decide (o_Status order = StatusCancelled) then mret tt
        else if negb (bool_decide (o_Status order = StatusCancelPending)) then
          fail (conflict "ORDER_STATE_CONFLICT" "only pending-payment orders can be cancelled")
        else finishCancellation order
    end.

Definition finishStoreCancellation (order : Order) : Svc unit :=
  r ← inventory (λ n, ReturnConfirmedReservation n
    (MkReservationRequest (o_ReservationID order) (o_ID order) (uuid_sha1 (o_ID order +:+ "/return")) ReasonStoreCancelled));
  match r with
  | inl e => fail (mapGRPCError "INVENTORY" e)
  | inr _ =>
      let paidAt := default (o_UpdatedAt order) (o_PaidAt order) in
      commitCancellation order (PaidOrderCancelled (o_ID order) (o_CustomerID order) ReasonStoreCancelled
        (o_TotalAmountMinor order) (o_Currency order) (o_Items order) paidAt)
  end.

Definition unverified : AppError := app "FULFILLMENT_UNAVAILABLE" "fulfillment status could not be verified" 503.

Definition StoreCancelOrder (orderID : string) : Svc unit :=
  match uuid_parse orderID with
  | None => fail (badRequest "order_id must be a UUID")
  | Some _ =>
      r ← repo (Get orderID);
      match r with
      | inl e => fail (mapRepositoryError e)
      | inr order =>
          if bool_decide (o_Status order = StatusCancelled)
             && bool_decide (o_CancellationReason order = ReasonStoreCancelled) then mret tt
          else if bool_decide (o_Status order = StatusStoreCancelPending) then finishStoreCancellation order
          else if negb (bool_decide (o_Status order = StatusPaid)) then
            fail (conflict "ORDER_STATE_CONFLICT" "only paid orders can be cancelled by the store")
          else match fulfillment env with
          | None => fail unverified
          | Some f =>
              ticket ← call (λ n, GetTicket f n (o_ID order));
              match ticket with
              | inl ErrTicketNotFound => fail (conflict "ORDER_PREPARATION_STARTED" "the order is no longer queued; preparation has started or no ticket exists")
              | inl ErrTicketForbidden => fail (app "FORBIDDEN" "staff or manager role is required" 403)
              | inl TicketOther => fail unverified
              | inr st =>
                  if negb (bool_decide (st = "QUEUED")) then
                    fail (conflict "ORDER_PREPARATION_STARTED" "the order is no longer queued; preparation has started or no ticket exists")
                  else
                    claimed ← repo (BeginStoreCancellation (o_ID order));
                    match claimed with
                    | inl RInvalidTransition => fail (conflict "ORDER_STATE_CONFLICT" "only paid orders can be cancelled by the store")
                    | inl e => fail (mapRepositoryError e)
                    | inr claimed =>
                        if bool_decide (o_Status claimed = StatusCancelled) then mret tt
                        else finishStoreCancellation claimed
                    end
              end
          end
      end
  end.

(** ** Background work *)

Definition expireOrder (orderID : string) (now : Z) : Svc unit :=
  r ← repo (BeginExpiry orderID now);
  match r with
  | inl RInvalidTransition => mret tt
  | inl e => fail (mapRepositoryError e)
  | inr order => finishCancellation order
  end.

(** The body of the paging loops: handle each order, collect the failures, stop
    when the context is done.  [inr (failures, true)] asks to stop. *)
Fixpoint each_order (handle : Order → Svc unit) (orders_ : list Order) (failures : list SErr)
    : Svc (list SErr * bool) :=
  match orders_ with
  | [] => mret (failures, false)
  | order :: orders_ =>
      r ← try (handle order);
      let failures := match r with inl e => failures ++ [e] | inr _ => failures end in
      stop ← call (ctx_done env);
      if stop : bool then mret (failures ++ [SCtx], true) else each_order handle orders_ failures
  end.

(** [errors.Join]: no error when there is none to join. *)
Definition join (failures : list SErr) : Svc unit :=
  match failures with [] => mret tt | _ => throw (SJoin failures) end.

Definition expiryPageSize : Z := 100.

Fixpoint expire_loop (fuel : nat) (afterID : string) (failures : list SErr) : Svc unit :=
  match fuel with
  | O => throw SFuel
  | S fuel =>
      now ← go_now;
      r ← repo (ExpiredPendingOrders afterID now expiryPageSize);
      match r with
      | inl e => join (failures ++ [SRepo e])
      | inr orders_ =>
          '(failures, stop) ← each_order (λ c, expireOrder (o_ID c) now) orders_ failures;
          if stop : bool then join failures
          else if bool_decide (Z.of_nat (length orders_) < expiryPageSize) then join failures
          else expire_loop fuel (default "" (o_ID <$> last orders_)) failures
      end
  end.

Definition resume_order (order : Order) : Svc unit :=
  match o_Status order with
  | StatusCancelPending => CancelOrder (o_ID order) "CUSTOMER_REQUEST"
  | StatusStoreCancelPending => finishStoreCancellation order
  | _ => ConfirmPayment (o_ID order)
  end.

Fixpoint resume_loop (fuel : nat) (afterID : string) (failures : list SErr) : Svc unit :=
  match fuel with
  | O => throw SFuel
  | S fuel =>
      r ← repo (PendingTransitions afterID 100);
      match r with
      | inl e => join (failures ++ [SRepo e])
      | inr orders_ =>
          '(failures, stop) ← each_order resume_order orders_ failures;
          if stop : bool then join failures
          else if bool_decide (Z.of_nat (length orders_) < 100) then join failures
          else resume_loop fuel (default "" (o_ID <$> last orders_)) failures
      end
  end.

(** Each page moves [afterID] past at least one row, so one more iteration than
    there are rows is enough. *)
Definition loop_fuel (w : world (OSt X)) : nat := S (size (orders (od (w_db w)))).
Definition ExpireOverdueOrders : Svc unit := λ o w, expire_loop (loop_fuel w) "" [] o w.
Definition ResumePendingTransitions : Svc unit := λ o w, resume_loop (loop_fuel w) "" [] o w.

Definition GetOrder (id : string) : Svc Order :=
  match uuid_parse id with
  | None => fail (badRequest "order_id must be a UUID")
  | Some _ =>
      r ← repo (Get id);
      match r with
      | inl e => fail (mapRepositoryError e)
      | inr order => mret order
      end
  end.

(** The outbox worker: [Publish] may fail, and then the rest waits. *)
Definition publishPending (publish : nat → OutboxEvent → bool) : Svc unit :=
  r ← repo (PendingOutbox 100);
  match r with
  | inl e => throw (SRepo e)
  | inr events =>
      for_each events (λ e,
        ok ← call (λ n, publish n e);
        if negb ok then throw SPublish
        else
          m ← repo (MarkOutboxPublished (oe_ID e));
          match m with inl e => throw (SRepo e) | inr _ => mret tt end)
  end.
End service.
