(* ===== verification/OrdSteps.v ===== *)
(** Order service: the requested items and their prices. *)

From S2P Require Import Prelude Effects GoStd InvModel OrdModel OrdService.

(** ** Prices are exact *)

(** A line of an order: whole portions at a non-negative price, and their exact
    product. *)
Record line_ok (it : OrderItem) : Prop := {
  ln_portions : 1 ≤ oi_Portions it;
  ln_price : 0 ≤ oi_UnitPriceMinor it;
  ln_subtotal : oi_SubtotalMinor it = oi_UnitPriceMinor it * oi_Portions it
}.

(** What the totals of a stored order say. *)
Record order_priced (o : Order) : Prop := {
  op_lines : ∀ it, it ∈ o_Items o → line_ok it;
  op_total : o_TotalAmountMinor o = sum_by oi_SubtotalMinor (o_Items o);
  op_range : 1 ≤ o_TotalAmountMinor o ≤ 99999999;
  op_currency : o_Currency o = "THB";
  op_distinct : NoDup (oi_FlavorID <$> o_Items o)
}.

(** The line the catalog's answer gives for one requested flavor. *)
Definition line_of (byID : string → option PbFlavor) (items : gmap string Z) (id : string) (it : OrderItem) : Prop :=
  ∃ f, byID id = Some f ∧ pf_Active f = true ∧
    pf_Price f = Some (MkPbMoney (Some (oi_UnitPriceMinor it)) (Some "THB")) ∧
    oi_FlavorID it = id ∧ oi_FlavorName it = pf_Name f ∧ items !! id = Some (oi_Portions it) ∧ line_ok it.

Lemma price_line_ok byID items p id p' q :
  price_line byID items p id = inr p' → items !! id = Some q → 1 ≤ q → 0 ≤ pc_Total p ≤ MaxInt64 →
  ∃ it, line_of byID items id it ∧ pc_Items p' = pc_Items p ++ [it] ∧
    pc_Total p' = pc_Total p + oi_SubtotalMinor it ∧ 0 ≤ pc_Total p' ≤ MaxInt64 ∧
    pc_Reserve p' = pc_Reserve p ++ [MkPortionRequest id q].
Proof.
  unfold price_line. intros H Hq Hq1 Ht. destruct (byID id) as [f|] eqn:Hf; [|done].
  destruct (pf_Active f) eqn:Ha; [|done]. destruct (pf_Price f) as [[[amount|] [currency|]]|] eqn:Hp; try done.
  cbn [negb] in H. destruct (_ || _) eqn:Hc; [done|]. bool_guards. subst currency. rewrite Hq in H. cbn in H.
  destruct (_ && _) eqn:Ho in H; [done|].
  assert (Hm : 0 ≤ amount * q ≤ MaxInt64).
  { apply andb_false_iff in Ho as [Ho|Ho]; bool_guards; [lia|].
    pose proof (Z.mul_div_le MaxInt64 q). split; [nia|].
    assert (amount * q ≤ MaxInt64 / q * q) by nia. lia. }
  unfold MaxInt64 in *. rewrite (wrap64_id (amount * q)) in H by (unfold in64; lia).
  rewrite (wrap64_id (9223372036854775807 - amount * q)) in H by (unfold in64; lia).
  case_bool_decide as Hs; [done|]. rewrite wrap64_id in H by (unfold in64; lia). injection H as <-. cbn.
  exists (MkOrderItem id (pf_Name f) q amount (amount * q)). cbn. split_and!; try lia; try done.
  exists f. split_and!; try done. split; cbn; [done|lia|lia].
Qed.

Lemma price_all_ok byID items ids : ∀ p p',
  price_all byID items p ids = inr p' → (∀ id, id ∈ ids → ∃ q, items !! id = Some q ∧ 1 ≤ q) →
  0 ≤ pc_Total p ≤ MaxInt64 →
  ∃ new, Forall2 (line_of byID items) ids new ∧ pc_Items p' = pc_Items p ++ new ∧
    pc_Total p' = pc_Total p + sum_by oi_SubtotalMinor new ∧
    pc_Reserve p' = pc_Reserve p ++ ((λ it, MkPortionRequest (oi_FlavorID it) (oi_Portions it)) <$> new).
Proof.
  induction ids as [|id ids IH]; intros p p' H Hids Ht; cbn in H.
  { injection H as <-. exists []. rewrite !app_nil_r. cbn. split_and!; try done. lia. }
  destruct (price_line byID items p id) as [e|p1] eqn:Hl; [done|].
  destruct (Hids id ltac:(by left)) as (q & Hq & Hq1).
  eapply price_line_ok in Hl as (it & L1 & L2 & L3 & L4 & L5); [|done..].
  apply IH in H as (new & N1 & N2 & N3 & N4); [|intros; apply Hids; by right|done].
  exists (it :: new). cbn. split_and!.
  - by constructor.
  - by rewrite N2, L2, <-app_assoc.
  - lia.
  - rewrite N4, L5, <-app_assoc. cbn. destruct L1 as (f & _ & _ & _ & -> & _ & Hi & _).
    assert (oi_Portions it = q) as -> by congruence. done.
Qed.

(** ** The requested items *)

Section normalize.
Context {uuid : UuidLib}.

Lemma normalize_loop_ok items : ∀ result result', normalize_loop items result = inr result' →
  (∀ id q, result !! id = Some q → 1 ≤ q ∧ uuid_parse id = Some id) →
  (∀ id q, result' !! id = Some q → 1 ≤ q ∧ uuid_parse id = Some id) ∧
  (∀ id q, result' !! id = Some q ↔ result !! id = Some q ∨
     ∃ it, it ∈ items ∧ uuid_parse (ii_FlavorID it) = Some id ∧ ii_Portions it = q) ∧
  size result' = (size result + length items)%nat.
Proof.
  induction items as [|item items IH]; intros result result' H Hr; cbn in H.
  { injection H as <-. split_and!; [done| |cbn; lia]. intros id q. split; [by left|]. intros [?|(it & ? & _)]; [done|set_solver]. }
  destruct (uuid_parse (ii_FlavorID item)) as [key|] eqn:Hk; [|done].
  case_bool_decide as H1; [done|]. case_bool_decide as H2; [done|].
  apply eq_None_not_Some in H2. apply IH in H as (R1 & R2 & R3).
  - split_and!; [done| |].
    + intros id q. rewrite R2, lookup_insert_Some. split.
      * intros [[[<- <-]|[_ Hq]]|(it & Hit & Hq)]; [|by left|]; right; [exists item|exists it]; set_solver.
      * intros [Hq|(it & Hit & Hq & Hp)]; [left; right; split; [congruence|done]|].
        apply elem_of_cons in Hit as [->|Hit]; [left; left; split; congruence|right; eauto].
    + rewrite R3, map_size_insert_None by done. cbn. lia.
  - intros id q. rewrite lookup_insert_Some. intros [[<- <-]|[_ Hq]]; [|by apply Hr].
    split; [lia|]. by eapply uuid_parse_canonical.
Qed.

(** The map holds exactly the requested flavors, each once and with at least one
    portion. *)
Lemma normalizeItems_ok input items : normalizeItems input = inr items →
  (1 ≤ length input ≤ 100)%nat ∧ size items = length input ∧
  (∀ id q, items !! id = Some q → 1 ≤ q ∧ uuid_parse id = Some id) ∧
  (∀ id q, items !! id = Some q ↔
     ∃ it, it ∈ input ∧ uuid_parse (ii_FlavorID it) = Some id ∧ ii_Portions it = q).
Proof.
  unfold normalizeItems. destruct (_ || _) eqn:Hg; [done|]. intros H. bool_guards.
  apply normalize_loop_ok in H as (R1 & R2 & R3); [|done]. split_and!; [lia|lia|..].
  - rewrite R3. done.
  - done.
  - intros id q. rewrite R2. split; [intros [?|?]; [done|done]|by right].
Qed.
End normalize.

Lemma sorted_ids_elem items id : id ∈ sorted_ids items ↔ is_Some (items !! id).
Proof.
  unfold sorted_ids. rewrite merge_sort_Permutation, list_elem_of_fmap. split.
  - intros ([i q] & -> & Hx%elem_of_map_to_list). by exists q.
  - intros [q Hq]. exists (id, q). split; [done|]. by apply elem_of_map_to_list.
Qed.

Lemma sorted_ids_NoDup items : NoDup (sorted_ids items).
Proof. unfold sorted_ids. rewrite merge_sort_Permutation. apply NoDup_fst_map_to_list. Qed.

Lemma lines_ids byID items ids new : Forall2 (line_of byID items) ids new → oi_FlavorID <$> new = ids.
Proof. induction 1 as [|id it ids new (f & _ & _ & _ & E & _) _ IH]; cbn; [done|]. by rewrite E, IH. Qed.

Lemma lines_ok byID items ids new : Forall2 (line_of byID items) ids new → ∀ it, it ∈ new → line_ok it.
Proof.
  induction 1 as [|id it ids new (f & _ & _ & _ & _ & _ & _ & E) _ IH]; intros x Hx; [set_solver|].
  apply elem_of_cons in Hx as [->|Hx]; auto.
Qed.

(** The request as [placeOrder] prices it. *)
Definition priced_request (flavors : list PbFlavor) (items : gmap string Z) (p : Priced) : Prop :=
  Forall2 (line_of (by_id flavors) items) (sorted_ids items) (pc_Items p) ∧
  pc_Total p = sum_by oi_SubtotalMinor (pc_Items p) ∧
  pc_Reserve p = (λ it, MkPortionRequest (oi_FlavorID it) (oi_Portions it)) <$> pc_Items p.

Lemma priced_ok flavors items p : (∀ id q, items !! id = Some q → 1 ≤ q) →
  price_all (by_id flavors) items (MkPriced 0 [] []) (sorted_ids items) = inr p → priced_request flavors items p.
Proof.
  intros Hq H. apply price_all_ok in H as (new & N1 & N2 & N3 & N4).
  - cbn in *. unfold priced_request. rewrite N2, N4. split_and!; [done|lia|done].
  - intros id [q Hid]%sorted_ids_elem. exists q. split; [done|]. by eapply Hq.
  - cbn. unfold MaxInt64. lia.
Qed.

Lemma priced_order flavors items p (o : Order) : priced_request flavors items p →
  o_Items o = pc_Items p → o_TotalAmountMinor o = pc_Total p → o_Currency o = "THB" →
  1 ≤ pc_Total p ≤ 99999999 → order_priced o.
Proof.
  intros (P1 & P2 & _) E1 E2 E3 Hr. split; rewrite ?E1, ?E2; try done.
  - by eapply lines_ok.
  - rewrite (lines_ids _ _ _ _ P1). apply sorted_ids_NoDup.
Qed.

(** Any order that takes its lines and its total from [p]. *)
Definition draft_priced (draft : Order) (p : Priced) : Prop :=
  ∀ o, o_Items o = pc_Items p → o_TotalAmountMinor o = pc_Total p → o_Currency o = o_Currency draft → order_priced o.

(** The checks of [placeOrder] before it reserves. *)
Lemma draft_priced_ok `{!UuidLib} draft input items flavors p :
  normalizeItems input = inr items →
  price_all (by_id flavors) items (MkPriced 0 [] []) (sorted_ids items) = inr p →
  bool_decide (pc_Total p < 1) || bool_decide (pc_Total p > 99999999) = false →
  o_Currency draft = "THB" → draft_priced draft p.
Proof.
  intros Hn Hp Hg Hd o E1 E2 E3. bool_guards. apply normalizeItems_ok in Hn as (_ & _ & Hq & _).
  eapply priced_order; [|done..|congruence|lia]. eapply priced_ok; [|exact Hp]. intros id q Hid. by apply (Hq id q).
Qed.

(** Order service: the abstract state machine of the Order database, and the
    refinement theorem that every operation of the service, in any environment,
    only takes its steps. *)


(** ** The abstract machine *)

Definition begin_upd (target : OrderStatus) (t : Z) (o : Order) : Order := set_url "" (set_status target t o).
Definition expire_upd (t : Z) (o : Order) : Order :=
  set_reason ReasonReservationExpired (set_url "" (set_status StatusCancelPending t o)).
Definition store_upd (t : Z) (o : Order) : Order :=
  set_reason ReasonStoreCancelled (set_status StatusStoreCancelPending t o).
Definition paid_upd (paidAt t : Z) (o : Order) : Order := set_paid_at paidAt (set_status StatusPaid t o).

Definition with_orders (f : gmap string Order → gmap string Order) (d : ODB) : ODB := MkODB (f (orders d)) (outbox d).
Definition with_outbox (f : list OutboxEvent → list OutboxEvent) (d : ODB) : ODB := MkODB (orders d) (f (outbox d)).

(** An order as [placeOrder] builds it. *)
Definition fresh_order (o : Order) : Prop :=
  o_Status o = StatusPendingPayment ∧ o_CancellationReason o = "" ∧ o_PaidAt o = None ∧
  o_CheckoutSessionID o = "" ∧ o_CheckoutURL o = "" ∧ order_priced o.

Lemma fresh_times t o : fresh_order o → fresh_order (set_times t o).
Proof. intros (? & ? & ? & ? & ? & [P1 P2 P3 P4 P5]). split_and!; done. Qed.

(** One write of the repository. *)
Inductive ostep (d : ODB) : ODB → Prop :=
  | os_create o :
      fresh_order o → orders d !! o_ID o = None →
      (∀ i x, orders d !! i = Some x → o_CustomerID x ≠ o_CustomerID o ∨ o_IdempotencyKey x ≠ o_IdempotencyKey o) →
      (∀ i x, orders d !! i = Some x → o_ReservationID x ≠ o_ReservationID o) →
      ostep d (with_orders <[o_ID o := o]> d)
  | os_bind o session url t now :
      orders d !! o_ID o = Some o → o_Status o = StatusPendingPayment →
      now < o_ReservationExpiresAt o → o_CheckoutSessionID o = "" →
      ostep d (with_orders <[o_ID o := set_checkout session url t o]> d)
  | os_begin o target t :
      orders d !! o_ID o = Some o → o_Status o = StatusPendingPayment →
      target = StatusCancelPending ∨ target = StatusPaymentConfirming →
      ostep d (with_orders <[o_ID o := begin_upd target t o]> d)
  | os_reject o t :
      orders d !! o_ID o = Some o → o_Status o = StatusPaymentConfirming →
      ostep d (with_orders <[o_ID o := set_status StatusCancelPending t o]> d)
  | os_expire o t now :
      orders d !! o_ID o = Some o → o_Status o = StatusPendingPayment → o_ReservationExpiresAt o ≤ now →
      ostep d (with_orders <[o_ID o := expire_upd t o]> d)
  | os_store o t :
      orders d !! o_ID o = Some o → o_Status o = StatusPaid →
      ostep d (with_orders <[o_ID o := store_upd t o]> d)
  | os_paid o paidAt t eid e created :
      orders d !! o_ID o = Some o → o_Status o = StatusPaymentConfirming →
      ostep d (with_outbox (λ l, l ++ [MkOutboxEvent eid (o_ID o) "order.placed" e None created])
        (with_orders <[o_ID o := paid_upd paidAt t o]> d))
  | os_cancelled o t eid e created :
      orders d !! o_ID o = Some o → o_Status o = StatusCancelPending ∨ o_Status o = StatusStoreCancelPending →
      ostep d (with_outbox (λ l, l ++ [MkOutboxEvent eid (o_ID o) "order.cancelled" e None created])
        (with_orders <[o_ID o := set_status StatusCancelled t o]> d))
  | os_publish eid t :
      ostep d (with_outbox (fmap (λ e,
        if bool_decide (oe_ID e = eid) && bool_decide (oe_PublishedAt e = None)
        then MkOutboxEvent (oe_ID e) (oe_OrderID e) (oe_RoutingKey e) (oe_Payload e) (Some t) (oe_CreatedAt e)
        else e)) d).

(** Rows are stored under their canonical ids and name a reservation by its
    canonical id. *)
Definition rows_keyed `{!UuidLib} (d : ODB) : Prop :=
  ∀ i x, orders d !! i = Some x → o_ID x = i ∧ uuid_parse i = Some i ∧
    uuid_parse (o_ReservationID x) = Some (o_ReservationID x).

(** The database stays reachable from [d0]. *)
Definition from {X} `{!UuidLib} (d0 : ODB) (s : OSt X) : Prop := rows_keyed (od s) ∧ rtc ostep d0 (od s).

(** ** The repository takes steps of the machine *)

Section refine.
Context {X : Type} {uuid : UuidLib} {pg : PgUuid}.
Abbreviation R := (M (OSt X) RErr).

(** The operation only takes steps of the machine. *)
Abbreviation refines m := (∀ d0, preserves (from (X := X) d0) m).


Lemma rows_keyed_upd d o o' : rows_keyed d → orders d !! o_ID o = Some o → o_ID o' = o_ID o →
  o_ReservationID o' = o_ReservationID o → rows_keyed (with_orders <[o_ID o := o']> d).
Proof.
  intros Hk Ho E E' i x. cbn. rewrite lookup_insert_Some. intros [[<- <-]|[_ Hx]]; [|by apply Hk].
  split; [done|]. rewrite E'. apply (Hk _ _ Ho).
Qed.

Lemma first_ok id o w order w' :
  First (X := X) id o w = (inr order, w') →
  w_db w' = w_db w ∧ ∃ u, pg_uuid id = Some u ∧ orders (od (w_db w)) !! u = Some order.
Proof.
  unfold First, find_order. intros H. run_inv H. apply stmt_ok in Hrun as (_ & _ & s & Hf & ->).
  destruct (pg_uuid id) as [u|]; [|done]. simplify_eq. destruct (orders _ !! u) as [x|] eqn:E; run_inv H.
  split; [done|]. eauto.
Qed.

Lemma first_keyed d0 id o (w : world (OSt X)) order w' :
  from d0 (w_db w) → First id o w = (inr order, w') →
  w_db w' = w_db w ∧ orders (od (w_db w)) !! o_ID order = Some order.
Proof.
  intros [Hk _] (E & u & _ & Hu)%first_ok. split; [done|]. by destruct (Hk _ _ Hu) as [-> _].
Qed.

Lemma updatewhere_ok d0 id l f o (w : world (OSt X)) n w' :
  from d0 (w_db w) → UpdateWhere id l f o w = (inr n, w') →
  (n = 0 ∧ w_db w' = w_db w) ∨
  ∃ order t, n = 1 ∧ orders (od (w_db w)) !! o_ID order = Some order ∧ o_Status order ∈ l ∧
    pg_uuid id = Some (o_ID order) ∧
    w_db w' = on_orders <[o_ID order := f t order]> (w_db w).
Proof.
  intros [Hk _] H. unfold UpdateWhere, find_order in H. run_inv H. apply stmt_ok in H as (_ & _ & s & Hf & ->).
  cbn [w_db] in *. destruct (pg_uuid id) as [u|] eqn:Hu; [|done]. destruct (orders _ !! u) as [order|] eqn:E.
  - case_bool_decide as Hin; simplify_eq; [|by left]. right. destruct (Hk _ _ E) as [Hid _].
    exists order, (or_clock o (w_tick w)). rewrite Hid. done.
  - simplify_eq. by left.
Qed.

(** A transaction whose body, started in a reachable database, takes at most
    one step. *)
Lemma refines_transaction {A} (body : R (txend A)) :
  (∀ d0 o w a w', from d0 (w_db w) → body o w = (inr (Commit a), w') →
     rows_keyed (od (w_db w')) ∧ (od (w_db w') = od (w_db w) ∨ ostep (od (w_db w)) (od (w_db w')))) →
  refines (transaction body).
Proof.
  intros Hb d0. apply preserves_transaction. intros o w a w' Hf _ H _.
  destruct (Hb d0 o w a w' Hf H) as [Hk [E|Hs]]; (split; [done|]); destruct Hf as [_ Hr].
  - by rewrite E.
  - by eapply rtc_r.
Qed.

Lemma alter_row d (o : Order) f : orders d !! o_ID o = Some o →
  alter f (o_ID o) (orders d) = <[o_ID o := f o]> (orders d).
Proof.
  intros Ho. apply map_eq. intros i. rewrite lookup_alter, lookup_insert. case_decide; [|done].
  subst. by rewrite Ho.
Qed.

Ltac commit_step :=
  match goal with Hf : from _ _ |- _ => split; [by apply rows_keyed_upd; [apply Hf|..]|right] end.

Lemma BindCheckout_refines id session url : refines (BindCheckout id session url).
Proof.
  apply refines_transaction. intros d0 o w a w' Hf H. run_inv H.
  eapply first_keyed in Hrun as [E1 Ho]; [|done]. destruct (_ || _) eqn:Hg; run_inv H.
  destruct (negb _ && _) eqn:Hg2; run_inv H. simplify_eq. bool_guards. rename a0 into order.
  apply first_ok in Hrun0 as [-> _]. case_bool_decide as Hs.
  - unfold Updates in Hrun. run_inv Hrun. cbn [w_db od on_orders]. rewrite E1, alter_row by done.
    commit_step. eapply os_bind; eauto.
  - run_inv Hrun. cbn [w_db]. rewrite E1. split; [by destruct Hf|by left].
Qed.

Lemma BeginTransition_refines id target : refines (BeginTransition id target).
Proof.
  unfold BeginTransition. destruct (transition_target target) as [terminal|] eqn:Ht;
    [|intros d0; apply preserves_throw].
  apply refines_transaction. intros d0 o w a w' Hf H. run_inv H.
  eapply first_keyed in Hrun as [E1 Ho]; [|done]. destruct (_ || _) eqn:Hg.
  { run_inv H. rewrite E1. split; [by destruct Hf|by left]. }
  destruct (negb _) eqn:Hg2; run_inv H. bool_guards. cbn [w_db od on_orders]. rewrite E1, alter_row by done.
  commit_step. apply os_begin; auto. destruct target; naive_solver.
Qed.

Lemma RejectPaymentConfirmation_refines id : refines (RejectPaymentConfirmation id).
Proof.
  apply refines_transaction. intros d0 o w a w' Hf H. run_inv H.
  eapply updatewhere_ok in Hrun as [[-> E]|(order & t & -> & Ho & Hin & _ & E)]; [| |done].
  - rewrite bool_decide_eq_false_2 in H by lia. run_inv H. apply first_ok in Hrun as [E2 _].
    destruct (_ || _); run_inv H. rewrite E2, E. split; [by destruct Hf|by left].
  - rewrite bool_decide_eq_true_2 in H by lia. run_inv H. rewrite E.
    commit_step. apply os_reject; [done|]. by apply list_elem_of_singleton in Hin.
Qed.

Lemma BeginExpiry_refines id now : refines (BeginExpiry id now).
Proof.
  apply refines_transaction. intros d0 o w a w' Hf H. run_inv H.
  eapply first_keyed in Hrun as [E1 Ho]; [|done]. destruct (_ || _) eqn:Hg; run_inv H. bool_guards.
  cbn [w_db od on_orders]. rewrite E1, alter_row by done.
  commit_step. apply (os_expire _ _ _ now); auto. lia.
Qed.

Lemma BeginStoreCancellation_refines id : refines (BeginStoreCancellation id).
Proof.
  apply refines_transaction. intros d0 o w a w' Hf H. run_inv H.
  eapply first_keyed in Hrun as [E1 Ho]; [|done]. destruct (_ || _) eqn:Hg.
  { run_inv H. rewrite E1. split; [by destruct Hf|by left]. }
  destruct (negb _) eqn:Hg2; run_inv H. bool_guards. cbn [w_db od on_orders]. rewrite E1, alter_row by done.
  commit_step. by apply os_store.
Qed.

Lemma createevent_ok id order key e o w u w' :
  CreateEvent (X := X) id order key e o w = (inr u, w') →
  ∃ t v, pg_uuid order = Some v ∧ w_db w' = on_outbox (λ l, l ++ [MkOutboxEvent id v key e None t]) (w_db w).
Proof.
  unfold CreateEvent. intros H. run_inv H. apply stmt_ok in H as (_ & _ & s & H & ->).
  destruct (pg_uuid order) as [v|]; simplify_eq. eauto.
Qed.

Lemma MarkPaid_refines id paidAt eid e : refines (MarkPaidWithOutbox id paidAt eid e).
Proof.
  apply refines_transaction. intros d0 o w a w' Hf H. run_inv H.
  eapply updatewhere_ok in Hrun as [[-> E]|(order & t & -> & Ho & Hin & Hpg & E)]; [| |done].
  - rewrite bool_decide_eq_true_2 in H by lia. run_inv H. apply first_ok in Hrun as [E2 _].
    case_bool_decide; run_inv H. rewrite E2, E. split; [by destruct Hf|by left].
  - rewrite bool_decide_eq_false_2 in H by lia. run_inv H. apply createevent_ok in Hrun as (c & v & Hv & Hc).
    assert (v = o_ID order) as -> by congruence. rewrite Hc, E.
    apply list_elem_of_singleton in Hin. commit_step. by apply os_paid.
Qed.

Lemma MarkCancelled_refines id eid e : refines (MarkCancelled id eid e).
Proof.
  apply refines_transaction. intros d0 o w a w' Hf H. run_inv H.
  eapply updatewhere_ok in Hrun as [[-> E]|(order & t & -> & Ho & Hin & Hpg & E)]; [| |done].
  - rewrite bool_decide_eq_true_2 in H by lia. run_inv H. apply first_ok in Hrun as [E2 _].
    case_bool_decide; run_inv H. rewrite E2, E. split; [by destruct Hf|by left].
  - rewrite bool_decide_eq_false_2 in H by lia. run_inv H. apply createevent_ok in Hrun as (c & v & Hv & Hc).
    assert (v = o_ID order) as -> by congruence. rewrite Hc, E.
    commit_step. apply os_cancelled; [done|]. set_solver.
Qed.

Lemma Create_refines order : fresh_order order → uuid_parse (o_ID order) = Some (o_ID order) →
  uuid_parse (o_ReservationID order) = Some (o_ReservationID order) → refines (Create order).
Proof.
  intros Hfresh Hid Hrid. apply refines_transaction. intros d0 o w a w' Hf H. run_inv H.
  apply stmt_ok in H as (_ & _ & s & H & ->). cbn [w_db] in *.
  case_bool_decide as E1; [done|]. destruct (existsb _ _) eqn:E2; [done|].
  destruct (existsb _ (map_to_list _)) eqn:E3 in H; [done|]. simplify_eq. cbn [od on_orders].
  assert (Hnone : orders (od (w_db w)) !! o_ID order = None) by (by apply eq_None_not_Some).
  set (new := set_times _ order). assert (Hn : o_ID new = o_ID order) by done. split.
  - intros i x. cbn. rewrite lookup_insert_Some. intros [[<- <-]|[_ Hx]]; [done|by apply (proj1 Hf)].
  - right. rewrite <-Hn. apply (os_create _ new); [by apply fresh_times|done|..].
    + intros i x Hx. apply not_true_iff_false in E2. destruct (decide (o_CustomerID x = o_CustomerID order)); [right|by left].
      intros E. apply E2, existsb_exists. exists (i, x). split; [by apply list_elem_of_In, elem_of_map_to_list|].
      cbn. rewrite !bool_decide_eq_true_2 by done. done.
    + intros i x Hx E. apply not_true_iff_false in E3. apply E3, existsb_exists. exists (i, x).
      split; [by apply list_elem_of_In, elem_of_map_to_list|]. by apply bool_decide_eq_true.
Qed.

Lemma MarkOutboxPublished_refines id : refines (MarkOutboxPublished (X := X) id).
Proof.
  intros d0. apply preserves_pool_stmt. intros t s a s' [Hk Hr] [= <- <-]. split; [done|].
  eapply rtc_r; [exact Hr|]. by apply os_publish.
Qed.

Lemma reads_refine {E A} (m : M (OSt X) E A) : (∀ d, preserves (λ s, s = d) m) → refines m.
Proof.
  intros Hm d0 o w Hf. specialize (Hm (w_db w) o w eq_refl). cbn in Hm. by rewrite Hm.
Qed.
Lemma Get_refines id : refines (Get (X := X) id).
Proof.
  apply reads_refine. intros d. unfold Get. apply preserves_bind; [|intros []; preserve].
  apply preserves_pool_stmt. intros t s a s' <- H. destruct (find_order id s); by simplify_eq.
Qed.
Lemma GetByIdempotencyKey_refines c k : refines (GetByIdempotencyKey (X := X) c k).
Proof. apply reads_refine. intros d. unfold GetByIdempotencyKey. preserve. Qed.
Lemma pool_query_refines {A} (f : Z → OSt X → A) : refines (pool_query f : R A).
Proof. apply reads_refine. intros d. preserve. Qed.
End refine.

#[export] Hint Resolve BindCheckout_refines BeginTransition_refines RejectPaymentConfirmation_refines
  BeginExpiry_refines BeginStoreCancellation_refines MarkPaid_refines MarkCancelled_refines
  MarkOutboxPublished_refines Get_refines GetByIdempotencyKey_refines pool_query_refines : preserves.

(** ** The service takes steps of the machine *)

Section service.
Context {X : Type} {uuid : UuidLib} {pg : PgUuid} {ids : OrderIds} {inv : InventoryClient X} (env : Env).
Abbreviation Svc := (M (OSt X) SErr).
Abbreviation refines m := (∀ d0, preserves (from (X := X) d0) m).

Lemma refines_repo {A} (m : M (OSt X) RErr A) d0 : (∀ d, preserves (from d) m) → preserves (from d0) (repo m).
Proof. intros Hm. apply preserves_try, Hm. Qed.
Lemma refines_inventory {A} (f : nat → X → A * X) d0 : preserves (from d0) (inventory f).
Proof. intros o w Hf. unfold inventory. by destruct (f _ _). Qed.
Lemma refines_call {A} (f : nat → A) d0 : preserves (from d0) (call (X := X) f).
Proof. by intros o w. Qed.
Lemma refines_fail {A} e d0 : preserves (from d0) (fail e : Svc A).
Proof. apply preserves_throw. Qed.
Hint Resolve refines_repo refines_inventory refines_call refines_fail : preserves.

(** An operation of the service, taken apart into its calls. *)
Ltac refine_op := intros d0; preserve.

Lemma existing_order_refines c k h : refines (existing_order (X := X) c k h).
Proof. unfold existing_order. refine_op. Qed.
Lemma check_pickup_refines p items : refines (check_pickup (X := X) env p items).
Proof. unfold check_pickup, CountOrdersInSlot. refine_op. Qed.
Lemma reserve_and_save_refines draft p :
  o_Status draft = StatusPendingPayment → uuid_parse (o_ID draft) = Some (o_ID draft) → draft_priced draft p →
  refines (reserve_and_save (X := X) draft p).
Proof.
  intros Hs Hid Hp. pose proof existing_order_refines as He. unfold reserve_and_save. refine_op.
  apply refines_repo, Create_refines; [split_and!; try done; by apply Hp|done|]. by eapply uuid_parse_canonical.
Qed.
Hint Resolve existing_order_refines check_pickup_refines reserve_and_save_refines : preserves.

Lemma placeOrder_refines input key : refines (placeOrder (X := X) env input key).
Proof.
  unfold placeOrder. refine_op. apply reserve_and_save_refines; [done|apply uuid_sha1_canonical|].
  by eapply draft_priced_ok.
Qed.

Lemma bind_checkout_refines id s u m : refines (bind_checkout (X := X) id s u m).
Proof. unfold bind_checkout. refine_op. Qed.
Hint Resolve placeOrder_refines bind_checkout_refines : preserves.

Lemma startPayment_refines order : refines (startPayment (X := X) env order).
Proof. unfold startPayment. refine_op. Qed.
Hint Resolve startPayment_refines : preserves.
Lemma PlaceOrder_refines input key : refines (PlaceOrder (X := X) env input key).
Proof. unfold PlaceOrder. refine_op. Qed.

Lemma commitCancellation_refines order data : refines (commitCancellation (X := X) order data).
Proof. unfold commitCancellation. refine_op. Qed.
Lemma paymentStateError_refines id : refines (paymentStateError (X := X) id).
Proof. unfold paymentStateError. refine_op. Qed.
Hint Resolve commitCancellation_refines paymentStateError_refines : preserves.
Lemma finishPayment_refines order : refines (finishPayment (X := X) order).
Proof. unfold finishPayment. refine_op. Qed.
Lemma finishCancellation_refines order : refines (finishCancellation (X := X) order).
Proof. unfold finishCancellation. refine_op. Qed.
Lemma finishStoreCancellation_refines order : refines (finishStoreCancellation (X := X) order).
Proof. unfold finishStoreCancellation. refine_op. Qed.
Hint Resolve finishPayment_refines finishCancellation_refines finishStoreCancellation_refines : preserves.

Lemma ConfirmPayment_refines id : refines (ConfirmPayment (X := X) id).
Proof. unfold ConfirmPayment. refine_op. Qed.
Lemma CancelOrder_refines id reason : refines (CancelOrder (X := X) id reason).
Proof. unfold CancelOrder. refine_op. Qed.
Lemma StoreCancelOrder_refines id : refines (StoreCancelOrder (X := X) env id).
Proof. unfold StoreCancelOrder. refine_op. Qed.
Lemma expireOrder_refines id now : refines (expireOrder (X := X) id now).
Proof. unfold expireOrder. refine_op. Qed.
Hint Resolve ConfirmPayment_refines CancelOrder_refines StoreCancelOrder_refines expireOrder_refines : preserves.
Lemma resume_order_refines order : refines (resume_order (X := X) order).
Proof. unfold resume_order. refine_op. Qed.

Lemma each_order_refines handle l : (∀ x, refines (handle x)) → ∀ f, refines (each_order (X := X) env handle l f).
Proof. intros Hh. induction l as [|x l IH]; intros f; cbn; refine_op. Qed.
Lemma join_refines l : refines (join (X := X) l).
Proof. unfold join. refine_op. Qed.
Hint Resolve resume_order_refines join_refines : preserves.

Lemma expire_loop_refines fuel : ∀ a f, refines (expire_loop (X := X) env fuel a f).
Proof.
  induction fuel as [|fuel IH]; intros a f; cbn; unfold ExpiredPendingOrders; refine_op.
  apply each_order_refines. intros x. apply expireOrder_refines.
Qed.
Lemma resume_loop_refines fuel : ∀ a f, refines (resume_loop (X := X) env fuel a f).
Proof.
  induction fuel as [|fuel IH]; intros a f; cbn; unfold PendingTransitions; refine_op.
  apply each_order_refines. apply resume_order_refines.
Qed.
Lemma ExpireOverdueOrders_refines : refines (ExpireOverdueOrders (X := X) env).
Proof. intros d0 o w. apply expire_loop_refines. Qed.
Lemma ResumePendingTransitions_refines : refines (ResumePendingTransitions (X := X) env).
Proof. intros d0 o w. apply resume_loop_refines. Qed.
Lemma publishPending_refines p : refines (publishPending (X := X) p).
Proof. unfold publishPending, PendingOutbox. refine_op. Qed.
End service.
