(* ===== verification/OrdTheorems.v ===== *)
(** Order service: what the abstract machine guarantees, and with it the
    service. *)

From S2P Require Import Prelude Effects GoStd InvModel OrdModel OrdService OrdSteps.

(** ** The service as a system *)

Inductive OCall :=
  | CallPlaceOrder (input : CreateOrderInput) (key : string)
  | CallConfirmPayment (id : string)
  | CallCancelOrder (id reason : string)
  | CallStoreCancel (id : string)
  | CallGetOrder (id : string)
  | CallExpire
  | CallResume
  | CallPublish (publish : nat → OutboxEvent → bool).

(** One transaction of the repository, with arguments some call of the service
    could give it.  Calls that run at the same time interleave at this grain:
    every repository operation is one transaction and locks the row it
    changes. *)
Inductive ORepo :=
  | OpCreate (order : Order)
  | OpBindCheckout (id session url : string)
  | OpBeginTransition (id : string) (target : OrderStatus)
  | OpRejectPaymentConfirmation (id : string)
  | OpBeginExpiry (id : string) (now : Z)
  | OpBeginStoreCancellation (id : string)
  | OpMarkPaidWithOutbox (id : string) (paidAt : Z) (eid : string) (e : CloudEvent)
  | OpMarkCancelled (id eid : string) (e : CloudEvent)
  | OpMarkOutboxPublished (id : string).

Section system.
Context {X : Type} {uuid : UuidLib} {pg : PgUuid} {ids : OrderIds} {inv : InventoryClient X}.

Definition run_call (env : Env) (c : OCall) : M (OSt X) SErr unit :=
  match c with
  | CallPlaceOrder input key => _ ← PlaceOrder env input key; mret tt
  | CallConfirmPayment id => ConfirmPayment id
  | CallCancelOrder id reason => CancelOrder id reason
  | CallStoreCancel id => StoreCancelOrder env id
  | CallGetOrder id => _ ← GetOrder id; mret tt
  | CallExpire => ExpireOverdueOrders env
  | CallResume => ResumePendingTransitions env
  | CallPublish publish => publishPending publish
  end.

Definition run_repo (op : ORepo) : M (OSt X) RErr unit :=
  match op with
  | OpCreate order => _ ← Create order; mret tt
  | OpBindCheckout id session url => _ ← BindCheckout id session url; mret tt
  | OpBeginTransition id target => _ ← BeginTransition id target; mret tt
  | OpRejectPaymentConfirmation id => RejectPaymentConfirmation id
  | OpBeginExpiry id now => _ ← BeginExpiry id now; mret tt
  | OpBeginStoreCancellation id => _ ← BeginStoreCancellation id; mret tt
  | OpMarkPaidWithOutbox id paidAt eid e => MarkPaidWithOutbox id paidAt eid e
  | OpMarkCancelled id eid e => MarkCancelled id eid e
  | OpMarkOutboxPublished id => MarkOutboxPublished id
  end.

(** The service creates only new orders, under name-based ids. *)
Definition op_ok (op : ORepo) : Prop :=
  match op with
  | OpCreate order => fresh_order order ∧ uuid_parse (o_ID order) = Some (o_ID order) ∧
      uuid_parse (o_ReservationID order) = Some (o_ReservationID order)
  | _ => True
  end.

(** A call, or one transaction of a concurrent call, in any environment and
    whatever it answers; [x] is what other clients made of the Inventory
    service meanwhile. *)
Inductive call_step (s : OSt X) : OSt X → Prop :=
  | call_step_run env c o w x : w_db w = MkOSt (od s) x → call_step s (w_db (run_call env c o w).2)
  | call_step_repo op o w x : w_db w = MkOSt (od s) x → op_ok op → call_step s (w_db (run_repo op o w).2).

Lemma GetOrder_refines id d0 : preserves (from (X := X) d0) (GetOrder id).
Proof.
  unfold GetOrder, fail. preserve.
Qed.

Lemma run_call_refines env c d0 : preserves (from (X := X) d0) (run_call env c).
Proof.
  pose proof GetOrder_refines.
  destruct c; cbn [run_call]; preserve.
  - apply PlaceOrder_refines.
  - apply ConfirmPayment_refines.
  - apply CancelOrder_refines.
  - apply StoreCancelOrder_refines.
  - apply ExpireOverdueOrders_refines.
  - apply ResumePendingTransitions_refines.
  - apply publishPending_refines.
Qed.

Lemma run_repo_refines op d0 : op_ok op → preserves (from (X := X) d0) (run_repo op).
Proof. destruct op; cbn [run_repo op_ok]; intros Hop; preserve. destruct Hop as (? & ? & ?). by apply Create_refines. Qed.

Lemma calls_from s s' : rtc call_step s s' → rows_keyed (od s) → from (od s) s'.
Proof.
  intros Hs Hk. assert (Hf : from (od s) s) by (split; [done|apply rtc_refl]).
  clear Hk. revert Hf. generalize (od s) as d0. intros d0 Hf.
  induction Hs as [|x y z Hxy _ IH]; [done|]. apply IH.
  destruct Hxy as [env c o w v E|op o w v E Hop]; [apply run_call_refines|apply run_repo_refines]; rewrite ?E; done.
Qed.
End system.

(** ** Invariants of the machine *)

(** What a state says about payment and cancellation. *)
Definition order_ok (o : Order) : Prop :=
  match o_Status o with
  | StatusPendingPayment | StatusPaymentConfirming => o_PaidAt o = None ∧ o_CancellationReason o = ""
  | StatusCancelPending => o_PaidAt o = None ∧ o_CancellationReason o ≠ ReasonStoreCancelled
  | StatusPaid => is_Some (o_PaidAt o) ∧ o_CancellationReason o = ""
  | StatusStoreCancelPending => is_Some (o_PaidAt o) ∧ o_CancellationReason o = ReasonStoreCancelled
  | StatusCancelled => is_Some (o_PaidAt o) ↔ o_CancellationReason o = ReasonStoreCancelled
  | _ => False
  end.

Definition events (key id : string) (l : list OutboxEvent) : Z :=
  sum_where (λ e, bool_decide (oe_RoutingKey e = key) && bool_decide (oe_OrderID e = id)) (λ _, 1) l.

(** The transactional outbox: one [order.placed] event for each order that was
    paid, one [order.cancelled] event for each that was cancelled, and none for
    any other. *)
Record outbox_ok (d : ODB) : Prop := {
  ob_order : ∀ id o, orders d !! id = Some o → o_ID o = id ∧ order_ok o;
  ob_placed : ∀ id, events "order.placed" id (outbox d) =
    match orders d !! id with
    | Some o => if bool_decide (is_Some (o_PaidAt o)) then 1 else 0
    | None => 0
    end;
  ob_cancelled : ∀ id, events "order.cancelled" id (outbox d) =
    match orders d !! id with
    | Some o => if bool_decide (o_Status o = StatusCancelled) then 1 else 0
    | None => 0
    end
}.

Lemma events_app key id l1 l2 : events key id (l1 ++ l2) = events key id l1 + events key id l2.
Proof. apply sum_where_app. Qed.
Lemma events_one key id e :
  events key id [e] = if bool_decide (oe_RoutingKey e = key) && bool_decide (oe_OrderID e = id) then 1 else 0.
Proof. unfold events, sum_where. cbn. lia. Qed.
Lemma events_publish key id eid t l :
  events key id (fmap (λ e,
    if bool_decide (oe_ID e = eid) && bool_decide (oe_PublishedAt e = None)
    then MkOutboxEvent (oe_ID e) (oe_OrderID e) (oe_RoutingKey e) (oe_Payload e) (Some t) (oe_CreatedAt e)
    else e) l) = events key id l.
Proof.
  unfold events, sum_where. induction l as [|e l IH]; [done|]. cbn. rewrite IH. f_equal.
  by destruct (_ && bool_decide (oe_PublishedAt e = None)).
Qed.

(** A row update that changes neither of the two facts the outbox records. *)
Lemma outbox_ok_quiet d o o' : outbox_ok d → orders d !! o_ID o = Some o → o_ID o' = o_ID o → order_ok o' →
  (is_Some (o_PaidAt o') ↔ is_Some (o_PaidAt o)) → o_Status o' ≠ StatusCancelled → o_Status o ≠ StatusCancelled →
  outbox_ok (with_orders <[o_ID o := o']> d).
Proof.
  intros [H1 H2 H3] Ho Hid Hok Hp Hs Hs'. split; cbn [with_orders with_outbox orders outbox].
  - intros id x. rewrite lookup_insert_Some. intros [[<- <-]|[_ Hx]]; auto.
  - intros id. rewrite H2, lookup_insert. case_decide; [subst|done]. rewrite Ho.
    by rewrite (bool_decide_ext _ _ Hp).
  - intros id. rewrite H3, lookup_insert. case_decide; [subst|done]. rewrite Ho.
    by rewrite !bool_decide_eq_false_2.
Qed.

Lemma ostep_outbox d d' : ostep d d' → outbox_ok d → outbox_ok d'.
Proof.
  intros Hs Hok. pose proof (ob_order _ Hok) as Hord.
  destruct Hs as [o Hf Hn _ _|o se url t now Ho Hst _ Hse|o tg t Ho Hst Htg|o t Ho Hst|o t now Ho Hst _|o t Ho Hst
    |o pa t eid e c Ho Hst|o t eid e c Ho Hst|eid t].
  - destruct Hf as (F1 & F2 & F3 & _). destruct Hok as [H1 H2 H3]. split; cbn [with_orders with_outbox orders outbox].
    + intros id x. rewrite lookup_insert_Some. intros [[<- <-]|[_ Hx]]; [|by apply H1].
      split; [done|]. unfold order_ok. by rewrite F1.
    + intros id. rewrite H2, lookup_insert. case_decide; [subst|done]. rewrite Hn, F3. done.
    + intros id. rewrite H3, lookup_insert. case_decide; [subst|done]. rewrite Hn, F1. done.
  - destruct (Hord _ _ Ho) as [_ Ho']. apply outbox_ok_quiet; try done; cbn; rewrite ?Hst; try done.
  - destruct (Hord _ _ Ho) as [_ Ho']. unfold order_ok in Ho'. rewrite Hst in Ho'. destruct Ho' as [P1 P2].
    apply outbox_ok_quiet; try done; cbn; rewrite ?Hst; try done.
    + unfold order_ok. destruct Htg as [-> | ->]; cbn; rewrite ?P2; done.
    + by destruct Htg as [-> | ->].
  - destruct (Hord _ _ Ho) as [_ Ho']. unfold order_ok in Ho'. rewrite Hst in Ho'. destruct Ho' as [P1 P2].
    apply outbox_ok_quiet; try done; cbn; rewrite ?Hst; try done. unfold order_ok. cbn. by rewrite P2.
  - destruct (Hord _ _ Ho) as [_ Ho']. unfold order_ok in Ho'. rewrite Hst in Ho'. destruct Ho' as [P1 P2].
    apply outbox_ok_quiet; try done; cbn; rewrite ?Hst; done.
  - destruct (Hord _ _ Ho) as [_ Ho']. unfold order_ok in Ho'. rewrite Hst in Ho'. destruct Ho' as [P1 P2].
    apply outbox_ok_quiet; try done; cbn; rewrite ?Hst; done.
  - destruct (Hord _ _ Ho) as [_ Ho']. unfold order_ok in Ho'. rewrite Hst in Ho'. destruct Ho' as [P1 P2].
    destruct Hok as [H1 H2 H3]. split; cbn [with_orders with_outbox orders outbox].
    + intros id x. rewrite lookup_insert_Some. intros [[<- <-]|[_ Hx]]; [|by apply H1]. split; [done|].
      unfold order_ok. cbn. rewrite P2. eauto.
    + intros id. rewrite events_app, H2, events_one, lookup_insert. cbn.
      case_decide as E; [subst id|]; [rewrite Ho, P1|]; repeat case_bool_decide; cbn in *; simplify_eq; try done.
      all: try lia; try (exfalso; eauto).
    + intros id. rewrite events_app, H3, events_one, lookup_insert. cbn.
      case_decide as E; [subst id|]; [rewrite Ho, Hst|]; repeat case_bool_decide; cbn in *; simplify_eq; try done; lia.
  - destruct (Hord _ _ Ho) as [_ Ho']. destruct Hok as [H1 H2 H3]. split; cbn [with_orders with_outbox orders outbox].
    + intros id x. rewrite lookup_insert_Some. intros [[<- <-]|[_ Hx]]; [|by apply H1]. split; [done|].
      unfold order_ok in *. cbn. destruct Hst as [E|E]; rewrite E in Ho'; destruct Ho' as [P1 P2]; rewrite ?P1; split; try done.
    + intros id. rewrite events_app, H2, events_one, lookup_insert. cbn.
      case_decide as E; [subst id|]; [rewrite Ho|]; repeat case_bool_decide; cbn in *; simplify_eq; try done; lia.
    + intros id. rewrite events_app, H3, events_one, lookup_insert. cbn.
      case_decide as E; [subst id|]; [rewrite Ho|]; repeat case_bool_decide; cbn in *; simplify_eq; try done; try lia.
      all: try (destruct Hst; congruence). all: exfalso; eauto.
  - destruct Hok as [H1 H2 H3]. split; cbn [with_orders with_outbox orders outbox]; [done|..]; intros id; by rewrite events_publish.
Qed.

(** ** The life of an order *)

Inductive order_next : OrderStatus → OrderStatus → Prop :=
  | next_confirming : order_next StatusPendingPayment StatusPaymentConfirming
  | next_cancel : order_next StatusPendingPayment StatusCancelPending
  | next_rejected : order_next StatusPaymentConfirming StatusCancelPending
  | next_paid : order_next StatusPaymentConfirming StatusPaid
  | next_store : order_next StatusPaid StatusStoreCancelPending
  | next_cancelled : order_next StatusCancelPending StatusCancelled
  | next_store_cancelled : order_next StatusStoreCancelPending StatusCancelled.

(** What an order is: fixed when it is created. *)
Definition identity (o : Order) :=
  (o_ID o, o_CustomerID o, o_PickupAt o, o_IdempotencyKey o, o_RequestHash o,
   (o_ReservationID o, o_ReservationExpiresAt o, o_ConfirmIdempotencyKey o, o_ReleaseIdempotencyKey o),
   (o_TotalAmountMinor o, o_Currency o, o_Items o, o_CreatedAt o)).

(** Cancelled, or bound to be, before any payment. *)
Definition closed (s : OrderStatus) : bool :=
  match s with StatusCancelPending | StatusCancelled => true | _ => false end.

Record evolves (o o' : Order) : Prop := {
  ev_identity : identity o' = identity o;
  ev_status : rtc order_next (o_Status o) (o_Status o');
  ev_paid : is_Some (o_PaidAt o) → o_PaidAt o' = o_PaidAt o;
  ev_session : o_CheckoutSessionID o ≠ "" → o_CheckoutSessionID o' = o_CheckoutSessionID o;
  ev_closed : closed (o_Status o) → closed (o_Status o') ∧ o_PaidAt o' = o_PaidAt o
}.

#[global] Instance evolves_preorder : PreOrder evolves.
Proof.
  split.
  - intros o. split; auto using rtc_refl.
  - intros x y z [I1 S1 P1 C1 D1] [I2 S2 P2 C2 D2]. split.
    + congruence.
    + by etrans.
    + intros H. rewrite P2; [auto|]. by rewrite P1.
    + intros H. rewrite C2; [auto|]. by rewrite C1.
    + intros H. destruct (D1 H) as [H1 <-]. by apply D2.
Qed.

Lemma insert_evolves (m : gmap string Order) o o' :
  m !! o_ID o = Some o → evolves o o' →
  ∀ id x, m !! id = Some x → ∃ x', <[o_ID o := o']> m !! id = Some x' ∧ evolves x x'.
Proof.
  intros Ho He id x Hx. destruct (decide (o_ID o = id)) as [<-|Hne].
  - rewrite lookup_insert_eq. exists o'. split; [done|]. by simplify_eq.
  - rewrite lookup_insert_ne by done. exists x. by split.
Qed.

Lemma ostep_evolves d d' : ostep d d' → outbox_ok d →
  ∀ id o, orders d !! id = Some o → ∃ o', orders d' !! id = Some o' ∧ evolves o o'.
Proof.
  intros Hs Hok. pose proof (ob_order _ Hok) as Hord.
  destruct Hs as [o Hf Hn _ _|o se url t now Ho Hst _ Hse|o tg t Ho Hst Htg|o t Ho Hst|o t now Ho Hst _|o t Ho Hst
    |o pa t eid e c Ho Hst|o t eid e c Ho Hst|eid t]; cbn [with_orders with_outbox orders].
  1: { intros id x Hx. exists x. rewrite lookup_insert_ne by congruence. by split. }
  all: try (apply insert_evolves; [done|]; split; cbn; try done; rewrite ?Hst; try apply rtc_once; try (intros []; fail); try by constructor).
  - destruct Htg as [-> | ->]; constructor.
  - destruct (Hord _ _ Ho) as [_ Hoo]. unfold order_ok in Hoo. rewrite Hst in Hoo. destruct Hoo as [-> _]. by intros [? ?].
  - destruct Hst as [-> | ->]; constructor.
  - intros id o Ho. exists o. by split.
Qed.

Lemma osteps_ok d d' : rtc ostep d d' → outbox_ok d →
  outbox_ok d' ∧ ∀ id o, orders d !! id = Some o → ∃ o', orders d' !! id = Some o' ∧ evolves o o'.
Proof.
  induction 1 as [d|d1 d2 d3 Hs _ IH]; intros Hok.
  - split; [done|]. intros id o Ho. exists o. by split.
  - destruct (IH (ostep_outbox _ _ Hs Hok)) as [Hok' Hev]. split; [done|]. intros id o Ho.
    destruct (ostep_evolves _ _ Hs Hok id o Ho) as (o1 & H1 & E1). destruct (Hev id o1 H1) as (o2 & H2 & E2).
    exists o2. split; [done|]. by etrans.
Qed.

(** The keys of the unique indexes. *)
Record keys_unique (d : ODB) : Prop := {
  ku_key : ∀ i j x y, orders d !! i = Some x → orders d !! j = Some y →
    o_CustomerID x = o_CustomerID y → o_IdempotencyKey x = o_IdempotencyKey y → i = j;
  ku_reservation : ∀ i j x y, orders d !! i = Some x → orders d !! j = Some y →
    o_ReservationID x = o_ReservationID y → i = j
}.

Lemma keys_unique_upd d o o' : keys_unique d → orders d !! o_ID o = Some o → identity o' = identity o →
  keys_unique (with_orders <[o_ID o := o']> d).
Proof.
  intros [K1 K2] Ho [= I1 I2 I3 I4 I5 I6 I7 I8 I9 I10 I11 I12 I13].
  split; intros i j x y; cbn; rewrite !lookup_insert_Some;
    intros [[<- <-]|[? Hx]] [[<- <-]|[? Hy]]; rewrite ?I2, ?I4, ?I6; eauto.
Qed.

Lemma keys_unique_outbox d l : keys_unique d → keys_unique (with_outbox l d).
Proof. by intros [K1 K2]. Qed.

Lemma ostep_keys d d' : ostep d d' → keys_unique d → keys_unique d'.
Proof.
  intros Hs Hk.
  destruct Hs as [o Hf Hn Hkey Hres|o se url t now Ho Hst _ Hse|o tg t Ho Hst Htg|o t Ho Hst|o t now Ho Hst _|o t Ho Hst
    |o pa t eid e c Ho Hst|o t eid e c Ho Hst|eid t].
  1: { destruct Hk as [K1 K2]. split; intros i j x y; cbn; rewrite !lookup_insert_Some;
    intros [[<- <-]|[? Hx]] [[<- <-]|[? Hy]]; eauto.
    + destruct (Hkey _ _ Hy); congruence.
    + destruct (Hkey _ _ Hx); congruence.
    + intros E. destruct (Hres _ _ Hy); congruence.
    + intros E. destruct (Hres _ _ Hx); congruence. }
  all: first [by apply keys_unique_upd|apply keys_unique_outbox; first [done|by apply keys_unique_upd]].
Qed.

Lemma osteps_keys d d' : rtc ostep d d' → keys_unique d → keys_unique d'.
Proof. induction 1; eauto using ostep_keys. Qed.

(** Every stored order is priced exactly. *)
Definition all_priced (d : ODB) : Prop := map_Forall (λ _, order_priced) (orders d).

Lemma priced_identity o o' : identity o' = identity o → order_priced o → order_priced o'.
Proof.
  intros [= _ _ _ _ _ _ _ _ _ E1 E2 E3 _] [P1 P2 P3 P4 P5]. by split; rewrite ?E1, ?E2, ?E3.
Qed.

Lemma priced_upd d o o' : all_priced d → orders d !! o_ID o = Some o → identity o' = identity o →
  all_priced (with_orders <[o_ID o := o']> d).
Proof.
  intros Hp Ho E. unfold all_priced. cbn. apply map_Forall_insert_2; [|done].
  eapply priced_identity; [exact E|]. by eapply Hp.
Qed.

Lemma ostep_priced d d' : ostep d d' → all_priced d → all_priced d'.
Proof.
  intros Hs Hp.
  destruct Hs as [o Hf Hn _ _|o se url t now Ho Hst _ Hse|o tg t Ho Hst Htg|o t Ho Hst|o t now Ho Hst _|o t Ho Hst
    |o pa t eid e c Ho Hst|o t eid e c Ho Hst|eid t].
  1: { apply map_Forall_insert_2; [apply Hf|done]. }
  all: first [by apply (priced_upd _ _ _ Hp Ho)|exact Hp].
Qed.

Lemma osteps_priced d d' : rtc ostep d d' → all_priced d → all_priced d'.
Proof. induction 1; eauto using ostep_priced. Qed.

(** The states of a service that started with an empty database. *)
Definition oreachable {X} `{!UuidLib, !PgUuid, !OrderIds, !InventoryClient X} (s : OSt X) : Prop :=
  ∃ x0, rtc call_step (MkOSt empty_odb x0) s.

Record odb_ok `{!UuidLib} (d : ODB) : Prop := {
  od_keyed : rows_keyed d;
  od_outbox : outbox_ok d;
  od_unique : keys_unique d;
  od_priced : all_priced d
}.

Section reachable.
Context {X : Type} {uuid : UuidLib} {pg : PgUuid} {ids : OrderIds} {inv : InventoryClient X}.

Lemma empty_odb_ok : odb_ok empty_odb.
Proof. by split; [|split|split|]. Qed.

Lemma calls_ok (s s' : OSt X) : rtc call_step s s' → odb_ok (od s) →
  odb_ok (od s') ∧ ∀ id o, orders (od s) !! id = Some o → ∃ o', orders (od s') !! id = Some o' ∧ evolves o o'.
Proof.
  intros Hs [Hk Hok Hu Hp]. destruct (calls_from _ _ Hs Hk) as [Hk' Hr].
  destruct (osteps_ok _ _ Hr Hok) as [Hok' Hev]. split; [|done].
  split; [done|done|by eapply osteps_keys|by eapply osteps_priced].
Qed.

Lemma reachable_ok (s : OSt X) : oreachable s → odb_ok (od s).
Proof. intros [x0 Hr]. by apply calls_ok in Hr as [? _]; [|apply empty_odb_ok]. Qed.

Lemma run_keeps {E A} (m : M (OSt X) E A) o w :
  (∀ d0, preserves (from d0) m) → odb_ok (od (w_db w)) → odb_ok (od (w_db (m o w).2)).
Proof.
  intros Hm [Hk Hok Hu Hp]. destruct (Hm (od (w_db w)) o w) as [Hk' Hr]; [by split; [|apply rtc_refl]|].
  split; [done| |by eapply osteps_keys|by eapply osteps_priced]. by destruct (osteps_ok _ _ Hr Hok).
Qed.
End reachable.

(** Order service: what each repository operation establishes when it
    succeeds. *)


Section post.
Context {X : Type} {uuid : UuidLib} {pg : PgUuid}.
Implicit Types (s : OSt X) (w : world (OSt X)).

(** [order] is the row [id] stands for. *)
Definition row (id : string) (order : Order) s : Prop :=
  pg_uuid id = Some (o_ID order) ∧ orders (od s) !! o_ID order = Some order.

Lemma row_unique id x y s : row id x s → row id y s → x = y.
Proof. intros [H1 H2] [H3 H4]. congruence. Qed.

Lemma row_of_id d order s : rows_keyed d → od s = d → orders d !! o_ID order = Some order → row (o_ID order) order s.
Proof.
  intros Hk E Ho. split; [|by rewrite E]. destruct (Hk _ _ Ho) as (_ & Hp & _). by eapply pg_uuid_canonical.
Qed.

Lemma first_row id o w order w' : rows_keyed (od (w_db w)) →
  First id o w = (inr order, w') → row id order (w_db w) ∧ w_db w' = w_db w.
Proof.
  intros Hk (E & u & Hu & Ho)%first_ok. destruct (Hk _ _ Ho) as [<- _]. by split.
Qed.

Lemma get_row id o w order w' : rows_keyed (od (w_db w)) →
  Get id o w = (inr order, w') → row id order (w_db w) ∧ w_db w' = w_db w.
Proof.
  unfold Get, find_order, pool_stmt. intros Hk H. apply bind_ok in H as (r & w1 & H1 & H2).
  destruct (or_fault _ _); [done|]. destruct (pg_uuid id) as [u|] eqn:Hu; simplify_eq.
  destruct (orders _ !! u) as [x|] eqn:Hx; run_inv H2. destruct (Hk _ _ Hx) as [Hid _].
  split; [|done]. split; congruence.
Qed.

Lemma updatewhere_row id l f o w n w' : rows_keyed (od (w_db w)) →
  UpdateWhere id l f o w = (inr n, w') →
  (n = 0 ∧ w_db w' = w_db w) ∨
  ∃ order t, n = 1 ∧ row id order (w_db w) ∧ o_Status order ∈ l ∧
    w_db w' = on_orders <[o_ID order := f t order]> (w_db w).
Proof.
  intros Hk H. eapply (updatewhere_ok (od (w_db w))) in H as [?|(order & t & ? & ? & ? & ? & ?)];
    [by left| |by split; [|apply rtc_refl]]. right. by exists order, t.
Qed.

Lemma updatewhere_hit id l f o w n w' order : row id order (w_db w) → o_Status order ∈ l →
  UpdateWhere id l f o w = (inr n, w') → ∃ t, n = 1 ∧ w_db w' = on_orders <[o_ID order := f t order]> (w_db w).
Proof.
  intros [Hp Ho] Hin H. unfold UpdateWhere, find_order in H. run_inv H.
  apply stmt_ok in H as (_ & _ & s & H & ->). cbn [w_db] in *. rewrite Hp, Ho, bool_decide_eq_true_2 in H by done.
  simplify_eq. eauto.
Qed.

(** A transaction that can only commit. *)
Lemma committed {A} (body : M (OSt X) RErr (txend A)) o w a w' :
  transaction body o w = (inr a, w') →
  (∀ o w b w', body o w = (inr (Leave b), w') → False) →
  ∃ w0 w1, w_db w0 = w_db w ∧ body o w0 = (inr (Commit a), w1) ∧ w_db w' = w_db w1.
Proof.
  intros (w1 & [(H & _ & E)|(H & _)])%transaction_ok Hl; [|by apply Hl in H].
  eexists _, w1. by split; [|split; [exact H|]].
Qed.

Ltac only_commits :=
  let H := fresh in intros ? ? ? ? H; run_inv H; repeat (case_match; run_inv H); by simplify_eq.

Lemma row_insert id x y s : row id x s → o_ID y = o_ID x → row id y (on_orders <[o_ID x := y]> s).
Proof. intros [H1 H2] E. split; [congruence|]. rewrite E. apply lookup_insert_eq. Qed.

Lemma begin_post id target o w order w' : rows_keyed (od (w_db w)) →
  BeginTransition id target o w = (inr order, w') →
  row id order (w_db w') ∧
  (o_Status order = target ∨ Some (o_Status order) = transition_target target).
Proof.
  unfold BeginTransition. destruct (transition_target target) as [terminal|]; [|done].
  intros Hk (w0 & w1 & E0 & H & E1)%committed; [|only_commits]. rewrite <-E0 in Hk. run_inv H.
  apply first_row in Hrun as [Hr Hw]; [|done]. rewrite E1. destruct (_ || _) eqn:Hg.
  - run_inv H. simplify_eq. rewrite Hw. split; [done|]. apply orb_true_iff in Hg as [Hg|Hg]; bool_guards; subst; auto.
  - destruct (negb _); run_inv H. simplify_eq. cbn [w_db]. split; [|by left].
    rewrite Hw. unfold on_orders. rewrite alter_row by apply Hr. by apply (row_insert _ a).
Qed.

Lemma reject_post id o w u w' : rows_keyed (od (w_db w)) →
  RejectPaymentConfirmation id o w = (inr u, w') → ∃ order, row id order (w_db w') ∧ closed (o_Status order).
Proof.
  intros Hk (w0 & w1 & E0 & H & E1)%committed; [|only_commits]. rewrite <-E0 in Hk. run_inv H. rewrite E1.
  apply updatewhere_row in Hrun as [[-> E]|(x & t & -> & Hr & _ & E)]; [| |done].
  - rewrite bool_decide_eq_false_2 in H by lia. run_inv H. rewrite <-E in Hk. apply first_row in Hrun as [Hr Hw]; [|done].
    destruct (_ || _) eqn:Hg; run_inv H. exists a. rewrite Hw. split; [done|].
    by apply orb_true_iff in Hg as [Hg|Hg]; apply bool_decide_eq_true in Hg as ->.
  - rewrite bool_decide_eq_true_2 in H by lia. run_inv H. rewrite E. exists (set_status StatusCancelPending t x).
    by split; [apply row_insert|].
Qed.

(** Rejecting the payment of an order that is still waiting for it. *)
Lemma reject_hit id order o w u w' : row id order (w_db w) → o_Status order = StatusPaymentConfirming →
  RejectPaymentConfirmation id o w = (inr u, w') →
  ∃ t, row id (set_status StatusCancelPending t order) (w_db w').
Proof.
  intros Hr Hst (w0 & w1 & E0 & H & E1)%committed; [|only_commits]. rewrite <-E0 in Hr. run_inv H. rewrite E1.
  eapply updatewhere_hit in Hrun as (t & -> & E); [|exact Hr|set_solver].
  rewrite bool_decide_eq_true_2 in H by lia. run_inv H. rewrite E. exists t. by apply (row_insert _ order).
Qed.

Lemma expiry_post id now o w order w' : rows_keyed (od (w_db w)) →
  BeginExpiry id now o w = (inr order, w') → row id order (w_db w') ∧ o_Status order = StatusCancelPending.
Proof.
  intros Hk (w0 & w1 & E0 & H & E1)%committed; [|only_commits]. rewrite <-E0 in Hk. run_inv H. rewrite E1.
  apply first_row in Hrun as [Hr Hw]; [|done]. destruct (_ || _); run_inv H. simplify_eq. split; [|done].
  cbn [w_db]. rewrite Hw. unfold on_orders. rewrite alter_row by apply Hr. by apply (row_insert _ a).
Qed.

Lemma beginstore_post id o w order w' : rows_keyed (od (w_db w)) →
  BeginStoreCancellation id o w = (inr order, w') → row id order (w_db w') ∧
  (o_Status order = StatusStoreCancelPending ∨
   o_Status order = StatusCancelled ∧ o_CancellationReason order = ReasonStoreCancelled).
Proof.
  intros Hk (w0 & w1 & E0 & H & E1)%committed; [|only_commits]. rewrite <-E0 in Hk. run_inv H. rewrite E1.
  apply first_row in Hrun as [Hr Hw]; [|done]. destruct (_ || _) eqn:Hg.
  - run_inv H. simplify_eq. rewrite Hw. split; [done|].
    apply orb_true_iff in Hg as [Hg|Hg]; bool_guards; auto.
  - destruct (negb _); run_inv H. simplify_eq. cbn [w_db]. split; [|by left].
    rewrite Hw. unfold on_orders. rewrite alter_row by apply Hr. by apply (row_insert _ a).
Qed.

Lemma paid_post id t eid e o w u w' : rows_keyed (od (w_db w)) →
  MarkPaidWithOutbox id t eid e o w = (inr u, w') → ∃ order, row id order (w_db w') ∧ o_Status order = StatusPaid.
Proof.
  intros Hk (w0 & w1 & E0 & H & E1)%committed; [|only_commits]. rewrite <-E0 in Hk. run_inv H. rewrite E1.
  apply updatewhere_row in Hrun as [[-> E]|(x & t' & -> & Hr & _ & E)]; [| |done].
  - rewrite bool_decide_eq_true_2 in H by lia. run_inv H. rewrite <-E in Hk. apply first_row in Hrun as [Hr Hw]; [|done].
    case_bool_decide; run_inv H. exists a. by rewrite Hw.
  - rewrite bool_decide_eq_false_2 in H by lia. run_inv H. apply createevent_ok in Hrun as (? & ? & _ & Hc).
    rewrite Hc, E. exists (paid_upd t t' x). split; [|done]. by apply (row_insert _ x).
Qed.

Lemma cancelled_post id eid e o w u w' : rows_keyed (od (w_db w)) →
  MarkCancelled id eid e o w = (inr u, w') → ∃ order, row id order (w_db w') ∧ o_Status order = StatusCancelled.
Proof.
  intros Hk (w0 & w1 & E0 & H & E1)%committed; [|only_commits]. rewrite <-E0 in Hk. run_inv H. rewrite E1.
  apply updatewhere_row in Hrun as [[-> E]|(x & t & -> & Hr & _ & E)]; [| |done].
  - rewrite bool_decide_eq_true_2 in H by lia. run_inv H. rewrite <-E in Hk. apply first_row in Hrun as [Hr Hw]; [|done].
    case_bool_decide; run_inv H. exists a. by rewrite Hw.
  - rewrite bool_decide_eq_false_2 in H by lia. run_inv H. apply createevent_ok in Hrun as (? & ? & _ & Hc).
    rewrite Hc, E. exists (set_status StatusCancelled t x). split; [|done]. by apply (row_insert _ x).
Qed.

Lemma first_tick id o w order w' : First id o w = (inr order, w') → w_tick w' = S (w_tick w).
Proof.
  unfold First, find_order. intros H. run_inv H. apply stmt_ok in Hrun as (_ & _ & s & _ & ->).
  destruct a; [|done]. by run_inv H.
Qed.

(** A bound checkout is a payable one: the hold has not run out when the
    operation looks at the clock. *)
Lemma bind_post id session url o w order w' : rows_keyed (od (w_db w)) → session ≠ "" →
  BindCheckout id session url o w = (inr order, w') →
  row id order (w_db w') ∧ o_Status order = StatusPendingPayment ∧
  o_CheckoutSessionID order = session ∧ o_CheckoutURL order = url ∧
  or_clock o (w_tick w + 2) < o_ReservationExpiresAt order.
Proof.
  intros Hk Hs (w1 & [(H & _ & E1)|(H & _)])%transaction_ok;
    [|exfalso; run_inv H; repeat (case_match; run_inv H); by simplify_eq].
  cbn [w_db w_tick] in *. run_inv H. pose proof (first_tick _ _ _ _ _ Hrun) as Ht. cbn in Ht.
  apply first_row in Hrun as [Hr Hw]; [|done]. destruct (_ || _) eqn:Hg; run_inv H.
  destruct (negb _ && _) eqn:Hg2; run_inv H. simplify_eq. bool_guards. rewrite E1. cbn [w_db] in *.
  rewrite Ht in *. replace (w_tick w + 2)%nat with (S (S (w_tick w))) by lia. case_bool_decide as Hse.
  - unfold Updates in Hrun. run_inv Hrun.
    match type of Hrun0 with First _ _ {| w_db := ?st |} = _ => set (s1 := st) in Hrun0 end.
    assert (Hr1 : row id (set_checkout session url (or_clock o (S (S (S (w_tick w))))) a) s1).
    { unfold s1. rewrite Hw. unfold on_orders. rewrite alter_row by apply Hr. by apply (row_insert _ a). }
    pose proof (first_ok _ _ _ _ _ Hrun0) as (E2 & u & Hu & Ho). rewrite E2. cbn [w_db] in *.
    destruct Hr1 as [Hp1 Ho1]. assert (a1 = set_checkout session url (or_clock o (S (S (S (w_tick w))))) a) as -> by congruence.
    done.
  - run_inv Hrun. pose proof (first_ok _ _ _ _ _ Hrun0) as (E2 & u & Hu & Ho). rewrite E2. cbn [w_db] in *.
    rewrite Hw in *. destruct Hr as [Hp1 Ho1]. assert (a1 = a) as -> by congruence.
    apply andb_false_iff in Hg2 as [Hg2|Hg2]; bool_guards; done.
Qed.

Lemma create_post order o w x w' : Create order o w = (inr x, w') →
  ∃ t, x = set_times t order ∧ w_db w' = on_orders <[o_ID order := x]> (w_db w).
Proof.
  intros (w0 & w1 & E0 & H & E1)%committed.
  - run_inv H. apply stmt_ok in H as (_ & _ & s & H & ->). repeat (case_match; simplify_eq). cbn [w_db] in *.
    eexists. split; [done|]. by rewrite E1, E0.
  - intros o1 w1 b w2 H1. run_inv H1. apply stmt_ok in H1 as (_ & _ & s & H1 & ->). by repeat (case_match; simplify_eq).
Qed.
End post.
