(* ===== verification/OrdStock.v ===== *)
(** Orders and stock.  The Order service drives reservations of the Inventory
    service through an interface, [StockService]: what the calls promise about
    the reservation they name.  Against that interface alone, every paid order
    is backed by sold stock, and every cancelled order has given its stock
    back. *)

From S2P Require Import Prelude Effects GoStd InvModel OrdModel OrdService OrdSteps OrdTheorems.

(** ** The promises of the Inventory service *)

(** How a reservation ended: its stock is sold, free again without having been
    sold, or taken back after a sale. *)
Inductive Outcome := Sold | Freed | TakenBack.

Class StockService (X : Type) `{!UuidLib, !InventoryClient X} := {
  stock_ok : X → Prop;
  (** the reservation, for the order, has reached the outcome *)
  settles : X → Outcome → string → string → Prop;
  (** what the service may do between two moments *)
  moves : relation X;
  moves_refl x : moves x x;
  moves_ok x x' : moves x x' → stock_ok x → stock_ok x';
  moves_settles x x' out rid oid : moves x x' → stock_ok x → settles x out rid oid → settles x' out rid oid;
  reserve_moves n q x : stock_ok x → moves x (ReservePortions n q x).2;
  confirm_moves n q x : stock_ok x → moves x (ConfirmReservation n q x).2;
  release_moves n q x : stock_ok x → moves x (ReleaseReservation n q x).2;
  return_moves n q x : stock_ok x → moves x (ReturnConfirmedReservation n q x).2;
  (** a success promises the outcome for the canonical ids of the request *)
  confirm_sold n rid oid key reason x u : stock_ok x →
    uuid_parse rid = Some rid → uuid_parse oid = Some oid →
    (ConfirmReservation n (MkReservationRequest rid oid key reason) x).1 = inr u →
    settles (ConfirmReservation n (MkReservationRequest rid oid key reason) x).2 Sold rid oid;
  release_freed n rid oid key reason x u : stock_ok x →
    uuid_parse rid = Some rid → uuid_parse oid = Some oid →
    (ReleaseReservation n (MkReservationRequest rid oid key reason) x).1 = inr u →
    settles (ReleaseReservation n (MkReservationRequest rid oid key reason) x).2 Freed rid oid;
  return_taken n rid oid key reason x u : stock_ok x →
    uuid_parse rid = Some rid → uuid_parse oid = Some oid →
    (ReturnConfirmedReservation n (MkReservationRequest rid oid key reason) x).1 = inr u →
    settles (ReturnConfirmedReservation n (MkReservationRequest rid oid key reason) x).2 TakenBack rid oid
}.

(** What the state of an order says about its reservation. *)
Definition promised (o : Order) : option Outcome :=
  match o_Status o with
  | StatusPaid | StatusStoreCancelPending => Some Sold
  | StatusCancelled => match o_PaidAt o with Some _ => Some TakenBack | None => Some Freed end
  | _ => None
  end.

Create HintDb safe.

Section stock.
Context {X : Type} {uuid : UuidLib} {pg : PgUuid} {ids : OrderIds} {inv : InventoryClient X} {svc : StockService X}.
Implicit Types (s : OSt X) (w : world (OSt X)) (d : ODB) (x : X).

Definition backed x (o : Order) : Prop :=
  ∀ out, promised o = Some out → settles x out (o_ReservationID o) (o_ID o).

Definition all_backed x d : Prop := ∀ id o, orders d !! id = Some o → backed x o.

Record stock_inv s : Prop := {
  si_orders : odb_ok (od s);
  si_stock : stock_ok (ox s);
  si_backed : all_backed (ox s) (od s)
}.

(** [order] was read earlier: its row has only evolved since. *)
Definition seen (order : Order) s : Prop :=
  ∃ cur, orders (od s) !! o_ID order = Some cur ∧ evolves order cur.

Definition knows (l : list Order) s : Prop := stock_inv s ∧ ∀ order, order ∈ l → seen order s.

(** ** Steps that promise nothing new *)

Lemma ostep_length d d' : ostep d d' → (length (outbox d) ≤ length (outbox d'))%nat.
Proof. destruct 1; cbn; rewrite ?length_app, ?length_fmap; lia. Qed.
Lemma osteps_length d d' : rtc ostep d d' → (length (outbox d) ≤ length (outbox d'))%nat.
Proof. induction 1 as [|? ? ? H _ IH]; [lia|]. apply ostep_length in H. lia. Qed.

Lemma backed_upd x d o o' : all_backed x d → backed x o' → all_backed x (with_orders <[o_ID o := o']> d).
Proof. intros Ha Ho id y. cbn. rewrite lookup_insert_Some. intros [[_ <-]|[_ Hy]]; [done|by eapply Ha]. Qed.

Lemma ostep_quiet x d d' : ostep d d' → length (outbox d') = length (outbox d) → all_backed x d → all_backed x d'.
Proof.
  intros Hs Hl Ha.
  destruct Hs as [o Hf Hn _ _|o se url t now Ho Hst _ Hse|o tg t Ho Hst Htg|o t Ho Hst|o t now Ho Hst _|o t Ho Hst
    |o pa t eid e c Ho Hst|o t eid e c Ho Hst|eid t];
    cbn [with_outbox with_orders outbox] in Hl; rewrite ?length_app in Hl; cbn in Hl; try lia.
  - destruct Hf as (Hf & _). apply backed_upd; [done|]. intros out. unfold promised. by rewrite Hf.
  - apply backed_upd; [done|]. intros out. unfold promised. cbn. by rewrite Hst.
  - apply backed_upd; [done|]. intros out. unfold promised. cbn. by destruct Htg as [-> | ->].
  - by apply backed_upd.
  - by apply backed_upd.
  - apply backed_upd; [done|]. intros out Hp. apply (Ha _ _ Ho). unfold promised in *. by rewrite Hst.
  - exact Ha.
Qed.

Lemma osteps_quiet x d d' : rtc ostep d d' → length (outbox d') = length (outbox d) → all_backed x d → all_backed x d'.
Proof.
  induction 1 as [|d1 d2 d3 Hs Hr IH]; [done|]. intros Hl Ha.
  pose proof (ostep_length _ _ Hs). pose proof (osteps_length _ _ Hr).
  apply IH; [lia|]. eapply ostep_quiet; [exact Hs|lia|done].
Qed.

(** An operation that takes steps of the machine keeps what was seen. *)
Lemma seen_steps order s s' : odb_ok (od s) → rtc ostep (od s) (od s') → seen order s → seen order s'.
Proof.
  intros Hok Hr (cur & Hc & He). destruct (osteps_ok _ _ Hr (od_outbox _ Hok)) as [_ Hev].
  destruct (Hev _ _ Hc) as (cur' & Hc' & He'). exists cur'. split; [done|]. by etrans.
Qed.

Lemma knows_steps l s s' : knows l s → rows_keyed (od s') → rtc ostep (od s) (od s') →
  stock_ok (ox s') → all_backed (ox s') (od s') → knows l s'.
Proof.
  intros [[Hok Hst Hb] Hl] Hk Hr Hst' Hb'. destruct (osteps_ok _ _ Hr (od_outbox _ Hok)) as [Hout _]. split.
  - split; [|done..]. split; [done|done|eapply osteps_keys|eapply osteps_priced]; first [exact Hr|apply Hok].
  - intros order Ho. eapply seen_steps; eauto.
Qed.

(** The operation keeps the invariant and everything seen. *)
Definition safe {E A} (m : M (OSt X) E A) : Prop := ∀ l, preserves (knows l) m.

Lemma safe_quiet {E A} (m : M (OSt X) E A) :
  (∀ d0, preserves (from d0) m) → (∀ n, preserves (λ s, length (outbox (od s)) = n) m) →
  (∀ x, preserves (λ s, ox s = x) m) → safe m.
Proof.
  intros H1 H2 H3 l o w Hk. pose proof Hk as [[Hok Hst Hb] _].
  destruct (H1 (od (w_db w)) o w) as [Hk' Hr]; [split; [apply Hok|apply rtc_refl]|].
  specialize (H2 _ o w eq_refl). specialize (H3 _ o w eq_refl). cbn in H2, H3.
  eapply knows_steps; [exact Hk|done..| |]; rewrite H3; [done|]. by eapply osteps_quiet.
Qed.

Lemma safe_read {E A} (m : M (OSt X) E A) : (∀ s0, preserves (λ s, s = s0) m) → safe m.
Proof. intros Hm l o w Hk. specialize (Hm (w_db w) o w eq_refl). cbn in Hm. by rewrite Hm. Qed.

Lemma safe_inventory {A} (f : nat → X → A * X) l o w :
  (∀ n x, stock_ok x → moves x (f n x).2) → knows l (w_db w) → knows l (w_db (inventory f o w).2).
Proof.
  intros Hf Hk. pose proof Hk as [[Hok Hst Hb] Hl]. unfold inventory.
  specialize (Hf (w_tick w) (ox (w_db w)) Hst). destruct (f _ _) as [a x']. cbn in *.
  split; [split; cbn; [done|by eapply moves_ok|]|done].
  intros id order Ho out Hp. eapply moves_settles; [exact Hf|done|]. by eapply Hb.
Qed.

(** ** The repository *)

(** Neither the outbox nor the Inventory service is touched. *)
Abbreviation apart m := (∀ y, preserves (λ s : OSt X, (length (outbox (od s)), ox s) = y) m).

Lemma safe_apart {E A} (m : M (OSt X) E A) : (∀ d0, preserves (from d0) m) → apart m → safe m.
Proof.
  intros H1 H2. apply safe_quiet; [done|..].
  - intros n o w Hw. specialize (H2 _ o w eq_refl). cbn in H2. congruence.
  - intros x o w Hw. specialize (H2 _ o w eq_refl). cbn in H2. congruence.
Qed.

Lemma apart_first id : apart (First (X := X) id).
Proof.
  intros y. unfold First. preserve. apply preserves_stmt. intros t s a s' Hs H.
  destruct (find_order id s); by simplify_eq.
Qed.
Lemma apart_updatewhere id from f : apart (UpdateWhere (X := X) id from f).
Proof.
  intros y. unfold UpdateWhere. preserve. apply preserves_stmt. intros t s n s' Hs H.
  destruct (find_order id s) as [|[order|]]; simplify_eq; [|done]. case_bool_decide; by simplify_eq.
Qed.
Hint Resolve apart_first apart_updatewhere : preserves.

Ltac apart_op := intros y; apply preserves_transaction_body; preserve.

Lemma BindCheckout_safe id session url : safe (BindCheckout (X := X) id session url).
Proof. apply safe_apart; [apply BindCheckout_refines|]. unfold BindCheckout, Updates. apart_op. Qed.
Lemma BeginTransition_safe id target : safe (BeginTransition (X := X) id target).
Proof.
  apply safe_apart; [apply BeginTransition_refines|]. unfold BeginTransition.
  destruct (transition_target target); [|intros y; apply preserves_throw]. apart_op.
Qed.
Lemma Reject_safe id : safe (RejectPaymentConfirmation (X := X) id).
Proof. apply safe_apart; [apply RejectPaymentConfirmation_refines|]. apart_op. Qed.
Lemma BeginExpiry_safe id now : safe (BeginExpiry (X := X) id now).
Proof. apply safe_apart; [apply BeginExpiry_refines|]. apart_op. Qed.
Lemma BeginStore_safe id : safe (BeginStoreCancellation (X := X) id).
Proof. apply safe_apart; [apply BeginStoreCancellation_refines|]. apart_op. Qed.
Lemma Published_safe id : safe (MarkOutboxPublished (X := X) id).
Proof.
  apply safe_apart; [apply MarkOutboxPublished_refines|]. intros y. apply preserves_pool_stmt.
  intros t s a s' Hs [= <- <-]. cbn. by rewrite length_fmap.
Qed.
Lemma Create_safe order : fresh_order order → uuid_parse (o_ID order) = Some (o_ID order) →
  uuid_parse (o_ReservationID order) = Some (o_ReservationID order) → safe (Create (X := X) order).
Proof.
  intros H1 H2 H3. apply safe_apart; [by apply Create_refines|]. apart_op. apply preserves_stmt.
  intros t s r s' Hs H. repeat (case_match; simplify_eq). done.
Qed.
Lemma Get_safe id : safe (Get (X := X) id).
Proof.
  apply safe_read. intros d. unfold Get. preserve.
  apply preserves_pool_stmt. intros t s a s' <- H. destruct (find_order id s); by simplify_eq.
Qed.
Lemma ByKey_safe c k : safe (GetByIdempotencyKey (X := X) c k).
Proof. apply safe_read. intros d. unfold GetByIdempotencyKey. preserve. Qed.
Lemma query_safe {A} (f : Z → OSt X → A) : safe (pool_query f : M (OSt X) RErr A).
Proof. apply safe_read. intros d. preserve. Qed.

(** ** The two steps that promise something *)

Lemma MarkPaid_safe order t eid e l o w : order ∈ l → knows l (w_db w) →
  settles (ox (w_db w)) Sold (o_ReservationID order) (o_ID order) →
  knows l (w_db (MarkPaidWithOutbox (o_ID order) t eid e o w).2).
Proof.
  intros Hin Hk Hs. pose proof Hk as [[Hok Hst Hb] Hl]. destruct (Hl _ Hin) as (cur & Hcur & Hev).
  destruct (MarkPaid_refines (o_ID order) t eid e (od (w_db w)) o w) as [Hk' Hr]; [split; [apply Hok|apply rtc_refl]|].
  destruct (MarkPaidWithOutbox (o_ID order) t eid e o w) as [r w'] eqn:H. cbn [snd] in *.
  apply transaction_cases in H as [E|(a & w1 & H & _ & E)]; rewrite E in *; [done|].
  run_inv H. apply updatewhere_row in Hrun as [[-> E1]|(x & t' & -> & [Hp Hx] & Hst1 & E1)]; [| |apply Hok]; cbn [w_db] in *.
  - rewrite bool_decide_eq_true_2 in H by lia. run_inv H. apply first_ok in Hrun as [E2 _].
    case_bool_decide; run_inv H. rewrite E2, E1. done.
  - rewrite bool_decide_eq_false_2 in H by lia. run_inv H. apply createevent_ok in Hrun as (c & v & _ & Hc).
    assert (Hxc : x = cur).
    { destruct (od_keyed _ Hok _ _ Hcur) as (Hid & Hpc & _). apply pg_uuid_canonical in Hpc. congruence. }
    subst x. pose proof (ev_identity _ _ Hev) as [= I1 I2 I3 I4 I5 I6].
    rewrite Hc, E1 in *. eapply knows_steps; [exact Hk|done..|]. cbn [on_outbox on_orders ox od].
    intros id y. cbn. rewrite lookup_insert_Some. intros [[_ <-]|[_ Hy]]; [|by eapply Hb].
    intros out [= <-]. cbn. by rewrite I1, I6.
Qed.

Lemma store_next a b : rtc order_next a b → a = StatusStoreCancelPending ∨ a = StatusCancelled →
  b = StatusStoreCancelPending ∨ b = StatusCancelled.
Proof.
  induction 1 as [|x y z Hxy _ IH]; [done|]. intros [-> | ->]; inversion Hxy; subst; apply IH; auto.
Qed.

(** The outcome a cancellation of an order read in a given state promises. *)
Definition refund (st : OrderStatus) : option Outcome :=
  match st with
  | StatusCancelPending | StatusCancelled => Some Freed
  | StatusStoreCancelPending => Some TakenBack
  | _ => None
  end.

Lemma refund_promised order cur out t : evolves order cur → order_ok cur → refund (o_Status order) = Some out →
  o_Status cur ∈ [StatusCancelPending; StatusStoreCancelPending] →
  promised (set_status StatusCancelled t cur) = Some out.
Proof.
  intros Hev Hok Hr Hin. unfold promised. cbn. unfold order_ok in Hok.
  assert (Hcases : closed (o_Status order) ∧ out = Freed ∨ o_Status order = StatusStoreCancelPending ∧ out = TakenBack).
  { destruct (o_Status order); simplify_eq/=; auto. }
  destruct Hcases as [[Hc ->]|[Hc ->]].
  - destruct (ev_closed _ _ Hev Hc) as [Hcl _]. apply elem_of_cons in Hin as [E|E%list_elem_of_singleton]; rewrite E in *; [|done].
    by destruct Hok as [-> _].
  - destruct (store_next _ _ (ev_status _ _ Hev)) as [E|E]; [by left|..]; rewrite E in *.
    + by destruct Hok as [[t' ->] _].
    + by apply elem_of_cons in Hin as [?|?%list_elem_of_singleton].
Qed.

Lemma MarkCancelled_safe order out eid e l o w : order ∈ l → knows l (w_db w) → refund (o_Status order) = Some out →
  settles (ox (w_db w)) out (o_ReservationID order) (o_ID order) →
  knows l (w_db (MarkCancelled (o_ID order) eid e o w).2).
Proof.
  intros Hin Hk Hout Hs. pose proof Hk as [[Hok Hst Hb] Hl]. destruct (Hl _ Hin) as (cur & Hcur & Hev).
  destruct (MarkCancelled_refines (o_ID order) eid e (od (w_db w)) o w) as [Hk' Hr]; [split; [apply Hok|apply rtc_refl]|].
  destruct (MarkCancelled (o_ID order) eid e o w) as [r w'] eqn:H. cbn [snd] in *.
  apply transaction_cases in H as [E|(a & w1 & H & _ & E)]; rewrite E in *; [done|].
  run_inv H. apply updatewhere_row in Hrun as [[-> E1]|(x & t' & -> & [Hp Hx] & Hst1 & E1)]; [| |apply Hok]; cbn [w_db] in *.
  - rewrite bool_decide_eq_true_2 in H by lia. run_inv H. apply first_ok in Hrun as [E2 _].
    case_bool_decide; run_inv H. rewrite E2, E1. done.
  - rewrite bool_decide_eq_false_2 in H by lia. run_inv H. apply createevent_ok in Hrun as (c & v & _ & Hc).
    assert (Hxc : x = cur).
    { destruct (od_keyed _ Hok _ _ Hcur) as (Hid & Hpc & _). apply pg_uuid_canonical in Hpc. congruence. }
    subst x. pose proof (ev_identity _ _ Hev) as [= I1 I2 I3 I4 I5 I6].
    rewrite Hc, E1 in *. eapply knows_steps; [exact Hk|done..|]. cbn [on_outbox on_orders ox od].
    intros id y. cbn. rewrite lookup_insert_Some. intros [[_ <-]|[_ Hy]]; [|by eapply Hb].
    intros out' Hp'. destruct (ob_order _ (od_outbox _ Hok) _ _ Hcur) as [_ Hoo].
    rewrite (refund_promised order cur out) in Hp' by done. simplify_eq. cbn. by rewrite I1, I6.
Qed.

(** ** The service *)

Lemma safe_ret {E A} (a : A) : safe (mret a : M (OSt X) E A).
Proof. intros l. apply preserves_ret. Qed.
Lemma safe_throw {E A} (e : E) : safe (throw e : M (OSt X) E A).
Proof. intros l. apply preserves_throw. Qed.
Lemma safe_repo {A} (m : M (OSt X) RErr A) : safe m → safe (repo m).
Proof. intros Hm l. apply preserves_try, Hm. Qed.

Lemma knows_canonical l s order : knows l s → order ∈ l →
  uuid_parse (o_ReservationID order) = Some (o_ReservationID order) ∧ uuid_parse (o_ID order) = Some (o_ID order).
Proof.
  intros [[Hok _ _] Hl] Hin. destruct (Hl _ Hin) as (cur & Hcur & Hev).
  destruct (od_keyed _ Hok _ _ Hcur) as (Hid & H1 & H2). pose proof (ev_identity _ _ Hev) as [= I1 I2 I3 I4 I5 I6].
  by rewrite <-I6.
Qed.

(** A call of the Inventory client, and what its answer promises afterwards. *)
Lemma safe_call {A B} (f : nat → X → A * X) (g : A → M (OSt X) SErr B) (Post : A → X → Prop) l :
  (∀ n x, stock_ok x → moves x (f n x).2) → (∀ n x, stock_ok x → Post (f n x).1 (f n x).2) →
  (∀ a o w, knows l (w_db w) → Post a (ox (w_db w)) → knows l (w_db (g a o w).2)) →
  preserves (knows l) (inventory f ≫= g).
Proof.
  intros Hm Hp Hg o w Hk. pose proof (safe_inventory f l o w Hm Hk) as Hk1.
  unfold mbind, M_bind. unfold inventory in *. specialize (Hp (w_tick w) (ox (w_db w))).
  destruct (f _ _) as [a x']. cbn in *. apply Hg; [done|]. apply Hp, Hk.
Qed.

Hint Extern 0 (preserves (knows _) (inventory _)) =>
  (intros ? ?; apply safe_inventory; auto using reserve_moves, confirm_moves, release_moves, return_moves) : preserves.

(** A goal about one run as a goal about all runs. *)
Ltac as_preserves Hk :=
  match goal with |- knows ?l (w_db (?m ?o ?w).2) => refine ((_ : preserves (knows l) m) o w Hk) end.

Lemma commit_safe order out data l o w : order ∈ l → knows l (w_db w) → refund (o_Status order) = Some out →
  settles (ox (w_db w)) out (o_ReservationID order) (o_ID order) →
  knows l (w_db (commitCancellation order data o w).2).
Proof.
  intros Hin Hk Hout Hs. unfold commitCancellation, repo, try. unfold mbind, M_bind. cbn -[MarkCancelled].
  match goal with |- context [MarkCancelled ?i ?e ?d ?o ?w] =>
    pose proof (MarkCancelled_safe order out e d l o w Hin Hk Hout Hs) as H; destruct (MarkCancelled i e d o w) as [r w'] end.
  destruct r as [[]|]; done.
Qed.

Lemma finishPayment_safe order l : order ∈ l → preserves (knows l) (finishPayment (X := X) order).
Proof.
  intros Hin o w Hk. destruct (knows_canonical _ _ _ Hk Hin) as [C1 C2]. revert o w Hk. unfold finishPayment.
  eapply (safe_call _ _ (λ a x, ∀ u, a = inr u → settles x Sold (o_ReservationID order) (o_ID order)) l).
  - intros n x Hx. by apply confirm_moves.
  - intros n x Hx u Hu. by eapply confirm_sold.
  - intros [e|u] o w Hk Hs.
    + pose proof (safe_repo _ (Reject_safe (o_ID order)) l). as_preserves Hk. unfold fail. preserve.
    + specialize (Hs u eq_refl). unfold mbind, M_bind, repo, try. cbn -[MarkPaidWithOutbox].
      match goal with |- context [MarkPaidWithOutbox ?i ?t ?e ?d ?o ?w] =>
        pose proof (MarkPaid_safe order t e d l o w Hin Hk Hs) as H; destruct (MarkPaidWithOutbox i t e d o w) as [r w'] end.
      destruct r as [[]|]; done.
Qed.

Lemma finishCancellation_safe order l : order ∈ l → refund (o_Status order) = Some Freed →
  preserves (knows l) (finishCancellation (X := X) order).
Proof.
  intros Hin Hr o w Hk. destruct (knows_canonical _ _ _ Hk Hin) as [C1 C2]. revert o w Hk. unfold finishCancellation.
  eapply (safe_call _ _ (λ a x, ∀ u, a = inr u → settles x Freed (o_ReservationID order) (o_ID order)) l).
  - intros n x Hx. by apply release_moves.
  - intros n x Hx u Hu. by eapply release_freed.
  - intros [e|u] o w Hk Hs; [done|]. by eapply commit_safe; eauto.
Qed.

Lemma finishStoreCancellation_safe order l : order ∈ l → o_Status order = StatusStoreCancelPending →
  preserves (knows l) (finishStoreCancellation (X := X) order).
Proof.
  intros Hin Hr o w Hk. destruct (knows_canonical _ _ _ Hk Hin) as [C1 C2]. revert o w Hk. unfold finishStoreCancellation.
  eapply (safe_call _ _ (λ a x, ∀ u, a = inr u → settles x TakenBack (o_ReservationID order) (o_ID order)) l).
  - intros n x Hx. by apply return_moves.
  - intros n x Hx u Hu. by eapply return_taken.
  - intros [e|u] o w Hk Hs; [done|]. eapply commit_safe; eauto. by rewrite Hr.
Qed.

(** Reading a row and going on with it. *)
Lemma safe_bind_row {B} (m : M (OSt X) RErr Order) (f : RErr + Order → M (OSt X) SErr B) (F : Order → Prop) :
  safe m → (∀ o w order w', rows_keyed (od (w_db w)) → m o w = (inr order, w') →
    orders (od (w_db w')) !! o_ID order = Some order ∧ F order) →
  (∀ e, safe (f (inl e))) → (∀ order l, F order → order ∈ l → preserves (knows l) (f (inr order))) →
  safe (repo m ≫= f).
Proof.
  intros Hm Hpost He Hf l o w Hk. unfold mbind, M_bind, repo, try. pose proof (Hm l o w Hk) as Hk1.
  destruct (m o w) as [[e|order] w'] eqn:H; cbn in Hk1; [by apply He|].
  apply Hpost in H as [Hrow HF]; [|apply Hk].
  destruct (Hf order (order :: l) HF ltac:(by left) o w') as [Hi Hl].
  - destruct Hk1 as [Hi Hl]. split; [done|]. intros x [->|Hx]%elem_of_cons; [|by apply Hl].
    exists order. split; [done|]. reflexivity.
  - split; [done|]. intros x Hx. apply Hl. by right.
Qed.

Hint Resolve safe_repo BindCheckout_safe BeginTransition_safe Reject_safe BeginExpiry_safe BeginStore_safe
  Published_safe Get_safe ByKey_safe query_safe : safe.

Lemma repo_safe {A} (m : M (OSt X) RErr A) l : safe m → preserves (knows l) (repo m).
Proof. intros Hm. by apply safe_repo. Qed.
Lemma call_safe {A} (f : nat → A) l : preserves (knows l) (call (X := X) f).
Proof. by intros o w. Qed.
Lemma fail_safe {A} e l : preserves (knows l) (fail e : M (OSt X) SErr A).
Proof. apply preserves_throw. Qed.
Hint Resolve call_safe fail_safe : preserves.
Hint Extern 0 (preserves (knows _) (repo _)) => (apply repo_safe; solve [auto with safe]) : preserves.

Lemma existing_safe c k h l : preserves (knows l) (existing_order (X := X) c k h).
Proof. unfold existing_order. preserve. Qed.
Lemma check_pickup_safe env p items l : preserves (knows l) (check_pickup (X := X) env p items).
Proof. unfold check_pickup, CountOrdersInSlot. preserve. Qed.
Hint Resolve existing_safe check_pickup_safe : preserves.

Lemma reserve_and_save_safe draft p l :
  o_Status draft = StatusPendingPayment → uuid_parse (o_ID draft) = Some (o_ID draft) → draft_priced draft p →
  preserves (knows l) (reserve_and_save (X := X) draft p).
Proof.
  intros Hs Hid Hp. unfold reserve_and_save. preserve.
  apply repo_safe, Create_safe; [split_and!; try done; by apply Hp|done|]. by eapply uuid_parse_canonical.
Qed.

Lemma placeOrder_safe env input key l : preserves (knows l) (placeOrder (X := X) env input key).
Proof.
  unfold placeOrder. preserve. apply reserve_and_save_safe; [done|apply uuid_sha1_canonical|]. by eapply draft_priced_ok.
Qed.
Lemma bind_checkout_safe id se url msg l : preserves (knows l) (bind_checkout (X := X) id se url msg).
Proof. unfold bind_checkout. preserve. Qed.
Hint Resolve placeOrder_safe bind_checkout_safe : preserves.
Lemma PlaceOrder_safe env input key l : preserves (knows l) (PlaceOrder (X := X) env input key).
Proof. unfold PlaceOrder, startPayment. preserve. Qed.

Lemma paymentStateError_safe id l : preserves (knows l) (paymentStateError (X := X) id).
Proof. unfold paymentStateError. preserve. Qed.
Hint Resolve paymentStateError_safe finishPayment_safe finishCancellation_safe finishStoreCancellation_safe : preserves.

Lemma row_lookup id order s : row id order s → orders (od s) !! o_ID order = Some order.
Proof. by intros [_ ?]. Qed.

Lemma ConfirmPayment_safe id : safe (ConfirmPayment (X := X) id).
Proof.
  unfold ConfirmPayment. apply (safe_bind_row _ _ (λ _, True)); [auto with safe|..].
  - intros o w order w' Hk H. apply begin_post in H as [Hr _]; [|done]. by apply row_lookup in Hr.
  - intros e l. preserve.
  - intros order l _ Hin. preserve.
Qed.

Lemma CancelOrder_safe id reason : safe (CancelOrder (X := X) id reason).
Proof.
  unfold CancelOrder. destruct (_ && _); [intros l; apply fail_safe|].
  apply (safe_bind_row _ _ (λ order, closed (o_Status order))); [auto with safe|..].
  - intros o w order w' Hk H. apply begin_post in H as [Hr Hst]; [|done]. apply row_lookup in Hr. split; [done|].
    destruct Hst as [-> |[= ->]]; done.
  - intros e l. preserve.
  - intros order l Hc Hin. preserve. apply finishCancellation_safe; [done|]. by destruct (o_Status order).
Qed.

(** The end of [StoreCancelOrder], once the ticket is known to be queued. *)
Lemma claim_store_safe id : safe (
  claimed ← repo (BeginStoreCancellation (X := X) id);
  match claimed with
  | inl RInvalidTransition => fail (conflict "ORDER_STATE_CONFLICT" "only paid orders can be cancelled by the store")
  | inl e => fail (mapRepositoryError e)
  | inr claimed =>
      if bool_decide (o_Status claimed = StatusCancelled) then mret tt else finishStoreCancellation claimed
  end).
Proof.
  apply (safe_bind_row _ _ (λ order, o_Status order = StatusStoreCancelPending ∨ o_Status order = StatusCancelled));
    [auto with safe|..].
  - intros o w order w' Hk H. apply beginstore_post in H as [Hr Hst]; [|done]. apply row_lookup in Hr. split; [done|].
    naive_solver.
  - intros e l. preserve.
  - intros order l Hst Hin. preserve. apply finishStoreCancellation_safe; [done|]. bool_guards. naive_solver.
Qed.

Lemma StoreCancelOrder_safe env id : safe (StoreCancelOrder (X := X) env id).
Proof.
  unfold StoreCancelOrder. destruct (uuid_parse id); [|intros l; apply fail_safe].
  apply (safe_bind_row _ _ (λ _, True)); [auto with safe|..].
  - intros o w order w' Hk H. apply get_row in H as [Hr Hw]; [|done]. rewrite Hw. by apply row_lookup in Hr.
  - intros e l. preserve.
  - intros order l _ Hin. pose proof (λ id, claim_store_safe id l). preserve.
    apply finishStoreCancellation_safe; [done|]. by bool_guards.
Qed.

Lemma expireOrder_safe id now : safe (expireOrder (X := X) id now).
Proof.
  unfold expireOrder. apply (safe_bind_row _ _ (λ order, o_Status order = StatusCancelPending)); [auto with safe|..].
  - intros o w order w' Hk H. apply expiry_post in H as [Hr Hst]; [|done]. by apply row_lookup in Hr.
  - intros e l. preserve.
  - intros order l Hst Hin. apply finishCancellation_safe; [done|]. by rewrite Hst.
Qed.

Lemma resume_order_safe order l : order ∈ l → preserves (knows l) (resume_order (X := X) order).
Proof.
  intros Hin. pose proof CancelOrder_safe as H1. pose proof ConfirmPayment_safe as H2. unfold resume_order.
  destruct (o_Status order) eqn:E; try apply H1; try apply H2. by apply finishStoreCancellation_safe.
Qed.

Lemma each_order_safe env (handle : Order → M (OSt X) SErr unit) page l :
  (∀ y, y ∈ page → preserves (knows l) (handle y)) →
  ∀ f, preserves (knows l) (each_order (X := X) env handle page f).
Proof.
  induction page as [|x page IH]; intros Hh f; cbn; [preserve|].
  assert (preserves (knows l) (handle x)) by (apply Hh; by left).
  assert (∀ f, preserves (knows l) (each_order env handle page f)) by (apply IH; intros; apply Hh; by right).
  preserve.
Qed.

Lemma join_safe fl l : preserves (knows l) (join (X := X) fl).
Proof. unfold join. preserve. Qed.
Hint Resolve join_safe : preserves.

Lemma expire_loop_safe env fuel : ∀ a f l, preserves (knows l) (expire_loop (X := X) env fuel a f).
Proof.
  pose proof expireOrder_safe as He.
  induction fuel as [|fuel IH]; intros a f l; cbn; unfold ExpiredPendingOrders; preserve.
  apply each_order_safe. intros x _. apply He.
Qed.

(** A page read from the table: every row on it is seen. *)
Lemma safe_page {B} afterID limit keep (f : RErr + list Order → M (OSt X) SErr B) l :
  (∀ e, preserves (knows l) (f (inl e))) → (∀ page, preserves (knows (page ++ l)) (f (inr page))) →
  preserves (knows l) (repo (pool_query (λ _ s, page afterID limit keep s)) ≫= f).
Proof.
  intros He Hf o w Hk. unfold mbind, M_bind, repo, try, pool_query, pool_stmt.
  destruct (or_fault o (w_tick w)); [by apply He|]. set (w' := World _ _ _ _).
  assert (Hk' : knows (page afterID limit keep (w_db w) ++ l) (w_db w')).
  { destruct Hk as [Hi Hl]. split; [done|]. intros x [Hx|Hx]%elem_of_app; [|by apply Hl].
    apply elem_of_take in Hx as (i & Hx & _). apply list_elem_of_lookup_2 in Hx.
    rewrite merge_sort_Permutation in Hx. apply list_elem_of_filter in Hx as [_ Hx].
    apply list_elem_of_fmap in Hx as ([id y] & -> & Hx). apply elem_of_map_to_list in Hx.
    destruct (od_keyed _ (si_orders _ Hi) _ _ Hx) as [Hid _]. exists y. cbn in *. subst id. split; [done|]. reflexivity. }
  apply (Hf _ o) in Hk' as [Hi Hl]. split; [done|]. intros x Hx. apply Hl, elem_of_app. by right.
Qed.

Lemma resume_loop_safe env fuel : ∀ a f l, preserves (knows l) (resume_loop (X := X) env fuel a f).
Proof.
  induction fuel as [|fuel IH]; intros a f l; cbn; [preserve|]. apply safe_page; [intros e; preserve|].
  intros p. apply preserves_bind; [|intros [f' stop]; preserve].
  apply each_order_safe. intros x Hx. apply resume_order_safe, elem_of_app. by left.
Qed.

Lemma publish_safe p l : preserves (knows l) (publishPending (X := X) p).
Proof. unfold publishPending, PendingOutbox. preserve. Qed.

Lemma GetOrder_safe id l : preserves (knows l) (GetOrder (X := X) id).
Proof. unfold GetOrder. preserve. Qed.

Lemma run_call_safe env c : safe (run_call (X := X) env c).
Proof.
  intros l. pose proof PlaceOrder_safe. pose proof GetOrder_safe.
  destruct c; cbn [run_call]; [preserve|apply ConfirmPayment_safe|apply CancelOrder_safe
    |apply StoreCancelOrder_safe|preserve| | |apply publish_safe].
  - intros o w. apply expire_loop_safe.
  - intros o w. apply resume_loop_safe.
Qed.

(** ** The system of the two services *)

(** A call of the Order service, or anything the Inventory service does. *)
Inductive sys_step : relation (OSt X) :=
  | sys_call env c o w : sys_step (w_db w) (w_db (run_call env c o w).2)
  | sys_stock d x x' : stock_ok x → moves x x' → sys_step (MkOSt d x) (MkOSt d x').

Lemma sys_step_inv s s' : sys_step s s' → stock_inv s → stock_inv s'.
Proof.
  destruct 1 as [env c o w|d x x' Hx Hm]; intros Hi.
  - apply (run_call_safe env c []). split; [done|]. intros order Hin. by apply elem_of_nil in Hin.
  - destruct Hi as [H1 H2 H3]. split; cbn in *; [done|by eapply moves_ok|].
    intros id o Ho out Hp. eapply moves_settles; [exact Hm|done|]. by eapply H3.
Qed.

Lemma sys_steps_inv s s' : rtc sys_step s s' → stock_inv s → stock_inv s'.
Proof. induction 1; eauto using sys_step_inv. Qed.
End stock.
