(* ===== verification/OrdInventory.v ===== *)
(** The Order service's Inventory client,
    [order-service/internal/client/inventory_client.go], connected to the gRPC
    server of Batch Inventory: the promises [StockService] asks for hold of the
    real service. *)

From S2P Require Import Prelude Effects GoStd InvModel InvStore InvOps InvReserve InvInv InvSafety InvSystem InvTheorems InvSettled InvTransport OrdModel OrdService OrdSteps OrdTheorems OrdStock.

(** Other work the Inventory service does: requests and tasks, each in an
    environment of its own. *)
Abbreviation Job := (oracle * (Request + Task))%type.

(** What becomes of a call: it is not delivered, or it is served after [before]
    other jobs, in the environment [o], with the context ending in [ctx_err];
    [lost] replaces the answer on its way back. *)
Inductive Delivery :=
  | Refused (e : RpcErr)
  | Served (before : list Job) (o : oracle) (ctx_err : option dberr) (lost : option RpcErr).

Section client.
Context {uuid : UuidLib} {dig : Digest}.
Context (TTL : Z) (catalog : option (string → option IErr)).
Context (orderToken token : string) (net : nat → Delivery).

Definition run_job (x : DB) (j : Job) : DB :=
  match j with
  | (o, inl q) => w_db (run_request TTL catalog q o (World x 0 false [])).2
  | (o, inr k) => w_db (run_task k o (World x 0 false [])).2
  end.

(** [c.inner.Op(c.authenticated(ctx), req)]. *)
Definition inventory_call {A} (h : M DB RpcErr A) (n : nat) (x : DB) : (RpcErr + A) * DB :=
  match net n with
  | Refused e => (inl e, x)
  | Served before o ctx_err lost =>
      let '(r, w) := interceptor orderToken ["Bearer " +:+ token] ctx_err h o
        (World (foldl run_job x before) 0 false []) in
      (match lost with Some e => inl e | None => r end, w_db w)
  end.

#[global] Instance inventory_client : InventoryClient DB := {|
  ReservePortions n q x := inventory_call
    (r ← grpc_ReservePortions TTL (rq_OrderId q) (rq_Key q) (rq_Items q); mret (Some r)) n x;
  ConfirmReservation n q x := inventory_call
    (_ ← grpc_ConfirmReservation (rr_ReservationId q) (rr_OrderId q) (rr_Key q); mret tt) n x;
  ReleaseReservation n q x := inventory_call
    (_ ← grpc_ReleaseReservation (rr_ReservationId q) (rr_OrderId q) (rr_Key q) (rr_Reason q); mret tt) n x;
  ReturnConfirmedReservation n q x := inventory_call
    (_ ← grpc_ReturnConfirmedReservation (rr_ReservationId q) (rr_OrderId q) (rr_Key q) (rr_Reason q); mret tt) n x
|}.

Lemma jobs_steps before : ∀ x, steps TTL catalog x (foldl run_job x before).
Proof.
  induction before as [|[o [q|k]] before IH]; intros x; cbn; [apply rtc_refl|..].
  - eapply rtc_l; [|apply IH]. by apply (step_request _ _ _ q o (World x 0 false [])).
  - eapply rtc_l; [|apply IH]. by apply (step_task _ _ _ k o (World x 0 false [])).
Qed.

(** A handler does what a request of the service does. *)
Definition serves {A} (h : M DB RpcErr A) : Prop := ∀ o w, steps TTL catalog (w_db w) (w_db (h o w).2).

Lemma interceptor_steps {A} values ctx_err (h : M DB RpcErr A) : serves h → serves (interceptor orderToken values ctx_err h).
Proof.
  intros Hh o w. unfold interceptor. destruct values as [|v [|]]; try apply rtc_refl.
  destruct (fields v) as [|scheme [|tok [|]]]; try apply rtc_refl. destruct (_ || _); [apply rtc_refl|].
  unfold mbind, M_bind, try. specialize (Hh o w). destruct (h o w) as [r w']. cbn in *.
  destruct r, ctx_err; exact Hh.
Qed.

Lemma call_steps {A} (h : M DB RpcErr A) n x : serves h → steps TTL catalog x (inventory_call h n x).2.
Proof.
  intros Hh. unfold inventory_call. destruct (net n) as [e|before o ctx_err lost]; [apply rtc_refl|].
  pose proof (interceptor_steps ["Bearer " +:+ token] ctx_err h Hh o (World (foldl run_job x before) 0 false [])) as Hs.
  destruct (interceptor _ _ _ _ _ _) as [r w]. cbn in *. etrans; [apply jobs_steps|exact Hs].
Qed.

(** A call that reports success was served, and the handler succeeded. *)
Lemma call_ok {A} (h : M DB RpcErr A) n x a : (inventory_call h n x).1 = inr a →
  ∃ x1 o w', steps TTL catalog x x1 ∧ h o (World x1 0 false []) = (inr a, w') ∧ w_db w' = (inventory_call h n x).2.
Proof.
  unfold inventory_call. destruct (net n) as [e|before o ctx_err lost]; [done|]. unfold interceptor.
  destruct (fields _) as [|scheme [|tok [|]]]; try (by destruct lost). destruct (_ || _); [by destruct lost|].
  unfold mbind, M_bind, try. destruct (h o _) as [[e|b] w'] eqn:H; cbn.
  - by destruct ctx_err, lost.
  - destruct lost; [done|]. intros [= ->]. eexists _, o, w'. split; [apply jobs_steps|]. split; [exact H|].
    by destruct ctx_err.
Qed.

Lemma rpc_steps {A B} (m : M DB IErr A) (f : A → M DB RpcErr B) q :
  (∀ o w, w_db (m o w).2 = w_db (run_request TTL catalog q o w).2) → (∀ a d, preserves (λ x, x = d) (f a)) →
  serves (rpc m ≫= f).
Proof.
  intros Hm Hf o w. apply rtc_once. unfold mbind, M_bind, rpc, try. unfold mbind, M_bind.
  specialize (Hm o w). destruct (m o w) as [[e|a] w'] eqn:H; cbn in *; rewrite ?Hm.
  - by apply step_request.
  - rewrite (Hf a (w_db w') o w' eq_refl), Hm. by apply step_request.
Qed.

Lemma rpc_ok {A B} (m : M DB IErr A) (f : A → M DB RpcErr B) o w b w' :
  (rpc m ≫= f) o w = (inr b, w') → ∃ a w1, m o w = (inr a, w1) ∧ f a o w1 = (inr b, w').
Proof.
  unfold mbind, M_bind, rpc, try. unfold mbind, M_bind. destruct (m o w) as [[e|a] w1]; [done|]. cbn. eauto.
Qed.

Lemma bind_db {A B} (m : M DB IErr A) (f : A → B) o w : w_db (m o w).2 = w_db ((x ← m; mret (f x)) o w).2.
Proof. unfold mbind, M_bind. by destruct (m o w) as [[e|a] w']. Qed.

(** ** The promises *)

Definition outcome_op (out : Outcome) : string :=
  match out with Sold => "confirm" | Freed => "release" | TakenBack => "return" end.

Lemma transition_input_canonical rid oid key reason in1 : uuid_parse rid = Some rid → uuid_parse oid = Some oid →
  transition_input (MkTransitionInput rid oid key reason) = Some in1 →
  ti_ReservationID in1 = rid ∧ ti_OrderID in1 = oid.
Proof.
  intros H1 H2. unfold transition_input. cbn [ti_ReservationID ti_OrderID ti_Key ti_Reason].
  destruct (ID rid) as [r|] eqn:E1; [|discriminate]. destruct (ID oid) as [i|] eqn:E2; [|discriminate].
  destruct (ID key); [|discriminate]. cbn. destruct (shortText reason 500); [|discriminate]. intros [= <-]. cbn.
  unfold ID in *. rewrite H1 in E1. rewrite H2 in E2. by repeat case_bool_decide; simplify_eq.
Qed.

Context (Hinj : digest_inj).

Lemma steps_lifecycle x x' : steps TTL catalog x x' → inv_core (core x) → lifecycle (core x) (core x').
Proof.
  intros Hs Hi. apply (steps_keep TTL catalog _ (lifecycle_stable (core x)) _ _ Hs). split; [done|by apply lifecycle_same].
Qed.

Lemma settled_res_ids c op in1 in2 : ti_ReservationID in1 = ti_ReservationID in2 → ti_OrderID in1 = ti_OrderID in2 →
  settled_res c op in1 → settled_res c op in2.
Proof. intros E1 E2 (r & H1 & H2 & H3). exists r. by rewrite <-E1, <-E2. Qed.

Lemma serves_ret {A B} (h : M DB RpcErr A) (f : A → B) : serves h → serves (a ← h; mret (f a)).
Proof. intros Hh o w. specialize (Hh o w). unfold mbind, M_bind. by destruct (h o w) as [[e|a] w']. Qed.

Lemma ret_result {A B} (h : M DB RpcErr A) (f : A → B) o w b w' :
  (a ← h; mret (f a)) o w = (inr b, w') → ∃ a, h o w = (inr a, w').
Proof. unfold mbind, M_bind. destruct (h o w) as [[e|a] w1]; [done|]. intros [= _ <-]. eauto. Qed.

Lemma reserve_serves orderID key items : serves (grpc_ReservePortions TTL orderID key items).
Proof.
  apply (rpc_steps _ _ (ReqReserve grpc_ctx (MkReserveInput orderID key (itemsFromProto items))));
    [apply bind_db|intros; apply preserves_ret].
Qed.
Lemma transition_serves confirm in_ (f : Reservation → PbReservation) :
  serves (r ← rpc (Transition grpc_ctx confirm in_); mret (f r)).
Proof. apply (rpc_steps _ _ (ReqTransition grpc_ctx confirm in_)); [apply bind_db|intros; apply preserves_ret]. Qed.
Lemma return_serves in_ (f : Reservation → PbReservation) : serves (r ← rpc (Return_ grpc_ctx in_); mret (f r)).
Proof. apply (rpc_steps _ _ (ReqReturn grpc_ctx in_)); [apply bind_db|intros; apply preserves_ret]. Qed.

Definition has_settled (x : DB) (out : Outcome) (rid oid : string) : Prop :=
  settled_res (core x) (outcome_op out) (MkTransitionInput rid oid "" "").

Lemma transition_sold confirm rid oid key reason n x u (f : Reservation → PbReservation) :
  settled x → uuid_parse rid = Some rid → uuid_parse oid = Some oid →
  (inventory_call (_ ← (r ← rpc (Transition grpc_ctx confirm (MkTransitionInput rid oid key reason)); mret (f r)); mret tt) n x).1 = inr u →
  has_settled (inventory_call (_ ← (r ← rpc (Transition grpc_ctx confirm (MkTransitionInput rid oid key reason)); mret (f r)); mret tt) n x).2
    (if confirm then Sold else Freed) rid oid.
Proof using Hinj.
  intros Hs C1 C2 (x1 & o & w' & Hx & H & <-)%call_ok. apply ret_result in H as [a H].
  apply rpc_ok in H as (r & w1 & H & H'). run_inv H'.
  eapply (transition_promise Hinj) in H as (in1 & Hin & Hr); [|by eapply steps_settled].
  apply transition_input_canonical in Hin as [E1 E2]; [|done..].
  unfold has_settled. destruct confirm; (eapply settled_res_ids; [..|exact Hr]; done).
Qed.

Lemma return_sold rid oid key reason n x u (f : Reservation → PbReservation) :
  settled x → uuid_parse rid = Some rid → uuid_parse oid = Some oid →
  (inventory_call (_ ← (r ← rpc (Return_ grpc_ctx (MkTransitionInput rid oid key reason)); mret (f r)); mret tt) n x).1 = inr u →
  has_settled (inventory_call (_ ← (r ← rpc (Return_ grpc_ctx (MkTransitionInput rid oid key reason)); mret (f r)); mret tt) n x).2
    TakenBack rid oid.
Proof using Hinj.
  intros Hs C1 C2 (x1 & o & w' & Hx & H & <-)%call_ok. apply ret_result in H as [a H].
  apply rpc_ok in H as (r & w1 & H & H'). run_inv H'.
  eapply (return_promise Hinj) in H as (in1 & Hin & Hr); [|by eapply steps_settled].
  apply transition_input_canonical in Hin as [E1 E2]; [|done..].
  by eapply settled_res_ids; [..|exact Hr].
Qed.

#[local] Instance inventory_stock : StockService DB.
Proof using Hinj.
  refine {| stock_ok := settled; settles := has_settled; moves := steps TTL catalog |}.
  - intros x. apply rtc_refl.
  - intros x x' Hs Hx. by eapply steps_settled.
  - intros x x' out rid oid Hs Hx. apply settled_res_later, steps_lifecycle; [done|apply Hx].
  - intros n q x _. apply call_steps, serves_ret, reserve_serves.
  - intros n q x _. apply call_steps, serves_ret, transition_serves.
  - intros n q x _. apply call_steps, serves_ret, transition_serves.
  - intros n q x _. apply call_steps, serves_ret, return_serves.
  - intros n rid oid key reason x u Hx C1 C2 Hu. exact (transition_sold true _ _ _ _ _ _ u _ Hx C1 C2 Hu).
  - intros n rid oid key reason x u Hx C1 C2 Hu. exact (transition_sold false _ _ _ _ _ _ u _ Hx C1 C2 Hu).
  - intros n rid oid key reason x u Hx C1 C2 Hu. exact (return_sold _ _ _ _ _ _ u _ Hx C1 C2 Hu).
Defined.
End client.
