(* ===== verification/OrdDemo.v ===== *)
(** Order service: a concrete environment, with the Batch Inventory of the demo
    behind its client, for the theorems that are applied to it. *)

From stdpp Require Import pretty.
From S2P Require Import Prelude Effects GoStd InvModel InvStore InvOps InvReserve InvSafety InvSystem InvDemo InvTheorems InvSettled InvTransport OrdModel OrdService OrdSteps OrdTheorems OrdStock OrdInventory.

#[global] Instance demo_pg : PgUuid := {| pg_uuid := uuid_parse; pg_uuid_canonical := uuid_parse_canonical |}.

(** A checksum in place of the name-based digest. *)
Definition demo_sum (s : string) : N := foldl (λ n b, (n * 31 + Z.to_N b) mod 900000)%N 7%N (bytes s).
Definition demo_name (s : string) : string :=
  let u := demo_id (demo_sum s) in if bool_decide (String.length u = 36%nat) then u else uuid_nil.

#[global] Program Instance demo_ids : OrderIds := {|
  uuid_sha1 := demo_name;
  request_hash c p items := c +:+ "|" +:+ pretty p +:+ "|" +:+
    String.concat "," ((λ x : string * Z, x.1 +:+ "=" +:+ pretty x.2) <$> items)
|}.
Next Obligation.
  intros s. cbn. assert (H : String.length (demo_name s) = 36%nat).
  { unfold demo_name. cbv zeta. case_bool_decide as H; [exact H|done]. }
  by rewrite bool_decide_eq_true_2.
Qed.

Definition demo_token : string := "0123456789abcdef0123456789abcdef".
Definition demo_net (n : nat) : Delivery := Served [] (clock_from hour) None None.
#[global] Instance demo_inventory : InventoryClient DB :=
  inventory_client demo_TTL demo_catalog demo_token demo_token demo_net.
#[global] Instance demo_stock : StockService DB :=
  inventory_stock demo_TTL demo_catalog demo_token demo_token demo_net demo_digest_inj.

Definition demo_env : Env := MkEnv None 0 0
  (λ _ _, inr [MkPbFlavor vanilla "Vanilla" true (Some (MkPbMoney (Some 5000) (Some "THB")))])
  (λ _ _, inr ("cs_1", "https://pay.example/cs_1"))
  (Some (MkFulfillment (λ _ _, Some 0) (λ _ _, inr "QUEUED")))
  (λ _, false) (λ _, false).

Definition customer1 : string := demo_id 20.
Definition input1 : CreateOrderInput := MkCreateOrderInput customer1 (2 * hour) [MkOrderItemInput vanilla 3].
Definition okey : string := demo_id 21.

Definition w_shop : world (OSt DB) := World (MkOSt empty_odb (w_db w_created)) 0 false [].
Definition w_placed : world (OSt DB) := (run_call demo_env (CallPlaceOrder input1 okey) (clock_from hour) w_shop).2.
Definition demo_order : Order :=
  match (placeOrder demo_env input1 okey (clock_from hour) w_shop).1 with
  | inr order => order
  | inl _ => draft_order "" "" "" 0
  end.
Definition w_paid : world (OSt DB) := (run_call demo_env (CallConfirmPayment (o_ID demo_order)) (clock_from hour) w_placed).2.
Definition w_store : world (OSt DB) := (run_call demo_env (CallStoreCancel (o_ID demo_order)) (clock_from hour) w_paid).2.

Definition stored (w : world (OSt DB)) : option (OrderStatus * string * Z) :=
  o ← orders (od (w_db w)) !! o_ID demo_order; Some (o_Status o, o_CheckoutURL o, o_TotalAmountMinor o).

Example demo_placed : stored w_placed = Some (StatusPendingPayment, "https://pay.example/cs_1", 15000).
Proof. vm_compute. reflexivity. Qed.
Example demo_paid : stored w_paid = Some (StatusPaid, "", 15000).
Proof. vm_compute. reflexivity. Qed.
Example demo_store : stored w_store = Some (StatusCancelled, "", 15000).
Proof. vm_compute. reflexivity. Qed.

(** The row of the demo order, and the runs that lead to it. *)
Definition order_at (w : world (OSt DB)) : Order := default demo_order (orders (od (w_db w)) !! o_ID demo_order).

Lemma order_at_row w : bool_decide (is_Some (orders (od (w_db w)) !! o_ID demo_order)) = true →
  orders (od (w_db w)) !! o_ID demo_order = Some (order_at w).
Proof. intros [x Hx]%bool_decide_eq_true. unfold order_at. by rewrite Hx. Qed.

Lemma demo_call c s o w : w_db w = s → call_step s (w_db (run_call demo_env c o w).2).
Proof. intros <-. apply (call_step_run _ demo_env c o w (ox (w_db w))). by destruct (w_db w). Qed.

Lemma demo_to_placed : rtc call_step (w_db w_shop) (w_db w_placed).
Proof. apply rtc_once. by apply (demo_call (CallPlaceOrder input1 okey) _ (clock_from hour) w_shop). Defined.
Lemma demo_to_paid : rtc call_step (w_db w_placed) (w_db w_paid).
Proof. apply rtc_once. by apply (demo_call (CallConfirmPayment (o_ID demo_order)) _ (clock_from hour) w_placed). Defined.
Lemma demo_to_store : rtc call_step (w_db w_paid) (w_db w_store).
Proof. apply rtc_once. by apply (demo_call (CallStoreCancel (o_ID demo_order)) _ (clock_from hour) w_paid). Defined.

Lemma reachable_placed : oreachable (w_db w_placed).
Proof. exists (w_db w_created). apply demo_to_placed. Defined.
Lemma reachable_paid : oreachable (w_db w_paid).
Proof. exists (w_db w_created). etrans; [apply demo_to_placed|apply demo_to_paid]. Defined.
