(* ===== verification/OrdClaims.v ===== *)
(** Order service: the properties of the order state machine, of its outbox and
    of payment confirmation. *)

From S2P Require Import Prelude Effects GoStd InvModel InvStore InvDemo InvSystem OrdModel OrdService OrdSteps OrdTheorems OrdStock OrdInventory OrdDemo InvInv InvSafety InvTheorems InvSettled InvTransport.

Section claims.
Context {X : Type} {uuid : UuidLib} {pg : PgUuid} {ids : OrderIds} {inv : InventoryClient X}.

(** C6.  The service refines its abstract state machine: every public
    operation, every worker and every single repository transaction, with any
    answers from its clients and any failure of the database, changes the order
    tables only by steps of [ostep] (create, bind a checkout, begin a
    transition, reject, expire, pay, cancel, publish), each under the guard the
    machine states.  So a stored order is never lost; its id, customer, pickup
    time, keys, request hash, reservation, total, currency and items never
    change; its state only follows the documented transitions; the payment time
    and the checkout session are never changed once set; and an order that is
    cancelled or being cancelled is never paid afterwards. *)
Theorem order_service_refines (s s' : OSt X) : oreachable s → rtc call_step s s' →
  rtc ostep (od s) (od s') ∧
  ∀ id o, orders (od s) !! id = Some o → ∃ o', orders (od s') !! id = Some o' ∧ evolves o o'.
Proof.
  intros Hr%reachable_ok Hs. split; [apply (calls_from s s' Hs), (od_keyed _ Hr)|].
  intros id o Ho. apply (calls_ok _ _ Hs Hr). done.
Qed.

(** C7.  The transactional outbox is exact: in every reachable database an
    order has one [order.placed] event if it was paid and none otherwise, one
    [order.cancelled] event if it is CANCELLED and none otherwise, an event
    names only a stored order, and state, payment time and cancellation reason
    of every order agree.  No two orders share a customer's idempotency key, and
    no two share a reservation. *)
Theorem order_tables_exact (s : OSt X) : oreachable s → outbox_ok (od s) ∧ keys_unique (od s).
Proof. intros Hr. split; [apply (od_outbox _ (reachable_ok s Hr))|apply (od_unique _ (reachable_ok s Hr))]. Qed.

(** ** Payment *)

Definition never_paid (id : string) (s : OSt X) : Prop :=
  ∃ order, row id order s ∧ closed (o_Status order) ∧ o_PaidAt order = None.

Definition paid_with_event (id : string) (s : OSt X) : Prop :=
  ∃ order, row id order s ∧ o_Status order = StatusPaid ∧ is_Some (o_PaidAt order) ∧
    events "order.placed" (o_ID order) (outbox (od s)) = 1.

Lemma closed_never_paid id order s : odb_ok (od s) → row id order s → closed (o_Status order) →
  o_CancellationReason order ≠ ReasonStoreCancelled → never_paid id s.
Proof.
  intros Hok Hr Hc Hreason. exists order. split_and!; [done..|]. destruct Hr as [_ Hr].
  destruct (ob_order _ (od_outbox _ Hok) _ _ Hr) as [_ Ho]. unfold order_ok in Ho.
  destruct (o_Status order); try done; [by destruct Ho|]. apply eq_None_not_Some. tauto.
Qed.

Lemma paid_has_event id order s : odb_ok (od s) → row id order s → o_Status order = StatusPaid → paid_with_event id s.
Proof.
  intros Hok Hr Hst. exists order. pose proof Hr as [_ Ho].
  destruct (ob_order _ (od_outbox _ Hok) _ _ Ho) as [_ Hoo]. unfold order_ok in Hoo. rewrite Hst in Hoo.
  split_and!; [done..|apply Hoo|]. rewrite (ob_placed _ (od_outbox _ Hok)), Ho.
  by rewrite bool_decide_eq_true_2 by apply Hoo.
Qed.

Lemma never_paid_later id s s' : odb_ok (od s) → rtc call_step s s' → never_paid id s → never_paid id s'.
Proof.
  intros Hok Hs (order & [Hp Ho] & Hc & Hn). destruct (calls_ok _ _ Hs Hok) as [_ Hev].
  destruct (Hev _ _ Ho) as (order' & Ho' & He). destruct (ev_closed _ _ He Hc) as [Hc' Hn'].
  pose proof (ev_identity _ _ He) as [= I1 _ _ _ _ _ _ _ _ _ _ _ _].
  exists order'. split_and!; [split; [by rewrite I1|by rewrite I1]|done|congruence].
Qed.

Lemma mapped_not_rejected e : mapGRPCError "INVENTORY" e ≠ paymentRejected.
Proof. destruct e as [c msg|]; [destruct c|]; discriminate. Qed.
Lemma repo_not_rejected e : mapRepositoryError e ≠ paymentRejected.
Proof. destruct e; discriminate. Qed.

(** The answer of a payment confirmation and the database it leaves. *)
Definition payment_answer (id : string) (r : SErr + unit) (s : OSt X) : Prop :=
  match r with
  | inr _ => paid_with_event id s
  | inl (SApp e) => e = paymentRejected → never_paid id s
  | inl _ => False
  end.

Lemma state_error_answer id o w r w' : odb_ok (od (w_db w)) →
  paymentStateError (X := X) id o w = (r, w') → payment_answer id r (w_db w').
Proof.
  intros Hok H. unfold paymentStateError, repo, try, fail, throw in H. unfold mbind, M_bind in H.
  destruct (Get id o w) as [[e|order] w1] eqn:Hg; simplify_eq/=.
  - intros E. by apply repo_not_rejected in E.
  - apply get_row in Hg as [Hr Hw]; [|apply Hok]. rewrite <-Hw in Hr, Hok. destruct (_ && _) eqn:Hc; simplify_eq/=; [|done].
    intros _. bool_guards. apply (closed_never_paid _ order); try done.
    by apply orb_true_iff in H as [Hst|Hst]; apply bool_decide_eq_true in Hst as ->.
Qed.

Lemma finish_answer id order o w r w' : odb_ok (od (w_db w)) → row id order (w_db w) →
  o_Status order = StatusPaymentConfirming →
  finishPayment (X := X) order o w = (r, w') → payment_answer id r (w_db w').
Proof.
  intros Hok Hr Hst H. pose proof (run_keeps (finishPayment order) o w (finishPayment_refines order) Hok) as Hok'.
  rewrite H in Hok'. cbn [snd] in Hok'. assert (Hro : row (o_ID order) order (w_db w)).
  { eapply row_of_id; [apply Hok|done|]. apply Hr. }
  assert (Hid : ∀ order' (s : OSt X), o_ID order' = o_ID order → row (o_ID order) order' s → row id order' s).
  { intros order' s E [_ Ho]. split; [|done]. destruct Hr as [-> _]. congruence. }
  unfold finishPayment, inventory in H. unfold mbind, M_bind in H. destruct (ConfirmReservation _ _ _) as [[e|u] x].
  - destruct (bool_decide (code_of e = FailedPrecondition)); [|injection H as <- <-; intros E; by apply mapped_not_rejected in E].
    unfold repo, try in H. destruct (RejectPaymentConfirmation _ o _) as [[e'|u'] w1] eqn:Hj; injection H as <- <-; [discriminate|].
    apply (reject_hit _ order) in Hj as [t Hj]; [|done..]. intros _.
    eapply closed_never_paid; [done|by apply Hid in Hj|done|]. destruct Hr as [_ Ho].
    destruct (ob_order _ (od_outbox _ Hok) _ _ Ho) as [_ Hoo]. unfold order_ok in Hoo. rewrite Hst in Hoo.
    cbn. by destruct Hoo as [_ ->].
  - cbn -[MarkPaidWithOutbox] in H. unfold repo, try in H.
    destruct (MarkPaidWithOutbox _ _ _ _ o _) as [[e|u'] w1] eqn:Hj; [destruct e; injection H as <- <-; discriminate|].
    injection H as <- <-. apply paid_post in Hj as (order' & Hj & Hst'); [|apply Hok].
    apply (paid_has_event _ order'); [done| |done]. apply Hid; [|done].
    destruct Hj as [Hp1 _], Hro as [Hp2 _]. congruence.
Qed.

Lemma confirm_answer id o w r w' : odb_ok (od (w_db w)) →
  ConfirmPayment (X := X) id o w = (r, w') → payment_answer id r (w_db w').
Proof.
  intros Hok H. unfold ConfirmPayment, repo, try in H. unfold mbind, M_bind in H.
  pose proof (run_keeps (BeginTransition id StatusPaymentConfirming) o w (BeginTransition_refines _ _) Hok) as Hok1.
  destruct (BeginTransition id StatusPaymentConfirming o w) as [[e|order] w1] eqn:Hb; cbn [snd] in *.
  - destruct e; [injection H as <- <-; done|by eapply state_error_answer|injection H as <- <-; done].
  - apply begin_post in Hb as [Hr Hst]; [|apply Hok]. case_bool_decide as Hp; [injection H as <- <-; by eapply paid_has_event|].
    destruct Hst as [Hst|[= Hst]]; [|done]. rewrite bool_decide_eq_true_2 in H by done. by eapply finish_answer.
Qed.

(** C8.  A payment confirmation never lies, whatever the database, the
    Inventory service and the network do: when it reports success the order is
    PAID with exactly one [order.placed] event; when it reports PAYMENT_REJECTED
    the order is cancelled or being cancelled, was never paid, and no later
    operation pays it; no other kind of failure than an application error
    comes out. *)
Theorem confirm_payment_answer id o w r w' :
  oreachable (w_db w) → ConfirmPayment (X := X) id o w = (r, w') →
  payment_answer id r (w_db w') ∧
  ∀ s', r = inl (SApp paymentRejected) → rtc call_step (w_db w') s' → never_paid id s'.
Proof.
  intros Hr%reachable_ok H. pose proof (confirm_answer _ _ _ _ _ Hr H) as Ha. split; [done|].
  intros s' -> Hs. eapply never_paid_later; [|exact Hs|by apply Ha].
  pose proof (run_keeps (ConfirmPayment id) o w (ConfirmPayment_refines id) Hr) as Hk. by rewrite H in Hk.
Qed.
End claims.

Lemma order_service_refines_witness : rtc ostep (od (w_db w_placed)) (od (w_db w_paid)) ∧
  ∃ o', orders (od (w_db w_paid)) !! o_ID demo_order = Some o' ∧ evolves (order_at w_placed) o'.
Proof.
  destruct (order_service_refines (w_db w_placed) (w_db w_paid) reachable_placed demo_to_paid) as [H1 H2]. split; [exact H1|].
  apply H2, order_at_row. vm_compute. reflexivity.
Defined.

Lemma order_tables_exact_witness : outbox_ok (od (w_db w_paid)) ∧ keys_unique (od (w_db w_paid)).
Proof. apply order_tables_exact, reachable_paid. Defined.

Lemma confirm_payment_answer_witness :
  payment_answer (o_ID demo_order) (inr tt) (w_db w_paid) ∧
  ∀ s', inr tt = inl (SApp paymentRejected) → rtc call_step (w_db w_paid) s' → never_paid (o_ID demo_order) s'.
Proof.
  apply (confirm_payment_answer (o_ID demo_order) (clock_from hour) w_placed); [apply reachable_placed|].
  unfold w_paid. apply run_pair. vm_compute. reflexivity.
Defined.

(** The two services together: the Order service calling the real Batch
    Inventory over a network that delays, drops and reorders. *)


Section shop.
Context {uuid : UuidLib} {dig : Digest} {pg : PgUuid} {ids : OrderIds}.
Context (TTL : Z) (catalog : option (string → option IErr)) (orderToken token : string).

(** A call of the Order service whose messages to Inventory meet any fate
    [net], or any work of Inventory: other clients' requests, sweeps, expiry. *)
Inductive shop_step : relation (OSt DB) :=
  | shop_call net env c o w :
      shop_step (w_db w) (w_db (run_call (inv := inventory_client TTL catalog orderToken token net) env c o w).2)
  | shop_stock d x x' : steps TTL catalog x x' → shop_step (MkOSt d x) (MkOSt d x').

Definition opened : OSt DB := MkOSt empty_odb empty_db.

(** The reservation of an order is in one of the states [l]. *)
Definition reservation_in (s : OSt DB) (o : Order) (l : list ResStatus) : Prop :=
  ∃ r, reservations (ox s) !! o_ReservationID o = Some r ∧ rr_OrderID r = o_ID o ∧ rr_Status r ∈ l.

Definition stock_agrees (s : OSt DB) (o : Order) : Prop :=
  match o_Status o with
  | StatusPaid | StatusStoreCancelPending => reservation_in s o [RConfirmed; RReturned]
  | StatusCancelled =>
      match o_PaidAt o with
      | Some _ => reservation_in s o [RReturned]
      | None => reservation_in s o [RReleased; RExpired]
      end
  | _ => True
  end.

Context (Hinj : digest_inj).

(** The invariant does not depend on the network. *)
Definition shop_inv (s : OSt DB) : Prop :=
  odb_ok (od s) ∧ settled (ox s) ∧
  ∀ id o out, orders (od s) !! id = Some o → promised o = Some out →
    has_settled (ox s) out (o_ReservationID o) (o_ID o).

Lemma shop_inv_stock net s :
  stock_inv (svc := inventory_stock TTL catalog orderToken token net Hinj) s ↔ shop_inv s.
Proof.
  split; [intros [H1 H2 H3]|intros (H1 & H2 & H3)].
  - split_and!; [done..|]. intros id o out Ho Hp. exact (H3 id o Ho out Hp).
  - split; [done..|]. intros id o Ho out Hp. exact (H3 id o out Ho Hp).
Qed.

Lemma shop_step_inv s s' : shop_step s s' → shop_inv s → shop_inv s'.
Proof using Hinj.
  destruct 1 as [net env c o w|d x x' Hs]; intros Hi.
  - apply (shop_inv_stock net). apply (shop_inv_stock net) in Hi. eapply sys_step_inv; [|exact Hi]. apply sys_call.
  - apply (shop_inv_stock (λ _, Refused RpcOther)). apply (shop_inv_stock (λ _, Refused RpcOther)) in Hi.
    eapply sys_step_inv; [|exact Hi]. constructor; [apply Hi|exact Hs].
Qed.

Lemma opened_inv : shop_inv opened.
Proof. split_and!; [apply empty_odb_ok|apply empty_settled|done]. Qed.

Lemma settled_in s o out l : has_settled (ox s) out (o_ReservationID o) (o_ID o) →
  (∀ st, settled_by (outcome_op out) st → st ∈ l) → reservation_in s o l.
Proof. intros (r & H1 & H2 & H3) Hl. exists r. auto. Qed.

(** C9.  Orders and stock agree.  Whatever calls, workers and inventory jobs
    run, whatever fails, and however answers of the Inventory service are lost
    or replayed: the reservation of a PAID order was confirmed for that very
    order (CONFIRMED, or RETURNED if someone took it back), a cancelled unpaid
    order has its stock RELEASED or EXPIRED, and an order cancelled by the store
    after payment has its stock RETURNED. *)
Theorem orders_match_stock s id o :
  rtc shop_step opened s → orders (od s) !! id = Some o → stock_agrees s o.
Proof using Hinj.
  intros Hs Ho. assert (Hi : shop_inv s).
  { revert Hs. generalize opened_inv. generalize opened. intros s0 Hi Hs.
    induction Hs; [done|]. eauto using shop_step_inv. }
  destruct Hi as (_ & _ & Hp). specialize (Hp id o). unfold promised, stock_agrees in *.
  destruct (o_Status o); try done; [|destruct (o_PaidAt o)|];
    (eapply settled_in; [by eapply Hp|]); unfold settled_by; cbn; set_solver.
Qed.
End shop.

Abbreviation demo_shop := (shop_step demo_TTL demo_catalog demo_token demo_token).

Lemma demo_shop_call c s o w : w_db w = s → demo_shop s (w_db (run_call demo_env c o w).2).
Proof. intros <-. apply (shop_call _ _ _ _ demo_net). Qed.

Lemma demo_shop_store : rtc demo_shop opened (w_db w_store).
Proof.
  eapply rtc_l; [apply (shop_stock _ _ _ _ empty_odb empty_db (w_db w_created)), demo_created|].
  eapply rtc_l; [by apply (demo_shop_call (CallPlaceOrder input1 okey) _ (clock_from hour) w_shop)|].
  eapply rtc_l; [by apply (demo_shop_call (CallConfirmPayment (o_ID demo_order)) _ (clock_from hour) w_placed)|].
  eapply rtc_l; [by apply (demo_shop_call (CallStoreCancel (o_ID demo_order)) _ (clock_from hour) w_paid)|].
  apply rtc_refl.
Defined.

Lemma orders_match_stock_witness :
  o_Status (order_at w_store) = StatusCancelled ∧ stock_agrees (w_db w_store) (order_at w_store).
Proof.
  split; [vm_compute; reflexivity|].
  apply (orders_match_stock demo_TTL demo_catalog demo_token demo_token demo_digest_inj _ (o_ID demo_order)).
  - apply demo_shop_store.
  - apply order_at_row. vm_compute. reflexivity.
Defined.
