(* ===== verification/OrdPlaceClaims.v ===== *)
(** Order service: placing an order.  What a new order contains, what a retry
    answers, and when a checkout link is handed out. *)

From S2P Require Import Prelude Effects GoStd InvModel OrdModel OrdService OrdSteps OrdTheorems OrdStock InvStore InvDemo InvSystem OrdInventory OrdDemo.

Section place.
Context {X : Type} {uuid : UuidLib} {pg : PgUuid} {ids : OrderIds} {inv : InventoryClient X}.
Implicit Types (s : OSt X) (w : world (OSt X)).

(** ** Finding an order by its key *)

Lemma bykey_elem c k s x : x ∈ filter (λ o, o_CustomerID o = c ∧ o_IdempotencyKey o = k) (map_to_list (orders (od s))).*2 ↔
  o_CustomerID x = c ∧ o_IdempotencyKey x = k ∧ ∃ id, orders (od s) !! id = Some x.
Proof.
  rewrite list_elem_of_filter, list_elem_of_fmap. split.
  - intros [[H1 H2] ([id y] & -> & Hy%elem_of_map_to_list)]. eauto.
  - intros (H1 & H2 & id & Hid). split; [done|]. exists (id, x). split; [done|]. by apply elem_of_map_to_list.
Qed.

Lemma bykey_some c k s x : by_idempotency_key c k s = Some x →
  o_CustomerID x = c ∧ o_IdempotencyKey x = k ∧ ∃ id, orders (od s) !! id = Some x.
Proof.
  unfold by_idempotency_key. intros H. apply bykey_elem.
  rewrite <-(merge_sort_Permutation (λ x y, String.le (o_ID x) (o_ID y))).
  destruct (merge_sort _ _); [done|]. injection H as <-. by left.
Qed.

Lemma bykey_row s id x : odb_ok (od s) → orders (od s) !! id = Some x →
  by_idempotency_key (o_CustomerID x) (o_IdempotencyKey x) s = Some x.
Proof.
  intros Hok Hx. destruct (by_idempotency_key _ _ s) as [y|] eqn:H.
  - apply bykey_some in H as (H1 & H2 & id' & Hy). f_equal.
    pose proof (ku_key _ (od_unique _ Hok) _ _ _ _ Hx Hy (eq_sym H1) (eq_sym H2)). subst id'. congruence.
  - unfold by_idempotency_key in H. exfalso.
    assert (Hin : x ∈ merge_sort (λ x y, String.le (o_ID x) (o_ID y))
      (filter (λ o, o_CustomerID o = o_CustomerID x ∧ o_IdempotencyKey o = o_IdempotencyKey x)
        (map_to_list (orders (od s))).*2)).
    { rewrite merge_sort_Permutation. apply bykey_elem. eauto. }
    destruct (merge_sort _ _); [by apply elem_of_nil in Hin|done].
Qed.

Lemma existing_ok c k h o w r w' : existing_order c k h o w = (inr r, w') →
  w_db w' = w_db w ∧ r = by_idempotency_key c k (w_db w) ∧ ∀ x, r = Some x → o_RequestHash x = h.
Proof.
  unfold existing_order, repo, try, GetByIdempotencyKey, pool_query, pool_stmt. unfold mbind, M_bind.
  destruct (or_fault o (w_tick w)); [done|]. cbn.
  destruct (by_idempotency_key c k (w_db w)) as [x|] eqn:Hx; cbn.
  - destruct (bool_decide (o_RequestHash x = h)) eqn:Hh; [|done]. intros [= <- <-]. bool_guards. split_and!; [done..|].
    by intros y [= <-].
  - by intros [= <- <-].
Qed.

Lemma check_pickup_state env p items o w r w' : check_pickup env p items o w = (r, w') → w_db w' = w_db w.
Proof.
  assert (H : preserves (λ s, s = w_db w) (check_pickup (X := X) env p items)).
  { assert (∀ {A} (m : M (OSt X) RErr A), preserves (λ s, s = w_db w) m → preserves (λ s, s = w_db w) (repo m)).
    { intros A m Hm. by apply preserves_try. }
    assert (∀ {A} (f : nat → A), preserves (λ s, s = w_db w) (call (X := X) f)) by (by intros A f o1 w1).
    unfold check_pickup, CountOrdersInSlot, fail. preserve. }
  specialize (H o w eq_refl). intros E. by rewrite E in H.
Qed.

(** ** A new order *)

(** The order [placeOrder] builds from the draft, the prices and the
    reservation. *)
Definition new_order (draft : Order) (p : Priced) (rid : string) (expires t : Z) : Order :=
  set_times t (MkOrder (o_ID draft) (o_CustomerID draft) (o_PickupAt draft) (o_Status draft)
    (o_IdempotencyKey draft) (o_RequestHash draft) rid expires
    (o_ConfirmIdempotencyKey draft) (o_ReleaseIdempotencyKey draft) (pc_Total p) (o_Currency draft)
    "" "" "" None (pc_Items p) zero_time zero_time).

(** Inventory was asked for [want] under the order's id and key, and answered
    with the reservation the order names. *)
Definition reserved_for (order : Order) (want : list PbPortionRequest) (x x' : X) : Prop :=
  ∃ n r ts, ReservePortions n (MkReserveRequest (o_ID order) (o_IdempotencyKey order) want) x = (inr (Some r), x') ∧
    pr_Status r = PbActive ∧ uuid_parse (pr_ReservationId r) = Some (o_ReservationID order) ∧
    pr_ExpiresAt r = Some ts ∧ o_ReservationExpiresAt order = AsTime ts.

Lemma create_cases order o w r w' : Create order o w = (r, w') →
  w_db w' = w_db w ∨ ∃ t, w_db w' = on_orders <[o_ID order := set_times t order]> (w_db w).
Proof.
  intros [E|(a & w1 & H & _ & E)]%transaction_cases; [by left|right]. run_inv H.
  apply stmt_ok in H as (_ & _ & s & H & ->). cbn [w_db] in *. exists (or_clock o (S (w_tick w))).
  by repeat (case_match; simplify_eq).
Qed.
Lemma reserve_and_save_ok draft p o w order w' :
  odb_ok (od (w_db w)) → o_Status draft = StatusPendingPayment → uuid_parse (o_ID draft) = Some (o_ID draft) →
  draft_priced draft p →
  by_idempotency_key (o_CustomerID draft) (o_IdempotencyKey draft) (w_db w) = None →
  reserve_and_save draft p o w = (inr order, w') →
  ∃ rid expires t, order = new_order draft p rid expires t ∧
    reserved_for order (pc_Reserve p) (ox (w_db w)) (ox (w_db w')) ∧
    orders (od (w_db w')) = <[o_ID order := order]> (orders (od (w_db w))) ∧ outbox (od (w_db w')) = outbox (od (w_db w)).
Proof.
  intros Hok Hst Hid Hp Hfree H. unfold reserve_and_save in H. apply bind_ok in H as (resp & w1 & H1 & H).
  unfold inventory in H1. destruct (ReservePortions _ _ _) as [a x] eqn:Hres. injection H1 as <- <-.
  destruct a as [e|[r|]]; [done| |done]. case_bool_decide; [done|].
  destruct (bool_decide (pr_Status r = PbActive)) eqn:Hact; [|done]. cbn [negb] in H. bool_guards.
  destruct (uuid_parse (pr_ReservationId r)) as [rid|] eqn:Hrid; [|done].
  destruct (pr_ExpiresAt r) as [ts|] eqn:Hts.
  2: { apply bind_ok in H as (? & ? & _ & H). done. }
  destruct (ts_valid ts); cbn [negb] in H; [|apply bind_ok in H as (? & ? & _ & H); done].
  apply bind_ok in H as (now & w2 & H2 & H). apply go_now_ok in H2 as [_ ->]. cbn [w_db w_tick] in H.
  destruct (negb _); [apply bind_ok in H as (? & ? & _ & H); done|].
  set (built := MkOrder _ _ _ _ _ _ _ _ _ _ _ _ _ _ _ _ _ _ _) in H.
  apply bind_ok in H as (created & w3 & H3 & H). unfold repo in H3. apply try_ok in H3.
  assert (Hbuilt : ∀ t, order = set_times t built →
    orders (od (w_db w')) = <[o_ID draft := order]> (orders (od (w_db w))) → ox (w_db w') = x →
    outbox (od (w_db w')) = outbox (od (w_db w)) →
    ∃ rid expires t, order = new_order draft p rid expires t ∧
      reserved_for order (pc_Reserve p) (ox (w_db w)) (ox (w_db w')) ∧
      orders (od (w_db w')) = <[o_ID order := order]> (orders (od (w_db w))) ∧
      outbox (od (w_db w')) = outbox (od (w_db w))).
  { intros t -> E1 E2 E3. exists rid, (AsTime ts), t. split; [done|]. split; [|done].
    exists (w_tick w), r, ts. cbn. rewrite E2. done. }
  destruct created as [e|y].
  - apply bind_ok in H as (again & w4 & H4 & H). apply existing_ok in H4 as (E4 & -> & _).
    assert (Hok3 : odb_ok (od (w_db w3))).
    { assert (Hf : fresh_order built) by (split_and!; try done; by apply Hp).
      match type of H3 with Create _ _ ?w0 = _ =>
        pose proof (run_keeps (Create built) o w0 (Create_refines built Hf Hid (uuid_parse_canonical _ _ Hrid)) Hok) as Hk
      end. by rewrite H3 in Hk. }
    destruct (by_idempotency_key _ _ (w_db w3)) as [y|] eqn:Hy; [|done]. run_inv H.
    apply create_cases in H3 as [E3|[t E3]]; cbn [w_db] in *.
    + unfold by_idempotency_key in Hy, Hfree. rewrite E3 in Hy. cbn in Hy, Hfree. congruence.
    + assert (Hrow : orders (od (w_db w3)) !! o_ID draft = Some (set_times t built)).
      { rewrite E3. apply lookup_insert_eq. }
      pose proof (bykey_row _ _ _ Hok3 Hrow) as Hk. cbn in Hk. assert (y = set_times t built) as -> by congruence.
      apply (Hbuilt t); rewrite ?E4, ?E3; done.
  - run_inv H. apply create_post in H3 as (t & -> & E3). cbn [w_db] in E3. apply (Hbuilt t); rewrite ?E3; done.
Qed.

(** The parts of a request that passed validation. *)
Record valid_request (input : CreateOrderInput) (key : string) (c k : string) (items : gmap string Z) : Prop := {
  vr_customer : uuid_parse (co_CustomerID input) = Some c;
  vr_key : uuid_parse key = Some k;
  vr_time : is_zero_time (co_PickupAt input) = false;
  vr_slot : truncate (co_PickupAt input) (15 * minute) = co_PickupAt input;
  vr_items : normalizeItems (co_Items input) = inr items
}.

(** A request that finds its order. *)
Definition found (input : CreateOrderInput) (c k : string) (items : gmap string Z) (s s' : OSt X) (order : Order) : Prop :=
  by_idempotency_key c k s = Some order ∧ o_RequestHash order = hashRequest c (co_PickupAt input) items ∧ s' = s.

(** A request that creates its order: the lines are the requested portions at
    the catalog's prices, their sum is the total, Inventory was asked for
    exactly these portions, and the row is all that changes. *)
Definition created (env : Env) (input : CreateOrderInput) (c k : string) (items : gmap string Z) (s s' : OSt X)
    (order : Order) : Prop :=
  by_idempotency_key c k s = None ∧
  ∃ n flavors p rid expires t,
    BatchGetFlavors env n (sorted_ids items) = inr flavors ∧
    priced_request flavors items p ∧ 1 ≤ pc_Total p ≤ 99999999 ∧
    order = new_order (draft_order c k (hashRequest c (co_PickupAt input) items) (co_PickupAt input)) p rid expires t ∧
    reserved_for order (pc_Reserve p) (ox s) (ox s') ∧
    orders (od s') = <[o_ID order := order]> (orders (od s)) ∧ outbox (od s') = outbox (od s).

Lemma placeOrder_ok env input key o w order w' :
  odb_ok (od (w_db w)) → placeOrder env input key o w = (inr order, w') →
  ∃ c k items, valid_request input key c k items ∧
    (found input c k items (w_db w) (w_db w') order ∨ created env input c k items (w_db w) (w_db w') order).
Proof.
  intros Hok H. unfold placeOrder in H.
  destruct (uuid_parse (co_CustomerID input)) as [c|] eqn:Hc; [|done].
  destruct (uuid_parse key) as [k|] eqn:Hk; [|done]. cbv zeta in H.
  destruct (is_zero_time (co_PickupAt input)) eqn:Hz; [done|].
  destruct (bool_decide (truncate _ _ = _)) eqn:Ht; [|done]. cbn [negb] in H. bool_guards.
  destruct (normalizeItems (co_Items input)) as [e|items] eqn:Hn; [done|].
  exists c, k, items. split; [by split|].
  apply bind_ok in H as (ex & w1 & H1 & H). apply existing_ok in H1 as (E1 & Hex & Hh).
  destruct ex as [x|].
  { run_inv H. left. split_and!; auto. }
  right. apply bind_ok in H as (u & w2 & H2 & H). apply check_pickup_state in H2 as E2. rewrite E1 in E2.
  apply bind_ok in H as (fl & w3 & H3 & H). injection H3 as <- <-.
  destruct (BatchGetFlavors _ _ _) as [e|flavors] eqn:Hfl; [done|].
  destruct (price_all _ _ _ _) as [e|p] eqn:Hp; [done|]. destruct (_ || _) eqn:Hg; [done|].
  pose proof (normalizeItems_ok _ _ Hn) as (_ & _ & Hq & _).
  eapply reserve_and_save_ok in H as (rid & expires & t & R1 & R2 & R3 & R4); cbn [w_db] in *; rewrite ?E2 in *; try done.
  - split; [done|]. exists (w_tick w2), flavors, p, rid, expires, t. bool_guards. split_and!; try done; [|lia..].
    eapply priced_ok; [|exact Hp]. intros id q Hid. by apply (Hq id q).
  - apply uuid_sha1_canonical.
  - by eapply draft_priced_ok.
Qed.
End place.

(** Order service: the properties of placing an order. *)


Section claims.
Context {X : Type} {uuid : UuidLib} {pg : PgUuid} {ids : OrderIds} {inv : InventoryClient X}.
Implicit Types (s : OSt X) (w : world (OSt X)).

(** C10.  Money is exact: in every reachable database each line of an order is
    a positive number of portions at a non-negative price with their exact
    product as subtotal, the total is the sum of the subtotals and lies between
    1 and 99999999 minor units of THB, and no flavor appears twice.  No 64-bit
    product or sum wraps around. *)
Theorem order_totals_exact s id o : oreachable s → orders (od s) !! id = Some o → order_priced o.
Proof. intros Hr Ho. apply reachable_ok in Hr. by apply (od_priced _ Hr id). Qed.

(** ** Retries *)

(** The order a key stands for. *)
Definition keyed_order (c k hash : string) (order : Order) s : Prop :=
  orders (od s) !! o_ID order = Some order ∧ o_CustomerID order = c ∧ o_IdempotencyKey order = k ∧
  o_RequestHash order = hash.

Lemma placed_keyed env input key o w order w' :
  odb_ok (od (w_db w)) → placeOrder env input key o w = (inr order, w') →
  odb_ok (od (w_db w')) ∧ ∃ c k items, valid_request input key c k items ∧
    keyed_order c k (hashRequest c (co_PickupAt input) items) order (w_db w').
Proof.
  intros Hok H. pose proof (run_keeps (placeOrder env input key) o w (placeOrder_refines env input key) Hok) as Hok'.
  rewrite H in Hok'. split; [done|].
  apply placeOrder_ok in H as (c & k & items & Hv & Hc); [|done]. exists c, k, items. split; [done|].
  destruct Hc as [(H1 & H2 & ->)|(_ & n & fl & p & rid & e & t & _ & _ & _ & -> & _ & E & _)].
  - apply bykey_some in H1 as (E1 & E2 & id & Hid). destruct (od_keyed _ Hok _ _ Hid) as [<- _]. done.
  - split; [|done]. rewrite E. apply lookup_insert_eq.
Qed.

Lemma keyed_later c k h order s s' : odb_ok (od s) → rtc call_step s s' → keyed_order c k h order s →
  odb_ok (od s') ∧ ∃ cur, evolves order cur ∧ keyed_order c k h cur s' ∧ o_ID cur = o_ID order.
Proof.
  intros Hok Hs (H1 & H2 & H3 & H4). destruct (calls_ok _ _ Hs Hok) as [Hok' Hev]. split; [done|].
  destruct (Hev _ _ H1) as (cur & Hc & He). pose proof (ev_identity _ _ He) as [= I1 I2 I3 I4 I5 _ _ _ _ _ _ _ _].
  exists cur. unfold keyed_order. by rewrite I1, I2, I4, I5.
Qed.

Lemma existing_run c k h hash order o w : reliable o → odb_ok (od (w_db w)) → keyed_order c k h order (w_db w) →
  ∃ w', existing_order c k hash o w =
    (if bool_decide (h = hash) then inr (Some order)
     else inl (SApp (conflict "IDEMPOTENCY_KEY_REUSED" "Idempotency-Key was already used with a different request")), w') ∧
    w_db w' = w_db w.
Proof.
  intros Ho Hok (H1 & <- & <- & <-). pose proof (bykey_row _ _ _ Hok H1) as Hk.
  unfold existing_order, repo, try, GetByIdempotencyKey, pool_query, pool_stmt. unfold mbind, M_bind.
  rewrite Ho. cbn. rewrite Hk. cbn. eexists. destruct (bool_decide _); by split.
Qed.

(** A valid request whose key is known is answered from the stored order. *)
Lemma place_known env input key c k items h order o w : valid_request input key c k items →
  reliable o → odb_ok (od (w_db w)) → keyed_order c k h order (w_db w) →
  ∃ w', placeOrder env input key o w =
    (if bool_decide (h = hashRequest c (co_PickupAt input) items) then inr order
     else inl (SApp (conflict "IDEMPOTENCY_KEY_REUSED" "Idempotency-Key was already used with a different request")), w') ∧
    w_db w' = w_db w.
Proof.
  intros [V1 V2 V3 V4 V5] Ho Hok Hk. unfold placeOrder. rewrite V1, V2, V3, V5. cbv zeta.
  rewrite (bool_decide_eq_true_2 _ V4). cbn [negb].
  destruct (existing_run c k h (hashRequest c (co_PickupAt input) items) order o w Ho Hok Hk) as (w1 & E & Hw).
  exists w1. split; [|done]. case_bool_decide; [by erewrite bind_run by exact E|by apply bind_err].
Qed.

Lemma place_order_retry env input key o w order w' s2 env2 o2 w2 :
  oreachable (w_db w) → placeOrder env input key o w = (inr order, w') →
  rtc call_step (w_db w') s2 → w_db w2 = s2 → reliable o2 →
  ∃ cur w2', placeOrder env2 input key o2 w2 = (inr cur, w2') ∧ w_db w2' = w_db w2 ∧
    evolves order cur ∧ orders (od s2) !! o_ID order = Some cur.
Proof.
  intros Hr%reachable_ok H Hs <- Ho. apply placed_keyed in H as (Hok & c & k & items & Hv & Hk); [|done].
  eapply keyed_later in Hk as (Hok2 & cur & He & Hk2 & Hid); [|done..].
  destruct (place_known env2 _ _ _ _ _ _ _ o2 w2 Hv Ho Hok2 Hk2) as (w2' & E & Hw).
  rewrite bool_decide_eq_true_2 in E by done. exists cur, w2'. split_and!; [done..|]. rewrite <-Hid. apply Hk2.
Qed.

Lemma place_order_key_reuse env input key o w order w' s2 env2 input2 key2 c k items items2 o2 w2 :
  oreachable (w_db w) → placeOrder env input key o w = (inr order, w') →
  rtc call_step (w_db w') s2 → w_db w2 = s2 → reliable o2 →
  valid_request input key c k items → valid_request input2 key2 c k items2 →
  hashRequest c (co_PickupAt input2) items2 ≠ hashRequest c (co_PickupAt input) items →
  ∃ w2', placeOrder env2 input2 key2 o2 w2 = (inl (SApp (conflict "IDEMPOTENCY_KEY_REUSED"
    "Idempotency-Key was already used with a different request")), w2') ∧ w_db w2' = w_db w2.
Proof.
  intros Hr%reachable_ok H Hs <- Ho Hv1 Hv2 Hne. apply placed_keyed in H as (Hok & c' & k' & items' & Hv & Hk); [|done].
  assert (c' = c ∧ k' = k ∧ items' = items) as (-> & -> & ->).
  { destruct Hv1, Hv. split_and!; congruence. }
  eapply keyed_later in Hk as (Hok2 & cur & He & Hk2 & Hid); [|done..].
  destruct (place_known env2 _ _ _ _ _ _ _ o2 w2 Hv2 Ho Hok2 Hk2) as (w2' & E & Hw).
  rewrite bool_decide_eq_false_2 in E by done. eauto.
Qed.

(** C11.  What a successful placement means, on every path and with any
    failures in between (an ambiguous COMMIT included): the request was valid,
    and either its order existed already under the customer's key with the same
    request hash and nothing changed, or it was created now with exactly the
    requested portions at the catalog's prices, backed by an active reservation
    that was asked for exactly these portions, as the only change.  And placing
    is idempotent: the same request sent again under the same key, at any later
    time and after any other operations, whatever the catalog and the clock say
    then, answers with that same order as it is then, and changes nothing in the
    Order database or in Inventory, while a different valid request of the same
    customer under that key is refused with IDEMPOTENCY_KEY_REUSED (409) and
    changes nothing. *)
Theorem place_order_idempotent env input key o w order w' :
  oreachable (w_db w) → placeOrder env input key o w = (inr order, w') →
  (∃ c k items, valid_request input key c k items ∧
     (found input c k items (w_db w) (w_db w') order ∨ created env input c k items (w_db w) (w_db w') order)) ∧
  ∀ env2 o2 w2, rtc call_step (w_db w') (w_db w2) → reliable o2 →
  (∃ cur w2', placeOrder env2 input key o2 w2 = (inr cur, w2') ∧ w_db w2' = w_db w2 ∧
     evolves order cur ∧ orders (od (w_db w2)) !! o_ID order = Some cur) ∧
  (∀ input2 key2 c k items items2, valid_request input key c k items → valid_request input2 key2 c k items2 →
     hashRequest c (co_PickupAt input2) items2 ≠ hashRequest c (co_PickupAt input) items →
     ∃ w2', placeOrder env2 input2 key2 o2 w2 = (inl (SApp (conflict "IDEMPOTENCY_KEY_REUSED"
       "Idempotency-Key was already used with a different request")), w2') ∧ w_db w2' = w_db w2).
Proof.
  intros Hr H. split; [exact (placeOrder_ok _ _ _ _ _ _ _ (reachable_ok _ Hr) H)|]. intros env2 o2 w2 Hs Ho.
  split; [by eapply place_order_retry|]. intros input2 key2 c k items items2 H1 H2 Hne.
  by eapply (place_order_key_reuse env input key o w order w').
Qed.

(** ** Checkout *)

(** The link of a response is the stored one of a payable order. *)
Record link_ok (env : Env) (o : oracle) (s : OSt X) (s' : OSt X) (resp : CheckoutResponse) : Prop := {
  lk_stored : orders (od s') !! o_ID (ck_Order resp) = Some (ck_Order resp);
  lk_url : o_CheckoutURL (ck_Order resp) = ck_CheckoutURL resp;
  lk_pending : o_Status (ck_Order resp) = StatusPendingPayment;
  lk_payable : ∀ T, (∀ n, T ≤ or_clock o n) → T < o_ReservationExpiresAt (ck_Order resp);
  lk_valid : valid_checkout env (o_CheckoutSessionID (ck_Order resp)) (ck_CheckoutURL resp) = true ∨
    ∃ before, orders (od s) !! o_ID (ck_Order resp) = Some before ∧
      o_CheckoutSessionID before = o_CheckoutSessionID (ck_Order resp) ∧ o_CheckoutURL before = ck_CheckoutURL resp
}.

Lemma bind_checkout_ok id session url msg o w resp w' : rows_keyed (od (w_db w)) → session ≠ "" →
  bind_checkout id session url msg o w = (inr resp, w') →
  orders (od (w_db w')) !! o_ID (ck_Order resp) = Some (ck_Order resp) ∧ pg_uuid id = Some (o_ID (ck_Order resp)) ∧
  o_Status (ck_Order resp) = StatusPendingPayment ∧ o_CheckoutSessionID (ck_Order resp) = session ∧
  o_CheckoutURL (ck_Order resp) = url ∧ ck_CheckoutURL resp = url ∧
  ∃ n, or_clock o n < o_ReservationExpiresAt (ck_Order resp).
Proof.
  intros Hk Hs H. unfold bind_checkout, repo, try in H. unfold mbind, M_bind in H.
  destruct (BindCheckout id session url o w) as [[e|order] w1] eqn:Hb; [by destruct e|].
  injection H as <- <-. apply bind_post in Hb as ([Hp Ho] & B1 & B2 & B3 & B4); [|done..]. cbn. split_and!; eauto.
Qed.

(** A checkout link is handed out only for an order that can still be
    paid: PlaceOrder answers with a link only if the order is stored as
    PENDING_PAYMENT with that very link and its stock hold has not run out by
    the clock of the call, and the link either was stored before or is an https
    URL with a host and no user information. *)
Theorem checkout_link_safe env input key o w resp w' :
  oreachable (w_db w) → PlaceOrder env input key o w = (inr resp, w') → ck_CheckoutURL resp ≠ "" →
  link_ok env o (w_db w) (w_db w') resp.
Proof.
  intros Hr%reachable_ok H Hurl. unfold PlaceOrder in H. apply bind_ok in H as (order & w1 & H1 & H).
  pose proof (placed_keyed _ _ _ _ _ _ _ Hr H1) as (Hok1 & c & k & items & Hv & (Hrow & _)).
  unfold startPayment in H. case_bool_decide as Hst; cbn [negb] in H; [|by run_inv H].
  apply bind_ok in H as (t & w2 & H2 & H). apply go_now_ok in H2 as [-> ->].
  destruct (negb _); [done|]. destruct (negb _ && negb _) eqn:Hold.
  - bool_guards. apply bind_checkout_ok in H as (B1 & B2 & B3 & B4 & B5 & B6 & n & B7); [|apply Hok1|done].
    assert (Hid : o_ID (ck_Order resp) = o_ID order).
    { destruct (od_keyed _ Hok1 _ _ Hrow) as (_ & Hp & _). apply pg_uuid_canonical in Hp. congruence. }
    split; try done; [congruence|intros T HT; specialize (HT n); lia|]. right. exists order. rewrite Hid.
    apply placeOrder_ok in H1 as (c' & k' & items' & _ & Hc); [|done].
    destruct Hc as [(_ & _ & E)|(_ & ? & ? & ? & ? & ? & ? & _ & _ & _ & -> & _)]; [|done].
    rewrite <-E. split_and!; congruence.
  - apply bind_ok in H as (r & w3 & H3 & H). injection H3 as <- <-. cbn [w_db] in H.
    destruct (CreateCheckoutSession _ _ _) as [e|[session url]]; [done|].
    destruct (valid_checkout env session url) eqn:Hval; [|done]. cbn [negb] in H.
    assert (Hse : session ≠ "") by (unfold valid_checkout in Hval; by bool_guards).
    apply bind_checkout_ok in H as (B1 & B2 & B3 & B4 & B5 & B6 & n & B7); [|apply Hok1|done].
    split; try done; [congruence|intros T HT; specialize (HT n); lia|]. left. congruence.
Qed.
End claims.

Lemma order_totals_exact_witness : order_priced (order_at w_paid).
Proof.
  apply (order_totals_exact (w_db w_paid) (o_ID demo_order)); [apply reachable_paid|].
  apply order_at_row. vm_compute. reflexivity.
Defined.

Lemma demo_place : placeOrder demo_env input1 okey (clock_from hour) w_shop =
  (inr demo_order, (placeOrder demo_env input1 okey (clock_from hour) w_shop).2).
Proof. apply run_pair. vm_compute. reflexivity. Defined.

Lemma reachable_shop : oreachable (w_db w_shop).
Proof. exists (w_db w_created). apply rtc_refl. Defined.

Definition w_new : world (OSt DB) := (placeOrder demo_env input1 okey (clock_from hour) w_shop).2.

Lemma demo_new_to_paid : rtc call_step (w_db w_new) (w_db (run_call demo_env (CallConfirmPayment (o_ID demo_order)) (clock_from hour) w_new).2).
Proof. apply rtc_once. by apply (demo_call (CallConfirmPayment (o_ID demo_order)) _ (clock_from hour) w_new). Defined.

Definition input2 : CreateOrderInput := MkCreateOrderInput customer1 (2 * hour) [MkOrderItemInput vanilla 4].

Lemma demo_valid1 : valid_request input1 okey customer1 okey {[vanilla := 3]}.
Proof. split; vm_compute; reflexivity. Defined.
Lemma demo_valid2 : valid_request input2 okey customer1 okey {[vanilla := 4]}.
Proof. split; vm_compute; reflexivity. Defined.

Lemma place_order_idempotent_witness :
  let w2 := (run_call demo_env (CallConfirmPayment (o_ID demo_order)) (clock_from hour) w_new).2 in
  (∃ c k items, valid_request input1 okey c k items ∧
     (found input1 c k items (w_db w_shop) (w_db w_new) demo_order ∨ created demo_env input1 c k items (w_db w_shop) (w_db w_new) demo_order)) ∧
  (∃ cur w2', placeOrder demo_env input1 okey (clock_from (5 * hour)) w2 = (inr cur, w2') ∧ w_db w2' = w_db w2 ∧
     evolves demo_order cur ∧ orders (od (w_db w2)) !! o_ID demo_order = Some cur) ∧
  ∃ w2', placeOrder demo_env input2 okey (clock_from (5 * hour)) w2 = (inl (SApp (conflict "IDEMPOTENCY_KEY_REUSED"
    "Idempotency-Key was already used with a different request")), w2') ∧ w_db w2' = w_db w2.
Proof.
  intros w2. destruct (place_order_idempotent demo_env input1 okey (clock_from hour) w_shop demo_order w_new
    reachable_shop demo_place) as [H H']. split; [exact H|].
  destruct (H' demo_env (clock_from (5 * hour)) w2 demo_new_to_paid (clock_from_reliable _)) as [H1 H2].
  split; [exact H1|]. apply (H2 input2 okey customer1 okey {[vanilla := 3]} {[vanilla := 4]}); [apply demo_valid1|apply demo_valid2|].
  vm_compute. discriminate.
Defined.

Definition demo_response : CheckoutResponse :=
  match (PlaceOrder demo_env input1 okey (clock_from hour) w_shop).1 with
  | inr resp => resp
  | inl _ => MkCheckoutResponse demo_order ""
  end.

Lemma checkout_link_safe_witness :
  ck_CheckoutURL demo_response = "https://pay.example/cs_1" ∧
  link_ok demo_env (clock_from hour) (w_db w_shop) (w_db (PlaceOrder demo_env input1 okey (clock_from hour) w_shop).2) demo_response.
Proof.
  split; [vm_compute; reflexivity|].
  apply (checkout_link_safe demo_env input1 okey (clock_from hour) w_shop).
  - apply reachable_shop.
  - apply run_pair. vm_compute. reflexivity.
  - vm_compute. discriminate.
Defined.
