(* ===== verification/OrdExpiry.v ===== *)
(** Order service: the paging loops of the background workers.  They reach every
    row they are meant to reach and they end. *)

From S2P Require Import Prelude Effects GoStd InvModel OrdModel OrdService OrdSteps OrdTheorems OrdStock InvStore InvDemo OrdInventory OrdDemo.

(** ** Errors of the handlers *)

(** The operation fails with application errors only. *)
Definition app_fails {S A} (m : M S SErr A) : Prop := ∀ o w e w', m o w = (inl e, w') → ∃ a, e = SApp a.

Create HintDb apps.

Section apps.
Context {X : Type}.
Abbreviation Svc := (M (OSt X) SErr).

Lemma apps_ret {A} (a : A) : app_fails (mret a : Svc A).
Proof. done. Qed.
Lemma apps_fail {A} e : app_fails (fail e : Svc A).
Proof. intros o w e' w' [= <- <-]. eauto. Qed.
Lemma apps_bind {A B} (m : Svc A) (f : A → Svc B) : app_fails m → (∀ a, app_fails (f a)) → app_fails (m ≫= f).
Proof.
  intros Hm Hf o w e w' H. unfold mbind, M_bind in H. destruct (m o w) as [[e1|a] w1] eqn:E; [|by eapply Hf].
  injection H as -> ->. by eapply Hm.
Qed.
Lemma apps_repo {A} (m : M (OSt X) RErr A) : app_fails (repo m).
Proof. intros o w e w'. unfold repo, try. by destruct (m o w). Qed.
Lemma apps_inventory {A} (f : nat → X → A * X) : app_fails (inventory f).
Proof. intros o w e w'. unfold inventory. by destruct (f _ _). Qed.
Lemma apps_call {A} (f : nat → A) : app_fails (call (X := X) f).
Proof. done. Qed.
Lemma apps_now : app_fails (go_now : Svc Z).
Proof. done. Qed.
Lemma apps_uuid : app_fails (new_uuid : Svc string).
Proof. done. Qed.
End apps.
#[export] Hint Resolve apps_ret apps_fail apps_repo apps_inventory apps_call apps_now apps_uuid : apps.

Ltac apps_op :=
  repeat first
    [ solve [eauto with apps]
    | progress cbv beta zeta
    | apply apps_bind; [|intros ?]
    | match goal with |- app_fails (match ?x with _ => _ end) => destruct x end ].

(** ** Rows after an id *)

Definition after (a i : string) : Prop := a = "" ∨ str_ltb a i = true.
#[global] Instance after_dec a i : Decision (after a i).
Proof. unfold after. apply _. Defined.

Definition rest (a : string) (D : gset string) : gset string := filter (after a) D.

Lemma str_ltb_spec a b : str_ltb a b = true ↔ String.le a b ∧ a ≠ b.
Proof. unfold str_ltb. apply bool_decide_eq_true. Qed.

Lemma after_trans a b i : after a b → b ≠ "" → after b i → after a i.
Proof.
  unfold after. rewrite !str_ltb_spec. intros [->|[H1 H2]] Hb [->|[H3 H4]]; try done; [by left|]. right.
  split; [by etrans|]. intros ->. apply H2. by apply (anti_symm String.le).
Qed.

Lemma rest_smaller a b D : after a b → b ≠ "" → b ∈ D → (size (rest b D) < size (rest a D))%nat.
Proof.
  intros Hab Hb HD. apply subset_size. apply strict_spec_alt. unfold rest. split.
  - intros i. rewrite !elem_of_filter. intros [H1 H2]. split; [|done]. by eapply after_trans.
  - intros E. assert (Hin : b ∈ filter (after a) D) by (by apply elem_of_filter).
    rewrite <-E in Hin. apply elem_of_filter in Hin as [[?|H] _]; [done|].
    apply str_ltb_spec in H as [_ ?]. done.
Qed.

(** ** The handlers neither add nor remove rows *)

Section rows.
Context {X : Type} {uuid : UuidLib} {pg : PgUuid} {ids : OrderIds} {inv : InventoryClient X} (env : Env).
Abbreviation Svc := (M (OSt X) SErr).
Implicit Types (s : OSt X) (w : world (OSt X)).

Definition rows_in (D : gset string) s : Prop :=
  dom (orders (od s)) = D ∧ ∀ i x, orders (od s) !! i = Some x → o_ID x = i ∧ i ≠ "".

Lemma rows_in_alter D s f id : (∀ x, o_ID (f x) = o_ID x) → rows_in D s → rows_in D (on_orders (alter f id) s).
Proof.
  intros Hf [H1 H2]. split; cbn; [by rewrite dom_alter_L|]. intros i x. rewrite lookup_alter_Some.
  intros [(-> & y & Hy & ->)|[_ Hx]]; [rewrite Hf|]; by apply H2.
Qed.
Lemma rows_in_first D id : preserves (rows_in D) (First (X := X) id).
Proof.
  unfold First. preserve. apply preserves_stmt. intros t s a s' Hs H. destruct (find_order id s); by simplify_eq.
Qed.
Lemma rows_in_updatewhere D id l f : (∀ t x, o_ID (f t x) = o_ID x) →
  preserves (rows_in D) (UpdateWhere (X := X) id l f).
Proof.
  intros Hf. unfold UpdateWhere, find_order. preserve. apply preserves_stmt. intros t s n s' [H1 H2] H.
  destruct (pg_uuid id) as [u|]; [|done]. destruct (orders (od s) !! u) as [x|] eqn:Hx; [|by simplify_eq].
  case_bool_decide; simplify_eq; [|done]. destruct (H2 _ _ Hx) as [-> Hu]. split; cbn.
  - rewrite dom_insert_lookup_L; [done|]. eauto.
  - intros i y. rewrite lookup_insert_Some. intros [[<- <-]|[_ Hy]]; [|by apply H2]. rewrite Hf. by apply H2.
Qed.
Lemma rows_in_event D id order key e : preserves (rows_in D) (CreateEvent (X := X) id order key e).
Proof.
  unfold CreateEvent. preserve. apply preserves_stmt. intros t s a' s' Hs H. destruct (pg_uuid order); by simplify_eq.
Qed.
Hint Resolve rows_in_first rows_in_event : preserves.
Hint Extern 0 (preserves (rows_in _) (UpdateWhere _ _ _)) => (apply rows_in_updatewhere; done) : preserves.
Hint Extern 0 (preserves (rows_in _) (exec (on_orders (alter _ _)))) =>
  (apply preserves_exec; intros ? ?; by apply rows_in_alter) : preserves.

Ltac rows_op := apply preserves_transaction_body; preserve.

Lemma rows_in_begin D id target : preserves (rows_in D) (BeginTransition (X := X) id target).
Proof. unfold BeginTransition. destruct (transition_target target); [|apply preserves_throw]. rows_op. Qed.
Lemma rows_in_reject D id : preserves (rows_in D) (RejectPaymentConfirmation (X := X) id).
Proof. rows_op. Qed.
Lemma rows_in_expiry D id now : preserves (rows_in D) (BeginExpiry (X := X) id now).
Proof. rows_op. Qed.
Lemma rows_in_paid D id t eid e : preserves (rows_in D) (MarkPaidWithOutbox (X := X) id t eid e).
Proof. rows_op. Qed.
Lemma rows_in_cancelled D id eid e : preserves (rows_in D) (MarkCancelled (X := X) id eid e).
Proof. rows_op. Qed.
Lemma rows_in_get D id : preserves (rows_in D) (Get (X := X) id).
Proof.
  unfold Get. preserve. apply preserves_pool_stmt. intros t s a' s' Hs H. destruct (find_order id s); by simplify_eq.
Qed.
Hint Resolve rows_in_begin rows_in_reject rows_in_expiry rows_in_paid rows_in_cancelled rows_in_get : preserves.

Lemma rows_in_repo {A} D (m : M (OSt X) RErr A) : preserves (rows_in D) m → preserves (rows_in D) (repo m).
Proof. intros Hm. by apply preserves_try. Qed.
Lemma rows_in_inventory {A} D (f : nat → X → A * X) : preserves (rows_in D) (inventory f).
Proof. intros o w Hw. unfold inventory. by destruct (f _ _). Qed.
Lemma rows_in_fail {A} D e : preserves (rows_in D) (fail e : Svc A).
Proof. apply preserves_throw. Qed.
Hint Resolve rows_in_repo rows_in_inventory rows_in_fail : preserves.

Lemma rows_in_finishCancellation D order : preserves (rows_in D) (finishCancellation (X := X) order).
Proof. unfold finishCancellation, commitCancellation. preserve. Qed.
Lemma rows_in_finishStore D order : preserves (rows_in D) (finishStoreCancellation (X := X) order).
Proof. unfold finishStoreCancellation, commitCancellation. preserve. Qed.
Hint Resolve rows_in_finishCancellation rows_in_finishStore : preserves.
Lemma rows_in_expireOrder D id now : preserves (rows_in D) (expireOrder (X := X) id now).
Proof. unfold expireOrder. preserve. Qed.
Lemma rows_in_resume D order : preserves (rows_in D) (resume_order (X := X) order).
Proof. unfold resume_order, CancelOrder, ConfirmPayment, finishPayment, paymentStateError. preserve. Qed.

Lemma apps_finishCancellation order : app_fails (finishCancellation (X := X) order).
Proof. unfold finishCancellation, commitCancellation. apps_op. Qed.
Lemma apps_finishStore order : app_fails (finishStoreCancellation (X := X) order).
Proof. unfold finishStoreCancellation, commitCancellation. apps_op. Qed.
Hint Resolve apps_finishCancellation apps_finishStore : apps.
Lemma apps_expireOrder id now : app_fails (expireOrder (X := X) id now).
Proof. unfold expireOrder. apps_op. Qed.
Lemma apps_resume order : app_fails (resume_order (X := X) order).
Proof. unfold resume_order, CancelOrder, ConfirmPayment, finishPayment, paymentStateError. apps_op. Qed.

(** ** One page *)

Lemma page_elem a limit keep s x : x ∈ page a limit keep s →
  keep x = true ∧ after a (o_ID x) ∧ ∃ i, orders (od s) !! i = Some x.
Proof.
  intros Hx. apply elem_of_take in Hx as (i & Hx & _). apply list_elem_of_lookup_2 in Hx.
  rewrite merge_sort_Permutation in Hx. apply list_elem_of_filter in Hx as [[H1 H2] Hx].
  apply list_elem_of_fmap in Hx as ([id y] & -> & Hx%elem_of_map_to_list). eauto.
Qed.

Lemma take_all_or_last {A} n (l : list A) x : x ∈ l →
  x ∈ take n l ∨ (length (take n l) = n ∧ ∃ i, (n ≤ i)%nat ∧ l !! i = Some x).
Proof.
  intros [i Hi]%list_elem_of_lookup. destruct (decide (i < n)%nat) as [H|H].
  - left. apply (list_elem_of_lookup_2 _ i). by rewrite lookup_take_lt.
  - right. pose proof (lookup_lt_Some _ _ _ Hi). split; [rewrite length_take; lia|]. exists i. split; [lia|done].
Qed.

#[local] Instance id_total : Total (λ x y : Order, String.le (o_ID x) (o_ID y)).
Proof. intros x y. apply (total String.le). Qed.
#[local] Instance id_trans : Transitive (λ x y : Order, String.le (o_ID x) (o_ID y)).
Proof. intros x y z. apply (transitivity (R := String.le)). Qed.

Lemma rows_NoDup D s : rows_in D s → NoDup (map_to_list (orders (od s))).*2.
Proof.
  intros [_ Hid]. apply (NoDup_fmap_1 o_ID). rewrite <-list_fmap_compose.
  rewrite (list_fmap_ext _ fst (map_to_list (orders (od s)))); [apply NoDup_fst_map_to_list|].
  intros n [i x] Hx. apply list_elem_of_lookup_2, elem_of_map_to_list in Hx. by destruct (Hid _ _ Hx).
Qed.

(** A row that belongs on the page is on it, or the page is full and the row
    comes after its last one. *)
Lemma page_covers D a keep s i x : rows_in D s → orders (od s) !! i = Some x → keep x = true → after a i →
  x ∈ page a 100 keep s ∨
  (length (page a 100 keep s) = 100%nat ∧ ∃ y, last (page a 100 keep s) = Some y ∧ after (o_ID y) i).
Proof.
  intros [_ Hid] Hx Hk Ha. destruct (Hid _ _ Hx) as [Hi _].
  set (l := merge_sort (λ x y, String.le (o_ID x) (o_ID y))
    (filter (λ o, keep o = true ∧ (a = "" ∨ str_ltb a (o_ID o) = true)) (map_to_list (orders (od s))).*2)).
  assert (Hp : page a 100 keep s = take 100 l) by done. rewrite Hp.
  assert (Hl : ∀ y, y ∈ l → orders (od s) !! o_ID y = Some y).
  { intros y Hy. unfold l in Hy. rewrite merge_sort_Permutation in Hy. apply list_elem_of_filter in Hy as [_ Hy].
    apply list_elem_of_fmap in Hy as ([id z] & -> & Hy%elem_of_map_to_list).
    cbn. by destruct (Hid _ _ Hy) as [<- _]. }
  destruct (take_all_or_last 100 l x) as [?|(Hlen & n & Hn & Hx')]; [|by left|].
  { unfold l. rewrite merge_sort_Permutation. apply list_elem_of_filter. split; [by rewrite Hi|].
    apply list_elem_of_fmap. exists (i, x). split; [done|]. by apply elem_of_map_to_list. }
  right. split; [done|].
  assert (Hlast : is_Some (l !! 99%nat)).
  { apply lookup_lt_is_Some. rewrite length_take in Hlen. lia. }
  destruct Hlast as [y Hy]. exists y. split.
  - rewrite last_lookup, Hlen. cbn. by rewrite lookup_take_lt by lia.
  - right. apply str_ltb_spec. rewrite <-Hi. split.
    + apply (StronglySorted_lookup (λ x y : Order, String.le (o_ID x) (o_ID y)) l 99 n y x);
        [apply (StronglySorted_merge_sort _ _)|lia|done|done].
    + intros E. assert (y = x).
      { pose proof (Hl y (list_elem_of_lookup_2 _ _ _ Hy)). pose proof (Hl x (list_elem_of_lookup_2 _ _ _ Hx')). congruence. }
      subst y. assert (Hnd : NoDup l) by (unfold l; rewrite merge_sort_Permutation; by eapply NoDup_filter, rows_NoDup).
      pose proof (NoDup_lookup _ _ _ _ Hnd Hy Hx'). lia.
Qed.

(** ** The loops end *)

(** No loop was cut off. *)
Definition ended (r : SErr + unit) : Prop :=
  match r with inl SFuel => False | inl (SJoin l) => SFuel ∉ l | _ => True end.

Lemma join_ended f o w : SFuel ∉ f → ended (join (X := X) f o w).1.
Proof. intros Hf. by destruct f. Qed.

Lemma each_order_rows D handle p : (∀ x, preserves (rows_in D) (handle x)) → (∀ x, app_fails (handle x)) →
  ∀ f o w, SFuel ∉ f → rows_in D (w_db w) →
  ∃ f' stop w', each_order (X := X) env handle p f o w = (inr (f', stop), w') ∧ SFuel ∉ f' ∧ rows_in D (w_db w') ∧
    (stop = true → ∃ n, ctx_done env n = true).
Proof.
  intros Hh Ha. induction p as [|x p IH]; intros f o w Hf Hw; cbn; [by eexists _, _, _|].
  unfold mbind, M_bind, try. specialize (Hh x o w Hw). destruct (handle x o w) as [r w1] eqn:H. cbn [snd] in Hh. cbn.
  assert (Hf' : SFuel ∉ match r with inl e => f ++ [e] | inr _ => f end).
  { destruct r as [e|u]; [|done]. apply Ha in H as [ae ->]. rewrite elem_of_app, list_elem_of_singleton. naive_solver. }
  destruct (ctx_done env (w_tick w1)) eqn:Hc; [|by apply IH]. eexists _, _, _. split; [done|]. split; [|by eauto].
  rewrite elem_of_app, list_elem_of_singleton. naive_solver.
Qed.

Lemma last_after D a keep s y : rows_in D s → last (page a 100 keep s) = Some y →
  after a (o_ID y) ∧ o_ID y ≠ "" ∧ o_ID y ∈ D.
Proof.
  intros [H1 H2] Hy. apply last_Some_elem_of, page_elem in Hy as (_ & Ha & i & Hi).
  destruct (H2 _ _ Hi) as [E Hne]. rewrite E in *. split_and!; [done..|]. rewrite <-H1. by eapply elem_of_dom_2.
Qed.

(** The part of an iteration the two loops share: after a full page the next
    one starts at its last row, and fewer rows are left. *)
Lemma next_page D a keep s fuel : rows_in D s → (size (rest a D) < S fuel)%nat →
  ¬ Z.of_nat (length (page a 100 keep s)) < 100 →
  (size (rest (default "" (o_ID <$> last (page a 100 keep s))) D) < fuel)%nat.
Proof.
  intros Hw Hfuel Hlen. destruct (last (page a 100 keep s)) as [y|] eqn:Hy.
  - destruct (last_after _ _ _ _ _ Hw Hy) as (Ha & Hne & Hin). cbn.
    pose proof (rest_smaller _ _ _ Ha Hne Hin). lia.
  - apply last_None in Hy. rewrite Hy in Hlen. cbn in Hlen. lia.
Qed.

Lemma expire_loop_ended D fuel : ∀ a f o w, rows_in D (w_db w) → SFuel ∉ f → (size (rest a D) < fuel)%nat →
  ended (expire_loop (X := X) env fuel a f o w).1.
Proof.
  induction fuel as [|fuel IH]; intros a f o w Hw Hf Hfuel; [lia|]. cbn [expire_loop].
  unfold mbind, M_bind, repo, try, ExpiredPendingOrders, pool_query, pool_stmt. cbn.
  destruct (or_fault o (S (w_tick w))); cbn [fst snd].
  { apply join_ended. rewrite elem_of_app, list_elem_of_singleton. naive_solver. }
  match goal with |- context [each_order env ?h ?p f o ?w1] =>
    destruct (each_order_rows D h p (λ x, rows_in_expireOrder D _ _) (λ x, apps_expireOrder _ _) f o w1 Hf Hw)
      as (f' & stop & w' & -> & Hf' & Hw' & _) end.
  destruct stop; [by apply join_ended|]. case_bool_decide as Hlen; [by apply join_ended|].
  apply IH; [done..|]. by eapply next_page.
Qed.

Lemma resume_loop_ended D fuel : ∀ a f o w, rows_in D (w_db w) → SFuel ∉ f → (size (rest a D) < fuel)%nat →
  ended (resume_loop (X := X) env fuel a f o w).1.
Proof.
  induction fuel as [|fuel IH]; intros a f o w Hw Hf Hfuel; [lia|]. cbn [resume_loop].
  unfold mbind, M_bind, repo, try, PendingTransitions, pool_query, pool_stmt. cbn.
  destruct (or_fault o (w_tick w)); cbn [fst snd].
  { apply join_ended. rewrite elem_of_app, list_elem_of_singleton. naive_solver. }
  match goal with |- context [each_order env ?h ?p f o ?w1] =>
    destruct (each_order_rows D h p (λ x, rows_in_resume D _) (λ x, apps_resume _) f o w1 Hf Hw)
      as (f' & stop & w' & -> & Hf' & Hw' & _) end.
  destruct stop; [by apply join_ended|]. case_bool_decide as Hlen; [by apply join_ended|].
  apply IH; [done..|]. by eapply next_page.
Qed.

Lemma rows_in_keyed s : rows_keyed (od s) → rows_in (dom (orders (od s))) s.
Proof.
  intros Hk. split; [done|]. intros i x Hx. destruct (Hk _ _ Hx) as (H1 & H2 & _). split; [done|].
  intros ->. by rewrite uuid_parse_empty in H2.
Qed.

Lemma fuel_enough s : (size (rest "" (dom (orders (od s)))) < S (size (orders (od s))))%nat.
Proof.
  unfold rest. pose proof (subseteq_size (filter (after "") (dom (orders (od s)))) (dom (orders (od s)))) as H.
  rewrite size_dom in H. assert (filter (after "") (dom (orders (od s))) ⊆ dom (orders (od s))) by set_solver.
  specialize (H ltac:(done)). lia.
Qed.
End rows.

(** Order service: the expiry sweep and the recovery of interrupted transitions
    reach every order they should. *)


Section expiry.
Context {X : Type} {uuid : UuidLib} {pg : PgUuid} {ids : OrderIds} {inv : InventoryClient X} (env : Env).
Abbreviation Svc := (M (OSt X) SErr).
Implicit Types (s : OSt X) (w : world (OSt X)).

(** A property of the row [i] that no step of the machine can undo. *)
Definition row_at (i : string) (P : Order → Prop) s : Prop := ∃ cur, orders (od s) !! i = Some cur ∧ P cur.
Definition lasting (P : Order → Prop) : Prop := ∀ x y, evolves x y → P x → P y.

Lemma lasting_run {E A} (m : M (OSt X) E A) P i o w : (∀ d0, preserves (from d0) m) → lasting P →
  odb_ok (od (w_db w)) → row_at i P (w_db w) → row_at i P (w_db (m o w).2).
Proof.
  intros Hm HP [Hk Hok _ _] (cur & Hc & Hp). destruct (Hm (od (w_db w)) o w) as [_ Hr]; [by split; [|apply rtc_refl]|].
  destruct (osteps_ok _ _ Hr Hok) as [_ Hev]. destruct (Hev _ _ Hc) as (cur' & Hc' & He). exists cur'. eauto.
Qed.

Lemma next_not_pending a b : rtc order_next a b → a ≠ StatusPendingPayment → b ≠ StatusPendingPayment.
Proof. induction 1 as [|x y z Hxy _ IH]; [done|]. intros _. apply IH. by inversion Hxy. Qed.

Definition gone (x : Order) : Prop := o_Status x ≠ StatusPendingPayment.
Definition overdue (t : Z) (x : Order) : Prop := o_Status x = StatusPendingPayment → o_ReservationExpiresAt x ≤ t.

Lemma gone_lasting : lasting gone.
Proof. intros x y He. apply next_not_pending, He. Qed.
Lemma overdue_lasting t : lasting (overdue t).
Proof.
  intros x y He Hx Hy. pose proof (ev_identity _ _ He) as [= _ _ _ _ _ _ E _ _ _ _ _ _]. rewrite E. apply Hx.
  destruct (decide (o_Status x = StatusPendingPayment)) as [|Hn]; [done|]. by apply (gone_lasting _ _ He) in Hn.
Qed.

(** ** One order *)

Lemma first_run id x o w : reliable o → w_aborted w = false → row id x (w_db w) →
  First id o w = (inr x, World (w_db w) (S (w_tick w)) false (w_locks w)).
Proof.
  intros Ho Ha [Hp Hx]. unfold First, find_order. erewrite bind_run; [|apply stmt_run; [done..|]; cbn; by rewrite Hp, Hx].
  done.
Qed.

Lemma expiry_run i x now o w : reliable o → odb_ok (od (w_db w)) → orders (od (w_db w)) !! i = Some x →
  o_Status x = StatusPendingPayment → o_ReservationExpiresAt x ≤ now →
  ∃ y w', BeginExpiry i now o w = (inr y, w').
Proof.
  intros Ho Hok Hx Hst Hexp. destruct (od_keyed _ Hok _ _ Hx) as (Hid & Hp & _).
  assert (Hrow : row i x (w_db w)).
  { split; [rewrite Hid; by eapply pg_uuid_canonical|by rewrite Hid]. }
  eexists _, _. eapply transaction_commit; [done| |].
  { erewrite bind_run by (by apply (first_run _ x)).
    rewrite bool_decide_eq_true_2 by done. rewrite bool_decide_eq_false_2 by lia. cbn [negb orb].
    erewrite bind_run by reflexivity. erewrite bind_run by (by apply exec_run). reflexivity. }
  done.
Qed.

Lemma expireOrder_gone i now o w : reliable o → odb_ok (od (w_db w)) → row_at i (overdue now) (w_db w) →
  row_at i gone (w_db (expireOrder i now o w).2).
Proof.
  intros Ho Hok (x & Hx & Hd). destruct (decide (o_Status x = StatusPendingPayment)) as [Hst|Hst].
  - destruct (expiry_run i x now o w) as (y & w1 & H); [done..|by apply Hd|].
    pose proof (run_keeps (BeginExpiry i now) o w (BeginExpiry_refines i now) Hok) as Hok1.
    unfold expireOrder, repo, try. unfold mbind, M_bind. rewrite H in *. cbn [snd] in Hok1.
    apply expiry_post in H as [[Hp Hy] Hsy]; [|apply Hok].
    assert (Hi : o_ID y = i).
    { destruct (od_keyed _ Hok _ _ Hx) as (_ & Hpi & _). apply pg_uuid_canonical in Hpi. congruence. }
    apply lasting_run; [apply finishCancellation_refines|apply gone_lasting|done|].
    exists y. rewrite <-Hi. split; [done|]. unfold gone. by rewrite Hsy.
  - apply lasting_run; [apply expireOrder_refines|apply gone_lasting|done|]. by exists x.
Qed.

(** ** One page and the whole sweep *)

Lemma each_order_step handle l P Q i : (∀ x d0, preserves (from d0) (handle x)) → lasting P → lasting Q →
  (∀ x o w, reliable o → odb_ok (od (w_db w)) → o_ID x = i → x ∈ l → row_at i P (w_db w) →
     row_at i Q (w_db (handle x o w).2)) →
  (∀ n, ctx_done env n = false) →
  ∀ f o w, reliable o → odb_ok (od (w_db w)) → row_at i P (w_db w) → i ∈ o_ID <$> l →
  row_at i Q (w_db (each_order (X := X) env handle l f o w).2).
Proof.
  intros Hh HP HQ Hdone Hctx. induction l as [|x l IH]; intros f o w Ho Hok Hrow Hi; [set_solver|].
  cbn [each_order]. unfold mbind, M_bind, try. pose proof (Hh x) as Hx.
  pose proof (run_keeps (handle x) o w Hx Hok) as Hok1. pose proof (lasting_run (handle x) P i o w Hx HP Hok Hrow) as HP1.
  destruct (decide (o_ID x = i)) as [Ei|Ei].
  - pose proof (Hdone x o w Ho Hok Ei ltac:(by left) Hrow) as HQ1. destruct (handle x o w) as [r w1]. cbn -[each_order] in *.
    rewrite Hctx. apply (lasting_run (each_order env handle l _)); try done.
    by apply each_order_refines.
  - destruct (handle x o w) as [r w1]. cbn -[each_order] in *. rewrite Hctx. apply IH; try done.
    + intros y o' w' Ho' Hok' E Hy. apply Hdone; try done. by right.
    + set_solver.
Qed.

Context (Hctx : ∀ n, ctx_done env n = false).

Lemma expire_loop_gone T i D fuel : ∀ a f o w, reliable o → (∀ n, T ≤ or_clock o n) → odb_ok (od (w_db w)) →
  rows_in D (w_db w) → SFuel ∉ f → (size (rest a D) < fuel)%nat → row_at i (overdue T) (w_db w) → after a i →
  row_at i gone (w_db (expire_loop (X := X) env fuel a f o w).2).
Proof using Hctx.
  induction fuel as [|fuel IH]; intros a f o w Ho Ht Hok Hrows Hf Hfuel Hrow Ha; [lia|].
  pose proof Hrow as (x & Hx & Hd). destruct (decide (o_Status x = StatusPendingPayment)) as [Hst|Hst].
  2: { apply lasting_run; [apply expire_loop_refines|apply gone_lasting|done|]. by exists x. }
  specialize (Hd Hst). cbn [expire_loop]. unfold mbind, M_bind, repo, try, ExpiredPendingOrders, pool_query, pool_stmt.
  cbn -[expire_loop each_order page]. rewrite Ho. cbn -[expire_loop each_order page]. unfold expiryPageSize.
  set (now := or_clock o (w_tick w)). pose proof (Ht (w_tick w)) as Hnow. fold now in Hnow.
  match goal with |- context [page a 100 ?k (w_db w)] => set (keep := k) end.
  match goal with |- context [each_order env ?h ?p f o ?w1] => set (handle := h); set (w1_ := w1) end.
  assert (Hh : ∀ y d0, preserves (from d0) (handle y)) by (intros y; apply expireOrder_refines).
  destruct (each_order_rows env D handle (page a 100 keep (w_db w)) (λ y, rows_in_expireOrder D _ _)
    (λ y, apps_expireOrder _ _) f o w1_ Hf Hrows) as (f' & stop & w' & Hrun & Hf' & Hrows' & Hstop).
  assert (stop = false) as ->.
  { destruct stop; [|done]. destruct (Hstop eq_refl) as [n Hn]. by rewrite Hctx in Hn. }
  pose proof (run_keeps (each_order env handle (page a 100 keep (w_db w)) f) o w1_
    (each_order_refines env handle _ Hh f) Hok) as Hok'. rewrite Hrun in Hok'. cbn [snd] in Hok'.
  assert (Hkeep : keep x = true) by (unfold keep; by rewrite !bool_decide_eq_true_2 by (done || lia)).
  destruct (page_covers D a keep (w_db w) i x Hrows Hx Hkeep Ha) as [Hin|(Hlen & y & Hy & Hay)].
  - assert (Hg : row_at i gone (w_db (each_order env handle (page a 100 keep (w_db w)) f o w1_).2)).
    { apply (each_order_step handle _ (overdue now) gone i Hh (overdue_lasting _) gone_lasting); try done.
      - intros z o' w'' Ho' Hok'' <- _ Hz. by apply expireOrder_gone.
      - exists x. split; [done|]. intros _. lia.
      - apply list_elem_of_fmap. exists x. split; [|done]. by destruct (proj2 Hrows _ _ Hx). }
    rewrite Hrun in *. cbn [snd] in Hg. case_bool_decide; [by apply lasting_run; [apply join_refines|apply gone_lasting|..]|].
    by apply lasting_run; [apply expire_loop_refines|apply gone_lasting|..].
  - rewrite Hrun. rewrite bool_decide_eq_false_2 by (rewrite Hlen; lia).
    apply IH; try done.
    + eapply next_page; [exact Hrows|done|]. rewrite Hlen. lia.
    + pose proof (lasting_run (each_order env handle (page a 100 keep (w_db w)) f) (overdue T) i o w1_
        (each_order_refines env handle _ Hh f) (overdue_lasting T) Hok Hrow) as Hr. by rewrite Hrun in Hr.
    + by rewrite Hy.
Qed.

End expiry.

(** ** Recovery of interrupted transitions *)

Section recovery.
Context {X : Type} {uuid : UuidLib} {pg : PgUuid} {ids : OrderIds} {inv : InventoryClient X}.
Implicit Types (s : OSt X) (w : world (OSt X)).

Definition transitional : list OrderStatus := [StatusCancelPending; StatusPaymentConfirming; StatusStoreCancelPending].

(** What recovery owes an order that was found in the state [st]. *)
Definition recovered (st : OrderStatus) (x : Order) : Prop :=
  match st with
  | StatusPaymentConfirming => o_Status x ≠ StatusPendingPayment ∧ o_Status x ≠ StatusPaymentConfirming
  | _ => o_Status x = StatusCancelled
  end.

Lemma next_confirmed a b : rtc order_next a b → a ≠ StatusPendingPayment ∧ a ≠ StatusPaymentConfirming →
  b ≠ StatusPendingPayment ∧ b ≠ StatusPaymentConfirming.
Proof. induction 1 as [|x y z Hxy _ IH]; [done|]. intros [? ?]. apply IH. by inversion Hxy. Qed.
Lemma next_cancelled a b : rtc order_next a b → a = StatusCancelled → b = StatusCancelled.
Proof. induction 1 as [|x y z Hxy _ IH]; [done|]. intros ->. by inversion Hxy. Qed.

Lemma recovered_lasting st : lasting (recovered st).
Proof.
  intros x y He. pose proof (ev_status _ _ He) as Hs.
  destruct st; cbn; try apply (next_cancelled _ _ Hs). apply (next_confirmed _ _ Hs).
Qed.

Lemma updatewhere_run id l f x o w : reliable o → w_aborted w = false → row id x (w_db w) →
  UpdateWhere id l f o w =
    if bool_decide (o_Status x ∈ l)
    then (inr 1, World (on_orders <[o_ID x := f (or_clock o (w_tick w)) x]> (w_db w)) (S (S (w_tick w))) false (w_locks w))
    else (inr 0, World (w_db w) (S (S (w_tick w))) false (w_locks w)).
Proof.
  intros Ho Ha [Hp Hx]. unfold UpdateWhere. erewrite bind_run by reflexivity. unfold find_order, stmt. cbn [w_aborted w_db w_tick].
  rewrite Ha, Ho, Hp, Hx. by case_bool_decide.
Qed.

Lemma event_run id order u key e o w : reliable o → w_aborted w = false → pg_uuid order = Some u →
  ∃ w', CreateEvent (X := X) id order key e o w = (inr tt, w') ∧ w_aborted w' = false.
Proof.
  intros Ho Ha Hp. unfold CreateEvent. erewrite bind_run by reflexivity. unfold stmt. cbn [w_aborted w_db w_tick].
  rewrite Ha, Ho, Hp. by eexists.
Qed.

(** A guarded update with its event succeeds on a row that is in one of the
    states [from], or was already moved to [to]. *)
Lemma mark_run id x eid key e from to f o w : reliable o → row id x (w_db w) →
  o_Status x ∈ from ∨ o_Status x ∉ from ∧ o_Status x = to →
  ∃ w', transaction (
    n ← UpdateWhere id from f;
    if bool_decide (n = 0) then
      current ← First id;
      if bool_decide (o_Status current = to) then mret (Commit tt) else throw RInvalidTransition
    else CreateEvent (X := X) eid id key e ;; mret (Commit tt)) o w = (inr tt, w').
Proof.
  intros Ho Hr Hst. set (w0 := World (w_db w) (S (w_tick w)) false []).
  pose proof (updatewhere_run id from f x o w0 Ho eq_refl Hr) as Hu. destruct Hst as [Hin|[Hin Hto]].
  - rewrite bool_decide_eq_true_2 in Hu by done.
    edestruct (event_run eid id (o_ID x) key e o) as (w2 & He & Ha); [done| |apply Hr|].
    2: { eexists. eapply transaction_commit; [done| |exact Ha]. erewrite bind_run by exact Hu.
      rewrite bool_decide_eq_false_2 by lia. erewrite bind_run by exact He. reflexivity. }
    done.
  - rewrite bool_decide_eq_false_2 in Hu by done. eexists. eapply transaction_commit; [done| |].
    { erewrite bind_run by exact Hu. rewrite bool_decide_eq_true_2 by lia.
      erewrite bind_run by (by apply (first_run _ x)). rewrite bool_decide_eq_true_2 by done. reflexivity. }
    done.
Qed.

Lemma row_of s i x : odb_ok (od s) → orders (od s) !! i = Some x → row i x s ∧ o_ID x = i.
Proof.
  intros Hok Hx. destruct (od_keyed _ Hok _ _ Hx) as (Hid & Hp & _).
  split; [|done]. split; rewrite Hid; [by eapply pg_uuid_canonical|done].
Qed.

Lemma MarkCancelled_run id x eid e o w : reliable o → row id x (w_db w) →
  o_Status x ∈ [StatusCancelPending; StatusStoreCancelPending; StatusCancelled] →
  ∃ w', MarkCancelled id eid e o w = (inr tt, w').
Proof.
  intros Ho Hr Hst. apply (mark_run id x); [done..|].
  destruct (decide (o_Status x ∈ [StatusCancelPending; StatusStoreCancelPending])) as [|Hn]; [by left|right].
  split; [done|]. rewrite !elem_of_cons in *. tauto.
Qed.
Lemma MarkPaid_run id x t eid e o w : reliable o → row id x (w_db w) → o_Status x = StatusPaymentConfirming →
  ∃ w', MarkPaidWithOutbox id t eid e o w = (inr tt, w').
Proof. intros Ho Hr Hst. apply (mark_run id x); [done..|]. left. rewrite Hst. set_solver. Qed.

Lemma commit_cancels order data o w x : reliable o → odb_ok (od (w_db w)) → orders (od (w_db w)) !! o_ID order = Some x →
  o_Status x ∈ [StatusCancelPending; StatusStoreCancelPending; StatusCancelled] →
  row_at (o_ID order) (λ y, o_Status y = StatusCancelled) (w_db (commitCancellation (X := X) order data o w).2).
Proof.
  intros Ho Hok Hx Hst. destruct (row_of _ _ _ Hok Hx) as [Hr Hid]. unfold commitCancellation, repo, try.
  unfold mbind, M_bind. cbn -[MarkCancelled].
  match goal with |- context [MarkCancelled ?i ?e ?d o ?w1] =>
    destruct (MarkCancelled_run i x e d o w1 Ho Hr Hst) as [w' Hrun] end.
  rewrite Hrun. apply cancelled_post in Hrun as (y & [Hp Hy] & Hc); [|apply Hok].
  exists y. destruct Hr as [Hp' _]. split; [|done]. rewrite <-Hid. cbn. congruence.
Qed.

Lemma Reject_run id x o w : reliable o → row id x (w_db w) → o_Status x = StatusPaymentConfirming →
  ∃ w', RejectPaymentConfirmation id o w = (inr tt, w').
Proof.
  intros Ho Hr Hst. set (w0 := World (w_db w) (S (w_tick w)) false []).
  pose proof (updatewhere_run id [StatusPaymentConfirming] (λ t, set_status StatusCancelPending t) x o w0 Ho eq_refl Hr) as Hu.
  rewrite bool_decide_eq_true_2 in Hu by (rewrite Hst; by left).
  eexists. eapply transaction_commit; [done|erewrite bind_run by exact Hu; reflexivity|done].
Qed.

(** ** What recovery needs of Inventory *)

(** The call the order [y] has pending is answered in a way that settles it: a
    release or a return succeeds; a confirmation succeeds, or is refused because
    the hold is over. *)
Definition settles (y : Order) (n : nat) (x : X) : Prop :=
  match o_Status y with
  | StatusCancelPending =>
      (ReleaseReservation n (MkReservationRequest (o_ReservationID y) (o_ID y) (o_ReleaseIdempotencyKey y) (cancellationReason y)) x).1 = inr tt
  | StatusStoreCancelPending =>
      (ReturnConfirmedReservation n (MkReservationRequest (o_ReservationID y) (o_ID y) (uuid_sha1 (o_ID y +:+ "/return")) ReasonStoreCancelled) x).1 = inr tt
  | _ =>
      let r := (ConfirmReservation n (MkReservationRequest (o_ReservationID y) (o_ID y) (o_ConfirmIdempotencyKey y) "") x).1 in
      r = inr tt ∨ ∃ e, r = inl e ∧ code_of e = FailedPrecondition
  end.

(** Inventory is in a condition [C] in which it settles the order [y], and the
    calls for the other stored orders do not take it out of that condition. *)
Record obliging (C : X → Prop) s (y : Order) : Prop := {
  ob_now : C (ox s);
  ob_settles : ∀ n x, C x → settles y n x;
  ob_kept : ∀ n q x, C x → rr_OrderId q ∈ dom (orders (od s)) → rr_OrderId q ≠ o_ID y →
    C (ConfirmReservation n q x).2 ∧ C (ReleaseReservation n q x).2 ∧ C (ReturnConfirmedReservation n q x).2
}.

(** ** The order itself *)

Lemma begin_idle id target terminal x o w : reliable o → row id x (w_db w) → transition_target target = Some terminal →
  o_Status x = target ∨ o_Status x = terminal →
  ∃ w', BeginTransition id target o w = (inr x, w') ∧ w_db w' = w_db w.
Proof.
  intros Ho Hr Ht Hst. unfold BeginTransition. rewrite Ht. eexists. split.
  { eapply transaction_commit; [done| |].
    { erewrite bind_run by (by apply (first_run _ x)).
      replace (bool_decide (o_Status x = target) || bool_decide (o_Status x = terminal)) with true; [reflexivity|].
      symmetry. apply orb_true_iff. rewrite !bool_decide_eq_true. done. }
    done. }
  done.
Qed.

Lemma cancellation_finishes x o w : reliable o → odb_ok (od (w_db w)) → orders (od (w_db w)) !! o_ID x = Some x →
  o_Status x = StatusCancelPending → (∀ n, settles x n (ox (w_db w))) →
  row_at (o_ID x) (λ y, o_Status y = StatusCancelled) (w_db (finishCancellation (X := X) x o w).2).
Proof.
  intros Ho Hok Hx Hst Hs. unfold finishCancellation. cbv zeta. unfold inventory, mbind at 1, M_bind at 1.
  specialize (Hs (w_tick w)). unfold settles in Hs. rewrite Hst in Hs.
  destruct (ReleaseReservation _ _ _) as [r x1]. cbn in Hs. subst r.
  eapply commit_cancels; [done|exact Hok|exact Hx|]. by rewrite Hst; left.
Qed.

Lemma store_finishes x o w : reliable o → odb_ok (od (w_db w)) → orders (od (w_db w)) !! o_ID x = Some x →
  o_Status x = StatusStoreCancelPending → (∀ n, settles x n (ox (w_db w))) →
  row_at (o_ID x) (λ y, o_Status y = StatusCancelled) (w_db (finishStoreCancellation (X := X) x o w).2).
Proof.
  intros Ho Hok Hx Hst Hs. unfold finishStoreCancellation. unfold inventory, mbind at 1, M_bind at 1.
  specialize (Hs (w_tick w)). unfold settles in Hs. rewrite Hst in Hs.
  destruct (ReturnConfirmedReservation _ _ _) as [r x1]. cbn in Hs. subst r.
  eapply commit_cancels; [done|exact Hok|exact Hx|]. by rewrite Hst; right; left.
Qed.

Lemma payment_finishes x o w : reliable o → odb_ok (od (w_db w)) → orders (od (w_db w)) !! o_ID x = Some x →
  o_Status x = StatusPaymentConfirming → (∀ n, settles x n (ox (w_db w))) →
  row_at (o_ID x) (recovered StatusPaymentConfirming) (w_db (finishPayment (X := X) x o w).2).
Proof.
  intros Ho Hok Hx Hst Hs. destruct (row_of _ _ _ Hok Hx) as [Hr _]. unfold finishPayment.
  unfold inventory, mbind at 1, M_bind at 1. specialize (Hs (w_tick w)). unfold settles in Hs. rewrite Hst in Hs. cbv zeta in Hs.
  destruct (ConfirmReservation _ _ _) as [r x1]. cbn [fst] in Hs. destruct Hs as [->|(e & -> & He)].
  - unfold repo, try, mbind, M_bind. cbn -[MarkPaidWithOutbox recovered].
    match goal with |- context [MarkPaidWithOutbox ?j ?t ?e ?d o ?w2] =>
      destruct (MarkPaid_run j x t e d o w2 Ho Hr Hst) as [w' Hrun] end.
    rewrite Hrun. apply paid_post in Hrun as (y & [Hp Hy] & Hpaid); [|apply Hok].
    exists y. destruct Hr as [Hp' _]. split; [|cbn; by rewrite Hpaid]. cbn. congruence.
  - rewrite bool_decide_eq_true_2 by done. unfold repo, try, mbind, M_bind.
    match goal with |- context [RejectPaymentConfirmation ?j o ?w2] =>
      destruct (Reject_run j x o w2 Ho Hr Hst) as [w' Hrun] end.
    rewrite Hrun. apply reject_post in Hrun as (y & [Hp Hy] & Hc); [|apply Hok].
    exists y. destruct Hr as [Hp' _]. split; [cbn; congruence|]. cbn. by destruct (o_Status y).
Qed.

Lemma resume_settles x o w : reliable o → odb_ok (od (w_db w)) → orders (od (w_db w)) !! o_ID x = Some x →
  o_Status x ∈ transitional → (∀ n, settles x n (ox (w_db w))) →
  row_at (o_ID x) (recovered (o_Status x)) (w_db (resume_order (X := X) x o w).2).
Proof.
  intros Ho Hok Hx Hin Hs. destruct (row_of _ _ _ Hok Hx) as [Hr _]. unfold resume_order.
  destruct (o_Status x) eqn:Hst; try (exfalso; set_solver).
  - destruct (begin_idle (o_ID x) StatusCancelPending StatusCancelled x o w Ho Hr eq_refl (or_introl Hst)) as (w1 & Hb & Hw1).
    unfold CancelOrder, repo, try. rewrite (bool_decide_eq_true_2 ("CUSTOMER_REQUEST" = "CUSTOMER_REQUEST")) by done.
    cbn [andb negb]. unfold mbind, M_bind. rewrite Hb, Hst. cbn -[finishCancellation].
    rewrite <-Hw1 in *. by apply cancellation_finishes.
  - destruct (begin_idle (o_ID x) StatusPaymentConfirming StatusPaid x o w Ho Hr eq_refl (or_introl Hst)) as (w1 & Hb & Hw1).
    unfold ConfirmPayment, repo, try. unfold mbind, M_bind. rewrite Hb, Hst. cbn -[finishPayment recovered].
    rewrite <-Hw1 in *. by apply payment_finishes.
  - by apply store_finishes.
Qed.

(** ** The other orders *)

Section others.
Context (i : string) (x0 : Order) (C : X → Prop) (D : gset string).
Context (Hkept : ∀ n q x, C x → rr_OrderId q ∈ D → rr_OrderId q ≠ i →
  C (ConfirmReservation n q x).2 ∧ C (ReleaseReservation n q x).2 ∧ C (ReturnConfirmedReservation n q x).2).

(** The order [i] is as it was found and Inventory still in the condition [C]. *)
Definition held s : Prop := rows_in D s ∧ orders (od s) !! i = Some x0 ∧ C (ox s).

Lemma held_first id : preserves held (First (X := X) id).
Proof. unfold First. preserve. apply preserves_stmt. intros t s a s' Hs H. destruct (find_order id s); by simplify_eq. Qed.
Lemma held_event id order key e : preserves held (CreateEvent (X := X) id order key e).
Proof. unfold CreateEvent. preserve. apply preserves_stmt. intros t s a' s' Hs H. destruct (pg_uuid order); by simplify_eq. Qed.
Lemma held_updatewhere j id l f : pg_uuid id = Some j → j ≠ i → (∀ t x, o_ID (f t x) = o_ID x) →
  preserves held (UpdateWhere (X := X) id l f).
Proof.
  intros Hj Hne Hf.
  unfold UpdateWhere, find_order. preserve. apply preserves_stmt. intros t s n s' (Hrows & Hx & HC) H. rewrite Hj in H.
  destruct (orders (od s) !! j) as [y|] eqn:Hy; [|by simplify_eq]. case_bool_decide; simplify_eq; [|done].
  pose proof (proj2 Hrows _ _ Hy) as [E Hn]. split_and!; [|cbn; rewrite lookup_insert_ne by congruence; done|done].
  destruct Hrows as [H1 H2]. split; cbn.
  - rewrite dom_insert_lookup_L; [done|]. rewrite E. eauto.
  - intros k z. rewrite lookup_insert_Some. intros [[<- <-]|[_ Hz]]; [|by apply H2]. rewrite Hf. split; [done|congruence].
Qed.
Lemma preserves_bind_result {P : OSt X → Prop} {E A B} (R : A → Prop) (m : M (OSt X) E A) (f : A → M (OSt X) E B) :
  preserves P m → (∀ o w a w', P (w_db w) → m o w = (inr a, w') → R a) → (∀ a, R a → preserves P (f a)) → preserves P (m ≫= f).
Proof.
  intros Hm Hr Hf o w Hw. unfold mbind, M_bind. pose proof (Hm o w Hw) as H1. destruct (m o w) as [[e|a] w1] eqn:E1; [done|].
  apply Hf; [by apply (Hr o w a w1)|done].
Qed.
Lemma held_begin j id target : pg_uuid id = Some j → j ≠ i → preserves held (BeginTransition (X := X) id target).
Proof.
  intros Hj Hne. unfold BeginTransition. destruct (transition_target target) as [terminal|]; [|apply preserves_throw].
  apply preserves_transaction_body. apply (preserves_bind_result (λ y, o_ID y = j)); [apply held_first| |].
  { intros o w y w1 Hw. unfold First, find_order, stmt, mbind, M_bind. rewrite Hj. cbn. intros E.
    destruct (w_aborted w); [done|]. destruct (or_fault _ _); [done|].
    destruct (orders (od (w_db w)) !! j) as [z|] eqn:Hz; cbn in E; [|done]. injection E as <- _.
    by destruct (proj2 (proj1 Hw) _ _ Hz). }
  intros y Hy. preserve. apply preserves_exec. intros s (Hrows & Hx & HC). split_and!; [by apply rows_in_alter| |done].
  cbn. rewrite lookup_alter_ne; [done|congruence].
Qed.
Lemma held_mark j id eid key e from to f : pg_uuid id = Some j → j ≠ i → (∀ t x, o_ID (f t x) = o_ID x) →
  preserves held (transaction (
    n ← UpdateWhere id from f;
    if bool_decide (n = 0) then
      current ← First id;
      if bool_decide (o_Status current = to) then mret (Commit tt) else throw RInvalidTransition
    else CreateEvent (X := X) eid id key e ;; mret (Commit tt))).
Proof.
  intros Hj Hne Hf. pose proof held_first. pose proof held_event. pose proof (held_updatewhere j id from f Hj Hne Hf).
  apply preserves_transaction_body. preserve; auto.
Qed.
Lemma held_reject j id : pg_uuid id = Some j → j ≠ i → preserves held (RejectPaymentConfirmation (X := X) id).
Proof.
  intros Hj Hne. pose proof held_first. apply preserves_transaction_body. preserve; auto. by eapply held_updatewhere.
Qed.
Lemma held_get id : preserves held (Get (X := X) id).
Proof. unfold Get. preserve. apply preserves_pool_stmt. intros t s a' s' Hs H. destruct (find_order id s); by simplify_eq. Qed.
Lemma held_repo {A} (m : M (OSt X) RErr A) : preserves held m → preserves held (repo m).
Proof. intros Hm. by apply preserves_try. Qed.
Lemma held_inventory {A} (f : nat → X → A * X) : (∀ n x, C x → C (f n x).2) → preserves held (inventory f).
Proof.
  intros Hf o w (Hrows & Hx & HC). unfold inventory. specialize (Hf (w_tick w) _ HC). by destruct (f _ _).
Qed.
Lemma held_fail {A} e : preserves held (fail e : M (OSt X) SErr A).
Proof. apply preserves_throw. Qed.

Context (j : string) (Hj : pg_uuid j = Some j) (HD : j ∈ D) (Hne : j ≠ i).
Hint Resolve held_get held_repo held_fail : preserves.

Lemma held_commit y data : o_ID y = j → preserves held (commitCancellation (X := X) y data).
Proof using Hj Hne.
  intros E. unfold commitCancellation. preserve. apply held_repo. rewrite E. by eapply held_mark.
Qed.
Lemma held_cancellation y : o_ID y = j → preserves held (finishCancellation (X := X) y).
Proof using Hj HD Hne Hkept.
  intros E. unfold finishCancellation. preserve; [|by apply held_commit].
  apply held_inventory. intros n x HC. apply Hkept; cbn; by rewrite ?E.
Qed.
Lemma held_store y : o_ID y = j → preserves held (finishStoreCancellation (X := X) y).
Proof using Hj HD Hne Hkept.
  intros E. unfold finishStoreCancellation. preserve; [|by apply held_commit].
  apply held_inventory. intros n x HC. apply Hkept; cbn; by rewrite ?E.
Qed.
Lemma held_payment y : o_ID y = j → preserves held (finishPayment (X := X) y).
Proof using Hj HD Hne Hkept.
  intros E. unfold finishPayment. preserve; rewrite ?E.
  - apply held_inventory. intros n x HC. by apply Hkept.
  - apply held_repo. by eapply held_reject.
  - apply held_repo. by eapply held_mark.
Qed.

(** The transition that was begun belongs to the order it was asked for. *)
Lemma held_begun target (f : Order → M (OSt X) SErr unit) (g : RErr → M (OSt X) SErr unit) o w :
  (∀ y, o_ID y = j → preserves held (f y)) → (∀ e, preserves held (g e)) → odb_ok (od (w_db w)) → held (w_db w) →
  held (w_db ((r ← repo (BeginTransition j target); match r with inl e => g e | inr y => f y end) o w).2).
Proof using Hj Hne.
  intros Hf Hg Hok Hw. unfold repo, try. unfold mbind, M_bind.
  pose proof (held_begin j j target Hj Hne o w Hw) as Hb. destruct (BeginTransition j target o w) as [[e|y] w1] eqn:E; cbn [snd] in Hb.
  - by apply Hg.
  - apply begin_post in E as [[Hp _] _]; [|apply Hok]. apply Hf; [congruence|done].
Qed.

Lemma held_resume y o w : o_ID y = j → odb_ok (od (w_db w)) → held (w_db w) → held (w_db (resume_order (X := X) y o w).2).
Proof using Hj HD Hne Hkept.
  intros E Hok Hw. unfold resume_order. rewrite E.
  assert (Hpay : held (w_db (ConfirmPayment (X := X) j o w).2)).
  { unfold ConfirmPayment, paymentStateError. apply (held_begun StatusPaymentConfirming
      (λ order, if bool_decide (o_Status order = StatusPaid) then mret tt
        else if negb (bool_decide (o_Status order = StatusPaymentConfirming)) then _ else finishPayment order)
      (λ e, match e with RInvalidTransition => _ | _ => _ end)); [..|done|done].
    - intros z Hz. preserve. by apply held_payment.
    - intros e. preserve. }
  destruct (o_Status y); try done; [|by apply held_store].
  unfold CancelOrder. rewrite (bool_decide_eq_true_2 ("CUSTOMER_REQUEST" = "CUSTOMER_REQUEST")) by done. cbn [andb negb].
  apply (held_begun StatusCancelPending
    (λ order, if bool_decide (o_Status order = StatusCancelled) then mret tt
      else if negb (bool_decide (o_Status order = StatusCancelPending)) then _ else finishCancellation order)
    (λ e, match e with RInvalidTransition => _ | _ => _ end)); [..|done|done].
  - intros z Hz. preserve. by apply held_cancellation.
  - intros e. preserve.
Qed.
End others.

(** ** The recovery loop *)

Section resume.
Context (env : Env) (Hctx : ∀ n, ctx_done env n = false).
Context (C : X → Prop) (D : gset string) (x0 : Order) (Hin : o_Status x0 ∈ transitional).
Context (Hsettles : ∀ n x, C x → settles x0 n x).
Context (Hkept : ∀ n q x, C x → rr_OrderId q ∈ D → rr_OrderId q ≠ o_ID x0 →
  C (ConfirmReservation n q x).2 ∧ C (ReleaseReservation n q x).2 ∧ C (ReturnConfirmedReservation n q x).2).
Abbreviation held0 := (held (o_ID x0) x0 C D).
Abbreviation done0 := (row_at (o_ID x0) (recovered (o_Status x0))).

Lemma held_step y o w : o_ID y ∈ D → o_ID y ≠ o_ID x0 → odb_ok (od (w_db w)) → held0 (w_db w) →
  held0 (w_db (resume_order (X := X) y o w).2).
Proof using Hkept.
  intros HD Hne Hok Hw. eapply (held_resume _ _ _ _ Hkept (o_ID y)); try done.
  rewrite <-(proj1 (proj1 Hw)) in HD. apply elem_of_dom in HD as [z Hz].
  destruct (row_of _ _ _ Hok Hz) as [[Hp _] E]. by rewrite E in Hp.
Qed.

Lemma each_order_resumes l : (∀ y, y ∈ l → o_ID y ∈ D) → (∀ y, y ∈ l → o_ID y = o_ID x0 → y = x0) →
  ∀ f o w, reliable o → odb_ok (od (w_db w)) → held0 (w_db w) →
  let s' := w_db (each_order (X := X) env resume_order l f o w).2 in
  done0 s' ∨ held0 s' ∧ o_ID x0 ∉ o_ID <$> l.
Proof using Hkept Hctx Hsettles Hin.
  assert (Hh : ∀ y d0, preserves (from d0) (resume_order (X := X) y)) by apply resume_order_refines.
  induction l as [|y l IH]; intros HD Hsame f o w Ho Hok Hw; [right; split; [done|apply not_elem_of_nil]|].
  cbn [each_order]. unfold mbind, M_bind, try. pose proof (run_keeps (resume_order y) o w (Hh y) Hok) as Hok1.
  destruct (decide (o_ID y = o_ID x0)) as [E|E].
  - assert (y = x0) as -> by (apply Hsame; [by left|done]). left.
    assert (Hd : done0 (w_db (resume_order x0 o w).2)).
    { destruct Hw as (_ & Hx & HC). apply resume_settles; try done. intros n. by apply Hsettles. }
    destruct (resume_order x0 o w) as [r w1]. cbn -[each_order] in *. rewrite Hctx.
    apply lasting_run; [by apply each_order_refines|apply recovered_lasting|done..].
  - assert (Hw1 : held0 (w_db (resume_order y o w).2)) by (apply held_step; [apply HD; by left|done..]).
    destruct (resume_order y o w) as [r w1]. cbn -[each_order fmap] in *. rewrite Hctx.
    match goal with |- context [each_order env resume_order l ?f' o ?w2] =>
      destruct (IH (λ z Hz, HD z (list_elem_of_further _ _ _ Hz)) (λ z Hz, Hsame z (list_elem_of_further _ _ _ Hz))
        f' o w2 Ho Hok1 Hw1) as [?|[? Hn]] end; [by left|right].
    split; [done|]. rewrite fmap_cons, not_elem_of_cons. auto.
Qed.

Lemma resume_loop_recovers fuel : ∀ a f o w, reliable o → odb_ok (od (w_db w)) →
  SFuel ∉ f → (size (rest a D) < fuel)%nat → held0 (w_db w) → after a (o_ID x0) →
  done0 (w_db (resume_loop (X := X) env fuel a f o w).2).
Proof using Hkept Hctx Hsettles Hin.
  induction fuel as [|fuel IH]; intros a f o w Ho Hok Hf Hfuel Hw Ha; [lia|]. pose proof Hw as (Hrows & Hx & _).
  cbn [resume_loop]. unfold mbind, M_bind, repo, try, PendingTransitions, pool_query, pool_stmt.
  cbn -[resume_loop each_order page]. rewrite Ho. cbn -[resume_loop each_order page].
  match goal with |- context [page a 100 ?k (w_db w)] => set (keep := k) end.
  match goal with |- context [each_order env ?h ?p f o ?w1] => set (w1_ := w1) end.
  destruct (each_order_rows env D resume_order (page a 100 keep (w_db w)) (λ y, rows_in_resume D _)
    (λ y, apps_resume _) f o w1_ Hf Hrows) as (f' & stop & w' & Hrun & Hf' & _ & Hstop).
  assert (stop = false) as ->.
  { destruct stop; [|done]. destruct (Hstop eq_refl) as [n Hn]. by rewrite Hctx in Hn. }
  pose proof (run_keeps (each_order env resume_order (page a 100 keep (w_db w)) f) o w1_
    (each_order_refines env resume_order _ resume_order_refines f) Hok) as Hok'.
  assert (Hrow : ∀ y, y ∈ page a 100 keep (w_db w) → orders (od (w_db w)) !! o_ID y = Some y).
  { intros y (_ & _ & k & Hk)%page_elem. by destruct (proj2 Hrows _ _ Hk) as [-> _]. }
  assert (HD : ∀ y, y ∈ page a 100 keep (w_db w) → o_ID y ∈ D).
  { intros y Hy%Hrow. rewrite <-(proj1 Hrows). by eapply elem_of_dom_2. }
  assert (Hsame : ∀ y, y ∈ page a 100 keep (w_db w) → o_ID y = o_ID x0 → y = x0).
  { intros y Hy%Hrow E. rewrite E in Hy. congruence. }
  destruct (each_order_resumes _ HD Hsame f o w1_ Ho Hok Hw) as [Hd|[Hw' Hn]].
  - rewrite Hrun in *. cbn [snd] in *. case_bool_decide; (apply lasting_run; [|apply recovered_lasting|done..]).
    + apply join_refines.
    + apply resume_loop_refines.
  - rewrite Hrun in *. cbn [snd] in *.
    assert (Hkeep : keep x0 = true) by (unfold keep; by rewrite bool_decide_eq_true_2).
    destruct (page_covers D a keep (w_db w) (o_ID x0) x0 Hrows Hx Hkeep Ha) as [Hp|(Hlen & y & Hy & Hay)].
    { destruct Hn. apply list_elem_of_fmap. by exists x0. }
    rewrite bool_decide_eq_false_2 by (rewrite Hlen; lia). apply IH; try done.
    + eapply next_page; [exact Hrows|done|]. rewrite Hlen. lia.
    + by rewrite Hy.
Qed.
End resume.
End recovery.

Section claims.
Context {X : Type} {uuid : UuidLib} {pg : PgUuid} {ids : OrderIds} {inv : InventoryClient X} (env : Env).
Implicit Types (s : OSt X) (w : world (OSt X)).

(** Whatever fails in between, each page moves on by at least one row. *)
Lemma loops_end o w : oreachable (w_db w) →
  ended (ExpireOverdueOrders env o w).1 ∧ ended (ResumePendingTransitions env o w).1.
Proof.
  intros Hr%reachable_ok. pose proof (rows_in_keyed (w_db w) (od_keyed _ Hr)) as Hrows.
  pose proof (fuel_enough (w_db w)). split.
  - by apply (expire_loop_ended env (dom (orders (od (w_db w))))); [done|apply not_elem_of_nil|].
  - by apply (resume_loop_ended env (dom (orders (od (w_db w))))); [done|apply not_elem_of_nil|].
Qed.

Lemma expiry_sweep_complete o w T i x :
  oreachable (w_db w) → reliable o → (∀ n, T ≤ or_clock o n) → (∀ n, ctx_done env n = false) →
  orders (od (w_db w)) !! i = Some x → o_Status x = StatusPendingPayment → o_ReservationExpiresAt x ≤ T →
  ∃ x', orders (od (w_db (ExpireOverdueOrders env o w).2)) !! i = Some x' ∧ o_Status x' ≠ StatusPendingPayment.
Proof.
  intros Hr%reachable_ok Ho Ht Hctx Hx Hst Hexp.
  apply (expire_loop_gone env Hctx T i (dom (orders (od (w_db w))))); try done.
  - apply rows_in_keyed, Hr.
  - apply not_elem_of_nil.
  - apply fuel_enough.
  - exists x. split; [done|]. by intros _.
  - by left.
Qed.

Lemma recovery_complete C o w i x :
  oreachable (w_db w) → reliable o → obliging C (w_db w) x → (∀ n, ctx_done env n = false) →
  orders (od (w_db w)) !! i = Some x → o_Status x ∈ transitional →
  ∃ x', orders (od (w_db (ResumePendingTransitions env o w).2)) !! i = Some x' ∧ recovered (o_Status x) x'.
Proof.
  intros Hr%reachable_ok Ho [Hnow Hset Hkept] Hctx Hx Hst.
  destruct (row_of _ _ _ Hr Hx) as [_ <-].
  apply (resume_loop_recovers env Hctx C (dom (orders (od (w_db w)))) x Hst Hset Hkept); try done.
  - apply not_elem_of_nil.
  - apply fuel_enough.
  - split; [apply rows_in_keyed, Hr|done].
  - by left.
Qed.

(** C12.  The background loops end and miss nobody.  Expiry and recovery page
    through the orders by id, and whatever fails in between neither loop is ever
    cut off.  When the order database answers and the context is not cancelled,
    every order that waited for payment with its hold run out before the expiry
    sweep looked at the clock has left PENDING_PAYMENT when the sweep returns,
    however many pages that takes and whatever Inventory answers.  Under the same
    two conditions one pass of the recovery loop brings an order that was found in
    CANCEL_PENDING or STORE_CANCEL_PENDING to CANCELLED, and moves one that was
    found in PAYMENT_CONFIRMING on, provided that Inventory settles the one call
    this order has pending (the release or the return succeeds; the confirmation
    succeeds or is refused as FAILED_PRECONDITION) and the calls for the other
    stored orders, which may all fail, do not change that. *)
Theorem workers_complete o w : oreachable (w_db w) →
  (ended (ExpireOverdueOrders env o w).1 ∧ ended (ResumePendingTransitions env o w).1) ∧
  ∀ i x, reliable o → (∀ n, ctx_done env n = false) → orders (od (w_db w)) !! i = Some x →
  (∀ T, (∀ n, T ≤ or_clock o n) → o_Status x = StatusPendingPayment → o_ReservationExpiresAt x ≤ T →
     ∃ x', orders (od (w_db (ExpireOverdueOrders env o w).2)) !! i = Some x' ∧ o_Status x' ≠ StatusPendingPayment) ∧
  (∀ C, obliging C (w_db w) x → o_Status x ∈ transitional →
     ∃ x', orders (od (w_db (ResumePendingTransitions env o w).2)) !! i = Some x' ∧ recovered (o_Status x) x').
Proof.
  intros Hr. split; [by apply loops_end|]. intros i x Ho Hctx Hx. split.
  - intros T HT Hst Hexp. by eapply expiry_sweep_complete.
  - intros C Hob Hst. by eapply recovery_complete.
Qed.
End claims.

(** An order whose payment was being confirmed when the process died; the Batch
    Inventory behind the client still holds its portions. *)
Definition w_dead : world (OSt DB) :=
  (run_repo (OpBeginTransition (o_ID demo_order) StatusPaymentConfirming) (clock_from hour) w_placed).2.

Lemma reachable_dead : oreachable (w_db w_dead).
Proof.
  exists (w_db w_created). etrans; [apply demo_to_placed|]. apply rtc_once.
  apply (call_step_repo _ (OpBeginTransition (o_ID demo_order) StatusPaymentConfirming) (clock_from hour) _ (ox (w_db w_placed))); [|done].
  by destruct (w_db w_placed).
Defined.

(** It still confirms them; no other order is stored. *)
Lemma obliging_dead : obliging (λ x, x = ox (w_db w_dead)) (w_db w_dead) (order_at w_dead).
Proof.
  split; [done| |].
  - intros n x ->. unfold settles.
    replace (o_Status (order_at w_dead)) with StatusPaymentConfirming by (vm_compute; reflexivity).
    left. vm_compute. reflexivity.
  - intros n q x _ Hq Hne. exfalso. apply Hne.
    assert (E : dom (orders (od (w_db w_dead))) = {[o_ID (order_at w_dead)]}) by (vm_compute; reflexivity).
    rewrite E in Hq. by apply elem_of_singleton in Hq.
Qed.

Lemma workers_complete_witness :
  (∃ x', orders (od (w_db (ExpireOverdueOrders demo_env (clock_from (3 * hour)) w_placed).2)) !! o_ID demo_order = Some x' ∧
     o_Status x' ≠ StatusPendingPayment) ∧
  (∃ x', orders (od (w_db (ResumePendingTransitions demo_env (clock_from hour) w_dead).2)) !! o_ID demo_order = Some x' ∧
     recovered (o_Status (order_at w_dead)) x').
Proof.
  split.
  - apply (workers_complete demo_env (clock_from (3 * hour)) w_placed reachable_placed) with (x := order_at w_placed) (T := 3 * hour).
    + apply clock_from_reliable.
    + reflexivity.
    + apply order_at_row. vm_compute. reflexivity.
    + intros n. cbn. lia.
    + vm_compute. reflexivity.
    + vm_compute. discriminate.
  - apply (workers_complete demo_env (clock_from hour) w_dead reachable_dead) with (C := λ x, x = ox (w_db w_dead)).
    + apply clock_from_reliable.
    + reflexivity.
    + apply order_at_row. vm_compute. reflexivity.
    + apply obliging_dead.
    + vm_compute. right. left.
Defined.
