(* ===== verification/FulModel.v ===== *)
(** Fulfillment service: the kitchen tickets of
    [fulfillment-service/internal/models/fulfillment.go], the events of
    [internal/events/events.go] and the repository of
    [internal/repository/fulfillment_repo.go], with the constraints of the
    tables under [migrations/].

    A [uuid.UUID] is its canonical text.  The tables are keyed the way their
    unique constraints say: tickets by order, slots by their start. *)

From stdpp Require Import pretty.
From S2P Require Import Prelude Effects GoStd InvModel.

(** ** Tickets *)

Inductive Status := StatusQueued | StatusPreparing | StatusReady | StatusPickedUp | StatusCancelled.
#[global] Instance Status_eq_dec : EqDecision Status.
Proof. solve_decision. Defined.

Definition IsUpdatable (s : Status) : bool :=
  bool_decide (s = StatusPreparing) || bool_decide (s = StatusReady) || bool_decide (s = StatusPickedUp).

Definition IsCancellable (s : Status) : bool :=
  bool_decide (s = StatusQueued) || bool_decide (s = StatusPreparing).

Definition CanTransition (from to : Status) : bool :=
  match from, to with
  | StatusQueued, StatusPreparing => true
  | StatusPreparing, StatusReady => true
  | StatusReady, StatusPickedUp => true
  | _, _ => false
  end.

Record FItem := MkFItem { fi_FlavorID : string; fi_FlavorName : string; fi_Portions : Z }.
#[global] Instance FItem_eq_dec : EqDecision FItem.
Proof. solve_decision. Defined.

(** A row of [fulfillments]; [tk_Seq] is the column [queue_seq]. *)
Record Ticket := MkTicket {
  tk_ID : string;
  tk_OrderID : string;
  tk_CustomerID : option string;
  tk_Seq : Z;
  tk_QueueNumber : string;
  tk_PickupSlotID : string;
  tk_PickupAt : Z;
  tk_Status : Status;
  tk_Items : list FItem;
  tk_PickedUpAt : option Z;
  tk_CreatedAt : Z;
  tk_UpdatedAt : Z
}.
#[global] Instance Ticket_eq_dec : EqDecision Ticket.
Proof. solve_decision. Defined.

Definition set_ticket (s : Status) (picked : option Z) (t : Z) (k : Ticket) : Ticket :=
  MkTicket (tk_ID k) (tk_OrderID k) (tk_CustomerID k) (tk_Seq k) (tk_QueueNumber k) (tk_PickupSlotID k)
    (tk_PickupAt k) s (tk_Items k) picked (tk_CreatedAt k) t.

Record History := MkHistory {
  hi_ID : string;
  hi_FulfillmentID : string;
  hi_Old : option Status;
  hi_New : Status;
  hi_Actor : option string;
  hi_Source : option string;
  hi_CreatedAt : Z
}.

Record Slot := MkSlot { sl_ID : string; sl_NextQueue : Z }.

(** ** Events *)

Definition TypeOrderQueued : string := "com.gelatoflow.fulfillment.order-queued.v1".
Definition TypeOrderReady : string := "com.gelatoflow.fulfillment.order-ready.v1".
Definition TypeOrderPickedUp : string := "com.gelatoflow.fulfillment.order-picked-up.v1".
Definition TypeOrderPlaced : string := "com.gelatoflow.order.placed.v1".
Definition TypeOrderCancelled : string := "com.gelatoflow.order.cancelled.v1".
Definition RoutingKeyOrderQueued : string := "fulfillment.order_queued".
Definition RoutingKeyOrderReady : string := "fulfillment.order_ready".
Definition RoutingKeyOrderPickedUp : string := "fulfillment.order_picked_up".

Inductive FData :=
  | OrderQueuedData (order customer queue slot : string) (pickup : Z)
  | OrderReadyData (order : string) (customer : option string) (queue slot : string)
  | OrderPickedUpData (order : string) (picked_up_at : Z).

Record FEnvelope := MkFEnvelope { fe_ID : string; fe_Type : string; fe_Time : Z; fe_Data : FData }.

Record FOutbox := MkFOutbox {
  fo_ID : string;
  fo_RoutingKey : string;
  fo_Payload : FEnvelope;
  fo_CreatedAt : Z;
  fo_PublishedAt : option Z
}.

(** The part of [order.placed] that the service reads. *)
Record OrderPlacedData := MkOrderPlacedData {
  pd_OrderID : string;
  pd_CustomerID : string;
  pd_PickupAt : Z;
  pd_Items : list FItem
}.
Record OrderCancelledData := MkOrderCancelledData { cd_OrderID : string; cd_Reason : string }.

(** ** The database *)

Record FDB := MkFDB {
  tickets : gmap string Ticket;
  slots : gmap Z Slot;
  processed : gmap string Z;
  cancelled_orders : gmap string (string * Z);
  history : list History;
  foutbox : list FOutbox
}.
Definition empty_fdb : FDB := MkFDB ∅ ∅ ∅ ∅ [] [].

Definition set_tickets (f : gmap string Ticket → gmap string Ticket) (d : FDB) : FDB :=
  MkFDB (f (tickets d)) (slots d) (processed d) (cancelled_orders d) (history d) (foutbox d).
Definition set_slots (f : gmap Z Slot → gmap Z Slot) (d : FDB) : FDB :=
  MkFDB (tickets d) (f (slots d)) (processed d) (cancelled_orders d) (history d) (foutbox d).
Definition set_processed (f : gmap string Z → gmap string Z) (d : FDB) : FDB :=
  MkFDB (tickets d) (slots d) (f (processed d)) (cancelled_orders d) (history d) (foutbox d).
Definition set_cancelled (f : gmap string (string * Z) → gmap string (string * Z)) (d : FDB) : FDB :=
  MkFDB (tickets d) (slots d) (processed d) (f (cancelled_orders d)) (history d) (foutbox d).
Definition add_history (h : History) (d : FDB) : FDB :=
  MkFDB (tickets d) (slots d) (processed d) (cancelled_orders d) (history d ++ [h]) (foutbox d).
Definition set_foutbox (f : list FOutbox → list FOutbox) (d : FDB) : FDB :=
  MkFDB (tickets d) (slots d) (processed d) (cancelled_orders d) (history d) (f (foutbox d)).

Definition ticket_rows (d : FDB) : list Ticket := (map_to_list (tickets d)).*2.
Definition slot_rows (d : FDB) : list (Z * Slot) := map_to_list (slots d).

(** ** Errors *)

Inductive FErr := FNotFound | FInvalidTransition | FDbErr (e : dberr).
#[global] Instance FErr_db : DbError FErr := FDbErr.

Definition uniqueViolation : string := "23505".

(** The SQLSTATE of an error that comes from the server. *)
Definition pg_code (e : dberr) : option string :=
  match e with DbUnique _ => Some uniqueViolation | DbPg c => Some c | _ => None end.

(** What the driver package says of an error it produced. *)
Class PgConn := { pg_Timeout : dberr → bool; pg_SafeToRetry : dberr → bool }.

Definition transient_code (c : string) : bool :=
  has_prefix "08" c || has_prefix "53" c ||
  bool_decide (c ∈ ["57P01"; "57P02"; "57P03"; "40001"; "40P01"]).

Definition IsTransient `{!PgConn} (err : FErr) : bool :=
  match err with
  | FDbErr e =>
      bool_decide (e = DbConnect) || bool_decide (e = DbDeadline) || pg_Timeout e || pg_SafeToRetry e ||
      from_option transient_code false (pg_code e)
  | _ => false
  end.

(** ** Slots and queue numbers *)

Definition SlotLength : Z := 15 * minute.
Definition slotNamespace : string := "6f1d3a52-7c0e-4b3e-9a55-2d1c8e4f7b10".

(** [uuid.NewSHA1(namespace, name)]. *)
Class NameUuid := uuid_NewSHA1 : string → string → string.

(** The civil date of a day counted from the Unix epoch. *)
Definition civil_from_days (n : Z) : Z * Z * Z :=
  let z := n + 719468 in
  let era := z / 146097 in
  let doe := z - era * 146097 in
  let yoe := (doe - doe / 1460 + doe / 36524 - doe / 146096) / 365 in
  let doy := doe - (365 * yoe + yoe / 4 - yoe / 100) in
  let mp := (5 * doy + 2) / 153 in
  let m := if mp <? 10 then mp + 3 else mp - 9 in
  (yoe + era * 400 + (if m <=? 2 then 1 else 0), m, doy - (153 * mp + 2) / 5 + 1).

Definition pad (width : nat) (n : Z) : string :=
  let s := pretty (Z.abs n) in
  let body := String.append (of_bytes (replicate (width - String.length s) 48)) s in
  if n <? 0 then String.append "-" body else body.

(** [t.Format(time.RFC3339)] of a UTC instant. *)
Definition format_rfc3339 (t : Z) : string :=
  let s := t / second in
  let '(y, m, d) := civil_from_days (s / 86400) in
  let r := s mod 86400 in
  (pad 4 y +:+ "-" +:+ pad 2 m +:+ "-" +:+ pad 2 d +:+ "T" +:+
   pad 2 (r / 3600) +:+ ":" +:+ pad 2 (r / 60 mod 60) +:+ ":" +:+ pad 2 (r mod 60) +:+ "Z")%string.

Definition slot_start (t : Z) : Z := truncate t SlotLength.
Definition slot_id `{!NameUuid} (start : Z) : string := uuid_NewSHA1 slotNamespace (format_rfc3339 start).

(** [fmt.Sprintf("%02d", seq)] of the positive numbers handed out. *)
Definition queue_number (seq : Z) : string := pad 2 seq.

(** ** The repository *)

Section repository.
Context {names : NameUuid}.
Abbreviation F := (M FDB FErr).

(** [now()]: the start of the transaction, read once. *)
Definition tx_now : F Z := go_now.

Definition GetByOrderID (orderID : string) : F Ticket :=
  r ← pool_query (λ _ d, tickets d !! orderID);
  match r with Some k => mret k | None => throw FNotFound end.

Record ListFilter := MkListFilter {
  lf_Statuses : list Status; lf_PickupFrom : option Z; lf_PickupTo : option Z
}.

Definition matches (f : ListFilter) (k : Ticket) : bool :=
  (bool_decide (lf_Statuses f = []) || bool_decide (tk_Status k ∈ lf_Statuses f)) &&
  from_option (λ t, bool_decide (t ≤ tk_PickupAt k)) true (lf_PickupFrom f) &&
  from_option (λ t, bool_decide (tk_PickupAt k < t)) true (lf_PickupTo f).

(** The join with [pickup_slots], and the order of the result. *)
Definition joined (d : FDB) : list (Z * Ticket) :=
  s ← slot_rows d; k ← ticket_rows d;
  if bool_decide (tk_PickupSlotID k = sl_ID s.2) then [(s.1, k)] else [].
Definition queue_order (x y : Z * Ticket) : Prop :=
  x.1 < y.1 ∨ (x.1 = y.1 ∧ tk_Seq x.2 ≤ tk_Seq y.2).
#[global] Instance queue_order_dec x y : Decision (queue_order x y).
Proof. unfold queue_order. apply _. Defined.

Definition List_ (filter_ : ListFilter) : F (list Ticket) :=
  pool_query (λ _ d, (merge_sort queue_order (filter (λ x, matches filter_ x.2 = true) (joined d))).*2).

(** Whether the event had been seen before. *)
Definition markProcessed (eventID : string) (now : Z) : F bool :=
  stmt (λ _ d,
    match processed d !! eventID with
    | Some _ => inr (true, d)
    | None => inr (false, set_processed <[eventID := now]> d)
    end).

Definition lockOrder (orderID : string) : F unit := advisory_lock orderID.

(** The upsert that hands out the next queue number of a slot. *)
Definition next_queue (slotID : string) (startsAt : Z) : F Z :=
  stmt (λ _ d,
    match slots d !! startsAt with
    | Some s =>
        if bool_decide (sl_NextQueue s + 1 > MaxInt32) then inl (DbPg "22003")
        else inr (sl_NextQueue s, set_slots <[startsAt := MkSlot (sl_ID s) (sl_NextQueue s + 1)]> d)
    | None =>
        if existsb (λ s, bool_decide (sl_ID s.2 = slotID)) (slot_rows d) then inl (DbUnique "pickup_slots_pkey")
        else inr (1, set_slots <[startsAt := MkSlot slotID 2]> d)
    end).

Definition insert_ticket (k : Ticket) : F unit :=
  stmt (λ _ d,
    if existsb (λ k', bool_decide (tk_ID k' = tk_ID k)) (ticket_rows d) then inl (DbUnique "fulfillments_pkey")
    else if bool_decide (is_Some (tickets d !! tk_OrderID k)) then inl (DbUnique "fulfillments_order_id_key")
    else if existsb (λ k', bool_decide (tk_PickupSlotID k' = tk_PickupSlotID k ∧ tk_Seq k' = tk_Seq k)) (ticket_rows d)
    then inl (DbUnique "uq_fulfillment_slot_queue")
    else if negb (existsb (λ s, bool_decide (sl_ID s.2 = tk_PickupSlotID k)) (slot_rows d)) then inl (DbPg "23503")
    else inr (tt, set_tickets <[tk_OrderID k := k]> d)).

Definition insert_history (fid : string) (old : option Status) (new : Status) (actor source : option string) (t : Z)
    : F unit :=
  id ← new_uuid;
  stmt (λ _ d,
    if existsb (λ h, bool_decide (hi_ID h = id)) (history d) then inl (DbUnique "fulfillment_status_history_pkey")
    else inr (tt, add_history (MkHistory id fid old new actor source t) d)).

(** Writing the outbox row of an envelope; [created_at] defaults to [now()]. *)
Definition insertOutbox (routingKey : string) (env : FEnvelope) (now : Z) : F unit :=
  stmt (λ _ d,
    if existsb (λ r, bool_decide (fo_ID r = fe_ID env)) (foutbox d) then inl (DbUnique "outbox_pkey")
    else inr (tt, set_foutbox (λ l, l ++ [MkFOutbox (fe_ID env) routingKey env now None]) d)).

Definition newEnvelope (ty : string) (at_ : Z) (data : FData) : F FEnvelope :=
  id ← new_uuid; mret (MkFEnvelope id ty at_ data).

Definition create_ticket (eventID : string) (d : OrderPlacedData) (now : Z) : F (txend bool) :=
  let customerID := if bool_decide (pd_CustomerID d = uuid_nil) then None else Some (pd_CustomerID d) in
  let startsAt := slot_start (pd_PickupAt d) in
  let slotID := slot_id startsAt in
  seq ← next_queue slotID startsAt;
  fid ← new_uuid;
  r ← try (insert_ticket (MkTicket fid (pd_OrderID d) customerID seq (queue_number seq) slotID (pd_PickupAt d)
             StatusQueued (pd_Items d) None now now));
  match r with
  | inl (FDbErr e) =>
      if bool_decide (pg_code e = Some uniqueViolation) then mret (Leave false) else throw (FDbErr e)
  | inl e => throw e
  | inr _ =>
      insert_history fid None StatusQueued None (Some eventID) now ;;
      match customerID with
      | None => mret (Commit true)
      | Some customer =>
          at_ ← go_now;
          env ← newEnvelope TypeOrderQueued at_
            (OrderQueuedData (pd_OrderID d) customer (queue_number seq) slotID (pd_PickupAt d));
          insertOutbox RoutingKeyOrderQueued env now ;;
          mret (Commit true)
      end
  end.

Definition create_body (eventID : string) (d : OrderPlacedData) : F (txend bool) :=
  now ← tx_now;
  dup ← markProcessed eventID now;
  if (dup : bool) then mret (Leave false)
  else
    lockOrder (pd_OrderID d) ;;
    cancelled ← query (λ db, bool_decide (is_Some (cancelled_orders db !! pd_OrderID d)));
    if (cancelled : bool) then mret (Commit false)
    else create_ticket eventID d now.

Definition CreateFromOrderPlaced (eventID : string) (d : OrderPlacedData) : F bool :=
  transaction (create_body eventID d).

(** The [UPDATE ... RETURNING f.id, old.status] of a cancellation. *)
Definition cancel_row (orderID : string) (now : Z) : F (option (string * Status)) :=
  stmt (λ _ d,
    match tickets d !! orderID with
    | Some k =>
        if IsCancellable (tk_Status k)
        then inr (Some (tk_ID k, tk_Status k),
                  set_tickets <[orderID := set_ticket StatusCancelled (tk_PickedUpAt k) now k]> d)
        else inr (None, d)
    | None => inr (None, d)
    end).

Definition insert_tombstone (eventID orderID : string) (now : Z) : F unit :=
  exec (λ d,
    if bool_decide (is_Some (tickets d !! orderID)) || bool_decide (is_Some (cancelled_orders d !! orderID)) then d
    else set_cancelled <[orderID := (eventID, now)]> d).

Definition cancel_body (eventID orderID : string) : F (txend bool) :=
  now ← tx_now;
  dup ← markProcessed eventID now;
  if (dup : bool) then mret (Leave false)
  else
    lockOrder orderID ;;
    r ← cancel_row orderID now;
    match r with
    | None => insert_tombstone eventID orderID now ;; mret (Commit false)
    | Some (fid, old) =>
        insert_history fid (Some old) StatusCancelled None (Some eventID) now ;;
        mret (Commit true)
    end.

Definition CancelByOrder (eventID orderID : string) : F bool := transaction (cancel_body eventID orderID).

Definition OutboxRetention : Z := 7 * 24 * hour.
Definition DedupeRetention : Z := 30 * 24 * hour.
Definition TombstoneRetention : Z := 30 * 24 * hour.

Definition purge_outbox (cutoff : Z) (r : FOutbox) : Prop :=
  match fo_PublishedAt r with Some t => t < cutoff | None => False end.
#[global] Instance purge_outbox_dec c r : Decision (purge_outbox c r).
Proof. unfold purge_outbox. destruct (fo_PublishedAt r); apply _. Defined.

(** The three deletions, each committed by itself; the rows removed so far and
    the error that stopped it. *)
Definition PurgeExpired (now : Z) : F (Z * option FErr) :=
  r1 ← try (pool_stmt (λ _ d,
         let keep := filter (λ r, ¬ purge_outbox (now - OutboxRetention) r) (foutbox d) in
         inr (Z.of_nat (length (foutbox d)) - Z.of_nat (length keep), set_foutbox (λ _, keep) d)) : F Z);
  match r1 with
  | inl e => mret (0, Some e)
  | inr n1 =>
      r2 ← try (pool_stmt (λ _ d,
             let keep := filter (λ x, ¬ x.2 < now - DedupeRetention) (processed d) in
             inr (Z.of_nat (size (processed d)) - Z.of_nat (size keep), set_processed (λ _, keep) d)) : F Z);
      match r2 with
      | inl e => mret (n1, Some e)
      | inr n2 =>
          r3 ← try (pool_stmt (λ _ d,
                 let keep := filter (λ x, ¬ x.2.2 < now - TombstoneRetention) (cancelled_orders d) in
                 inr (Z.of_nat (size (cancelled_orders d)) - Z.of_nat (size keep), set_cancelled (λ _, keep) d)) : F Z);
          match r3 with
          | inl e => mret (n1 + n2, Some e)
          | inr n3 => mret (n1 + n2 + n3, None)
          end
      end
  end.

(** The locking read of a ticket inside a transaction. *)
Definition scan_for_update (orderID : string) : F Ticket :=
  r ← query (λ d, tickets d !! orderID);
  match r with Some k => mret k | None => throw FNotFound end.

Definition update_row (orderID : string) (to : Status) (pickedUpAt : option Z) (now : Z) : F Ticket :=
  r ← stmt (λ _ d,
        match tickets d !! orderID with
        | Some k =>
            let k' := set_ticket to (match pickedUpAt with Some t => Some t | None => tk_PickedUpAt k end) now k in
            inr (Some k', set_tickets <[orderID := k']> d)
        | None => inr (None, d)
        end);
  match r with Some k => mret k | None => throw FNotFound end.

(** The event a move to a status publishes. *)
Definition status_event (k : Ticket) (to : Status) (now : Z) : option (string * string * FData) :=
  match to with
  | StatusReady => Some (RoutingKeyOrderReady, TypeOrderReady,
      OrderReadyData (tk_OrderID k) (tk_CustomerID k) (tk_QueueNumber k) (tk_PickupSlotID k))
  | StatusPickedUp => Some (RoutingKeyOrderPickedUp, TypeOrderPickedUp, OrderPickedUpData (tk_OrderID k) now)
  | _ => None
  end.

Definition update_body (actor : option string) (orderID : string) (to : Status) : F (txend Ticket) :=
  txnow ← tx_now;
  cur ← scan_for_update orderID;
  if bool_decide (tk_Status cur = to) then mret (Leave cur)
  else if negb (CanTransition (tk_Status cur) to) then throw FInvalidTransition
  else
    now ← go_now;
    updated ← update_row orderID to (if bool_decide (to = StatusPickedUp) then Some now else None) now;
    insert_history (tk_ID updated) (Some (tk_Status cur)) to actor None now ;;
    match status_event updated to now with
    | None => mret (Commit updated)
    | Some (key, ty, data) =>
        env ← newEnvelope ty now data;
        insertOutbox key env txnow ;;
        mret (Commit updated)
    end.

Definition ActorIDFromContext (actor : option string) : option string :=
  match actor with Some v => if bool_decide (v = uuid_nil) then None else Some v | None => None end.

Definition UpdateStatus (actor : option string) (orderID : string) (to : Status) : F Ticket :=
  transaction (update_body (ActorIDFromContext actor) orderID to).

Definition active (s : Status) : bool :=
  bool_decide (s = StatusQueued) || bool_decide (s = StatusPreparing) || bool_decide (s = StatusReady).

Definition GetSlotCapacity (slotTime : Z) : F Z :=
  let slotID := slot_id (slot_start slotTime) in
  pool_query (λ _ d, Z.of_nat (length (filter
    (λ k, bool_decide (tk_PickupSlotID k = slotID) && active (tk_Status k) = true) (ticket_rows d)))).

Definition history_order (x y : History) : Prop := lex2 hi_CreatedAt hi_ID x y.
#[global] Instance history_order_dec x y : Decision (history_order x y).
Proof. unfold history_order. apply _. Defined.

Definition GetHistory (fid : string) : F (list History) :=
  pool_query (λ _ d, merge_sort history_order (filter (λ h, hi_FulfillmentID h = fid) (history d))).
End repository.

Example format_epoch : format_rfc3339 0 = "1970-01-01T00:00:00Z"%string.
Proof. vm_compute. reflexivity. Qed.
Example format_leap : format_rfc3339 (1709164800 * second + 51300 * second) = "2024-02-29T14:15:00Z"%string.
Proof. vm_compute. reflexivity. Qed.
