(* ===== verification/FulMessaging.v ===== *)
(** Fulfillment service: the consumer of order events
    ([internal/messaging/consumer.go], [Parse] of [internal/events/events.go])
    and the outbox relay ([internal/messaging/relay.go]).

    What the consumer tells the broker about a delivery is a value, the list of
    calls it makes on the channel; what the broker makes of them is in
    [FulSystem]. *)

From S2P Require Import Prelude Effects GoStd InvModel FulModel.

(** ** Incoming messages *)

(** The decoded envelope; [ie_Data] is [None] when the field is absent. *)
Record InEnvelope (Data : Type) := MkInEnvelope {
  ie_SpecVersion : string; ie_ID : string; ie_Type : string; ie_Data : option Data
}.
Arguments MkInEnvelope {Data} _ _ _ _.
Arguments ie_SpecVersion {Data} _.
Arguments ie_ID {Data} _.
Arguments ie_Type {Data} _.
Arguments ie_Data {Data} _.

(** [json.Unmarshal] of the texts the service receives, into the three types
    it decodes. *)
Class Json := {
  Body : Type;
  Data : Type;
  unmarshal_envelope : Body → option (InEnvelope Data);
  unmarshal_placed : Data → option OrderPlacedData;
  unmarshal_cancelled : Data → option OrderCancelledData
}.

(** A value of the table of message headers. *)
Inductive Header := HInt32 (z : Z) | HInt64 (z : Z) | HInt (z : Z) | HOther.

Record Msg `{!Json} := MkMsg { m_Headers : gmap string Header; m_ContentType : string; m_Body : Body }.

Arguments MkMsg {_} _ _ _.
Arguments m_Headers {_} _.
Arguments m_ContentType {_} _.
Arguments m_Body {_} _.

(** A message as it is parked in the retry queue, with its time to live in
    milliseconds. *)
Record Publishing `{!Json} := MkPublishing { pb_Msg : Msg; pb_Expiration : Z }.
Arguments MkPublishing {_} _ _.
Arguments pb_Msg {_} _.
Arguments pb_Expiration {_} _.

Inductive Action `{!Json} := Ack | Nack (requeue : bool) | PublishRetry (p : Publishing).
Arguments Ack {_}.
Arguments Nack {_} _.
Arguments PublishRetry {_} _.

Definition retryCountHeader : string := "x-retry-count".
Definition maxRetries : Z := 5.
Definition baseRetryDelay : Z := second.
Definition maxTransientDelay : Z := minute.

Definition retryCount (headers : gmap string Header) : Z :=
  match headers !! retryCountHeader with
  | Some (HInt32 v) | Some (HInt64 v) | Some (HInt v) => v
  | _ => 0
  end.

(** [x << n] of a 64-bit value; a negative shift count panics. *)
Definition shl64 (x n : Z) : option Z := if bool_decide (n < 0) then None else Some (wrap64 (x * 2 ^ n)).

(** The number of the next retry, its delay, and whether the message has used
    up its retries; [None] is a panic. *)
Definition retryPlan (headers : gmap string Header) (transient : bool) : option (Z * Z * bool) :=
  let n := retryCount headers in
  if transient then
    if bool_decide (n < 16) then
      d ← shl64 baseRetryDelay n;
      Some (wrap64 (n + 1), d `min` maxTransientDelay, false)
    else Some (wrap64 (n + 1), maxTransientDelay, false)
  else if bool_decide (maxRetries ≤ n) then Some (n, 0, true)
  else d ← shl64 baseRetryDelay n; Some (wrap64 (n + 1), d, false).

(** ** Applying one message *)

Section consumer.
Context {names : NameUuid} {json : Json} {conn : PgConn}.
Abbreviation F := (M FDB FErr).

Definition Parse (body : Body) : option (InEnvelope Data) :=
  match unmarshal_envelope body with
  | None => None
  | Some e =>
      if negb (bool_decide (ie_SpecVersion e = "1.0")) then None
      else if bool_decide (ie_ID e = uuid_nil) then None
      else if bool_decide (ie_Type e = "") || bool_decide (ie_Data e = None) then None
      else Some e
  end.

Record OrderEvents := MkOrderEvents {
  h_CreateFromOrderPlaced : string → OrderPlacedData → F bool;
  h_CancelByOrder : string → string → F bool
}.
Definition repository_events : OrderEvents := MkOrderEvents CreateFromOrderPlaced CancelByOrder.

(** Why a message was not applied: it is malformed, or the storage failed. *)
Inductive DispatchErr := Malformed | Storage (e : FErr).

Definition storage {A} (r : FErr + A) : bool * option DispatchErr :=
  (true, match r with inl e => Some (Storage e) | inr _ => None end).

Definition Dispatch (h : OrderEvents) (body : Body) : F (bool * option DispatchErr) :=
  match Parse body with
  | None => mret (false, Some Malformed)
  | Some env =>
      if bool_decide (ie_Type env = TypeOrderPlaced) then
        match ie_Data env ≫= unmarshal_placed with
        | None => mret (false, Some Malformed)
        | Some d =>
            if bool_decide (pd_OrderID d = uuid_nil) || is_zero_time (pd_PickupAt d) || bool_decide (pd_Items d = [])
            then mret (false, Some Malformed)
            else r ← try (h_CreateFromOrderPlaced h (ie_ID env) d); mret (storage r)
        end
      else if bool_decide (ie_Type env = TypeOrderCancelled) then
        match ie_Data env ≫= unmarshal_cancelled with
        | None => mret (false, Some Malformed)
        | Some d =>
            if bool_decide (cd_OrderID d = uuid_nil) then mret (false, Some Malformed)
            else r ← try (h_CancelByOrder h (ie_ID env) (cd_OrderID d)); mret (storage r)
        end
      else mret (false, None)
  end.

(** The headers of the parked copy. *)
Definition retry_headers (headers : gmap string Header) (next : Z) : gmap string Header :=
  <[retryCountHeader := HInt32 (wrap32 next)]> (filter (λ kv, has_prefix "x-" kv.1 = false) headers).

(** The calls made on the channel for one delivery; [confirmed] is the broker's
    answer to the parked copy.  [None] is a panic. *)
Definition handleDelivery (h : OrderEvents) (confirmed : bool) (d : Msg) : F (option (list Action)) :=
  r ← Dispatch h (m_Body d);
  match r with
  | (_, None) => mret (Some [Ack])
  | (false, Some _) => mret (Some [Nack false])
  | (true, Some err) =>
      let transient := match err with Storage e => IsTransient e | Malformed => false end in
      match retryPlan (m_Headers d) transient with
      | None => mret None
      | Some (_, _, true) => mret (Some [Nack false])
      | Some (next, delay, false) =>
          let copy := MkPublishing (MkMsg (retry_headers (m_Headers d) next) (m_ContentType d) (m_Body d))
                        (delay / 1000000) in
          mret (Some [PublishRetry copy; if (confirmed : bool) then Ack else Nack true])
      end
  end.
End consumer.

(** ** The relay *)

Definition relayBatchSize : nat := 50.

Section relay.
Abbreviation F := (M FDB FErr).

(** Whether a row is held by another relay ([SKIP LOCKED]), and whether the
    broker confirms it. *)
Context (locked : FOutbox → bool) (publish : nat → FOutbox → bool).

Definition pending_rows (d : FDB) : list FOutbox :=
  take relayBatchSize (merge_sort (by_key fo_CreatedAt)
    (filter (λ r, fo_PublishedAt r = None ∧ locked r = false) (foutbox d))).

Definition mark_published (id : string) (now : Z) (d : FDB) : FDB :=
  set_foutbox (fmap (λ r, if bool_decide (fo_ID r = id)
    then MkFOutbox (fo_ID r) (fo_RoutingKey r) (fo_Payload r) (fo_CreatedAt r) (Some now) else r)) d.

(** [Publish] of one row: it has no effect on the database. *)
Definition Publish (x : FOutbox) : F bool := λ o w,
  (inr (publish (w_tick w) x), World (w_db w) (S (w_tick w)) (w_aborted w) (w_locks w)).

(** The loop; [false] when a publish failed, and then the rows before it are
    committed and the error is reported. *)
Fixpoint publish_rows (now : Z) (pending : list FOutbox) : F (txend bool) :=
  match pending with
  | [] => mret (Commit true)
  | x :: pending =>
      ok ← Publish x;
      if (ok : bool) then exec (mark_published (fo_ID x) now) ;; publish_rows now pending
      else mret (Commit false)
  end.

Definition flush : F bool :=
  transaction (now ← go_now; pending ← query pending_rows; publish_rows now pending).
End relay.
