(* ===== verification/FulSteps.v ===== *)
(** Fulfillment service: the abstract machine of the kitchen queue, and the
    proof that every operation of the repository and of the relay takes no
    other step than the machine's.

    A step is one committed transaction.  [work] are the steps of normal
    operation, [purge] the deletions of the retention job. *)

From S2P Require Import Prelude Effects GoStd InvModel FulModel FulMessaging.

Section machine.
Context {names : NameUuid}.
Implicit Types (d : FDB) (k : Ticket).

Definition customer_of (p : OrderPlacedData) : option string :=
  if bool_decide (pd_CustomerID p = uuid_nil) then None else Some (pd_CustomerID p).

(** The ticket of an order, and the number its slot hands out. *)
Definition seq_of (start : Z) d : Z := from_option sl_NextQueue 1 (slots d !! start).
Definition new_ticket (fid : string) (p : OrderPlacedData) (seq now : Z) : Ticket :=
  MkTicket fid (pd_OrderID p) (customer_of p) seq (queue_number seq) (slot_id (slot_start (pd_PickupAt p)))
    (pd_PickupAt p) StatusQueued (pd_Items p) None now now.
Definition new_slot (start : Z) d : Slot :=
  MkSlot (from_option sl_ID (slot_id start) (slots d !! start)) (seq_of start d + 1).

Definition outbox_row (id key ty : string) (data : FData) (at_ now : Z) : FOutbox :=
  MkFOutbox id key (MkFEnvelope id ty at_ data) now None.

Definition queued_row (p : OrderPlacedData) (seq : Z) (id : string) (at_ now : Z) : list FOutbox :=
  match customer_of p with
  | Some c => [outbox_row id RoutingKeyOrderQueued TypeOrderQueued
      (OrderQueuedData (pd_OrderID p) c (queue_number seq) (slot_id (slot_start (pd_PickupAt p))) (pd_PickupAt p)) at_ now]
  | None => []
  end.

Definition status_row (k : Ticket) (to : Status) (id : string) (at_ now : Z) : list FOutbox :=
  match status_event k to at_ with
  | Some (key, ty, data) => [outbox_row id key ty data at_ now]
  | None => []
  end.

Definition id_free (id : string) d : Prop := ∀ oid k, tickets d !! oid = Some k → tk_ID k ≠ id.
Definition slot_free (start : Z) d : Prop :=
  slots d !! start = None → ∀ t s, slots d !! t = Some s → sl_ID s ≠ slot_id start.
Definition rows_free (l : list FOutbox) d : Prop := ∀ r r', r ∈ l → r' ∈ foutbox d → fo_ID r' ≠ fo_ID r.

Inductive work d : FDB → Prop :=
  | W_create e p now fid hid oid' at_ :
      let start := slot_start (pd_PickupAt p) in
      let seq := seq_of start d in
      let rows := queued_row p seq oid' at_ now in
      processed d !! e = None → cancelled_orders d !! pd_OrderID p = None → tickets d !! pd_OrderID p = None →
      id_free fid d → slot_free start d → seq + 1 ≤ MaxInt32 → rows_free rows d →
      work d (MkFDB (<[pd_OrderID p := new_ticket fid p seq now]> (tickets d)) (<[start := new_slot start d]> (slots d))
        (<[e := now]> (processed d)) (cancelled_orders d)
        (history d ++ [MkHistory hid fid None StatusQueued None (Some e) now]) (foutbox d ++ rows))
  | W_overtaken e oid now : processed d !! e = None → is_Some (cancelled_orders d !! oid) →
      work d (set_processed <[e := now]> d)
  | W_cancel e oid k now hid : processed d !! e = None →
      tickets d !! oid = Some k → IsCancellable (tk_Status k) = true →
      work d (MkFDB (<[oid := set_ticket StatusCancelled (tk_PickedUpAt k) now k]> (tickets d)) (slots d)
        (<[e := now]> (processed d)) (cancelled_orders d)
        (history d ++ [MkHistory hid (tk_ID k) (Some (tk_Status k)) StatusCancelled None (Some e) now]) (foutbox d))
  | W_too_late e oid k now : processed d !! e = None →
      tickets d !! oid = Some k → IsCancellable (tk_Status k) = false →
      work d (set_processed <[e := now]> d)
  | W_tombstone e oid now : processed d !! e = None → tickets d !! oid = None →
      cancelled_orders d !! oid = None →
      work d (set_cancelled <[oid := (e, now)]> (set_processed <[e := now]> d))
  | W_update actor oid k to now id hid created :
      let picked := if bool_decide (to = StatusPickedUp) then Some now else tk_PickedUpAt k in
      let k' := set_ticket to picked now k in
      let rows := status_row k' to id now created in
      tickets d !! oid = Some k → CanTransition (tk_Status k) to = true → rows_free rows d →
      work d (MkFDB (<[oid := k']> (tickets d)) (slots d) (processed d) (cancelled_orders d)
        (history d ++ [MkHistory hid (tk_ID k) (Some (tk_Status k)) to actor None now]) (foutbox d ++ rows))
  | W_publish id now : work d (mark_published id now d).

Inductive purge d : FDB → Prop :=
  | P_outbox c : purge d (set_foutbox (filter (λ r, ¬ purge_outbox c r)) d)
  | P_processed c : purge d (set_processed (filter (λ x, ¬ x.2 < c)) d)
  | P_tombstones c : purge d (set_cancelled (filter (λ x, ¬ x.2.2 < c)) d).

Definition fstep : relation FDB := λ d d', work d d' ∨ purge d d'.

(** ** Statements *)

Abbreviation F := (M FDB FErr).
Implicit Types (o : oracle) (w : world FDB).

Lemma markProcessed_ok e now o w r w' : markProcessed e now o w = (inr r, w') →
  w_db w' = (if r then w_db w else set_processed <[e := now]> (w_db w)) ∧ (r = false → processed (w_db w) !! e = None).
Proof. intros (_ & _ & d' & H & ->)%stmt_ok. by case_in H. Qed.

Lemma existsb_none {A} (P : A → Prop) `{!∀ x, Decision (P x)} (l : list A) :
  existsb (λ x, bool_decide (P x)) l = false → ∀ x, x ∈ l → ¬ P x.
Proof.
  intros Hl x Hx HP. assert (existsb (λ x, bool_decide (P x)) l = true); [|congruence].
  apply existsb_exists. exists x. split; [by apply list_elem_of_In|by apply bool_decide_eq_true].
Qed.

Lemma ticket_rows_elem d oid k : tickets d !! oid = Some k → k ∈ ticket_rows d.
Proof. intros H. apply list_elem_of_fmap. exists (oid, k). split; [done|]. by apply elem_of_map_to_list. Qed.

Lemma slot_rows_elem d t s : slots d !! t = Some s → (t, s) ∈ slot_rows d.
Proof. intros H. by apply elem_of_map_to_list. Qed.

Lemma next_queue_ok start o w seq w' : next_queue (slot_id start) start o w = (inr seq, w') →
  seq = seq_of start (w_db w) ∧ w_db w' = set_slots <[start := new_slot start (w_db w)]> (w_db w) ∧
  slot_free start (w_db w) ∧ seq + 1 ≤ MaxInt32.
Proof.
  intros (_ & _ & d' & H & ->)%stmt_ok. unfold seq_of, new_slot, slot_free, seq_of.
  destruct (slots _ !! start) as [s|] eqn:E; cbn in *; case_match; bool_guards; simplify_eq; cbn.
  - split_and!; [done..|lia].
  - split_and!; [done|done| |done]. intros _ t s Hs Hid.
    eapply (existsb_none (λ s : Z * Slot, sl_ID s.2 = slot_id start)) in H0; [|by eapply slot_rows_elem]. done.
Qed.

Lemma insert_ticket_ok k o w u w' : insert_ticket k o w = (inr u, w') →
  w_db w' = set_tickets <[tk_OrderID k := k]> (w_db w) ∧ id_free (tk_ID k) (w_db w) ∧
  tickets (w_db w) !! tk_OrderID k = None.
Proof.
  intros (_ & _ & d' & H & ->)%stmt_ok. repeat case_in H. bool_guards. split_and!; [done| |by apply eq_None_not_Some].
  intros oid k' Hk. eapply (existsb_none (λ k', tk_ID k' = tk_ID k)); [done|by eapply ticket_rows_elem].
Qed.

Lemma insert_history_ok fid old new actor src t o w u w' :
  insert_history fid old new actor src t o w = (inr u, w') →
  ∃ hid, w_db w' = add_history (MkHistory hid fid old new actor src t) (w_db w).
Proof.
  intros H. apply bind_ok in H as (hid & w1 & [_ ->]%new_uuid_ok & (_ & _ & d' & H & ->)%stmt_ok).
  repeat case_in H. eauto.
Qed.

Lemma insert_history_live fid old new actor src t o w u w' :
  insert_history fid old new actor src t o w = (inr u, w') → w_aborted w' = false.
Proof. intros H. apply bind_ok in H as (? & ? & _ & H). by apply stmt_ok in H as (_ & _ & ? & _ & ->). Qed.

Lemma insertOutbox_ok key env now o w u w' : insertOutbox key env now o w = (inr u, w') →
  let r := MkFOutbox (fe_ID env) key env now None in
  w_db w' = set_foutbox (λ l, l ++ [r]) (w_db w) ∧ rows_free [r] (w_db w).
Proof.
  intros (_ & _ & d' & H & ->)%stmt_ok r. repeat case_in H. split; [done|].
  intros r1 r2 ->%list_elem_of_singleton Hr. eapply (existsb_none (λ x, fo_ID x = fe_ID env)) in Heqb; done.
Qed.

Lemma scan_ok oid o w k w' : scan_for_update oid o w = (inr k, w') →
  w_db w' = w_db w ∧ tickets (w_db w) !! oid = Some k.
Proof.
  intros H. apply bind_ok in H as (r & w1 & [-> ->]%query_ok & H).
  destruct (tickets _ !! oid) as [k'|] eqn:E; [|done]. by apply ret_ok in H as [-> ->].
Qed.

Lemma update_row_ok oid to picked now o w k' w' : update_row oid to picked now o w = (inr k', w') →
  ∃ k, tickets (w_db w) !! oid = Some k ∧
    k' = set_ticket to (match picked with Some t => Some t | None => tk_PickedUpAt k end) now k ∧
    w_db w' = set_tickets <[oid := k']> (w_db w).
Proof.
  intros H. apply bind_ok in H as (r & w1 & (_ & _ & d' & H1 & ->)%stmt_ok & H).
  destruct (tickets _ !! oid) as [k|] eqn:E; simplify_eq/=.
  apply ret_ok in H as [-> ->]. eauto.
Qed.

Lemma update_row_live oid to picked now o w k' w' :
  update_row oid to picked now o w = (inr k', w') → w_aborted w' = false.
Proof.
  intros H. apply bind_ok in H as (x & w1 & (_ & _ & d & _ & ->)%stmt_ok & H). by destruct x; [apply ret_ok in H as [_ ->]|].
Qed.

(** ** Operations *)

(** Whatever happens, [m] changes the database by steps of [R] only. *)
Definition does {A} (R : relation FDB) (m : F A) : Prop := ∀ o w, rtc R (w_db w) (w_db (m o w).2).

Lemma does_transaction {A} R (body : F (txend A)) :
  (∀ o w a w', body o w = (inr (Commit a), w') → rtc R (w_db w) (w_db w')) → does R (transaction body).
Proof.
  intros Hb o w. destruct (transaction body o w) as [r w'] eqn:H. cbn.
  apply transaction_cases in H as [->|(a & w1 & H & _ & ->)]; [done|]. by eapply Hb in H.
Qed.

Lemma does_pool {A} R (f : FDB → A * FDB) : (∀ d, R d (f d).2) →
  does R (pool_stmt (λ _ d, inr (f d)) : F A).
Proof.
  intros Hf o w. unfold pool_stmt. destruct (or_fault _ _); [done|]. specialize (Hf (w_db w)).
  destruct (f _). by apply rtc_once.
Qed.

Lemma does_try {E' A} R (m : F A) : does R m → ∀ o w, rtc R (w_db w) (w_db ((try m : M FDB E' _) o w).2).
Proof. intros Hm o w. specialize (Hm o w). unfold try. by destruct (m o w). Qed.

Lemma does_bind {A B} R (m : F A) (f : A → F B) : does R m → (∀ a, does R (f a)) → does R (m ≫= f).
Proof.
  intros Hm Hf o w. unfold mbind, M_bind. specialize (Hm o w).
  destruct (m o w) as [[e|a] w1]; [done|]. etrans; [exact Hm|apply Hf].
Qed.

Lemma does_ret {A} R (a : A) : does R (mret a).
Proof. by intros o w. Qed.

(** A query outside a transaction changes nothing. *)
Lemma does_pool_query {A} R (f : Z → FDB → A) : does R (pool_query f).
Proof. intros o w. unfold pool_query, pool_stmt. by destruct (or_fault _ _). Qed.

Lemma create_ticket_ok e p now o w w' b :
  create_ticket e p now o w = (inr (Commit b), w') →
  ∃ fid hid id at_, let d := w_db w in
    let start := slot_start (pd_PickupAt p) in let seq := seq_of start d in
    let rows := queued_row p seq id at_ now in
    b = true ∧ tickets d !! pd_OrderID p = None ∧ id_free fid d ∧ slot_free start d ∧ seq + 1 ≤ MaxInt32 ∧
    rows_free rows d ∧
    w_db w' = MkFDB (<[pd_OrderID p := new_ticket fid p seq now]> (tickets d)) (<[start := new_slot start d]> (slots d))
        (processed d) (cancelled_orders d)
        (history d ++ [MkHistory hid fid None StatusQueued None (Some e) now]) (foutbox d ++ rows).
Proof.
  intros H. unfold create_ticket in H. fold (customer_of p) in H.
  apply bind_ok in H as (seq & w1 & (-> & D1 & Hfree & Hmax)%next_queue_ok & H).
  apply bind_ok in H as (fid & w2 & [_ ->]%new_uuid_ok & H). cbn [w_db] in *.
  apply bind_ok in H as (r & w3 & H3%try_ok & H). destruct r as [[| |er]|[]]; [done|done|by case_match|].
  apply insert_ticket_ok in H3 as (D3 & Hid & Hnone). cbn [w_db tk_OrderID tk_ID] in *.
  apply bind_ok in H as ([] & w4 & (hid & D4)%insert_history_ok & H). rewrite D1 in *. rewrite D3 in D4.
  unfold queued_row. destruct (customer_of p) as [c|] eqn:Ec.
  - apply bind_ok in H as (at_ & w5 & [_ ->]%go_now_ok & H). cbn [w_db] in *.
    apply bind_ok in H as (env & w6 & H6 & H).
    apply bind_ok in H6 as (eid & w7 & [_ ->]%new_uuid_ok & [-> ->]%ret_ok).
    apply bind_ok in H as ([] & w8 & (D8 & Hrows)%insertOutbox_ok & [[= ->] ->]%ret_ok). cbn [w_db fe_ID] in *.
    rewrite D4 in *. exists fid, hid, eid, at_. split_and!; try done.
    rewrite D8. unfold new_ticket. by rewrite Ec.
  - apply ret_ok in H as [[= ->] ->]. exists fid, hid, "", 0. split_and!; try done.
    + by intros ? ? ?%not_elem_of_nil.
    + rewrite D4, app_nil_r. unfold new_ticket. by rewrite Ec.
Qed.

Lemma CreateFromOrderPlaced_works e p : does work (CreateFromOrderPlaced e p).
Proof.
  apply does_transaction. intros o w b w' H. unfold create_body in H.
  apply bind_ok in H as (now & w1 & [_ ->]%go_now_ok & H). cbn [w_db] in *.
  apply bind_ok in H as (dup & w2 & [D2 Hdup]%markProcessed_ok & H). cbn [w_db] in *.
  destruct dup; [by apply ret_ok in H as [? _]|]. specialize (Hdup eq_refl).
  apply bind_ok in H as ([] & w3 & ->%advisory_lock_ok & H). cbn [w_db] in *.
  apply bind_ok in H as (c & w4 & [-> ->]%query_ok & H). cbn [w_db] in *. rewrite D2 in H. cbn in H.
  case_bool_decide as Hc.
  - apply ret_ok in H as [_ ->]. cbn. by apply rtc_once, W_overtaken with (oid := pd_OrderID p).
  - apply create_ticket_ok in H as (fid & hid & id & at_ & -> & H1 & H2 & H3 & H4 & H5 & ->).
    apply rtc_once. apply eq_None_not_Some in Hc.
    exact (W_create (w_db w) e p now fid hid id at_ Hdup Hc H1 H2 H3 H4 H5).
Qed.

Lemma cancel_row_ok oid now o w r w' : cancel_row oid now o w = (inr r, w') →
  match r with
  | Some (fid, old) => ∃ k, tickets (w_db w) !! oid = Some k ∧ fid = tk_ID k ∧ old = tk_Status k ∧
      IsCancellable old = true ∧
      w_db w' = set_tickets <[oid := set_ticket StatusCancelled (tk_PickedUpAt k) now k]> (w_db w)
  | None => w_db w' = w_db w ∧ ∀ k, tickets (w_db w) !! oid = Some k → IsCancellable (tk_Status k) = false
  end.
Proof.
  intros (_ & _ & d' & H & ->)%stmt_ok. destruct (tickets _ !! oid) as [k|] eqn:E; simplify_eq/=.
  - destruct (IsCancellable _) eqn:Ec; simplify_eq/=; [eauto 10|]. split; [done|]. by intros ? [= <-].
  - done.
Qed.

Lemma CancelByOrder_works e oid : does work (CancelByOrder e oid).
Proof.
  apply does_transaction. intros o w b w' H. unfold cancel_body in H.
  apply bind_ok in H as (now & w1 & [_ ->]%go_now_ok & H). cbn [w_db] in *.
  apply bind_ok in H as (dup & w2 & [D2 Hdup]%markProcessed_ok & H). cbn [w_db] in *.
  destruct dup; [by apply ret_ok in H as [? _]|]. specialize (Hdup eq_refl).
  apply bind_ok in H as ([] & w3 & ->%advisory_lock_ok & H). cbn [w_db] in *.
  apply bind_ok in H as (r & w4 & H4%cancel_row_ok & H). cbn [w_db] in *. rewrite D2 in H4. cbn in H4.
  destruct r as [[fid old]|].
  - destruct H4 as (k & Hk & -> & -> & Hc & D4).
    apply bind_ok in H as ([] & w5 & (hid & D5)%insert_history_ok & [_ ->]%ret_ok).
    rewrite D5, D4. apply rtc_once. exact (W_cancel (w_db w) e oid k now hid Hdup Hk Hc).
  - destruct H4 as [D4 Hc].
    apply bind_ok in H as ([] & w5 & ->%exec_ok & [_ ->]%ret_ok). cbn [w_db]. rewrite D4. cbn.
    destruct (tickets (w_db w) !! oid) as [k|] eqn:Hk.
    + rewrite bool_decide_eq_true_2 by eauto. cbn. apply rtc_once.
      exact (W_too_late (w_db w) e oid k now Hdup Hk (Hc _ eq_refl)).
    + rewrite bool_decide_eq_false_2 by (by intros [? ?]). cbn. case_bool_decide as Ht.
      * by apply rtc_once, W_overtaken with (oid := oid).
      * by apply rtc_once, W_tombstone, eq_None_not_Some.
Qed.

Definition picked_at (to : Status) (now : Z) k : option Z :=
  if bool_decide (to = StatusPickedUp) then Some now else tk_PickedUpAt k.

(** The database after a ticket has moved to [to]. *)
Definition updated_db d (actor : option string) (oid : string) k (to : Status) (now : Z) (id hid : string) (created : Z)
    : FDB :=
  let k' := set_ticket to (picked_at to now k) now k in
  MkFDB (<[oid := k']> (tickets d)) (slots d) (processed d) (cancelled_orders d)
    (history d ++ [MkHistory hid (tk_ID k) (Some (tk_Status k)) to actor None now])
    (foutbox d ++ status_row k' to id now created).

Lemma update_body_ok actor oid to o w r w' : update_body actor oid to o w = (inr r, w') →
  w_aborted w' = false ∧ ∃ k, tickets (w_db w) !! oid = Some k ∧
  match r with
  | Leave k' => k' = k ∧ tk_Status k = to
  | Commit k' => ∃ now id hid created, k' = set_ticket to (picked_at to now k) now k ∧
      tk_Status k ≠ to ∧ CanTransition (tk_Status k) to = true ∧ rows_free (status_row k' to id now created) (w_db w) ∧
      w_db w' = updated_db (w_db w) actor oid k to now id hid created
  end.
Proof.
  intros H. unfold update_body in H.
  apply bind_ok in H as (created & w1 & [_ ->]%go_now_ok & H). cbn [w_db] in *.
  apply bind_ok in H as (cur & w2 & H2 & H). apply bind_ok in H2 as (x & w0 & [-> ->]%query_ok & H2). cbn [w_db] in *.
  destruct (tickets (w_db w) !! oid) as [k0|] eqn:Hcur; [|done]. apply ret_ok in H2 as [-> ->].
  case_bool_decide as Hto; [apply ret_ok in H as [-> ->]; eauto|].
  destruct (CanTransition _ _) eqn:Ht; [|done]. cbn [negb] in H.
  apply bind_ok in H as (now & w3 & [_ ->]%go_now_ok & H). cbn [w_db] in *.
  apply bind_ok in H as (upd & w4 & (k & Hk & Hupd & D4)%update_row_ok & H). cbn [w_db] in *. rewrite Hcur in Hk. simplify_eq.
  assert (Hp : match (if bool_decide (to = StatusPickedUp) then Some now else None) with
    Some t => Some t | None => tk_PickedUpAt k end = picked_at to now k).
  { unfold picked_at. by destruct (bool_decide _). }
  rewrite Hp in *. clear Hp.
  apply bind_ok in H as ([] & w5 & H5 & H). pose proof (insert_history_ok _ _ _ _ _ _ _ _ _ _ H5) as (hid & D5).
  apply insert_history_live in H5.
  rewrite D4 in D5. cbn in D5. unfold updated_db. set (k' := set_ticket to (picked_at to now k) now k) in *.
  destruct (status_event k' to now) as [[[key ty] data]|] eqn:Ev.
  - apply bind_ok in H as (env & w6 & H6 & H).
    apply bind_ok in H6 as (id & w7 & [_ ->]%new_uuid_ok & [-> ->]%ret_ok).
    apply bind_ok in H as ([] & w8 & H8 & [-> ->]%ret_ok). pose proof (insertOutbox_ok _ _ _ _ _ _ _ H8) as (D8 & Hrows).
    cbn [w_db fe_ID] in *. split; [by apply stmt_ok in H8 as (_ & _ & ? & _ & ->)|]. exists k. split; [done|].
    assert (Hrow : status_row k' to id now created = [outbox_row id key ty data now created]).
    { unfold status_row. by rewrite Ev. }
    exists now, id, hid, created. fold k'. rewrite Hrow. split_and!; try done.
    + intros r r' Hr Hr'. apply (Hrows r r'); [done|]. by rewrite D5.
    + by rewrite D8, D5.
  - apply ret_ok in H as [-> ->]. split; [done|]. exists k. split; [done|]. exists now, "", hid, created.
    assert (Hrow : status_row k' to "" now created = []). { unfold status_row. by rewrite Ev. }
    fold k'. rewrite Hrow, app_nil_r. split_and!; try done. by intros ? ? ?%not_elem_of_nil.
Qed.

Lemma UpdateStatus_works actor oid to : does work (UpdateStatus actor oid to).
Proof.
  apply does_transaction. intros o w k' w' (_ & k & Hk & now & id & hid & created & -> & _ & Ht & Hr & ->)%update_body_ok.
  apply rtc_once. exact (W_update (w_db w) (ActorIDFromContext actor) oid k to now id hid created Hk Ht Hr).
Qed.

Lemma PurgeExpired_purges now : does purge (PurgeExpired now).
Proof.
  unfold PurgeExpired.
  repeat (apply does_bind; [intros o w; apply does_try; apply (does_pool _ (λ d, (_, _))); intros d; cbn; constructor
                           |intros [|]; [apply does_ret|]]).
  apply does_ret.
Qed.

Lemma publish_rows_work publish now pending o w b w' :
  publish_rows publish now pending o w = (inr (Commit b), w') → rtc work (w_db w) (w_db w').
Proof.
  revert w. induction pending as [|x l IH]; intros w H; cbn in H.
  - by apply ret_ok in H as [_ ->].
  - apply bind_ok in H as (ok & w1 & H1 & H). injection H1 as _ <-. destruct ok.
    + apply bind_ok in H as ([] & w2 & ->%exec_ok & H). apply IH in H. cbn in H.
      eapply rtc_l; [|exact H]. constructor.
    + by apply ret_ok in H as [_ ->].
Qed.

Lemma flush_works locked publish : does work (flush locked publish).
Proof.
  apply does_transaction. intros o w b w' H.
  apply bind_ok in H as (now & w1 & [_ ->]%go_now_ok & H).
  apply bind_ok in H as (pending & w2 & [-> ->]%query_ok & H). by apply publish_rows_work in H.
Qed.
End machine.
