(* ===== verification/FulInv.v ===== *)
(** Fulfillment service: the invariant of the kitchen queue and its
    preservation by every step of the machine of [FulSteps]. *)

From S2P Require Import Prelude Effects GoStd InvModel FulModel FulMessaging FulSteps.

Section invariant.
Context {names : NameUuid}.
Implicit Types (d : FDB) (k : Ticket) (oid : string).

(** ** The audit trail *)

(** The moves a ticket may make; [None] is before it exists. *)
Definition allowed (old : option Status) (new : Status) : bool :=
  match old with
  | None => bool_decide (new = StatusQueued)
  | Some s => CanTransition s new || (IsCancellable s && bool_decide (new = StatusCancelled))
  end.

(** The entries lead from [cur] to [final], each from where the last ended. *)
Fixpoint follows (cur : option Status) (l : list History) (final : Status) : Prop :=
  match l with
  | [] => cur = Some final
  | h :: l => hi_Old h = cur ∧ allowed cur (hi_New h) = true ∧ follows (Some (hi_New h)) l final
  end.

Definition trail (fid : string) d : list History := filter (λ h, hi_FulfillmentID h = fid) (history d).

Lemma follows_snoc cur l s h :
  follows cur l s → hi_Old h = Some s → allowed (Some s) (hi_New h) = true → follows cur (l ++ [h]) (hi_New h).
Proof.
  revert cur. induction l as [|x l IH]; intros cur H Ho Ha; cbn in *; [by subst|].
  destruct H as (? & ? & ?). eauto.
Qed.

(** ** Events *)

Definition event_order (r : FOutbox) : string :=
  match fe_Data (fo_Payload r) with
  | OrderQueuedData oid _ _ _ _ | OrderReadyData oid _ _ _ | OrderPickedUpData oid _ => oid
  end.

Definition n_rows (key oid : string) (l : list FOutbox) : nat :=
  length (filter (λ r, fo_RoutingKey r = key ∧ event_order r = oid) l).

(** The events a ticket has called for so far. *)
Definition due_of (key : string) k : nat :=
  if bool_decide (key = RoutingKeyOrderQueued) then (if bool_decide (is_Some (tk_CustomerID k)) then 1 else 0)%nat
  else if bool_decide (key = RoutingKeyOrderReady) then
    (if bool_decide (tk_Status k = StatusReady ∨ tk_Status k = StatusPickedUp) then 1 else 0)%nat
  else if bool_decide (key = RoutingKeyOrderPickedUp) then
    (if bool_decide (tk_Status k = StatusPickedUp) then 1 else 0)%nat
  else 0%nat.
Definition due (key oid : string) d : nat := from_option (due_of key) 0%nat (tickets d !! oid).

Definition events_match (R : relation nat) d : Prop :=
  ∀ key oid, R (n_rows key oid (foutbox d)) (due key oid d).

Lemma n_rows_app key oid l1 l2 : n_rows key oid (l1 ++ l2) = (n_rows key oid l1 + n_rows key oid l2)%nat.
Proof. unfold n_rows. by rewrite filter_app, length_app. Qed.

Lemma n_rows_one key oid r :
  n_rows key oid [r] = (if bool_decide (fo_RoutingKey r = key ∧ event_order r = oid) then 1 else 0)%nat.
Proof.
  unfold n_rows. rewrite filter_cons, filter_nil. by repeat case_decide; case_bool_decide.
Qed.

Lemma n_rows_map key oid (f : FOutbox → FOutbox) l :
  (∀ r, fo_RoutingKey (f r) = fo_RoutingKey r ∧ event_order (f r) = event_order r) →
  n_rows key oid (f <$> l) = n_rows key oid l.
Proof.
  intros Hf. unfold n_rows. induction l as [|r l IH]; [done|]. rewrite fmap_cons, !filter_cons.
  destruct (Hf r) as [E1 E2]. rewrite E1, E2. by repeat case_decide; cbn; rewrite ?IH.
Qed.

Lemma n_rows_filter key oid (P : FOutbox → Prop) `{!∀ x, Decision (P x)} l :
  (n_rows key oid (filter P l) ≤ n_rows key oid l)%nat.
Proof.
  unfold n_rows. induction l as [|r l IH]; [done|]. rewrite (filter_cons P).
  destruct (decide (P r)); rewrite !filter_cons; repeat case_decide; cbn; lia.
Qed.

(** ** The invariant *)

Definition ticket_ok d oid k : Prop :=
  tk_OrderID k = oid ∧
  tk_QueueNumber k = queue_number (tk_Seq k) ∧
  tk_PickupSlotID k = slot_id (slot_start (tk_PickupAt k)) ∧
  (∃ s, slots d !! slot_start (tk_PickupAt k) = Some s ∧ 1 ≤ tk_Seq k < sl_NextQueue s) ∧
  (is_Some (tk_PickedUpAt k) ↔ tk_Status k = StatusPickedUp) ∧
  follows None (trail (tk_ID k) d) (tk_Status k) ∧
  cancelled_orders d !! oid = None.

Record FInv d : Prop := {
  fv_tickets : ∀ oid k, tickets d !! oid = Some k → ticket_ok d oid k;
  fv_ids : ∀ oid oid' k k', tickets d !! oid = Some k → tickets d !! oid' = Some k' → tk_ID k = tk_ID k' → oid = oid';
  fv_queue : ∀ oid oid' k k', tickets d !! oid = Some k → tickets d !! oid' = Some k' →
    slot_start (tk_PickupAt k) = slot_start (tk_PickupAt k') → tk_Seq k = tk_Seq k' → oid = oid';
  fv_slots : ∀ t s, slots d !! t = Some s → sl_ID s = slot_id t ∧ 2 ≤ sl_NextQueue s ≤ MaxInt32;
  fv_slot_ids : ∀ t t', is_Some (slots d !! t) → is_Some (slots d !! t') → slot_id t = slot_id t' → t = t';
  fv_gapless : ∀ t s n, slots d !! t = Some s → 1 ≤ n < sl_NextQueue s →
    ∃ oid k, tickets d !! oid = Some k ∧ slot_start (tk_PickupAt k) = t ∧ tk_Seq k = n;
  fv_history : ∀ h, h ∈ history d → ∃ oid k, tickets d !! oid = Some k ∧ tk_ID k = hi_FulfillmentID h;
  fv_outbox : NoDup (fo_ID <$> foutbox d)
}.

Lemma empty_fdb_ok : FInv empty_fdb.
Proof.
  split; cbn; try by intros; simplify_map_eq.
  - by intros h ?%not_elem_of_nil.
  - apply NoDup_nil_2.
Qed.

(** Steps that leave tickets, slots and audit trail alone. *)
Lemma FInv_books d d' :
  FInv d → tickets d' = tickets d → slots d' = slots d → history d' = history d →
  (∀ oid, is_Some (tickets d !! oid) → cancelled_orders d' !! oid = None) →
  NoDup (fo_ID <$> foutbox d') → FInv d'.
Proof.
  intros [Ht Hi Hq Hs Hsi Hg Hh Ho] Et Es Eh Hc Hout. split; rewrite ?Et, ?Es, ?Eh; try done.
  intros oid k Hk. destruct (Ht oid k Hk) as (? & ? & ? & ? & ? & ? & ?).
  unfold ticket_ok, trail. rewrite Es, Eh. split_and!; eauto.
Qed.

(** The audit trail of a ticket after an entry has been added. *)
Lemma trail_app fid d h d' : history d' = history d ++ [h] →
  trail fid d' = trail fid d ++ (if bool_decide (hi_FulfillmentID h = fid) then [h] else []).
Proof.
  intros E. unfold trail. rewrite E, filter_app, filter_cons, filter_nil. by case_decide; case_bool_decide.
Qed.

Lemma outbox_app d rows : NoDup (fo_ID <$> foutbox d) → rows_free rows d → (length rows ≤ 1)%nat →
  NoDup (fo_ID <$> (foutbox d ++ rows)).
Proof.
  intros Hn Hf Hl. rewrite fmap_app. apply NoDup_app. split_and!; [done| |].
  - intros id (r' & -> & Hr')%list_elem_of_fmap (r & E & Hr)%list_elem_of_fmap. by apply (Hf r r').
  - destruct rows as [|r [|]]; cbn in *; [apply NoDup_nil_2|apply NoDup_singleton|lia].
Qed.

(** Steps that change the status of one ticket. *)
Lemma FInv_change d oid k s picked t h rows pr :
  FInv d → tickets d !! oid = Some k → allowed (Some (tk_Status k)) s = true →
  hi_Old h = Some (tk_Status k) → hi_New h = s → hi_FulfillmentID h = tk_ID k →
  (is_Some picked ↔ s = StatusPickedUp) → rows_free rows d → (length rows ≤ 1)%nat →
  FInv (MkFDB (<[oid := set_ticket s picked t k]> (tickets d)) (slots d) pr (cancelled_orders d)
    (history d ++ [h]) (foutbox d ++ rows)).
Proof.
  intros [Ht Hi Hq Hs Hsi Hg Hh Ho] Hk Ha Eo <- Ef Hp Hr Hl. set (d' := MkFDB _ _ _ _ _ _).
  assert (Hsame : ∀ oid1 k1, tickets d' !! oid1 = Some k1 → ∃ k0, tickets d !! oid1 = Some k0 ∧
    tk_ID k1 = tk_ID k0 ∧ tk_Seq k1 = tk_Seq k0 ∧ tk_PickupAt k1 = tk_PickupAt k0).
  { intros oid1 k1 H1. cbn in H1. apply lookup_insert_Some in H1 as [[<- <-]|[_ H1]]; eauto. }
  split; try done.
  - intros oid1 k1 H1. cbn in H1. pose proof (λ fid, trail_app fid d h d' eq_refl) as Etr. rewrite Ef in Etr.
    apply lookup_insert_Some in H1 as [[<- <-]|[Hne H1]].
    + destruct (Ht oid k Hk) as (? & ? & ? & ? & ? & Hf & ?).
      unfold ticket_ok. rewrite Etr. cbn. rewrite bool_decide_eq_true_2 by done.
      split_and!; try done; eauto. eapply follows_snoc; eauto.
    + destruct (Ht oid1 k1 H1) as (? & ? & ? & ? & ? & Hf & ?).
      unfold ticket_ok. rewrite Etr. rewrite bool_decide_eq_false_2 by (intros ?; by apply Hne, (Hi oid oid1 k k1)).
      rewrite app_nil_r. done.
  - intros o1 o2 k1 k2 (? & ? & -> & _)%Hsame (? & ? & -> & _)%Hsame. eauto.
  - intros o1 o2 k1 k2 (? & ? & _ & -> & ->)%Hsame (? & ? & _ & -> & ->)%Hsame. eauto.
  - intros t1 s1 n H1 H2. destruct (Hg t1 s1 n H1 H2) as (o1 & k1 & Hk1 & ? & ?). exists o1. cbn.
    destruct (decide (oid = o1)) as [<-|]; [rewrite lookup_insert_eq|rewrite lookup_insert_ne by done; eauto].
    simplify_eq. eauto.
  - intros h1 [Hh1| ->%list_elem_of_singleton]%elem_of_app.
    + destruct (Hh h1 Hh1) as (o1 & k1 & Hk1 & ?). exists o1. cbn.
      destruct (decide (oid = o1)) as [<-|]; [rewrite lookup_insert_eq|rewrite lookup_insert_ne by done; eauto].
      simplify_eq. eauto.
    + exists oid. cbn. rewrite lookup_insert_eq. eauto.
  - by apply outbox_app.
Qed.

(** A new ticket takes the next number of its slot. *)
Lemma FInv_create d e p now fid hid rows :
  let start := slot_start (pd_PickupAt p) in
  let seq := seq_of start d in
  FInv d → cancelled_orders d !! pd_OrderID p = None → tickets d !! pd_OrderID p = None → id_free fid d →
  slot_free start d → seq + 1 ≤ MaxInt32 → rows_free rows d → (length rows ≤ 1)%nat →
  FInv (MkFDB (<[pd_OrderID p := new_ticket fid p seq now]> (tickets d)) (<[start := new_slot start d]> (slots d))
    (<[e := now]> (processed d)) (cancelled_orders d)
    (history d ++ [MkHistory hid fid None StatusQueued None (Some e) now]) (foutbox d ++ rows)).
Proof.
  intros start seq [Ht Hi Hq Hs Hsi Hg Hh Ho] Hc Hnone Hid Hfree Hmax Hr Hl. set (d' := MkFDB _ _ _ _ _ _).
  assert (Hnext : sl_NextQueue (new_slot start d) = seq + 1) by done.
  assert (Hseq : 1 ≤ seq). { subst seq. unfold seq_of. destruct (slots d !! start) eqn:E; cbn; [|lia].
    apply Hs in E. lia. }
  assert (Hslot : ∀ t s, slots d !! t = Some s → ∃ s', slots d' !! t = Some s' ∧ sl_NextQueue s ≤ sl_NextQueue s').
  { intros t s E. cbn. destruct (decide (start = t)) as [<-|]; [|rewrite lookup_insert_ne by done; exists s; by split].
    rewrite lookup_insert_eq. eexists. split; [done|]. rewrite Hnext. subst seq. unfold seq_of. rewrite E. cbn. lia. }
  assert (Hsid : sl_ID (new_slot start d) = slot_id start).
  { cbn. destruct (slots d !! start) eqn:E; cbn; [|done]. by apply Hs in E as [? _]. }
  pose proof (λ f, trail_app f d _ d' eq_refl) as Etr. cbn [hi_FulfillmentID] in Etr.
  split.
  - intros oid k Hk. cbn in Hk. apply lookup_insert_Some in Hk as [[<- <-]|[Hne Hk]].
    + unfold ticket_ok. rewrite Etr. cbn. split_and!; try done.
      * exists (new_slot start d). rewrite lookup_insert_eq. split; [done|]. rewrite Hnext. lia.
      * rewrite bool_decide_eq_true_2 by done. replace (trail fid d) with (@nil History); [done|].
        symmetry. unfold trail. apply filter_none. intros h Hh' <-.
        destruct (Hh h Hh') as (o1 & k1 & Hk1 & E1). by apply (Hid o1 k1).
    + destruct (Ht oid k Hk) as (? & ? & ? & (s & Hs1 & ?) & ? & ? & ?). unfold ticket_ok. rewrite Etr.
      rewrite bool_decide_eq_false_2 by (intros ?; by apply (Hid oid k)). rewrite app_nil_r. split_and!; try done; try lia.
      destruct (Hslot _ _ Hs1) as (s' & ? & ?). exists s'. split; [done|]. lia.
  - intros o1 o2 k1 k2 H1 H2 E. cbn in H1, H2.
    apply lookup_insert_Some in H1 as [[<- <-]|[_ H1]]; apply lookup_insert_Some in H2 as [[<- <-]|[_ H2]]; eauto.
    + by destruct (Hid o2 k2).
    + by destruct (Hid o1 k1).
  - assert (Hlt : ∀ o1 k1, tickets d !! o1 = Some k1 → slot_start (tk_PickupAt k1) = start → tk_Seq k1 < seq).
    { intros o1 k1 (_ & _ & _ & (s & E & ?) & _)%Ht Hst. rewrite Hst in E. subst seq. unfold seq_of. rewrite E. cbn. lia. }
    intros o1 o2 k1 k2 H1 H2 E Es. cbn in H1, H2.
    apply lookup_insert_Some in H1 as [[<- <-]|[_ H1]]; apply lookup_insert_Some in H2 as [[<- <-]|[_ H2]]; eauto.
    + specialize (Hlt _ _ H2 (eq_sym E)). cbn in Es. lia.
    + specialize (Hlt _ _ H1 E). cbn in Es. lia.
  - intros t s E. cbn in E. apply lookup_insert_Some in E as [[<- <-]|[_ E]]; [|eauto].
    split; [done|]. rewrite Hnext. lia.
  - intros t t' [s E] [s' E'] Eid. cbn in E, E'.
    apply lookup_insert_Some in E as [[<- <-]|[_ E]]; apply lookup_insert_Some in E' as [[<- <-]|[_ E']]; [done| | |].
    + destruct (slots d !! start) eqn:Est; [by apply Hsi; eauto|].
      destruct (Hs _ _ E') as [E1 _]. exfalso. apply (Hfree Est t' s' E'). congruence.
    + destruct (slots d !! start) eqn:Est; [by apply Hsi; eauto|].
      destruct (Hs _ _ E) as [E1 _]. exfalso. apply (Hfree Est t s E). congruence.
    + apply Hsi; eauto.
  - intros t s n E Hn. cbn in E. apply lookup_insert_Some in E as [[<- <-]|[Hne E]].
    + rewrite Hnext in Hn. destruct (decide (n = seq)) as [->|].
      * eexists _, _. split; [apply lookup_insert_eq|done].
      * subst seq. unfold seq_of in *. destruct (slots d !! start) as [s|] eqn:Est; cbn in *; [|lia].
        destruct (Hg start s n Est) as (o1 & k1 & Hk1 & ? & ?); [lia|]. exists o1, k1. cbn.
        rewrite lookup_insert_ne by congruence. done.
    + destruct (Hg t s n E Hn) as (o1 & k1 & Hk1 & ? & ?). exists o1, k1. cbn. rewrite lookup_insert_ne by congruence. done.
  - intros h [Hh'| ->%list_elem_of_singleton]%elem_of_app.
    + destruct (Hh h Hh') as (o1 & k1 & Hk1 & ?). exists o1, k1. cbn. rewrite lookup_insert_ne by congruence. done.
    + eexists _, _. split; [apply lookup_insert_eq|done].
  - by apply outbox_app.
Qed.

Lemma queued_row_length p seq id at_ now : (length (queued_row p seq id at_ now) ≤ 1)%nat.
Proof. unfold queued_row. case_match; cbn; lia. Qed.
Lemma status_row_length k to id at_ now : (length (status_row k to id at_ now) ≤ 1)%nat.
Proof. unfold status_row. repeat case_match; cbn; lia. Qed.

Lemma mark_published_ids id now d : fo_ID <$> foutbox (mark_published id now d) = fo_ID <$> foutbox d.
Proof. cbn. rewrite <-list_fmap_compose. apply list_fmap_ext. intros ? r _. cbn. by case_bool_decide. Qed.

Lemma filter_ids (P : FOutbox → Prop) `{!∀ x, Decision (P x)} l : NoDup (fo_ID <$> l) → NoDup (fo_ID <$> filter P l).
Proof. apply NoDup_fmap_filter. Qed.

Lemma tombstone_free d : FInv d → ∀ oid, is_Some (tickets d !! oid) → cancelled_orders d !! oid = None.
Proof. intros Hd oid [k Hk]. by apply (fv_tickets d Hd) in Hk as (_ & _ & _ & _ & _ & _ & ?). Qed.

Lemma work_keeps d d' : FInv d → work d d' → FInv d'.
Proof.
  intros Hd Hw. pose proof (tombstone_free d Hd) as Hfree. pose proof (fv_outbox d Hd) as Hout.
  destruct Hw as [e p now fid hid id at_ start seq rows H1 H2 H3 H4 H5 H6 H7|e oid now|e oid k now hid H1 Hk Hc|
    e oid k now|e oid now H1 H2 H3|actor oid k to now id hid created picked k' rows Hk Ht Hr|id now].
  - apply FInv_create; try done. apply queued_row_length.
  - by apply (FInv_books d).
  - pose proof (fv_tickets d Hd _ _ Hk) as (_ & _ & _ & _ & Hp & _).
    rewrite <-(app_nil_r (foutbox d)). apply FInv_change; try done; cbn.
    + rewrite Hc. by destruct (tk_Status k).
    + rewrite Hp. unfold IsCancellable in Hc. by destruct (tk_Status k).
    + by intros ? ? ?%not_elem_of_nil.
    + lia.
  - by apply (FInv_books d).
  - apply (FInv_books d); try done. intros oid' [k Hk]. cbn. rewrite lookup_insert_ne by congruence. apply Hfree. eauto.
  - pose proof (fv_tickets d Hd _ _ Hk) as (_ & _ & _ & _ & Hp & _). apply FInv_change; try done; cbn.
    + by rewrite Ht.
    + subst picked. case_bool_decide as Hto; [split; eauto|]. rewrite Hp. by destruct (tk_Status k), to.
    + apply status_row_length.
  - apply (FInv_books d); try done. by rewrite mark_published_ids.
Qed.

Lemma purge_keeps d d' : FInv d → purge d d' → FInv d'.
Proof.
  intros Hd Hw. pose proof (tombstone_free d Hd) as Hfree. pose proof (fv_outbox d Hd) as Hout.
  destruct Hw as [c|c|c]; apply (FInv_books d); try done.
  - by apply filter_ids.
  - intros oid Hk. cbn. apply map_lookup_filter_None. left. by apply Hfree.
Qed.

Lemma fsteps_keep d d' : rtc fstep d d' → FInv d → FInv d'.
Proof. induction 1 as [|d1 d2 d3 [Hw|Hp] _ IH]; intros Hd; [done|eauto using work_keeps|eauto using purge_keeps]. Qed.

(** ** Events *)

Lemma due_create d p fid seq now slots' pr hist out key oid id at_ t : tickets d !! pd_OrderID p = None →
  due key oid (MkFDB (<[pd_OrderID p := new_ticket fid p seq now]> (tickets d)) slots' pr (cancelled_orders d) hist out) =
  (due key oid d + n_rows key oid (queued_row p seq id at_ t))%nat.
Proof.
  intros Hnone. unfold due. cbn. destruct (decide (pd_OrderID p = oid)) as [<-|Hne].
  - rewrite lookup_insert_eq, Hnone. cbn. unfold queued_row, due_of. cbn.
    destruct (customer_of p) as [c|]; [rewrite n_rows_one|]; cbn; repeat case_bool_decide; naive_solver.
  - rewrite lookup_insert_ne by done. replace (n_rows _ _ _) with 0%nat; [lia|]. unfold queued_row.
    destruct (customer_of p) as [c|]; [rewrite n_rows_one|done]. cbn. rewrite bool_decide_eq_false_2; naive_solver.
Qed.

Lemma due_update d oid0 k to picked now slots' pr hist out key oid id at_ t :
  FInv d → tickets d !! oid0 = Some k → allowed (Some (tk_Status k)) to = true →
  let k' := set_ticket to picked now k in
  due key oid (MkFDB (<[oid0 := k']> (tickets d)) slots' pr (cancelled_orders d) hist out) =
  (due key oid d + n_rows key oid (status_row k' to id at_ t))%nat.
Proof.
  intros Hd Hk Ha k'. pose proof (fv_tickets d Hd _ _ Hk) as (Eo & _). unfold due. cbn.
  destruct (decide (oid0 = oid)) as [<-|Hne].
  - rewrite lookup_insert_eq, Hk. cbn. unfold status_row, due_of.
    destruct (tk_Status k), to; cbn in Ha; try done; cbn; rewrite ?n_rows_one; unfold event_order; cbn;
      repeat case_bool_decide; repeat case_decide; cbn; naive_solver.
  - rewrite lookup_insert_ne by done. replace (n_rows _ _ _) with 0%nat; [lia|]. unfold status_row.
    destruct to; cbn; try done; unfold event_order; cbn; case_decide; cbn; naive_solver.
Qed.

Lemma work_events R d d' : (∀ n m i, R n m → R (n + i)%nat (m + i)%nat) →
  FInv d → work d d' → events_match R d → events_match R d'.
Proof.
  intros HR Hd Hw He key oid. specialize (He key oid).
  destruct Hw as [e p now fid hid id at_ start seq rows H1 H2 H3 H4 H5 H6 H7|e oid1 now|e oid1 k now hid H1 Hk Hc|
    e oid1 k now|e oid1 now H1 H2 H3|actor oid1 k to now id hid created picked k' rows Hk Ht Hr|id now]; try done.
  - cbn [foutbox]. rewrite n_rows_app. erewrite due_create by done. by apply HR.
  - rewrite (due_update d oid1 k StatusCancelled _ now _ _ _ _ key oid "" 0 0); try done.
    + by rewrite Nat.add_0_r.
    + cbn. rewrite Hc. by destruct (tk_Status k).
  - cbn [foutbox]. rewrite n_rows_app. rewrite (due_update d oid1 k to picked now _ _ _ _ key oid id now created); try done.
    + by apply HR.
    + cbn. by rewrite Ht.
  - cbn [foutbox mark_published set_foutbox]. rewrite n_rows_map; [done|]. intros r. by case_bool_decide.
Qed.

Lemma purge_events d d' : purge d d' → events_match le d → events_match le d'.
Proof.
  intros [c|c|c] He key oid; try apply He. specialize (He key oid). cbn [foutbox set_foutbox].
  etrans; [apply n_rows_filter|done].
Qed.
End invariant.
