(* ===== verification/FulSystem.v ===== *)
(** Fulfillment service: the consumer, the broker's queues and the database as
    one system, with crashes and redeliveries.

    A delivery runs the whole handler; the connection may break before any of
    its calls on the channel, and then the message is delivered again.  A
    parked copy the broker confirms is stored, one it does not confirm may be
    stored or not. *)

From S2P Require Import Prelude Effects GoStd InvModel FulModel FulMessaging FulSteps FulInv.

Section system.
Context {names : NameUuid} {json : Json} {conn : PgConn}.
Implicit Types (d : FDB) (m : Msg) (p : OrderPlacedData).

(** ** What a message says *)

Inductive OrderEvent := Placed (p : OrderPlacedData) | Cancelled (order : string).

Definition meaning (body : Body) : option (string * OrderEvent) :=
  env ← Parse body;
  if bool_decide (ie_Type env = TypeOrderPlaced) then
    p ← ie_Data env ≫= unmarshal_placed;
    if bool_decide (pd_OrderID p = uuid_nil) || is_zero_time (pd_PickupAt p) || bool_decide (pd_Items p = [])
    then None else Some (ie_ID env, Placed p)
  else if bool_decide (ie_Type env = TypeOrderCancelled) then
    c ← ie_Data env ≫= unmarshal_cancelled;
    if bool_decide (cd_OrderID c = uuid_nil) then None else Some (ie_ID env, Cancelled (cd_OrderID c))
  else None.

Abbreviation F := (M FDB FErr).

(** Applying an event: what [Dispatch] calls. *)
Definition apply_event (e : string) (ev : OrderEvent) : F bool :=
  match ev with Placed p => CreateFromOrderPlaced e p | Cancelled oid => CancelByOrder e oid end.

Lemma Dispatch_meaning body :
  match meaning body with
  | Some (e, ev) => Dispatch repository_events body = (r ← try (apply_event e ev); mret (storage r))
  | None => Dispatch repository_events body = mret (false, Some Malformed) ∨
            Dispatch repository_events body = mret (false, None)
  end.
Proof.
  unfold meaning, Dispatch. destruct (Parse body) as [env|]; cbn; [|by left].
  case_bool_decide.
  - destruct (_ ≫= unmarshal_placed) as [p|]; cbn; [|by left]. destruct (_ || _ || _); [by left|done].
  - case_bool_decide; [|by right]. destruct (_ ≫= unmarshal_cancelled) as [c|]; cbn; [|by left].
    case_bool_decide; [by left|done].
Qed.

(** ** The broker *)

Record Broker := MkBroker { bk_ready : list Msg; bk_retry : list Publishing; bk_dlq : list Msg }.

(** What becomes of a delivery after the given calls on the channel: without
    an answer, or with a negative one that asks for it, it is delivered
    again. *)
Fixpoint settle m (stored : bool) (acts : list Action) (b : Broker) : Broker :=
  match acts with
  | [] => MkBroker (bk_ready b ++ [m]) (bk_retry b) (bk_dlq b)
  | Ack :: _ => b
  | Nack true :: _ => MkBroker (bk_ready b ++ [m]) (bk_retry b) (bk_dlq b)
  | Nack false :: _ => MkBroker (bk_ready b) (bk_retry b) (bk_dlq b ++ [m])
  | PublishRetry p :: acts =>
      settle m stored acts
        (if stored then MkBroker (bk_ready b) (bk_retry b ++ [p]) (bk_dlq b) else b)
  end.

(** ** The system *)

(** [sy_arrived] lists the bodies of all messages that ever arrived,
    [sy_cancelled] the orders whose cancellation ever came first. *)
Record Sys := MkSys {
  sy_db : FDB; sy_mq : Broker; sy_arrived : list Body; sy_cancelled : gset string
}.
Definition sys_start : Sys := MkSys empty_fdb (MkBroker [] [] []) [] ∅.

(** Work that does not come from the broker. *)
Inductive Job :=
  | JUpdate (actor : option string) (order : string) (to : Status)
  | JFlush (locked : FOutbox → bool) (publish : nat → FOutbox → bool)
  | JPurge (now : Z).
Definition run_job (j : Job) : F unit :=
  match j with
  | JUpdate actor oid to => _ ← UpdateStatus actor oid to; mret tt
  | JFlush locked publish => _ ← flush locked publish; mret tt
  | JPurge now => _ ← PurgeExpired now; mret tt
  end.

(** Random identifiers are fresh, and a failure of the environment is not a
    unique violation. *)
Definition sane (o : oracle) d : Prop :=
  (∀ n, id_free (or_uuid o n) d) ∧ (∀ n e, or_fault o n = Some e → pg_code e ≠ Some uniqueViolation).

(** [content] tells what the event with a given identifier says: events are
    never sent with the identifier of another event. *)
Context (content : string → option OrderEvent).

Inductive sys_step (s : Sys) : Sys → Prop :=
  | S_arrive m : (∀ e ev, meaning (m_Body m) = Some (e, ev) → content e = Some ev) →
      sys_step s (MkSys (sy_db s) (MkBroker (bk_ready (sy_mq s) ++ [m]) (bk_retry (sy_mq s)) (bk_dlq (sy_mq s)))
        (sy_arrived s ++ [m_Body m]) (sy_cancelled s))
  | S_due l1 c l2 : bk_retry (sy_mq s) = l1 ++ c :: l2 →
      sys_step s (MkSys (sy_db s) (MkBroker (bk_ready (sy_mq s) ++ [pb_Msg c]) (l1 ++ l2) (bk_dlq (sy_mq s)))
        (sy_arrived s) (sy_cancelled s))
  | S_deliver l1 m l2 o n confirmed stored cut r w' : bk_ready (sy_mq s) = l1 ++ m :: l2 →
      sane o (sy_db s) → (confirmed = true → stored = true) →
      handleDelivery repository_events confirmed m o (World (sy_db s) n false []) = (inr r, w') →
      sys_step s (MkSys (w_db w')
        (settle m stored (take cut (default [] r)) (MkBroker (l1 ++ l2) (bk_retry (sy_mq s)) (bk_dlq (sy_mq s))))
        (sy_arrived s) (sy_cancelled s ∪ dom (cancelled_orders (w_db w'))))
  | S_job j o n :
      sys_step s (MkSys (w_db (run_job j o (World (sy_db s) n false [])).2) (sy_mq s) (sy_arrived s) (sy_cancelled s)).

(** ** What applying an event achieves *)

Definition served p d (cancelled : gset string) : Prop :=
  is_Some (tickets d !! pd_OrderID p) ∨ pd_OrderID p ∈ cancelled.

(** With fresh identifiers the insert of a ticket is refused as a duplicate
    only when the order has a ticket: the number of the slot is free. *)
Lemma insert_ticket_fails k start d o w e w' : FInv d → slot_free start d → id_free (tk_ID k) d →
  (∀ n e, or_fault o n = Some e → pg_code e ≠ Some uniqueViolation) →
  tk_PickupSlotID k = slot_id start → tk_Seq k = seq_of start d → w_aborted w = false → tickets (w_db w) = tickets d →
  insert_ticket k o w = (inl (FDbErr e), w') → pg_code e = Some uniqueViolation →
  is_Some (tickets d !! tk_OrderID k).
Proof.
  intros Hd Hfree Hid Hf Hslot Hseq Ha Et H He. unfold insert_ticket, stmt in H. rewrite Ha in H.
  destruct (or_fault o (w_tick w)) as [f|] eqn:Ef.
  { injection H as -> _. by apply (Hf _ _ Ef) in He. }
  assert (Hrows : ∀ k', k' ∈ ticket_rows (w_db w) → ∃ oid, tickets d !! oid = Some k').
  { unfold ticket_rows. rewrite Et. intros k' ([oid k1] & -> & Hk1%elem_of_map_to_list)%list_elem_of_fmap. eauto. }
  destruct (existsb _ _) eqn:E1 in H.
  { exfalso. apply existsb_exists in E1 as (k' & Hk'%list_elem_of_In & Hb). apply bool_decide_eq_true in Hb.
    apply Hrows in Hk' as [oid Hk']. by apply (Hid oid k'). }
  rewrite Et in H. case_bool_decide as E2; [done|].
  destruct (existsb _ _) eqn:E3 in H.
  { exfalso. apply existsb_exists in E3 as (k' & Hk'%list_elem_of_In & Hb). apply bool_decide_eq_true in Hb as [H1 H2].
    apply Hrows in Hk' as [oid Hk']. destruct (fv_tickets _ Hd _ _ Hk') as (_ & _ & Hs1 & (s & Hs & Hlt) & _).
    rewrite Hslot, Hs1 in H1. rewrite Hseq in H2. unfold seq_of in H2. destruct (slots d !! start) as [s'|] eqn:Es.
    - apply (fv_slot_ids _ Hd) in H1; [|eauto..]. rewrite H1 in Hs. simplify_eq/=. lia.
    - destruct (fv_slots _ Hd _ _ Hs) as [Ei _]. apply (Hfree Es _ _ Hs). congruence. }
  destruct (negb _) in H; [|done]. injection H as <- _. done.
Qed.

(** What a committed, or left, transaction has found out about a paid order. *)
Lemma create_body_served e p o w r w' : FInv (w_db w) → sane o (w_db w) → create_body e p o w = (inr r, w') →
  match r with
  | Commit _ => is_Some (tickets (w_db w') !! pd_OrderID p) ∨ is_Some (cancelled_orders (w_db w') !! pd_OrderID p)
  | Leave _ => is_Some (processed (w_db w) !! e) ∨ is_Some (tickets (w_db w) !! pd_OrderID p)
  end.
Proof.
  intros Hd [Hid Hf] H. unfold create_body in H.
  apply bind_ok in H as (now & w1 & [_ ->]%go_now_ok & H).
  apply bind_ok in H as (dup & w2 & (Ha & Ef & d2 & H2 & ->)%stmt_ok & H). cbn [w_db] in *.
  destruct (processed (w_db w) !! e) as [x|] eqn:Ep; simplify_eq/=.
  { apply ret_ok in H as [-> _]. left. eauto. }
  apply bind_ok in H as ([] & w3 & ->%advisory_lock_ok & H). cbn [w_db] in *.
  apply bind_ok in H as (c & w4 & [-> ->]%query_ok & H). cbn in H.
  case_bool_decide as Hc; [apply ret_ok in H as [-> ->]; by right|].
  destruct r as [b|b].
  { apply create_ticket_ok in H as (fid & hid & id & at_ & _ & _ & _ & _ & _ & _ & ->). left. cbn.
    rewrite lookup_insert_eq. eauto. }
  right. unfold create_ticket in H.
  apply bind_ok in H as (seq & w5 & H5 & H). pose proof (next_queue_ok _ _ _ _ _ H5) as (-> & D5 & Hfree & _).
  apply stmt_ok in H5 as (_ & _ & d5 & _ & ->). cbn [w_db] in D5. subst d5.
  apply bind_ok in H as (fid & w6 & [-> ->]%new_uuid_ok & H). cbn [w_db] in *.
  apply bind_ok in H as (ri & w7 & H7%try_ok & H). destruct ri as [[| |er]|[]]; [done|done| |].
  - case_bool_decide as He; [|done].
    by apply (insert_ticket_fails _ (slot_start (pd_PickupAt p)) (w_db w) o _ er _ Hd Hfree) in H7; [apply H7|apply Hid|..].
  - exfalso. apply bind_ok in H as ([] & w8 & _ & H). case_match; [|by apply ret_ok in H as [? _]].
    apply bind_ok in H as (? & ? & _ & H). apply bind_ok in H as (? & ? & _ & H).
    apply bind_ok in H as (? & ? & _ & H). by apply ret_ok in H as [? _].
Qed.

(** Whatever a delivered [order.placed] reports: if it changed the database the
    order has a ticket or was cancelled first, and the same holds if it
    succeeded, unless the event had been seen before. *)
Lemma create_served e p o w r w' : FInv (w_db w) → sane o (w_db w) →
  CreateFromOrderPlaced e p o w = (r, w') →
  is_Some (tickets (w_db w') !! pd_OrderID p) ∨ is_Some (cancelled_orders (w_db w') !! pd_OrderID p) ∨
  (w_db w' = w_db w ∧ ∀ b, r = inr b → is_Some (processed (w_db w) !! e)).
Proof.
  intros Hd Hs H. destruct r as [er|b].
  - apply transaction_cases in H as [->|(a & w1 & H & _ & ->)]; [by right; right|].
    apply create_body_served in H; try done. tauto.
  - apply transaction_ok in H as (w1 & [(H & _ & ->)|(H & ->)]); apply create_body_served in H; try done; [tauto|].
    destruct H; [|tauto]. right; right. split; [done|]. by intros ? [= <-].
Qed.

(** ** Which events are marked, which orders are tombstoned *)

Definition within (X Y : gset string) d : Prop := dom (processed d) ⊆ X ∧ dom (cancelled_orders d) ⊆ Y.

Lemma within_history X Y fid old new actor src t : preserves (within X Y) (insert_history fid old new actor src t).
Proof.
  unfold insert_history. apply preserves_bind; [apply preserves_new_uuid|]. intros id.
  apply preserves_stmt. intros ? d ? d' Hd H. by repeat case_in H.
Qed.
Lemma within_outbox X Y key env now : preserves (within X Y) (insertOutbox key env now).
Proof. apply preserves_stmt. intros ? d ? d' Hd H. by repeat case_in H. Qed.
Lemma within_mark X Y e now : preserves (within (X ∪ {[e]}) Y) (markProcessed e now).
Proof.
  apply preserves_stmt. intros ? d ? d' [H1 H2] H. repeat case_in H; [done|]. split; cbn; [|done].
  rewrite dom_insert_L. set_solver.
Qed.
Lemma within_next_queue X Y i t : preserves (within X Y) (next_queue i t).
Proof. apply preserves_stmt. intros ? d ? d' Hd H. by repeat case_in H. Qed.
Lemma within_insert_ticket X Y k : preserves (within X Y) (insert_ticket k).
Proof. apply preserves_stmt. intros ? d ? d' Hd H. by repeat case_in H. Qed.
Lemma within_cancel_row X Y oid t : preserves (within X Y) (cancel_row oid t).
Proof. apply preserves_stmt. intros ? d ? d' Hd H. by repeat case_in H. Qed.
Lemma within_tombstone X Y e oid t : preserves (within X (Y ∪ {[oid]})) (insert_tombstone e oid t).
Proof.
  apply preserves_exec. intros d [H1 H2]. destruct (_ || _); [done|]. split; cbn; [done|]. rewrite dom_insert_L. set_solver.
Qed.
Lemma within_update_row X Y oid to t1 t2 : preserves (within X Y) (update_row oid to t1 t2).
Proof.
  apply preserves_bind; [|intros []; auto with preserves]. apply preserves_stmt. intros ? d ? d' Hd H. by repeat case_in H.
Qed.
Lemma within_publish_rows X Y publish now l : preserves (within X Y) (publish_rows publish now l).
Proof.
  induction l as [|x l IH]; cbn; [auto with preserves|]. apply preserves_bind; [by intros o w|]. intros [|]; [|auto with preserves].
  apply preserves_bind; [|done]. by apply preserves_exec.
Qed.
Hint Resolve within_history within_outbox within_mark within_next_queue within_insert_ticket within_cancel_row
  within_tombstone within_update_row within_publish_rows : preserves.

Lemma within_event X Y e ev :
  let Y' := match ev with Placed _ => Y | Cancelled oid => Y ∪ {[oid]} end in
  preserves (within (X ∪ {[e]}) Y') (apply_event e ev).
Proof.
  destruct ev as [p|oid]; apply preserves_transaction_body; unfold create_body, create_ticket, cancel_body, tx_now, lockOrder, newEnvelope;
    preserve.
Qed.

Lemma within_job X Y j : preserves (within X Y) (run_job j).
Proof.
  destruct j; apply preserves_bind; auto with preserves.
  - apply preserves_transaction_body. unfold update_body, tx_now, scan_for_update, newEnvelope. preserve.
  - apply preserves_transaction_body. preserve.
  - unfold PurgeExpired. repeat (apply preserves_ignore_try; [apply preserves_pool_stmt|intros [|]; auto with preserves]).
    + by intros ? d ? d' [H1 H2] [= <- <-].
    + intros ? d ? d' [H1 H2] [= <- <-]. split; [|done]. cbn. etrans; [|exact H1]. apply dom_filter_subseteq.
    + intros ? d ? d' [H1 H2] [= <- <-]. split; [done|]. cbn. etrans; [|exact H2]. apply dom_filter_subseteq.
Qed.

(** ** Steps of the database *)

Lemma does_mono {A} (R R' : relation FDB) (m : F A) : (∀ d d', R d d' → R' d d') → does R m → does R' m.
Proof. intros HR Hm o w. eapply rtc_subrel; [|apply Hm]. exact HR. Qed.

Lemma apply_event_works e ev : does work (apply_event e ev).
Proof. destruct ev; [apply CreateFromOrderPlaced_works|apply CancelByOrder_works]. Qed.

Lemma job_steps j : does fstep (run_job j).
Proof.
  destruct j; cbn; (apply does_bind; [|intros; apply does_ret]).
  - eapply does_mono; [|apply UpdateStatus_works]. by left.
  - eapply does_mono; [|apply flush_works]. by left.
  - eapply does_mono; [|apply PurgeExpired_purges]. by right.
Qed.

Lemma fstep_tickets d d' oid : fstep d d' → is_Some (tickets d !! oid) → is_Some (tickets d' !! oid).
Proof. intros [Hw|Hp] H; [destruct Hw|destruct Hp]; cbn; rewrite ?lookup_insert_is_Some'; auto. Qed.

Lemma fsteps_tickets d d' oid : rtc fstep d d' → is_Some (tickets d !! oid) → is_Some (tickets d' !! oid).
Proof. induction 1; eauto using fstep_tickets. Qed.

Lemma works_steps d d' : rtc work d d' → rtc fstep d d'.
Proof. apply rtc_subrel. intros x y. by left. Qed.

(** ** What the handler answers *)

Definition given_up m (confirmed : bool) (r : option (list Action)) : Prop :=
  r = None ∨ r = Some [Nack false] ∨
  ∃ c, m_Body (pb_Msg c) = m_Body m ∧ r = Some [PublishRetry c; if confirmed then Ack else Nack true].

Lemma handleDelivery_ok confirmed m o w r w' :
  handleDelivery repository_events confirmed m o w = (inr r, w') →
  match meaning (m_Body m) with
  | Some (e, ev) => ∃ x, apply_event e ev o w = (x, w') ∧ ((∃ b, x = inr b) ∨ given_up m confirmed r)
  | None => w' = w
  end.
Proof.
  intros H. unfold handleDelivery in H. apply bind_ok in H as (x & w1 & H1 & H).
  pose proof (Dispatch_meaning (m_Body m)) as Hm.
  assert (w' = w1) as ->. { by destruct x as [[|] [er|]]; [destruct (retryPlan _ _) as [[[? ?] [|]]|]|..]; apply ret_ok in H as [_ ->]. }
  destruct (meaning _) as [[e ev]|].
  - rewrite Hm in H1. apply bind_ok in H1 as (y & w2 & H2%try_ok & [-> ->]%ret_ok). exists y. split; [done|].
    destruct y as [er|b]; [right|by eauto]. cbn in H. unfold given_up.
    destruct (retryPlan _ _) as [[[next delay] [|]]|]; apply ret_ok in H as [-> _]; eauto.
    right; right. eexists. by split; [|done].
  - by destruct Hm as [Hm|Hm]; rewrite Hm in H1; apply ret_ok in H1 as [_ ->].
Qed.

(** ** Nothing is lost *)

Definition kept (body : Body) (b : Broker) : Prop :=
  body ∈ (m_Body <$> bk_ready b) ∨ body ∈ ((λ c, m_Body (pb_Msg c)) <$> bk_retry b) ∨ body ∈ (m_Body <$> bk_dlq b).

Lemma kept_ready body b m :
  kept body (MkBroker (bk_ready b ++ [m]) (bk_retry b) (bk_dlq b)) ↔ kept body b ∨ body = m_Body m.
Proof. unfold kept. cbn. rewrite fmap_app, elem_of_app; cbn; rewrite list_elem_of_singleton. tauto. Qed.
Lemma kept_dead body b m :
  kept body (MkBroker (bk_ready b) (bk_retry b) (bk_dlq b ++ [m])) ↔ kept body b ∨ body = m_Body m.
Proof. unfold kept. cbn. rewrite fmap_app, elem_of_app; cbn; rewrite list_elem_of_singleton. tauto. Qed.
Lemma kept_parked body b c :
  kept body (MkBroker (bk_ready b) (bk_retry b ++ [c]) (bk_dlq b)) ↔ kept body b ∨ body = m_Body (pb_Msg c).
Proof. unfold kept. cbn. rewrite fmap_app, elem_of_app; cbn; rewrite list_elem_of_singleton. tauto. Qed.

(** Settling a delivery keeps every other message, and brings no message but
    the delivery itself and its copies. *)
Lemma settle_kept m stored acts b body :
  kept body (settle m stored acts b) → kept body b ∨ body = m_Body m ∨ ∃ c, PublishRetry c ∈ acts ∧ body = m_Body (pb_Msg c).
Proof.
  revert b. induction acts as [|a acts IH]; intros b; cbn; [rewrite kept_ready; tauto|].
  destruct a as [|[|]|c]; [by left|rewrite kept_ready; tauto|rewrite kept_dead; tauto|].
  intros [H|[H|(c' & H1 & H2)]]%IH; [|by eauto|right; right; exists c'; by split; [right|]].
  destruct stored; [|by left]. apply kept_parked in H as [H|H]; [by left|]. right; right. exists c. by split; [left|].
Qed.

Lemma kept_settle m stored acts b body : kept body b → kept body (settle m stored acts b).
Proof.
  revert b. induction acts as [|a acts IH]; intros b Hb; cbn; [apply kept_ready; by left|].
  destruct a as [|[|]|c]; [done|apply kept_ready; by left|apply kept_dead; by left|].
  apply IH. destruct stored; [apply kept_parked; by left|done].
Qed.

(** A delivery that was not applied survives, wherever the connection breaks. *)
Lemma given_up_kept m confirmed stored cut r b : given_up m confirmed r → (confirmed = true → stored = true) →
  kept (m_Body m) (settle m stored (take cut (default [] r)) b).
Proof.
  intros Hr Hc. assert (Hready : ∀ b, kept (m_Body m) (settle m stored [] b)) by (intros; apply kept_ready; by right).
  destruct Hr as [->|[->|(c & Ec & ->)]]; destruct cut as [|[|n]]; cbn; try done;
    try (apply kept_dead; by right); try (apply kept_ready; by right).
  destruct confirmed; cbn; [|apply kept_ready; by right]. rewrite Hc by done. apply kept_parked. by right.
Qed.

Lemma handleDelivery_copies confirmed m o w r w' c :
  handleDelivery repository_events confirmed m o w = (inr r, w') → PublishRetry c ∈ default [] r →
  m_Body (pb_Msg c) = m_Body m.
Proof.
  intros H Hc. unfold handleDelivery in H. apply bind_ok in H as (x & w1 & _ & H).
  destruct x as [[|] [er|]]; [destruct (retryPlan _ _) as [[[? ?] [|]]|]|..]; apply ret_ok in H as [-> _]; cbn in Hc;
    try set_solver. destruct confirmed; set_solver.
Qed.

(** Taking a message off a queue. *)
Lemma kept_taken body b l1 m l2 : bk_ready b = l1 ++ m :: l2 →
  kept body b ↔ kept body (MkBroker (l1 ++ l2) (bk_retry b) (bk_dlq b)) ∨ body = m_Body m.
Proof. intros E. unfold kept. rewrite E. cbn. rewrite !fmap_app, fmap_cons, !elem_of_app, elem_of_cons. tauto. Qed.
Lemma kept_due body b l1 c l2 : bk_retry b = l1 ++ c :: l2 →
  kept body (MkBroker (bk_ready b ++ [pb_Msg c]) (l1 ++ l2) (bk_dlq b)) ↔ kept body b.
Proof.
  intros E. unfold kept. rewrite E. cbn. rewrite !fmap_app. set_solver.
Qed.

(** ** The invariant of the system *)

Record SInv (s : Sys) : Prop := {
  si_db : FInv (sy_db s);
  si_tombs : dom (cancelled_orders (sy_db s)) ⊆ sy_cancelled s;
  si_known : ∀ body, kept body (sy_mq s) → body ∈ sy_arrived s;
  si_content : ∀ body e ev, body ∈ sy_arrived s → meaning body = Some (e, ev) → content e = Some ev;
  si_done : ∀ e p, e ∈ dom (processed (sy_db s)) → content e = Some (Placed p) → served p (sy_db s) (sy_cancelled s);
  si_kept : ∀ body e p, body ∈ sy_arrived s → meaning body = Some (e, Placed p) →
    kept body (sy_mq s) ∨ served p (sy_db s) (sy_cancelled s)
}.

Lemma served_mono p d d' X X' : rtc fstep d d' → X ⊆ X' → served p d X → served p d' X'.
Proof. intros Hd HX [H|H]; [left; by eapply fsteps_tickets|right; set_solver]. Qed.

Lemma start_inv : SInv sys_start.
Proof.
  split; cbn; [apply empty_fdb_ok|set_solver| |set_solver..]. intros body [H|[H|H]]; by apply not_elem_of_nil in H.
Qed.

(** A delivery keeps the books: the event is marked only with its effect. *)
Lemma event_done s e ev o n r w' : SInv s → sane o (sy_db s) → content e = Some ev →
  apply_event e ev o (World (sy_db s) n false []) = (r, w') →
  let cancelled := sy_cancelled s ∪ dom (cancelled_orders (w_db w')) in
  rtc work (sy_db s) (w_db w') ∧
  (∀ e' p, e' ∈ dom (processed (w_db w')) → content e' = Some (Placed p) → served p (w_db w') cancelled) ∧
  (∀ p b, ev = Placed p → r = inr b → served p (w_db w') cancelled).
Proof.
  intros Hs Ho Hc H cancelled. pose proof (apply_event_works e ev o (World (sy_db s) n false [])) as Hw.
  pose proof (within_event (dom (processed (sy_db s))) (dom (cancelled_orders (sy_db s))) e ev o
    (World (sy_db s) n false [])) as Hx. rewrite H in Hw, Hx. cbn in Hw, Hx.
  destruct Hx as [Hx _]. { by split; [set_solver|destruct ev; set_solver]. }
  assert (Hold : ∀ p, served p (sy_db s) (sy_cancelled s) → served p (w_db w') cancelled).
  { intros p. apply served_mono; [by apply works_steps|set_solver]. }
  assert (Hnew : ∀ p, ev = Placed p → served p (w_db w') cancelled ∨
    (w_db w' = sy_db s ∧ ∀ b, r = inr b → is_Some (processed (sy_db s) !! e))).
  { intros p ->. apply create_served in H as [H|[H|H]]; cbn in *; [| |by right|apply Hs|done].
    - left. by left.
    - left. right. apply elem_of_dom in H. set_solver. }
  split_and!; [done| |].
  - intros e' p He' Hp. destruct (decide (e' = e)) as [->|Hne].
    + rewrite Hc in Hp. injection Hp as ->. destruct (Hnew p eq_refl) as [?|[Hd _]]; [done|].
      rewrite Hd in He'. by eapply Hold, (si_done s Hs).
    + eapply Hold, (si_done s Hs); [|done]. set_solver.
  - intros p b -> ->. destruct (Hnew p eq_refl) as [?|[_ Hp]]; [done|].
    eapply Hold, (si_done s Hs); [|done]. by eapply elem_of_dom, Hp.
Qed.

Lemma arrive_inv s m : SInv s → (∀ e ev, meaning (m_Body m) = Some (e, ev) → content e = Some ev) →
  SInv (MkSys (sy_db s) (MkBroker (bk_ready (sy_mq s) ++ [m]) (bk_retry (sy_mq s)) (bk_dlq (sy_mq s)))
    (sy_arrived s ++ [m_Body m]) (sy_cancelled s)).
Proof.
  intros [H1 H2 H3 H4 H5 H6] Hm. split; cbn; try done.
  - intros body [Hb| ->]%kept_ready; set_solver.
  - intros body e ev [Hb|Hb]%elem_of_app Hb2; [by eapply H4|]. apply list_elem_of_singleton in Hb as ->. eauto.
  - intros body e p [Hb|Hb]%elem_of_app Hb2.
    + destruct (H6 body e p Hb Hb2) as [?|?]; [|by right]. left. apply kept_ready. by left.
    + apply list_elem_of_singleton in Hb as ->. left. apply kept_ready. by right.
Qed.

Lemma deliver_inv s l1 m l2 o n confirmed stored cut r w' : SInv s → bk_ready (sy_mq s) = l1 ++ m :: l2 →
  sane o (sy_db s) → (confirmed = true → stored = true) →
  handleDelivery repository_events confirmed m o (World (sy_db s) n false []) = (inr r, w') →
  SInv (MkSys (w_db w')
    (settle m stored (take cut (default [] r)) (MkBroker (l1 ++ l2) (bk_retry (sy_mq s)) (bk_dlq (sy_mq s))))
    (sy_arrived s) (sy_cancelled s ∪ dom (cancelled_orders (w_db w')))).
Proof.
  intros Hs Hq Ho Hcs H. pose proof (λ body, kept_taken body _ _ _ _ Hq) as Hk.
  assert (Hm : m_Body m ∈ sy_arrived s) by (apply (si_known s Hs), Hk; by right).
  assert (Hknown : ∀ body, kept body (settle m stored (take cut (default [] r))
    (MkBroker (l1 ++ l2) (bk_retry (sy_mq s)) (bk_dlq (sy_mq s)))) → body ∈ sy_arrived s).
  { intros body [Hb|[->|(c & Hc & ->)]]%settle_kept; [apply (si_known s Hs), Hk; by left|done|].
    apply subseteq_take in Hc. by erewrite (handleDelivery_copies _ _ _ _ _ _ _ H). }
  pose proof (handleDelivery_ok _ _ _ _ _ _ H) as Hh. destruct (meaning (m_Body m)) as [[e ev]|] eqn:Em.
  - destruct Hh as (x & Hx & Hr). pose proof (si_content s Hs _ _ _ Hm Em) as Hc.
    destruct (event_done s e ev o n x w' Hs Ho Hc Hx) as (Hw & Hdone & Hev).
    split; cbn; [|set_solver|done|apply Hs|done|].
    + eapply fsteps_keep; [by apply works_steps|apply Hs].
    + intros body e' p Hb Hp. destruct (si_kept s Hs body e' p Hb Hp) as [[Hold| ->]%Hk|?].
      * left. by apply kept_settle.
      * rewrite Em in Hp. injection Hp as -> ->. destruct Hr as [[b ->]|Hr]; [right; by eapply Hev|].
        left. by apply given_up_kept with (confirmed := confirmed).
      * right. eapply served_mono; [by apply works_steps| |done]. set_solver.
  - subst w'. cbn. destruct Hs as [H1 H2 H3 H4 H5 H6].
    assert (Hmono : ∀ p, served p (sy_db s) (sy_cancelled s) →
      served p (sy_db s) (sy_cancelled s ∪ dom (cancelled_orders (sy_db s)))).
    { intros p. by apply served_mono; [|set_solver]. }
    split; cbn; [done|set_solver|done|done|by eauto|].
    intros body e p Hb Hp. destruct (H6 body e p Hb Hp) as [[Hold| ->]%Hk|?]; [left; by apply kept_settle|congruence|by eauto].
Qed.

Lemma job_inv s j o n : SInv s →
  SInv (MkSys (w_db (run_job j o (World (sy_db s) n false [])).2) (sy_mq s) (sy_arrived s) (sy_cancelled s)).
Proof.
  intros [H1 H2 H3 H4 H5 H6]. pose proof (job_steps j o (World (sy_db s) n false [])) as Hw.
  pose proof (within_job (dom (processed (sy_db s))) (sy_cancelled s) j o (World (sy_db s) n false [])) as [Hx Hy].
  { by split. }
  cbn [w_db] in Hw. split; cbn; try done.
  - by eapply fsteps_keep.
  - intros e p He Hp. eapply (served_mono p (sy_db s) _ (sy_cancelled s)); [done..|]. eapply H5; [|done]. set_solver.
  - intros body e p Hb Hp. destruct (H6 body e p Hb Hp); [by left|right].
    by eapply (served_mono p (sy_db s) _ (sy_cancelled s)).
Qed.

Lemma broker_step_inv s s' : SInv s → sys_step s s' → SInv s'.
Proof.
  intros Hs [m Hm|l1 c l2 Hq|l1 m l2 o n confirmed stored cut r w' Hq Ho Hcs H|j o n].
  - by apply arrive_inv.
  - destruct Hs as [H1 H2 H3 H4 H5 H6]. split; cbn; try done.
    + intros body. rewrite (kept_due body _ _ _ _ Hq). apply H3.
    + intros body e p Hb Hp. rewrite (kept_due body _ _ _ _ Hq). eauto.
  - by eapply deliver_inv.
  - by apply job_inv.
Qed.

Lemma sys_reachable_inv s : rtc sys_step sys_start s → SInv s.
Proof.
  intros Hr. assert (Hgen : ∀ s0, SInv s0 → rtc sys_step s0 s → SInv s); [|by apply (Hgen sys_start), Hr; apply start_inv].
  clear Hr. induction 2; [done|]. eauto using broker_step_inv.
Qed.
End system.
