(* ===== verification/FulHandler.v ===== *)
(** Fulfillment service: authentication ([internal/middleware/auth.go]), the
    HTTP handlers ([internal/handler/fulfillment_handler.go]) and the routes
    ([internal/router/router.go]).

    The JWT library, the parsing of query times and the JSON body of a request
    are parameters; a response is its status with the value it carries. *)

From S2P Require Import Prelude Effects GoStd InvModel FulModel.

(** ** Authentication *)

Definition RoleCustomer : string := "CUSTOMER".
Definition RoleStaff : string := "STAFF".
Definition RoleManager : string := "MANAGER".

Definition Role_Valid (r : string) : bool :=
  bool_decide (r = RoleCustomer) || bool_decide (r = RoleStaff) || bool_decide (r = RoleManager).

Record Claims := MkClaims {
  cl_Role : string; cl_Subject : string; cl_IssuedAt : option Z; cl_ExpiresAt : option Z
}.

Record Verifier := MkVerifier { vf_secret : string; vf_issuer : string; vf_audience : string }.

(** [jwt.ParseWithClaims] with HS256 as the only method, an issuer, an audience
    and an expiry: the claims of a token it accepts. *)
Class Jwt := ParseWithClaims : string → string → string → string → option Claims.

(** [time.Parse] with the RFC 3339 layouts. *)
Class TimeParse := { parse_rfc3339 : string → option Z; parse_rfc3339_nano : string → option Z }.

(** The values the middleware leaves in the request context. *)
Record ECtx := MkECtx { ec_UserID : option string; ec_Role : option string }.
Definition no_user : ECtx := MkECtx None None.

(** The bodies of the responses. *)
Inductive Resp :=
  | Fail (status : Z) (code message : string)
  | OkTicket (k : Ticket)
  | OkTickets (l : list Ticket)
  | OkHistory (l : list History)
  | OkCapacity (slot_time slot_start slot_end count : Z)
  | Degraded (part : string)
  | OkHealth.
#[global] Instance History_eq_dec : EqDecision History.
Proof. solve_decision. Defined.
#[global] Instance Resp_eq_dec : EqDecision Resp.
Proof. solve_decision. Defined.

Section http.
Context {uuid : UuidLib} {names : NameUuid} {jwt : Jwt} {times : TimeParse}.
Abbreviation F := (M FDB FErr).

Definition Verifier_Parse (v : Verifier) (raw : string) : option Claims :=
  if bool_decide (vf_secret v = "") then None
  else match ParseWithClaims (vf_secret v) (vf_issuer v) (vf_audience v) raw with
  | None => None
  | Some claims =>
      match cl_IssuedAt claims, cl_ExpiresAt claims with
      | Some iat, Some exp =>
          if negb (bool_decide (iat < exp)) then None
          else match uuid_parse (cl_Subject claims) with
          | None => None
          | Some userID =>
              if bool_decide (userID = uuid_nil) || negb (Role_Valid (cl_Role claims)) then None else Some claims
          end
      | _, _ => None
      end
  end.

Definition GetUserID (c : ECtx) : option string :=
  v ← ec_UserID c; id ← uuid_parse v;
  if bool_decide (id = uuid_nil) then None else Some id.

Definition GetUserRole (c : ECtx) : option string :=
  r ← ec_Role c; if Role_Valid r then Some r else None.

Definition failUnauthorized {A} (message : string) (k : Resp → A) : A :=
  k (Fail 401 "UNAUTHORIZED" (if bool_decide (message = "") then "Authentication is required" else message)).
Definition failForbidden {A} (message : string) (k : Resp → A) : A :=
  k (Fail 403 "FORBIDDEN" (if bool_decide (message = "") then "Insufficient permissions" else message)).

(** The claims in the Authorization header, or the message of the refusal. *)
Definition bearer (v : Verifier) (authHeader : string) : string + Claims :=
  match fields authHeader with
  | [scheme; raw] =>
      if equal_fold scheme "Bearer" then
        match Verifier_Parse v raw with
        | Some claims => inr claims
        | None => inl "Invalid or expired access token"%string
        end
      else inl "Invalid Authorization header format"%string
  | _ => inl "Invalid Authorization header format"%string
  end.

Definition RequireRoles (v : Verifier) (authHeader : string) (allowed : list string) (next : ECtx → F Resp) (c : ECtx)
    : F Resp :=
  let check c :=
    match GetUserRole c with
    | None => failUnauthorized "User role is invalid" mret
    | Some role =>
        if bool_decide (role ∈ allowed) then next c
        else failForbidden "You do not have permission to perform this action" mret
    end in
  match ec_UserID c with
  | Some _ => check c
  | None =>
      if bool_decide (authHeader = "") then failUnauthorized "Authorization header is required" mret
      else match bearer v authHeader with
      | inl message => failUnauthorized message mret
      | inr claims => check (MkECtx (Some (cl_Subject claims)) (Some (cl_Role claims)))
      end
  end.

(** ** Handlers *)

Definition internalError : Resp := Fail 500 "INTERNAL_ERROR" "unexpected error".
Definition not_found : Resp := Fail 404 "NOT_FOUND" "fulfillment not found".
Definition bad_order_id : Resp := Fail 400 "VALIDATION_ERROR" "order_id must be a valid UUID".

Definition isStaff (c : ECtx) : bool :=
  match GetUserRole c with
  | Some role => bool_decide (role = RoleStaff) || bool_decide (role = RoleManager)
  | None => false
  end.

(** The five values of [models.Status] and their texts. *)
Definition status_of (s : string) : option Status :=
  if bool_decide (s = "QUEUED") then Some StatusQueued
  else if bool_decide (s = "PREPARING") then Some StatusPreparing
  else if bool_decide (s = "READY_FOR_PICKUP") then Some StatusReady
  else if bool_decide (s = "PICKED_UP") then Some StatusPickedUp
  else if bool_decide (s = "CANCELLED") then Some StatusCancelled
  else None.

Definition Health (db_ok : option bool) (broker_up : option bool) : F Resp :=
  match db_ok, broker_up with
  | Some false, _ => mret (Degraded "database")
  | _, Some false => mret (Degraded "broker")
  | _, _ => mret OkHealth
  end.

(** [None] is an absent parameter, [inl] a malformed one. *)
Definition parseTimeParam (raw : string) : unit + option Z :=
  let raw := trim_space raw in
  if bool_decide (raw = "") then inr None
  else match parse_rfc3339_nano raw with Some t => inr (Some t) | None => inl tt end.

Fixpoint status_filter (parts : list string) : option (list Status) :=
  match parts with
  | [] => Some []
  | part :: parts => s ← status_of (trim_space part); l ← status_filter parts; Some (s :: l)
  end.

(** [strings.Split(raw, ",")]. *)
Fixpoint split_comma (acc : list Z) (l : list Z) : list string :=
  match l with
  | [] => [of_bytes (rev acc)]
  | b :: l => if b =? 44 then of_bytes (rev acc) :: split_comma [] l else split_comma (b :: acc) l
  end.

Definition handle_List (status pickup_from pickup_to : string) : F Resp :=
  match (if bool_decide (status = "") then Some [] else status_filter (split_comma [] (bytes status))) with
  | None => mret (Fail 400 "VALIDATION_ERROR" "invalid status filter")
  | Some statuses =>
      match parseTimeParam pickup_from, parseTimeParam pickup_to with
      | inr from, inr to =>
          if match from, to with Some f, Some t => negb (bool_decide (f < t)) | _, _ => false end
          then mret (Fail 400 "VALIDATION_ERROR" "invalid pickup time filter")
          else
            r ← try (List_ (MkListFilter statuses from to));
            match r with inl _ => mret internalError | inr items => mret (OkTickets items) end
      | _, _ => mret (Fail 400 "VALIDATION_ERROR" "invalid pickup time filter")
      end
  end.

(** Whether a caller may see a ticket. *)
Definition may_see (c : ECtx) (k : Ticket) : bool :=
  isStaff c ||
  match GetUserID c, tk_CustomerID k with
  | Some user, Some owner => bool_decide (owner = user)
  | _, _ => false
  end.

Definition handle_Get (order_id : string) (c : ECtx) : F Resp :=
  match uuid_parse order_id with
  | None => mret bad_order_id
  | Some orderID =>
      r ← try (GetByOrderID orderID);
      match r with
      | inl FNotFound => mret not_found
      | inl _ => mret internalError
      | inr f => if may_see c f then mret (OkTicket f) else mret not_found
      end
  end.

Definition handle_History (order_id : string) : F Resp :=
  match uuid_parse order_id with
  | None => mret bad_order_id
  | Some orderID =>
      r ← try (GetByOrderID orderID);
      match r with
      | inl FNotFound => mret not_found
      | inl _ => mret internalError
      | inr f =>
          h ← try (GetHistory (tk_ID f));
          match h with inl _ => mret internalError | inr items => mret (OkHistory items) end
      end
  end.

(** [body] is the status in the JSON body, [None] when it cannot be bound. *)
Definition handle_UpdateStatus (order_id : string) (body : option string) (c : ECtx) : F Resp :=
  match uuid_parse order_id with
  | None => mret bad_order_id
  | Some orderID =>
      match body with
      | None => mret (Fail 400 "BAD_REQUEST" "invalid request body")
      | Some raw =>
          match status_of raw with
          | Some to =>
              if negb (IsUpdatable to) then mret (Fail 400 "VALIDATION_ERROR" "invalid status")
              else
                r ← try (UpdateStatus (GetUserID c) orderID to);
                match r with
                | inl FNotFound => mret not_found
                | inl FInvalidTransition =>
                    mret (Fail 409 "INVALID_TRANSITION" "status cannot move to the requested value")
                | inl _ => mret internalError
                | inr f => mret (OkTicket f)
                end
          | None => mret (Fail 400 "VALIDATION_ERROR" "invalid status")
          end
      end
  end.

Definition handle_GetSlotCapacity (rawTime : string) : F Resp :=
  if bool_decide (trim_space rawTime = "")
  then mret (Fail 400 "VALIDATION_ERROR" "slot_time query parameter is required")
  else match (match parse_rfc3339 rawTime with Some t => Some t | None => parse_rfc3339_nano rawTime end) with
  | None => mret (Fail 400 "VALIDATION_ERROR" "slot_time must be a valid RFC3339 timestamp")
  | Some slotTime =>
      r ← try (GetSlotCapacity slotTime);
      match r with
      | inl _ => mret internalError
      | inr n =>
          let start := truncate slotTime (15 * minute) in
          mret (OkCapacity slotTime start (start + 15 * minute) n)
      end
  end.

(** ** Routes *)

Inductive HttpRequest :=
  | GetHealth (db_ok broker_up : option bool)
  | GetCapacity (slot_time : string)
  | GetTickets (status pickup_from pickup_to : string)
  | GetTicket (order_id : string)
  | GetTicketHistory (order_id : string)
  | PatchStatus (order_id : string) (body : option string).

Definition router (v : Verifier) (authHeader : string) (q : HttpRequest) : F Resp :=
  let staff := [RoleStaff; RoleManager] in
  match q with
  | GetHealth db_ok broker_up => Health db_ok broker_up
  | GetCapacity slot_time => handle_GetSlotCapacity slot_time
  | GetTickets status from to => RequireRoles v authHeader staff (λ _, handle_List status from to) no_user
  | GetTicket id => RequireRoles v authHeader [RoleCustomer; RoleStaff; RoleManager] (handle_Get id) no_user
  | GetTicketHistory id => RequireRoles v authHeader [RoleManager] (λ _, handle_History id) no_user
  | PatchStatus id body => RequireRoles v authHeader staff (handle_UpdateStatus id body) no_user
  end.
End http.
