(* ===== verification/FulClaims.v ===== *)
(** Fulfillment service: the theorems about the kitchen queue, over all runs of
    its consumer, handlers, relay and retention job. *)

From S2P Require Import Prelude Effects GoStd InvModel FulModel FulMessaging FulSteps FulInv FulSystem FulHandler.

Section kitchen.
Context {uuid : UuidLib} {names : NameUuid} {jwt : Jwt} {times : TimeParse}.
Implicit Types (d : FDB) (k : Ticket) (o : oracle) (w : world FDB).

(** One operation of the service, with any failures on the way. *)
Inductive serve d : FDB → Prop :=
  | V_event e ev o n : serve d (w_db (apply_event e ev o (World d n false [])).2)
  | V_http v auth q o n : serve d (w_db (router v auth q o (World d n false [])).2)
  | V_flush locked publish o n : serve d (w_db (flush locked publish o (World d n false [])).2).
Inductive serve_or_purge d : FDB → Prop :=
  | V_serve d' : serve d d' → serve_or_purge d d'
  | V_purge now o n : serve_or_purge d (w_db (PurgeExpired now o (World d n false [])).2).

(** Handlers that only read. *)
Lemma does_query_then {A} R (m : M FDB FErr A) (f : FErr + A → M FDB FErr Resp) :
  does R m → (∀ r, does R (f r)) → does R (r ← try m; f r).
Proof. intros Hm Hf. apply does_bind; [|done]. intros o w. by apply (does_try (E' := FErr)). Qed.

Lemma GetByOrderID_reads R oid : does R (GetByOrderID oid).
Proof. apply does_bind; [apply does_pool_query|]. intros [k|]; [apply does_ret|by intros o w]. Qed.

Lemma RequireRoles_works R v auth allowed next c :
  (∀ c', does R (next c')) → does R (RequireRoles v auth allowed next c).
Proof. intros Hn. unfold RequireRoles. repeat case_match; by try apply does_ret. Qed.

Lemma router_works v auth q : does work (router v auth q).
Proof.
  destruct q; cbn [router].
  - unfold Health. repeat case_match; apply does_ret.
  - unfold handle_GetSlotCapacity. repeat case_match; try apply does_ret.
    all: apply does_query_then; [apply does_pool_query|intros []; apply does_ret].
  - apply RequireRoles_works. intros _. unfold handle_List. repeat case_match; try apply does_ret.
    all: apply does_query_then; [apply does_pool_query|intros []; apply does_ret].
  - apply RequireRoles_works. intros c. unfold handle_Get. case_match; [|apply does_ret].
    apply does_query_then; [apply GetByOrderID_reads|]. intros [[]|f]; repeat case_match; apply does_ret.
  - apply RequireRoles_works. intros _. unfold handle_History. case_match; [|apply does_ret].
    apply does_query_then; [apply GetByOrderID_reads|]. intros [[]|f]; try apply does_ret.
    apply does_query_then; [apply does_pool_query|intros []; apply does_ret].
  - apply RequireRoles_works. intros c. unfold handle_UpdateStatus. repeat case_match; try apply does_ret.
    apply does_query_then; [apply UpdateStatus_works|]. intros [[]|f]; apply does_ret.
Qed.

Lemma serve_works d d' : serve d d' → rtc work d d'.
Proof.
  intros [e ev o n|v auth q o n|locked publish o n].
  - apply (apply_event_works e ev o (World d n false [])).
  - apply (router_works v auth q o (World d n false [])).
  - apply (flush_works locked publish o (World d n false [])).
Qed.

Lemma serve_or_purge_steps d d' : serve_or_purge d d' → rtc fstep d d'.
Proof.
  intros [d1 H|now o n]; [by apply works_steps, serve_works|].
  eapply rtc_subrel; [|apply (PurgeExpired_purges now o (World d n false []))]. intros x y. by right.
Qed.

Lemma run_steps d d' : rtc serve_or_purge d d' → rtc fstep d d'.
Proof. induction 1; [done|]. etrans; [by apply serve_or_purge_steps|done]. Qed.
Lemma run_works d d' : rtc serve d d' → rtc work d d'.
Proof. induction 1; [done|]. etrans; [by apply serve_works|done]. Qed.

Lemma works_events R d d' : (∀ n m i, R n m → R (n + i)%nat (m + i)%nat) →
  rtc work d d' → FInv d → events_match R d → events_match R d'.
Proof. intros HR. induction 1; [done|]. eauto using work_keeps, work_events. Qed.

Lemma fsteps_events d d' : rtc fstep d d' → FInv d → events_match le d → events_match le d'.
Proof.
  induction 1 as [|d1 d2 d3 [Hw|Hp] _ IH]; intros Hd He; [done|apply IH..].
  - by eapply work_keeps.
  - eapply work_events; [|done..]. intros; lia.
  - by eapply purge_keeps.
  - by eapply purge_events.
Qed.

Lemma empty_events R : R 0%nat 0%nat → events_match R empty_fdb.
Proof. by intros HR key oid. Qed.

(** C15.  The kitchen queue is sound in every reachable database, whatever
    events, requests, relays and purges ran and whatever failed: a ticket per
    order at most, with the number its slot handed out; the numbers of a slot
    are distinct, start at 1 and have no gaps; the audit trail of a ticket
    leads from its creation to its current status in allowed moves only; a
    pick-up time exactly when it was picked up; never a tombstone beside a
    ticket; and never more than one event of a kind for an order, nor one its
    ticket has not called for.  Until the retention job deletes them, the outbox
    rows are exactly the events the tickets call for: one [order_queued] for
    every ticket of a known customer, one [order_ready] for every ticket that
    became ready, and one [order_picked_up] for every ticket that was picked
    up. *)
Theorem kitchen_invariant d : rtc serve_or_purge empty_fdb d →
  FInv d ∧ events_match le d ∧ (rtc serve empty_fdb d → events_match eq d).
Proof.
  intros H%run_steps. split_and!.
  - eapply fsteps_keep; [exact H|apply empty_fdb_ok].
  - eapply fsteps_events; [exact H|apply empty_fdb_ok|]. by apply empty_events.
  - intros Hs%run_works. eapply works_events; [|exact Hs|apply empty_fdb_ok|by apply empty_events]. intros; lia.
Qed.

(** ** The life of a ticket *)

Definition same_ticket k k' : Prop :=
  tk_ID k' = tk_ID k ∧ tk_OrderID k' = tk_OrderID k ∧ tk_CustomerID k' = tk_CustomerID k ∧
  tk_Seq k' = tk_Seq k ∧ tk_QueueNumber k' = tk_QueueNumber k ∧ tk_PickupSlotID k' = tk_PickupSlotID k ∧
  tk_PickupAt k' = tk_PickupAt k ∧ tk_Items k' = tk_Items k ∧ tk_CreatedAt k' = tk_CreatedAt k.

Definition ticket_move (a b : Status) : Prop := allowed (Some a) b = true.

Lemma work_ticket d d' oid k : work d d' → tickets d !! oid = Some k →
  ∃ k', tickets d' !! oid = Some k' ∧ same_ticket k k' ∧ rtc ticket_move (tk_Status k) (tk_Status k').
Proof.
  intros Hw Hk. assert (Hsame : same_ticket k k) by by repeat split.
  assert (Hstay : ∀ k1, k1 = k → ∃ k', Some k1 = Some k' ∧ same_ticket k k' ∧ rtc ticket_move (tk_Status k) (tk_Status k'))
    by (intros ? ->; eauto using rtc_refl).
  destruct Hw as [e p now fid hid id at_ start seq rows H1 H2 H3|e oid1 now|e oid1 k1 now hid H1 Hk1 Hc|
    e oid1 k1 now|e oid1 now|actor oid1 k1 to now id hid created picked k' rows Hk1 Ht Hr|id now]; cbn; rewrite ?Hk; try by apply Hstay.
  - rewrite lookup_insert_ne, Hk by congruence. by apply Hstay.
  - destruct (decide (oid1 = oid)) as [->|]; [|rewrite lookup_insert_ne, Hk by done; by apply Hstay].
    rewrite lookup_insert_eq. simplify_eq. eexists. split_and!; [done|by repeat split|]. apply rtc_once.
    unfold ticket_move. cbn. rewrite Hc. by destruct (tk_Status _).
  - destruct (decide (oid1 = oid)) as [->|]; [|rewrite lookup_insert_ne, Hk by done; by apply Hstay].
    rewrite lookup_insert_eq. simplify_eq. eexists. split_and!; [done|by repeat split|]. apply rtc_once.
    unfold ticket_move. cbn. by rewrite Ht.
Qed.

Lemma fsteps_ticket d d' oid k : rtc fstep d d' → tickets d !! oid = Some k →
  ∃ k', tickets d' !! oid = Some k' ∧ same_ticket k k' ∧ rtc ticket_move (tk_Status k) (tk_Status k').
Proof.
  intros Hs. revert k. induction Hs as [d|d1 d2 d3 Hs _ IH]; intros k Hk.
  - exists k. split_and!; [done|by repeat split|done].
  - assert (∃ k2, tickets d2 !! oid = Some k2 ∧ same_ticket k k2 ∧ rtc ticket_move (tk_Status k) (tk_Status k2))
      as (k2 & Hk2 & Hs2 & Hm2).
    { destruct Hs as [Hw|Hp]; [by eapply work_ticket|]. exists k. destruct Hp; (split; [done|]; split; [by repeat split|done]). }
    destruct (IH k2 Hk2) as (k3 & Hk3 & Hs3 & Hm3). exists k3. split; [done|]. split; [|by etrans].
    unfold same_ticket in *. destruct_and!. split_and!; by etrans.
Qed.

(** A ticket is never deleted, and its number, slot, owner, pick-up time
    and items never change; its status only moves QUEUED, PREPARING,
    READY_FOR_PICKUP, PICKED_UP in this order, or from one of the first two to
    CANCELLED, whatever runs between two moments. *)
Theorem ticket_life d d' oid k : rtc serve_or_purge d d' → tickets d !! oid = Some k →
  ∃ k', tickets d' !! oid = Some k' ∧ same_ticket k k' ∧ rtc ticket_move (tk_Status k) (tk_Status k').
Proof. intros H%run_steps. by apply fsteps_ticket. Qed.

(** ** Cancellation *)

(** The kitchen will not work on the order any more. *)
Definition off_the_queue (oid : string) d : Prop :=
  match tickets d !! oid with
  | Some k => IsCancellable (tk_Status k) = false
  | None => is_Some (cancelled_orders d !! oid)
  end.

Lemma move_off a b : rtc ticket_move a b → IsCancellable a = false → IsCancellable b = false.
Proof. induction 1 as [|a b c Hm _ IH]; intros Ha; [done|]. apply IH. by destruct a, b. Qed.

(** And it will not before [T], though the retention job deletes old tombstones. *)
Definition off_until (T : Z) (oid : string) d : Prop :=
  match tickets d !! oid with
  | Some k => IsCancellable (tk_Status k) = false
  | None => ∃ x, cancelled_orders d !! oid = Some x ∧ T ≤ x.2 + TombstoneRetention
  end.
Lemma off_until_off T oid d : off_until T oid d → off_the_queue oid d.
Proof. unfold off_until, off_the_queue. destruct (tickets d !! oid); [done|]. intros (x & -> & _). eauto. Qed.

Lemma work_off T oid d d' : work d d' → off_until T oid d → off_until T oid d' ∧ (tickets d !! oid = None → tickets d' !! oid = None).
Proof.
  intros Hw. unfold off_until at 1. destruct (tickets d !! oid) as [k|] eqn:Hk.
  - intros Hc. split; [|done]. destruct (work_ticket _ _ _ _ Hw Hk) as (k' & Hk' & _ & Hm). unfold off_until. rewrite Hk'.
    by eapply move_off.
  - intros (x & Hx & HT). unfold off_until.
    destruct Hw as [e p now fid hid id at_ start seq rows H1 H2 H3|e oid1 now|e oid1 k1 now hid H1 Hk1 Hc|
      e oid1 k1 now|e oid1 now|actor oid1 k1 to now id hid created picked k' rows Hk1 Ht Hr|id now]; cbn;
      rewrite ?lookup_insert_ne by congruence; rewrite ?Hk; eauto.
Qed.
Lemma works_off T oid d d' : rtc work d d' → off_until T oid d → off_until T oid d' ∧ (tickets d !! oid = None → tickets d' !! oid = None).
Proof.
  induction 1 as [|d1 d2 d3 Hw _ IH]; [done|]. intros Ho. destruct (work_off T oid d1 d2 Hw Ho) as [H1 H2]. destruct (IH H1) as [H3 H4]. auto.
Qed.

(** Everything the service does, with the retention job up to [T]. *)
Inductive serve_until (T : Z) d : FDB → Prop :=
  | U_serve d' : serve d d' → serve_until T d d'
  | U_purge now o n : now ≤ T → serve_until T d (w_db (PurgeExpired now o (World d n false [])).2).

Lemma purge_off T now oid x : now ≤ T →
  preserves (λ d, tickets d !! oid = x ∧ off_until T oid d) (PurgeExpired now).
Proof.
  intros HT. unfold PurgeExpired.
  assert (∀ A (f : Z → FDB → dberr + (A * FDB)), (∀ t d a d', f t d = inr (a, d') → tickets d' = tickets d ∧
    (∀ y, cancelled_orders d !! oid = Some y → T ≤ y.2 + TombstoneRetention → cancelled_orders d' !! oid = Some y)) →
    preserves (λ d, tickets d !! oid = x ∧ off_until T oid d) (try (pool_stmt f) : M FDB FErr (FErr + A))) as Hst.
  { intros A f Hf. apply preserves_try, preserves_pool_stmt. intros t d a d' [Hx Ho] [E Hc]%Hf. rewrite E. split; [done|].
    unfold off_until in *. rewrite E. destruct (tickets d !! oid); [done|]. destruct Ho as (y & Hy & Hle). eauto. }
  repeat (apply preserves_bind; [apply Hst; intros t d a d' [= <- <-]; cbn; (split; [done|])|intros [|]; [apply preserves_ret|]]); [done..| |apply preserves_ret].
  intros y Hy Hle. apply map_lookup_filter_Some. split; [done|]. cbn. lia.
Qed.
Lemma until_off T oid d d' : rtc (serve_until T) d d' → off_until T oid d → off_until T oid d' ∧ (tickets d !! oid = None → tickets d' !! oid = None).
Proof.
  induction 1 as [|d1 d2 d3 Hs _ IH]; [done|]. intros Ho.
  assert (off_until T oid d2 ∧ (tickets d1 !! oid = None → tickets d2 !! oid = None)) as [H1 H2].
  { destruct Hs as [d2 Hs|now o n HT]; [eapply works_off; [by apply serve_works|done]|].
    destruct (purge_off T now oid (tickets d1 !! oid) HT o (World d1 n false []) (conj eq_refl Ho)) as [Ht Ho']. rewrite Ht. auto. }
  destruct (IH H1) as [H3 H4]. auto.
Qed.

Lemma CancelByOrder_off e oid o w b w' : processed (w_db w) !! e = None →
  CancelByOrder e oid o w = (inr b, w') → off_the_queue oid (w_db w').
Proof.
  intros Hp H. unfold CancelByOrder, cancel_body in H.
  apply transaction_ok in H as (w1 & [(H & _ & ->)|(H & _)]).
  all: apply bind_ok in H as (now & w2 & [_ ->]%go_now_ok & H); cbn [w_db] in *;
    apply bind_ok in H as (dup & w3 & (_ & _ & d3 & H3 & ->)%stmt_ok & H); cbn [w_db] in *; rewrite Hp in H3;
    injection H3 as <- <-; apply bind_ok in H as ([] & w4 & ->%advisory_lock_ok & H); cbn [w_db] in *;
    apply bind_ok in H as (r & w5 & H5%cancel_row_ok & H); cbn [w_db] in *.
  all: destruct r as [[fid old]|]; apply bind_ok in H as ([] & w6 & H6 & H); apply ret_ok in H as [H ->]; try done.
  - destruct H5 as (k & Hk & _ & _ & _ & D5). apply insert_history_ok in H6 as (hid & ->). rewrite D5.
    unfold off_the_queue. cbn. by rewrite lookup_insert_eq.
  - destruct H5 as [D5 Hc]. apply exec_ok in H6 as ->. cbn. rewrite D5. unfold off_the_queue. cbn in *.
    destruct (tickets (w_db w) !! oid) as [k|] eqn:Hk.
    + rewrite bool_decide_eq_true_2 by eauto. cbn. rewrite Hk. by apply Hc.
    + rewrite bool_decide_eq_false_2 by (by intros [? ?]). cbn. case_bool_decide as Ht; cbn; rewrite Hk; [done|].
      rewrite lookup_insert_eq. eauto.
Qed.

(** C16.  A cancellation is final: once the [order.cancelled] of an order has
    been applied without an error, in whichever order it arrived relative to
    [order.placed] and however often either is delivered again, the order never
    has a ticket that the kitchen would still work on, and if it had none then it
    never gets one.  The retention job does not change that for an order that had
    a ticket; an order that had none is protected by its tombstone, which the job
    deletes when it is older than 30 days and not before. *)
Theorem cancel_final e oid o w b w' T d :
  processed (w_db w) !! e = None → CancelByOrder e oid o w = (inr b, w') →
  (∀ x, cancelled_orders (w_db w') !! oid = Some x → T ≤ x.2 + TombstoneRetention) → rtc (serve_until T) (w_db w') d →
  off_the_queue oid d ∧ (tickets (w_db w') !! oid = None → tickets d !! oid = None).
Proof.
  intros Hp H HT Hs. apply CancelByOrder_off in H; [|done].
  assert (off_until T oid (w_db w')) as Ho.
  { unfold off_the_queue, off_until in *. destruct (tickets _ !! oid); [done|]. destruct H as [x Hx]. eauto. }
  destruct (until_off T oid _ _ Hs Ho) as [H1 H2]. split; [by eapply off_until_off|done].
Qed.
End kitchen.
