(* ===== verification/FulAnswers.v ===== *)
(** Fulfillment service: what the single operations answer, and who gets to see
    or change what. *)

From S2P Require Import Prelude Effects GoStd InvModel FulModel FulMessaging FulSteps FulInv FulSystem FulHandler.

Section answers.
Context {uuid : UuidLib} {names : NameUuid} {jwt : Jwt} {times : TimeParse}.
Implicit Types (d : FDB) (k : Ticket) (o : oracle) (w : world FDB).

(** ** Moving a ticket *)

(** The identifiers the oracle hands out are not in use. *)
Definition fresh_ids o d : Prop :=
  ∀ n, (∀ h, h ∈ history d → hi_ID h ≠ or_uuid o n) ∧ (∀ r, r ∈ foutbox d → fo_ID r ≠ or_uuid o n).

Lemma existsb_some {A} (P : A → Prop) `{!∀ x, Decision (P x)} (l : list A) :
  existsb (λ x, bool_decide (P x)) l = true → ∃ x, x ∈ l ∧ P x.
Proof. intros (x & Hx%list_elem_of_In & Hp%bool_decide_eq_true)%existsb_exists. eauto. Qed.

(** A statement the server does not refuse fails only with the environment. *)
Lemma stmt_total_fails {A} (f : Z → FDB → dberr + (A * FDB)) o w e w' :
  w_aborted w = false → (stmt f : M FDB FErr A) o w = (inl e, w') →
  (∀ er, f (or_clock o (w_tick w)) (w_db w) ≠ inl er) → ∃ er, e = FDbErr er ∧ ¬ reliable o.
Proof.
  intros Ha (er & -> & [H|[H|H]])%stmt_fails Hf; [congruence| |by destruct (Hf er)].
  exists er. split; [done|]. intros Ho. by rewrite Ho in H.
Qed.

Lemma scan_fails oid o w e w' : w_aborted w = false → scan_for_update oid o w = (inl e, w') →
  e = FNotFound ∧ tickets (w_db w) !! oid = None ∨ ∃ er, e = FDbErr er ∧ ¬ reliable o.
Proof.
  intros Ha H. apply bind_fails in H as [H|(x & w2 & [-> ->]%query_ok & H)].
  - right. by eapply stmt_total_fails in H.
  - left. destruct (tickets (w_db w) !! oid); [done|]. by injection H as <- _.
Qed.

Lemma update_row_fails oid to picked now k o w e w' : w_aborted w = false → tickets (w_db w) !! oid = Some k →
  update_row oid to picked now o w = (inl e, w') → ∃ er, e = FDbErr er ∧ ¬ reliable o.
Proof.
  intros Ha Hk H. apply bind_fails in H as [H|(x & w4 & (_ & _ & d4 & H4 & ->)%stmt_ok & H)].
  - eapply stmt_total_fails in H; [done|done|]. by rewrite Hk.
  - rewrite Hk in H4. by injection H4 as <- <-.
Qed.

Lemma insert_history_fails fid old new actor src t o w e w' : w_aborted w = false →
  insert_history fid old new actor src t o w = (inl e, w') →
  ∃ er, e = FDbErr er ∧ (reliable o → ∃ h n, h ∈ history (w_db w) ∧ hi_ID h = or_uuid o n).
Proof.
  intros Ha H. apply bind_fails in H as [H|(hid & w5 & [-> ->]%new_uuid_ok & H)]; [done|].
  apply stmt_fails in H as (er & -> & [H|[H|H]]); cbn in H; [congruence| |]; exists er; (split; [done|]); intros Ho.
  - by rewrite Ho in H.
  - repeat case_in H. apply (existsb_some (λ h, hi_ID h = _)) in Heqb as (h & Hh & E). eauto.
Qed.

Lemma insertOutbox_fails key env now o w e w' : w_aborted w = false → insertOutbox key env now o w = (inl e, w') →
  ∃ er, e = FDbErr er ∧ (reliable o → ∃ r, r ∈ foutbox (w_db w) ∧ fo_ID r = fe_ID env).
Proof.
  intros Ha H. apply stmt_fails in H as (er & -> & [H|[H|H]]); cbn in H; [congruence| |]; exists er; (split; [done|]); intros Ho.
  - by rewrite Ho in H.
  - repeat case_in H. by apply (existsb_some (λ r, fo_ID r = _)) in Heqb.
Qed.

Lemma update_body_fails actor oid to o w e w' : w_aborted w = false → update_body actor oid to o w = (inl e, w') →
  match e with
  | FNotFound => tickets (w_db w) !! oid = None
  | FInvalidTransition => ∃ k, tickets (w_db w) !! oid = Some k ∧ tk_Status k ≠ to ∧ CanTransition (tk_Status k) to = false
  | FDbErr _ => ¬ (reliable o ∧ fresh_ids o (w_db w))
  end.
Proof.
  intros Ha H. unfold update_body in H.
  apply bind_fails in H as [H|(created & w1 & [_ ->]%go_now_ok & H)]; [done|].
  apply bind_fails in H as [H|(cur & w2 & H2 & H)].
  { apply scan_fails in H as [[-> H]|(er & -> & Hr)]; [done|by intros [? _]|done]. }
  apply bind_ok in H2 as (x & w0 & [-> ->]%query_ok & H2). cbn [w_db] in *.
  destruct (tickets (w_db w) !! oid) as [k|] eqn:Hk; [|done]. apply ret_ok in H2 as [-> ->].
  case_bool_decide as Hto; [done|]. destruct (CanTransition _ _) eqn:Ht; cbn [negb] in H; [|injection H as <- _; eauto].
  apply bind_fails in H as [H|(now & w3 & [_ ->]%go_now_ok & H)]; [done|].
  apply bind_fails in H as [H|(upd & w4 & H4 & H)].
  { eapply update_row_fails in H as (er & -> & Hr); [by intros [? _]|done..]. }
  pose proof (update_row_ok _ _ _ _ _ _ _ _ H4) as (k0 & _ & _ & D4). apply update_row_live in H4. cbn [w_db] in *.
  apply bind_fails in H as [H|([] & w5 & H5 & H)].
  { apply insert_history_fails in H as (er & -> & Hr); [|done]. intros [(h & n & Hh & E)%Hr Hf].
    rewrite D4 in Hh. by destruct (Hf n) as [Hf1 _]; apply (Hf1 h Hh). }
  pose proof (insert_history_ok _ _ _ _ _ _ _ _ _ _ H5) as (hid & D5). apply insert_history_live in H5.
  destruct (status_event _ _ _) as [[[key ty] data]|]; [|done].
  apply bind_fails in H as [H|(env & w6 & H6 & H)]; [by apply bind_fails in H as [H|(? & ? & _ & H)]|].
  apply bind_ok in H6 as (id & w7 & [-> ->]%new_uuid_ok & [-> ->]%ret_ok).
  apply bind_fails in H as [H|(? & ? & _ & H)]; [|done].
  apply insertOutbox_fails in H as (er & -> & Hr); [|done]. intros [(r & Hr' & E)%Hr Hf]. cbn in Hr'.
  rewrite D5, D4 in Hr'. by destruct (Hf (w_tick w5)) as [_ Hf2]; apply (Hf2 r Hr').
Qed.

(** What a move answers, and what it did. *)
Definition update_answer actor oid to o w (r : FErr + Ticket) w' : Prop :=
  match r with
  | inr k' => ∃ k, tickets (w_db w) !! oid = Some k ∧
      ((tk_Status k = to ∧ k' = k ∧ w_db w' = w_db w) ∨
       (CanTransition (tk_Status k) to = true ∧ ∃ now id hid created,
          k' = set_ticket to (picked_at to now k) now k ∧
          w_db w' = updated_db (w_db w) (ActorIDFromContext actor) oid k to now id hid created))
  | inl FNotFound => tickets (w_db w) !! oid = None ∧ w_db w' = w_db w
  | inl FInvalidTransition => w_db w' = w_db w ∧ ∃ k, tickets (w_db w) !! oid = Some k ∧
      tk_Status k ≠ to ∧ CanTransition (tk_Status k) to = false
  | inl (FDbErr _) => ¬ (reliable o ∧ fresh_ids o (w_db w))
  end.

Lemma UpdateStatus_answer actor oid to o w r w' :
  UpdateStatus actor oid to o w = (r, w') → update_answer actor oid to o w r w'.
Proof.
  intros H. unfold UpdateStatus in H. destruct r as [e|k'].
  - apply transaction_fails in H as [(w1 & H & Hw)|(er & -> & [(n & Hn)|(a & w1 & H & Ha)])].
    + apply update_body_fails in H; [|done]. cbn in H. destruct e; [done|done|done].
    + intros [Ho _]. by rewrite Ho in Hn.
    + apply update_body_ok in H as [Ha' _]. congruence.
  - apply transaction_ok in H as (w1 & [(H & _ & Hw)|(H & Hw)]); apply update_body_ok in H as (_ & k & Hk & H).
    + exists k. split; [done|]. right. destruct H as (now & id & hid & created & -> & _ & Ht & _ & D).
      split; [done|]. exists now, id, hid, created. split; [done|]. by rewrite Hw, D.
    + destruct H as [-> Hs]. exists k. split; [done|]. by left.
Qed.

(** C17.  What staff are told when they move a ticket, on every branch: success
    means the ticket already had that status and nothing changed, or it moved
    one allowed step, with one audit entry for it and exactly the event of the
    new status; NOT_FOUND and INVALID_TRANSITION mean what they say and change
    nothing; and when the database answers and the new identifiers are not in use
    there is no other error. *)
Theorem update_status_answer actor oid to o w :
  let '(r, w') := UpdateStatus actor oid to o w in update_answer actor oid to o w r w'.
Proof. destruct (UpdateStatus actor oid to o w) eqn:H. by apply UpdateStatus_answer. Qed.

(** ** Slots *)

(** The capacity check counts exactly the tickets of the 15-minute window
    the asked time lies in that are still queued, being prepared or waiting for
    pick-up, never more than the window has handed out numbers, and changes
    nothing; the name-based identifier of the window must not collide with the
    one of another stored window. *)
Theorem slot_capacity_exact slotTime o w n w' :
  FInv (w_db w) →
  (∀ t, is_Some (slots (w_db w) !! t) → slot_id t = slot_id (slot_start slotTime) → t = slot_start slotTime) →
  GetSlotCapacity slotTime o w = (inr n, w') →
  w_db w' = w_db w ∧
  n = Z.of_nat (length (filter (λ k, slot_start (tk_PickupAt k) = slot_start slotTime ∧ active (tk_Status k) = true)
                       (ticket_rows (w_db w)))).
Proof.
  intros Hd Hids H. unfold GetSlotCapacity, pool_query, pool_stmt in H. destruct (or_fault _ _); [done|].
  injection H as <- <-. split; [done|]. cbn. f_equal. f_equal. apply filter_ext_in. intros k.
  intros ([oid k1] & -> & Hk%elem_of_map_to_list)%list_elem_of_fmap.
  destruct (fv_tickets _ Hd _ _ Hk) as (_ & _ & Hslot & (s & Hs & _) & _). cbn. rewrite Hslot.
  rewrite andb_true_iff, bool_decide_eq_true. split; [|by intros [-> ?]]. intros [E ?]. split; [|done]. apply Hids; eauto.
Qed.

(** ** Who may do what *)

Definition token (v : Verifier) (auth : string) (P : Claims → Prop) : Prop :=
  ∃ claims, bearer v auth = inr claims ∧ P claims.
Definition staff_role (c : Claims) : Prop := cl_Role c = RoleStaff ∨ cl_Role c = RoleManager.

Definition user_ctx (c : Claims) : ECtx := MkECtx (Some (cl_Subject c)) (Some (cl_Role c)).

Lemma RequireRoles_ok v auth allowed next o w r w' :
  RequireRoles v auth allowed next no_user o w = (r, w') →
  (∃ status code msg, r = inr (Fail status code msg) ∧ w' = w) ∨
  ∃ claims, bearer v auth = inr claims ∧ cl_Role claims ∈ allowed ∧ Role_Valid (cl_Role claims) = true ∧
    next (user_ctx claims) o w = (r, w').
Proof.
  unfold RequireRoles. cbn [ec_UserID no_user]. case_bool_decide; [intros [= <- <-]; left; eauto|].
  destruct (bearer v auth) as [msg|claims] eqn:Eb; [intros [= <- <-]; left; eauto|].
  unfold GetUserRole. cbn. destruct (Role_Valid _) eqn:Ev; cbn; [|intros [= <- <-]; left; eauto].
  case_bool_decide; [right; eauto 10|intros [= <- <-]; left; eauto].
Qed.

Lemma GetByOrderID_run oid o w r w' : GetByOrderID oid o w = (r, w') →
  w_db w' = w_db w ∧ (∀ k, r = inr k → tickets (w_db w) !! oid = Some k).
Proof.
  unfold GetByOrderID, mbind, M_bind, pool_query, pool_stmt. destruct (or_fault _ _); [by intros [= <- <-]|].
  destruct (tickets (w_db w) !! oid) eqn:E; intros [= <- <-]; [|done]. split; [done|]. by intros ? [= <-].
Qed.

(** A read of the repository that the handler answers for. *)
Lemma try_read {A} (m : M FDB FErr A) (f : FErr + A → M FDB FErr Resp) o w r w' :
  does eq m → (r ← try m; f r) o w = (r, w') → ∃ x w1, m o w = (x, w1) ∧ w_db w1 = w_db w ∧ f x o w1 = (r, w').
Proof.
  intros Hm H. unfold mbind, M_bind, try in H. specialize (Hm o w). destruct (m o w) as [x w1] eqn:E. cbn in Hm.
  exists x, w1. split_and!; [done| |done]. clear -Hm. induction Hm; [done|]. by subst.
Qed.

(** What each answer of the service tells about the caller: a change of the
    database or a list of tickets needs a staff token, an audit trail a
    manager's, and a ticket goes to staff or to its own customer. *)
Definition entitled (v : Verifier) (auth : string) (q : HttpRequest) d d' (resp : Resp) : Prop :=
  (d' ≠ d → token v auth staff_role ∧ ∃ id body, q = PatchStatus id body) ∧
  match resp with
  | OkTicket k => (∃ oid, tickets d' !! oid = Some k) ∧
      token v auth (λ c, staff_role c ∨ (tk_CustomerID k = uuid_parse (cl_Subject c) ∧ d' = d))
  | OkTickets _ => token v auth staff_role
  | OkHistory _ => token v auth (λ c, cl_Role c = RoleManager)
  | _ => True
  end.

(** An answer that changes nothing and carries no ticket. *)
Definition plain (resp : Resp) : Prop :=
  match resp with OkTicket _ | OkTickets _ | OkHistory _ => False | _ => True end.
Definition plainly (v : Verifier) (auth : string) (q : HttpRequest) w (x : (FErr + Resp) * world FDB) : Prop :=
  ∃ resp, x.1 = inr resp ∧ entitled v auth q (w_db w) (w_db x.2) resp.

Lemma plain_entitled v auth q w resp w' : w_db w' = w_db w → plain resp → plainly v auth q w (inr resp, w').
Proof. intros E Hp. exists resp. split; [done|]. unfold entitled. cbn. rewrite E. by destruct resp. Qed.

Lemma pool_reads {A} (f : Z → FDB → A) : does eq (pool_query f : M FDB FErr A).
Proof. apply does_pool_query. Qed.
Lemma GetByOrderID_does oid : does eq (GetByOrderID oid).
Proof. intros o w. destruct (GetByOrderID oid o w) as [r w'] eqn:H. cbn. apply GetByOrderID_run in H as [-> _]. done. Qed.

Ltac name_run H :=
  match goal with |- plainly _ _ _ _ ?x => let r := fresh "r" in let w' := fresh "w'" in destruct x as [r w'] eqn:H end.

Lemma capacity_entitled v auth raw o w : plainly v auth (GetCapacity raw) w (handle_GetSlotCapacity raw o w).
Proof.
  unfold handle_GetSlotCapacity. case_bool_decide; [by apply plain_entitled|].
  destruct (match _ with Some t => Some t | None => _ end) as [t|]; [|by apply plain_entitled].
  name_run Hrun. apply try_read in Hrun as (x & w1 & _ & Hw & H'); [|apply pool_reads].
  destruct x; injection H' as <- <-; by apply plain_entitled.
Qed.

Lemma list_entitled v auth q s f t o w : token v auth staff_role → plainly v auth q w (handle_List s f t o w).
Proof.
  intros Ht. unfold handle_List. destruct (if bool_decide _ then _ else _) as [l|]; [|by apply plain_entitled].
  destruct (parseTimeParam f), (parseTimeParam t); try by apply plain_entitled.
  destruct (match _ with Some _ => _ | None => _ end); [by apply plain_entitled|].
  name_run Hrun. apply try_read in Hrun as (x & w1 & _ & Hw & H'); [|apply pool_reads].
  destruct x; injection H' as <- <-; [by apply plain_entitled|].
  eexists. split; [done|]. split; [cbn; congruence|done].
Qed.

Lemma get_entitled v auth q id claims o w : bearer v auth = inr claims → Role_Valid (cl_Role claims) = true →
  plainly v auth q w (handle_Get id (user_ctx claims) o w).
Proof.
  intros Hb Hv. unfold handle_Get. destruct (uuid_parse id) as [oid|]; [|by apply plain_entitled].
  name_run Hrun. apply try_read in Hrun as (x & w1 & Hx & Hw & H'); [|apply GetByOrderID_does].
  apply GetByOrderID_run in Hx as [_ Hk].
  destruct x as [[]|k]; [injection H' as <- <-; by apply plain_entitled..|]. specialize (Hk k eq_refl).
  destruct (may_see _ k) eqn:Hsee; injection H' as <- <-; [|by apply plain_entitled].
  eexists. split; [done|]. split; [cbn; congruence|]. cbn [snd]. rewrite Hw. split; [eauto|]. exists claims. split; [done|].
  unfold may_see, isStaff, GetUserRole, GetUserID in Hsee. cbn in Hsee. rewrite Hv in Hsee. cbn in Hsee.
  apply orb_true_iff in Hsee as [Hs|Hs].
  - left. apply orb_true_iff in Hs as [?%bool_decide_eq_true|?%bool_decide_eq_true]; [by left|by right].
  - right. split; [|done]. destruct (uuid_parse (cl_Subject claims)) as [u|]; cbn in Hs; [|done].
    case_bool_decide; [done|]. destruct (tk_CustomerID k); [|done]. apply bool_decide_eq_true in Hs. by subst.
Qed.

Lemma history_entitled v auth q id o w : token v auth (λ c, cl_Role c = RoleManager) →
  plainly v auth q w (handle_History id o w).
Proof.
  intros Ht. unfold handle_History. destruct (uuid_parse id) as [oid|]; [|by apply plain_entitled].
  name_run Hrun. apply try_read in Hrun as (x & w1 & _ & Hw & H'); [|apply GetByOrderID_does].
  destruct x as [[]|k]; [injection H' as <- <-; by apply plain_entitled..|].
  apply try_read in H' as (y & w2 & _ & Hw2 & H''); [|apply pool_reads]. rewrite Hw in Hw2.
  destruct y; injection H'' as <- <-; [by apply plain_entitled|].
  eexists. split; [done|]. split; [cbn; congruence|done].
Qed.

Lemma patch_entitled v auth id body c o w : token v auth staff_role →
  plainly v auth (PatchStatus id body) w (handle_UpdateStatus id body c o w).
Proof.
  intros Ht. unfold handle_UpdateStatus. destruct (uuid_parse id) as [oid|]; [|by apply plain_entitled].
  destruct body as [raw|]; [|by apply plain_entitled]. destruct (status_of raw) as [to|]; [|by apply plain_entitled].
  destruct (negb _); [by apply plain_entitled|]. name_run Hrun.
  unfold mbind, M_bind, try in Hrun. destruct (UpdateStatus _ _ _ o w) as [x w1] eqn:Hx.
  assert (Hchange : w_db w1 ≠ w_db w → token v auth staff_role ∧ ∃ id0 body, PatchStatus id (Some raw) = PatchStatus id0 body).
  { intros _. split; [done|eauto]. }
  pose proof (UpdateStatus_answer _ _ _ _ _ _ _ Hx) as Ha.
  destruct x as [[]|k]; injection Hrun as <- <-; eexists; (split; [done|]); (split; [done|]); try done.
  cbn. split; [|destruct Ht as (cl & ? & ?); exists cl; auto]. exists oid.
  destruct Ha as (k0 & Hk & [(_ & -> & ->)|(_ & now & i & h & cr & -> & ->)]); [done|]. cbn. by rewrite lookup_insert_eq.
Qed.

(** C19.  Access control: every request is answered; the database changes only
    for a PATCH whose bearer token carries the role STAFF or MANAGER; lists of
    tickets go to these roles, audit trails to managers, and a single stored
    ticket to staff or to a caller whose token names the customer it belongs
    to. *)
Theorem access_control v auth q o w : plainly v auth q w (router v auth q o w).
Proof.
  assert (Hguard : ∀ allowed next, (∀ claims, bearer v auth = inr claims → cl_Role claims ∈ allowed →
    Role_Valid (cl_Role claims) = true → plainly v auth q w (next (user_ctx claims) o w)) →
    plainly v auth q w (RequireRoles v auth allowed next no_user o w)).
  { intros allowed next Hn. name_run Hrun.
    apply RequireRoles_ok in Hrun as [(st & code & msg & -> & ->)|(claims & Hb & Hr & Hv & Hrun)]; [by apply plain_entitled|].
    rewrite <-Hrun. by apply Hn. }
  destruct q as [db br|t|st f t|id|id|id body]; cbn [router].
  - unfold Health. destruct db as [[|]|], br as [[|]|]; by apply plain_entitled.
  - apply capacity_entitled.
  - apply Hguard. intros claims Hb Hr _. apply list_entitled. exists claims. unfold staff_role. set_solver.
  - apply Hguard. intros claims Hb _ Hv. by apply get_entitled.
  - apply Hguard. intros claims Hb Hr _. apply history_entitled. exists claims. set_solver.
  - apply Hguard. intros claims Hb Hr _. apply patch_entitled. exists claims. unfold staff_role. set_solver.
Qed.
End answers.
