(* ===== verification/FulBroker.v ===== *)
(** Fulfillment service: the theorems about its messages: what arrives is never
    lost, how failures are retried, and what the relay publishes. *)

From S2P Require Import Prelude Effects GoStd InvModel FulModel FulMessaging FulSteps FulInv FulSystem.

Section consumer.
Context {names : NameUuid} {json : Json} {conn : PgConn}.

(** C18.  No paid order is lost: at any time, after any number of crashes,
    redeliveries, failed retries and lost confirmations, an [order.placed]
    message that has arrived still lies in the queue, the retry queue or the
    dead-letter queue, or its order has a ticket, or the order's cancellation
    had come first. *)
Theorem order_never_lost content s body e p :
  rtc (sys_step content) sys_start s → body ∈ sy_arrived s → meaning body = Some (e, Placed p) →
  kept body (sy_mq s) ∨ served p (sy_db s) (sy_cancelled s).
Proof. intros Hr. apply (si_kept content s), sys_reachable_inv, Hr. Qed.

(** ** The retry policy *)

(** The delay before retry [n + 1], in milliseconds. *)
Definition backoff_ms (transient : bool) (n : Z) : Z :=
  if transient then Z.min (1000 * 2 ^ n) 60000 else 1000 * 2 ^ n.

Lemma pow2_bound n : 0 ≤ n < 16 → 1 ≤ 2 ^ n ≤ 2 ^ 15.
Proof.
  intros [H1 H2]. split; [|apply Z.pow_le_mono_r; lia].
  change 1 with (2 ^ 0). apply Z.pow_le_mono_r; lia.
Qed.

Lemma shl64_base n : 0 ≤ n < 16 → shl64 baseRetryDelay n = Some (1000000000 * 2 ^ n).
Proof.
  intros Hn. unfold shl64. rewrite bool_decide_eq_false_2 by lia. f_equal. change baseRetryDelay with 1000000000.
  apply wrap64_id. pose proof (pow2_bound n Hn). unfold in64. lia.
Qed.

(** A plan never panics on the counts the service itself writes. *)
Lemma retryPlan_spec headers transient : 0 ≤ retryCount headers < MaxInt64 →
  retryPlan headers transient =
    Some (if negb transient && bool_decide (maxRetries ≤ retryCount headers) then (retryCount headers, 0, true)
          else (retryCount headers + 1,
                if bool_decide (retryCount headers < 16) then 1000000 * backoff_ms transient (retryCount headers)
                else maxTransientDelay, false)).
Proof.
  set (n := retryCount headers). intros Hn. unfold retryPlan. fold n.
  assert (Hw : wrap64 (n + 1) = n + 1) by (apply wrap64_id; unfold in64, MaxInt64 in *; lia).
  rewrite Hw. unfold backoff_ms. destruct transient; cbn [negb andb].
  - case_bool_decide; [|done]. rewrite shl64_base by lia. cbn [mbind option_bind].
    change maxTransientDelay with 60000000000. do 3 f_equal. lia.
  - case_bool_decide as H5; [done|]. change maxRetries with 5 in H5. rewrite shl64_base by lia. cbn [mbind option_bind].
    rewrite bool_decide_eq_true_2 by lia. do 3 f_equal. lia.
Qed.

Definition is_transient (err : DispatchErr) : bool :=
  match err with Storage e => IsTransient e | Malformed => false end.

(** The copy that is parked for a retry. *)
Definition parked_copy (m : Msg) (transient : bool) (c : Publishing) : Prop :=
  let n := retryCount (m_Headers m) in
  m_Body (pb_Msg c) = m_Body m ∧ m_ContentType (pb_Msg c) = m_ContentType m ∧
  retryCount (m_Headers (pb_Msg c)) = n + 1 ∧
  pb_Expiration c = (if bool_decide (n < 16) then backoff_ms transient n else 60000) ∧
  0 < pb_Expiration c ≤ 60000 ∧
  ∀ k v, m_Headers (pb_Msg c) !! k = Some v →
    k = retryCountHeader ∨ (has_prefix "x-" k = false ∧ m_Headers m !! k = Some v).

Lemma retry_headers_spec headers next k v : retry_headers headers next !! k = Some v →
  k = retryCountHeader ∨ (has_prefix "x-" k = false ∧ headers !! k = Some v).
Proof.
  unfold retry_headers. intros [[<- _]|[_ H]]%lookup_insert_Some; [by left|].
  apply map_lookup_filter_Some in H as [? ?]. by right.
Qed.

Lemma retry_headers_count headers next : in32 next → retryCount (retry_headers headers next) = next.
Proof. intros Hn. unfold retryCount, retry_headers. rewrite lookup_insert_eq. by apply wrap32_id. Qed.

(** The retry policy: an applied message, or one that is not for the
    service, is acknowledged; a malformed one goes to the dead-letter queue at
    once, one that keeps failing for another reason than an unavailable
    database after five retries; every other failure parks a copy with the same
    body and the next retry number for a delay that doubles from one second and
    never exceeds a minute, and the original is acknowledged only if the broker
    confirmed the copy, and redelivered otherwise. *)
Theorem retry_policy (h : OrderEvents) confirmed m o w r w' :
  0 ≤ retryCount (m_Headers m) < MaxInt32 → handleDelivery h confirmed m o w = (inr r, w') →
  ∃ retry err, Dispatch h (m_Body m) o w = (inr (retry, err), w') ∧
  match err with
  | None => r = Some [Ack]
  | Some er =>
      if negb retry || (negb (is_transient er) && bool_decide (maxRetries ≤ retryCount (m_Headers m)))
      then r = Some [Nack false]
      else ∃ c, r = Some [PublishRetry c; if confirmed then Ack else Nack true] ∧ parked_copy m (is_transient er) c
  end.
Proof.
  intros Hn H. unfold handleDelivery in H. apply bind_ok in H as ([retry err] & w1 & Hd & H).
  assert (w' = w1) as ->.
  { by destruct retry, err as [er|]; [destruct (retryPlan _ _) as [[[? ?] [|]]|]|..]; apply ret_ok in H as [_ ->]. }
  exists retry, err. split; [done|]. destruct err as [er|]; [|by destruct retry; apply ret_ok in H as [-> _]].
  destruct retry; cbn [negb orb]; [|by apply ret_ok in H as [-> _]]. fold (is_transient er) in H.
  rewrite retryPlan_spec in H by (unfold MaxInt32, MaxInt64 in *; lia).
  set (n := retryCount (m_Headers m)) in *. destruct (_ && _) eqn:Eg; [by apply ret_ok in H as [-> _]|].
  apply ret_ok in H as [-> _]. eexists. split; [done|].
  assert (Hg : is_transient er = true ∨ n < 5).
  { destruct (is_transient er); [by left|right]. cbn in Eg. bool_guards. change maxRetries with 5 in *. lia. }
  clear Eg. assert (Hms : (if bool_decide (n < 16) then 1000000 * backoff_ms (is_transient er) n else maxTransientDelay) / 1000000 =
    (if bool_decide (n < 16) then backoff_ms (is_transient er) n else 60000)).
  { case_bool_decide; [|reflexivity]. rewrite Z.mul_comm. by apply Z_div_mult. }
  unfold parked_copy. cbn [pb_Msg pb_Expiration m_Body m_ContentType m_Headers]. rewrite Hms. fold n.
  split_and!; try done.
  - apply retry_headers_count. unfold in32, MaxInt32 in *. lia.
  - case_bool_decide; [|lia]. unfold backoff_ms. pose proof (pow2_bound n ltac:(lia)). case_match; lia.
  - case_bool_decide; [|lia]. unfold backoff_ms. destruct Hg as [->|Hg]; [lia|]. case_match; [lia|].
    assert (2 ^ n ≤ 2 ^ 4) by (apply Z.pow_le_mono_r; lia). lia.
  - apply retry_headers_spec.
Qed.

(** A negative retry count, which another publisher can put into the header,
    makes the shift of the delay panic. *)
Lemma negative_retry_count_panics transient :
  retryPlan {[retryCountHeader := HInt32 (-1)]} transient = None.
Proof. by destruct transient. Qed.
End consumer.

(** ** The relay *)

Section relay.
Context (locked : FOutbox → bool) (publish : nat → FOutbox → bool).
Implicit Types (d : FDB) (r : FOutbox).

Definition published (now : Z) r : FOutbox :=
  MkFOutbox (fo_ID r) (fo_RoutingKey r) (fo_Payload r) (fo_CreatedAt r) (Some now).

(** A row is as before, or it was waiting and the broker confirmed it. *)
Definition relayed r r' : Prop :=
  r' = r ∨ (fo_PublishedAt r = None ∧ locked r = false ∧ ∃ n now, publish n r = true ∧ r' = published now r).

Definition same_but_outbox d d' : Prop :=
  tickets d' = tickets d ∧ slots d' = slots d ∧ processed d' = processed d ∧
  cancelled_orders d' = cancelled_orders d ∧ history d' = history d.

Lemma relayed_mark d0 d x n now : NoDup (fo_ID <$> foutbox d0) → x ∈ foutbox d0 → fo_PublishedAt x = None →
  locked x = false → publish n x = true → Forall2 relayed (foutbox d0) (foutbox d) →
  Forall2 relayed (foutbox d0) (foutbox (mark_published (fo_ID x) now d)).
Proof.
  intros Hn Hx Hp Hl Hpub HF. cbn. apply Forall2_fmap_r. apply Forall2_same_length_lookup in HF as [Hlen HF].
  apply Forall2_same_length_lookup. split; [done|]. intros i r r' Hr Hr'. specialize (HF i r r' Hr Hr').
  unfold compose. cbn beta. case_bool_decide as E; [|done].
  assert (Eid : fo_ID r' = fo_ID r) by (by destruct HF as [->|(_ & _ & ? & ? & _ & ->)]).
  assert (r = x) as ->.
  { apply list_elem_of_lookup in Hx as [j Hj]. assert (i = j) as ->; [|congruence].
    apply (NoDup_lookup (fo_ID <$> foutbox d0) i j (fo_ID x)); [done| |]; rewrite list_lookup_fmap.
    - rewrite Hr. cbn. congruence.
    - by rewrite Hj. }
  right. split_and!; [done..|]. exists n, now. split; [done|].
  destruct HF as [->|(_ & _ & ? & ? & _ & ->)]; done.
Qed.

Lemma publish_rows_relayed d0 now pending o w b w' : NoDup (fo_ID <$> foutbox d0) →
  (∀ x, x ∈ pending → x ∈ foutbox d0 ∧ fo_PublishedAt x = None ∧ locked x = false) →
  Forall2 relayed (foutbox d0) (foutbox (w_db w)) → same_but_outbox d0 (w_db w) →
  publish_rows publish now pending o w = (inr (Commit b), w') →
  Forall2 relayed (foutbox d0) (foutbox (w_db w')) ∧ same_but_outbox d0 (w_db w').
Proof.
  intros Hn. revert w. induction pending as [|x l IH]; intros w Hp HF Hs H; cbn in H; [by apply ret_ok in H as [_ ->]|].
  apply bind_ok in H as (ok & w1 & H1 & H). injection H1 as Hok <-.
  destruct ok; [|by apply ret_ok in H as [_ ->]].
  apply bind_ok in H as ([] & w2 & ->%exec_ok & H). cbn [w_db] in *.
  destruct (Hp x ltac:(set_solver)) as (? & ? & ?). apply IH in H; [done|set_solver| |done].
  by apply relayed_mark with (n := w_tick w).
Qed.

Lemma pending_rows_waiting d x : x ∈ pending_rows locked d → x ∈ foutbox d ∧ fo_PublishedAt x = None ∧ locked x = false.
Proof.
  intros Hx%subseteq_take. rewrite merge_sort_Permutation in Hx. apply list_elem_of_filter in Hx as [[? ?] ?]. done.
Qed.

Definition stamp (now : Z) (ids : list string) r : FOutbox := if bool_decide (fo_ID r ∈ ids) then published now r else r.

(** With a broker that takes everything the loop reaches the end. *)
Lemma publish_rows_all now pending o w : (∀ n x, publish n x = true) → reliable o → w_aborted w = false →
  ∃ w', publish_rows publish now pending o w = (inr (Commit true), w') ∧ w_aborted w' = false ∧
    foutbox (w_db w') = stamp now (fo_ID <$> pending) <$> foutbox (w_db w).
Proof.
  intros Hpub Ho. revert w. induction pending as [|x l IH]; intros w Ha; cbn.
  - exists w. split_and!; [done..|]. symmetry. apply list_fmap_id.
  - set (w1 := World (mark_published (fo_ID x) now (w_db w)) (S (S (w_tick w))) false (w_locks w)).
    destruct (IH w1 eq_refl) as (w' & H & Ha' & Hout). exists w'. split_and!; [|done|].
    + erewrite bind_run by (unfold Publish; rewrite Hpub; done). cbn.
      erewrite bind_run by (by apply exec_run). done.
    + rewrite Hout. cbn. rewrite <-list_fmap_compose. apply list_fmap_ext. intros _ r _. unfold compose, stamp. cbn.
      repeat case_bool_decide; set_solver.
Qed.

(** The relay delivers at least once and loses nothing: whatever fails, a
    flush removes and reorders no outbox row and touches no other table, and it
    marks a row published only if that row was waiting and the broker confirmed
    it; and when database and broker answer, it marks every row it picked up,
    which are the fifty oldest waiting ones. *)
Theorem relay_at_least_once o w x w' :
  NoDup (fo_ID <$> foutbox (w_db w)) → flush locked publish o w = (x, w') →
  Forall2 relayed (foutbox (w_db w)) (foutbox (w_db w')) ∧ same_but_outbox (w_db w) (w_db w') ∧
  (reliable o → (∀ n x, publish n x = true) → x = inr true ∧
   ∀ r, r ∈ pending_rows locked (w_db w) → ∃ now, published now r ∈ foutbox (w_db w')).
Proof.
  intros Hn H. assert (Hsame : same_but_outbox (w_db w) (w_db w)) by by repeat split.
  assert (Hrefl : Forall2 relayed (foutbox (w_db w)) (foutbox (w_db w))).
  { apply Forall_Forall2_diag, Forall_forall. intros y _. by left. }
  split; [|split].
  1-2: apply transaction_cases in H as [->|(b & w1 & H & _ & ->)]; [done|];
    apply bind_ok in H as (now & w2 & [_ ->]%go_now_ok & H); apply bind_ok in H as (l & w3 & [-> ->]%query_ok & H);
    eapply (publish_rows_relayed (w_db w)) in H as [? ?]; [done|done|apply pending_rows_waiting|done|done].
  intros Ho Hpub. unfold flush in H.
  set (now := or_clock o (S (w_tick w))).
  destruct (publish_rows_all now (pending_rows locked (w_db w)) o (World (w_db w) (S (S (S (w_tick w)))) false []) Hpub Ho eq_refl)
    as (w1 & H1 & Ha & Hout). cbn [w_db] in Hout.
  erewrite (transaction_commit o Ho) in H; [|erewrite bind_run by done; erewrite bind_run by (by apply query_run); exact H1|done].
  injection H as <- <-. split; [done|]. intros y Hx. exists now. cbn. rewrite Hout. apply list_elem_of_fmap. exists y.
  split; [|by apply pending_rows_waiting in Hx as [? _]]. unfold stamp. rewrite bool_decide_eq_true_2; [done|].
  apply list_elem_of_fmap. eauto.
Qed.
End relay.
