(* ===== verification/FulDemo.v ===== *)
(** Fulfillment service: a small run of the whole service, on which the
    hypotheses of its theorems are shown to hold. *)

From stdpp Require Import pretty.
From S2P Require Import Prelude Effects GoStd InvModel InvDemo FulModel FulMessaging FulSteps FulInv FulSystem FulHandler.
From S2P Require Import FulClaims FulAnswers FulBroker.

(** Concrete stand-ins for the libraries: names are concatenated, bodies come
    decoded, and one token is known. *)
#[local] Instance demo_names : NameUuid := λ ns name, (ns +:+ name)%string.
#[local] Instance demo_jwt : Jwt := λ _ _ _ raw,
  if bool_decide (raw = "staff-token") then
    Some (MkClaims RoleStaff "11111111-1111-1111-1111-111111111111" (Some 0) (Some 1))
  else None.
#[local] Instance demo_times : TimeParse := {| parse_rfc3339 := λ _, None; parse_rfc3339_nano := λ _, None |}.
#[local] Instance demo_json : Json := {|
  Body := InEnvelope (OrderPlacedData + OrderCancelledData);
  Data := OrderPlacedData + OrderCancelledData;
  unmarshal_envelope := Some;
  unmarshal_placed := λ d, match d with inl p => Some p | _ => None end;
  unmarshal_cancelled := λ d, match d with inr c => Some c | _ => None end
|}.
#[local] Instance demo_conn : PgConn := {| pg_Timeout := λ _, false; pg_SafeToRetry := λ _, false |}.

Definition kitchen_oracle (fault : nat → option dberr) : oracle :=
  Oracle fault (λ _, false) (λ n, 1700000000 * second + Z.of_nat n) (λ n, ("id-" +:+ pretty n)%string).
Definition calm : oracle := kitchen_oracle (λ _, None).
Definition outage : oracle := kitchen_oracle (λ n, if bool_decide (n = 0%nat) then Some DbConnect else None).

Definition oid1 : string := demo_id 30.
Definition placed1 : OrderPlacedData :=
  MkOrderPlacedData oid1 (demo_id 31) (1700003700 * second) [MkFItem (demo_id 32) "Pistachio" 2].

Definition after {A} (m : M FDB FErr A) (n : nat) (d : FDB) : FDB := w_db (m calm (World d n false [])).2.

Definition staff_patch (s : string) : M FDB FErr Resp :=
  router (MkVerifier "secret" "issuer" "audience") "Bearer staff-token" (PatchStatus oid1 (Some s)).

Definition k_placed : FDB := after (apply_event "event-1" (Placed placed1)) 0 empty_fdb.
Definition k_preparing : FDB := after (staff_patch "PREPARING") 20 k_placed.
Definition k_ready : FDB := after (staff_patch "READY_FOR_PICKUP") 40 k_preparing.
Definition k_purged : FDB := after (PurgeExpired 0) 60 k_ready.
Definition k_tomb : world FDB := (CancelByOrder "event-2" oid1 calm (World empty_fdb 0 false [])).2.
Definition k_late : FDB := after (apply_event "event-1" (Placed placed1)) 20 (w_db k_tomb).

Definition status_at (d : FDB) : option Status := tk_Status <$> tickets d !! oid1.
Example demo_kitchen : status_at k_placed = Some StatusQueued ∧ status_at k_preparing = Some StatusPreparing ∧
  status_at k_ready = Some StatusReady ∧ status_at k_late = None.
Proof. vm_compute. repeat split. Qed.

Lemma run_to_ready : rtc serve empty_fdb k_ready.
Proof.
  eapply rtc_l; [exact (V_event empty_fdb "event-1" (Placed placed1) calm 0)|].
  eapply rtc_l; [exact (V_http k_placed (MkVerifier "secret" "issuer" "audience") "Bearer staff-token"
    (PatchStatus oid1 (Some "PREPARING")) calm 20)|].
  apply rtc_once. exact (V_http k_preparing (MkVerifier "secret" "issuer" "audience") "Bearer staff-token"
    (PatchStatus oid1 (Some "READY_FOR_PICKUP")) calm 40).
Qed.
Lemma run_to_purged : rtc serve_or_purge empty_fdb k_purged.
Proof.
  eapply rtc_r; [|exact (V_purge k_ready 0 calm 60)]. eapply rtc_subrel; [|exact run_to_ready]. apply V_serve.
Qed.

Lemma kitchen_invariant_witness :
  (status_at k_purged = Some StatusReady ∧ FInv k_purged ∧ events_match le k_purged) ∧
  n_rows RoutingKeyOrderReady oid1 (foutbox k_ready) = due RoutingKeyOrderReady oid1 k_ready ∧
  due RoutingKeyOrderReady oid1 k_ready = 1%nat.
Proof.
  split.
  - split; [vm_compute; reflexivity|]. destruct (kitchen_invariant k_purged run_to_purged) as (H1 & H2 & _). split; [exact H1|exact H2].
  - split; [|vm_compute; reflexivity]. refine (proj2 (proj2 (kitchen_invariant k_ready _)) run_to_ready _ _).
    eapply rtc_subrel; [|exact run_to_ready]. apply V_serve.
Defined.

Lemma ticket_life_witness : ∃ k k', tickets k_placed !! oid1 = Some k ∧ tickets k_preparing !! oid1 = Some k' ∧
  same_ticket k k' ∧ rtc ticket_move (tk_Status k) (tk_Status k').
Proof.
  destruct (tickets k_placed !! oid1) as [k|] eqn:Hk; [|vm_compute in Hk; discriminate].
  destruct (ticket_life k_placed k_preparing oid1 k) as (k' & H); [|exact Hk|eauto].
  apply rtc_once, V_serve. exact (V_http k_placed (MkVerifier "secret" "issuer" "audience") "Bearer staff-token"
    (PatchStatus oid1 (Some "PREPARING")) calm 20).
Defined.

(** 29 days later the retention job has run. *)
Definition month_later : Z := 1700000000 * second + 29 * 24 * hour.
Definition k_month : FDB := w_db (PurgeExpired month_later calm (World (w_db k_tomb) 10 false [])).2.
Definition k_after : FDB := after (apply_event "event-1" (Placed placed1)) 20 k_month.

Lemma cancel_final_witness : off_the_queue oid1 k_after ∧ tickets k_after !! oid1 = None.
Proof.
  destruct (cancel_final "event-2" oid1 calm (World empty_fdb 0 false []) false k_tomb month_later k_after) as [H1 H2].
  - reflexivity.
  - apply run_pair. vm_compute. reflexivity.
  - intros x Hx. vm_compute in Hx. injection Hx as <-. vm_compute. discriminate.
  - eapply rtc_l; [apply (U_purge _ _ month_later calm 10); reflexivity|]. apply rtc_once, U_serve.
    exact (V_event k_month "event-1" (Placed placed1) calm 20).
  - split; [exact H1|]. apply H2. vm_compute. reflexivity.
Defined.

(** ** Messages *)

Definition body1 : InEnvelope (OrderPlacedData + OrderCancelledData) :=
  MkInEnvelope "1.0" "event-1" TypeOrderPlaced (Some (inl placed1)).
Definition msg1 : Msg := MkMsg ∅ "application/json" body1.
Definition content1 (e : string) : option OrderEvent := if bool_decide (e = "event-1") then Some (Placed placed1) else None.

Definition s_arrived : Sys := MkSys empty_fdb (MkBroker [msg1] [] []) [body1] ∅.
Definition w_outage : world FDB := (handleDelivery repository_events true msg1 outage (World empty_fdb 0 false [])).2.
Definition acts_outage : option (list Action) :=
  match (handleDelivery repository_events true msg1 outage (World empty_fdb 0 false [])).1 with inr r => r | inl _ => None end.
Definition s_retry : Sys := MkSys (w_db w_outage) (settle msg1 true (take 1 (default [] acts_outage)) (MkBroker [] [] []))
  [body1] (∅ ∪ dom (cancelled_orders (w_db w_outage))).

(** The database is down, the copy is parked, and the connection breaks before
    the original is acknowledged. *)
Lemma order_never_lost_witness :
  kept body1 (sy_mq s_retry) ∨ served placed1 (sy_db s_retry) (sy_cancelled s_retry).
Proof.
  apply (order_never_lost content1 s_retry body1 "event-1" placed1).
  - eapply rtc_l; [apply (S_arrive content1 sys_start msg1)|].
    { intros e ev [= <- <-]. vm_compute. reflexivity. }
    apply rtc_once. apply (S_deliver content1 s_arrived [] msg1 [] outage 0 true true 1 acts_outage w_outage).
    + reflexivity.
    + split; [intros n oid k Hk; discriminate Hk|]. intros n e He. cbn in He. case_bool_decide; by simplify_eq.
    + reflexivity.
    + apply run_pair. vm_compute. reflexivity.
  - by left.
  - vm_compute. reflexivity.
Defined.

Lemma retry_policy_witness : ∃ retry err, Dispatch repository_events body1 outage (World empty_fdb 0 false []) =
  (inr (retry, err), w_outage) ∧ ∃ c, acts_outage = Some [PublishRetry c; Ack] ∧ pb_Expiration c = 1000.
Proof.
  destruct (retry_policy repository_events true msg1 outage (World empty_fdb 0 false []) acts_outage w_outage)
    as (retry & err & H & _).
  - vm_compute. split; [discriminate|reflexivity].
  - apply run_pair. vm_compute. reflexivity.
  - exists retry, err. split; [exact H|]. eexists. split; [vm_compute; reflexivity|reflexivity].
Defined.

Definition w_ready : world FDB := World k_ready 60 false [].
Lemma relay_at_least_once_witness :
  (flush (λ _, false) (λ _ _, true) calm w_ready).1 = inr true ∧
  ∀ r, r ∈ pending_rows (λ _, false) (w_db w_ready) →
    ∃ now, published now r ∈ foutbox (w_db (flush (λ _, false) (λ _ _, true) calm w_ready).2).
Proof.
  assert (Hn : NoDup (fo_ID <$> foutbox (w_db w_ready))). { apply (bool_decide_unpack _). vm_compute. exact I. }
  destruct (relay_at_least_once (λ _, false) (λ _ _, true) calm w_ready _ _ Hn (surjective_pairing _)) as (_ & _ & H).
  exact (H (λ _, eq_refl) (λ _ _, eq_refl)).
Defined.

Definition at_slot : Z := 1700003700 * second.
Lemma slots_of_w_ready : slots (w_db w_ready) = {[slot_start at_slot := MkSlot (slot_id (slot_start at_slot)) 2]}.
Proof. vm_compute. reflexivity. Qed.
Lemma w_ready_ok : FInv (w_db w_ready).
Proof. apply (fsteps_keep empty_fdb); [|apply empty_fdb_ok]. apply works_steps, run_works, run_to_ready. Qed.

Lemma slot_capacity_exact_witness :
  w_db (GetSlotCapacity at_slot calm w_ready).2 = w_db w_ready ∧
  1 = Z.of_nat (length (filter (λ k, slot_start (tk_PickupAt k) = slot_start at_slot ∧ active (tk_Status k) = true)
    (ticket_rows (w_db w_ready)))).
Proof.
  apply (slot_capacity_exact at_slot calm w_ready 1 (GetSlotCapacity at_slot calm w_ready).2 w_ready_ok).
  - intros t Ht _. rewrite slots_of_w_ready in Ht. by apply lookup_singleton_is_Some in Ht.
  - apply run_pair. vm_compute. reflexivity.
Defined.
