(* ===== verification/NotModel.v ===== *)
(** Notification service: the replay buffer ([internal/stream/replay_buffer.go]),
    the hub of live connections ([internal/hub/hub.go]) and the two bounded
    memories ([internal/notify/state.go]).

    The state of this service is in memory and guarded by mutexes, so every
    operation is a function on it; the clock is an argument. *)

From S2P Require Import Prelude GoStd InvModel.

(** ** Notifications *)

Inductive NData :=
  | DQueued (order queue : string) (pickup : Z) (slot : string)
  | DReady (order queue slot : string)
  | DCancelled (order reason : string)
  | DLowStock (batch flavor : string) (remaining threshold : Z)
  | DExpiring (batch flavor : string) (expires : Z).

Record Notification := MkNotification {
  nt_ID : string; nt_Type : string; nt_Message : string; nt_OccurredAt : Z; nt_Data : NData
}.

(** [t.Sub(u)]: the difference saturates at the largest duration. *)
Definition time_Sub (t u : Z) : Z := Z.max (- 2^63) (Z.min MaxInt64 (t - u)).

(** ** The ring buffer of one customer or role *)

Record bufferedItem := MkItemAt { bi_notification : Notification; bi_addedAt : Z }.

Record ring := MkRing { rb_items : list bufferedItem; rb_head : nat; rb_cap : nat }.

Definition DefaultMaxEventsPerCustomer : Z := 500.
Definition DefaultTTL : Z := 5 * minute.

Definition newCustomerRingBuffer (capacity : Z) : ring :=
  MkRing [] 0 (Z.to_nat (if bool_decide (capacity ≤ 0) then DefaultMaxEventsPerCustomer else capacity)).

Definition rb_add (n : Notification) (now : Z) (rb : ring) : ring :=
  let it := MkItemAt n now in
  if bool_decide (length (rb_items rb) < rb_cap rb)%nat then MkRing (rb_items rb ++ [it]) (rb_head rb) (rb_cap rb)
  else MkRing (<[rb_head rb := it]> (rb_items rb)) ((rb_head rb + 1) mod rb_cap rb)%nat (rb_cap rb).

(** The i-th item, oldest first; [None] would be an index out of range. *)
Definition rb_at (rb : ring) (i : nat) : option bufferedItem :=
  rb_items rb !! ((rb_head rb + i) mod length (rb_items rb))%nat.

Definition rb_contains (id : string) (rb : ring) : bool :=
  existsb (λ it, bool_decide (nt_ID (bi_notification it) = id)) (rb_items rb).

Definition fresh_at (now ttl : Z) (it : bufferedItem) : bool := negb (bool_decide (time_Sub now (bi_addedAt it) > ttl)).

(** The loop over the indices [i], [i + 1], ... of the buffer. *)
Fixpoint valid_loop (now ttl : Z) (rb : ring) (i todo : nat) : list bufferedItem :=
  match todo with
  | O => []
  | S todo =>
      match rb_at rb i with
      | Some it => (if fresh_at now ttl it then [it] else []) ++ valid_loop now ttl rb (S i) todo
      | None => valid_loop now ttl rb (S i) todo
      end
  end.
Definition rb_valid (now ttl : Z) (rb : ring) : list bufferedItem := valid_loop now ttl rb 0 (length (rb_items rb)).

Definition rb_hasValid (now ttl : Z) (rb : ring) : bool :=
  existsb (λ it, bool_decide (time_Sub now (bi_addedAt it) ≤ ttl)) (rb_items rb).

(** ** The replay buffer *)

Record ReplayBuffer := MkReplayBuffer {
  rp_customers : gmap string ring; rp_roles : gmap string ring; rp_maxEvents : Z; rp_ttl : Z
}.

Definition newReplayBuffer (maxEvents ttl : Z) : ReplayBuffer :=
  MkReplayBuffer ∅ ∅ (if bool_decide (maxEvents ≤ 0) then DefaultMaxEventsPerCustomer else maxEvents)
    (if bool_decide (ttl ≤ 0) then DefaultTTL else ttl).

(** Adding to the ring of one key, which is made when it is first needed. *)
Definition add_unique (max : Z) (key : string) (n : Notification) (now : Z) (m : gmap string ring) : gmap string ring :=
  let rb := default (newCustomerRingBuffer max) (m !! key) in
  <[key := if rb_contains (nt_ID n) rb then rb else rb_add n now rb]> m.

Definition Add (customerID : string) (n : Notification) (now : Z) (b : ReplayBuffer) : ReplayBuffer :=
  if bool_decide (customerID = uuid_nil) || bool_decide (nt_ID n = uuid_nil) then b
  else MkReplayBuffer (add_unique (rp_maxEvents b) customerID n now (rp_customers b)) (rp_roles b)
         (rp_maxEvents b) (rp_ttl b).

(** Each role reads the clock anew. *)
Fixpoint add_roles (max : Z) (n : Notification) (roles : list string) (clock : nat → Z) (m : gmap string ring)
    : gmap string ring :=
  match roles with
  | [] => m
  | r :: roles => add_roles max n roles (λ i, clock (S i)) (add_unique max r n (clock 0%nat) m)
  end.

Definition AddForRoles (n : Notification) (roles : list string) (clock : nat → Z) (b : ReplayBuffer) : ReplayBuffer :=
  if bool_decide (nt_ID n = uuid_nil) then b
  else MkReplayBuffer (rp_customers b) (add_roles (rp_maxEvents b) n roles clock (rp_roles b))
         (rp_maxEvents b) (rp_ttl b).

(** [sort.SliceStable] by the time an item was added. *)
Fixpoint insert_item (x : bufferedItem) (l : list bufferedItem) : list bufferedItem :=
  match l with
  | [] => [x]
  | y :: l => if bool_decide (bi_addedAt x ≤ bi_addedAt y) then x :: y :: l else y :: insert_item x l
  end.
Definition stable_sort (l : list bufferedItem) : list bufferedItem := foldr insert_item [] l.

(** What follows the first notification with the given id; everything when
    there is none. *)
Fixpoint after_id (id : string) (l : list Notification) : option (list Notification) :=
  match l with
  | [] => None
  | n :: l => if bool_decide (nt_ID n = id) then Some l else after_id id l
  end.

Definition ReplayFor (userID role lastEventID : string) (now : Z) (b : ReplayBuffer) : list Notification :=
  let items := from_option (rb_valid now (rp_ttl b)) [] (rp_customers b !! userID) in
  let items :=
    match rp_roles b !! role with
    | Some rrb =>
        if bool_decide (role = "") then items else stable_sort (items ++ rb_valid now (rp_ttl b) rrb)
    | None => items
    end in
  let all := bi_notification <$> items in
  if bool_decide (lastEventID = uuid_nil) then all else default all (after_id lastEventID all).

Definition Replay (customerID lastEventID : string) (now : Z) (b : ReplayBuffer) : list Notification :=
  ReplayFor customerID "" lastEventID now b.
Definition GetAll (customerID : string) (now : Z) (b : ReplayBuffer) : list Notification :=
  Replay customerID uuid_nil now b.
Definition Size (customerID : string) (now : Z) (b : ReplayBuffer) : nat :=
  from_option (λ rb, length (rb_valid now (rp_ttl b) rb)) 0%nat (rp_customers b !! customerID).

Definition keep_valid (now ttl : Z) (m : gmap string ring) : gmap string ring :=
  filter (λ kv, rb_hasValid now ttl kv.2 = true) m.
Definition CleanExpired (now : Z) (b : ReplayBuffer) : ReplayBuffer :=
  MkReplayBuffer (keep_valid now (rp_ttl b) (rp_customers b)) (keep_valid now (rp_ttl b) (rp_roles b))
    (rp_maxEvents b) (rp_ttl b).
Definition Clear (b : ReplayBuffer) : ReplayBuffer := MkReplayBuffer ∅ ∅ (rp_maxEvents b) (rp_ttl b).

(** ** The hub *)

Record Subscriber := MkSubscriber { sb_userID : string; sb_role : string; sb_ch : list Notification }.

(** Subscribers by the address of their connection; [hb_next] is an address
    not used before. *)
Record Hub := MkHub { hb_subs : gmap nat Subscriber; hb_buffer : nat; hb_next : nat }.

Definition newHub (buffer : Z) : Hub := MkHub ∅ (if bool_decide (buffer < 1) then 1%nat else Z.to_nat buffer) 0.

Definition Subscribe (userID role : string) (h : Hub) : nat * Hub :=
  (hb_next h, MkHub (<[hb_next h := MkSubscriber userID role []]> (hb_subs h)) (hb_buffer h) (S (hb_next h))).
Definition Unsubscribe (s : nat) (h : Hub) : Hub := MkHub (delete s (hb_subs h)) (hb_buffer h) (hb_next h).

(** The attempts of [offer]: send, or drop the oldest and try again. *)
Fixpoint offer_loop (attempts buffer : nat) (n : Notification) (ch : list Notification) : bool * list Notification :=
  match attempts with
  | O => (false, ch)
  | S attempts =>
      if bool_decide (length ch < buffer)%nat then (true, ch ++ [n]) else offer_loop attempts buffer n (drop 1 ch)
  end.
Definition offer (buffer : nat) (n : Notification) (s : Subscriber) : bool * Subscriber :=
  let '(ok, ch) := offer_loop 2 buffer n (sb_ch s) in (ok, MkSubscriber (sb_userID s) (sb_role s) ch).

(** The subscribers are independent, so the order of the map does not matter. *)
Definition push (n : Notification) (match_ : Subscriber → bool) (h : Hub) : nat * Hub :=
  (length (filter (λ s, match_ s.2 = true ∧ (offer (hb_buffer h) n s.2).1 = true) (map_to_list (hb_subs h))),
   MkHub ((λ s, if match_ s then (offer (hb_buffer h) n s).2 else s) <$> hb_subs h) (hb_buffer h) (hb_next h)).

(** The hub with the replay buffer behind its two hooks. *)
Record Delivery := MkDelivery { dv_hub : Hub; dv_buffer : ReplayBuffer }.

Definition PushToUser (userID : string) (n : Notification) (now : Z) (d : Delivery) : nat * Delivery :=
  let b := Add userID n now (dv_buffer d) in
  let '(k, h) := push n (λ s, bool_decide (sb_userID s = userID)) (dv_hub d) in
  (k, MkDelivery h b).
Definition PushToRoles (n : Notification) (roles : list string) (clock : nat → Z) (d : Delivery) : nat * Delivery :=
  let b := AddForRoles n roles clock (dv_buffer d) in
  let '(k, h) := push n (λ s, existsb (λ r, bool_decide (sb_role s = r)) roles) (dv_hub d) in
  (k, MkDelivery h b).

(** ** The bounded memories *)

Record ownerEntry := MkOwner { ow_customerID : string; ow_expires : Z }.
Record ownerMap := MkOwnerMap { om_entries : gmap string ownerEntry; om_order : list string }.

(** Evicting the oldest until the map is small enough. *)
Fixpoint evict (max : nat) (entries : gmap string ownerEntry) (order : list string) : ownerMap :=
  match order with
  | [] => MkOwnerMap entries []
  | id :: rest =>
      if bool_decide (max < size entries)%nat then evict max (delete id entries) rest else MkOwnerMap entries order
  end.

Definition om_put (ttl : Z) (max : nat) (orderID customerID : string) (now : Z) (m : ownerMap) : ownerMap :=
  let order := if bool_decide (is_Some (om_entries m !! orderID)) then om_order m else om_order m ++ [orderID] in
  evict max (<[orderID := MkOwner customerID (now + ttl)]> (om_entries m)) order.

Definition om_get (orderID : string) (now : Z) (m : ownerMap) : option string * ownerMap :=
  match om_entries m !! orderID with
  | None => (None, m)
  | Some e =>
      if negb (bool_decide (now < ow_expires e)) then (None, MkOwnerMap (delete orderID (om_entries m)) (om_order m))
      else (Some (ow_customerID e), m)
  end.

Record seenSet := MkSeen { se_ids : gset string; se_order : list string }.

Fixpoint forget (max : nat) (ids : gset string) (order : list string) : seenSet :=
  match order with
  | [] => MkSeen ids []
  | id :: rest => if bool_decide (max < length order)%nat then forget max (ids ∖ {[id]}) rest else MkSeen ids order
  end.

Definition markNew (max : nat) (id : string) (s : seenSet) : bool * seenSet :=
  if bool_decide (id ∈ se_ids s) then (false, s) else (true, forget max (se_ids s ∪ {[id]}) (se_order s ++ [id])).
