(* ===== verification/NotReplay.v ===== *)
(** Notification service: the ring buffer is a sliding window.  [view] is the
    content of a ring, oldest first; every operation of the ring is an operation
    on the view, and the order that [ReplayFor] makes of two sorted lists is
    their merge. *)

From S2P Require Import Prelude GoStd NotModel InvModel.

(** The last [k] elements. *)
Definition last_n {A} (k : nat) (l : list A) : list A := drop (length l - k) l.

Section last_n.
Context {A : Type}.
Implicit Types (l : list A).

Lemma last_n_all k l : (length l ≤ k)%nat → last_n k l = l.
Proof. intros H. unfold last_n. by replace (length l - k)%nat with 0%nat by lia. Qed.
Lemma last_n_length k l : (length (last_n k l) ≤ k)%nat.
Proof. unfold last_n. rewrite length_drop. lia. Qed.
Lemma last_n_sublist k l : last_n k l `sublist_of` l.
Proof. apply sublist_drop. Qed.

(** Forgetting all but the last [k] twice is forgetting them once. *)
Lemma last_n_snoc k l x : last_n k (last_n k l ++ [x]) = last_n k (l ++ [x]).
Proof.
  unfold last_n. rewrite !length_app, length_drop. cbn.
  destruct (decide (k = 0%nat)) as [->|Hk]; [by rewrite !drop_ge by (rewrite length_app, ?length_drop; cbn; lia)|].
  destruct (decide (length l ≤ k)%nat) as [H|H].
  - replace (length l - k)%nat with 0%nat by lia. by rewrite drop_0, Nat.sub_0_r.
  - rewrite !drop_app_le by (rewrite ?length_drop; lia). rewrite drop_drop. do 2 f_equal. lia.
Qed.

(** A window over what follows a prefix, and a window over everything. *)
Lemma last_n_prefix k (old l : list A) :
  ∃ kept, kept `sublist_of` old ∧ last_n k (old ++ l) = kept ++ last_n k l.
Proof.
  destruct (decide (k ≤ length l)%nat) as [H|H].
  - exists []. split; [apply sublist_nil_l|]. unfold last_n. rewrite length_app.
    rewrite drop_app_ge by lia. cbn. f_equal. lia.
  - exists (last_n (k - length l) old). split; [apply last_n_sublist|].
    rewrite (last_n_all k l) by lia. unfold last_n. rewrite length_app.
    rewrite drop_app_le by lia. f_equal. f_equal. lia.
Qed.
End last_n.

Lemma sublist_fmap {A B} (f : A → B) l1 l2 : l1 `sublist_of` l2 → (f <$> l1) `sublist_of` (f <$> l2).
Proof. induction 1; cbn; [done|by apply sublist_skip|by apply sublist_cons]. Qed.

Lemma StronglySorted_sublist {A} (R : relation A) l1 l2 :
  l1 `sublist_of` l2 → StronglySorted R l2 → StronglySorted R l1.
Proof.
  induction 1 as [|x l1 l2 Hsub IH|x l1 l2 Hsub IH]; [done| |]; intros Hs; inversion_clear Hs as [|? ? Hs' Hx]; auto.
  constructor; [auto|]. rewrite Forall_forall in *. intros y Hy. by eapply Hx, elem_of_sublist.
Qed.

(** ** The view of a ring *)

Definition view (rb : ring) : list bufferedItem := drop (rb_head rb) (rb_items rb) ++ take (rb_head rb) (rb_items rb).

(** Until the ring is full its head is at the start. *)
Record ring_ok (rb : ring) : Prop := {
  ro_cap : (0 < rb_cap rb)%nat;
  ro_len : (length (rb_items rb) ≤ rb_cap rb)%nat;
  ro_head : (rb_head rb < rb_cap rb)%nat;
  ro_part : (length (rb_items rb) < rb_cap rb)%nat → rb_head rb = 0%nat
}.

Lemma view_perm rb : view rb ≡ₚ rb_items rb.
Proof. unfold view. rewrite (comm app). by rewrite take_drop. Qed.
Lemma view_length rb : length (view rb) = length (rb_items rb).
Proof. by rewrite view_perm. Qed.

Lemma new_ring_ok c : ring_ok (newCustomerRingBuffer c).
Proof.
  unfold newCustomerRingBuffer, DefaultMaxEventsPerCustomer.
  split; cbn; try lia; case_bool_decide; lia.
Qed.

Lemma rb_add_ok n now rb : ring_ok rb → ring_ok (rb_add n now rb).
Proof.
  intros [Hc Hl Hh Hp]. unfold rb_add. case_bool_decide as Hfull; split; cbn; try done.
  - rewrite length_app. cbn. lia.
  - auto.
  - by rewrite length_insert.
  - apply Nat.mod_upper_bound. lia.
  - rewrite length_insert. lia.
Qed.

(** A full ring forgets its oldest item for the new one. *)
Lemma view_add n now rb : ring_ok rb →
  view (rb_add n now rb) = last_n (rb_cap rb) (view rb ++ [MkItemAt n now]).
Proof.
  intros [Hc Hl Hh Hp]. unfold rb_add. case_bool_decide as Hfull.
  - rewrite last_n_all by (rewrite length_app, view_length; cbn; lia).
    unfold view. cbn. rewrite Hp by done. by rewrite !drop_0, !take_0, !app_nil_r.
  - assert (length (rb_items rb) = rb_cap rb) as Hlen by lia.
    unfold last_n. rewrite length_app, view_length, Hlen. cbn.
    replace (rb_cap rb + 1 - rb_cap rb)%nat with 1%nat by lia.
    destruct (lookup_lt_is_Some_2 (rb_items rb) (rb_head rb)) as [x Hx]; [lia|].
    unfold view. cbn [rb_head rb_items]. rewrite (drop_S _ _ _ Hx). cbn [app drop].
    destruct (decide (rb_head rb + 1 = rb_cap rb)%nat) as [Hw|Hw].
    + rewrite Hw, Nat.Div0.mod_same, drop_0, take_0, app_nil_r.
      rewrite (drop_ge (rb_items rb)) by lia. rewrite insert_take_drop by lia.
      by rewrite (drop_ge (rb_items rb)) by lia.
    + rewrite Nat.mod_small by lia. rewrite drop_insert_lt by lia.
      replace (rb_head rb + 1)%nat with (S (rb_head rb)) by lia.
      rewrite (take_S_r _ _ (MkItemAt n now)) by (rewrite list_lookup_insert_eq; [done|lia]).
      rewrite take_insert_ge by lia. by rewrite app_assoc.
Qed.

Lemma rb_at_view rb i : ring_ok rb → (i < length (rb_items rb))%nat → rb_at rb i = view rb !! i.
Proof.
  intros [Hc Hl Hh Hp] Hi. unfold rb_at, view.
  destruct (decide (length (rb_items rb) < rb_cap rb)%nat) as [Hpart|Hfull].
  - rewrite Hp by done. cbn. rewrite Nat.mod_small by lia. by rewrite drop_0, take_0, app_nil_r.
  - assert (length (rb_items rb) = rb_cap rb) as Hlen by lia.
    destruct (decide (rb_head rb + i < rb_cap rb)%nat) as [Hin|Hout].
    + rewrite Nat.mod_small by lia. rewrite lookup_app_l by (rewrite length_drop; lia). by rewrite lookup_drop.
    + rewrite lookup_app_r by (rewrite length_drop; lia). rewrite length_drop.
      replace ((rb_head rb + i) mod length (rb_items rb))%nat with (i - (length (rb_items rb) - rb_head rb))%nat.
      * rewrite lookup_take_lt by lia. done.
      * rewrite Hlen. apply (Nat.mod_unique _ _ 1); lia.
Qed.

(** The loop of [valid] reads the items of the view in their order. *)
Lemma valid_loop_view now ttl rb i todo : ring_ok rb → (i + todo = length (rb_items rb))%nat →
  valid_loop now ttl rb i todo = filter (λ it, fresh_at now ttl it = true) (drop i (view rb)).
Proof.
  intros Hok. revert i. induction todo as [|todo IH]; intros i Hi; cbn.
  - by rewrite drop_ge by (rewrite view_length; lia).
  - destruct (lookup_lt_is_Some_2 (view rb) i) as [it Hit]; [rewrite view_length; lia|].
    rewrite rb_at_view, Hit by (done || lia). rewrite (drop_S _ _ _ Hit), filter_cons, IH by lia.
    destruct (fresh_at now ttl it); [by rewrite decide_True|by rewrite decide_False].
Qed.
Lemma rb_valid_view now ttl rb : ring_ok rb → rb_valid now ttl rb = filter (λ it, fresh_at now ttl it = true) (view rb).
Proof. intros Hok. unfold rb_valid. by rewrite valid_loop_view, drop_0. Qed.

Lemma existsb_perm {A} (f : A → bool) l1 l2 : l1 ≡ₚ l2 → existsb f l1 = existsb f l2.
Proof. induction 1; cbn; [done|by f_equal| |by etrans]. by rewrite !orb_assoc, (orb_comm (f y)). Qed.

Lemma rb_contains_view id rb : rb_contains id rb = true ↔ id ∈ (nt_ID ∘ bi_notification <$> view rb).
Proof.
  unfold rb_contains. rewrite <-(existsb_perm _ _ _ (view_perm rb)), existsb_exists, list_elem_of_fmap.
  split.
  - intros (it & Hin%list_elem_of_In & Hid%bool_decide_eq_true). eauto.
  - intros (it & -> & Hin%list_elem_of_In). exists it. split; [done|]. by apply bool_decide_eq_true.
Qed.

Lemma time_Sub_mono t t' u : t ≤ t' → time_Sub t u ≤ time_Sub t' u.
Proof. unfold time_Sub. lia. Qed.

(** What has expired stays expired. *)
Lemma expired_stays now now' ttl it : now ≤ now' → fresh_at now ttl it = false → fresh_at now' ttl it = false.
Proof.
  unfold fresh_at. rewrite !negb_false_iff, !bool_decide_eq_true. intros Hle Hexp.
  pose proof (time_Sub_mono now now' (bi_addedAt it) Hle). lia.
Qed.

(** What was added earlier expires earlier. *)
Lemma older_expires now ttl x y : bi_addedAt x ≤ bi_addedAt y → fresh_at now ttl y = false → fresh_at now ttl x = false.
Proof. unfold fresh_at, time_Sub. rewrite !negb_false_iff, !bool_decide_eq_true. lia. Qed.

Lemma rb_hasValid_view now ttl rb : rb_hasValid now ttl rb = false →
  Forall (λ it, fresh_at now ttl it = false) (view rb).
Proof.
  unfold rb_hasValid. rewrite <-(existsb_perm _ _ _ (view_perm rb)). intros Hno.
  apply Forall_forall. intros it Hin. unfold fresh_at. rewrite negb_false_iff, bool_decide_eq_true.
  destruct (decide (time_Sub now (bi_addedAt it) ≤ ttl)) as [Hok|Hok]; [|lia].
  apply not_true_iff_false in Hno. destruct Hno. apply existsb_exists.
  exists it. split; [by apply list_elem_of_In|by apply bool_decide_eq_true].
Qed.

(** ** The order of a replay *)

Definition earlier (x y : bufferedItem) : Prop := bi_addedAt x ≤ bi_addedAt y.

(** The merge of two lists, the first going ahead at equal times. *)
Fixpoint merge_items (l1 : list bufferedItem) : list bufferedItem → list bufferedItem :=
  fix go (l2 : list bufferedItem) : list bufferedItem :=
    match l1, l2 with
    | [], _ => l2
    | _, [] => l1
    | x :: l1', y :: l2' =>
        if bool_decide (bi_addedAt x ≤ bi_addedAt y) then x :: merge_items l1' l2 else y :: go l2'
    end.

Lemma merge_nil_r l : merge_items l [] = l.
Proof. by destruct l. Qed.

Lemma stable_sort_sorted l : StronglySorted earlier l → stable_sort l = l.
Proof.
  induction 1 as [|x l Hs IH Hx]; [done|]. unfold stable_sort in *. cbn. rewrite IH.
  destruct l as [|y l]; [done|]. cbn. rewrite bool_decide_eq_true_2; [done|]. by inversion Hx.
Qed.

Lemma merge_insert x l1 l2 : Forall (earlier x) l1 → StronglySorted earlier l2 →
  merge_items (x :: l1) l2 = insert_item x (merge_items l1 l2).
Proof.
  intros Hx Hs. induction Hs as [|y l2 Hs IH Hy]; cbn.
  - rewrite merge_nil_r. destruct Hx as [|z l1 Hz Hx]; [done|]. cbn. by rewrite bool_decide_eq_true_2.
  - case_bool_decide as Hxy.
    + destruct Hx as [|z l1 Hz Hx]; cbn; [by rewrite bool_decide_eq_true_2|].
      case_bool_decide; cbn; by rewrite bool_decide_eq_true_2.
    + cbn in IH. rewrite IH. destruct Hx as [|z l1 Hz Hx]; cbn; [rewrite bool_decide_eq_false_2 by done; by destruct l2|].
      unfold earlier in Hz. rewrite bool_decide_eq_false_2 by lia. cbn. by rewrite bool_decide_eq_false_2.
Qed.

(** [sort.SliceStable] of two sorted lists in a row is their merge. *)
Lemma stable_sort_merge l1 l2 : StronglySorted earlier l1 → StronglySorted earlier l2 →
  stable_sort (l1 ++ l2) = merge_items l1 l2.
Proof.
  intros H1 H2. induction H1 as [|x l1 Hs IH Hx].
  - cbn. rewrite stable_sort_sorted by done. by destruct l2.
  - rewrite merge_insert by done. rewrite <-IH. done.
Qed.

Lemma merge_perm l1 l2 : merge_items l1 l2 ≡ₚ l1 ++ l2.
Proof.
  revert l2. induction l1 as [|x l1 IH1]; intros l2; [by destruct l2|].
  induction l2 as [|y l2 IH2]; [by rewrite app_nil_r|]. cbn. case_bool_decide.
  - by rewrite IH1.
  - etrans; [constructor; exact IH2|]. by rewrite (Permutation_middle (x :: l1)).
Qed.

(** Notification service: what a client that reconnects is sent.  The replay
    buffer, with its rings, its lazy expiry and its clean-up, answers like a
    function of the history of what was dispatched. *)


(** ** Histories *)

(** The operations that change the buffer.  [BAddRoles] has the readings of the
    clock, one per role. *)
Inductive BOp :=
  | BAdd (customer : string) (n : Notification) (now : Z)
  | BAddRoles (n : Notification) (roles : list string) (clock : nat → Z)
  | BClean (now : Z)
  | BClear.

Definition bstep (b : ReplayBuffer) (op : BOp) : ReplayBuffer :=
  match op with
  | BAdd c n now => Add c n now b
  | BAddRoles n roles clock => AddForRoles n roles clock b
  | BClean now => CleanExpired now b
  | BClear => Clear b
  end.
Definition brun (ops : list BOp) (b : ReplayBuffer) : ReplayBuffer := foldl bstep b ops.

(** The readings of the clock, in order. *)
Definition op_times (op : BOp) : list Z :=
  match op with
  | BAdd _ _ now | BClean now => [now]
  | BAddRoles _ roles clock => clock <$> seq 0 (length roles)
  | BClear => []
  end.

(** What was dispatched to a customer and to a role since the last [Clear]. *)
Definition sent_user (c : string) (h : list bufferedItem) (op : BOp) : list bufferedItem :=
  match op with
  | BAdd c' n now =>
      if bool_decide (c' = c ∧ c ≠ uuid_nil ∧ nt_ID n ≠ uuid_nil) then h ++ [MkItemAt n now] else h
  | BClear => []
  | _ => h
  end.
Definition sent_role (r : string) (h : list bufferedItem) (op : BOp) : list bufferedItem :=
  match op with
  | BAddRoles n roles clock =>
      match list_find (r =.) roles with
      | Some (i, _) => if bool_decide (nt_ID n ≠ uuid_nil) then h ++ [MkItemAt n (clock i)] else h
      | None => h
      end
  | BClear => []
  | _ => h
  end.
Definition user_history (c : string) (ops : list BOp) : list bufferedItem := foldl (sent_user c) [] ops.
Definition role_history (r : string) (ops : list BOp) : list bufferedItem := foldl (sent_role r) [] ops.

Definition ids_of (l : list bufferedItem) : list string := nt_ID ∘ bi_notification <$> l.

(** The reference: the newest [max] notifications of the user and of the role,
    without the expired ones, merged by the time they were dispatched. *)
Definition replay_spec (max : nat) (ttl : Z) (mine broadcast : list bufferedItem) (last : string) (now : Z)
    : list Notification :=
  let fresh l := filter (λ it, fresh_at now ttl it = true) (last_n max l) in
  let all := bi_notification <$> merge_items (fresh mine) (fresh broadcast) in
  if bool_decide (last = uuid_nil) then all else default all (after_id last all).

(** ** One ring against its history *)

(** The ring after its history: what is missing had expired. *)
Definition tracked (max : Z) (ttl now : Z) (o : option ring) (h : list bufferedItem) : Prop :=
  let rb := default (newCustomerRingBuffer max) o in
  ring_ok rb ∧ rb_cap rb = Z.to_nat max ∧
  ∃ old w, h = old ++ w ∧ Forall (λ it, fresh_at now ttl it = false) old ∧ view rb = last_n (Z.to_nat max) w.

Section tracked.
Context (max ttl : Z) (Hmax : 0 < max).
Implicit Types (o : option ring) (h : list bufferedItem) (m : gmap string ring).

Lemma new_ring_cap : rb_cap (newCustomerRingBuffer max) = Z.to_nat max.
Proof. unfold newCustomerRingBuffer. cbn. rewrite bool_decide_eq_false_2; [done|lia]. Qed.

Lemma tracked_new now : tracked max ttl now None [].
Proof.
  split_and!; [apply new_ring_ok|apply new_ring_cap|]. exists [], []. by split_and!.
Qed.

Lemma tracked_later now now' o h : now ≤ now' → tracked max ttl now o h → tracked max ttl now' o h.
Proof.
  intros Hle (Hok & Hc & old & w & -> & Hold & Hv). split_and!; [done..|]. exists old, w. split_and!; [done| |done].
  eapply Forall_impl; [exact Hold|]. intros it. by apply expired_stays.
Qed.

(** A notification that was not dispatched before is the newest. *)
Lemma tracked_add now key n m h : nt_ID n ∉ ids_of h → tracked max ttl now (m !! key) h →
  tracked max ttl now (add_unique max key n now m !! key) (h ++ [MkItemAt n now]).
Proof.
  intros Hnew (Hok & Hc & old & w & -> & Hold & Hv). unfold add_unique.
  set (rb := default _ _) in *. rewrite lookup_insert_eq.
  destruct (rb_contains (nt_ID n) rb) eqn:Hdup.
  - apply rb_contains_view in Hdup. destruct Hnew. unfold ids_of. rewrite fmap_app. apply elem_of_app. right.
    rewrite Hv in Hdup. apply list_elem_of_fmap in Hdup as (it & -> & Hin). apply list_elem_of_fmap.
    exists it. split; [done|]. eapply elem_of_sublist; [exact Hin|apply last_n_sublist].
  - split_and!; cbn; [by apply rb_add_ok|unfold rb_add; by case_bool_decide|].
    exists old, (w ++ [MkItemAt n now]). split_and!; [by rewrite app_assoc|done|].
    rewrite view_add by done. rewrite Hc, Hv. apply last_n_snoc.
Qed.

Lemma add_unique_other key key' n now m : key ≠ key' → add_unique max key n now m !! key' = m !! key'.
Proof. intros Hne. unfold add_unique. by rewrite lookup_insert_ne. Qed.

(** When the newest [max] of a sorted history have expired, all have. *)
Lemma window_expired now w : StronglySorted earlier w →
  Forall (λ it, fresh_at now ttl it = false) (last_n (Z.to_nat max) w) → Forall (λ it, fresh_at now ttl it = false) w.
Proof.
  intros Hs Hexp. unfold last_n in Hexp. set (k := (length w - Z.to_nat max)%nat) in *.
  rewrite <-(take_drop k w) in Hs |- *. apply Forall_app. split; [|done].
  destruct (decide (w = [])) as [->|Hne]; [by rewrite take_nil|].
  destruct (lookup_lt_is_Some_2 (drop k w) 0) as [y Hy].
  { rewrite length_drop. destruct w; [done|]. cbn in *. lia. }
  apply list_elem_of_lookup_2 in Hy. rewrite Forall_forall in Hexp. apply Forall_forall. intros x Hx.
  eapply older_expires; [|by apply Hexp]. by eapply (StronglySorted_app_1_elem_of earlier).
Qed.

(** Dropping a ring whose items have all expired changes nothing. *)
Lemma tracked_clean now key m h : StronglySorted earlier h → tracked max ttl now (m !! key) h →
  tracked max ttl now (keep_valid now ttl m !! key) h.
Proof.
  intros Hs Htr. unfold keep_valid. rewrite map_lookup_filter. destruct (m !! key) as [rb|]; [|done]. cbn.
  case_guard as Hv; [done|]. apply not_true_is_false, rb_hasValid_view in Hv.
  destruct Htr as (Hok & Hc & old & w & -> & Hold & Hw). cbn in *. rewrite Hw in Hv.
  split_and!; [apply new_ring_ok|apply new_ring_cap|]. cbn. exists (old ++ w), []. rewrite app_nil_r.
  split_and!; [done| |done]. apply Forall_app. split; [done|].
  apply window_expired; [|done]. by eapply StronglySorted_app_1_r.
Qed.

(** The fresh items of the ring are those of the window over the history. *)
Lemma tracked_valid now o h : tracked max ttl now o h →
  from_option (rb_valid now ttl) [] o = filter (λ it, fresh_at now ttl it = true) (last_n (Z.to_nat max) h).
Proof.
  intros (Hok & Hc & old & w & -> & Hold & Hv).
  destruct (last_n_prefix (Z.to_nat max) old w) as (kept & Hk & ->).
  rewrite filter_app. rewrite (filter_none _ kept); cycle 1.
  { intros it Hin. rewrite Forall_forall in Hold. rewrite (Hold it); [done|]. by eapply elem_of_sublist. }
  cbn. rewrite <-Hv. destruct o as [rb|]; cbn in *; [by apply rb_valid_view|]. done.
Qed.
End tracked.

(** ** The whole buffer *)

Section buffer.
Context (max ttl : Z).
#[local] Abbreviation b0 := (newReplayBuffer max ttl).

Lemma b0_max : 0 < rp_maxEvents b0.
Proof. unfold newReplayBuffer. cbn. case_bool_decide; unfold DefaultMaxEventsPerCustomer; lia. Qed.

Lemma brun_snoc ops op b : brun (ops ++ [op]) b = bstep (brun ops b) op.
Proof. unfold brun. by rewrite foldl_app. Qed.

Lemma brun_bounds ops b : rp_maxEvents (brun ops b) = rp_maxEvents b ∧ rp_ttl (brun ops b) = rp_ttl b.
Proof.
  induction ops as [|op ops [IH1 IH2]] using rev_ind; [done|]. rewrite brun_snoc, <-IH1, <-IH2.
  destruct op; cbn; unfold Add, AddForRoles; repeat case_match; done.
Qed.

Lemma times_snoc ops op : (ops ++ [op]) ≫= op_times = (ops ≫= op_times) ++ op_times op.
Proof. rewrite bind_app. cbn. by rewrite app_nil_r. Qed.

Lemma elem_seq_times (clock : nat → Z) (k i : nat) : (i < k)%nat → clock i ∈ (clock <$> seq 0 k).
Proof. intros Hi. apply list_elem_of_fmap. exists i. split; [done|]. apply elem_of_seq. lia. Qed.

(** A history is in the order of the clock. *)
Lemma user_history_times c ops : (bi_addedAt <$> user_history c ops) `sublist_of` (ops ≫= op_times).
Proof.
  induction ops as [|op ops IH] using rev_ind; [done|]. unfold user_history in *. rewrite times_snoc, foldl_app. cbn.
  destruct op as [c' n t|n rs clock|t|]; cbn.
  - case_bool_decide; [|by apply sublist_inserts_r]. rewrite fmap_app. by apply sublist_app.
  - by apply sublist_inserts_r.
  - by apply sublist_inserts_r.
  - apply sublist_nil_l.
Qed.
Lemma role_history_times r ops : (bi_addedAt <$> role_history r ops) `sublist_of` (ops ≫= op_times).
Proof.
  induction ops as [|op ops IH] using rev_ind; [done|]. unfold role_history in *. rewrite times_snoc, foldl_app. cbn.
  destruct op as [c' n t|n rs clock|t|]; cbn.
  - by apply sublist_inserts_r.
  - destruct (list_find (r =.) rs) as [[i r']|] eqn:Hf; [|by apply sublist_inserts_r].
    case_bool_decide; [|by apply sublist_inserts_r]. rewrite fmap_app. apply sublist_app; [done|]. cbn.
    apply singleton_sublist_l, elem_seq_times. apply list_find_Some in Hf as (Hf & _). by eapply lookup_lt_Some.
  - by apply sublist_inserts_r.
  - apply sublist_nil_l.
Qed.

Lemma history_sorted h ts now : (bi_addedAt <$> h) `sublist_of` ts → StronglySorted Z.le (ts ++ [now]) →
  StronglySorted earlier h.
Proof.
  intros Hsub Hs%StronglySorted_app_1_l. eapply StronglySorted_sublist in Hs; [|exact Hsub].
  clear Hsub. induction h as [|x h IH]; [constructor|]. inversion_clear Hs as [|? ? Hs' Hx].
  constructor; [auto|]. by rewrite Forall_fmap in Hx.
Qed.

(** A reading of the clock by the last operation. *)
Lemma sorted_reading (ts us : list Z) (t now : Z) : StronglySorted Z.le ((ts ++ us) ++ [now]) → t ∈ us →
  StronglySorted Z.le (ts ++ [t]) ∧ t ≤ now.
Proof.
  intros Hs Ht. split.
  - eapply StronglySorted_sublist; [|exact Hs]. rewrite <-app_assoc. apply sublist_app; [done|].
    apply sublist_inserts_r. by apply singleton_sublist_l.
  - eapply (StronglySorted_app_1_elem_of Z.le); [exact Hs| |by apply list_elem_of_singleton].
    apply elem_of_app. by right.
Qed.
Lemma sorted_before (ts us : list Z) (now : Z) : StronglySorted Z.le ((ts ++ us) ++ [now]) →
  StronglySorted Z.le (ts ++ [now]).
Proof.
  intros Hs. eapply StronglySorted_sublist; [|exact Hs]. apply sublist_app; [|done]. by apply sublist_inserts_r.
Qed.

Lemma new_id_snoc h it : NoDup (ids_of (h ++ [it])) → NoDup (ids_of h) ∧ nt_ID (bi_notification it) ∉ ids_of h.
Proof.
  unfold ids_of. rewrite fmap_app, NoDup_app. intros (Hh & Hx & _). split; [done|]. intros Hin.
  apply (Hx _ Hin). by apply list_elem_of_singleton.
Qed.

Lemma user_tracked c ops now : StronglySorted Z.le ((ops ≫= op_times) ++ [now]) → NoDup (ids_of (user_history c ops)) →
  tracked (rp_maxEvents b0) (rp_ttl b0) now (rp_customers (brun ops b0) !! c) (user_history c ops).
Proof.
  revert now. induction ops as [|op ops IH] using rev_ind; intros now Hs Hnd.
  { exact (tracked_new _ _ b0_max now). }
  unfold user_history in *. rewrite brun_snoc. rewrite times_snoc in Hs. rewrite foldl_app in *. cbn [foldl] in *.
  pose proof (sorted_before _ _ _ Hs) as Hs'. destruct (brun_bounds ops b0) as [Emax Ettl].
  destruct op as [c' n t|n rs clock|t|]; cbn [bstep sent_user op_times] in *.
  - destruct (sorted_reading _ _ t _ Hs) as [Ht Hle]; [by apply list_elem_of_singleton|]. unfold Add.
    case_bool_decide as Hmine.
    + destruct Hmine as (-> & Hc & Hn). rewrite !bool_decide_eq_false_2 by done. cbn [orb rp_customers].
      apply new_id_snoc in Hnd as [Hnd Hnew]. rewrite Emax. eapply tracked_later; [exact Hle|].
      apply tracked_add; [done|auto].
    + case_match eqn:Hbad; [by apply IH|]. apply orb_false_iff in Hbad as [?%bool_decide_eq_false ?%bool_decide_eq_false].
      cbn [rp_customers]. rewrite add_unique_other; [by apply IH|]. intros ->. by destruct Hmine.
  - unfold AddForRoles. case_match; by apply IH.
  - destruct (sorted_reading _ _ t _ Hs) as [Ht Hle]; [by apply list_elem_of_singleton|]. cbn [CleanExpired rp_customers].
    rewrite Ettl. eapply tracked_later; [exact Hle|]. apply tracked_clean; [apply b0_max| |auto].
    eapply history_sorted; [apply user_history_times|exact Hs'].
  - exact (tracked_new _ _ b0_max now).
Qed.

(** Each role of a broadcast is served once, at its own reading of the clock. *)
Lemma add_roles_other mx n rs clock m r : r ∉ rs → add_roles mx n rs clock m !! r = m !! r.
Proof.
  revert clock m. induction rs as [|r0 rs IH]; intros clock m Hr; [done|]. apply not_elem_of_cons in Hr as [Hne Hr].
  cbn. rewrite IH by done. by apply add_unique_other.
Qed.
Lemma add_roles_at mx n rs clock m r i : NoDup rs → rs !! i = Some r →
  add_roles mx n rs clock m !! r = add_unique mx r n (clock i) m !! r.
Proof.
  intros Hnd. revert clock m i. induction Hnd as [|r0 rs Hr0 Hnd IH]; intros clock m i Hi; [done|]. cbn.
  destruct i as [|i]; cbn in Hi; [injection Hi as <-; by apply add_roles_other|].
  rewrite (IH _ _ i Hi). unfold add_unique. rewrite !lookup_insert_eq, lookup_insert_ne; [done|].
  intros ->. destruct Hr0. by eapply list_elem_of_lookup_2.
Qed.

Definition roles_distinct (op : BOp) : Prop := match op with BAddRoles _ rs _ => NoDup rs | _ => True end.

Lemma role_tracked r ops now : Forall roles_distinct ops → StronglySorted Z.le ((ops ≫= op_times) ++ [now]) →
  NoDup (ids_of (role_history r ops)) →
  tracked (rp_maxEvents b0) (rp_ttl b0) now (rp_roles (brun ops b0) !! r) (role_history r ops).
Proof.
  revert now. induction ops as [|op ops IH] using rev_ind; intros now Hr Hs Hnd.
  { exact (tracked_new _ _ b0_max now). }
  apply Forall_app in Hr as [Hr Hop]. apply (Forall_inv (P := roles_distinct)) in Hop.
  unfold role_history in *. rewrite brun_snoc. rewrite times_snoc in Hs. rewrite foldl_app in *. cbn [foldl] in *.
  pose proof (sorted_before _ _ _ Hs) as Hs'. destruct (brun_bounds ops b0) as [Emax Ettl].
  destruct op as [c' n t|n rs clock|t|]; cbn [bstep sent_role op_times] in *.
  - unfold Add. case_match; by apply IH.
  - unfold AddForRoles. destruct (list_find (r =.) rs) as [[i r']|] eqn:Hf.
    + apply list_find_Some in Hf as (Hi & <- & _). destruct (decide (nt_ID n = uuid_nil)) as [Hn|Hn].
      { rewrite bool_decide_eq_true_2 by done. rewrite bool_decide_eq_false_2 in * by tauto. by apply IH. }
      rewrite bool_decide_eq_false_2 by done. rewrite bool_decide_eq_true_2 in * by done. cbn [rp_roles].
      apply new_id_snoc in Hnd as [Hnd Hnew]. rewrite Emax, (add_roles_at _ _ _ _ _ _ _ Hop Hi).
      destruct (sorted_reading _ _ (clock i) _ Hs) as [Ht Hle]; [by eapply elem_seq_times, lookup_lt_Some|].
      eapply tracked_later; [exact Hle|]. apply tracked_add; [done|auto].
    + case_bool_decide; [by apply IH|]. cbn [rp_roles]. rewrite add_roles_other; [by apply IH|].
      apply list_find_None in Hf. rewrite Forall_forall in Hf. intros Hin. by apply (Hf r Hin).
  - destruct (sorted_reading _ _ t _ Hs) as [Ht Hle]; [by apply list_elem_of_singleton|]. cbn [CleanExpired rp_roles].
    rewrite Ettl. eapply tracked_later; [exact Hle|]. apply tracked_clean; [apply b0_max| |auto].
    eapply history_sorted; [apply role_history_times|exact Hs'].
  - exact (tracked_new _ _ b0_max now).
Qed.

Lemma fresh_sorted mx now h : StronglySorted earlier h →
  StronglySorted earlier (filter (λ it, fresh_at now (rp_ttl b0) it = true) (last_n mx h)).
Proof.
  apply StronglySorted_sublist. etrans; [apply sublist_filter|apply last_n_sublist].
Qed.

(** C20.  A replay is a function of the history.  Take any sequence of
    dispatches to customers and roles, of clean-ups of expired entries and of
    resets, under a clock that does not go back, in which no event id is
    dispatched twice to the same user or role.  Then a client that reconnects
    gets exactly: the newest [maxEvents] notifications of its user and the
    newest [maxEvents] of its role, those not older than the TTL, merged in the
    order they were dispatched (the user's first at equal times), and of these
    only what follows its last event id when that one is still there.  In
    particular no ring arithmetic, eviction or clean-up loses, repeats or
    reorders a notification, and [Size] counts what is there. *)
Theorem replay_answers_history ops user role last now :
  Forall roles_distinct ops →
  StronglySorted Z.le ((ops ≫= op_times) ++ [now]) →
  NoDup (ids_of (user_history user ops)) →
  NoDup (ids_of (role_history role ops)) →
  let b := brun ops b0 in
  let mx := Z.to_nat (rp_maxEvents b0) in
  ReplayFor user role last now b =
    replay_spec mx (rp_ttl b0) (user_history user ops) (if bool_decide (role = "") then [] else role_history role ops) last now
  ∧ Size user now b =
    length (filter (λ it, fresh_at now (rp_ttl b0) it = true) (last_n mx (user_history user ops))).
Proof.
  intros Hr Hs Hu Hro b mx. pose proof (user_tracked _ _ _ Hs Hu) as Tu. pose proof (role_tracked _ _ _ Hr Hs Hro) as Tr.
  pose proof (tracked_valid _ _ _ _ _ Tu) as Vu. pose proof (tracked_valid _ _ _ _ _ Tr) as Vr.
  assert (StronglySorted earlier (user_history user ops)) as Su by (eapply history_sorted; [apply user_history_times|done]).
  assert (StronglySorted earlier (role_history role ops)) as Sr by (eapply history_sorted; [apply role_history_times|done]).
  destruct (brun_bounds ops b0) as [Emax Ettl].
  split.
  - unfold ReplayFor, replay_spec. unfold b. rewrite Ettl, Vu. set (F := filter _ (last_n _ (user_history _ _))).
    destruct (bool_decide_reflect (role = "")).
    + rewrite (last_n_all _ []) by (cbn; lia). rewrite filter_nil, merge_nil_r. by destruct (rp_roles _ !! _).
    + destruct (rp_roles (brun ops b0) !! role) as [rrb|]; cbn [from_option] in Vr.
      * rewrite Vr, stable_sort_merge by (by apply fresh_sorted). done.
      * fold mx in Vr. rewrite <-Vr, merge_nil_r. done.
  - unfold Size, b. rewrite Ettl. unfold mx. rewrite <-Vu. by destruct (rp_customers _ !! user).
Qed.
End buffer.
