(* ===== verification/NotService.v ===== *)
(** Notification service: the service that turns events into notifications
    ([internal/notify/service.go]), the dispatch of messages
    ([internal/messaging/consumer.go], [Parse] of [internal/events/events.go]),
    and the opening of a stream ([internal/handler]). *)

From S2P Require Import Prelude Effects GoStd InvModel FulModel FulHandler NotModel.

Definition maxTrackedOrders : nat := Z.to_nat 50000.
Definition maxSeenEvents : nat := Z.to_nat 50000.

Definition NTypeOrderConfirmed : string := "order.confirmed".
Definition NTypeOrderReady : string := "order.ready".
Definition NTypeOrderCancelled : string := "order.cancelled".
Definition NTypeLowStock : string := "inventory.low_stock".
Definition NTypeExpiring : string := "inventory.expiring".

(** ** The service *)

Record Service := MkService { sv_owners : ownerMap; sv_seen : seenSet; sv_out : Delivery }.

(** The bounds of the two memories and the lifetime of an owner entry. *)
Record Limits := MkLimits { lm_orders : nat; lm_seen : nat; lm_ttl : Z }.
Definition default_limits (ttl : Z) : Limits := MkLimits maxTrackedOrders maxSeenEvents ttl.

Section service.
Context (lim : Limits).
Implicit Types (clock : nat → Z) (s : Service).

(** The guard of every handler: an event that was seen does nothing.  [clock]
    gives the readings of the clock, in order. *)
Definition if_new (id : string) (f : Service → Service) s : Service :=
  let '(new, seen) := markNew (lm_seen lim) id (sv_seen s) in
  if (new : bool) then f (MkService (sv_owners s) seen (sv_out s)) else s.

Definition put_owner (order customer : string) (now : Z) s : Service :=
  MkService (om_put (lm_ttl lim) (lm_orders lim) order customer now (sv_owners s)) (sv_seen s) (sv_out s).
Definition push_user (user : string) (n : Notification) (now : Z) s : Service :=
  MkService (sv_owners s) (sv_seen s) (PushToUser user n now (sv_out s)).2.
Definition push_roles (n : Notification) (clock : nat → Z) s : Service :=
  MkService (sv_owners s) (sv_seen s) (PushToRoles n [RoleStaff; RoleManager] clock (sv_out s)).2.

Definition toOrderOwner (orderID customerID : string) (n : Notification) (clock : nat → Z) s : Service :=
  if bool_decide (customerID = uuid_nil) then
    let '(owner, owners) := om_get orderID (clock 0%nat) (sv_owners s) in
    let s := MkService owners (sv_seen s) (sv_out s) in
    match owner with Some c => push_user c n (clock 1%nat) s | None => s end
  else push_user customerID n (clock 0%nat) s.

Definition OrderPlaced (id order customer : string) clock s : Service :=
  if_new id (put_owner order customer (clock 0%nat)) s.

Definition OrderQueued (id : string) (time : Z) (order customer queue slot : string) (pickup : Z) clock s : Service :=
  if_new id (λ s, push_user customer
    (MkNotification id NTypeOrderConfirmed "Your gelato order is confirmed." time (DQueued order queue pickup slot))
    (clock 1%nat) (put_owner order customer (clock 0%nat) s)) s.

Definition OrderReady (id : string) (time : Z) (order customer queue slot : string) clock s : Service :=
  if_new id (toOrderOwner order customer
    (MkNotification id NTypeOrderReady "Your gelato order is ready for pickup!" time (DReady order queue slot)) clock) s.

Definition OrderCancelled (id : string) (time : Z) (order customer reason : string) clock s : Service :=
  if_new id (toOrderOwner order customer
    (MkNotification id NTypeOrderCancelled "Your gelato order was cancelled." time (DCancelled order reason)) clock) s.

Definition BatchLowStock (id : string) (time : Z) (batch flavor : string) (remaining threshold : Z) clock s : Service :=
  if_new id (push_roles
    (MkNotification id NTypeLowStock "A gelato batch is running low." time (DLowStock batch flavor remaining threshold)) clock) s.

Definition BatchExpiring (id : string) (time : Z) (batch flavor : string) (expires : Z) clock s : Service :=
  if_new id (push_roles
    (MkNotification id NTypeExpiring "A gelato batch is about to expire." time (DExpiring batch flavor expires)) clock) s.

End service.

(** ** Messages *)

Definition NTypePlaced : string := "com.gelatoflow.order.placed.v1".
Definition NTypeCancelled : string := "com.gelatoflow.order.cancelled.v1".
Definition NTypeQueued : string := "com.gelatoflow.fulfillment.order-queued.v1".
Definition NTypeReady : string := "com.gelatoflow.fulfillment.order-ready.v1".
Definition NTypeBatchLow : string := "com.gelatoflow.inventory.batch-low-stock.v1".
Definition NTypeBatchExpiring : string := "com.gelatoflow.inventory.batch-expiring.v1".

Record OrderQueuedPayload := MkOrderQueuedPayload {
  qp_OrderID : string; qp_CustomerID : string; qp_QueueNumber : string; qp_PickupSlotID : string; qp_PickupAt : Z
}.
Record OrderReadyPayload := MkOrderReadyPayload {
  yp_OrderID : string; yp_QueueNumber : string; yp_PickupSlotID : string; yp_CustomerID : string
}.
Record OrderCancelledPayload := MkOrderCancelledPayload { xp_OrderID : string; xp_Reason : string; xp_CustomerID : string }.
Record BatchLowStockPayload := MkBatchLowStockPayload {
  lp_BatchID : string; lp_FlavorID : string; lp_Remaining : Z; lp_Threshold : Z
}.
Record BatchExpiringPayload := MkBatchExpiringPayload { ep_BatchID : string; ep_FlavorID : string; ep_ExpiresAt : Z }.

Record NEnvelope (Data : Type) := MkNEnvelope {
  nv_SpecVersion : string; nv_ID : string; nv_Type : string; nv_Time : Z; nv_Data : option Data
}.
Arguments nv_SpecVersion {Data} _.
Arguments nv_ID {Data} _.
Arguments nv_Type {Data} _.
Arguments nv_Time {Data} _.
Arguments nv_Data {Data} _.

(** [json.Unmarshal] into the types the service decodes. *)
Class NJson := {
  NBody : Type;
  NPayload : Type;
  n_envelope : NBody → option (NEnvelope NPayload);
  n_placed : NPayload → option (string * string);
  n_queued : NPayload → option OrderQueuedPayload;
  n_ready : NPayload → option OrderReadyPayload;
  n_cancelled : NPayload → option OrderCancelledPayload;
  n_low : NPayload → option BatchLowStockPayload;
  n_expiring : NPayload → option BatchExpiringPayload
}.

Section dispatch.
Context (lim : Limits) {json : NJson}.
Implicit Types (clock : nat → Z) (s : Service).

Definition NParse (body : NBody) : option (NEnvelope NPayload) :=
  match n_envelope body with
  | None => None
  | Some e =>
      if negb (bool_decide (nv_SpecVersion e = "1.0")) then None
      else if bool_decide (nv_ID e = uuid_nil) then None
      else if bool_decide (nv_Type e = "") || bool_decide (nv_Data e = None) then None
      else Some e
  end.

(** The new state; [None] for a message that is rejected. *)
Definition NDispatch (body : NBody) clock s : option Service :=
  env ← NParse body;
  data ← nv_Data env;
  let id := nv_ID env in
  let time := nv_Time env in
  if bool_decide (nv_Type env = NTypePlaced) then
    '(order, customer) ← n_placed data;
    if bool_decide (order = uuid_nil) || bool_decide (customer = uuid_nil) then None
    else Some (OrderPlaced lim id order customer clock s)
  else if bool_decide (nv_Type env = NTypeQueued) then
    d ← n_queued data;
    if bool_decide (qp_OrderID d = uuid_nil) || bool_decide (qp_CustomerID d = uuid_nil) then None
    else Some (OrderQueued lim id time (qp_OrderID d) (qp_CustomerID d) (qp_QueueNumber d) (qp_PickupSlotID d) (qp_PickupAt d) clock s)
  else if bool_decide (nv_Type env = NTypeReady) then
    d ← n_ready data;
    if bool_decide (yp_OrderID d = uuid_nil) then None
    else Some (OrderReady lim id time (yp_OrderID d) (yp_CustomerID d) (yp_QueueNumber d) (yp_PickupSlotID d) clock s)
  else if bool_decide (nv_Type env = NTypeCancelled) then
    d ← n_cancelled data;
    if bool_decide (xp_OrderID d = uuid_nil) then None
    else Some (OrderCancelled lim id time (xp_OrderID d) (xp_CustomerID d) (xp_Reason d) clock s)
  else if bool_decide (nv_Type env = NTypeBatchLow) then
    d ← n_low data;
    Some (BatchLowStock lim id time (lp_BatchID d) (lp_FlavorID d) (lp_Remaining d) (lp_Threshold d) clock s)
  else if bool_decide (nv_Type env = NTypeBatchExpiring) then
    d ← n_expiring data;
    Some (BatchExpiring lim id time (ep_BatchID d) (ep_FlavorID d) (ep_ExpiresAt d) clock s)
  else Some s.

(** How a delivery is answered: acknowledged, or rejected to the dead-letter
    queue. *)
Inductive Verdict := Acked | DeadLettered.
Definition HandleDelivery (body : NBody) clock s : Verdict * Service :=
  match NDispatch body clock s with
  | Some s' => (Acked, s')
  | None => (DeadLettered, s)
  end.
End dispatch.

(** ** Opening a stream *)

Section stream.
Context {uuid : UuidLib} {jwt : Jwt}.

Definition nclaims_ok (c : Claims) : bool :=
  bool_decide (is_Some (cl_IssuedAt c)) && bool_decide (is_Some (cl_ExpiresAt c)) &&
  bool_decide (is_Some (uuid_parse (cl_Subject c))) && Role_Valid (cl_Role c).

Definition NVerifier_Parse (v : Verifier) (raw : string) : option Claims :=
  c ← ParseWithClaims (vf_secret v) (vf_issuer v) (vf_audience v) raw;
  if nclaims_ok c then Some c else None.

(** [strings.Cut(s, " ")]. *)
Fixpoint cut_space (acc : string) (s : string) : option (string * string) :=
  match s with
  | EmptyString => None
  | String c rest => if bool_decide (byte_of c = 32) then Some (acc, rest) else cut_space (acc +:+ String c EmptyString) rest
  end.

Definition authenticate (v : Verifier) (values : list string) : option Claims :=
  match values with
  | [value] =>
      match cut_space "" value with
      | Some (scheme, token) =>
          if negb (equal_fold scheme "Bearer") || bool_decide (trim_space token = "") then None
          else NVerifier_Parse v (trim_space token)
      | None => None
      end
  | _ => None
  end.

(** The last event id the client names: header first, then the spellings of the
    query parameter. *)
Definition last_event_id (header q1 q2 q3 : string) : string :=
  if negb (bool_decide (header = "")) then header
  else if negb (bool_decide (q1 = "")) then q1
  else if negb (bool_decide (q2 = "")) then q2
  else q3.

(** Whether to replay, and after which id. *)
Definition replay_from (raw : string) : option string :=
  if bool_decide (raw = "") then Some uuid_nil else uuid_parse (trim_space raw).

Definition missed (user role raw : string) (now : Z) (b : ReplayBuffer) : list Notification :=
  match replay_from raw with
  | Some lastEventID => ReplayFor user role lastEventID now b
  | None => []
  end.
End stream.
