(* ===== verification/NotEvents.v ===== *)
(** Notification service: a message decodes to an event, and the service applies
    each event it has not seen.  What redeliveries do and do not change, and to
    whom a notification can get. *)

From S2P Require Import Prelude GoStd InvModel FulModel NotModel NotReplay NotService.

(** ** Events *)

Inductive NEvent :=
  | EvPlaced (id order customer : string)
  | EvQueued (id : string) (time : Z) (order customer queue slot : string) (pickup : Z)
  | EvReady (id : string) (time : Z) (order customer queue slot : string)
  | EvCancelled (id : string) (time : Z) (order customer reason : string)
  | EvLow (id : string) (time : Z) (batch flavor : string) (remaining threshold : Z)
  | EvExpiring (id : string) (time : Z) (batch flavor : string) (expires : Z)
  | EvIgnored.

Definition event_id (e : NEvent) : option string :=
  match e with
  | EvPlaced id _ _ | EvQueued id _ _ _ _ _ _ | EvReady id _ _ _ _ _ | EvCancelled id _ _ _ _
  | EvLow id _ _ _ _ _ | EvExpiring id _ _ _ _ => Some id
  | EvIgnored => None
  end.

Section events.
Context (lim : Limits) {json : NJson}.
Implicit Types (clock : nat → Z) (s : Service).

Definition decode (body : NBody) : option NEvent :=
  env ← NParse body;
  data ← nv_Data env;
  let id := nv_ID env in
  let time := nv_Time env in
  if bool_decide (nv_Type env = NTypePlaced) then
    '(order, customer) ← n_placed data;
    if bool_decide (order = uuid_nil) || bool_decide (customer = uuid_nil) then None
    else Some (EvPlaced id order customer)
  else if bool_decide (nv_Type env = NTypeQueued) then
    d ← n_queued data;
    if bool_decide (qp_OrderID d = uuid_nil) || bool_decide (qp_CustomerID d = uuid_nil) then None
    else Some (EvQueued id time (qp_OrderID d) (qp_CustomerID d) (qp_QueueNumber d) (qp_PickupSlotID d) (qp_PickupAt d))
  else if bool_decide (nv_Type env = NTypeReady) then
    d ← n_ready data;
    if bool_decide (yp_OrderID d = uuid_nil) then None
    else Some (EvReady id time (yp_OrderID d) (yp_CustomerID d) (yp_QueueNumber d) (yp_PickupSlotID d))
  else if bool_decide (nv_Type env = NTypeCancelled) then
    d ← n_cancelled data;
    if bool_decide (xp_OrderID d = uuid_nil) then None
    else Some (EvCancelled id time (xp_OrderID d) (xp_CustomerID d) (xp_Reason d))
  else if bool_decide (nv_Type env = NTypeBatchLow) then
    d ← n_low data;
    Some (EvLow id time (lp_BatchID d) (lp_FlavorID d) (lp_Remaining d) (lp_Threshold d))
  else if bool_decide (nv_Type env = NTypeBatchExpiring) then
    d ← n_expiring data;
    Some (EvExpiring id time (ep_BatchID d) (ep_FlavorID d) (ep_ExpiresAt d))
  else Some EvIgnored.

(** The notification an event stands for. *)
Definition note (e : NEvent) : option Notification :=
  match e with
  | EvQueued id time order _ queue slot pickup =>
      Some (MkNotification id NTypeOrderConfirmed "Your gelato order is confirmed." time (DQueued order queue pickup slot))
  | EvReady id time order _ queue slot =>
      Some (MkNotification id NTypeOrderReady "Your gelato order is ready for pickup!" time (DReady order queue slot))
  | EvCancelled id time order _ reason =>
      Some (MkNotification id NTypeOrderCancelled "Your gelato order was cancelled." time (DCancelled order reason))
  | EvLow id time batch flavor remaining threshold =>
      Some (MkNotification id NTypeLowStock "A gelato batch is running low." time (DLowStock batch flavor remaining threshold))
  | EvExpiring id time batch flavor expires =>
      Some (MkNotification id NTypeExpiring "A gelato batch is about to expire." time (DExpiring batch flavor expires))
  | EvPlaced _ _ _ | EvIgnored => None
  end.

(** What an event does, its first time: remember the owner, notify the
    customer, notify the customer or the remembered owner, or notify the
    kitchen. *)
Definition effect (e : NEvent) clock s : Service :=
  match note e, e with
  | _, EvPlaced _ order customer => put_owner lim order customer (clock 0%nat) s
  | Some n, EvQueued _ _ order customer _ _ _ =>
      push_user customer n (clock 1%nat) (put_owner lim order customer (clock 0%nat) s)
  | Some n, EvReady _ _ order customer _ _ | Some n, EvCancelled _ _ order customer _ => toOrderOwner order customer n clock s
  | Some n, _ => push_roles n clock s
  | None, _ => s
  end.

Definition apply_new (e : NEvent) clock s : Service :=
  match event_id e with Some id => if_new lim id (effect e clock) s | None => s end.

Lemma HandleDelivery_decode body clock s :
  HandleDelivery lim body clock s =
    match decode body with Some e => (Acked, apply_new e clock s) | None => (DeadLettered, s) end.
Proof.
  unfold HandleDelivery, NDispatch, decode. destruct (NParse body) as [env|]; [|done]. cbn.
  destruct (nv_Data env) as [data|]; [|done]. cbn.
  repeat case_bool_decide; try done.
  all: match goal with |- context [?m ≫= _] => destruct m as [[]|]; [|done] end; cbn.
  all: repeat case_bool_decide; done.
Qed.

(** ** The memory of event ids *)

(** The set is the last [max] ids that were new when they came. *)
Record seen_ok (max : nat) (marked : list string) (se : seenSet) : Prop := {
  sk_order : se_order se = last_n max marked;
  sk_ids : ∀ id, id ∈ se_ids se ↔ id ∈ se_order se;
  sk_nodup : NoDup (se_order se)
}.

Lemma forget_ok max ids order : NoDup order → (∀ id, id ∈ ids ↔ id ∈ order) →
  seen_ok max order (forget max ids order).
Proof.
  revert ids. induction order as [|id order IH]; intros ids Hnd Hids; [by split|].
  apply NoDup_cons in Hnd as Hnd'. destruct Hnd' as [Hid Hnd']. cbn. case_bool_decide as Hlen.
  - destruct (IH (ids ∖ {[id]}) Hnd') as [Ho Hi Hn].
    { intros x. rewrite elem_of_difference, elem_of_singleton, Hids, elem_of_cons. naive_solver. }
    split; [|done..]. rewrite Ho. unfold last_n. cbn [length] in *. destruct (decide (length order = max)) as [<-|Hne].
    + replace (S (length order) - length order)%nat with 1%nat by lia. by rewrite Nat.sub_diag.
    + replace (S (length order) - max)%nat with (S (length order - max)) by lia. done.
  - split; [|done..]. rewrite last_n_all by (cbn in *; lia). done.
Qed.

Lemma markNew_ok max marked id se : seen_ok max marked se →
  if bool_decide (id ∈ last_n max marked) then markNew max id se = (false, se)
  else ∃ se', markNew max id se = (true, se') ∧ seen_ok max (marked ++ [id]) se'.
Proof.
  intros [Ho Hi Hn]. unfold markNew. rewrite <-Ho. case_bool_decide as Hin.
  - by rewrite bool_decide_eq_true_2 by (by apply Hi).
  - rewrite bool_decide_eq_false_2 by (by rewrite Hi). eexists. split; [done|].
    destruct (forget_ok max (se_ids se ∪ {[id]}) (se_order se ++ [id])) as [Ho' Hi' Hn'].
    { apply NoDup_app. split_and!; [done| |apply NoDup_singleton]. intros x Hx ->%list_elem_of_singleton. done. }
    { intros x. rewrite elem_of_union, elem_of_singleton, elem_of_app, list_elem_of_singleton. by rewrite Hi. }
    split; [|done..]. rewrite Ho', Ho. apply last_n_snoc.
Qed.

(** ** Redelivery *)

Definition nrun (msgs : list (NBody * (nat → Z))) s : Service :=
  foldl (λ s m, (HandleDelivery lim m.1 m.2 s).2) s msgs.

(** The events that take effect: those whose id is not among the last [lm_seen]
    that did. *)
Fixpoint accepted (marked : list string) (msgs : list (NBody * (nat → Z))) : list (NEvent * (nat → Z)) :=
  match msgs with
  | [] => []
  | (body, clock) :: msgs =>
      match (e ← decode body; id ← event_id e; Some (e, id)) with
      | Some (e, id) =>
          if bool_decide (id ∈ last_n (lm_seen lim) marked) then accepted marked msgs
          else (e, clock) :: accepted (marked ++ [id]) msgs
      | None => accepted marked msgs
      end
  end.

(** The ids of the messages that name an event of this service. *)
Definition message_ids (msgs : list (NBody * (nat → Z))) : list string :=
  omap (λ m, decode m.1 ≫= event_id) msgs.

Definition fresh_service (owners : ownerMap) (out : Delivery) : Service := MkService owners (MkSeen ∅ []) out.

Definition same_out s1 s2 : Prop := sv_owners s1 = sv_owners s2 ∧ sv_out s1 = sv_out s2.

(** Effects do not look at the memory of ids. *)
Lemma effect_out e clock s1 s2 : same_out s1 s2 → same_out (effect e clock s1) (effect e clock s2).
Proof.
  destruct s1 as [o1 m1 d1], s2 as [o2 m2 d2]. intros [Ho Hd]. cbn in *. subst o2 d2.
  destruct e; unfold effect, same_out, toOrderOwner, push_user, push_roles, put_owner; cbn; try done.
  all: case_bool_decide; [|done]; destruct (om_get _ _ _) as [[]]; done.
Qed.
Lemma effect_seen e clock s : sv_seen (effect e clock s) = sv_seen s.
Proof.
  destruct e; unfold effect, toOrderOwner, push_user, push_roles, put_owner; cbn; try done.
  all: case_bool_decide; [|done]; destruct (om_get _ _ _) as [[]]; done.
Qed.

Lemma nrun_accepted marked msgs s s' : seen_ok (lm_seen lim) marked (sv_seen s) → same_out s s' →
  same_out (nrun msgs s) (foldl (λ s m, effect m.1 m.2 s) s' (accepted marked msgs)).
Proof.
  revert marked s s'. induction msgs as [|[body clock] msgs IH]; intros marked s s' Hseen Hsame; [done|]. cbn.
  rewrite HandleDelivery_decode. destruct (decode body) as [e|]; cbn; [|by apply IH].
  unfold apply_new. destruct (event_id e) as [id|]; cbn; [|by apply IH].
  pose proof (markNew_ok _ _ id _ Hseen) as Hm. unfold if_new. case_bool_decide.
  - rewrite Hm. by apply IH.
  - destruct Hm as (se' & -> & Hse'). cbn. apply IH; [by rewrite effect_seen|]. apply effect_out.
    destruct Hsame. by split.
Qed.

Definition accepted_ids (marked : list string) (msgs : list (NBody * (nat → Z))) : list string :=
  omap (λ m, event_id m.1) (accepted marked msgs).

(** While the memory can hold every id, nothing is forgotten. *)
Lemma accepted_once marked msgs : NoDup marked →
  (size (list_to_set (marked ++ message_ids msgs) : gset string) ≤ lm_seen lim)%nat →
  NoDup (marked ++ accepted_ids marked msgs) ∧
  ∀ id, id ∈ marked ++ message_ids msgs ↔ id ∈ marked ++ accepted_ids marked msgs.
Proof.
  revert marked. induction msgs as [|[body clock] msgs IH]; intros marked Hnd Hsz; unfold accepted_ids in *; cbn in *.
  { by rewrite app_nil_r. }
  unfold message_ids in *. cbn in *. destruct (decode body) as [e|]; cbn in *; [|by apply IH].
  destruct (event_id e) as [id|] eqn:Hid; cbn in *; [|by apply IH].
  rewrite last_n_all; cycle 1.
  { etrans; [|exact Hsz]. rewrite list_to_set_app_L, <-(size_list_to_set (C := gset string) marked Hnd).
    apply subseteq_size. set_solver. }
  case_bool_decide as Hin.
  - destruct (IH marked Hnd) as [H1 H2]; [by replace (list_to_set (marked ++ _) : gset string) with
      (list_to_set (marked ++ id :: omap (λ m, decode m.1 ≫= event_id) msgs) : gset string) by set_solver|].
    split; [done|]. intros x. rewrite <-H2, !elem_of_app, elem_of_cons. naive_solver.
  - cbn. rewrite Hid. destruct (IH (marked ++ [id])) as [H1 H2].
    + apply NoDup_app. split_and!; [done| |apply NoDup_singleton]. by intros x Hx ->%list_elem_of_singleton.
    + by rewrite <-app_assoc.
    + rewrite <-!app_assoc in H1. split; [done|]. intros x. specialize (H2 x). by rewrite <-!app_assoc in H2.
Qed.

(** C21.  Redelivery changes nothing.  The broker delivers at least once, so a
    message may come again at any time.  Whatever messages come, poison and
    foreign ones included, the owners and everything sent out are what the
    effects of the accepted events make of them, each applied once and in
    order: an event is left out exactly when its id is among the last
    [lm_seen] accepted ones.  And as long as no more than [lm_seen] different
    ids have come, every id takes effect once, at its first arrival. *)
Theorem each_event_once msgs owners out :
  let s := fresh_service owners out in
  same_out (nrun msgs s) (foldl (λ s m, effect m.1 m.2 s) s (accepted [] msgs)) ∧
  ((size (list_to_set (message_ids msgs) : gset string) ≤ lm_seen lim)%nat →
    NoDup (accepted_ids [] msgs) ∧ ∀ id, id ∈ message_ids msgs ↔ id ∈ accepted_ids [] msgs).
Proof.
  intros s. split.
  - apply nrun_accepted; [|done]. split; cbn; [done| |constructor]. set_solver.
  - intros Hsz. apply (accepted_once [] msgs); [constructor|done].
Qed.
End events.
