(* ===== verification/NotRouting.v ===== *)
(** Notification service: who can see a notification.  The state of the whole
    service under messages, connections and the clean-up, with the events
    applied so far, and the bounds of its memory. *)

From S2P Require Import Prelude GoStd InvModel FulModel FulHandler NotModel NotReplay NotService NotEvents.

(** ** Runs of the service *)

Definition set_hub (h : Hub) (s : Service) : Service :=
  MkService (sv_owners s) (sv_seen s) (MkDelivery h (dv_buffer (sv_out s))).
Definition set_buffer (b : ReplayBuffer) (s : Service) : Service :=
  MkService (sv_owners s) (sv_seen s) (MkDelivery (dv_hub (sv_out s)) b).

(** A connection takes the oldest notification of its channel. *)
Definition receive (c : nat) (h : Hub) : Hub :=
  MkHub (alter (λ s, MkSubscriber (sb_userID s) (sb_role s) (drop 1 (sb_ch s))) c (hb_subs h)) (hb_buffer h) (hb_next h).

Section runs.
Context (lim : Limits) {json : NJson}.
Implicit Types (s : Service) (evs : list NEvent).

(** States that can be reached, with the events that were delivered. *)
Inductive nreach (buffer maxEvents ttl : Z) : list NEvent → Service → Prop :=
  | nr_start : nreach buffer maxEvents ttl []
      (MkService (MkOwnerMap ∅ []) (MkSeen ∅ []) (MkDelivery (newHub buffer) (newReplayBuffer maxEvents ttl)))
  | nr_event evs s body clock e : nreach buffer maxEvents ttl evs s → decode body = Some e →
      nreach buffer maxEvents ttl (evs ++ [e]) (HandleDelivery lim body clock s).2
  | nr_poison evs s body clock : nreach buffer maxEvents ttl evs s → decode body = None →
      nreach buffer maxEvents ttl evs (HandleDelivery lim body clock s).2
  | nr_subscribe evs s user role : nreach buffer maxEvents ttl evs s →
      nreach buffer maxEvents ttl evs (set_hub (Subscribe user role (dv_hub (sv_out s))).2 s)
  | nr_unsubscribe evs s c : nreach buffer maxEvents ttl evs s →
      nreach buffer maxEvents ttl evs (set_hub (Unsubscribe c (dv_hub (sv_out s))) s)
  | nr_receive evs s c : nreach buffer maxEvents ttl evs s →
      nreach buffer maxEvents ttl evs (set_hub (receive c (dv_hub (sv_out s))) s)
  | nr_clean evs s now : nreach buffer maxEvents ttl evs s →
      nreach buffer maxEvents ttl evs (set_buffer (CleanExpired now (dv_buffer (sv_out s))) s)
  | nr_clear evs s : nreach buffer maxEvents ttl evs s →
      nreach buffer maxEvents ttl evs (set_buffer (Clear (dv_buffer (sv_out s))) s).

(** ** For whom an event is *)

(** The event names [c] as the customer of the order. *)
Definition names_owner (e : NEvent) (order c : string) : Prop :=
  match e with
  | EvPlaced _ o c' | EvQueued _ _ o c' _ _ _ => o = order ∧ c' = c
  | _ => False
  end.

(** The order and the customer an event is about. *)
Definition about_order (e : NEvent) : option (string * string) :=
  match e with
  | EvQueued _ _ o c _ _ _ | EvReady _ _ o c _ _ | EvCancelled _ _ o c _ => Some (o, c)
  | _ => None
  end.

(** [n] is meant for [c]: it stands for an event about an order of [c], as the
    event says, or, when it names no customer, as an earlier event said. *)
Definition meant_for evs (n : Notification) (c : string) : Prop :=
  ∃ before e after order c', evs = before ++ e :: after ∧ note e = Some n ∧ about_order e = Some (order, c') ∧
    ((c' ≠ uuid_nil ∧ c' = c) ∨ (c' = uuid_nil ∧ ∃ e0, e0 ∈ before ∧ names_owner e0 order c)).

(** [n] is an alert for the kitchen. *)
Definition kitchen_alert evs (n : Notification) : Prop :=
  ∃ e, e ∈ evs ∧ note e = Some n ∧ about_order e = None.
Definition kitchen_role (r : string) : Prop := r ∈ [RoleStaff; RoleManager].

(** What may be shown to a user with a role. *)
Definition may_be_shown evs (user role : string) (n : Notification) : Prop :=
  meant_for evs n user ∨ (kitchen_alert evs n ∧ kitchen_role role).

Lemma meant_app evs e n c : meant_for evs n c → meant_for (evs ++ [e]) n c.
Proof.
  intros (b & e' & a & o & c' & -> & H). exists b, e', (a ++ [e]), o, c'. rewrite <-app_assoc. by split.
Qed.
Lemma alert_app evs e n : kitchen_alert evs n → kitchen_alert (evs ++ [e]) n.
Proof. intros (e' & Hin & H). exists e'. rewrite elem_of_app. tauto. Qed.
Lemma may_be_shown_app evs e u r n : may_be_shown evs u r n → may_be_shown (evs ++ [e]) u r n.
Proof. intros [H|[H Hr]]; [left; by apply meant_app|right; split; [by apply alert_app|done]]. Qed.

(** ** The invariant *)

Record routed evs (owners : ownerMap) (out : Delivery) : Prop := {
  rt_owners : ∀ o ent, om_entries owners !! o = Some ent → ∃ e, e ∈ evs ∧ names_owner e o (ow_customerID ent);
  rt_subs : ∀ k sub, hb_subs (dv_hub out) !! k = Some sub →
    Forall (may_be_shown evs (sb_userID sub) (sb_role sub)) (sb_ch sub);
  rt_users : ∀ c rb, rp_customers (dv_buffer out) !! c = Some rb →
    Forall (λ it, meant_for evs (bi_notification it) c) (rb_items rb);
  rt_roles : ∀ r rb, rp_roles (dv_buffer out) !! r = Some rb →
    Forall (λ it, kitchen_alert evs (bi_notification it) ∧ kitchen_role r) (rb_items rb)
}.

Lemma routed_app evs e owners out : routed evs owners out → routed (evs ++ [e]) owners out.
Proof.
  intros [Ho Hs Hu Hr]. split.
  - intros o ent Hl. destruct (Ho o ent Hl) as (e' & Hin & H). exists e'. rewrite elem_of_app. tauto.
  - intros k sub Hl. eapply Forall_impl; [by eapply Hs|]. intros n. apply may_be_shown_app.
  - intros c rb Hl. eapply Forall_impl; [by eapply Hu|]. intros n. apply meant_app.
  - intros r rb Hl. eapply Forall_impl; [by eapply Hr|]. intros n [H ?]. split; [by apply alert_app|done].
Qed.

(** *** The parts *)

Lemma offer_loop_Forall (P : Notification → Prop) k buffer n ch : P n → Forall P ch →
  Forall P (offer_loop k buffer n ch).2.
Proof.
  intros Hn. revert ch. induction k as [|k IH]; intros ch Hch; cbn; [done|]. case_bool_decide; cbn.
  - apply Forall_app. by split; [|constructor].
  - by apply IH, Forall_drop.
Qed.

Lemma offer_user buffer n sub : sb_userID (offer buffer n sub).2 = sb_userID sub ∧ sb_role (offer buffer n sub).2 = sb_role sub.
Proof. unfold offer. by destruct (offer_loop _ _ _ _). Qed.
Lemma offer_ch buffer n sub : sb_ch (offer buffer n sub).2 = (offer_loop 2 buffer n (sb_ch sub)).2.
Proof. unfold offer. by destruct (offer_loop _ _ _ _). Qed.

Lemma push_subs evs n match_ h : (∀ sub, match_ sub = true → may_be_shown evs (sb_userID sub) (sb_role sub) n) →
  (∀ k sub, hb_subs h !! k = Some sub → Forall (may_be_shown evs (sb_userID sub) (sb_role sub)) (sb_ch sub)) →
  ∀ k sub, hb_subs (push n match_ h).2 !! k = Some sub → Forall (may_be_shown evs (sb_userID sub) (sb_role sub)) (sb_ch sub).
Proof.
  intros Hm Hs k sub. cbn. rewrite lookup_fmap, fmap_Some. intros (sub0 & Hl & ->).
  destruct (match_ sub0) eqn:Hmatch; [|by eapply Hs]. destruct (offer_user (hb_buffer h) n sub0) as [-> ->].
  rewrite offer_ch. apply offer_loop_Forall; [by apply Hm|by eapply Hs].
Qed.

Lemma rb_add_Forall (P : bufferedItem → Prop) n now rb : P (MkItemAt n now) → Forall P (rb_items rb) →
  Forall P (rb_items (rb_add n now rb)).
Proof.
  intros Hn Hrb. unfold rb_add. case_bool_decide; cbn; [apply Forall_app; by split; [|constructor]|].
  by apply Forall_insert.
Qed.

(** Adding under one key. *)
Lemma add_unique_Forall (P : string → bufferedItem → Prop) max key n now m : P key (MkItemAt n now) →
  (∀ k rb, m !! k = Some rb → Forall (P k) (rb_items rb)) →
  ∀ k rb, add_unique max key n now m !! k = Some rb → Forall (P k) (rb_items rb).
Proof.
  intros Hn Hm k rb. unfold add_unique. destruct (decide (key = k)) as [<-|Hne]; [|rewrite lookup_insert_ne by done; apply Hm].
  rewrite lookup_insert_eq. intros [= <-].
  assert (Forall (P key) (rb_items (default (newCustomerRingBuffer max) (m !! key)))) as Hold.
  { destruct (m !! key) eqn:Hl; cbn; [by eapply Hm|constructor]. }
  case_match; [done|]. by apply rb_add_Forall.
Qed.

Lemma add_roles_Forall (P : string → Notification → Prop) max n rs clock m : Forall (λ r, P r n) rs →
  (∀ k rb, m !! k = Some rb → Forall (λ it, P k (bi_notification it)) (rb_items rb)) →
  ∀ k rb, add_roles max n rs clock m !! k = Some rb → Forall (λ it, P k (bi_notification it)) (rb_items rb).
Proof.
  intros Hn. revert clock m. induction Hn as [|r rs Hr Hn IH]; intros clock m Hm; cbn; [done|].
  apply IH. by apply (add_unique_Forall (λ k it, P k (bi_notification it))).
Qed.

Lemma evict_lookup max entries order o ent : om_entries (evict max entries order) !! o = Some ent → entries !! o = Some ent.
Proof.
  revert entries. induction order as [|x order IH]; intros entries; cbn; [done|]. case_bool_decide; [|done].
  intros [_ ?]%IH%lookup_delete_Some. done.
Qed.

(** *** The operations of the service *)

Lemma routed_put evs owners out o c now e : e ∈ evs → names_owner e o c → routed evs owners out →
  routed evs (om_put (lm_ttl lim) (lm_orders lim) o c now owners) out.
Proof.
  intros Hin Hn [Ho Hs Hu Hr]. split; [|done..]. intros o' ent. unfold om_put. intros Hl%evict_lookup.
  apply lookup_insert_Some in Hl as [[<- <-]|[_ Hl]]; eauto.
Qed.

Lemma routed_get evs owners out o now : routed evs owners out →
  routed evs (om_get o now owners).2 out ∧
  ∀ c, (om_get o now owners).1 = Some c → ∃ e, e ∈ evs ∧ names_owner e o c.
Proof.
  intros Hrt. unfold om_get. destruct (om_entries owners !! o) as [ent|] eqn:Hl; [|by split].
  destruct (negb _); cbn; split; try done.
  - destruct Hrt as [Ho Hs Hu Hr]. split; [|done..]. cbn. intros o' ent' [_ Hl']%lookup_delete_Some. by apply Ho.
  - intros c [= <-]. by apply (rt_owners _ _ _ Hrt).
Qed.

Lemma routed_push_user evs owners out c n now : meant_for evs n c → routed evs owners out →
  routed evs owners (PushToUser c n now out).2.
Proof.
  intros Hn [Ho Hs Hu Hr]. split; [done| | |].
  - apply (push_subs evs n); [|done]. intros sub <-%bool_decide_eq_true. by left.
  - cbn. unfold Add. case_match; [done|]. cbn.
    by apply (add_unique_Forall (λ k it, meant_for evs (bi_notification it) k)).
  - cbn. unfold Add. by case_match.
Qed.

Lemma routed_push_roles evs owners out n clock : kitchen_alert evs n → routed evs owners out →
  routed evs owners (PushToRoles n [RoleStaff; RoleManager] clock out).2.
Proof.
  intros Hn [Ho Hs Hu Hr]. split; [done| | |].
  - apply (push_subs evs n); [|done]. intros sub (r & Hin & Hr'%bool_decide_eq_true)%existsb_exists.
    right. split; [done|]. unfold kitchen_role. rewrite Hr'. by apply list_elem_of_In.
  - cbn -[add_roles]. unfold AddForRoles. by case_match.
  - cbn -[add_roles]. unfold AddForRoles. case_match; [done|]. cbn -[add_roles].
    apply (add_roles_Forall (λ k n, kitchen_alert evs n ∧ kitchen_role k)); [|done].
    unfold kitchen_role. repeat constructor; done || set_solver.
Qed.

(** A queued order always names its customer. *)
Lemma decode_queued body id t o c q sl p : decode body = Some (EvQueued id t o c q sl p) → c ≠ uuid_nil.
Proof.
  unfold decode. destruct (NParse body) as [env|]; [|done]. cbn. destruct (nv_Data env) as [data|]; [|done]. cbn.
  repeat case_bool_decide; try done.
  all: match goal with |- context [?m ≫= _] => destruct m as [[]|]; [|done] end; cbn.
  all: repeat case_bool_decide; cbn; congruence.
Qed.

(** An event about an order reaches the customer it names or, if it names
    none, the one that is remembered. *)
Lemma toOrderOwner_routed evs e s o c n clock : note e = Some n → about_order e = Some (o, c) →
  routed evs (sv_owners s) (sv_out s) →
  let s' := toOrderOwner o c n clock s in routed (evs ++ [e]) (sv_owners s') (sv_out s').
Proof.
  intros Hn Ha Hrt. unfold toOrderOwner. case_bool_decide as Hc.
  - destruct (routed_get evs _ _ o (clock 0%nat) Hrt) as [Hrt' Hown].
    destruct (om_get o (clock 0%nat) (sv_owners s)) as [[c'|] owners']; cbn in *; [|by apply routed_app].
    apply routed_push_user; [|by apply routed_app].
    destruct (Hown c' eq_refl) as (e0 & Hin & Hnm). exists evs, e, [], o, c. split_and!; [done..|]. right. eauto.
  - cbn. apply routed_push_user; [|by apply routed_app]. exists evs, e, [], o, c. split_and!; [done..|]. by left.
Qed.

Lemma effect_routed evs e clock s : (∀ id t o c q sl p, e = EvQueued id t o c q sl p → c ≠ uuid_nil) →
  routed evs (sv_owners s) (sv_out s) →
  let s' := effect lim e clock s in routed (evs ++ [e]) (sv_owners s') (sv_out s').
Proof.
  intros Hq Hrt. pose proof (routed_app _ e _ _ Hrt) as Hrt'.
  assert (e ∈ evs ++ [e]) as Hin by set_solver.
  destruct e as [id o c|id t o c q sl p|id t o c q sl|id t o c r|id t b f r th|id t b f x|]; cbn -[note]; try done.
  - by eapply routed_put.
  - apply routed_push_user; [|by eapply routed_put].
    eexists evs, _, [], o, c. split_and!; [done..|]. left. split; [by eapply Hq|done].
  - by eapply toOrderOwner_routed.
  - by eapply toOrderOwner_routed.
  - apply routed_push_roles; [|done]. by eexists.
  - apply routed_push_roles; [|done]. by eexists.
Qed.

Lemma deliver_routed evs body clock e s : decode body = Some e → routed evs (sv_owners s) (sv_out s) →
  let s' := (HandleDelivery lim body clock s).2 in routed (evs ++ [e]) (sv_owners s') (sv_out s').
Proof.
  intros Hdec Hrt. rewrite HandleDelivery_decode, Hdec. cbn. unfold apply_new, if_new.
  destruct (event_id e) as [id|]; [|by apply routed_app].
  destruct (markNew _ _ _) as [[] seen]; [|by apply routed_app].
  apply effect_routed; [|done]. intros; subst e. by eapply decode_queued.
Qed.

Lemma nreach_routed buffer maxEvents ttl evs s : nreach buffer maxEvents ttl evs s → routed evs (sv_owners s) (sv_out s).
Proof.
  induction 1 as [|evs s body clock e Hr IH Hd|evs s body clock Hr IH Hd|evs s u r Hr IH|evs s c Hr IH|evs s c Hr IH|evs s t Hr IH|evs s Hr IH].
  - split; cbn; intros k ?; by rewrite lookup_empty.
  - by apply deliver_routed.
  - by rewrite HandleDelivery_decode, Hd.
  - destruct IH as [Ho Hs Hu Hro]. split; try done. cbn. intros k sub [[<- <-]|[_ Hl]]%lookup_insert_Some; [constructor|eauto].
  - destruct IH as [Ho Hs Hu Hro]. split; try done. cbn. intros k sub [_ Hl]%lookup_delete_Some. eauto.
  - destruct IH as [Ho Hs Hu Hro]. split; try done. cbn. intros k sub Hl.
    apply lookup_alter_Some in Hl as [(-> & sub0 & Hl & ->)|[_ Hl]]; cbn; [apply Forall_drop|]; eauto.
  - destruct IH as [Ho Hs Hu Hro]. split; try done; cbn; unfold keep_valid; intros k rb [Hl _]%map_lookup_filter_Some; eauto.
  - destruct IH as [Ho Hs Hu Hro]. split; try done; cbn; intros k ?; by rewrite lookup_empty.
Qed.

(** *** What a replay can show *)

Lemma valid_loop_items now ttl rb i todo it : it ∈ valid_loop now ttl rb i todo → it ∈ rb_items rb.
Proof.
  revert i. induction todo as [|todo IH]; intros i; cbn; [set_solver|].
  destruct (rb_at rb i) as [x|] eqn:Hat; [|apply IH]. rewrite elem_of_app. intros [Hx|Hx]; [|by eapply IH].
  destruct (fresh_at now ttl x); [|set_solver]. apply list_elem_of_singleton in Hx as ->.
  unfold rb_at in Hat. by eapply list_elem_of_lookup_2.
Qed.

Lemma insert_item_perm x l : insert_item x l ≡ₚ x :: l.
Proof. induction l as [|y l IH]; cbn; [done|]. case_bool_decide; [done|]. rewrite IH. apply Permutation_swap. Qed.
Lemma stable_sort_perm l : stable_sort l ≡ₚ l.
Proof. induction l as [|x l IH]; [done|]. unfold stable_sort in *. cbn. by rewrite insert_item_perm, IH. Qed.

Lemma after_id_suffix id l rest : after_id id l = Some rest → rest `suffix_of` l.
Proof.
  induction l as [|n l IH]; cbn; [done|]. case_bool_decide; [intros [= ->]; by exists [n]|].
  intros [k ->]%IH. by exists (n :: k).
Qed.

Lemma ReplayFor_items user role last now b n : n ∈ ReplayFor user role last now b →
  (∃ rb it, rp_customers b !! user = Some rb ∧ it ∈ rb_items rb ∧ bi_notification it = n) ∨
  (∃ rb it, rp_roles b !! role = Some rb ∧ it ∈ rb_items rb ∧ bi_notification it = n).
Proof.
  unfold ReplayFor. set (mine := from_option _ [] _).
  set (items := match rp_roles b !! role with Some _ => _ | None => _ end).
  intros Hn. assert (n ∈ bi_notification <$> items) as (it & -> & Hin)%list_elem_of_fmap.
  { case_bool_decide; [done|]. destruct (after_id last _) as [rest|] eqn:Ha; [|done]. cbn in Hn.
    apply after_id_suffix in Ha as [k Ha]. rewrite Ha. apply elem_of_app. by right. }
  assert (∀ x, x ∈ mine → ∃ rb x', rp_customers b !! user = Some rb ∧ x' ∈ rb_items rb ∧ bi_notification x' = bi_notification x) as Hmine.
  { unfold mine. intros x Hx. destruct (rp_customers b !! user) as [rb|]; cbn in Hx; [|set_solver].
    exists rb, x. split_and!; [done|by eapply valid_loop_items|done]. }
  unfold items in Hin. destruct (rp_roles b !! role) as [rrb|]; [|left; by apply Hmine].
  case_bool_decide; [left; by apply Hmine|]. rewrite stable_sort_perm, elem_of_app in Hin.
  destruct Hin as [Hin|Hin]; [left; by apply Hmine|right]. exists rrb, it. split_and!; [done|by eapply valid_loop_items|done].
Qed.

(** C22.  Notifications are private.  In every state the service can reach,
    whatever messages came, connections opened and closed, and entries expired:
    what waits in a connection's channel, and what a replay would send it, is
    either about an order of that very user - the event named the user as its
    customer, or named nobody and an earlier event had named the user as the
    customer of that order - or a kitchen alert, and then the connection's role
    is STAFF or MANAGER. *)
Theorem notification_privacy buffer maxEvents ttl evs s : nreach buffer maxEvents ttl evs s →
  (∀ k sub, hb_subs (dv_hub (sv_out s)) !! k = Some sub →
    Forall (may_be_shown evs (sb_userID sub) (sb_role sub)) (sb_ch sub)) ∧
  (∀ user role last now, Forall (may_be_shown evs user role) (ReplayFor user role last now (dv_buffer (sv_out s)))).
Proof.
  intros [Ho Hs Hu Hr]%nreach_routed. split; [done|]. intros user role last now. apply Forall_forall. intros n Hn.
  destruct (ReplayFor_items _ _ _ _ _ _ Hn) as [(rb & it & Hl & Hin & <-)|(rb & it & Hl & Hin & <-)].
  - left. specialize (Hu _ _ Hl). rewrite Forall_forall in Hu. by apply Hu.
  - right. specialize (Hr _ _ Hl). rewrite Forall_forall in Hr. by apply Hr.
Qed.

(** ** The bounds of the memory *)

Record bounded (buffer maxEvents ttl : Z) s : Prop := {
  bd_owners : (size (om_entries (sv_owners s)) ≤ lm_orders lim)%nat;
  bd_tracked : ∀ o, is_Some (om_entries (sv_owners s) !! o) → o ∈ om_order (sv_owners s);
  bd_seen : ∃ marked, seen_ok (lm_seen lim) marked (sv_seen s);
  bd_hub : hb_buffer (dv_hub (sv_out s)) = hb_buffer (newHub buffer);
  bd_chans : ∀ k sub, hb_subs (dv_hub (sv_out s)) !! k = Some sub → (length (sb_ch sub) ≤ hb_buffer (newHub buffer))%nat;
  bd_max : rp_maxEvents (dv_buffer (sv_out s)) = rp_maxEvents (newReplayBuffer maxEvents ttl);
  bd_users : ∀ c rb, rp_customers (dv_buffer (sv_out s)) !! c = Some rb →
    ring_ok rb ∧ rb_cap rb = Z.to_nat (rp_maxEvents (newReplayBuffer maxEvents ttl));
  bd_roles : ∀ r rb, rp_roles (dv_buffer (sv_out s)) !! r = Some rb →
    ring_ok rb ∧ rb_cap rb = Z.to_nat (rp_maxEvents (newReplayBuffer maxEvents ttl))
}.

Lemma evict_bounded max entries order : (∀ o, is_Some (entries !! o) → o ∈ order) →
  let m := evict max entries order in
  (size (om_entries m) ≤ max)%nat ∧ ∀ o, is_Some (om_entries m !! o) → o ∈ om_order m.
Proof.
  revert entries. induction order as [|x order IH]; intros entries Hin; cbn [evict].
  - assert (entries = ∅) as ->.
    { apply map_empty. intros o. destruct (entries !! o) eqn:Hl; [|done]. destruct (not_elem_of_nil o). apply Hin. by eexists. }
    cbn [om_entries]. rewrite map_size_empty. split; [lia|]. intros o. by rewrite lookup_empty, is_Some_alt.
  - case_bool_decide; [|split; [cbn [om_entries]; lia|done]]. apply IH. intros o [ent [Hne Hl]%lookup_delete_Some].
    specialize (Hin o (mk_is_Some _ _ Hl)). set_solver.
Qed.

Lemma offer_length k buffer n ch : (length ch ≤ buffer)%nat → (length (offer_loop k buffer n ch).2 ≤ buffer)%nat.
Proof.
  revert ch. induction k as [|k IH]; intros ch Hch; cbn; [done|]. case_bool_decide; cbn.
  - rewrite length_app. cbn. lia.
  - apply IH. rewrite length_drop. lia.
Qed.

Lemma add_unique_bounded max key n now m : 0 < max →
  (∀ k rb, m !! k = Some rb → ring_ok rb ∧ rb_cap rb = Z.to_nat max) →
  ∀ k rb, add_unique max key n now m !! k = Some rb → ring_ok rb ∧ rb_cap rb = Z.to_nat max.
Proof.
  intros Hmax Hm k rb. unfold add_unique. destruct (decide (key = k)) as [<-|Hne]; [|rewrite lookup_insert_ne by done; apply Hm].
  rewrite lookup_insert_eq. intros [= <-].
  assert (ring_ok (default (newCustomerRingBuffer max) (m !! key)) ∧
    rb_cap (default (newCustomerRingBuffer max) (m !! key)) = Z.to_nat max) as [Hok Hc].
  { destruct (m !! key) eqn:Hl; cbn; [by eapply Hm|split; [apply new_ring_ok|by apply new_ring_cap]]. }
  case_match; [done|]. split; [by apply rb_add_ok|]. rewrite <-Hc. unfold rb_add. by case_bool_decide.
Qed.

Section keep.
Context (buffer maxEvents ttl : Z).
#[local] Abbreviation bounded := (bounded buffer maxEvents ttl).

Lemma put_owner_bounded o c now s : bounded s → bounded (put_owner lim o c now s).
Proof.
  intros [H1 H2 H3 H4 H5 H6 H7 H8]. unfold put_owner, om_put. split; cbn -[evict]; try done.
  - apply evict_bounded. intros o' Ho'. rewrite lookup_insert_is_Some in Ho'.
    case_bool_decide as Hex; destruct Ho' as [<-|[_ Ho']]; set_solver.
  - apply evict_bounded. intros o' Ho'. rewrite lookup_insert_is_Some in Ho'.
    case_bool_decide as Hex; destruct Ho' as [<-|[_ Ho']]; set_solver.
Qed.

Lemma push_chans n match_ s : bounded s → let h := dv_hub (sv_out s) in
  ∀ k sub, hb_subs (push n match_ h).2 !! k = Some sub → (length (sb_ch sub) ≤ hb_buffer (newHub buffer))%nat.
Proof.
  intros Hb h k sub. cbn [push snd hb_subs]. rewrite lookup_fmap, fmap_Some. intros (sub0 & Hl & ->).
  pose proof (bd_chans _ _ _ _ Hb _ _ Hl) as Hlen. destruct (match_ sub0); [|done].
  rewrite offer_ch. unfold h. rewrite (bd_hub _ _ _ _ Hb). by apply offer_length.
Qed.

Lemma push_user_bounded c n now s : bounded s → bounded (push_user c n now s).
Proof.
  intros Hb. pose proof (push_chans n (λ x, bool_decide (sb_userID x = c)) s Hb) as Hch.
  destruct Hb as [H1 H2 H3 H4 H5 H6 H7 H8]. unfold push_user. split; try done; cbn; unfold Add; case_match; try done.
  cbn [rp_customers]. rewrite H6. apply add_unique_bounded; [apply (b0_max _ ttl)|done].
Qed.

Lemma push_roles_bounded n clock s : bounded s → bounded (push_roles n clock s).
Proof.
  intros Hb. pose proof (push_chans n (λ x, existsb (λ r, bool_decide (sb_role x = r)) [RoleStaff; RoleManager]) s Hb) as Hch.
  destruct Hb as [H1 H2 H3 H4 H5 H6 H7 H8]. unfold push_roles.
  split; try done; cbn -[add_unique]; unfold AddForRoles; case_match; try done.
  cbn -[add_unique]. rewrite H6.
  apply add_unique_bounded; [apply (b0_max _ ttl)|]. apply add_unique_bounded; [apply (b0_max _ ttl)|done].
Qed.

Lemma om_get_bounded o now s : bounded s → bounded (MkService (om_get o now (sv_owners s)).2 (sv_seen s) (sv_out s)).
Proof.
  intros [H1 H2 H3 H4 H5 H6 H7 H8]. unfold om_get. destruct (om_entries _ !! o) eqn:Hl; [|by split].
  destruct (negb _); split; try done; cbn [sv_owners om_entries om_order snd].
  - etrans; [apply map_subseteq_size, delete_subseteq|done].
  - intros o' [ent [_ Hl']%lookup_delete_Some]. apply H2. by eexists.
Qed.

Lemma toOrderOwner_bounded o c n clock s : bounded s → bounded (toOrderOwner o c n clock s).
Proof.
  intros Hb. unfold toOrderOwner. case_bool_decide; [|by apply push_user_bounded].
  pose proof (om_get_bounded o (clock 0%nat) s Hb) as Hg. destruct (om_get o (clock 0%nat) (sv_owners s)) as [[c'|] ow]; [|done].
  by apply push_user_bounded.
Qed.

Lemma effect_bounded e clock s : bounded s → bounded (effect lim e clock s).
Proof.
  intros Hb. destruct e; cbn -[push_roles push_user put_owner toOrderOwner];
    auto using put_owner_bounded, push_user_bounded, push_roles_bounded, toOrderOwner_bounded.
Qed.

Lemma deliver_bounded body clock s : bounded s → bounded (HandleDelivery lim body clock s).2.
Proof.
  intros Hb. rewrite HandleDelivery_decode. destruct (decode body) as [e|]; [|done]. cbn. unfold apply_new, if_new.
  destruct (event_id e) as [id|]; [|done]. destruct (bd_seen _ _ _ _ Hb) as [marked Hm].
  pose proof (markNew_ok _ _ id _ Hm) as Hn. destruct (bool_decide _); [by rewrite Hn|].
  destruct Hn as (se & -> & Hse). apply effect_bounded. destruct Hb. split; try done. by eexists.
Qed.

Lemma nreach_bounded evs s : nreach buffer maxEvents ttl evs s → bounded s.
Proof.
  intros Hr. induction Hr as [|evs s body clock e Hr IH Hd|evs s body clock Hr IH Hd|evs s u r Hr IH|evs s c Hr IH|evs s c Hr IH|evs s t Hr IH|evs s Hr IH];
    try (by apply deliver_bounded); [|destruct IH as [H1 H2 H3 H4 H5 H6 H7 H8]; split; try done..].
  - split; cbn; try done; try (intros ? ?; by rewrite lookup_empty); try (rewrite map_size_empty; lia);
      try (intros ?; by rewrite lookup_empty, is_Some_alt).
    exists []. split; cbn; [done|set_solver|constructor].
  - cbn. intros k sub [[<- <-]|[_ Hl]]%lookup_insert_Some; cbn; [lia|eauto].
  - cbn. intros k sub [_ Hl]%lookup_delete_Some. eauto.
  - cbn. intros k sub Hl. apply lookup_alter_Some in Hl as [(-> & sub0 & Hl & ->)|[_ Hl]]; cbn; [|eauto].
    rewrite length_drop. specialize (H5 _ _ Hl). cbn in H5. lia.
  - cbn. unfold keep_valid. intros k rb [Hl _]%map_lookup_filter_Some. eauto.
  - cbn. unfold keep_valid. intros k rb [Hl _]%map_lookup_filter_Some. eauto.
Qed.

(** The memory of the service is bounded: at most [maxTrackedOrders] owners, at
    most [maxSeenEvents] event ids (the set and the list that orders it agree),
    at most [maxEvents] notifications per user and per role, and at most the
    channel's buffer per connection.  The owner entries are all in the list
    that says which to evict next. *)
Theorem memory_bounded evs s : nreach buffer maxEvents ttl evs s →
  (size (om_entries (sv_owners s)) ≤ lm_orders lim)%nat ∧
  (∀ o, is_Some (om_entries (sv_owners s) !! o) → o ∈ om_order (sv_owners s)) ∧
  (length (se_order (sv_seen s)) ≤ lm_seen lim)%nat ∧
  (∀ id, id ∈ se_ids (sv_seen s) ↔ id ∈ se_order (sv_seen s)) ∧
  (∀ k sub, hb_subs (dv_hub (sv_out s)) !! k = Some sub → (length (sb_ch sub) ≤ hb_buffer (newHub buffer))%nat) ∧
  (∀ key rb, rp_customers (dv_buffer (sv_out s)) !! key = Some rb ∨ rp_roles (dv_buffer (sv_out s)) !! key = Some rb →
    (length (rb_items rb) ≤ Z.to_nat (rp_maxEvents (newReplayBuffer maxEvents ttl)))%nat).
Proof.
  intros [H1 H2 [marked Hm] H4 H5 H6 H7 H8]%nreach_bounded.
  destruct Hm as [Ho Hi Hn]. split_and!; [done|done| |exact Hi|exact H5|].
  - rewrite Ho. apply last_n_length.
  - intros key rb [Hl|Hl]; [destruct (H7 _ _ Hl) as [[] <-]|destruct (H8 _ _ Hl) as [[] <-]]; done.
Qed.
End keep.
End runs.
