(* ===== verification/NotStream.v ===== *)
(** Notification service: one event stream ([internal/handler/stream_handler.go])
    next to the consumer that pushes and the other connections, interleaved at
    the granularity of the locks and of the channel operations. *)

From S2P Require Import Prelude GoStd InvModel FulModel FulHandler NotModel NotReplay NotService NotRouting.

(** ** The handler *)

(** Where the handler of a connection is: before [Subscribe], before
    [ReplayFor], writing what it missed, in the loop, or gone. *)
Inductive Phase := Opening | Subscribed | Replaying (rest : list Notification) | Live | Closed.

Record Conn := MkConn {
  cn_user : string; cn_role : string; cn_last : string; cn_sub : option nat; cn_phase : Phase;
  cn_replayed : gset string; cn_sent : list Notification
}.

Section handler.
Context {uuid : UuidLib} {jwt : Jwt}.

(** A stream is opened for the user and role of a valid token; [None] is the
    answer 401. *)
Definition stream_open (v : Verifier) (authorization : list string) (header q1 q2 q3 : string) : option Conn :=
  claims ← authenticate v authorization;
  Some (MkConn (default uuid_nil (uuid_parse (cl_Subject claims))) (cl_Role claims)
    (last_event_id header q1 q2 q3) None Opening ∅ []).

Definition in_phase (c : Conn) (p : Phase) : Conn :=
  MkConn (cn_user c) (cn_role c) (cn_last c) (cn_sub c) p (cn_replayed c) (cn_sent c).

(** [defer cancel()]. *)
Definition stream_close (c : Conn) (h : Hub) : Conn * Hub :=
  (in_phase c Closed, from_option (λ k, Unsubscribe k h) h (cn_sub c)).

Definition stream_subscribe (c : Conn) (h : Hub) : Conn * Hub :=
  let '(k, h) := Subscribe (cn_user c) (cn_role c) h in
  (MkConn (cn_user c) (cn_role c) (cn_last c) (Some k) Subscribed (cn_replayed c) (cn_sent c), h).

Definition stream_replay (now : Z) (c : Conn) (b : ReplayBuffer) : Conn :=
  in_phase c (Replaying (missed (cn_user c) (cn_role c) (cn_last c) now b)).

(** One frame of the replay; [ok] is whether the client took it. *)
Definition stream_frame (ok : bool) (n : Notification) (rest : list Notification) (c : Conn) (h : Hub) : Conn * Hub :=
  if ok then
    (MkConn (cn_user c) (cn_role c) (cn_last c) (cn_sub c) (Replaying rest) (cn_replayed c ∪ {[nt_ID n]}) (cn_sent c ++ [n]), h)
  else stream_close c h.

(** One turn of the loop that takes a notification from the channel. *)
Definition stream_live (ok : bool) (n : Notification) (c : Conn) (h : Hub) : Conn * Hub :=
  if bool_decide (nt_ID n ∈ cn_replayed c) then (c, h)
  else if ok then
    (MkConn (cn_user c) (cn_role c) (cn_last c) (cn_sub c) Live (cn_replayed c) (cn_sent c ++ [n]), h)
  else stream_close c h.

(** ** The system *)

Inductive Target := TUser (c : string) | TRoles (rs : list string).

Definition hook (t : Target) (n : Notification) (clock : nat → Z) (b : ReplayBuffer) : ReplayBuffer :=
  match t with TUser c => Add c n (clock 0%nat) b | TRoles rs => AddForRoles n rs clock b end.
Definition addressed (t : Target) (s : Subscriber) : bool :=
  match t with
  | TUser c => bool_decide (sb_userID s = c)
  | TRoles rs => existsb (λ r, bool_decide (sb_role s = r)) rs
  end.

(** The consumer's push is the hook, then the fan-out. *)
Lemma PushToUser_split c n now d :
  (PushToUser c n now d).2 =
    MkDelivery (push n (addressed (TUser c)) (dv_hub d)).2 (hook (TUser c) n (λ _, now) (dv_buffer d)).
Proof. done. Qed.
Lemma PushToRoles_split rs n clock d :
  (PushToRoles n rs clock d).2 =
    MkDelivery (push n (addressed (TRoles rs)) (dv_hub d)).2 (hook (TRoles rs) n clock (dv_buffer d)).
Proof. done. Qed.

Record World := MkWorld { w_out : Delivery; w_job : option (Target * Notification); w_conn : Conn }.

(** The steps: the consumer runs a hook, then the fan-out; the connection
    subscribes, reads the replay, writes it, takes from its channel, ends;
    other connections come, take and go; expired entries are dropped. *)
Inductive Label :=
  | LHook (t : Target) (n : Notification) (clock : nat → Z)
  | LPush
  | LSubscribe
  | LReplay (now : Z)
  | LFrame (ok : bool)
  | LReplayed
  | LTake (ok : bool)
  | LEnd
  | LOther (user role : string)
  | LOtherTake (k : nat)
  | LOtherEnd (k : nat)
  | LClean (now : Z).

Definition conn_step (l : Label) (c : Conn) (d : Delivery) : option (Conn * Hub) :=
  match l, cn_phase c with
  | LSubscribe, Opening => Some (stream_subscribe c (dv_hub d))
  | LReplay now, Subscribed => Some (stream_replay now c (dv_buffer d), dv_hub d)
  | LFrame ok, Replaying (n :: rest) => Some (stream_frame ok n rest c (dv_hub d))
  | LReplayed, Replaying [] => Some (in_phase c Live, dv_hub d)
  | LTake ok, Live =>
      k ← cn_sub c;
      sub ← hb_subs (dv_hub d) !! k;
      n ← head (sb_ch sub);
      Some (stream_live ok n c (receive k (dv_hub d)))
  | LEnd, Live => Some (stream_close c (dv_hub d))
  | _, _ => None
  end.

Definition sw_step (l : Label) (w : World) : option World :=
  let h := dv_hub (w_out w) in
  let b := dv_buffer (w_out w) in
  match l with
  | LHook t n clock =>
      match w_job w with
      | None => Some (MkWorld (MkDelivery h (hook t n clock b)) (Some (t, n)) (w_conn w))
      | Some _ => None
      end
  | LPush =>
      '(t, n) ← w_job w;
      Some (MkWorld (MkDelivery (push n (addressed t) h).2 b) None (w_conn w))
  | LOther user role => Some (MkWorld (MkDelivery (Subscribe user role h).2 b) (w_job w) (w_conn w))
  | LOtherTake k =>
      if bool_decide (cn_sub (w_conn w) = Some k) then None
      else Some (MkWorld (MkDelivery (receive k h) b) (w_job w) (w_conn w))
  | LOtherEnd k =>
      if bool_decide (cn_sub (w_conn w) = Some k) then None
      else Some (MkWorld (MkDelivery (Unsubscribe k h) b) (w_job w) (w_conn w))
  | LClean now => Some (MkWorld (MkDelivery h (CleanExpired now b)) (w_job w) (w_conn w))
  | _ => '(c, h) ← conn_step l (w_conn w) (w_out w); Some (MkWorld (MkDelivery h b) (w_job w) c)
  end.

Fixpoint sw_run (tr : list Label) (w : World) : option World :=
  match tr with [] => Some w | l :: tr => w ← sw_step l w; sw_run tr w end.

(** The service starts, and some time later a client asks for its stream. *)
Definition sw_start (buffer maxEvents ttl : Z) (c : Conn) : World :=
  MkWorld (MkDelivery (newHub buffer) (newReplayBuffer maxEvents ttl)) None c.
End handler.

(** Notification service: a stream has no gap and no duplicate.  The invariant
    ties the frames a client was sent, its channel and the replay buffer to the
    pushes of the consumer. *)


(** ** The pushes of a run *)

Definition hooked (tr : list Label) : list (Target * Notification) :=
  omap (λ l, match l with LHook t n _ => Some (t, n) | _ => None end) tr.

(** Those for one user and role. *)
Definition for_conn (user role : string) (l : list (Target * Notification)) : list Notification :=
  snd <$> filter (λ x, addressed x.1 (MkSubscriber user role []) = true) l.

Definition push_ids (l : list (Target * Notification)) : list string := nt_ID ∘ snd <$> l.
Definition note_ids (l : list Notification) : list string := nt_ID <$> l.

Lemma addressed_ext t s s' : sb_userID s = sb_userID s' → sb_role s = sb_role s' → addressed t s = addressed t s'.
Proof. destruct t; cbn; intros Hu Hr; rewrite ?Hu, ?Hr; done. Qed.

Lemma for_conn_app u r l1 l2 : for_conn u r (l1 ++ l2) = for_conn u r l1 ++ for_conn u r l2.
Proof. unfold for_conn. by rewrite filter_app, fmap_app. Qed.
Lemma for_conn_sub u r l : for_conn u r l `sublist_of` (snd <$> l).
Proof. apply sublist_fmap, sublist_filter. Qed.

(** Two pushes with the same id are the same push. *)
Lemma push_ids_inj l x y : NoDup (push_ids l) → x ∈ l → y ∈ l → nt_ID x.2 = nt_ID y.2 → x = y.
Proof.
  intros Hnd Hx Hy Hid. apply list_elem_of_lookup in Hx as [i Hi]. apply list_elem_of_lookup in Hy as [j Hj].
  assert (i = j) as ->; [|congruence]. eapply (NoDup_lookup (push_ids l)); [done| |]; unfold push_ids;
    rewrite list_lookup_fmap, ?Hi, ?Hj; cbn; by rewrite ?Hid.
Qed.

(** ** The replay buffer *)

Record good_ring (P : Notification → Prop) (rb : ring) : Prop := {
  gr_ok : ring_ok rb;
  gr_ids : NoDup (ids_of (view rb));
  gr_from : Forall (λ it, P (bi_notification it)) (view rb)
}.
Definition good_rings (P : string → Notification → Prop) (m : gmap string ring) : Prop :=
  ∀ k rb, m !! k = Some rb → good_ring (P k) rb.

Lemma good_new P max : good_ring P (newCustomerRingBuffer max).
Proof. split; [apply new_ring_ok|constructor|constructor]. Qed.

Lemma good_add P n now rb : P n → rb_contains (nt_ID n) rb = false → good_ring P rb → good_ring P (rb_add n now rb).
Proof.
  intros Hn Hnew [Hok Hids Hfrom]. apply not_true_iff_false in Hnew. rewrite rb_contains_view in Hnew.
  split; [by apply rb_add_ok|rewrite view_add by done..].
  - eapply sublist_NoDup; [|apply sublist_fmap, last_n_sublist]. rewrite fmap_app. apply NoDup_app.
    split_and!; [done| |apply NoDup_singleton]. by intros x Hx ->%list_elem_of_singleton.
  - apply Forall_drop, Forall_app. split; [done|]. by constructor.
Qed.

Lemma good_add_unique (P : string → Notification → Prop) max key n now m : P key n → good_rings P m →
  good_rings P (add_unique max key n now m).
Proof.
  intros Hn Hm k rb. unfold add_unique. destruct (decide (key = k)) as [<-|Hne]; [|rewrite lookup_insert_ne by done; apply Hm].
  rewrite lookup_insert_eq. intros [= <-].
  assert (good_ring (P key) (default (newCustomerRingBuffer max) (m !! key))) as Hg.
  { destruct (m !! key) eqn:Hl; [by apply Hm|apply good_new]. }
  destruct (rb_contains _ _) eqn:Hc; [done|]. by apply good_add.
Qed.
Lemma good_add_roles (P : string → Notification → Prop) max n rs clock m : Forall (λ r, P r n) rs → good_rings P m →
  good_rings P (add_roles max n rs clock m).
Proof.
  intros Hrs. revert clock m. induction Hrs as [|r rs Hr Hrs IH]; intros clock m Hm; [done|]. cbn.
  by apply IH, good_add_unique.
Qed.
Lemma good_mono (P Q : string → Notification → Prop) m : (∀ k n, P k n → Q k n) → good_rings P m → good_rings Q m.
Proof. intros HPQ Hm k rb Hl. destruct (Hm k rb Hl) as [H1 H2 H3]. split; [done..|]. eapply Forall_impl; [done|]. auto. Qed.
Lemma good_keep P now ttl m : good_rings P m → good_rings P (keep_valid now ttl m).
Proof. intros Hm k rb. unfold keep_valid. intros [Hl _]%map_lookup_filter_Some. by apply Hm. Qed.

(** What the buffer holds was pushed to that user or role. *)
Record buf_ok (hs : list (Target * Notification)) (b : ReplayBuffer) : Prop := {
  bo_users : good_rings (λ c n, (TUser c, n) ∈ hs) (rp_customers b);
  bo_roles : good_rings (λ r n, ∃ rs, (TRoles rs, n) ∈ hs ∧ r ∈ rs) (rp_roles b)
}.

Lemma buf_ok_app hs x b : buf_ok hs b → buf_ok (hs ++ [x]) b.
Proof.
  intros [Hu Hr]. split.
  - eapply good_mono; [|exact Hu]. set_solver.
  - eapply good_mono; [|exact Hr]. set_solver.
Qed.

Lemma buf_ok_hook hs t n clock b : buf_ok hs b → buf_ok (hs ++ [(t, n)]) (hook t n clock b).
Proof.
  intros Hb%(buf_ok_app _ (t, n)). destruct t as [c|rs]; cbn.
  - unfold Add. case_match; [done|]. destruct Hb as [Hu Hr]. split; cbn; [|done].
    apply good_add_unique; [set_solver|done].
  - unfold AddForRoles. case_match; [done|]. destruct Hb as [Hu Hr]. split; cbn; [done|].
    apply good_add_roles; [|done]. apply Forall_forall. intros r Hin. exists rs. set_solver.
Qed.

Lemma ids_valid now ttl rb : ring_ok rb → NoDup (ids_of (view rb)) → NoDup (ids_of (rb_valid now ttl rb)).
Proof.
  intros Hok Hnd. rewrite rb_valid_view by done. eapply sublist_NoDup; [exact Hnd|]. apply sublist_fmap, sublist_filter.
Qed.

Section replay.
Context (hs : list (Target * Notification)) (b : ReplayBuffer) (Hb : buf_ok hs b).

(** Everything a replay shows was pushed to this user or this role. *)
Lemma replay_from_pushes user role last now n : n ∈ ReplayFor user role last now b →
  n ∈ for_conn user role hs.
Proof.
  intros Hn. unfold for_conn. apply list_elem_of_fmap.
  destruct (ReplayFor_items _ _ _ _ _ _ Hn) as [(rb & it & Hl & Hin & <-)|(rb & it & Hl & Hin & <-)]; rewrite <-view_perm in Hin.
  - destruct (bo_users _ _ Hb _ _ Hl) as [_ _ Hf]. rewrite Forall_forall in Hf. specialize (Hf _ Hin).
    eexists (_, _). split; [done|]. apply list_elem_of_filter. split; [|exact Hf]. cbn. by apply bool_decide_eq_true.
  - destruct (bo_roles _ _ Hb _ _ Hl) as [_ _ Hf]. rewrite Forall_forall in Hf. destruct (Hf _ Hin) as (rs & Hf' & Hr).
    eexists (_, _). split; [done|]. apply list_elem_of_filter. split; [|exact Hf']. cbn. apply existsb_exists.
    exists role. split; [by apply list_elem_of_In|by apply bool_decide_eq_true].
Qed.

(** No id comes twice in a replay. *)
Lemma replay_ids user role last now : NoDup (push_ids hs) → NoDup (note_ids (ReplayFor user role last now b)).
Proof.
  intros Hnd. unfold ReplayFor, note_ids. set (mine := from_option _ [] _).
  set (items := match rp_roles b !! role with Some _ => _ | None => _ end).
  enough (NoDup (ids_of items)) as Hitems.
  { unfold ids_of in Hitems. rewrite list_fmap_compose in Hitems. case_bool_decide; [done|].
    destruct (after_id last _) as [rest|] eqn:Ha; [|done]. cbn. apply after_id_suffix in Ha as [k Ha]. rewrite Ha in Hitems.
    rewrite fmap_app in Hitems. by apply NoDup_app in Hitems as (_ & _ & ?). }
  assert (NoDup (ids_of mine) ∧ ∀ it, it ∈ mine → (TUser user, bi_notification it) ∈ hs) as [Hmine Hfrom].
  { unfold mine. destruct (rp_customers b !! user) as [rb|] eqn:Hl; cbn; [|split; [constructor|set_solver]].
    destruct (bo_users _ _ Hb _ _ Hl) as [Hok Hids Hf]. split; [by apply ids_valid|]. rewrite Forall_forall in Hf.
    intros it Hin%valid_loop_items. rewrite <-view_perm in Hin. by apply Hf. }
  unfold items. destruct (rp_roles b !! role) as [rrb|] eqn:Hl; [|done]. case_bool_decide; [done|].
  destruct (bo_roles _ _ Hb _ _ Hl) as [Hok Hids Hf]. rewrite Forall_forall in Hf.
  unfold ids_of. rewrite stable_sort_perm, fmap_app. apply NoDup_app. split_and!; [done| |by apply ids_valid].
  intros id (x & -> & Hx)%list_elem_of_fmap (y & Hid & Hy)%list_elem_of_fmap.
  apply valid_loop_items in Hy. rewrite <-view_perm in Hy. destruct (Hf y Hy) as (rs & Hy' & _).
  by discriminate (push_ids_inj hs _ _ Hnd (Hfrom x Hx) Hy' Hid).
Qed.
End replay.

(** ** The channel *)

Lemma offer_loop_window buffer n ch : (0 < buffer)%nat → (length ch ≤ buffer)%nat →
  offer_loop 2 buffer n ch = (true, last_n buffer (ch ++ [n])).
Proof.
  intros Hb Hl. cbn. case_bool_decide.
  - rewrite last_n_all; [done|]. rewrite length_app. cbn. lia.
  - assert (length ch = buffer) as Hfull by lia. rewrite bool_decide_eq_true_2 by (rewrite length_drop; lia).
    unfold last_n. rewrite length_app, Hfull. cbn. replace (buffer + 1 - buffer)%nat with 1%nat by lia.
    destruct ch as [|x ch]; [cbn in *; lia|]. cbn. by rewrite !drop_0.
Qed.

(** The connection's subscription: what it took and what waits is what was
    pushed for it since it subscribed, all of it if the client keeps up. *)
Definition chan_ok (ku : Prop) (pushed : list (Target * Notification)) (nb : nat) (taken : list Notification)
    (c : Conn) (h : Hub) : Prop :=
  ∃ k sub, cn_sub c = Some k ∧ hb_subs h !! k = Some sub ∧ sb_userID sub = cn_user c ∧ sb_role sub = cn_role c ∧
    (nb ≤ length pushed)%nat ∧
    (taken ++ sb_ch sub) `sublist_of` for_conn (cn_user c) (cn_role c) (drop nb pushed) ∧
    (ku → taken ++ sb_ch sub = for_conn (cn_user c) (cn_role c) (drop nb pushed)).

Record hub_ok (h : Hub) : Prop := {
  ho_buffer : (0 < hb_buffer h)%nat;
  ho_chans : ∀ k sub, hb_subs h !! k = Some sub → (length (sb_ch sub) ≤ hb_buffer h)%nat ∧ (k < hb_next h)%nat
}.

Section chan.
Context (pushed : list (Target * Notification)) (nb : nat).
Implicit Types (c : Conn) (h : Hub) (taken : list Notification).

Lemma chan_weaken (ku ku' : Prop) taken c h : (ku' → ku) → chan_ok ku pushed nb taken c h → chan_ok ku' pushed nb taken c h.
Proof. intros Hk (k & sub & H1 & H2 & H3 & H4 & H5 & H6 & H7). exists k, sub. split_and!; auto. Qed.

Lemma chan_same ku taken c c' h : cn_sub c = cn_sub c' → cn_user c = cn_user c' → cn_role c = cn_role c' →
  chan_ok ku pushed nb taken c h → chan_ok ku pushed nb taken c' h.
Proof. unfold chan_ok. by intros -> -> ->. Qed.

Lemma chan_other ku taken c u r h : hub_ok h → chan_ok ku pushed nb taken c h →
  chan_ok ku pushed nb taken c (Subscribe u r h).2.
Proof.
  intros Hh (k & sub & H1 & H2 & H). exists k, sub. split_and!; [done| |apply H..]. cbn.
  rewrite lookup_insert_ne; [done|]. apply (ho_chans _ Hh) in H2. lia.
Qed.
Lemma chan_other_take ku taken c k' h : cn_sub c ≠ Some k' → chan_ok ku pushed nb taken c h →
  chan_ok ku pushed nb taken c (receive k' h).
Proof.
  intros Hk (k & sub & H1 & H2 & H). exists k, sub. split_and!; [done| |apply H..]. cbn.
  rewrite lookup_alter_ne; [done|]. congruence.
Qed.
Lemma chan_other_end ku taken c k' h : cn_sub c ≠ Some k' → chan_ok ku pushed nb taken c h →
  chan_ok ku pushed nb taken c (Unsubscribe k' h).
Proof.
  intros Hk (k & sub & H1 & H2 & H). exists k, sub. split_and!; [done| |apply H..]. cbn.
  rewrite lookup_delete_ne; [done|]. congruence.
Qed.

Lemma chan_take ku taken c h k sub n : cn_sub c = Some k → hb_subs h !! k = Some sub → head (sb_ch sub) = Some n →
  chan_ok ku pushed nb taken c h → chan_ok ku pushed nb (taken ++ [n]) c (receive k h).
Proof.
  intros Hk Hl Hn (k' & sub' & H1 & H2 & H3 & H4 & H5 & H6 & H7). simplify_eq. destruct (sb_ch sub) as [|x ch] eqn:Hch; simplify_eq/=.
  exists k, (MkSubscriber (sb_userID sub) (sb_role sub) ch). split_and!; [done| |done..| |]; cbn.
  - rewrite lookup_alter_eq, Hl. cbn. by rewrite Hch.
  - by rewrite <-app_assoc.
  - intros Hku. rewrite <-app_assoc. by apply H7.
Qed.

(** A push reaches the channel; the oldest goes when there is no room. *)
Lemma chan_push (ku ku' : Prop) taken c h t n : hub_ok h → chan_ok ku pushed nb taken c h →
  (ku' → ku ∧ ∀ k sub, cn_sub c = Some k → hb_subs h !! k = Some sub → (length (sb_ch sub) < hb_buffer h)%nat) →
  chan_ok ku' (pushed ++ [(t, n)]) nb taken c (push n (addressed t) h).2.
Proof.
  intros Hh (k & sub & H1 & H2 & H3 & H4 & H5 & H6 & H7) Hku.
  assert (for_conn (cn_user c) (cn_role c) (drop nb (pushed ++ [(t, n)])) =
    for_conn (cn_user c) (cn_role c) (drop nb pushed) ++ (if addressed t sub then [n] else [])) as Hfor.
  { rewrite drop_app_le by done. rewrite for_conn_app. f_equal. unfold for_conn. rewrite filter_cons. cbn [fst].
    rewrite (addressed_ext t (MkSubscriber (cn_user c) (cn_role c) []) sub) by done.
    destruct (addressed t sub); [by rewrite decide_True|by rewrite decide_False]. }
  destruct (ho_chans _ Hh _ _ H2) as [Hlen _].
  unfold chan_ok. rewrite Hfor. eexists k, _. split; [done|]. cbn [push snd hb_subs]. rewrite lookup_fmap, H2. split; [done|]. cbn.
  destruct (addressed t sub).
  - destruct (offer_user (hb_buffer h) n sub) as [-> ->]. rewrite offer_ch, offer_loop_window by (done || apply Hh). cbn.
    split_and!; [done..|rewrite length_app; lia| |].
    + trans ((taken ++ sb_ch sub) ++ [n]); [|by apply sublist_app]. rewrite <-app_assoc.
      apply sublist_app; [done|apply last_n_sublist].
    + intros [Hku' Hroom]%Hku. rewrite last_n_all by (rewrite length_app; cbn; specialize (Hroom _ _ H1 H2); lia).
      by rewrite app_assoc, H7.
  - split_and!; [done..|rewrite length_app; lia|by rewrite app_nil_r|]. intros [Hku' _]%Hku. by rewrite app_nil_r, H7.
Qed.
End chan.

(** *** The hub stays in its bounds *)

Lemma hub_ok_new buffer : hub_ok (newHub buffer).
Proof. split; cbn; [case_bool_decide; lia|]. intros k sub. by rewrite lookup_empty. Qed.
Lemma hub_ok_subscribe u r h : hub_ok h → hub_ok (Subscribe u r h).2.
Proof.
  intros [Hb Hc]. split; cbn; [done|]. intros k sub [[<- <-]|[_ Hl]]%lookup_insert_Some; cbn; [lia|].
  specialize (Hc _ _ Hl). lia.
Qed.
Lemma hub_ok_receive k h : hub_ok h → hub_ok (receive k h).
Proof.
  intros [Hb Hc]. split; cbn; [done|]. intros k' sub Hl.
  apply lookup_alter_Some in Hl as [(-> & sub0 & Hl & ->)|[_ Hl]]; cbn; rewrite ?length_drop; specialize (Hc _ _ Hl); lia.
Qed.
Lemma hub_ok_unsubscribe k h : hub_ok h → hub_ok (Unsubscribe k h).
Proof. intros [Hb Hc]. split; cbn; [done|]. intros k' sub [_ Hl]%lookup_delete_Some. eauto. Qed.
Lemma hub_ok_push n f h : hub_ok h → hub_ok (push n f h).2.
Proof.
  intros [Hb Hc]. split; cbn; [done|]. intros k sub. rewrite lookup_fmap, fmap_Some. intros (sub0 & Hl & ->).
  destruct (Hc _ _ Hl) as [Hlen Hk]. split; [|done]. destruct (f sub0); [|done]. rewrite offer_ch. by apply offer_length.
Qed.
Lemma hub_ok_close c h : hub_ok h → hub_ok (stream_close c h).2.
Proof. intros Hh. unfold stream_close. destruct (cn_sub c); cbn; [by apply hub_ok_unsubscribe|done]. Qed.

(** Notification service: the invariant of a stream along a run, and its
    theorem. *)


Section stream.
Context {uuid : UuidLib} (buffer maxEvents ttl : Z) (c0 : Conn).
Context (Hc0 : cn_phase c0 = Opening ∧ cn_sub c0 = None ∧ cn_replayed c0 = ∅ ∧ cn_sent c0 = []).
#[local] Abbreviation start := (sw_start buffer maxEvents ttl c0).

(** The client keeps up: its channel has room whenever something is pushed. *)
Definition keeps_up (tr : list Label) : Prop :=
  ∀ before after w k sub, tr = before ++ LPush :: after → sw_run before start = Some w →
    cn_sub (w_conn w) = Some k → hb_subs (dv_hub (w_out w)) !! k = Some sub →
    (length (sb_ch sub) < hb_buffer (dv_hub (w_out w)))%nat.

(** The replay of this connection: what [ReplayFor] gave it, when. *)
Definition replay_at (tr : list Label) (nb : nat) (c : Conn) (ms : list Notification) : Prop :=
  ∃ tr1 now tr2 w1, tr = tr1 ++ LReplay now :: tr2 ∧ sw_run tr1 start = Some w1 ∧
    ms = missed (cn_user c) (cn_role c) (cn_last c) now (dv_buffer (w_out w1)) ∧
    (nb ≤ length (hooked tr1))%nat ∧ buf_ok (hooked tr1) (dv_buffer (w_out w1)).

Definition live_frames (c : Conn) (taken : list Notification) : list Notification :=
  filter (λ n, nt_ID n ∉ cn_replayed c) taken.

Definition conn_inv (tr : list Label) (pushed : list (Target * Notification)) (c : Conn) (h : Hub) : Prop :=
  match cn_phase c with
  | Opening => cn_sub c = None ∧ cn_sent c = [] ∧ cn_replayed c = ∅
  | Subscribed => cn_sent c = [] ∧ cn_replayed c = ∅ ∧ ∃ nb, chan_ok (keeps_up tr) pushed nb [] c h
  | Replaying rest => ∃ nb, chan_ok (keeps_up tr) pushed nb [] c h ∧ replay_at tr nb c (cn_sent c ++ rest) ∧
      cn_replayed c = list_to_set (note_ids (cn_sent c))
  | Live => ∃ nb taken ms, chan_ok (keeps_up tr) pushed nb taken c h ∧ replay_at tr nb c ms ∧
      cn_replayed c = list_to_set (note_ids ms) ∧ cn_sent c = ms ++ live_frames c taken
  | Closed => NoDup (push_ids (hooked tr)) → NoDup (note_ids (cn_sent c))
  end.

Definition sinv (tr : list Label) (w : World) : Prop :=
  hub_ok (dv_hub (w_out w)) ∧ buf_ok (hooked tr) (dv_buffer (w_out w)) ∧
  ∃ pushed, hooked tr = pushed ++ option_list (w_job w) ∧ conn_inv tr pushed (w_conn w) (dv_hub (w_out w)).

Lemma sw_run_snoc tr l w : sw_run (tr ++ [l]) w = sw_run tr w ≫= sw_step l.
Proof.
  revert w. induction tr as [|x tr IH]; intros w; cbn; [by destruct (sw_step l w)|].
  destruct (sw_step x w); cbn; [apply IH|done].
Qed.

Lemma keeps_up_app tr tr' : keeps_up (tr ++ tr') → keeps_up tr.
Proof. intros H before after w k sub ->. apply (H before (after ++ tr')). by rewrite <-app_assoc. Qed.
Lemma replay_at_app tr tr' nb c ms : replay_at tr nb c ms → replay_at (tr ++ tr') nb c ms.
Proof.
  intros (tr1 & now & tr2 & w1 & -> & H). exists tr1, now, (tr2 ++ tr'), w1. by rewrite <-app_assoc.
Qed.
Lemma hooked_app tr tr' : hooked (tr ++ tr') = hooked tr ++ hooked tr'.
Proof. apply omap_app. Qed.
Lemma push_ids_app tr tr' : NoDup (push_ids (hooked (tr ++ tr'))) → NoDup (push_ids (hooked tr)).
Proof. rewrite hooked_app. unfold push_ids. rewrite fmap_app. by intros [? _]%NoDup_app. Qed.

(** A step of somebody else. *)
Lemma conn_frame tr tr' pushed pushed' c h h' : conn_inv tr pushed c h →
  (∀ nb taken, chan_ok (keeps_up tr) pushed nb taken c h → chan_ok (keeps_up (tr ++ tr')) pushed' nb taken c h') →
  conn_inv (tr ++ tr') pushed' c h'.
Proof.
  unfold conn_inv. intros Hc Hch. destruct (cn_phase c).
  - done.
  - destruct Hc as (H1 & H2 & nb & H3). eauto.
  - destruct Hc as (nb & H1 & H2 & H3). exists nb. split_and!; eauto using replay_at_app.
  - destruct Hc as (nb & taken & ms & H1 & H2 & H3 & H4). exists nb, taken, ms. split_and!; eauto using replay_at_app.
  - intros Hnd%push_ids_app. auto.
Qed.

(** *** No duplicates *)

Lemma missed_ids tr nb c ms : NoDup (push_ids (hooked tr)) → replay_at tr nb c ms → NoDup (note_ids ms).
Proof.
  intros Hnd (tr1 & now & tr2 & w1 & -> & _ & -> & _ & Hb). apply push_ids_app in Hnd. unfold missed.
  destruct (replay_from _) as [id|]; [|constructor]. by eapply replay_ids.
Qed.

Lemma taken_sublist ku pushed nb taken c h : chan_ok ku pushed nb taken c h → taken `sublist_of` (snd <$> pushed).
Proof.
  intros (k & sub & _ & _ & _ & _ & _ & Hs & _). trans (taken ++ sb_ch sub); [by apply sublist_inserts_r|].
  etrans; [exact Hs|]. etrans; [apply for_conn_sub|]. apply sublist_fmap, sublist_drop.
Qed.

Lemma live_ids pushed rest taken : NoDup (push_ids (pushed ++ rest)) → taken `sublist_of` (snd <$> pushed) → NoDup (note_ids taken).
Proof.
  unfold push_ids. rewrite fmap_app. intros [Hnd _]%NoDup_app Hs. eapply sublist_NoDup; [exact Hnd|].
  rewrite list_fmap_compose. by apply sublist_fmap.
Qed.

Lemma sent_ids tr pushed job c h : hooked tr = pushed ++ job → NoDup (push_ids (hooked tr)) → conn_inv tr pushed c h →
  NoDup (note_ids (cn_sent c)).
Proof.
  unfold conn_inv. intros Hh Hnd Hc. destruct (cn_phase c).
  - destruct Hc as (_ & -> & _). constructor.
  - destruct Hc as (-> & _). constructor.
  - destruct Hc as (nb & _ & Hr%missed_ids & _); [|done]. unfold note_ids in *. rewrite fmap_app in Hr.
    by apply NoDup_app in Hr as [? _].
  - destruct Hc as (nb & taken & ms & Hch & Hr%missed_ids & Hrep & ->); [|done]. unfold note_ids. rewrite fmap_app.
    apply NoDup_app. split_and!; [done| |].
    + intros id Hms (n & -> & [Hn _]%list_elem_of_filter)%list_elem_of_fmap. apply Hn. rewrite Hrep. by apply elem_of_list_to_set.
    + eapply sublist_NoDup; [|apply sublist_fmap, sublist_filter]. rewrite Hh in Hnd.
      eapply live_ids; [exact Hnd|]. by eapply taken_sublist.
  - auto.
Qed.

(** *** The steps of the connection *)

Lemma close_inv tr tr' pushed job c h : hooked tr = pushed ++ job → conn_inv tr pushed c h → hub_ok h →
  hub_ok (stream_close c h).2 ∧ conn_inv (tr ++ tr') pushed (stream_close c h).1 (stream_close c h).2.
Proof.
  intros Hh Hc Hok. split; [by apply hub_ok_close|]. cbn. intros Hnd%push_ids_app. by eapply sent_ids.
Qed.

Lemma subscribe_inv tr tr' pushed c h : cn_phase c = Opening → conn_inv tr pushed c h → hub_ok h →
  conn_inv (tr ++ tr') pushed (stream_subscribe c h).1 (stream_subscribe c h).2.
Proof.
  intros Hp Hc Hok. unfold conn_inv in *. rewrite Hp in Hc. destruct Hc as (H1 & H2 & H3). cbn. split_and!; [done..|].
  exists (length pushed), (hb_next h), (MkSubscriber (cn_user c) (cn_role c) []). cbn.
  rewrite lookup_insert_eq, drop_ge by done. by split_and!.
Qed.

Lemma frame_inv ok n rest tr tr' pushed job c h : hooked tr = pushed ++ job → cn_phase c = Replaying (n :: rest) →
  conn_inv tr pushed c h → hub_ok h →
  hub_ok (stream_frame ok n rest c h).2 ∧ conn_inv (tr ++ tr') pushed (stream_frame ok n rest c h).1 (stream_frame ok n rest c h).2.
Proof.
  intros Hh Hp Hc Hok. destruct ok; [|by eapply close_inv]. split; [done|].
  unfold conn_inv in *. rewrite Hp in Hc. destruct Hc as (nb & H1 & H2 & H3). cbn. exists nb. split_and!.
  - eapply chan_weaken; [apply keeps_up_app|]. by eapply chan_same; [..|exact H1].
  - rewrite <-app_assoc. by apply replay_at_app.
  - unfold note_ids. rewrite fmap_app, list_to_set_app_L, H3. cbn. set_solver.
Qed.

Lemma live_inv ok n k sub tr tr' pushed job c h : hooked tr = pushed ++ job → cn_phase c = Live →
  cn_sub c = Some k → hb_subs h !! k = Some sub → head (sb_ch sub) = Some n →
  conn_inv tr pushed c h → hub_ok h →
  let r := stream_live ok n c (receive k h) in hub_ok r.2 ∧ conn_inv (tr ++ tr') pushed r.1 r.2.
Proof.
  intros Hh Hp Hk Hl Hn Hc Hok. pose proof (hub_ok_receive k h Hok) as Hok'. unfold stream_live.
  assert (∀ c', cn_phase c' = Live → cn_sub c' = cn_sub c → cn_user c' = cn_user c → cn_role c' = cn_role c →
    cn_last c' = cn_last c → cn_replayed c' = cn_replayed c → cn_sent c' = cn_sent c ++ live_frames c [n] →
    conn_inv (tr ++ tr') pushed c' (receive k h)) as Hlive.
  { unfold conn_inv in *. rewrite Hp in Hc. destruct Hc as (nb & taken & ms & H1 & H2 & H3 & H4).
    intros c' -> E1 E2 E3 E4 E5 E6. exists nb, (taken ++ [n]), ms. split_and!.
    - eapply chan_weaken; [apply keeps_up_app|]. eapply chan_same; [symmetry; eassumption..|]. by eapply chan_take.
    - unfold replay_at in *. rewrite E2, E3, E4. by apply replay_at_app.
    - by rewrite E5.
    - rewrite E6, H4. unfold live_frames. by rewrite E5, filter_app, app_assoc. }
  unfold live_frames in Hlive. rewrite filter_cons, filter_nil in Hlive. case_bool_decide as Hdup.
  - split; [done|]. apply Hlive; try done. rewrite decide_False by tauto. by rewrite app_nil_r.
  - destruct ok.
    + split; [done|]. apply Hlive; try done. by rewrite decide_True.
    + split; [by apply hub_ok_close|]. cbn. intros Hnd%push_ids_app. by eapply sent_ids.
Qed.

Lemma conn_step_inv tr l pushed job w c' h' : hooked tr = pushed ++ job → sw_run tr start = Some w →
  buf_ok (hooked tr) (dv_buffer (w_out w)) → conn_inv tr pushed (w_conn w) (dv_hub (w_out w)) → hub_ok (dv_hub (w_out w)) →
  conn_step l (w_conn w) (w_out w) = Some (c', h') →
  hub_ok h' ∧ conn_inv (tr ++ [l]) pushed c' h'.
Proof.
  intros Hh Hrun Hb Hc Hok Hstep. unfold conn_step in Hstep.
  destruct l; try done; destruct (cn_phase (w_conn w)) as [| |[|n rest]| |] eqn:Hp; try done; simplify_eq.
  - injection Hstep as <- <-. split; [by apply (hub_ok_subscribe (cn_user (w_conn w)) (cn_role (w_conn w)))|].
    by apply (subscribe_inv tr [LSubscribe] pushed).
  - split; [done|]. unfold conn_inv in *. rewrite Hp in Hc. destruct Hc as (H1 & H2 & nb & H3). cbn.
    exists nb. rewrite H1, H2. split_and!; [|..|done].
    + eapply chan_weaken; [apply keeps_up_app|]. by eapply chan_same; [..|exact H3].
    + exists tr, now, [], w. split_and!; [done..| |done]. rewrite Hh, length_app. destruct H3 as (?&?&_&_&_&_&?&_). lia.
  - pose proof (frame_inv ok n rest tr [LFrame ok] _ _ _ _ Hh Hp Hc Hok) as Hf. by rewrite Hstep in Hf.
  - split; [done|]. unfold conn_inv in *. rewrite Hp in Hc. destruct Hc as (nb & H1 & H2 & H3). cbn.
    exists nb, [], (cn_sent (w_conn w)). rewrite app_nil_r in H2. split_and!.
    + eapply chan_weaken; [apply keeps_up_app|]. by eapply chan_same; [..|exact H1].
    + by apply replay_at_app.
    + done.
    + unfold live_frames. by rewrite filter_nil, app_nil_r.
  - destruct (cn_sub (w_conn w)) as [k|] eqn:Hk; [cbn in Hstep|done].
    destruct (hb_subs _ !! k) as [sub|] eqn:Hl; [cbn in Hstep|done].
    destruct (head (sb_ch sub)) as [n|] eqn:Hn; [cbn in Hstep|done].
    pose proof (live_inv ok n k sub tr [LTake ok] _ _ _ _ Hh Hp Hk Hl Hn Hc Hok) as Hf.
    injection Hstep as Hs. cbn zeta in Hf. by rewrite Hs in Hf.
  - injection Hstep as <- <-. by apply (close_inv tr [LEnd] pushed job).
Qed.

(** *** Every step *)

Lemma keeps_room tr w : sw_run tr start = Some w → keeps_up (tr ++ [LPush]) →
  keeps_up tr ∧ ∀ k sub, cn_sub (w_conn w) = Some k → hb_subs (dv_hub (w_out w)) !! k = Some sub →
    (length (sb_ch sub) < hb_buffer (dv_hub (w_out w)))%nat.
Proof. intros Hrun Hku. split; [by eapply keeps_up_app|]. intros k sub. by apply (Hku tr []). Qed.

Lemma quiet_inv tr l w h' b' : hooked [l] = [] → sinv tr w → hub_ok h' → buf_ok (hooked tr) b' →
  (∀ ku pushed nb taken, chan_ok ku pushed nb taken (w_conn w) (dv_hub (w_out w)) → chan_ok ku pushed nb taken (w_conn w) h') →
  sinv (tr ++ [l]) (MkWorld (MkDelivery h' b') (w_job w) (w_conn w)).
Proof.
  intros Hl (Hok & Hb & pushed & Hh & Hc) Hok' Hb' Hch. unfold sinv. rewrite hooked_app, Hl, app_nil_r.
  split_and!; [done..|]. exists pushed. split; [done|]. eapply conn_frame; [exact Hc|]. intros nb taken Hchan.
  eapply chan_weaken; [apply keeps_up_app|]. by apply Hch.
Qed.

Lemma sw_step_inv tr l w w' : sw_run tr start = Some w → sinv tr w → sw_step l w = Some w' → sinv (tr ++ [l]) w'.
Proof.
  intros Hrun Hinv Hstep. pose proof Hinv as (Hok & Hb & pushed & Hh & Hc).
  assert (∀ c' h', hooked [l] = [] → conn_step l (w_conn w) (w_out w) = Some (c', h') →
    sinv (tr ++ [l]) (MkWorld (MkDelivery h' (dv_buffer (w_out w))) (w_job w) c')) as Hconn.
  { intros c' h' Hl Hcs. destruct (conn_step_inv tr l pushed _ w c' h' Hh Hrun Hb Hc Hok Hcs) as [Hok' Hc'].
    unfold sinv. rewrite hooked_app, Hl, app_nil_r. split_and!; [done..|]. by exists pushed. }
  destruct l as [t n clock| | |now|ok| |ok| |u r|k|k|now]; cbn [sw_step] in Hstep;
    try (destruct (conn_step _ (w_conn w) (w_out w)) as [[c' h']|] eqn:Hcs; [|done]; injection Hstep as <-; by apply Hconn).
  - destruct (w_job w); [done|]. injection Hstep as <-. unfold sinv. rewrite hooked_app. cbn.
    split_and!; [done|by apply buf_ok_hook|]. exists pushed. rewrite Hh. cbn. rewrite app_nil_r. split; [done|].
    eapply conn_frame; [exact Hc|]. intros nb taken. apply chan_weaken, keeps_up_app.
  - destruct (w_job w) as [[t n]|]; [|done]. cbn in Hstep. injection Hstep as <-. unfold sinv. rewrite hooked_app. cbn.
    rewrite app_nil_r. split_and!; [by apply (hub_ok_push n (addressed t))|done|].
    exists (pushed ++ [(t, n)]). rewrite app_nil_r. split; [done|].
    eapply conn_frame; [exact Hc|]. intros nb taken Hchan. eapply (chan_push _ _ (keeps_up tr)); [done|exact Hchan|].
    by apply keeps_room.
  - injection Hstep as <-. apply quiet_inv; [done..|by apply (hub_ok_subscribe u r)|done|].
    intros ku p nb taken. by apply chan_other.
  - case_bool_decide as Hk; [done|]. injection Hstep as <-. apply quiet_inv; [done..|by apply hub_ok_receive|done|].
    intros ku p nb taken. by apply chan_other_take.
  - case_bool_decide as Hk; [done|]. injection Hstep as <-. apply quiet_inv; [done..|by apply hub_ok_unsubscribe|done|].
    intros ku p nb taken. by apply chan_other_end.
  - injection Hstep as <-. apply quiet_inv; [done..| |done]. destruct Hb as [Hu Hr]. by split; apply good_keep.
Qed.

Lemma sw_run_inv tr w : sw_run tr start = Some w → sinv tr w.
Proof.
  revert w. induction tr as [|l tr IH] using rev_ind; intros w.
  - intros [= <-]. split_and!; [apply hub_ok_new|split; intros k rb; cbn; by rewrite lookup_empty|].
    exists []. split; [done|]. unfold conn_inv. destruct Hc0 as (H1 & H2 & H3 & H4). cbn. by rewrite H1.
  - rewrite sw_run_snoc. destruct (sw_run tr start) as [w0|] eqn:Hrun; [|done]. cbn. intros Hstep.
    eapply sw_step_inv; eauto.
Qed.

(** What was pushed for the connection after its replay went through its
    channel. *)
Lemma after_replay tr1 now tr2 pushed nb taken c h n :
  hooked (tr1 ++ LReplay now :: tr2) = pushed → (nb ≤ length (hooked tr1))%nat → chan_ok True pushed nb taken c h →
  n ∈ for_conn (cn_user c) (cn_role c) (hooked tr2) →
  n ∈ taken ∨ ∃ k sub, cn_sub c = Some k ∧ hb_subs h !! k = Some sub ∧ n ∈ sb_ch sub.
Proof.
  intros Hh Hnb (k & sub & H1 & H2 & _ & _ & _ & _ & H7) Hn.
  assert (n ∈ taken ++ sb_ch sub) as [Hin|Hin]%elem_of_app; [|by left|by right; eauto].
  rewrite (H7 I), <-Hh, hooked_app. cbn. rewrite drop_app_le by done. rewrite for_conn_app. apply elem_of_app. by right.
Qed.

(** An id of a replay is not pushed again later. *)
Lemma replayed_before tr1 now tr2 c w1 n m : NoDup (push_ids (hooked (tr1 ++ LReplay now :: tr2))) →
  buf_ok (hooked tr1) (dv_buffer (w_out w1)) →
  m ∈ missed (cn_user c) (cn_role c) (cn_last c) now (dv_buffer (w_out w1)) →
  n ∈ for_conn (cn_user c) (cn_role c) (hooked tr2) → nt_ID n = nt_ID m → False.
Proof.
  intros Hnd Hb Hm Hn Hid. unfold missed in Hm. destruct (replay_from _) as [last|]; [|set_solver].
  apply (replay_from_pushes (hooked tr1)) in Hm; [|done]. rewrite hooked_app in Hnd. cbn in Hnd.
  unfold push_ids in Hnd. rewrite fmap_app in Hnd. apply NoDup_app in Hnd as (_ & Hdis & _).
  unfold for_conn in Hm, Hn. apply list_elem_of_fmap in Hm as (x & -> & [_ Hx]%list_elem_of_filter).
  apply list_elem_of_fmap in Hn as (y & -> & [_ Hy]%list_elem_of_filter).
  apply (Hdis (nt_ID x.2)); apply list_elem_of_fmap; [by exists x|]. by exists y.
Qed.

(** C23.  A stream has no duplicate and no gap.  Run the consumer, this
    connection and the others in any interleaving of their steps - a
    notification is first put in the replay buffer and only later offered to
    the connections, and the connection may subscribe and replay in between -
    and let no event be pushed twice.  Then no frame is ever sent twice.  Once
    the stream is live, what it has sent is the answer of [ReplayFor] at some
    moment, followed by pushes in the order they were made; and if the channel
    had room at every push, every notification for this user or role that was
    pushed after that moment has been sent or waits in the channel, once the
    consumer is done with it. *)
Theorem stream_exactly_once tr w : sw_run tr start = Some w → NoDup (push_ids (hooked tr)) →
  let c := w_conn w in
  NoDup (note_ids (cn_sent c)) ∧
  (cn_phase c = Live → ∃ tr1 now tr2 w1 live,
    tr = tr1 ++ LReplay now :: tr2 ∧ sw_run tr1 start = Some w1 ∧
    cn_sent c = missed (cn_user c) (cn_role c) (cn_last c) now (dv_buffer (w_out w1)) ++ live ∧
    live `sublist_of` (snd <$> hooked tr) ∧
    (keeps_up tr → w_job w = None → ∀ n, n ∈ for_conn (cn_user c) (cn_role c) (hooked tr2) →
      n ∈ cn_sent c ∨ ∃ k sub, cn_sub c = Some k ∧ hb_subs (dv_hub (w_out w)) !! k = Some sub ∧ n ∈ sb_ch sub)).
Proof.
  intros Hrun Hnd c. destruct (sw_run_inv _ _ Hrun) as (Hok & Hb & pushed & Hh & Hc).
  split; [by eapply sent_ids|]. intros Hp. unfold conn_inv in Hc. fold c in Hc. rewrite Hp in Hc.
  destruct Hc as (nb & taken & ms & Hch & Hr & Hrep & Hsent).
  pose proof Hr as (tr1 & now & tr2 & w1 & -> & Hrun1 & Hms & Hnb & Hb1).
  exists tr1, now, tr2, w1, (live_frames c taken). rewrite <-Hms. split_and!; [done..| |].
  - trans taken; [apply sublist_filter|]. etrans; [by eapply taken_sublist|]. rewrite Hh, fmap_app. by apply sublist_inserts_r.
  - intros Hku Hjob n Hn. rewrite Hjob, app_nil_r in Hh. apply (chan_weaken _ _ _ True) in Hch; [|done].
    destruct (after_replay _ _ _ _ _ _ _ _ _ Hh Hnb Hch Hn) as [Hin|Hin]; [left|by right].
    rewrite Hsent. apply elem_of_app. right. apply list_elem_of_filter. split; [|done].
    rewrite Hrep, elem_of_list_to_set. intros (m & Hid & Hm)%list_elem_of_fmap.
    rewrite Hms in Hm. by eapply replayed_before.
Qed.
End stream.
