(* ===== verification/NotDemo.v ===== *)
(** Notification service: small runs on which the hypotheses of its theorems
    hold, and two ways in which the memory of order owners falls short of its
    comments. *)

From S2P Require Import Prelude GoStd InvModel InvDemo FulModel FulHandler NotModel NotReplay NotService NotEvents NotRouting.
From S2P Require Import NotStream.

Definition u1 : string := demo_id 61.
Definition n_id (k : N) : string := demo_id (70 + k).
Definition alert (k : N) : Notification :=
  MkNotification (n_id k) NTypeOrderReady "Your gelato order is ready for pickup!" 0 (DReady (demo_id 62) "A-1" (demo_id 63)).

(** ** The replay buffer *)

(** A ring of two: the first of three notifications is gone, the alert of the
    role is between the two that remain. *)
Definition demo_ops : list BOp :=
  [BAdd u1 (alert 1) 1; BAdd u1 (alert 2) 2; BAddRoles (alert 3) [RoleStaff; RoleManager] (λ i, 3 + Z.of_nat i);
   BClean 5; BAdd u1 (alert 4) 6].

Lemma replay_answers_history_witness :
  ReplayFor u1 RoleStaff (n_id 2) 7 (brun demo_ops (newReplayBuffer 2 0)) = [alert 3; alert 4] ∧
  replay_spec 2 DefaultTTL (user_history u1 demo_ops) (role_history RoleStaff demo_ops) (n_id 2) 7 = [alert 3; alert 4].
Proof.
  assert (H : ReplayFor u1 RoleStaff (n_id 2) 7 (brun demo_ops (newReplayBuffer 2 0)) =
    replay_spec 2 DefaultTTL (user_history u1 demo_ops) (role_history RoleStaff demo_ops) (n_id 2) 7).
  { refine (proj1 (replay_answers_history 2 0 demo_ops u1 RoleStaff (n_id 2) 7 _ _ _ _)).
    - repeat constructor; by apply (bool_decide_unpack _).
    - vm_compute. repeat constructor; discriminate.
    - apply (bool_decide_unpack _). by vm_compute.
    - apply (bool_decide_unpack _). by vm_compute. }
  assert (V : replay_spec 2 DefaultTTL (user_history u1 demo_ops) (role_history RoleStaff demo_ops) (n_id 2) 7 = [alert 3; alert 4])
    by (vm_compute; reflexivity).
  split; [rewrite H|]; exact V.
Defined.

(** ** The service *)

Inductive DemoPayload :=
  | PPlaced (order customer : string)
  | PQueued (d : OrderQueuedPayload)
  | PReady (d : OrderReadyPayload)
  | PCancelled (d : OrderCancelledPayload)
  | PLow (d : BatchLowStockPayload)
  | PExpiring (d : BatchExpiringPayload).
#[local] Instance demo_njson : NJson := {|
  NBody := NEnvelope DemoPayload;
  NPayload := DemoPayload;
  n_envelope := Some;
  n_placed := λ p, match p with PPlaced o c => Some (o, c) | _ => None end;
  n_queued := λ p, match p with PQueued d => Some d | _ => None end;
  n_ready := λ p, match p with PReady d => Some d | _ => None end;
  n_cancelled := λ p, match p with PCancelled d => Some d | _ => None end;
  n_low := λ p, match p with PLow d => Some d | _ => None end;
  n_expiring := λ p, match p with PExpiring d => Some d | _ => None end
|}.

Definition demo_limits : Limits := MkLimits 2 3 hour.
Definition msg_placed : NBody := MkNEnvelope _ "1.0" (n_id 1) NTypePlaced 0 (Some (PPlaced (demo_id 62) u1)).
(** The kitchen's message carries no customer. *)
Definition msg_ready : NBody := MkNEnvelope _ "1.0" (n_id 2) NTypeReady 0 (Some (PReady (MkOrderReadyPayload (demo_id 62) "A-1" (demo_id 63) uuid_nil))).
Definition msg_poison : NBody := MkNEnvelope DemoPayload "1.0" (n_id 3) NTypeReady 0 None.

Definition s_start : Service :=
  MkService (MkOwnerMap ∅ []) (MkSeen ∅ []) (MkDelivery (newHub 4) (newReplayBuffer 2 0)).
Definition at_time (t : Z) : nat → Z := λ i, t + Z.of_nat i.
Definition s_joined : Service := set_hub (Subscribe u1 RoleCustomer (dv_hub (sv_out s_start))).2 s_start.
Definition s_placed : Service := (HandleDelivery demo_limits msg_placed (at_time 1) s_joined).2.
Definition s_ready : Service := (HandleDelivery demo_limits msg_ready (at_time 10) s_placed).2.

Lemma demo_reached : nreach demo_limits 4 2 0 [EvPlaced (n_id 1) (demo_id 62) u1; EvReady (n_id 2) 0 (demo_id 62) uuid_nil "A-1" (demo_id 63)] s_ready.
Proof.
  refine (nr_event demo_limits 4 2 0 [EvPlaced _ _ _] s_placed msg_ready (at_time 10) _ _ _); [|by vm_compute].
  refine (nr_event demo_limits 4 2 0 [] s_joined msg_placed (at_time 1) _ _ _); [|by vm_compute].
  exact (nr_subscribe demo_limits 4 2 0 [] s_start u1 RoleCustomer (nr_start demo_limits 4 2 0)).
Qed.

(** The customer is found through the first message. *)
Lemma notification_privacy_witness :
  ReplayFor u1 RoleCustomer uuid_nil 20 (dv_buffer (sv_out s_ready)) = [alert 2] ∧
  may_be_shown [EvPlaced (n_id 1) (demo_id 62) u1; EvReady (n_id 2) 0 (demo_id 62) uuid_nil "A-1" (demo_id 63)] u1 RoleCustomer (alert 2).
Proof.
  assert (V : ReplayFor u1 RoleCustomer uuid_nil 20 (dv_buffer (sv_out s_ready)) = [alert 2]) by (vm_compute; reflexivity).
  split; [exact V|].
  pose proof (proj2 (notification_privacy demo_limits 4 2 0 _ s_ready demo_reached) u1 RoleCustomer uuid_nil 20) as H.
  rewrite V in H. by apply Forall_inv in H.
Defined.

Lemma memory_bounded_witness :
  (size (om_entries (sv_owners s_ready)) ≤ 2)%nat ∧ (length (se_order (sv_seen s_ready)) ≤ 3)%nat.
Proof.
  destruct (memory_bounded demo_limits 4 2 0 _ s_ready demo_reached) as (H1 & _ & H2 & _). exact (conj H1 H2).
Defined.

(** A redelivery and a poison message among three messages. *)
Example demo_redelivery :
  accepted_ids demo_limits [] [(msg_placed, at_time 1); (msg_ready, at_time 2); (msg_placed, at_time 3); (msg_poison, at_time 4)] = [n_id 1; n_id 2].
Proof. vm_compute. reflexivity. Qed.

(** ** A stream *)

Definition c_start : Conn := MkConn u1 RoleCustomer "" None Opening ∅ [].

(** The first notification is in the buffer and not yet offered when the
    connection subscribes and replays: it arrives twice and is sent once. *)
Definition demo_trace : list Label :=
  [LHook (TUser u1) (alert 1) (λ _, 1); LSubscribe; LReplay 2; LFrame true; LPush; LReplayed; LTake true;
   LHook (TUser u1) (alert 2) (λ _, 3); LPush; LTake true].
Definition w_live : World := default (sw_start 4 2 0 c_start) (sw_run demo_trace (sw_start 4 2 0 c_start)).

Lemma stream_exactly_once_witness :
  sw_run demo_trace (sw_start 4 2 0 c_start) = Some w_live ∧ cn_sent (w_conn w_live) = [alert 1; alert 2] ∧
  NoDup (note_ids (cn_sent (w_conn w_live))).
Proof.
  assert (Hrun : sw_run demo_trace (sw_start 4 2 0 c_start) = Some w_live) by (vm_compute; reflexivity).
  split; [exact Hrun|]. split; [vm_compute; reflexivity|].
  refine (proj1 (stream_exactly_once 4 2 0 c_start _ demo_trace w_live Hrun _)).
  - repeat split; reflexivity.
  - apply (bool_decide_unpack _). by vm_compute.
Defined.

(** ** The memory of order owners *)

(** Reading an expired entry removes it from the map and leaves its id in the
    list that orders the evictions.  When the order is put again its id is there
    twice, and the next eviction takes the fresh entry instead of the oldest. *)
Definition stale_owners : ownerMap :=
  let m := om_put 10 2 "order-1" "alice" 0 (MkOwnerMap ∅ []) in
  let m := (om_get "order-1" 10 m).2 in
  let m := om_put 10 2 "order-2" "bob" 11 m in
  om_put 10 2 "order-1" "alice" 12 m.
Lemma fresh_owner_evicted :
  om_order stale_owners = ["order-1"; "order-2"; "order-1"] ∧
  let m := om_put 10 2 "order-3" "carol" 13 stale_owners in
  om_entries m !! "order-1" = None ∧ ow_customerID <$> om_entries m !! "order-2" = Some "bob".
Proof. vm_compute. repeat split. Qed.

(** For the same reason the list can grow past every bound while the map holds
    at most one entry. *)
Fixpoint expire_cycles (k : nat) (m : ownerMap) : ownerMap :=
  match k with O => m | S k => (om_get "order-1" 10 (om_put 10 2 "order-1" "alice" 0 (expire_cycles k m))).2 end.
Lemma evict_small max entries order : (size entries ≤ max)%nat → evict max entries order = MkOwnerMap entries order.
Proof. intros H. destruct order as [|x order]; cbn [evict]; [done|]. rewrite bool_decide_eq_false_2 by lia. done. Qed.

Lemma order_list_unbounded k : let m := expire_cycles k (MkOwnerMap ∅ []) in om_entries m = ∅ ∧ length (om_order m) = k.
Proof.
  induction k as [|k [IH1 IH2]]; [done|]. cbn zeta in *. cbn [expire_cycles]. unfold om_put.
  rewrite IH1, lookup_empty, bool_decide_eq_false_2 by (by intros [? ?]). rewrite evict_small by (rewrite map_size_insert_None, map_size_empty by apply lookup_empty; lia).
  unfold om_get. cbn [om_entries]. rewrite lookup_insert_eq. rewrite bool_decide_eq_false_2 by (cbn; lia).
  cbn [negb snd om_entries om_order]. rewrite length_app, IH2. split; [|cbn; lia].
  rewrite delete_insert_id; [done|apply lookup_empty].
Qed.
