(* ===== verification/CatModel.v ===== *)
(** Catalog service: the flavors of [catalog-service/internal/model/flavor.go],
    the audit records of [internal/audit/record.go] and the Redis store behind
    them, with the Lua scripts of [internal/repository].

    Redis runs a script as one step.  A call may fail before or after the
    script took effect: the oracle's [or_fault] and [or_landed] decide. *)

From S2P Require Import Prelude Effects GoStd InvModel.

(** ** Data *)

Record Money := MkMoney { mo_AmountMinor : Z; mo_Currency : string }.
#[global] Instance Money_eq_dec : EqDecision Money.
Proof. solve_decision. Defined.

Definition Allergen_Valid (a : string) : bool :=
  bool_decide (a ∈ ["MILK"; "EGG"; "PEANUT"; "TREE_NUT"; "SOY"; "GLUTEN"]).

(** [Flavor] and [FlavorAdmin]; an image URL that is absent is empty. *)
Record Flavor := MkFlavor {
  fl_ID : string; fl_Name : string; fl_Description : string; fl_Price : Money; fl_ImageURL : string;
  fl_Allergens : list string; fl_Active : bool; fl_CreatedAt : Z; fl_UpdatedAt : Z
}.
Record FlavorAdmin := MkFlavorAdmin { fa_Flavor : Flavor; fa_Recipe : string; fa_IdempotentReplay : bool }.
#[global] Instance Flavor_eq_dec : EqDecision Flavor.
Proof. solve_decision. Defined.
#[global] Instance FlavorAdmin_eq_dec : EqDecision FlavorAdmin.
Proof. solve_decision. Defined.

Abbreviation fa_ID f := (fl_ID (fa_Flavor f)).
Abbreviation fa_Name f := (fl_Name (fa_Flavor f)).
Abbreviation fa_Active f := (fl_Active (fa_Flavor f)).
Abbreviation fa_UpdatedAt f := (fl_UpdatedAt (fa_Flavor f)).
Abbreviation fa_CreatedAt f := (fl_CreatedAt (fa_Flavor f)).

Definition set_replay (b : bool) (f : FlavorAdmin) : FlavorAdmin := MkFlavorAdmin (fa_Flavor f) (fa_Recipe f) b.

Inductive CErr :=
  | EInvalidInput (what : string)
  | ENotFound
  | ENameConflict
  | EUpdateConflict
  | EAuditStorage
  | EIdemConflict
  | EIdemUnavailable
  | EActorRequired
  | EAudit (what : string)
  | EDecode
  | EEncode
  | ERedis (e : dberr).
#[global] Instance CErr_eq_dec : EqDecision CErr.
Proof. solve_decision. Defined.
#[global] Instance CErr_db : DbError CErr := ERedis.

(** ** The request context *)

(** [idempotency.Request]. *)
Record IdemRequest := MkIdemRequest { rq_Key : string; rq_RawKey : string; rq_PayloadHash : string; rq_Scope : string }.
Definition IdemTTL : Z := 24 * hour.

(** The actor [WithActor] put into the context, and the keyed request. *)
Record CCtx := MkCCtx { cc_actor : option (string * string); cc_request : option IdemRequest }.

Definition RoleCatalogManager : string := "MANAGER".

Inductive Action := ACreate | AUpdate | AReplace | AArchive.
#[global] Instance Action_eq_dec : EqDecision Action.
Proof. solve_decision. Defined.

Section actor.
Context {uuid : UuidLib}.

Definition cat_WithActor (subject role : string) (cx : CCtx) : CCtx :=
  match uuid_parse subject with
  | Some id =>
      if bool_decide (id = uuid_nil) || negb (bool_decide (role = RoleCatalogManager))
      then MkCCtx (Some (uuid_nil, "")) (cc_request cx)
      else MkCCtx (Some (id, role)) (cc_request cx)
  | None => MkCCtx (Some (uuid_nil, "")) (cc_request cx)
  end.
End actor.

Definition ManagerID (cx : CCtx) : option string :=
  match cc_actor cx with
  | Some (id, role) =>
      if bool_decide (id = uuid_nil) || negb (bool_decide (role = RoleCatalogManager)) then None else Some id
  | None => None
  end.

(** ** Audit records *)

Record AState := MkAState { as_Allergens : list string; as_Active : bool }.
Record ARecord := MkARecord {
  ar_ID : string; ar_ActorID : string; ar_ActorRole : string; ar_Action : Action; ar_FlavorID : string;
  ar_OccurredAt : Z; ar_ChangedFields : list string; ar_Before : option AState; ar_After : AState
}.

Definition audit_state (f : FlavorAdmin) : AState := MkAState (fl_Allergens (fa_Flavor f)) (fa_Active f).

Definition changed_fields (before after : FlavorAdmin) : list string :=
  let b := fa_Flavor before in
  let a := fa_Flavor after in
  (if bool_decide (fl_Name b = fl_Name a) then [] else ["name"]) ++
  (if bool_decide (fl_Description b = fl_Description a) then [] else ["description"]) ++
  (if bool_decide (fl_Price b = fl_Price a) then [] else ["price"]) ++
  (if bool_decide (fl_ImageURL b = fl_ImageURL a) then [] else ["image_url"]) ++
  (if bool_decide (fl_Allergens b = fl_Allergens a) then [] else ["allergens"]) ++
  (if bool_decide (fa_Recipe before = fa_Recipe after) then [] else ["recipe"]) ++
  (if bool_decide (fl_Active b = fl_Active a) then [] else ["active"]).

(** ** Redis *)

(** The keys the service builds, by their constant parts: a flavor, the owner
    of a name, the set of ids, the audit list of a flavor, the answer of a keyed
    mutation, the answer of a keyed creation, and the placeholder of a creation
    without a key. *)
Inductive RKey :=
  | KFlavor (id : string)
  | KName (digest : string)
  | KIds
  | KAudit (id : string)
  | KMutation (key : string)
  | KIdem (raw : string)
  | KUnused (id : string).
#[global] Instance RKey_eq_dec : EqDecision RKey.
Proof. solve_decision. Defined.
Definition RKey_code (k : RKey) : nat * string :=
  match k with
  | KFlavor s => (0%nat, s) | KName s => (1%nat, s) | KIds => (2%nat, "") | KAudit s => (3%nat, s)
  | KMutation s => (4%nat, s) | KIdem s => (5%nat, s) | KUnused s => (6%nat, s)
  end.
Definition RKey_decode (c : nat * string) : option RKey :=
  match c with
  | (0%nat, s) => Some (KFlavor s) | (1%nat, s) => Some (KName s) | (2%nat, _) => Some KIds | (3%nat, s) => Some (KAudit s)
  | (4%nat, s) => Some (KMutation s) | (5%nat, s) => Some (KIdem s) | (6%nat, s) => Some (KUnused s) | _ => None
  end.
#[global] Program Instance RKey_countable : Countable RKey := inj_countable RKey_code RKey_decode _.
Next Obligation. by intros []. Qed.

Inductive RVal :=
  | VStr (s : string) (expires : option Z)
  | VSet (m : gset string)
  | VList (l : list string).
Abbreviation Redis := (gmap RKey RVal).

Definition alive (now : Z) (v : RVal) : bool :=
  match v with VStr _ (Some t) => bool_decide (now < t) | _ => true end.
(** What a command sees: expired keys are gone. *)
Definition rlook (now : Z) (k : RKey) (r : Redis) : option RVal :=
  match r !! k with Some v => if alive now v then Some v else None | None => None end.
Definition rtype (now : Z) (k : RKey) (r : Redis) : string :=
  match rlook now k r with
  | Some (VStr _ _) => "string" | Some (VSet _) => "set" | Some (VList _) => "list" | None => "none"
  end.
Definition rget (now : Z) (k : RKey) (r : Redis) : option string :=
  match rlook now k r with Some (VStr s _) => Some s | _ => None end.
Definition rset (k : RKey) (s : string) (r : Redis) : Redis := <[k := VStr s None]> r.
Definition rset_px (now : Z) (k : RKey) (s : string) (ttl : Z) (r : Redis) : Redis := <[k := VStr s (Some (now + ttl))]> r.
Definition rsadd (now : Z) (k : RKey) (s : string) (r : Redis) : Redis :=
  match rlook now k r with Some (VSet m) => <[k := VSet (m ∪ {[s]})]> r | _ => <[k := VSet {[s]}]> r end.
Definition rrpush (now : Z) (k : RKey) (s : string) (r : Redis) : Redis :=
  match rlook now k r with Some (VList l) => <[k := VList (l ++ [s])]> r | _ => <[k := VList [s]]> r end.

(** [actual ~= "none" and actual ~= kind] for none of the keys. *)
Definition types_ok (now : Z) (r : Redis) (l : list (RKey * string)) : bool :=
  forallb (λ p, bool_decide (rtype now p.1 r = "none") || bool_decide (rtype now p.1 r = p.2)) l.

(** ** The libraries: JSON in Go and in Lua, SHA-256 and Unicode lower case *)

Record CachedReply := MkCachedReply { ca_hash : string; ca_status : Z; ca_body : string }.

Class CatLib := {
  flavor_json : FlavorAdmin → option string;
  flavor_of : string → option FlavorAdmin;
  record_json : ARecord → option string;
  created_json : string → string → string;
  reply_json : CachedReply → string;
  reply_of : string → option CachedReply;
  lua_cached : string → option CachedReply;
  legacy_conflict : string;
  sha_hex : string → string;
  lower : string → string
}.

(** The permissions of the Redis user: [redis.acl_check_cmd]. *)
Class RedisAcl := acl_check : string → RKey → bool.

Section scripts.
Context {lib : CatLib} {acl : RedisAcl}.

Definition nameKey (name : string) : RKey := KName (sha_hex (lower (trim_space name))).

(** What the scripts answer: a code, or a pair. *)
Inductive ScriptResult := RCode (z : Z) | RDone | RReplay (s : string).

(** The answer a key of a creation already has, if any. *)
Definition cached_create (now : Z) (hash : string) (k : RKey) (r : Redis) : option ScriptResult :=
  if negb (types_ok now r [(k, "string")]) then Some (RCode (-4))
  else match rget now k r with
  | None => None
  | Some previous =>
      match lua_cached previous with
      | None => Some (RCode (-4))
      | Some rec =>
          if negb (bool_decide (ca_status rec = 201)) then Some (RCode (-4))
          else if negb (bool_decide (ca_hash rec = hash)) then Some (RCode (-5))
          else Some (RReplay (ca_body rec))
      end
  end.

(** [createFlavorScript]; without a request the hash is empty. *)
Definition createFlavorScript (id : string) (kname kidem klegacy : RKey) (payload history hash cached : string)
    (now : Z) (r : Redis) : ScriptResult * Redis :=
  let commit :=
    if negb (types_ok now r [(KFlavor id, "string"); (kname, "string"); (KIds, "set"); (KAudit id, "list")]) then (RCode (-3), r)
    else if bool_decide (is_Some (rlook now kname r)) then (RCode 0, r)
    else if bool_decide (is_Some (rlook now (KFlavor id) r)) then (RCode (-2), r)
    else if negb (acl_check "SET" (KFlavor id)) || negb (acl_check "SET" kname) || negb (acl_check "SADD" KIds)
            || negb (acl_check "RPUSH" (KAudit id)) then (RCode (-3), r)
    else
      let r := rset (KFlavor id) payload r in
      let r := rset kname id r in
      let r := rsadd now KIds id r in
      let r := rrpush now (KAudit id) history r in
      let r := if bool_decide (hash = "") then r else rset_px now kidem cached IdemTTL r in
      (RDone, r) in
  if bool_decide (hash = "") then commit
  else match cached_create now hash kidem r with
  | Some res => (res, r)
  | None =>
      match cached_create now hash klegacy r with
      | Some res => (res, r)
      | None => if negb (acl_check "SET" kidem) then (RCode (-4), r) else commit
      end
  end.

(** The writes both update scripts end with. *)
Definition write_flavor (now : Z) (id payload history : string) (kold knew : RKey) (r : Redis) : Redis :=
  let r := if bool_decide (kold = knew) then r
           else if bool_decide (rget now kold r = Some id) then delete kold r else r in
  let r := rset knew id r in
  let r := rset (KFlavor id) payload r in
  rrpush now (KAudit id) history r.

(** Their permissions. *)
Definition may_write (now : Z) (id : string) (kold knew : RKey) (r : Redis) : bool :=
  acl_check "SET" (KFlavor id) && acl_check "SET" knew && acl_check "RPUSH" (KAudit id) &&
  (bool_decide (kold = knew) || negb (bool_decide (rget now kold r = Some id)) || acl_check "DEL" kold).

(** [updateFlavorScript]. *)
Definition updateFlavorScript (id : string) (kold knew : RKey) (payload expected history : string)
    (now : Z) (r : Redis) : Z * Redis :=
  if negb (types_ok now r [(KFlavor id, "string"); (kold, "string"); (knew, "string"); (KAudit id, "list")]) then (-3, r)
  else match rget now (KFlavor id) r with
  | None => (-1, r)
  | Some current =>
      if negb (bool_decide (current = expected)) then (-2, r)
      else if match rget now knew r with Some owner => negb (bool_decide (owner = id)) | None => false end then (0, r)
      else if negb (may_write now id kold knew r) then (-3, r)
      else (1, write_flavor now id payload history kold knew r)
  end.

(** [mutationReplayScript]. *)
Definition mutationReplayScript (id : string) (kold knew kmut : RKey) (payload expected history hash cached body : string)
    (now : Z) (r : Redis) : ScriptResult * Redis :=
  if negb (types_ok now r [(kmut, "string")]) then (RCode (-4), r)
  else match rget now kmut r with
  | Some previous =>
      match lua_cached previous with
      | None => (RCode (-4), r)
      | Some rec =>
          if negb (bool_decide (ca_status rec = 200) || bool_decide (ca_status rec = 204)) then (RCode (-4), r)
          else if negb (bool_decide (ca_hash rec = hash)) then (RCode (-5), r)
          else (RReplay previous, r)
      end
  | None =>
      if negb (acl_check "SET" kmut) then (RCode (-4), r)
      else if negb (types_ok now r [(KFlavor id, "string")]) then (RCode (-3), r)
      else match rget now (KFlavor id) r with
      | None => (RCode (-1), r)
      | Some current =>
          if negb (bool_decide (current = expected)) then (RCode (-2), r)
          else if bool_decide (payload = expected) then (RDone, rset_px now kmut cached IdemTTL r)
          else if negb (types_ok now r [(KFlavor id, "string"); (kold, "string"); (knew, "string"); (KAudit id, "list")]) then (RCode (-3), r)
          else if match rget now knew r with Some owner => negb (bool_decide (owner = id)) | None => false end then (RCode 0, r)
          else if negb (may_write now id kold knew r) then (RCode (-3), r)
          else (RDone, rset_px now kmut cached IdemTTL (write_flavor now id payload history kold knew r))
      end
  end.

(** [PTTL]: -2 for no key, -1 for no expiry. *)
Definition rpttl (now : Z) (k : RKey) (r : Redis) : Z :=
  match rlook now k r with None => -2 | Some (VStr _ (Some t)) => t - now | Some _ => -1 end.

(** [reconcileIdempotencyScript]: an answer under a spelling of the key moves
    to the canonical one, or marks it as conflicting. *)
Definition reconcileIdempotencyScript (ksrc kdst : RKey) (now : Z) (r : Redis) : Redis :=
  if bool_decide (rtype now ksrc r = "none") then r
  else if negb (types_ok now r [(kdst, "string")]) then r
  else
    let sourceTTL := rpttl now ksrc r in
    let destinationTTL := rpttl now kdst r in
    let ttl := if bool_decide (destinationTTL = -1) || bool_decide (sourceTTL = -1) then -1 else Z.max sourceTTL destinationTTL in
    let decode v := match lua_cached v with Some rec => if bool_decide (ca_status rec = 201) then Some rec else None | None => None end in
    let record := rget now ksrc r ≫= decode in
    let destination := rget now kdst r in
    let value :=
      match rget now ksrc r, record with
      | Some source, Some rec =>
          match destination with
          | None => source
          | Some d =>
              match decode d with
              | Some previous =>
                  if bool_decide (ca_hash previous = ca_hash rec) && bool_decide (ca_body previous = ca_body rec)
                  then source else legacy_conflict
              | None => legacy_conflict
              end
          end
      | _, _ => legacy_conflict
      end in
    if bool_decide (ttl = -1) then rset kdst value r
    else if bool_decide (ttl > 0) then rset_px now kdst value ttl r
    else r.
End scripts.
