(* ===== verification/CatService.v ===== *)
(** Catalog service: the repository ([internal/repository]) and the service
    ([internal/service/catalog_service.go]). *)

From S2P Require Import Prelude Effects GoStd InvModel CatModel.

(** [legacyReady] is a field of the repository. *)
Record CatState := MkCatState { cs_redis : Redis; cs_legacyReady : bool }.

(** ** Go's [url.ParseRequestURI], as far as the service looks at it: the
    scheme and the host *)

Definition userinfo_byte (b : Z) : bool := alpha b || is_digit b || bool_decide (b ∈ bytes "-._:~!$&'()*+,;=%@").

Section uri.
Context (ip_literal : string → bool).

Definition ParseRequestURI (raw : string) : option (string * list Z) :=
  let u := bytes raw in
  if existsb control u then None
  else if bool_decide (u = []) then None
  else if bool_decide (u = [42]) then Some ("", [])
  else match get_scheme 0 [] u with
  | SchemeError => None
  | NoScheme =>
      let '(rest, _) := cut 63 u in
      match rest with 47 :: path => if escapes_ok path then Some ("", []) else None | _ => None end
  | Scheme s rest =>
      let scheme := to_lower (of_bytes s) in
      let '(rest, _) := cut 63 rest in
      match rest with
      | 47 :: 47 :: rest =>
          let '(authority, path) := cut 47 rest in
          if negb (escapes_ok (default [] path)) then None
          else match cut_last 64 authority with
          | Some (user, h) =>
              h ← parse_host ip_literal h;
              if forallb userinfo_byte user && escapes_ok user then Some (scheme, h) else None
          | None => h ← parse_host ip_literal authority; Some (scheme, h)
          end
      | 47 :: path => if escapes_ok path then Some (scheme, []) else None
      | _ => Some (scheme, [])
      end
  end.
End uri.

Example uri_host : ParseRequestURI (λ _, false) "https://cdn.example/a.png" = Some ("https", bytes "cdn.example").
Proof. reflexivity. Qed.
Example uri_relative : ParseRequestURI (λ _, false) "cdn.example/a.png" = None.
Proof. reflexivity. Qed.

(** ** Calls of Redis *)

Definition rcall {A} (f : Z → Redis → A * Redis) : M CatState CErr A := λ o w,
  let n := w_tick w in
  let s := w_db w in
  let '(a, r) := f (or_clock o n) (cs_redis s) in
  let s' := MkCatState r (cs_legacyReady s) in
  match or_fault o n with
  | None => (inr a, World s' (S n) (w_aborted w) (w_locks w))
  | Some e => (inl (ERedis e), World (if or_landed o n then s' else s) (S n) (w_aborted w) (w_locks w))
  end.
Definition rread {A} (f : Z → Redis → A) : M CatState CErr A := rcall (λ t r, (f t r, r)).

Definition legacy_ready : M CatState CErr bool := λ o w, (inr (cs_legacyReady (w_db w)), w).
Definition set_legacy_ready : M CatState CErr unit := λ o w,
  (inr tt, World (MkCatState (cs_redis (w_db w)) true) (w_tick w) (w_aborted w) (w_locks w)).

Section repository.
Context {uuid : UuidLib} {lib : CatLib} {acl : RedisAcl}.
(** The pages that [SCAN] hands out: the texts after ["idempotency:"]. *)
Context (pages : list (list string)).
Abbreviation C := (M CatState CErr).

(** [audit.NewRecord]. *)
Definition NewRecord (cx : CCtx) (action : Action) (before : option FlavorAdmin) (after : FlavorAdmin) : C ARecord :=
  match ManagerID cx with
  | None => throw EActorRequired
  | Some actor =>
      if bool_decide (fa_ID after = uuid_nil)
         || match before with Some b => negb (bool_decide (fa_ID b = fa_ID after)) | None => negb (bool_decide (action = ACreate)) end
      then throw (EAudit "invalid Catalog audit resource")
      else
        id ← new_uuid;
        now ← go_now;
        mret (MkARecord id actor RoleCatalogManager action (fa_ID after) now
          (match before with
           | None => ["name"; "description"; "price"; "image_url"; "allergens"; "recipe"; "active"]
           | Some b => changed_fields b after
           end)
          (audit_state <$> before) (audit_state after))
  end.

Definition encode (j : option string) : C string := match j with Some s => mret s | None => throw EEncode end.

(** One page of keys of [PrepareIdempotency]. *)
Definition reconcile_page (keys : list string) : C unit :=
  for_each keys (λ raw,
    match uuid_parse raw with
    | None => mret tt
    | Some id =>
        if bool_decide (raw = id) then mret tt
        else
          r ← try (rcall (λ t r, (tt, reconcileIdempotencyScript (KIdem raw) (KIdem id) t r)));
          match r with inl _ => throw EIdemUnavailable | inr _ => mret tt end
    end).

Definition PrepareIdempotency : C unit :=
  ready ← legacy_ready;
  if (ready : bool) then mret tt
  else
    for_each pages (λ keys,
      r ← try (rread (λ _ _, tt));
      match r with inl _ => throw EIdemUnavailable | inr _ => reconcile_page keys end) ;;
    set_legacy_ready.

Definition is_hex (s : string) : bool := forallb (λ b, bool_decide (is_Some (unhex b))) (bytes s).
Definition hash_ok (h : string) : bool := bool_decide (String.length h = 64%nat) && is_hex h.

(** [(r *RedisFlavorRepository) create]. *)
Definition repo_create (cx : CCtx) (flavor : FlavorAdmin) (request : option IdemRequest) : C (FlavorAdmin * bool) :=
  record ← NewRecord cx ACreate None flavor;
  history ← encode (record_json record);
  payload ← encode (flavor_json flavor);
  '(key, legacyKey, hash, cached) ←
    (match request with
     | None => mret (KUnused (fa_ID flavor), KUnused (fa_ID flavor), "", "")
     | Some rq =>
         if negb (hash_ok (rq_PayloadHash rq)) then throw EIdemUnavailable
         else if negb (bool_decide (uuid_parse (rq_RawKey rq) = Some (rq_Key rq))) then throw EIdemUnavailable
         else
           PrepareIdempotency ;;
           mret (KIdem (rq_Key rq), KIdem (rq_RawKey rq), rq_PayloadHash rq, created_json (rq_PayloadHash rq) payload)
     end : C (RKey * RKey * string * string));
  result ← try (rcall (createFlavorScript (fa_ID flavor) (nameKey (fa_Name flavor)) key legacyKey payload history hash cached));
  match result with
  | inl e => if bool_decide (request = None) then throw e else throw EIdemUnavailable
  | inr (RCode z) =>
      if bool_decide (z = -5) then throw EIdemConflict
      else if bool_decide (z = -4) then throw EIdemUnavailable
      else if bool_decide (z = -3) then throw EAuditStorage
      else if bool_decide (z = -2) then throw EUpdateConflict
      else if bool_decide (z = 0) then throw ENameConflict
      else throw EIdemUnavailable
  | inr RDone => mret (flavor, false)
  | inr (RReplay body) =>
      match flavor_of body with
      | Some original => if bool_decide (fa_ID original = uuid_nil) then throw EIdemUnavailable else mret (original, true)
      | None => throw EIdemUnavailable
      end
  end.

(** [FindByID]; a key of another type is an error of Redis. *)
Definition FindByID (id : string) : C FlavorAdmin :=
  v ← rread (λ t r, rlook t (KFlavor id) r);
  match v with
  | None => throw ENotFound
  | Some (VStr payload _) => match flavor_of payload with Some f => mret f | None => throw EDecode end
  | Some _ => throw (ERedis (DbPg "WRONGTYPE"))
  end.

(** [repository.List]: the ids in order, then the flavors by lower-case name
    and id.  An empty pipeline is not sent. *)
Definition by_name (f g : FlavorAdmin) : Prop :=
  if bool_decide (lower (fa_Name f) = lower (fa_Name g)) then String.le (fa_ID f) (fa_ID g)
  else String.le (lower (fa_Name f)) (lower (fa_Name g)).
#[global] Instance by_name_dec f g : Decision (by_name f g).
Proof. unfold by_name. destruct (bool_decide _); apply _. Defined.

(** What the pipeline of [GET]s answers, in order; [None] is [redis.Nil]. *)
Definition pipeline_get (ids : list string) (t : Z) (r : Redis) : list (option RVal) :=
  omap (λ raw, (λ id, rlook t (KFlavor id) r) <$> uuid_parse raw) ids.

(** [pipe.Exec] reports the first error, which may be [redis.Nil]. *)
Fixpoint exec_error (l : list (option RVal)) : option CErr :=
  match l with
  | [] => None
  | Some (VStr _ _) :: l => exec_error l
  | None :: _ => None
  | Some _ :: _ => Some (ERedis (DbPg "WRONGTYPE"))
  end.
Fixpoint decode_flavors (l : list (option RVal)) : CErr + list FlavorAdmin :=
  match l with
  | [] => inr []
  | None :: l => decode_flavors l
  | Some (VStr p _) :: l =>
      match flavor_of p with
      | None => inl EDecode
      | Some f => match decode_flavors l with inr fs => inr (f :: fs) | inl e => inl e end
      end
  | Some _ :: _ => inl (ERedis (DbPg "WRONGTYPE"))
  end.

Definition repo_List : C (list FlavorAdmin) :=
  v ← rread (λ t r, rlook t KIds r);
  match v with
  | None => mret []
  | Some (VSet ids) =>
      let ids := merge_sort String.le (elements ids) in
      if bool_decide (omap uuid_parse ids = []) then mret []
      else
        l ← rread (pipeline_get ids);
        match exec_error l with
        | Some e => throw e
        | None => match decode_flavors l with inl e => throw e | inr fs => mret (merge_sort by_name fs) end
        end
  | Some _ => throw (ERedis (DbPg "WRONGTYPE"))
  end.

(** ** Keyed mutations *)

Definition method_of (a : Action) : option (string * Z) :=
  match a with
  | AUpdate => Some ("PATCH", 200)
  | AReplace => Some ("PUT", 200)
  | AArchive => Some ("DELETE", 204)
  | ACreate => None
  end.

Definition mutationFingerprint (cx : CCtx) (action : Action) (id : string) (rq : IdemRequest) : CErr + (string * Z) :=
  match ManagerID cx with
  | None => inl EActorRequired
  | Some actor =>
      match method_of action with
      | None => inl EIdemUnavailable
      | Some (method, status) =>
          if negb (bool_decide (uuid_parse (rq_RawKey rq) = Some (rq_Key rq))) || bool_decide (rq_Key rq = uuid_nil)
             || bool_decide (id = uuid_nil) || negb (bool_decide (rq_Scope rq = method +:+ ":" +:+ id))
             || negb (hash_ok (rq_PayloadHash rq))
          then inl EIdemUnavailable
          else inr (sha_hex (actor +:+ String (Ascii.ascii_of_nat 10) (rq_Scope rq +:+ String (Ascii.ascii_of_nat 10) (rq_PayloadHash rq))), status)
      end
  end.

(** The original of a replayed mutation; [None] when the answer had no body. *)
Definition decodeMutationReply (raw hash : string) (status : Z) (id : string) : CErr + option FlavorAdmin :=
  match reply_of raw with
  | None => inl EIdemUnavailable
  | Some reply =>
      if negb (bool_decide (String.length (ca_hash reply) = 64%nat))
         || negb (bool_decide (ca_status reply = 200) || bool_decide (ca_status reply = 204)) then inl EIdemUnavailable
      else if negb (bool_decide (ca_hash reply = hash)) then inl EIdemConflict
      else if negb (bool_decide (ca_status reply = status)) then inl EIdemUnavailable
      else if bool_decide (status = 204) then
        if bool_decide (ca_body reply = "") then inr None else inl EIdemUnavailable
      else match flavor_of (ca_body reply) with
      | Some original => if bool_decide (fa_ID original = id) then inr (Some (set_replay true original)) else inl EIdemUnavailable
      | None => inl EIdemUnavailable
      end
  end.

(** [LookupMutation]: what was answered, when something was. *)
Definition LookupMutation (cx : CCtx) (action : Action) (id : string) (rq : IdemRequest) : C (option (option FlavorAdmin)) :=
  match mutationFingerprint cx action id rq with
  | inl e => throw e
  | inr (hash, status) =>
      raw ← try (rread (λ t r, rlook t (KMutation (rq_Key rq)) r));
      match raw with
      | inr None => mret None
      | inr (Some (VStr raw _)) =>
          match decodeMutationReply raw hash status id with inl e => throw e | inr original => mret (Some original) end
      | _ => throw EIdemUnavailable
      end
  end.

(** [updateIdempotent] gives back the flavor as it leaves it. *)
Definition updateIdempotent (cx : CCtx) (action : Action) (previous flavor : FlavorAdmin) (rq : IdemRequest) : C FlavorAdmin :=
  match mutationFingerprint cx action (fa_ID flavor) rq with
  | inl e => throw e
  | inr (hash, status) =>
      record ← NewRecord cx action (Some previous) flavor;
      history ← (match record_json record with Some s => mret s | None => throw EIdemUnavailable end : C string);
      payload ← (match flavor_json flavor with Some s => mret s | None => throw EIdemUnavailable end : C string);
      expected ← (match flavor_json previous with Some s => mret s | None => throw EIdemUnavailable end : C string);
      let body := if bool_decide (status = 204) then "" else payload in
      result ← try (rcall (mutationReplayScript (fa_ID flavor) (nameKey (fa_Name previous)) (nameKey (fa_Name flavor))
        (KMutation (rq_Key rq)) payload expected history hash (reply_json (MkCachedReply hash status body)) body));
      match result with
      | inl _ => throw EIdemUnavailable
      | inr (RCode z) =>
          if bool_decide (z = -5) then throw EIdemConflict
          else if bool_decide (z = -4) then throw EIdemUnavailable
          else if bool_decide (z = -3) then throw EAuditStorage
          else if bool_decide (z = -2) then throw EUpdateConflict
          else if bool_decide (z = -1) then throw ENotFound
          else if bool_decide (z = 0) then throw ENameConflict
          else throw EIdemUnavailable
      | inr RDone => mret flavor
      | inr (RReplay raw) =>
          match decodeMutationReply raw hash status (fa_ID flavor) with
          | inl e => throw e
          | inr (Some original) => mret original
          | inr None => mret (set_replay true flavor)
          end
      end
  end.

(** [repository.Update]. *)
Definition repo_Update (cx : CCtx) (action : Action) (previous flavor : FlavorAdmin) : C FlavorAdmin :=
  let plain :=
    record ← NewRecord cx action (Some previous) flavor;
    history ← encode (record_json record);
    payload ← encode (flavor_json flavor);
    expected ← encode (flavor_json previous);
    result ← rcall (updateFlavorScript (fa_ID flavor) (nameKey (fa_Name previous)) (nameKey (fa_Name flavor)) payload expected history);
    if bool_decide (result = -3) then throw EAuditStorage
    else if bool_decide (result = -2) then throw EUpdateConflict
    else if bool_decide (result = -1) then throw ENotFound
    else if bool_decide (result = 0) then throw ENameConflict
    else mret flavor in
  match cc_request cx with
  | Some rq => if bool_decide (rq_Scope rq = "") then plain else updateIdempotent cx action previous flavor rq
  | None => plain
  end.
End repository.

(** ** Validation *)

Section validation.
Context (ip_literal : string → bool).
Abbreviation R A := (CErr + A)%type.

Definition validateName (raw : string) : R string :=
  let name := trim_space raw in
  let count := rune_count name in
  if bool_decide (count < 1) || bool_decide (count > 100) then inl (EInvalidInput "name") else inr name.
Definition validateDescription (raw : string) : R string :=
  let description := trim_space raw in
  if bool_decide (rune_count description > 1000) then inl (EInvalidInput "description") else inr description.
Definition validateMoney (m : Money) : R Money :=
  if bool_decide (mo_AmountMinor m < 0) || negb (bool_decide (mo_Currency m = "THB")) then inl (EInvalidInput "price") else inr m.
Definition validateImageURL (raw : string) : R string :=
  let value := trim_space raw in
  match ParseRequestURI ip_literal value with
  | Some (scheme, host) =>
      if (negb (bool_decide (scheme = "http")) && negb (bool_decide (scheme = "https"))) || bool_decide (host = [])
      then inl (EInvalidInput "image_url") else inr value
  | None => inl (EInvalidInput "image_url")
  end.

(** The loop over the allergens with the set of those seen. *)
Fixpoint check_allergens (seen : list string) (l : list string) : option CErr :=
  match l with
  | [] => None
  | a :: l =>
      if negb (Allergen_Valid a) then Some (EInvalidInput "allergen")
      else if bool_decide (a ∈ seen) then Some (EInvalidInput "allergens")
      else check_allergens (a :: seen) l
  end.
Definition validateAllergens (raw : list string) : R (list string) :=
  match check_allergens [] raw with Some e => inl e | None => inr (merge_sort String.le raw) end.
Definition validateRecipe (raw : string) : R string :=
  let recipe := trim_space raw in
  if bool_decide (recipe = "") then inl (EInvalidInput "recipe") else inr recipe.

(** [CreateFlavorInput], [ReplaceFlavorInput] and [UpdateFlavorInput] have the
    same fields. *)
Record FlavorInput := MkFlavorInput {
  in_Name : option string; in_Description : option string; in_Price : option Money; in_ImageURL : option string;
  in_Allergens : option (list string); in_Recipe : option string; in_Active : option bool
}.

(** What a validated input says. *)
Record Fields := MkFields {
  fd_Name : string; fd_Description : string; fd_Price : Money; fd_ImageURL : string; fd_Allergens : list string;
  fd_Recipe : string; fd_Active : bool
}.

#[local] Instance R_ret : MRet (sum CErr) := λ A a, inr a.
#[local] Instance R_bind : MBind (sum CErr) := λ A B f m, match m with inl e => inl e | inr a => f a end.

Definition validateCreateInput (i : FlavorInput) : R Fields :=
  match in_Name i, in_Description i, in_Price i, in_Allergens i, in_Recipe i with
  | Some n, Some d, Some p, Some al, Some rc =>
      name ← validateName n;
      description ← validateDescription d;
      price ← validateMoney p;
      imageURL ← (match in_ImageURL i with Some u => validateImageURL u | None => inr "" end);
      allergens ← validateAllergens al;
      recipe ← validateRecipe rc;
      inr (MkFields name description price imageURL allergens recipe (default true (in_Active i)))
  | _, _, _, _, _ => inl (EInvalidInput "required")
  end.

Definition hasUpdate (i : FlavorInput) : bool :=
  bool_decide (is_Some (in_Name i)) || bool_decide (is_Some (in_Description i)) || bool_decide (is_Some (in_Price i)) ||
  bool_decide (is_Some (in_ImageURL i)) || bool_decide (is_Some (in_Allergens i)) || bool_decide (is_Some (in_Recipe i)) ||
  bool_decide (is_Some (in_Active i)).

(** A field that is given is validated; one that is not stays. *)
Definition field {A B} (v : A → R B) (given : option A) (old : B) : R B :=
  match given with Some a => v a | None => inr old end.
Definition updated (i : FlavorInput) (f : FlavorAdmin) : R FlavorAdmin :=
  let fl := fa_Flavor f in
  name ← field validateName (in_Name i) (fl_Name fl);
  description ← field validateDescription (in_Description i) (fl_Description fl);
  price ← field validateMoney (in_Price i) (fl_Price fl);
  imageURL ← field validateImageURL (in_ImageURL i) (fl_ImageURL fl);
  allergens ← field validateAllergens (in_Allergens i) (fl_Allergens fl);
  recipe ← field validateRecipe (in_Recipe i) (fa_Recipe f);
  inr (MkFlavorAdmin
    (MkFlavor (fl_ID fl) name description price imageURL allergens (default (fl_Active fl) (in_Active i)) (fl_CreatedAt fl) (fl_UpdatedAt fl))
    recipe (fa_IdempotentReplay f)).
End validation.

Definition touch (t : Z) (f : FlavorAdmin) : FlavorAdmin :=
  let fl := fa_Flavor f in
  MkFlavorAdmin (MkFlavor (fl_ID fl) (fl_Name fl) (fl_Description fl) (fl_Price fl) (fl_ImageURL fl) (fl_Allergens fl)
    (fl_Active fl) (fl_CreatedAt fl) t) (fa_Recipe f) (fa_IdempotentReplay f).
Definition archived (f : FlavorAdmin) : FlavorAdmin :=
  let fl := fa_Flavor f in
  MkFlavorAdmin (MkFlavor (fl_ID fl) (fl_Name fl) (fl_Description fl) (fl_Price fl) (fl_ImageURL fl) (fl_Allergens fl)
    false (fl_CreatedAt fl) (fl_UpdatedAt fl)) (fa_Recipe f) (fa_IdempotentReplay f).

Definition flavor_from (id : string) (fd : Fields) (created updated_ : Z) : FlavorAdmin :=
  MkFlavorAdmin (MkFlavor id (fd_Name fd) (fd_Description fd) (fd_Price fd) (fd_ImageURL fd) (fd_Allergens fd) (fd_Active fd)
    created updated_) (fd_Recipe fd) false.

Definition millisecond : Z := 1000000.
(** The new [UpdatedAt]: later than the previous one. *)
Definition next_time (now previous : Z) : Z := if bool_decide (previous < now) then now else previous + millisecond.

Inductive ReadScope := PublicRead | ManagerRead.
#[global] Instance ReadScope_eq_dec : EqDecision ReadScope.
Proof. solve_decision. Defined.

(** ** The service *)

Section service.
Context {uuid : UuidLib} {lib : CatLib} {acl : RedisAcl} (pages : list (list string)) (ip_literal : string → bool).
Abbreviation C := (M CatState CErr).

Definition lift {A} (v : CErr + A) : C A := match v with inl e => throw e | inr a => mret a end.

Definition replayMutation (cx : CCtx) (action : Action) (id : string) : C (option (option FlavorAdmin)) :=
  match cc_request cx with None => mret None | Some rq => LookupMutation cx action id rq end.

Definition cat_Create (cx : CCtx) (i : FlavorInput) : C FlavorAdmin :=
  fd ← lift (validateCreateInput ip_literal i);
  now ← go_now;
  id ← new_uuid;
  let flavor := flavor_from id fd now now in
  match cc_request cx with
  | Some rq =>
      '(flavor, replayed) ← repo_create pages cx flavor (Some rq);
      mret (if (replayed : bool) then set_replay true flavor else flavor)
  | None => '(flavor, _) ← repo_create pages cx flavor None; mret flavor
  end.

Definition visible (scope : ReadScope) (f : FlavorAdmin) : bool := fa_Active f || bool_decide (scope = ManagerRead).

Definition cat_List (active : option bool) (scope : ReadScope) : C (list Flavor) :=
  records ← repo_List;
  mret (fa_Flavor <$> filter (λ f, visible scope f && match active with Some a => bool_decide (fa_Active f = a) | None => true end = true) records).

Definition cat_Get (id : string) (scope : ReadScope) : C Flavor :=
  record ← FindByID id;
  if visible scope record then mret (fa_Flavor record) else throw ENotFound.

(** A context that is done shows as the error of the next call. *)
Fixpoint get_all (scope : ReadScope) (ids : list string) : C (list Flavor) :=
  match ids with
  | [] => mret []
  | id :: ids => f ← cat_Get id scope; rest ← get_all scope ids; mret (f :: rest)
  end.
Definition cat_BatchGet (ids : list string) (scope : ReadScope) : C (list Flavor) :=
  if bool_decide (length ids < 1)%nat || bool_decide (100 < length ids)%nat then throw (EInvalidInput "ids")
  else if negb (bool_decide (NoDup ids)) then throw (EInvalidInput "unique")
  else get_all scope ids.

(** A replay without a body has status 204, which [LookupMutation] answers for
    no update and no replacement. *)
Definition cat_Update (cx : CCtx) (id : string) (i : FlavorInput) : C FlavorAdmin :=
  if negb (hasUpdate i) then throw (EInvalidInput "fields")
  else
    replay ← replayMutation cx AUpdate id;
    match replay with
    | Some (Some original) => mret original
    | Some None => throw EIdemUnavailable
    | None =>
        previous ← FindByID id;
        record ← lift (updated ip_literal i previous);
        now ← go_now;
        repo_Update cx AUpdate previous (touch (next_time now (fa_UpdatedAt previous)) record)
    end.

Definition unchanged (fd : Fields) (p : FlavorAdmin) : bool :=
  let fl := fa_Flavor p in
  bool_decide (fl_Name fl = fd_Name fd) && bool_decide (fl_Description fl = fd_Description fd) &&
  bool_decide (fl_Price fl = fd_Price fd) && bool_decide (fl_ImageURL fl = fd_ImageURL fd) &&
  bool_decide (fl_Allergens fl = fd_Allergens fd) && bool_decide (fl_Active fl = fd_Active fd) && bool_decide (fa_Recipe p = fd_Recipe fd).

Definition cat_Replace (cx : CCtx) (id : string) (i : FlavorInput) : C FlavorAdmin :=
  replay ← replayMutation cx AReplace id;
  match replay with
  | Some (Some original) => mret original
  | Some None => throw EIdemUnavailable
  | None =>
      if bool_decide (in_Active i = None) then throw (EInvalidInput "active")
      else
        fd ← lift (validateCreateInput ip_literal i);
        previous ← FindByID id;
        if unchanged fd previous then
          if bool_decide (cc_request cx = None) then mret previous
          else repo_Update cx AReplace previous (flavor_from id fd (fa_CreatedAt previous) (fa_UpdatedAt previous))
        else
          now ← go_now;
          repo_Update cx AReplace previous
            (flavor_from id fd (fa_CreatedAt previous) (next_time now (fa_UpdatedAt previous)))
  end.

Definition cat_Archive (cx : CCtx) (id : string) : C unit :=
  replay ← replayMutation cx AArchive id;
  match replay with
  | Some _ => mret tt
  | None =>
      previous ← FindByID id;
      if fa_Active previous then
        now ← go_now;
        repo_Update cx AArchive previous (touch (next_time now (fa_UpdatedAt previous)) (archived previous)) ;;
        mret tt
      else if bool_decide (cc_request cx = None) then mret tt
      else repo_Update cx AArchive previous previous ;; mret tt
  end.

(** [FlavorRecipe]: the id, the recipe and the time of the last change. *)
Definition cat_GetRecipe (id : string) : C (string * string * Z) :=
  record ← FindByID id;
  mret (fa_ID record, fa_Recipe record, fa_UpdatedAt record).
End service.
