(* ===== verification/CatInv.v ===== *)
(** Catalog service: the invariant of the Redis store, and that the scripts
    keep it. *)

From S2P Require Import Prelude Effects GoStd InvModel CatModel CatService.

(** ** What is relied on of the JSON libraries

    [clean] are the texts that JSON encodes without loss (valid UTF-8, which is
    what a decoded request consists of).  A flavor of clean texts survives
    encoding, the replay flag aside, which is not encoded; cached answers
    survive encoding in Go and decoding in Go and in Lua. *)

Definition clean_flavor (clean : string → Prop) (f : FlavorAdmin) : Prop :=
  clean (fa_Name f) ∧ clean (fl_Description (fa_Flavor f)) ∧ clean (mo_Currency (fl_Price (fa_Flavor f))) ∧
  clean (fl_ImageURL (fa_Flavor f)) ∧ Forall clean (fl_Allergens (fa_Flavor f)) ∧ clean (fa_Recipe f).

Class CatLaws `{lib : CatLib} (clean : string → Prop) := {
  jl_flavor : ∀ f p, clean_flavor clean f → flavor_json f = Some p → flavor_of p = Some (set_replay false f);
  jl_flag : ∀ f b, flavor_json (set_replay b f) = flavor_json f;
  jl_body : ∀ f p, flavor_json f = Some p → clean p;
  jl_hex : ∀ h, is_hex h = true → clean h;
  jl_sha : ∀ s, hash_ok (sha_hex s) = true;
  jl_empty : clean "";
  jl_created : ∀ h b, clean h → clean b → lua_cached (created_json h b) = Some (MkCachedReply h 201 b);
  jl_reply : ∀ c, clean (ca_hash c) → clean (ca_body c) → reply_of (reply_json c) = Some c;
  jl_lua_reply : ∀ c, clean (ca_hash c) → clean (ca_body c) → lua_cached (reply_json c) = Some c
}.

Section invariant.
Context {uuid : UuidLib} {lib : CatLib} {acl : RedisAcl} (clean : string → Prop) {laws : CatLaws clean}.
Implicit Types (r : Redis) (f : FlavorAdmin) (now : Z).

(** No image, or an absolute URL with scheme http or https and a host; which
    bracketed hosts are IP literals is left to the library. *)
Definition image_ok (u : string) : Prop :=
  u = "" ∨ ∃ ip_literal scheme host, ParseRequestURI ip_literal u = Some (scheme, host) ∧
    (scheme = "http" ∨ scheme = "https") ∧ host ≠ [].

(** A flavor as the service writes it. *)
Record good f : Prop := {
  gd_clean : clean_flavor clean f;
  gd_id : fa_ID f ≠ uuid_nil;
  gd_uuid : uuid_parse (fa_ID f) = Some (fa_ID f);
  gd_name : 1 ≤ rune_count (fa_Name f) ≤ 100;
  gd_description : rune_count (fl_Description (fa_Flavor f)) ≤ 1000;
  gd_price : 0 ≤ mo_AmountMinor (fl_Price (fa_Flavor f)) ∧ mo_Currency (fl_Price (fa_Flavor f)) = "THB";
  gd_allergens : Forall (λ a, Allergen_Valid a = true) (fl_Allergens (fa_Flavor f)) ∧ NoDup (fl_Allergens (fa_Flavor f)) ∧
    Sorted String.le (fl_Allergens (fa_Flavor f));
  gd_image : image_ok (fl_ImageURL (fa_Flavor f));
  gd_recipe : fa_Recipe f ≠ "";
  gd_time : fa_CreatedAt f ≤ fa_UpdatedAt f
}.

(** The flavor stored under an id. *)
Definition stored r (id : string) f : Prop :=
  ∃ p, r !! KFlavor id = Some (VStr p None) ∧ flavor_json f = Some p ∧ good f ∧ fa_ID f = id ∧ fa_IdempotentReplay f = false.

(** The audit trail of a flavor ends with its present state. *)
Definition audited r (id : string) f : Prop :=
  ∃ l rec s, r !! KAudit id = Some (VList (l ++ [s])) ∧ record_json rec = Some s ∧
    ar_FlavorID rec = id ∧ ar_After rec = audit_state f ∧ ar_ActorID rec ≠ uuid_nil.

(** Every key holds what it should: a flavor has its name, its place in the set
    of ids and its audit trail; a name belongs to the flavor that bears it;
    answers of keyed requests expire. *)
Record CInv r : Prop := {
  ci_flavor : ∀ id v, r !! KFlavor id = Some v →
    ∃ f, stored r id f ∧ r !! nameKey (fa_Name f) = Some (VStr id None) ∧ audited r id f;
  ci_name : ∀ d v, r !! KName d = Some v →
    ∃ id f, v = VStr id None ∧ stored r id f ∧ nameKey (fa_Name f) = KName d;
  ci_ids : r !! KIds = None ∨ ∃ m, r !! KIds = Some (VSet m);
  ci_listed : ∀ id, is_Some (r !! KFlavor id) ↔ ∃ m, r !! KIds = Some (VSet m) ∧ id ∈ m;
  ci_audit : ∀ id v, r !! KAudit id = Some v → is_Some (r !! KFlavor id) ∧ ∃ l, v = VList l
}.

Lemma CInv_empty : CInv ∅.
Proof.
  split.
  - intros id v. by rewrite lookup_empty.
  - intros d v. by rewrite lookup_empty.
  - left. apply lookup_empty.
  - intros id. rewrite !lookup_empty. split; [by intros [??]|]. by intros (m & ? & _).
  - intros id v. by rewrite lookup_empty.
Qed.

(** *** Reading *)

Lemma stored_inj r id f g : stored r id f → stored r id g → f = g.
Proof.
  intros (p & Hp & Hj & Hg & _ & Hr) (p' & Hp' & Hj' & Hg' & _ & Hr'). simplify_eq.
  pose proof (jl_flavor _ _ (gd_clean _ Hg) Hj) as E. pose proof (jl_flavor _ _ (gd_clean _ Hg') Hj') as E'.
  rewrite E in E'. injection E' as E'. destruct f, g; cbn in *; simplify_eq. done.
Qed.

Lemma rlook_forever now k v r : r !! k = Some v → match v with VStr _ (Some _) => False | _ => True end → rlook now k r = Some v.
Proof. intros Hl Hv. unfold rlook. rewrite Hl. by destruct v as [? []| |]. Qed.
Lemma rlook_none now k r : r !! k = None → rlook now k r = None.
Proof. intros Hl. unfold rlook. by rewrite Hl. Qed.
Lemma rlook_some now k v r : rlook now k r = Some v → r !! k = Some v.
Proof. unfold rlook. destruct (r !! k) as [v'|]; [|done]. destruct (alive now v'); [|done]. by intros [= ->]. Qed.
Lemma rget_some now k s r : rget now k r = Some s → ∃ e, r !! k = Some (VStr s e).
Proof.
  unfold rget. destruct (rlook now k r) as [[s' e| |]|] eqn:Hl; [|done..]. intros [= <-]. apply rlook_some in Hl. eauto.
Qed.

Lemma stored_look r now id f : stored r id f → ∃ p, rlook now (KFlavor id) r = Some (VStr p None) ∧
  flavor_json f = Some p ∧ flavor_of p = Some f.
Proof.
  intros (p & Hp & Hj & Hg & _ & Hr). exists p. split; [by apply rlook_forever|]. split; [done|].
  rewrite (jl_flavor _ _ (gd_clean _ Hg) Hj). f_equal. destruct f; cbn in *; by subst.
Qed.

Lemma CInv_look r now id v : CInv r → rlook now (KFlavor id) r = Some v → ∃ f p, v = VStr p None ∧ stored r id f ∧
  flavor_of p = Some f ∧ flavor_json f = Some p.
Proof.
  intros Hr Hl. destruct (ci_flavor _ Hr _ _ (rlook_some _ _ _ _ Hl)) as (f & Hf & _).
  destruct (stored_look _ now _ _ Hf) as (p & Hl' & Hj & Hd). rewrite Hl in Hl'. simplify_eq. eauto 10.
Qed.

(** A name has one owner. *)
Lemma name_unique r id1 id2 f1 f2 : CInv r → stored r id1 f1 → stored r id2 f2 →
  lower (trim_space (fa_Name f1)) = lower (trim_space (fa_Name f2)) → id1 = id2.
Proof.
  intros Hr H1 H2 Hn. destruct H1 as (p1 & Hl1 & H1). destruct H2 as (p2 & Hl2 & H2).
  destruct (ci_flavor _ Hr _ _ Hl1) as (g1 & Hg1 & Hn1 & _). destruct (ci_flavor _ Hr _ _ Hl2) as (g2 & Hg2 & Hn2 & _).
  assert (f1 = g1) as <- by (eapply stored_inj; [by exists p1|done]).
  assert (f2 = g2) as <- by (eapply stored_inj; [by exists p2|done]).
  unfold nameKey in Hn1, Hn2. rewrite Hn in Hn1. congruence.
Qed.

(** *** Writes that leave the flavors alone *)

(** The keys of cached answers. *)
Definition cache_key (k : RKey) : Prop := match k with KMutation _ | KIdem _ | KUnused _ => True | _ => False end.
Definition same_catalog r r' : Prop := ∀ k, ¬ cache_key k → r' !! k = r !! k.

#[global] Instance same_catalog_refl : Reflexive same_catalog.
Proof. by intros r k. Qed.
#[global] Instance same_catalog_trans : Transitive same_catalog.
Proof. intros r1 r2 r3 H12 H23 k Hk. by rewrite H23, H12. Qed.

Lemma same_stored r r' id f : same_catalog r r' → stored r id f ↔ stored r' id f.
Proof. intros Hs. unfold stored. by rewrite (Hs (KFlavor id)) by (cbn; tauto). Qed.
Lemma same_audited r r' id f : same_catalog r r' → audited r id f ↔ audited r' id f.
Proof. intros Hs. unfold audited. by rewrite (Hs (KAudit id)) by (cbn; tauto). Qed.

Lemma CInv_same r r' : same_catalog r r' → CInv r → CInv r'.
Proof.
  intros Hs [H1 H2 H3 H4 H5].
  assert (∀ d, r' !! KName d = r !! KName d) as Hn by (intros d; apply Hs; cbn; tauto).
  assert (∀ id, r' !! KFlavor id = r !! KFlavor id) as Hf by (intros id; apply Hs; cbn; tauto).
  assert (∀ id, r' !! KAudit id = r !! KAudit id) as Ha by (intros id; apply Hs; cbn; tauto).
  assert (r' !! KIds = r !! KIds) as Hi by (apply Hs; cbn; tauto).
  split.
  - intros id v. rewrite Hf. intros (f & Hst & Hnm & Hau)%H1. exists f. unfold nameKey in *.
    rewrite Hn, <-same_stored, <-same_audited by done. done.
  - intros d v. rewrite Hn. intros (id & f & -> & Hst & Hnm)%H2. exists id, f. by rewrite <-same_stored.
  - by rewrite Hi.
  - intros id. by rewrite Hf, Hi.
  - intros id v. rewrite Ha, Hf. apply H5.
Qed.

Lemma cache_insert k v r : cache_key k → same_catalog r (<[k := v]> r).
Proof. intros Hk k' Hk'. rewrite lookup_insert_ne; [done|]. by intros ->. Qed.

(** ** The steps of the catalog *)

(** A record of what was done to a flavor, as it is stored. *)
Record recorded (rec : ARecord) (s : string) (id : string) f : Prop := {
  rc_json : record_json rec = Some s;
  rc_flavor : ar_FlavorID rec = id;
  rc_after : ar_After rec = audit_state f;
  rc_actor : ar_ActorID rec ≠ uuid_nil
}.

Definition untouched (id : string) r r' : Prop :=
  ∀ id', id' ≠ id → r' !! KFlavor id' = r !! KFlavor id' ∧ r' !! KAudit id' = r !! KAudit id'.

(** One step changes at most one flavor: it appears, with its first audit
    record, or it changes with its identity kept, its time moved forward and
    exactly one record added that names the changed fields. *)
Inductive cstep r r' : Prop :=
  | cs_same : same_catalog r r' → cstep r r'
  | cs_create id f rec s : r !! KFlavor id = None → stored r' id f → fa_CreatedAt f = fa_UpdatedAt f →
      recorded rec s id f → ar_Action rec = ACreate → r' !! KAudit id = Some (VList [s]) → untouched id r r' → cstep r r'
  | cs_change id f f' rec s l : stored r id f → stored r' id f' → fa_CreatedAt f' = fa_CreatedAt f →
      fa_UpdatedAt f < fa_UpdatedAt f' → recorded rec s id f' → ar_ChangedFields rec = changed_fields f f' →
      ar_Before rec = Some (audit_state f) → r !! KAudit id = Some (VList l) → r' !! KAudit id = Some (VList (l ++ [s])) →
      untouched id r r' → cstep r r'.

Lemma nameKey_name name : ∃ d, nameKey name = KName d.
Proof. by eexists. Qed.

(** *** Writing a flavor that is there *)

(** The store after the writes of an update, key by key. *)
Lemma write_flavor_lookup now id f f' payload history l r : CInv r → stored r id f →
  r !! KAudit id = Some (VList l) →
  let r' := write_flavor now id payload history (nameKey (fa_Name f)) (nameKey (fa_Name f')) r in
  r' !! KFlavor id = Some (VStr payload None) ∧ r' !! KAudit id = Some (VList (l ++ [history])) ∧
  r' !! nameKey (fa_Name f') = Some (VStr id None) ∧
  (nameKey (fa_Name f) ≠ nameKey (fa_Name f') → r' !! nameKey (fa_Name f) = None) ∧
  ∀ k, k ≠ KFlavor id → k ≠ KAudit id → k ≠ nameKey (fa_Name f') → k ≠ nameKey (fa_Name f) → r' !! k = r !! k.
Proof.
  intros Hr Hf Ha. destruct Hf as (p & Hp & Hf). destruct (ci_flavor _ Hr _ _ Hp) as (f0 & Hf0 & Hn & _).
  assert (f0 = f) as -> by (eapply stored_inj; [done|by exists p]).
  unfold write_flavor. set (r1 := if bool_decide _ then r else _).
  assert (r1 !! KAudit id = Some (VList l)) as Ha1.
  { unfold r1. repeat case_bool_decide; [done| |done]. by rewrite lookup_delete_ne. }
  unfold rrpush, rset. rewrite (rlook_forever _ _ (VList l)) by (done || by rewrite !lookup_insert_ne).
  split_and!.
  - by rewrite lookup_insert_ne, lookup_insert_eq.
  - by rewrite lookup_insert_eq.
  - rewrite 2!lookup_insert_ne by done. by rewrite lookup_insert_eq.
  - intros Hne. rewrite !lookup_insert_ne by done. unfold r1. rewrite bool_decide_eq_false_2 by done.
    rewrite bool_decide_eq_true_2; [by rewrite lookup_delete_eq|]. unfold rget. by rewrite (rlook_forever _ _ _ _ Hn).
  - intros k H1 H2 H3 H4. rewrite !lookup_insert_ne by done. unfold r1. repeat case_bool_decide; [done| |done].
    by rewrite lookup_delete_ne.
Qed.

Lemma audited_list r id f : audited r id f → ∃ l, r !! KAudit id = Some (VList l).
Proof. intros (l & rec & s & Ha & _). eauto. Qed.

(** A name that may be written is free or already the flavor's. *)
Definition name_free now r (id : string) (k : RKey) : Prop := ∀ owner, rget now k r = Some owner → owner = id.

Section update.
Context (now : Z) (id : string) (f f' : FlavorAdmin) (rec : ARecord) (payload history : string) (r : Redis).
Context (Hr : CInv r) (Hf : stored r id f) (Hg : good f') (Hid : fa_ID f' = id) (Hrep : fa_IdempotentReplay f' = false).
Context (Hj : flavor_json f' = Some payload) (Hrec : recorded rec history id f').
Context (Hfree : name_free now r id (nameKey (fa_Name f'))).
#[local] Abbreviation r' := (write_flavor now id payload history (nameKey (fa_Name f)) (nameKey (fa_Name f')) r).

Lemma written_stored : stored r' id f' ∧ audited r' id f' ∧ (∀ id' g, id' ≠ id → stored r id' g ↔ stored r' id' g) ∧
  (∀ id' g, id' ≠ id → audited r id' g ↔ audited r' id' g) ∧ untouched id r r'.
Proof.
  destruct Hf as (p & Hp & _). destruct (ci_flavor _ Hr _ _ Hp) as (f0 & _ & _ & (l & rec0 & s0 & Ha & _)).
  destruct (write_flavor_lookup now id f f' payload history _ r Hr Hf Ha) as (E1 & E2 & _ & _ & E).
  assert (untouched id r r') as Hun by (intros id' Hne; split; apply E; unfold nameKey; congruence).
  split_and!; [by exists payload| | | |done].
  - exists (l ++ [s0]), rec, history. split; [done|]. by destruct Hrec.
  - intros id' g Hne. unfold stored. by rewrite (proj1 (Hun id' Hne)).
  - intros id' g Hne. unfold audited. by rewrite (proj2 (Hun id' Hne)).
Qed.

Lemma write_flavor_CInv : CInv r'.
Proof.
  pose proof Hf as (p & Hp & _). destruct (ci_flavor _ Hr _ _ Hp) as (f0 & Hf0 & Hnm & (l & rec0 & s0 & Ha & _)).
  assert (f0 = f) as -> by (by eapply stored_inj).
  destruct (write_flavor_lookup now id f f' payload history _ r Hr Hf Ha) as (E1 & E2 & E3 & E4 & E).
  destruct written_stored as (Hst & Hau & Hsts & Haus & Hun).
  assert (r' !! KIds = r !! KIds) as Hids by (by apply E).
  split.
  - intros id' v Hv. destruct (decide (id' = id)) as [->|Hne]; [by exists f'|].
    rewrite (proj1 (Hun id' Hne)) in Hv. destruct (ci_flavor _ Hr _ _ Hv) as (g & Hg1 & Hg2 & Hg3).
    exists g. rewrite <-Hsts, <-Haus by done. split_and!; [done| |done]. rewrite E; [done|by unfold nameKey..| |].
    + intros Heq. apply Hne, Hfree. unfold rget. rewrite <-Heq. by rewrite (rlook_forever _ _ _ _ Hg2).
    + intros Heq. rewrite Heq in Hg2. congruence.
  - intros d v Hv. destruct (decide (KName d = nameKey (fa_Name f'))) as [Heq|Hne1].
    { rewrite Heq, E3 in Hv. injection Hv as <-. by exists id, f'. }
    destruct (decide (KName d = nameKey (fa_Name f))) as [Heq|Hne2].
    { rewrite Heq, E4 in Hv; [done|congruence]. }
    rewrite E in Hv by done. destruct (ci_name _ Hr _ _ Hv) as (id0 & g & -> & Hg1 & Hg2).
    exists id0, g. split_and!; [done| |done]. apply Hsts; [|done]. intros ->.
    apply Hne2. rewrite <-Hg2. do 2 f_equal. assert (g = f) as -> by (by eapply stored_inj). done.
  - rewrite Hids. apply Hr.
  - intros id'. rewrite Hids, <-(ci_listed _ Hr). destruct (decide (id' = id)) as [->|Hne].
    + rewrite E1, Hp. split; by eexists.
    + by rewrite (proj1 (Hun id' Hne)).
  - intros id' v. destruct (decide (id' = id)) as [->|Hne].
    + rewrite E1, E2. intros [= <-]. split; by eexists.
    + destruct (Hun id' Hne) as [-> ->]. apply Hr.
Qed.

Lemma write_flavor_step : fa_CreatedAt f' = fa_CreatedAt f → fa_UpdatedAt f < fa_UpdatedAt f' →
  ar_ChangedFields rec = changed_fields f f' → ar_Before rec = Some (audit_state f) → cstep r r'.
Proof.
  intros Hca Hup Hch Hbe. pose proof Hf as (p & Hp & _).
  destruct (ci_flavor _ Hr _ _ Hp) as (f0 & _ & _ & (l & rec0 & s0 & Ha & _)).
  destruct (write_flavor_lookup now id f f' payload history _ r Hr Hf Ha) as (_ & E2 & _).
  destruct written_stored as (Hst & _ & _ & _ & Hun).
  by eapply (cs_change _ _ id f f' rec history).
Qed.
End update.

(** *** Writing a new flavor *)

Lemma CInv_absent now r k : CInv r → (∃ id, k = KFlavor id) ∨ (∃ d, k = KName d) → rlook now k r = None → r !! k = None.
Proof.
  intros Hr Hk Hl. destruct (r !! k) as [v|] eqn:Hv; [|done]. destruct Hk as [[id ->]|[d ->]].
  - destruct (ci_flavor _ Hr _ _ Hv) as (f & (p & Hp & _) & _). by rewrite (rlook_forever now _ _ _ Hp) in Hl.
  - destruct (ci_name _ Hr _ _ Hv) as (id & f & -> & _). by rewrite (rlook_forever now _ _ _ Hv) in Hl.
Qed.

Definition ids_in r : gset string := match r !! KIds with Some (VSet m) => m | _ => ∅ end.

Section create.
Context (now : Z) (f : FlavorAdmin) (rec : ARecord) (payload history : string) (r : Redis).
Context (Hr : CInv r) (Hg : good f) (Hrep : fa_IdempotentReplay f = false) (Hj : flavor_json f = Some payload).
Context (Hrec : recorded rec history (fa_ID f) f).
Context (Hnew : r !! KFlavor (fa_ID f) = None) (Hfree : r !! nameKey (fa_Name f) = None).
#[local] Abbreviation id := (fa_ID f).
#[local] Abbreviation r' := (<[KAudit id := VList [history]]> (<[KIds := VSet (ids_in r ∪ {[id]})]>
  (<[nameKey (fa_Name f) := VStr id None]> (<[KFlavor id := VStr payload None]> r)))).

Lemma create_writes :
  rrpush now (KAudit id) history (rsadd now KIds id (rset (nameKey (fa_Name f)) id (rset (KFlavor id) payload r))) = r'.
Proof.
  assert (r !! KAudit id = None) as Hau.
  { destruct (r !! KAudit id) eqn:Hv; [|done]. apply (ci_audit _ Hr) in Hv as [[? Hv] _]. congruence. }
  assert (rsadd now KIds id (rset (nameKey (fa_Name f)) id (rset (KFlavor id) payload r)) =
    <[KIds := VSet (ids_in r ∪ {[id]})]> (<[nameKey (fa_Name f) := VStr id None]> (<[KFlavor id := VStr payload None]> r))) as ->.
  { unfold rsadd, rset, rlook, ids_in. rewrite !lookup_insert_ne by done.
    destruct (ci_ids _ Hr) as [->|[m ->]]; cbn; [by rewrite (left_id_L ∅ (∪))|done]. }
  unfold rrpush. rewrite rlook_none; [done|]. by rewrite !lookup_insert_ne.
Qed.

Lemma create_other k : k ≠ KFlavor id → k ≠ nameKey (fa_Name f) → k ≠ KIds → k ≠ KAudit id → r' !! k = r !! k.
Proof. intros. by rewrite !lookup_insert_ne. Qed.

Lemma create_stored : stored r' id f ∧ audited r' id f ∧ untouched id r r' ∧
  (∀ id' g, id' ≠ id → stored r id' g ↔ stored r' id' g).
Proof.
  assert (untouched id r r') as Hun by (intros id' Hne; split; apply create_other; unfold nameKey; congruence).
  split_and!; [| |done|].
  - exists payload. rewrite 3!lookup_insert_ne by done. by rewrite lookup_insert_eq.
  - exists [], rec, history. rewrite lookup_insert_eq. split; [done|]. by destruct Hrec.
  - intros id' g Hne. unfold stored. by rewrite (proj1 (Hun id' Hne)).
Qed.

Lemma create_CInv : CInv r'.
Proof.
  destruct create_stored as (Hst & Hau & Hun & Hsts).
  assert (r' !! KIds = Some (VSet (ids_in r ∪ {[id]}))) as Hids by (rewrite lookup_insert_ne by done; apply lookup_insert_eq).
  assert (∀ d, KName d ≠ nameKey (fa_Name f) → r' !! KName d = r !! KName d) as Hnames
    by (intros d Hd; by apply create_other).
  split.
  - intros id' v Hv. destruct (decide (id' = id)) as [->|Hne].
    { exists f. split_and!; [done| |done]. rewrite 2!lookup_insert_ne by done. apply lookup_insert_eq. }
    rewrite (proj1 (Hun id' Hne)) in Hv. destruct (ci_flavor _ Hr _ _ Hv) as (g & Hg1 & Hg2 & Hg3).
    exists g. split_and!; [by apply Hsts| |unfold audited; by rewrite (proj2 (Hun id' Hne))].
    unfold nameKey in *. rewrite Hnames; [done|]. intros Heq. unfold nameKey in Heq. congruence.
  - intros d v Hv. destruct (decide (KName d = nameKey (fa_Name f))) as [Heq|Hne].
    + rewrite Heq, 2!lookup_insert_ne, lookup_insert_eq in Hv by done. injection Hv as <-. by exists id, f.
    + rewrite Hnames in Hv by done. destruct (ci_name _ Hr _ _ Hv) as (id0 & g & -> & Hg1 & Hg2).
      exists id0, g. split_and!; [done| |done]. apply Hsts; [|done]. intros ->. destruct Hg1 as (p & Hp & _). congruence.
  - right. eauto.
  - intros id'. rewrite Hids. split.
    + intros Hv. eexists. split; [done|]. destruct (decide (id' = id)) as [->|Hne]; [set_solver|].
      rewrite (proj1 (Hun id' Hne)) in Hv. apply (ci_listed _ Hr) in Hv as (m & Hm & Hin). unfold ids_in. rewrite Hm. set_solver.
    + intros (m & [= <-] & [Hin| ->%elem_of_singleton]%elem_of_union); [|destruct Hst as (p & Hp & _); by eexists].
      destruct (decide (id' = id)) as [->|Hne]; [destruct Hst as (p & Hp & _); by eexists|].
      rewrite (proj1 (Hun id' Hne)). apply (ci_listed _ Hr). unfold ids_in in Hin.
      destruct (ci_ids _ Hr) as [E|[m E]]; rewrite E in Hin; [set_solver|eauto].
  - intros id' v Hv. destruct (decide (id' = id)) as [->|Hne].
    + rewrite lookup_insert_eq in Hv. injection Hv as <-. destruct Hst as (p & Hp & _). split; by eexists.
    + destruct (Hun id' Hne) as [Hf Ha]. rewrite Ha in Hv. rewrite Hf. by apply (ci_audit _ Hr).
Qed.

Lemma create_step : fa_CreatedAt f = fa_UpdatedAt f → ar_Action rec = ACreate → cstep r r'.
Proof.
  intros Ht Ha. destruct create_stored as (Hst & _ & Hun & _). eapply (cs_create _ _ id f rec history); try done.
  by rewrite lookup_insert_eq.
Qed.
End create.
End invariant.

(** Catalog service: every script and every operation of the repository is a
    step of the catalog and keeps its invariant. *)


Section steps.
Context {uuid : UuidLib} {lib : CatLib} {acl : RedisAcl} (clean : string → Prop) {laws : CatLaws clean}.
Context (pages : list (list string)).
Implicit Types (r : Redis) (f : FlavorAdmin) (now : Z).
#[local] Abbreviation CInv := (CInv clean).
#[local] Abbreviation good := (good clean).
#[local] Abbreviation stored := (stored clean).
#[local] Abbreviation cstep := (cstep clean).

Lemma untouched_same id r r1 r2 : untouched id r r1 → same_catalog r1 r2 → untouched id r r2.
Proof. intros Hu Hs id' Hne. destruct (Hu id' Hne) as [<- <-]. split; apply Hs; cbn; tauto. Qed.
Lemma audit_same r1 r2 id : same_catalog r1 r2 → r2 !! KAudit id = r1 !! KAudit id.
Proof. intros Hs. apply Hs. cbn. tauto. Qed.
Lemma flavor_same r1 r2 id : same_catalog r1 r2 → r2 !! KFlavor id = r1 !! KFlavor id.
Proof. intros Hs. apply Hs. cbn. tauto. Qed.

(** Writing a cached answer after a step, or before it. *)
Lemma cstep_then r r1 r2 : cstep r r1 → same_catalog r1 r2 → cstep r r2.
Proof.
  intros Hc Hs. destruct Hc as [Hc|id f rec s H1 H2 H3 H4 H5 H6 H7|id f f' rec s l H1 H2 H3 H4 H5 H6 H7 H8 H9 H10].
  - apply cs_same. by etrans.
  - eapply (cs_create _ _ _ id f rec s); try done; [by apply (same_stored _ r1)|by rewrite (audit_same r1)|by eapply untouched_same].
  - eapply (cs_change _ _ _ id f f' rec s l); try done; [by apply (same_stored _ r1)|by rewrite (audit_same r1)|by eapply untouched_same].
Qed.
Lemma cstep_after r r1 r2 : same_catalog r r1 → cstep r1 r2 → cstep r r2.
Proof.
  intros Hs Hc. destruct Hc as [Hc|id f rec s H1 H2 H3 H4 H5 H6 H7|id f f' rec s l H1 H2 H3 H4 H5 H6 H7 H8 H9 H10].
  - apply cs_same. by etrans.
  - eapply (cs_create _ _ _ id f rec s); try done; [by rewrite <-(flavor_same r r1)|].
    intros id' Hne. destruct (H7 id' Hne) as [-> ->]. by rewrite (audit_same r r1), (flavor_same r r1).
  - eapply (cs_change _ _ _ id f f' rec s l); try done; [by apply (same_stored _ r r1)|by rewrite <-(audit_same r r1)|].
    intros id' Hne. destruct (H10 id' Hne) as [-> ->]. by rewrite (audit_same r r1), (flavor_same r r1).
Qed.

(** ** The scripts *)

Section create.
Context (now : Z) (f : FlavorAdmin) (rec : ARecord) (payload history hash cached : string) (kidem klegacy : RKey) (r : Redis).
Context (Hr : CInv r) (Hg : good f) (Hrep : fa_IdempotentReplay f = false) (Hj : flavor_json f = Some payload).
Context (Hrec : recorded rec history (fa_ID f) f) (Hk : cache_key kidem).
Context (Htime : fa_CreatedAt f = fa_UpdatedAt f) (Hact : ar_Action rec = ACreate).

(** A creation is one step; without success nothing is written. *)
Lemma createFlavorScript_ok res r' :
  createFlavorScript (fa_ID f) (nameKey (fa_Name f)) kidem klegacy payload history hash cached now r = (res, r') →
  CInv r' ∧ cstep r r' ∧
  ((res = RDone ∧ stored r' (fa_ID f) f ∧ r !! KFlavor (fa_ID f) = None ∧
    (hash ≠ "" → r' !! kidem = Some (VStr cached (Some (now + IdemTTL))))) ∨ (res ≠ RDone ∧ r' = r)).
Proof.
  assert (∀ res r', res ≠ RDone → (res, r) = (res, r') → CInv r' ∧ cstep r r' ∧
    ((res = RDone ∧ stored r' (fa_ID f) f ∧ r !! KFlavor (fa_ID f) = None ∧
    (hash ≠ "" → r' !! kidem = Some (VStr cached (Some (now + IdemTTL))))) ∨ (res ≠ RDone ∧ r' = r))) as Hno.
  { intros res0 r0 Hres [= <-]. split_and!; [done|by apply cs_same|by right]. }
  unfold createFlavorScript. set (commit := if negb (types_ok _ _ _) then _ else _).
  assert (commit = (res, r') → CInv r' ∧ cstep r r' ∧
    ((res = RDone ∧ stored r' (fa_ID f) f ∧ r !! KFlavor (fa_ID f) = None ∧
    (hash ≠ "" → r' !! kidem = Some (VStr cached (Some (now + IdemTTL))))) ∨ (res ≠ RDone ∧ r' = r))) as Hcommit.
  { unfold commit. destruct (negb (types_ok _ _ _)); [intros [= <- <-]; by apply Hno|].
    case_bool_decide as Hn; [intros [= <- <-]; by apply Hno|]. case_bool_decide as Hf; [intros [= <- <-]; by apply Hno|].
    destruct (_ || _); [intros [= <- <-]; by apply Hno|].
    apply eq_None_not_Some in Hn. apply eq_None_not_Some in Hf.
    apply (CInv_absent clean) in Hn; [|done|right; by eexists]. apply (CInv_absent clean) in Hf; [|done|left; by eexists].
    rewrite (create_writes clean now f payload history r Hr Hf Hn). set (r1 := <[KAudit _ := _]> _).
    pose proof (create_CInv clean f rec payload history r Hr Hg Hrep Hj Hrec Hf Hn : CInv r1) as HI.
    pose proof (create_step clean f rec payload history r Hg Hrep Hj Hrec Hf Htime Hact : cstep r r1) as Hs.
    pose proof (proj1 (create_stored clean f rec payload history r Hg Hrep Hj Hrec) : stored r1 (fa_ID f) f) as Hst.
    intros [= <- <-]. case_bool_decide as Hh.
    - split_and!; [done..|]. left. split_and!; done.
    - pose proof (cache_insert kidem (VStr cached (Some (now + IdemTTL))) r1 Hk) as Hsame.
      split_and!; [by eapply (CInv_same clean)|by eapply cstep_then|]. left. split_and!; [done|by apply (same_stored _ r1)|done|].
      intros _. apply lookup_insert_eq. }
  case_bool_decide; [done|].
  destruct (cached_create now hash kidem r) as [res1|] eqn:H1; [intros [= <- <-]; apply Hno; [|done]|].
  { unfold cached_create in H1. repeat case_match; congruence. }
  destruct (cached_create now hash klegacy r) as [res1|] eqn:H2; [intros [= <- <-]; apply Hno; [|done]|].
  { unfold cached_create in H2. repeat case_match; congruence. }
  destruct (negb (acl_check "SET" kidem)); [intros [= <- <-]; by apply Hno|done].
Qed.
End create.

(** What a mutation wants to make of what it read: a later revision of the
    same flavor, or the same again. *)
Record revision (previous f' : FlavorAdmin) : Prop := {
  rv_previous : good previous;
  rv_new : good f';
  rv_id : fa_ID f' = fa_ID previous;
  rv_flags : fa_IdempotentReplay previous = false ∧ fa_IdempotentReplay f' = false;
  rv_created : fa_CreatedAt f' = fa_CreatedAt previous;
  rv_later : fa_UpdatedAt previous < fa_UpdatedAt f' ∨ f' = previous
}.

Lemma json_inj f g p : good f → good g → fa_IdempotentReplay f = false → fa_IdempotentReplay g = false →
  flavor_json f = Some p → flavor_json g = Some p → f = g.
Proof.
  intros Hf Hg Rf Rg Jf Jg. pose proof (jl_flavor _ _ (gd_clean _ _ Hf) Jf) as E.
  rewrite (jl_flavor _ _ (gd_clean _ _ Hg) Jg) in E. injection E as E. destruct f, g; cbn in *; by simplify_eq.
Qed.

(** What the store holds is what was read exactly when the texts agree. *)
Lemma current_stored now r previous expected : CInv r → good previous → fa_IdempotentReplay previous = false →
  flavor_json previous = Some expected → rget now (KFlavor (fa_ID previous)) r = Some expected → stored r (fa_ID previous) previous.
Proof.
  intros Hr Hp Hrep Hj Hget. destruct (rget_some _ _ _ _ Hget) as [e Hl].
  destruct (ci_flavor _ _ Hr _ _ Hl) as (f0 & (p & Hl' & Hj' & Hg' & Hid & Hrep') & _). rewrite Hl in Hl'. simplify_eq.
  assert (f0 = previous) as -> by (by eapply json_inj). by exists p.
Qed.

Section update.
Context (now : Z) (previous f' : FlavorAdmin) (rec : ARecord) (payload expected history : string) (r : Redis).
Context (Hr : CInv r) (Hrv : revision previous f').
Context (Hj : flavor_json f' = Some payload) (Hje : flavor_json previous = Some expected).
Context (Hrec : recorded rec history (fa_ID f') f') (Hch : ar_ChangedFields rec = changed_fields previous f').
Context (Hbe : ar_Before rec = Some (audit_state previous)).
#[local] Abbreviation id := (fa_ID f').
#[local] Abbreviation r1 := (write_flavor now id payload history (nameKey (fa_Name previous)) (nameKey (fa_Name f')) r).

Lemma owner_free : match rget now (nameKey (fa_Name f')) r with Some owner => negb (bool_decide (owner = id)) | None => false end = false →
  name_free now r id (nameKey (fa_Name f')).
Proof. intros H owner Ho. rewrite Ho in H. by apply negb_false_iff, bool_decide_eq_true in H. Qed.

Lemma write_ok : fa_UpdatedAt previous < fa_UpdatedAt f' → rget now (KFlavor id) r = Some expected →
  name_free now r id (nameKey (fa_Name f')) →
  stored r id previous ∧ stored r1 id f' ∧ CInv r1 ∧ cstep r r1.
Proof.
  intros Hlt Hget Hfree. destruct Hrv as [Hp Hn Hid [Rp Rn] Hcr _]. rewrite Hid in Hget.
  assert (stored r id previous) as Hst by (rewrite Hid; by eapply current_stored). split_and!; [done|..].
  - edestruct (written_stored clean now id previous f' rec) as [Hw _]; [..|exact Hw]; done.
  - by eapply (write_flavor_CInv clean now id previous f' rec).
  - by eapply (write_flavor_step clean now id previous f' rec).
Qed.

Lemma updateFlavorScript_ok z r' : fa_UpdatedAt previous < fa_UpdatedAt f' →
  updateFlavorScript id (nameKey (fa_Name previous)) (nameKey (fa_Name f')) payload expected history now r = (z, r') →
  (z = 1 ∧ stored r id previous ∧ stored r' id f' ∧ CInv r' ∧ cstep r r') ∨ (-3 ≤ z ≤ 0 ∧ r' = r).
Proof.
  intros Hlt. unfold updateFlavorScript. destruct (negb (types_ok _ _ _)); [intros [= <- <-]; right; split; [lia|done]|].
  destruct (rget now (KFlavor id) r) as [current|] eqn:Hget; [|intros [= <- <-]; right; split; [lia|done]].
  destruct (negb (bool_decide (current = expected))) eqn:Hcur; [intros [= <- <-]; right; split; [lia|done]|].
  apply negb_false_iff, bool_decide_eq_true in Hcur as ->.
  destruct (match rget _ _ _ with Some _ => _ | None => _ end) eqn:Hown; [intros [= <- <-]; right; split; [lia|done]|].
  destruct (negb (may_write _ _ _ _ _)); [intros [= <- <-]; right; split; [lia|done]|]. intros [= <- <-]. left. split; [done|].
  apply write_ok; [done..|by apply owner_free].
Qed.

Lemma mutationReplayScript_ok kmut hash cached body res r' : (∃ key, kmut = KMutation key) →
  mutationReplayScript id (nameKey (fa_Name previous)) (nameKey (fa_Name f')) kmut payload expected history hash cached body now r = (res, r') →
  (∃ raw c, res = RReplay raw ∧ r' = r ∧ rget now kmut r = Some raw ∧ lua_cached raw = Some c ∧ ca_hash c = hash) ∨
  (∃ z, res = RCode z ∧ z ≤ 0 ∧ r' = r) ∨
  (res = RDone ∧ stored r id previous ∧ stored r' id f' ∧ CInv r' ∧ cstep r r' ∧
   r' !! kmut = Some (VStr cached (Some (now + IdemTTL)))).
Proof.
  intros [key ->]. unfold mutationReplayScript.
  destruct (negb (types_ok now r [(KMutation key, _)])); [intros [= <- <-]; right; left; eauto with lia|].
  destruct (rget now (KMutation key) r) as [raw|] eqn:Hraw.
  { destruct (lua_cached raw) as [c|] eqn:Hc; [|intros [= <- <-]; right; left; eauto with lia].
    destruct (negb (_ || _)); [intros [= <- <-]; right; left; eauto with lia|].
    destruct (negb (bool_decide (ca_hash c = hash))) eqn:Hh; [intros [= <- <-]; right; left; eauto with lia|].
    apply negb_false_iff, bool_decide_eq_true in Hh. intros [= <- <-]. left. eauto 10. }
  destruct (negb (acl_check "SET" _)); [intros [= <- <-]; right; left; eauto with lia|].
  destruct (negb (types_ok now r [(KFlavor id, _)])); [intros [= <- <-]; right; left; eauto with lia|].
  destruct (rget now (KFlavor id) r) as [current|] eqn:Hget; [|intros [= <- <-]; right; left; eauto with lia].
  destruct (negb (bool_decide (current = expected))) eqn:Hcur; [intros [= <- <-]; right; left; eauto with lia|].
  apply negb_false_iff, bool_decide_eq_true in Hcur as ->. pose proof Hrv as [Hp Hn Hid [Rp Rn] Hcr Hlater].
  case_bool_decide as Hsame.
  - subst payload. intros [= <- <-]. right. right. assert (f' = previous) as -> by (by eapply json_inj).
    pose proof (cache_insert (KMutation key) (VStr cached (Some (now + IdemTTL))) r I) as Hs.
    assert (stored r (fa_ID previous) previous) as Hst by (by eapply current_stored).
    split_and!; [done|done|by apply (same_stored _ r)|by eapply (CInv_same clean)|by apply cs_same|apply lookup_insert_eq].
  - destruct (negb (types_ok _ _ _)); [intros [= <- <-]; right; left; eauto with lia|].
    destruct (match rget _ _ _ with Some _ => _ | None => _ end) eqn:Hown; [intros [= <- <-]; right; left; eauto with lia|].
    destruct (negb (may_write _ _ _ _ _)); [intros [= <- <-]; right; left; eauto with lia|]. intros [= <- <-]. right. right.
    destruct write_ok as (H1 & H2 & H3 & H4); [|done|by apply owner_free|].
    { destruct Hlater as [?|Heq]; [done|]. rewrite Heq in Hj. congruence. }
    pose proof (cache_insert (KMutation key) (VStr cached (Some (now + IdemTTL))) r1 I) as Hs.
    split_and!; [done|done|by apply (same_stored _ r1)|by eapply (CInv_same clean)|by eapply cstep_then|apply lookup_insert_eq].
Qed.
End update.
End steps.
