(* ===== verification/CatSystem.v ===== *)
(** Catalog service: the operations in the presence of faults and of each
    other.  A mutation reads, decides and only then sends its script; other
    requests may come in between, and the reply of a script may get lost. *)

From S2P Require Import Prelude Effects GoStd InvModel CatModel CatService CatInv.

Section system.
Context {uuid : UuidLib} {lib : CatLib} {acl : RedisAcl} (clean : string → Prop) {laws : CatLaws clean}.
Context (pages : list (list string)) (ip_literal : string → bool).
Implicit Types (r : Redis) (f : FlavorAdmin) (o : oracle) (w : world CatState).
#[local] Abbreviation CInv := (CInv clean).
#[local] Abbreviation good := (good clean).
#[local] Abbreviation stored := (stored clean).
#[local] Abbreviation cstep := (cstep clean).
#[local] Abbreviation redis w := (cs_redis (w_db w)).

(** ** Parts that do not touch the catalog *)

(** A computation that at most changes cached answers. *)
Definition aside {A} (m : M CatState CErr A) : Prop := ∀ o w, same_catalog (redis w) (redis (m o w).2).

Lemma aside_ret {A} (a : A) : aside (mret a).
Proof. by intros o w. Qed.
Lemma aside_throw {A} e : aside (throw e : M CatState CErr A).
Proof. by intros o w. Qed.
Lemma aside_bind {A B} (m : M CatState CErr A) (k : A → M CatState CErr B) : aside m → (∀ a, aside (k a)) → aside (m ≫= k).
Proof.
  intros Hm Hk o w. specialize (Hm o w). unfold mbind, M_bind. destruct (m o w) as [[e|a] w1]; [done|].
  etrans; [exact Hm|apply Hk].
Qed.
Lemma aside_try {A} (m : M CatState CErr A) : aside m → aside (try m : M CatState CErr (CErr + A)).
Proof. intros Hm o w. specialize (Hm o w). unfold try. by destruct (m o w). Qed.
Lemma aside_for {A} (l : list A) k : (∀ x, aside (k x)) → aside (for_each l k).
Proof. intros Hk. induction l; [apply aside_ret|]. apply aside_bind; [done|]. by intros []. Qed.
Lemma aside_rcall {A} (g : Z → Redis → A * Redis) : (∀ t r, same_catalog r (g t r).2) → aside (rcall g).
Proof.
  intros Hg o w. unfold rcall. specialize (Hg (or_clock o (w_tick w)) (redis w)).
  destruct (g _ _) as [a r]. cbn in *. destruct (or_fault _ _); cbn; [|done]. by destruct (or_landed _ _).
Qed.
Lemma aside_rread {A} (g : Z → Redis → A) : aside (rread g).
Proof. apply aside_rcall. by intros t r. Qed.
Lemma aside_now : aside (go_now : M CatState CErr Z).
Proof. by intros o w. Qed.
Lemma aside_uuid : aside (new_uuid : M CatState CErr string).
Proof. by intros o w. Qed.
Lemma aside_lift {A} (v : CErr + A) : aside (lift v).
Proof. by destruct v; intros o w. Qed.
Lemma aside_encode j : aside (encode j).
Proof. by destruct j; intros o w. Qed.

Lemma aside_record cx a b f : aside (NewRecord cx a b f).
Proof.
  unfold NewRecord. destruct (ManagerID cx); [|apply aside_throw]. destruct (_ || _); [apply aside_throw|].
  apply aside_bind; [apply aside_uuid|]. intros id. apply aside_bind; [apply aside_now|]. intros now. apply aside_ret.
Qed.

Lemma reconcile_same raw id t r : same_catalog r (reconcileIdempotencyScript (KIdem raw) (KIdem id) t r).
Proof.
  unfold reconcileIdempotencyScript. repeat case_bool_decide; try done; destruct (negb _); try done; by apply cache_insert.
Qed.

Lemma aside_prepare : aside (PrepareIdempotency pages).
Proof.
  unfold PrepareIdempotency. apply aside_bind; [by intros o w|]. intros [|]; [apply aside_ret|].
  apply aside_bind; [|intros _; by intros o w]. apply aside_for. intros keys.
  apply aside_bind; [apply aside_try, aside_rread|]. intros [e|_]; [apply aside_throw|].
  apply aside_for. intros raw. destruct (uuid_parse raw) as [id|]; [|apply aside_ret].
  case_bool_decide; [apply aside_ret|]. apply aside_bind; [apply aside_try, aside_rcall; intros; apply reconcile_same|].
  intros [e|_]; [apply aside_throw|apply aside_ret].
Qed.

Lemma aside_find id : aside (FindByID id).
Proof.
  unfold FindByID. apply aside_bind; [apply aside_rread|]. intros [[p e| |]|]; try apply aside_throw.
  destruct (flavor_of p); [apply aside_ret|apply aside_throw].
Qed.

Lemma aside_lookup cx a id rq : aside (LookupMutation cx a id rq).
Proof.
  unfold LookupMutation. destruct (mutationFingerprint cx a id rq) as [e|[hash status]]; [apply aside_throw|].
  apply aside_bind; [apply aside_try, aside_rread|]. intros [e|[[raw ?| |]|]]; try apply aside_throw; [|apply aside_ret].
  destruct (decodeMutationReply _ _ _ _); [apply aside_throw|apply aside_ret].
Qed.

Lemma aside_replay cx a id : aside (replayMutation cx a id).
Proof. unfold replayMutation. destruct (cc_request cx); [apply aside_lookup|apply aside_ret]. Qed.

(** ** What the parts answer *)

Lemma NewRecord_answer cx a before f o w rec w' : NewRecord cx a before f o w = (inr rec, w') →
  ar_FlavorID rec = fa_ID f ∧ ar_After rec = audit_state f ∧ ar_ActorID rec ≠ uuid_nil ∧ ar_Action rec = a ∧
  fa_ID f ≠ uuid_nil ∧ ar_Before rec = audit_state <$> before ∧
  (∀ b, before = Some b → ar_ChangedFields rec = changed_fields b f) ∧ w_db w' = w_db w.
Proof.
  unfold NewRecord, ManagerID. destruct (cc_actor cx) as [[actor role]|]; [|done].
  destruct (bool_decide (actor = uuid_nil)) eqn:Hact; [done|]. destruct (negb _); [done|]. cbn [orb].
  destruct (bool_decide (fa_ID f = uuid_nil)) eqn:Hnil; [done|]. cbn [orb]. destruct (match before with Some _ => _ | None => _ end); [done|].
  intros [= <- <-]. apply bool_decide_eq_false in Hact. apply bool_decide_eq_false in Hnil. cbn. split_and!; try done.
  by intros b ->.
Qed.

Lemma FindByID_answer id o w f w' : CInv (redis w) → FindByID id o w = (inr f, w') → stored (redis w) id f ∧ w_db w' = w_db w.
Proof.
  intros Hr. unfold FindByID, mbind, M_bind, rread, rcall. cbn.
  destruct (or_fault o (w_tick w)); [done|]. destruct (rlook _ (KFlavor id) _) as [v|] eqn:Hl; [|done].
  destruct (CInv_look clean _ _ _ _ Hr Hl) as (g & p & -> & Hg & Hd & _). rewrite Hd. intros [= <- <-]. by destruct w as [[] ? ? ?].
Qed.

(** ** Validated input *)

(** The texts of a request are clean. *)
Definition clean_input (i : FlavorInput) : Prop :=
  (∀ n, in_Name i = Some n → clean (trim_space n)) ∧ (∀ d, in_Description i = Some d → clean (trim_space d)) ∧
  (∀ u, in_ImageURL i = Some u → clean (trim_space u)) ∧ (∀ c, in_Recipe i = Some c → clean (trim_space c)) ∧
  (∀ p, in_Price i = Some p → clean (mo_Currency p)) ∧ (∀ l, in_Allergens i = Some l → Forall clean l).

Lemma check_allergens_ok seen l : check_allergens seen l = None →
  Forall (λ a, Allergen_Valid a = true) l ∧ NoDup l ∧ ∀ a, a ∈ l → a ∉ seen.
Proof.
  revert seen. induction l as [|a l IH]; intros seen; cbn.
  - intros _. split_and!; [constructor|constructor|set_solver].
  - destruct (Allergen_Valid a) eqn:Ha; [|done]. cbn. case_bool_decide as Hin; [done|].
    intros (H1 & H2 & H3)%IH. split_and!; [by constructor| |].
    + constructor; [|done]. intros Hin'. apply (H3 a Hin'). set_solver.
    + intros b [->|Hb]%elem_of_cons; [done|]. specialize (H3 b Hb). set_solver.
Qed.

Lemma validateAllergens_ok l l' : validateAllergens l = inr l' →
  l' ≡ₚ l ∧ Forall (λ a, Allergen_Valid a = true) l' ∧ NoDup l' ∧ Sorted String.le l'.
Proof.
  unfold validateAllergens. destruct (check_allergens [] l) eqn:Hc; [done|]. intros [= <-].
  apply check_allergens_ok in Hc as (H1 & H2 & _). pose proof (merge_sort_Permutation String.le l) as Hp.
  split_and!; [done|by rewrite Hp|by rewrite Hp|apply Sorted_merge_sort, _].
Qed.

Lemma validateName_ok n n' : validateName n = inr n' → n' = trim_space n ∧ 1 ≤ rune_count n' ≤ 100.
Proof.
  unfold validateName. destruct (_ || _) eqn:Hb; [done|]. intros [= <-].
  apply orb_false_iff in Hb as [?%bool_decide_eq_false ?%bool_decide_eq_false]. split; [done|lia].
Qed.
Lemma validateDescription_ok d d' : validateDescription d = inr d' → d' = trim_space d ∧ rune_count d' ≤ 1000.
Proof. unfold validateDescription. case_bool_decide; [done|]. intros [= <-]. split; [done|lia]. Qed.
Lemma validateMoney_ok m m' : validateMoney m = inr m' → m' = m ∧ 0 ≤ mo_AmountMinor m ∧ mo_Currency m = "THB".
Proof.
  unfold validateMoney. destruct (_ || _) eqn:Hb; [done|]. intros [= <-].
  apply orb_false_iff in Hb as [?%bool_decide_eq_false Hc]. apply negb_false_iff, bool_decide_eq_true in Hc. split_and!; [done|lia|done].
Qed.
Lemma validateImageURL_ok u u' : validateImageURL ip_literal u = inr u' → u' = trim_space u ∧ image_ok u'.
Proof.
  unfold validateImageURL. destruct (ParseRequestURI _ _) as [[scheme host]|] eqn:Hp; [|done]. destruct (_ || _) eqn:Hb; [done|].
  intros [= <-]. split; [done|]. right. exists ip_literal, scheme, host. split; [done|].
  apply orb_false_iff in Hb as [Hs Hh%bool_decide_eq_false]. split; [|done].
  apply andb_false_iff in Hs. rewrite !negb_false_iff, !bool_decide_eq_true in Hs. done.
Qed.
Lemma validateRecipe_ok c c' : validateRecipe c = inr c' → c' = trim_space c ∧ c' ≠ "".
Proof. unfold validateRecipe. case_bool_decide; [done|]. by intros [= <-]. Qed.

(** A field after an update is the validated new value or the old one. *)
Lemma field_cases {A B} (v : A → CErr + B) given old b : field v given old = inr b →
  (∃ a, given = Some a ∧ v a = inr b) ∨ (given = None ∧ b = old).
Proof. destruct given as [a|]; cbn; [eauto|]. intros [= <-]. by right. Qed.

Lemma sum_bind_ok {A B} (m : CErr + A) (k : A → CErr + B) b :
  match m with inl e => inl e | inr a => k a end = inr b → ∃ a, m = inr a ∧ k a = inr b.
Proof. destruct m as [e|a]; [done|]. eauto. Qed.

Lemma flavor_from_good i fd id c u : validateCreateInput ip_literal i = inr fd → clean_input i → id ≠ uuid_nil → uuid_parse id = Some id → c ≤ u →
  good (flavor_from id fd c u).
Proof.
  unfold validateCreateInput. destruct (in_Name i) as [n|] eqn:En; [|done]. destruct (in_Description i) as [d|] eqn:Ed; [|done].
  destruct (in_Price i) as [p|] eqn:Ep; [|done]. destruct (in_Allergens i) as [al|] eqn:Ea; [|done].
  destruct (in_Recipe i) as [rc|] eqn:Er; [|done].
  intros (n' & [-> Hn]%validateName_ok & (d' & [-> Hd]%validateDescription_ok & (p' & (-> & Hp1 & Hp2)%validateMoney_ok & Hrest)%sum_bind_ok)%sum_bind_ok)%sum_bind_ok.
  apply sum_bind_ok in Hrest as (u' & Hu & (al' & (Hperm & Hv & Hnd & Hs)%validateAllergens_ok & (rc' & [-> Hrc]%validateRecipe_ok & [= <-])%sum_bind_ok)%sum_bind_ok).
  intros (C1 & C2 & C3 & C4 & C5 & C6) Hid Hu' Ht.
  assert (clean u' ∧ image_ok u') as [? ?].
  { destruct (in_ImageURL i) as [raw|]; [apply validateImageURL_ok in Hu as [-> ?]; split; [by apply C3|done]|].
    injection Hu as <-. split; [apply jl_empty|by left]. }
  split; cbn; try done.
  split_and!; cbn; auto.
  - rewrite Hperm. by apply C6.
Qed.

Lemma updated_good i f f' : updated ip_literal i f = inr f' → good f → clean_input i →
  good f' ∧ fa_ID f' = fa_ID f ∧ fa_CreatedAt f' = fa_CreatedAt f ∧ fa_UpdatedAt f' = fa_UpdatedAt f ∧
  fa_IdempotentReplay f' = fa_IdempotentReplay f.
Proof.
  unfold updated. intros (n & Hn%field_cases & (d & Hd%field_cases & (p & Hp%field_cases & Hrest)%sum_bind_ok)%sum_bind_ok)%sum_bind_ok.
  apply sum_bind_ok in Hrest as (u & Hu%field_cases & (al & Hal%field_cases & (rc & Hrc%field_cases & [= <-])%sum_bind_ok)%sum_bind_ok).
  intros [G1 G2 GU G3 G4 G5 G6 GI G7 G8] (C1 & C2 & C3 & C4 & C5 & C6). split_and!; try done.
  assert (1 ≤ rune_count n ≤ 100 ∧ clean n) as [? ?].
  { destruct Hn as [(a & E & [-> ?]%validateName_ok)|[_ ->]]; [eauto|]. split; [done|apply G1]. }
  assert (rune_count d ≤ 1000 ∧ clean d) as [? ?].
  { destruct Hd as [(a & E & [-> ?]%validateDescription_ok)|[_ ->]]; [eauto|]. split; [done|apply G1]. }
  assert ((0 ≤ mo_AmountMinor p ∧ mo_Currency p = "THB") ∧ clean (mo_Currency p)) as [? ?].
  { destruct Hp as [(a & E & (-> & ? & ?)%validateMoney_ok)|[_ ->]]; [eauto|]. split; [done|apply G1]. }
  assert (clean u ∧ image_ok u) as [? ?]. { destruct Hu as [(a & E & [-> ?]%validateImageURL_ok)|[_ ->]]; [eauto|]. split; [apply G1|done]. }
  assert (Forall (λ a, Allergen_Valid a = true) al ∧ NoDup al ∧ Sorted String.le al ∧ Forall clean al) as (? & ? & ? & ?).
  { destruct Hal as [(a & E & (Hperm & ? & ? & ?)%validateAllergens_ok)|[_ ->]]; [|destruct G6 as (? & ? & ?); split_and!; try done; apply G1].
    split_and!; try done. rewrite Hperm. eauto. }
  assert (rc ≠ "" ∧ clean rc) as [? ?].
  { destruct Hrc as [(a & E & [-> ?]%validateRecipe_ok)|[_ ->]]; [eauto|]. split; [done|apply G1]. }
  split; cbn; try done.
Qed.

Lemma touch_good f t : good f → fa_UpdatedAt f ≤ t → good (touch t f).
Proof. intros [] Ht. split; cbn; try done. lia. Qed.
Lemma archived_good f : good f → good (archived f).
Proof. intros []. by split. Qed.

Lemma next_time_later now t : t < next_time now t.
Proof. unfold next_time, millisecond. case_bool_decide; lia. Qed.

(** ** The writing operations *)

Lemma bind_cases {A B} (m : M CatState CErr A) (k : A → M CatState CErr B) o w res w' : (m ≫= k) o w = (res, w') →
  (∃ e, m o w = (inl e, w') ∧ res = inl e) ∨ ∃ a w1, m o w = (inr a, w1) ∧ k a o w1 = (res, w').
Proof. unfold mbind, M_bind. destruct (m o w) as [[e|a] w1]; [|eauto]. intros [= <- <-]. left. eauto. Qed.

Lemma rcall_cases {A} (g : Z → Redis → A * Redis) o w res w' : rcall g o w = (res, w') →
  ∃ t a r, g t (redis w) = (a, r) ∧ t = or_clock o (w_tick w) ∧
    ((res = inr a ∧ redis w' = r) ∨ ∃ e, res = inl (ERedis e) ∧ (redis w' = r ∨ redis w' = redis w)).
Proof.
  unfold rcall. destruct (g _ _) as [a r] eqn:Hg. exists (or_clock o (w_tick w)), a, r. split; [done|]. split; [done|].
  destruct (or_fault _ _); simplify_eq/=; [|by left]. right. eexists. split; [done|]. destruct (or_landed _ _); cbn; auto.
Qed.

(** A computation that keeps the invariant, makes at most one step, and answers
    [a] only as [Q] says of the stores before and after. *)
Definition commits o {A} (Q : Redis → Redis → A → Prop) (m : M CatState CErr A) : Prop := ∀ w res w',
  CInv (redis w) → m o w = (res, w') →
  CInv (redis w') ∧ cstep (redis w) (redis w') ∧ ∀ a, res = inr a → Q (redis w) (redis w') a.

Lemma commits_throw o {A} Q e : commits o Q (throw e : M CatState CErr A).
Proof. intros w res w' Hr [= <- <-]. split_and!; [done|by apply cs_same|done]. Qed.
Lemma commits_ret o {A} Q (a : A) : (∀ r, CInv r → Q r r a) → commits o Q (mret a).
Proof. intros HQ w res w' Hr [= <- <-]. split_and!; [done|by apply cs_same|]. intros a' [= <-]. by apply HQ. Qed.

(** Reading first. *)
Lemma commits_aside o {A B} (Q : Redis → Redis → B → Prop) (m : M CatState CErr A) k : aside m →
  (∀ r0 r r' b, same_catalog r0 r → Q r r' b → Q r0 r' b) →
  (∀ w a w1, CInv (redis w) → m o w = (inr a, w1) → commits o Q (k a)) → commits o Q (m ≫= k).
Proof.
  intros Hm HQ Hk w res w' Hr Hrun. specialize (Hm o w). apply bind_cases in Hrun as [(e & Hrun & ->)|(a & w1 & Hrun & Hrest)].
  - rewrite Hrun in Hm. split_and!; [by eapply (CInv_same clean)|by apply cs_same|done].
  - pose proof Hrun as Hrun'. rewrite Hrun in Hm. cbn in Hm.
    destruct (Hk w a w1 Hr Hrun w1 res w' (CInv_same clean _ _ Hm Hr) Hrest) as (H1 & H2 & H3).
    split_and!; [done|by eapply cstep_after|]. intros b Hb. eapply HQ; [exact Hm|]. by apply H3.
Qed.

Definition update_post (previous f' : FlavorAdmin) (r r' : Redis) (g : FlavorAdmin) : Prop :=
  fa_IdempotentReplay g = false → g = f' ∧ stored r (fa_ID f') previous ∧ stored r' (fa_ID f') f'.

Lemma update_post_aside previous f' r0 r r' g : same_catalog r0 r → update_post previous f' r r' g → update_post previous f' r0 r' g.
Proof. intros Hs Hp Hg. destruct (Hp Hg) as (-> & H1 & H2). split_and!; [done|by apply (same_stored _ r0 r)|done]. Qed.

Lemma commits_last o {A B} (Q : Redis → Redis → B → Prop) (g : Z → Redis → A * Redis) (k : CErr + A → M CatState CErr B) :
  (∀ t r a r', CInv r → g t r = (a, r') → CInv r' ∧ cstep r r' ∧
     (∀ w res w', k (inr a) o w = (res, w') → w_db w' = w_db w ∧ ∀ b, res = inr b → Q r r' b)) →
  (∀ e w, ∃ e', k (inl (ERedis e)) o w = (inl e', w)) →
  commits o Q (try (rcall g) ≫= k).
Proof.
  intros Hg Hk w res w' Hr Hrun. apply bind_cases in Hrun as [(e & Hrun & ->)|(v & w1 & Hrun & Hrest)].
  { unfold try in Hrun. by destruct (rcall g o w). }
  unfold try in Hrun. destruct (rcall g o w) as [v' w1'] eqn:Hc. injection Hrun as <- <-.
  apply rcall_cases in Hc as (t & a & r & Ha & _ & [[-> Hw]|(e & -> & Hw)]); destruct (Hg t _ a r Hr Ha) as (H1 & H2 & H3).
  - destruct (H3 _ _ _ Hrest) as [Hdb HQ]. rewrite Hdb, Hw. done.
  - destruct (Hk e w1') as [e' He]. rewrite He in Hrest. injection Hrest as <- <-.
    destruct Hw as [->| ->]; split_and!; try done. by apply cs_same.
Qed.

Lemma commits_rcall o {A B} (Q : Redis → Redis → B → Prop) (g : Z → Redis → A * Redis) (k : A → M CatState CErr B) :
  (∀ t r a r', CInv r → g t r = (a, r') → CInv r' ∧ cstep r r' ∧
     (∀ w res w', k a o w = (res, w') → w_db w' = w_db w ∧ ∀ b, res = inr b → Q r r' b)) →
  commits o Q (rcall g ≫= k).
Proof.
  intros Hg w res w' Hr Hrun.
  apply bind_cases in Hrun as [(e & Hrun & ->)|(a & w1 & Hrun & Hrest)]; apply rcall_cases in Hrun as (t & a' & r & Ha & _ & Hc).
  - destruct (Hg t _ a' r Hr Ha) as (H1 & H2 & _). destruct Hc as [[? _]|(e' & _ & [->| ->])]; [done|..]; split_and!; try done.
    by apply cs_same.
  - destruct Hc as [[[= <-] Hw]|(e & ? & _)]; [|done]. destruct (Hg t _ a r Hr Ha) as (H1 & H2 & H3).
    destruct (H3 _ _ _ Hrest) as [-> HQ]. by rewrite Hw.
Qed.

(** A record made by [NewRecord] says what is done. *)
Lemma record_facts cx a before f o w rec w' : NewRecord cx a before f o w = (inr rec, w') →
  (∀ s, record_json rec = Some s → recorded rec s (fa_ID f) f) ∧ fa_ID f ≠ uuid_nil ∧ ar_Action rec = a ∧
  ar_Before rec = audit_state <$> before ∧ ∀ b, before = Some b → ar_ChangedFields rec = changed_fields b f.
Proof. intros (H1 & H2 & H3 & H4 & H5 & H6 & H7 & _)%NewRecord_answer. split_and!; try done. Qed.

Lemma encode_answer j o w s w' : encode j o w = (inr s, w') → j = Some s.
Proof. destruct j; cbn; [|done]. by intros [= -> _]. Qed.

Lemma plain_update_commits o cx a previous f' : revision clean previous f' → fa_UpdatedAt previous < fa_UpdatedAt f' →
  commits o (update_post previous f')
    (record ← NewRecord cx a (Some previous) f';
     history ← encode (record_json record);
     payload ← encode (flavor_json f');
     expected ← encode (flavor_json previous);
     result ← rcall (updateFlavorScript (fa_ID f') (nameKey (fa_Name previous)) (nameKey (fa_Name f')) payload expected history);
     if bool_decide (result = -3) then throw EAuditStorage
     else if bool_decide (result = -2) then throw EUpdateConflict
     else if bool_decide (result = -1) then throw ENotFound
     else if bool_decide (result = 0) then throw ENameConflict
     else mret f').
Proof.
  intros Hrv Hlt.
  apply commits_aside; [apply aside_record|apply update_post_aside|]. intros w rec w1 _ (Hrec & _ & _ & Hbe & Hch)%record_facts.
  apply commits_aside; [apply aside_encode|apply update_post_aside|]. intros ? history ? _ Hh%encode_answer.
  apply commits_aside; [apply aside_encode|apply update_post_aside|]. intros ? payload ? _ Hp%encode_answer.
  apply commits_aside; [apply aside_encode|apply update_post_aside|]. intros ? expected ? _ He%encode_answer.
  apply commits_rcall. intros t r z r' Hr Hz.
  destruct (updateFlavorScript_ok clean t previous f' rec payload expected history r Hr Hrv Hp He (Hrec _ Hh) (Hch _ eq_refl) Hbe z r' Hlt Hz)
    as [(-> & H1 & H2 & H3 & H4)|[Hz0 ->]].
  - split_and!; [done..|]. intros w9 res9 w9' [= <- <-]. split; [done|]. intros g [= <-] _. done.
  - split_and!; [done|by apply cs_same|]. intros w9 res9 w9'. repeat (case_bool_decide; [by intros [= <- <-]|]). lia.
Qed.

Lemma decode_replayed raw hash status id g : decodeMutationReply raw hash status id = inr (Some g) → fa_IdempotentReplay g = true.
Proof.
  unfold decodeMutationReply. repeat case_match; try done; intros [= <-]; done.
Qed.

Lemma commits_some o {A} Q (j : option string) e (k : string → M CatState CErr A) :
  (∀ r0 r r' b, same_catalog r0 r → Q r r' b → Q r0 r' b) → (∀ s, j = Some s → commits o Q (k s)) →
  commits o Q ((match j with Some s => mret s | None => throw e end : M CatState CErr string) ≫= k).
Proof.
  intros HQ Hk. apply commits_aside; [by destruct j; intros ? ?|done|]. intros w s w1 _ Hrun. apply Hk.
  destruct j; [|done]. by injection Hrun as ->.
Qed.

Lemma updateIdempotent_commits o cx a previous f' rq : revision clean previous f' →
  commits o (update_post previous f') (updateIdempotent cx a previous f' rq).
Proof.
  intros Hrv. unfold updateIdempotent. destruct (mutationFingerprint cx a (fa_ID f') rq) as [e|[hash status]]; [apply commits_throw|].
  apply commits_aside; [apply aside_record|apply update_post_aside|]. intros w rec w1 _ (Hrec & _ & _ & Hbe & Hch)%record_facts.
  apply commits_some; [apply update_post_aside|]. intros history Hh.
  apply commits_some; [apply update_post_aside|]. intros payload Hp.
  apply commits_some; [apply update_post_aside|]. intros expected He.
  apply commits_last; [|by intros e w2; eexists]. intros t r res r' Hr Hz.
  destruct (mutationReplayScript_ok clean t previous f' rec payload expected history r Hr Hrv Hp He (Hrec _ Hh) (Hch _ eq_refl) Hbe
    _ _ _ _ _ _ (ex_intro _ _ eq_refl) Hz) as [(raw & c & -> & -> & _)|[(z & -> & _ & ->)|(-> & H1 & H2 & H3 & H4 & _)]].
  - split_and!; [done|by apply cs_same|]. intros w9 res9 w9'.
    destruct (decodeMutationReply raw hash status (fa_ID f')) as [e|[g|]] eqn:Hd; intros [= <- <-]; (split; [done|]); [done|..].
    + intros b [= <-] Hb. apply decode_replayed in Hd. congruence.
    + intros b [= <-] Hb. done.
  - split_and!; [done|by apply cs_same|]. intros w9 res9 w9'. repeat case_bool_decide; intros [= <- <-]; done.
  - split_and!; [done..|]. intros w9 res9 w9' [= <- <-]. split; [done|]. intros g [= <-] _. done.
Qed.

(** A mutation of the repository.  A keyed one may repeat what is there. *)
Lemma repo_Update_commits o cx a previous f' : revision clean previous f' →
  fa_UpdatedAt previous < fa_UpdatedAt f' ∨ (∃ rq, cc_request cx = Some rq ∧ rq_Scope rq ≠ "") →
  commits o (update_post previous f') (repo_Update cx a previous f').
Proof.
  intros Hrv Hor. unfold repo_Update. destruct (cc_request cx) as [rq|].
  - case_bool_decide as Hs; [|by apply updateIdempotent_commits]. apply plain_update_commits; [done|].
    destruct Hor as [?|(rq' & [= <-] & ?)]; done.
  - apply plain_update_commits; [done|]. destruct Hor as [?|(rq' & ? & _)]; done.
Qed.

Definition create_post (f : FlavorAdmin) (r r' : Redis) (g : FlavorAdmin * bool) : Prop :=
  g.2 = false → g.1 = f ∧ stored r' (fa_ID f) f ∧ r !! KFlavor (fa_ID f) = None.

Lemma create_post_aside f r0 r r' g : same_catalog r0 r → create_post f r r' g → create_post f r0 r' g.
Proof. intros Hs Hp Hg. destruct (Hp Hg) as (-> & H1 & H2). split_and!; [done..|]. by rewrite <-(flavor_same r0 r). Qed.

Lemma repo_create_commits o cx f request : (fa_ID f ≠ uuid_nil → good f) → fa_IdempotentReplay f = false →
  fa_CreatedAt f = fa_UpdatedAt f → commits o (create_post f) (repo_create pages cx f request).
Proof.
  intros Hg Hrep Ht. unfold repo_create.
  apply commits_aside; [apply aside_record|apply create_post_aside|]. intros w rec w1 _ (Hrec & Hid & Hact & _)%record_facts.
  apply commits_aside; [apply aside_encode|apply create_post_aside|]. intros ? history ? _ Hh%encode_answer.
  apply commits_aside; [apply aside_encode|apply create_post_aside|]. intros ? payload ? _ Hp%encode_answer.
  apply commits_aside; [|apply create_post_aside|].
  { destruct request as [rq|]; [|apply aside_ret]. destruct (negb _); [apply aside_throw|]. destruct (negb _); [apply aside_throw|].
    apply aside_bind; [apply aside_prepare|]. intros []. apply aside_ret. }
  intros ? [[[key legacyKey] hash] cached] ? _ Hkey.
  assert (cache_key key) as Hck.
  { destruct request as [rq|]; [|by injection Hkey as <- _ _ _ _]. destruct (negb _); [done|]. destruct (negb _); [done|].
    apply bind_ok in Hkey as (? & ? & _ & Hkey). by injection Hkey as <- _ _ _ _. }
  apply commits_last; [|by intros e w9; case_bool_decide; eexists]. intros t r res r' Hr Hz.
  destruct (createFlavorScript_ok clean t f rec payload history hash cached key legacyKey r Hr (Hg Hid) Hrep Hp (Hrec _ Hh) Hck Ht Hact res r' Hz)
    as (H1 & H2 & H3). split_and!; [done..|]. intros w9 res9 w9'.
  destruct res as [z| |body]; [repeat case_bool_decide; intros [= <- <-]; done| |].
  - intros [= <- <-]. split; [done|]. intros g [= <-] _. destruct H3 as [(_ & ? & ? & _)|[? _]]; done.
  - destruct (flavor_of body) as [original|]; [|by intros [= <- <-]]. case_bool_decide; [by intros [= <- <-]|].
    intros [= <- <-]. split; [done|]. by intros g [= <-].
Qed.

(** ** Reading, then writing *)

(** The first part of a mutation: an answer, or what it read with what it wants
    to write. *)
Definition Plan := (FlavorAdmin + FlavorAdmin * FlavorAdmin)%type.

Definition update_plan (cx : CCtx) (id : string) (i : FlavorInput) : M CatState CErr Plan :=
  if negb (hasUpdate i) then throw (EInvalidInput "fields")
  else
    replay ← replayMutation cx AUpdate id;
    match replay with
    | Some (Some original) => mret (inl original)
    | Some None => throw EIdemUnavailable
    | None =>
        previous ← FindByID id;
        record ← lift (updated ip_literal i previous);
        now ← go_now;
        mret (inr (previous, touch (next_time now (fa_UpdatedAt previous)) record))
    end.

Definition replace_plan (cx : CCtx) (id : string) (i : FlavorInput) : M CatState CErr Plan :=
  replay ← replayMutation cx AReplace id;
  match replay with
  | Some (Some original) => mret (inl original)
  | Some None => throw EIdemUnavailable
  | None =>
      if bool_decide (in_Active i = None) then throw (EInvalidInput "active")
      else
        fd ← lift (validateCreateInput ip_literal i);
        previous ← FindByID id;
        if unchanged fd previous then
          if bool_decide (cc_request cx = None) then mret (inl previous)
          else mret (inr (previous, flavor_from id fd (fa_CreatedAt previous) (fa_UpdatedAt previous)))
        else
          now ← go_now;
          mret (inr (previous, flavor_from id fd (fa_CreatedAt previous) (next_time now (fa_UpdatedAt previous))))
  end.

Definition archive_plan (cx : CCtx) (id : string) : M CatState CErr (unit + FlavorAdmin * FlavorAdmin) :=
  replay ← replayMutation cx AArchive id;
  match replay with
  | Some _ => mret (inl tt)
  | None =>
      previous ← FindByID id;
      if fa_Active previous then
        now ← go_now;
        mret (inr (previous, touch (next_time now (fa_UpdatedAt previous)) (archived previous)))
      else if bool_decide (cc_request cx = None) then mret (inl tt)
      else mret (inr (previous, previous))
  end.

Lemma cat_Update_split cx id i o w :
  cat_Update ip_literal cx id i o w =
  (p ← update_plan cx id i; match p with inl a => mret a | inr (f, g) => repo_Update cx AUpdate f g end) o w.
Proof.
  unfold cat_Update, update_plan. destruct (negb (hasUpdate i)); [done|]. unfold mbind, M_bind.
  destruct (replayMutation _ _ _ o w) as [[e|[[a|]|]] w1]; [done..|]. destruct (FindByID id o w1) as [[e|f] w2]; [done|].
  by destruct (updated ip_literal i f).
Qed.
Lemma cat_Replace_split cx id i o w :
  cat_Replace ip_literal cx id i o w =
  (p ← replace_plan cx id i; match p with inl a => mret a | inr (f, g) => repo_Update cx AReplace f g end) o w.
Proof.
  unfold cat_Replace, replace_plan. unfold mbind, M_bind.
  destruct (replayMutation _ _ _ o w) as [[e|[[a|]|]] w1]; [done..|]. case_bool_decide; [done|].
  destruct (validateCreateInput ip_literal i) as [e|fd]; [done|]. cbn. destruct (FindByID id o w1) as [[e|f] w2]; [done|].
  destruct (unchanged fd f); [by case_bool_decide|done].
Qed.
Lemma cat_Archive_split cx id o w :
  cat_Archive cx id o w =
  (p ← archive_plan cx id; match p with inl a => mret a | inr (f, g) => repo_Update cx AArchive f g ;; mret tt end) o w.
Proof.
  unfold cat_Archive, archive_plan. unfold mbind, M_bind.
  destruct (replayMutation _ _ _ o w) as [[e|[a|]] w1]; [done..|]. destruct (FindByID id o w1) as [[e|f] w2]; [done|].
  destruct (fa_Active f); [done|]. by case_bool_decide.
Qed.
End system.
