(* ===== verification/CatIdem.v ===== *)
(** Catalog service: the answers of keyed requests are kept for a day.  No
    operation overwrites a cached answer before it expires, and a request that
    finds one changes nothing. *)

From S2P Require Import Prelude Effects GoStd InvModel CatModel CatService CatInv CatSystem.

Section idem.
Context {uuid : UuidLib} {lib : CatLib} {acl : RedisAcl} (clean : string → Prop) {laws : CatLaws clean}.
Context (pages : list (list string)) (ip_literal : string → bool) (timely : Prop) (T : Z).
Implicit Types (r : Redis) (f : FlavorAdmin) (o : oracle) (w : world CatState).
#[local] Abbreviation redis w := (cs_redis (w_db w)).

(** Creations are cached under canonical keys. *)
Definition canonical_keys r : Prop := ∀ raw v, r !! KIdem raw = Some v → uuid_parse raw = Some raw.

(** Canonical keys stay canonical and, if [timely], answers that expire at [T]
    stay. *)
Definition keeps r r' : Prop :=
  canonical_keys r → canonical_keys r' ∧
  (timely → ∀ k s, cache_key k → r !! k = Some (VStr s (Some T)) → r' !! k = Some (VStr s (Some T))).

#[global] Instance keeps_refl : Reflexive keeps.
Proof. by intros r H. Qed.
#[global] Instance keeps_trans : Transitive keeps.
Proof. intros r1 r2 r3 H12 H23 Hc. destruct (H12 Hc) as [Hc2 K12]. destruct (H23 Hc2) as [Hc3 K23]. split; [done|]. eauto. Qed.

(** A catalog key is written. *)
Lemma keeps_insert k v r : ¬ cache_key k → keeps r (<[k := v]> r).
Proof.
  intros Hk Hc. split.
  - intros raw v' Hl. rewrite lookup_insert_ne in Hl; [by eapply Hc|]. intros ->. by apply Hk.
  - intros HB k' s Hk' Hl. rewrite lookup_insert_ne; [done|]. by intros ->.
Qed.
Lemma keeps_delete k r : ¬ cache_key k → keeps r (delete k r).
Proof.
  intros Hk Hc. split.
  - intros raw v' [_ Hl]%lookup_delete_Some. by eapply Hc.
  - intros HB k' s Hk' Hl. rewrite lookup_delete_ne; [done|]. by intros ->.
Qed.
(** An answer is cached where there was none. *)
Lemma keeps_cache t k v r : (timely → t < T) → rlook t k r = None → (∀ raw, k = KIdem raw → uuid_parse raw = Some raw) → keeps r (<[k := v]> r).
Proof.
  intros Ht Hn Hcan Hc. split.
  - intros raw v'. destruct (decide (k = KIdem raw)) as [->|Hne]; [by intros _; apply Hcan|].
    rewrite lookup_insert_ne by done. apply Hc.
  - intros HB k' s Hk' Hl. specialize (Ht HB). destruct (decide (k = k')) as [->|Hne]; [|by rewrite lookup_insert_ne].
    unfold rlook in Hn. rewrite Hl in Hn. cbn in Hn. by rewrite bool_decide_eq_true_2 in Hn.
Qed.

(** ** Computations *)

Definition kept {A} (m : M CatState CErr A) : Prop := ∀ o w, (timely → ∀ n, or_clock o n < T) → keeps (redis w) (redis (m o w).2).

Lemma kept_ret {A} (a : A) : kept (mret a).
Proof. by intros o w _. Qed.
Lemma kept_throw {A} e : kept (throw e : M CatState CErr A).
Proof. by intros o w _. Qed.
Lemma kept_bind {A B} (m : M CatState CErr A) (k : A → M CatState CErr B) : kept m → (∀ a, kept (k a)) → kept (m ≫= k).
Proof.
  intros Hm Hk o w Ho. specialize (Hm o w Ho). unfold mbind, M_bind. destruct (m o w) as [[e|a] w1]; [done|].
  etrans; [exact Hm|by apply Hk].
Qed.
(** When what follows depends on what was answered. *)
Lemma kept_bind_dep {A B} (m : M CatState CErr A) (k : A → M CatState CErr B) : kept m →
  (∀ o w a w1, m o w = (inr a, w1) → kept (k a)) → kept (m ≫= k).
Proof.
  intros Hm Hk o w Ho. specialize (Hm o w Ho). unfold mbind, M_bind. destruct (m o w) as [[e|a] w1] eqn:Hrun; [done|].
  etrans; [exact Hm|by eapply Hk].
Qed.
Lemma kept_try {A} (m : M CatState CErr A) : kept m → kept (try m : M CatState CErr (CErr + A)).
Proof. intros Hm o w Ho. specialize (Hm o w Ho). unfold try. by destruct (m o w). Qed.
Lemma kept_for {A} (l : list A) k : (∀ x, kept (k x)) → kept (for_each l k).
Proof. intros Hk. induction l; [apply kept_ret|]. apply kept_bind; [done|]. by intros []. Qed.
Lemma kept_rcall {A} (g : Z → Redis → A * Redis) : (∀ t r, (timely → t < T) → keeps r (g t r).2) → kept (rcall g).
Proof.
  intros Hg o w Ho. unfold rcall. specialize (Hg (or_clock o (w_tick w)) (redis w) (λ HB, Ho HB _)).
  destruct (g _ _) as [a r]. cbn in *. destruct (or_fault _ _); cbn; [|done]. by destruct (or_landed _ _).
Qed.
Lemma kept_rread {A} (g : Z → Redis → A) : kept (rread g).
Proof. apply kept_rcall. by intros t r _. Qed.
Lemma kept_encode j : kept (encode j).
Proof. by destruct j; intros o w _. Qed.
Lemma kept_lift {A} (v : CErr + A) : kept (lift v).
Proof. by destruct v; intros o w _. Qed.
Lemma kept_now : kept (go_now : M CatState CErr Z).
Proof. by intros o w _. Qed.
Lemma kept_uuid : kept (new_uuid : M CatState CErr string).
Proof. by intros o w _. Qed.
Lemma kept_some j e : kept (match j with Some s => mret s | None => throw e end : M CatState CErr string).
Proof. by destruct j; intros o w _. Qed.

Create HintDb kept.
#[local] Hint Resolve kept_ret kept_throw kept_try kept_rread kept_encode kept_lift kept_now kept_uuid kept_some : kept.

Lemma kept_record cx a b f : kept (NewRecord cx a b f).
Proof.
  unfold NewRecord. destruct (ManagerID cx); [|auto with kept]. destruct (_ || _); [auto with kept|].
  apply kept_bind; [auto with kept|]. intros id. apply kept_bind; [auto with kept|]. auto with kept.
Qed.
#[local] Hint Resolve kept_record : kept.

(** ** The scripts *)

Lemma keeps_write t id payload history kold knew r : ¬ cache_key kold → ¬ cache_key knew →
  keeps r (write_flavor t id payload history kold knew r).
Proof.
  intros Ho Hn. unfold write_flavor, rrpush, rset. set (r1 := if bool_decide _ then r else _).
  assert (keeps r r1) as H1. { unfold r1. repeat case_bool_decide; [done|by apply keeps_delete|done]. }
  etrans; [exact H1|]. etrans; [apply (keeps_insert knew (VStr id None)); done|].
  etrans; [apply (keeps_insert (KFlavor id) (VStr payload None)); by intros []|].
  repeat case_match; apply keeps_insert; by intros [].
Qed.

Lemma keeps_update id n1 n2 payload expected history t r :
  keeps r (updateFlavorScript id (nameKey n1) (nameKey n2) payload expected history t r).2.
Proof.
  unfold updateFlavorScript. destruct (negb _); [done|]. destruct (rget t (KFlavor id) r); [|done].
  destruct (negb _); [done|]. destruct (match rget _ _ _ with Some _ => _ | None => _ end); [done|].
  destruct (negb _); [done|]. by apply keeps_write; intros [].
Qed.

Lemma rget_rlook t k r : types_ok t r [(k, "string")] = true → rget t k r = None → rlook t k r = None.
Proof. unfold types_ok, rtype, rget. cbn. destruct (rlook t k r) as [[]|]; done. Qed.

Lemma keeps_mutation id n1 n2 key payload expected history hash cached body t r : (timely → t < T) →
  keeps r (mutationReplayScript id (nameKey n1) (nameKey n2) (KMutation key) payload expected history hash cached body t r).2.
Proof.
  intros Ht. unfold mutationReplayScript. destruct (types_ok t r [(KMutation key, _)]) eqn:Hty; [|done]. cbn [negb].
  destruct (rget t (KMutation key) r) as [raw|] eqn:Hraw.
  { destruct (lua_cached raw); [|done]. destruct (negb _); [done|]. by destruct (negb _). }
  apply rget_rlook in Hraw; [|done].
  assert (∀ r', keeps r r' → r' !! KMutation key = r !! KMutation key → keeps r (<[KMutation key := VStr cached (Some (t + IdemTTL))]> r')) as Hset.
  { intros r' Hk Heq. etrans; [exact Hk|]. eapply keeps_cache; [exact Ht| |done]. unfold rlook in *. by rewrite Heq. }
  destruct (negb _); [done|]. destruct (negb _); [done|]. destruct (rget t (KFlavor id) r); [|done].
  destruct (negb _); [done|]. case_bool_decide; [by apply Hset|]. destruct (negb _); [done|].
  destruct (match rget _ _ _ with Some _ => _ | None => _ end); [done|]. destruct (negb _); [done|]. cbn [snd].
  apply Hset; [by apply keeps_write; intros []|]. unfold write_flavor, rrpush, rset.
  repeat (case_match || case_bool_decide); rewrite !lookup_insert_ne by done; try done; by rewrite lookup_delete_ne.
Qed.

(** Nothing is reconciled where all keys are canonical. *)
Lemma keeps_reconcile raw id t r : uuid_parse raw = Some id → raw ≠ id →
  keeps r (reconcileIdempotencyScript (KIdem raw) (KIdem id) t r).
Proof.
  intros Hp Hne Hc. unfold reconcileIdempotencyScript. rewrite bool_decide_eq_true_2; [done|].
  unfold rtype, rlook. destruct (r !! KIdem raw) as [v|] eqn:Hl; [|done]. apply Hc in Hl. congruence.
Qed.

Lemma cached_none t hash k r : cached_create t hash k r = None → rlook t k r = None.
Proof.
  unfold cached_create. destruct (types_ok t r [(k, _)]) eqn:Hty; [|done]. cbn [negb].
  destruct (rget t k r) as [p|] eqn:Hg; [|by intros _; apply rget_rlook]. by repeat case_match.
Qed.

Lemma keeps_create id name kidem klegacy payload history hash cached t r : (timely → t < T) →
  (∀ raw, kidem = KIdem raw → uuid_parse raw = Some raw) →
  keeps r (createFlavorScript id (nameKey name) kidem klegacy payload history hash cached t r).2.
Proof.
  intros Ht Hcan. unfold createFlavorScript. set (commit := if negb (types_ok _ _ _) then _ else _).
  assert (hash = "" ∨ rlook t kidem r = None → keeps r commit.2) as Hcommit.
  { intros Hh. unfold commit. destruct (negb (types_ok _ _ _)); [done|]. case_bool_decide; [done|]. case_bool_decide; [done|].
    destruct (_ || _); [done|]. cbn [snd]. set (r1 := rrpush _ _ _ _).
    assert (keeps r r1) as H1.
    { unfold r1, rrpush, rsadd, rset. etrans; [apply (keeps_insert (KFlavor id) (VStr payload None)); by intros []|].
      etrans; [apply (keeps_insert (nameKey name) (VStr id None)); by intros []|].
      repeat case_match; (etrans; [|apply (keeps_insert (KAudit id)); by intros []]); apply keeps_insert; by intros []. }
    case_bool_decide as Hempty; [done|]. destruct Hh as [?|Hlook]; [done|]. etrans; [exact H1|].
    assert (cache_key kidem ∨ ¬ cache_key kidem) as [Hck|Hck] by (destruct kidem; cbn; tauto); [|by apply keeps_insert].
    eapply keeps_cache; [exact Ht| |done]. unfold rlook in *.
    assert (r1 !! kidem = r !! kidem) as ->; [|done]. unfold r1, rrpush, rsadd, rset.
    destruct kidem; try done; repeat case_match; by rewrite !lookup_insert_ne. }
  case_bool_decide; [by apply Hcommit; left|].
  destruct (cached_create t hash kidem r) as [res|] eqn:H1; [done|].
  destruct (cached_create t hash klegacy r) as [res|]; [done|]. destruct (negb (acl_check "SET" kidem)); [done|].
  apply Hcommit. right. by eapply cached_none.
Qed.

(** ** The operations *)

Lemma kept_prepare : kept (PrepareIdempotency pages).
Proof.
  unfold PrepareIdempotency. apply kept_bind; [by intros o w _|]. intros [|]; [auto with kept|].
  apply kept_bind; [|intros _; by intros o w _]. apply kept_for. intros keys.
  apply kept_bind; [auto with kept|]. intros [e|_]; [auto with kept|].
  apply kept_for. intros raw. destruct (uuid_parse raw) as [id|] eqn:Hp; [|auto with kept].
  case_bool_decide; [auto with kept|]. apply kept_bind; [apply kept_try, kept_rcall; intros; by apply keeps_reconcile|].
  intros [e|_]; auto with kept.
Qed.

Lemma kept_create cx f request : kept (repo_create pages cx f request).
Proof.
  unfold repo_create. apply kept_bind; [auto with kept|]. intros rec. apply kept_bind; [auto with kept|]. intros history.
  apply kept_bind; [auto with kept|]. intros payload. apply kept_bind_dep.
  { destruct request as [rq|]; [|auto with kept]. destruct (negb _); [auto with kept|]. destruct (negb _); [auto with kept|].
    apply kept_bind; [apply kept_prepare|]. auto with kept. }
  intros o w [[[key legacyKey] hash] cached] w1 Hkey. apply kept_bind.
  - apply kept_try, kept_rcall. intros t r Ht. apply keeps_create; [done|]. intros raw ->.
    destruct request as [rq|]; [|done]. destruct (negb _); [done|]. destruct (negb (bool_decide (uuid_parse _ = _))) eqn:Hp; [done|].
    apply negb_false_iff, bool_decide_eq_true in Hp. apply bind_ok in Hkey as (? & ? & _ & Hkey). injection Hkey as <- _ _ _ _.
    by eapply uuid_parse_canonical.
  - intros [e|[z| |body]]; repeat case_match; auto with kept.
Qed.

Lemma kept_update cx a previous f' : kept (repo_Update cx a previous f').
Proof.
  unfold repo_Update. set (plain := NewRecord _ _ _ _ ≫= _). assert (kept plain) as Hplain.
  { unfold plain. apply kept_bind; [auto with kept|]. intros rec. apply kept_bind; [auto with kept|]. intros history.
    apply kept_bind; [auto with kept|]. intros payload. apply kept_bind; [auto with kept|]. intros expected.
    apply kept_bind; [apply kept_rcall; intros; apply keeps_update|]. intros z. repeat case_match; auto with kept. }
  destruct (cc_request cx) as [rq|]; [|done]. case_bool_decide; [done|]. unfold updateIdempotent.
  destruct (mutationFingerprint _ _ _ _) as [e|[hash status]]; [auto with kept|].
  apply kept_bind; [auto with kept|]. intros rec. apply kept_bind; [auto with kept|]. intros history.
  apply kept_bind; [auto with kept|]. intros payload. apply kept_bind; [auto with kept|]. intros expected.
  apply kept_bind; [apply kept_try, kept_rcall; intros; by apply keeps_mutation|].
  intros [e|[z| |raw]]; repeat case_match; auto with kept.
Qed.

Lemma kept_find id : kept (FindByID id).
Proof. unfold FindByID. apply kept_bind; [auto with kept|]. intros [[]|]; repeat case_match; auto with kept. Qed.
Lemma kept_replay cx a id : kept (replayMutation cx a id).
Proof.
  unfold replayMutation. destruct (cc_request cx); [|auto with kept]. unfold LookupMutation.
  destruct (mutationFingerprint _ _ _ _) as [e|[hash status]]; [auto with kept|]. apply kept_bind; [auto with kept|].
  intros [e|[[]|]]; repeat case_match; auto with kept.
Qed.

Lemma kept_plans cx id i : kept (update_plan ip_literal cx id i) ∧ kept (replace_plan ip_literal cx id i) ∧ kept (archive_plan cx id).
Proof.
  split_and!.
  - unfold update_plan. destruct (negb _); [auto with kept|]. apply kept_bind; [apply kept_replay|].
    intros [[g|]|]; [auto with kept..|]. apply kept_bind; [apply kept_find|]. intros f.
    apply kept_bind; [auto with kept|]. intros f'. apply kept_bind; auto with kept.
  - unfold replace_plan. apply kept_bind; [apply kept_replay|]. intros [[g|]|]; [auto with kept..|].
    case_bool_decide; [auto with kept|]. apply kept_bind; [auto with kept|]. intros fd. apply kept_bind; [apply kept_find|].
    intros f. destruct (unchanged fd f); [case_bool_decide; auto with kept|]. apply kept_bind; auto with kept.
  - unfold archive_plan. apply kept_bind; [apply kept_replay|]. intros [g|]; [auto with kept|].
    apply kept_bind; [apply kept_find|]. intros f. destruct (fa_Active f); [apply kept_bind; auto with kept|].
    case_bool_decide; auto with kept.
Qed.
End idem.
