(* ===== verification/CatClaims.v ===== *)
(** Catalog service: the service as a system of concurrent requests, and its
    theorems. *)

From S2P Require Import Prelude Effects GoStd InvModel CatModel CatService CatInv CatSystem CatIdem.

(** [uuid.New] hands out canonical UUIDs. *)
Definition canonical_ids `{UuidLib} (o : oracle) : Prop := ∀ n, uuid_parse (or_uuid o n) = Some (or_uuid o n).

(** A mutation that has read and not yet written. *)
Record Job := MkJob { jb_cx : CCtx; jb_action : Action; jb_read : FlavorAdmin; jb_write : FlavorAdmin }.
Record Sys := MkSys { sy_state : CatState; sy_jobs : list Job }.

Section claims.
Context {uuid : UuidLib} {lib : CatLib} {acl : RedisAcl} (clean : string → Prop) {laws : CatLaws clean}.
Context (pages : list (list string)) (ip_literal : string → bool).
Implicit Types (r : Redis) (f g : FlavorAdmin) (o : oracle) (w : world CatState) (s : Sys).
#[local] Abbreviation CInv := (CInv clean).
#[local] Abbreviation good := (good clean).
#[local] Abbreviation stored := (stored clean).
#[local] Abbreviation cstep := (cstep clean).
#[local] Abbreviation redis w := (cs_redis (w_db w)).
#[local] Abbreviation store s := (cs_redis (sy_state s)).
#[local] Abbreviation begin st n := (World st n false []).

(** The steps: a creation, the first part of a mutation, its second part at any
    later time and in any order, a restart that loses the requests in flight.
    [P] restricts the environments, for instance their clocks. *)
Inductive cat_step (P : oracle → Prop) : Sys → Sys → Prop :=
  | S_create st jobs cx i o n : P o → clean_input clean i →
      cat_step P (MkSys st jobs) (MkSys (w_db (cat_Create pages ip_literal cx i o (begin st n)).2) jobs)
  | S_update st jobs cx id i o n f g w' : P o → clean_input clean i →
      update_plan ip_literal cx id i o (begin st n) = (inr (inr (f, g)), w') →
      cat_step P (MkSys st jobs) (MkSys (w_db w') (jobs ++ [MkJob cx AUpdate f g]))
  | S_replace st jobs cx id i o n f g w' : P o → clean_input clean i →
      replace_plan ip_literal cx id i o (begin st n) = (inr (inr (f, g)), w') →
      cat_step P (MkSys st jobs) (MkSys (w_db w') (jobs ++ [MkJob cx AReplace f g]))
  | S_archive st jobs cx id o n f g w' : P o →
      archive_plan cx id o (begin st n) = (inr (inr (f, g)), w') →
      cat_step P (MkSys st jobs) (MkSys (w_db w') (jobs ++ [MkJob cx AArchive f g]))
  | S_commit st jobs1 j jobs2 o n : P o →
      cat_step P (MkSys st (jobs1 ++ j :: jobs2))
        (MkSys (w_db (repo_Update (jb_cx j) (jb_action j) (jb_read j) (jb_write j) o (begin st n)).2) (jobs1 ++ jobs2))
  | S_restart st jobs : cat_step P (MkSys st jobs) (MkSys (MkCatState (cs_redis st) false) []).

Definition cat_start : Sys := MkSys (MkCatState ∅ false) [].

(** ** What a mutation in flight wants *)

Definition job_ok (j : Job) : Prop :=
  revision clean (jb_read j) (jb_write j) ∧
  (fa_UpdatedAt (jb_read j) < fa_UpdatedAt (jb_write j) ∨ ∃ rq, cc_request (jb_cx j) = Some rq ∧ rq_Scope rq ≠ "").

Lemma revision_of f g : good f → good g → fa_ID g = fa_ID f → fa_IdempotentReplay f = false → fa_IdempotentReplay g = false →
  fa_CreatedAt g = fa_CreatedAt f → fa_UpdatedAt f < fa_UpdatedAt g ∨ g = f → revision clean f g.
Proof. by split. Qed.

Lemma replay_scope cx a id o w v w1 rq : replayMutation cx a id o w = (inr v, w1) → cc_request cx = Some rq → rq_Scope rq ≠ "".
Proof.
  unfold replayMutation. intros Hrun Hrq. rewrite Hrq in Hrun. unfold LookupMutation, mutationFingerprint in Hrun.
  destruct (ManagerID cx); [|done]. destruct (method_of a) as [[m st]|] eqn:Hm; [|done].
  destruct (negb (bool_decide (rq_Scope rq = _))) eqn:Hs; [by rewrite !orb_true_r in Hrun|].
  apply negb_false_iff, bool_decide_eq_true in Hs as ->. destruct a; try done; by injection Hm as <- <-.
Qed.

Lemma replay_then_find cx a id o w v w1 f w2 : CInv (redis w) → replayMutation cx a id o w = (inr v, w1) →
  FindByID id o w1 = (inr f, w2) → stored (redis w) id f ∧ good f ∧ fa_IdempotentReplay f = false ∧ fa_ID f = id.
Proof.
  intros Hr Hrun Hf. pose proof (aside_replay cx a id o w) as Hs. rewrite Hrun in Hs. cbn in Hs.
  apply (FindByID_answer clean) in Hf as [Hst _]; [|by eapply (CInv_same clean)].
  apply (same_stored clean _ _ id f Hs) in Hst. split; [done|]. destruct Hst as (p & _ & _ & ? & ? & ?). done.
Qed.

Lemma update_plan_job cx id i o w f g w' : CInv (redis w) → clean_input clean i →
  update_plan ip_literal cx id i o w = (inr (inr (f, g)), w') → job_ok (MkJob cx AUpdate f g) ∧ stored (redis w) id f.
Proof.
  intros Hr Hi. unfold update_plan. destruct (negb (hasUpdate i)); [done|].
  intros (v & w1 & Hrun & Hrest)%bind_ok. destruct v as [[?|]|]; [done..|].
  apply bind_ok in Hrest as (f0 & w2 & Hf & (g0 & w3 & Hg & (t & w4 & _ & [= <- <- _])%bind_ok)%bind_ok).
  destruct (replay_then_find _ _ _ _ _ _ _ _ _ Hr Hrun Hf) as (Hst & Hgood & Hrep & Hid).
  destruct (updated ip_literal i f0) as [e|g1] eqn:Hu; [done|]. injection Hg as -> ->.
  destruct (updated_good clean ip_literal _ _ _ Hu Hgood Hi) as (Hg1 & H1 & H2 & H3 & H4).
  split; [|done]. pose proof (next_time_later t (fa_UpdatedAt f0)) as Hlt. split; [|left; exact Hlt].
  apply revision_of; cbn; try done; [|by rewrite H4|by left]. apply touch_good; [done|]. rewrite H3. lia.
Qed.

Lemma unchanged_same id fd f : unchanged fd f = true → fa_ID f = id → fa_IdempotentReplay f = false →
  flavor_from id fd (fa_CreatedAt f) (fa_UpdatedAt f) = f.
Proof.
  unfold unchanged, flavor_from. rewrite !andb_true_iff, !bool_decide_eq_true. intros ((((((<- & <-) & <-) & <-) & <-) & <-) & <-) <- Hrep.
  destruct f as [[] ? ?]; cbn in *. by subst.
Qed.

Lemma replace_plan_job cx id i o w f g w' : CInv (redis w) → clean_input clean i →
  replace_plan ip_literal cx id i o w = (inr (inr (f, g)), w') → job_ok (MkJob cx AReplace f g) ∧ stored (redis w) id f.
Proof.
  intros Hr Hi. unfold replace_plan. intros (v & w1 & Hrun & Hrest)%bind_ok. destruct v as [[?|]|]; [done..|].
  case_bool_decide; [done|]. apply bind_ok in Hrest as (fd & w2 & Hfd & (f0 & w3 & Hf & Hrest)%bind_ok).
  destruct (validateCreateInput ip_literal i) as [e|fd0] eqn:Hv; [done|]. injection Hfd as <- <-.
  destruct (replay_then_find _ _ _ _ _ _ _ _ _ Hr Hrun Hf) as (Hst & Hgood & Hrep & Hid).
  destruct (unchanged fd0 f0) eqn:Hun.
  - case_bool_decide as Hrq; [done|]. injection Hrest as <- <- _. split; [|done]. rewrite (unchanged_same id fd0 f0) by done.
    split; cbn; [by apply revision_of; try done; right|]. right. destruct (cc_request cx) as [rq|] eqn:Hc; [|done].
    exists rq. split; [done|]. by eapply replay_scope.
  - apply bind_ok in Hrest as (t & w4 & _ & [= <- <- _]). split; [|done].
    pose proof (next_time_later t (fa_UpdatedAt f0)) as Hlt. split; [|by left].
    apply revision_of; cbn; try done; [|by left]. apply (flavor_from_good clean ip_literal i); try done.
    + rewrite <-Hid. apply Hgood.
    + rewrite <-Hid. apply Hgood.
    + pose proof (gd_time _ _ Hgood). lia.
Qed.

Lemma archive_plan_job cx id o w f g w' : CInv (redis w) →
  archive_plan cx id o w = (inr (inr (f, g)), w') → job_ok (MkJob cx AArchive f g) ∧ stored (redis w) id f.
Proof.
  intros Hr. unfold archive_plan. intros (v & w1 & Hrun & Hrest)%bind_ok. destruct v as [?|]; [done|].
  apply bind_ok in Hrest as (f0 & w3 & Hf & Hrest).
  destruct (replay_then_find _ _ _ _ _ _ _ _ _ Hr Hrun Hf) as (Hst & Hgood & Hrep & Hid). destruct (fa_Active f0).
  - apply bind_ok in Hrest as (t & w4 & _ & [= <- <- _]). split; [|done].
    pose proof (next_time_later t (fa_UpdatedAt f0)) as Hlt. split; [|by left].
    apply revision_of; cbn; try done; [|by left]. apply touch_good; [by apply archived_good|]. cbn. lia.
  - case_bool_decide as Hrq; [done|]. injection Hrest as <- <- _. split; [|done].
    split; cbn; [by apply revision_of; try done; right|]. right. destruct (cc_request cx) as [rq|] eqn:Hc; [|done].
    exists rq. split; [done|]. by eapply replay_scope.
Qed.

Definition created_post (r r' : Redis) (g : FlavorAdmin) : Prop :=
  fa_IdempotentReplay g = false → stored r' (fa_ID g) g ∧ r !! KFlavor (fa_ID g) = None.

(** Without a key nothing is replayed. *)
Lemma create_unkeyed cx f o w g fl w' : repo_create pages cx f None o w = (inr (g, fl), w') → fl = false.
Proof.
  unfold repo_create. intros (rec & w1 & _ & (h & w2 & _ & (p & w3 & _ & Hrest)%bind_ok)%bind_ok)%bind_ok.
  apply bind_ok in Hrest as (q & w4 & [= <- <-] & (res & w5 & Hres & Hrest)%bind_ok).
  apply try_ok in Hres. apply rcall_cases in Hres as (t & a & r & Ha & _ & Hcase).
  assert (∀ body, a ≠ RReplay body) as Hno.
  { intros body ->. unfold createFlavorScript in Ha. rewrite bool_decide_eq_true_2 in Ha by done. repeat case_match; done. }
  destruct res as [e|[z| |body]]; [by repeat case_match..| |].
  - by injection Hrest as <- <- <-.
  - destruct Hcase as [[[= <-] _]|(e & ? & _)]; [by destruct (Hno body)|done].
Qed.

Lemma commits_map o {A B} (Q : Redis → Redis → A → Prop) (Q' : Redis → Redis → B → Prop) (m : M CatState CErr A) k :
  commits clean o Q m →
  (∀ w a w1, m o w = (inr a, w1) → ∃ b, k a o w1 = (inr b, w1) ∧ ∀ r r', Q r r' a → Q' r r' b) → commits clean o Q' (m ≫= k).
Proof.
  intros Hm Hk w res w' Hr Hrun. apply bind_cases in Hrun as [(e & Hrun & ->)|(a & w1 & Hrun & Hrest)];
    destruct (Hm _ _ _ Hr Hrun) as (H1 & H2 & H3); [done|].
  destruct (Hk _ _ _ Hrun) as (b & Hb & HQ). rewrite Hb in Hrest. injection Hrest as <- <-. split_and!; [done..|].
  intros b' [= <-]. by apply HQ, H3.
Qed.

Lemma cat_Create_commits o cx i : canonical_ids o → clean_input clean i →
  commits clean o created_post (cat_Create pages ip_literal cx i).
Proof.
  intros Ho Hi. assert (∀ r0 r r' b, same_catalog r0 r → created_post r r' b → created_post r0 r' b) as HQ.
  { intros r0 r r' b Hs Hp Hg. destruct (Hp Hg) as [? ?]. split; [done|]. by rewrite <-(flavor_same r0 r). }
  unfold cat_Create. apply commits_aside; [apply aside_lift|done|]. intros w fd w1 _ Hfd.
  destruct (validateCreateInput ip_literal i) as [e|fd'] eqn:Hv; [done|]. injection Hfd as -> ->.
  apply commits_aside; [apply aside_now|done|]. intros w2 now w3 _ _.
  apply commits_aside; [apply aside_uuid|done|]. intros w4 id w5 _ Hid. injection Hid as <- _.
  set (id := or_uuid o (w_tick w4)). set (f := flavor_from id fd now now).
  assert (fa_ID f ≠ uuid_nil → good f) as Hg by (intros Hne; apply (flavor_from_good clean ip_literal i); try done; apply Ho).
  destruct (cc_request cx) as [rq|].
  - eapply commits_map; [by apply (repo_create_commits clean pages o cx f (Some rq) Hg)|].
    intros w6 [g fl] w7 _. eexists. split; [done|]. intros r r' Hpost Hrep. destruct fl; [done|].
    destruct (Hpost eq_refl) as (Heq & ? & ?). cbn in *. by subst g.
  - eapply commits_map; [by apply (repo_create_commits clean pages o cx f None Hg)|].
    intros w6 [g fl] w7 Hrun. apply create_unkeyed in Hrun as ->. eexists. split; [done|]. intros r r' Hpost Hrep.
    destruct (Hpost eq_refl) as (Heq & ? & ?). cbn in *. by subst g.
Qed.

(** ** The system *)

Definition sys_ok s : Prop := CInv (store s) ∧ Forall job_ok (sy_jobs s).

Lemma plan_aside cx id i o w :
  same_catalog (redis w) (redis (update_plan ip_literal cx id i o w).2) ∧
  same_catalog (redis w) (redis (replace_plan ip_literal cx id i o w).2) ∧
  same_catalog (redis w) (redis (archive_plan cx id o w).2).
Proof.
  split_and!; revert o w.
  - unfold update_plan. destruct (negb _); [apply aside_throw|]. apply aside_bind; [apply aside_replay|].
    intros [[g|]|]; [apply aside_ret|apply aside_throw|]. apply aside_bind; [apply aside_find|]. intros f.
    apply aside_bind; [apply aside_lift|]. intros f'. apply aside_bind; [apply aside_now|]. intros t. apply aside_ret.
  - unfold replace_plan. apply aside_bind; [apply aside_replay|]. intros [[g|]|]; [apply aside_ret|apply aside_throw|].
    case_bool_decide; [apply aside_throw|]. apply aside_bind; [apply aside_lift|]. intros fd. apply aside_bind; [apply aside_find|].
    intros f. destruct (unchanged fd f); [case_bool_decide; apply aside_ret|]. apply aside_bind; [apply aside_now|]. intros t. apply aside_ret.
  - unfold archive_plan. apply aside_bind; [apply aside_replay|]. intros [g|]; [apply aside_ret|].
    apply aside_bind; [apply aside_find|]. intros f. destruct (fa_Active f); [apply aside_bind; [apply aside_now|intros t; apply aside_ret]|].
    case_bool_decide; apply aside_ret.
Qed.

(** A step of the system is at most one step of the catalog. *)
Lemma cat_step_ok P s s' : (∀ o, P o → canonical_ids o) → sys_ok s → cat_step P s s' → sys_ok s' ∧ cstep (store s) (store s').
Proof.
  intros HP [Hr Hj] Hstep. destruct Hstep as [st jobs cx i o n Ho Hi|st jobs cx id i o n f g w' Ho Hi Hrun|st jobs cx id i o n f g w' Ho Hi Hrun|st jobs cx id o n f g w' Ho Hrun|st jobs1 j jobs2 o n Ho|st jobs].
  - destruct (cat_Create pages ip_literal cx i o (begin st n)) as [res w'] eqn:Hrun.
    destruct (cat_Create_commits o cx i (HP o Ho) Hi (begin st n) res w' Hr Hrun) as (H1 & H2 & _). by split.
  - pose proof (proj1 (update_plan_job _ _ _ _ (begin st n) _ _ _ Hr Hi Hrun)) as Hjob.
    pose proof (plan_aside cx id i o (begin st n)) as (Hs & _ & _). rewrite Hrun in Hs.
    split; [|by apply cs_same]. split; [by eapply (CInv_same clean)|]. apply Forall_app. by split; [|constructor].
  - pose proof (proj1 (replace_plan_job _ _ _ _ (begin st n) _ _ _ Hr Hi Hrun)) as Hjob.
    pose proof (plan_aside cx id i o (begin st n)) as (_ & Hs & _). rewrite Hrun in Hs.
    split; [|by apply cs_same]. split; [by eapply (CInv_same clean)|]. apply Forall_app. by split; [|constructor].
  - pose proof (proj1 (archive_plan_job _ _ _ (begin st n) _ _ _ Hr Hrun)) as Hjob.
    pose proof (plan_aside cx id (MkFlavorInput None None None None None None None) o (begin st n)) as (_ & _ & Hs). rewrite Hrun in Hs.
    split; [|by apply cs_same]. split; [by eapply (CInv_same clean)|]. apply Forall_app. by split; [|constructor].
  - cbn in Hj. apply Forall_app in Hj as [Hj1 [Hj Hj2]%Forall_cons]. destruct Hj as [Hrv Hor].
    destruct (repo_Update (jb_cx j) (jb_action j) (jb_read j) (jb_write j) o (begin st n)) as [res w'] eqn:Hrun.
    destruct (repo_Update_commits clean o _ _ _ _ Hrv Hor (begin st n) res w' Hr Hrun) as (H1 & H2 & _).
    split; [|done]. split; [done|]. apply Forall_app. by split.
  - split; [|by apply cs_same]. by split; [|constructor].
Qed.

Lemma reach_ok P s0 s : (∀ o, P o → canonical_ids o) → sys_ok s0 → rtc (cat_step P) s0 s → sys_ok s.
Proof. intros HP Hs Hr. induction Hr as [|x y z Hxy Hyz IH]; [done|]. apply IH. by eapply cat_step_ok in Hxy as [? _]. Qed.
Lemma catalog_start_ok : sys_ok cat_start.
Proof. split; [apply CInv_empty|constructor]. Qed.

(** C24.  In every state the catalog can reach - whatever requests, failing and
    lost Redis calls, interleavings of reads and writes, and restarts led there -
    every stored flavor decodes to a flavor under its own id that satisfies all
    validation rules, is listed, owns its name and has an audit trail that ends
    with its present state; no two flavors bear the same name, up to case and
    surrounding space; and every listed id is a stored flavor. *)
Theorem catalog_invariant s : rtc (cat_step canonical_ids) cat_start s →
  let r := store s in
  (∀ id v, r !! KFlavor id = Some v → ∃ f, stored r id f ∧ audited r id f ∧ r !! nameKey (fa_Name f) = Some (VStr id None)) ∧
  (∀ id1 id2 f1 f2, stored r id1 f1 → stored r id2 f2 →
     lower (trim_space (fa_Name f1)) = lower (trim_space (fa_Name f2)) → id1 = id2) ∧
  (∀ id, is_Some (r !! KFlavor id) ↔ ∃ m, r !! KIds = Some (VSet m) ∧ id ∈ m).
Proof.
  intros Hr r. destruct (reach_ok _ _ _ (λ o H, H) catalog_start_ok Hr) as [HI _]. split_and!.
  - intros id v Hv. destruct (ci_flavor _ _ HI _ _ Hv) as (f & ? & ? & ?). eauto.
  - intros id1 id2 f1 f2. by apply (name_unique clean).
  - apply HI.
Qed.

(** C25.  No update is lost and no change goes unrecorded.  Every step of the
    system changes at most one flavor: it appears, with one audit record, or
    its fields change, with its id and creation time kept, its update time
    moved forward and exactly one audit record appended that names the changed
    fields and the states before and after.  And when a mutation answers with
    success, and not with an earlier answer, what it had read was still stored
    at that moment: nobody had changed the flavor in between. *)
Theorem no_lost_update s : rtc (cat_step canonical_ids) cat_start s →
  (∀ s', cat_step canonical_ids s s' → cstep (store s) (store s')) ∧
  (∀ j o n g w', j ∈ sy_jobs s →
     repo_Update (jb_cx j) (jb_action j) (jb_read j) (jb_write j) o (begin (sy_state s) n) = (inr g, w') →
     fa_IdempotentReplay g = false →
     g = jb_write j ∧ stored (store s) (fa_ID g) (jb_read j) ∧ stored (redis w') (fa_ID g) g).
Proof.
  intros Hr. pose proof (reach_ok _ _ _ (λ o H, H) catalog_start_ok Hr) as [HI Hj]. split.
  - intros s' Hstep. by eapply cat_step_ok in Hstep as [_ ?].
  - intros j o n g w' Hin Hrun Hrep. rewrite Forall_forall in Hj. destruct (Hj j Hin) as [Hrv Hor].
    destruct (repo_Update_commits clean o _ _ _ _ Hrv Hor (begin (sy_state s) n) _ w' HI Hrun) as (_ & _ & H3).
    destruct (H3 g eq_refl Hrep) as (-> & ? & ?). done.
Qed.
End claims.
