(* ===== verification/CatReads.v ===== *)
(** Catalog service: what readers see.  [Get], [BatchGet] and [List] show
    exactly the stored flavors the reader may see, and change nothing. *)

From S2P Require Import Prelude Effects GoStd InvModel CatModel CatService CatInv CatSystem CatIdem CatClaims.

Section reads.
Context {uuid : UuidLib} {lib : CatLib} {acl : RedisAcl} (clean : string → Prop) {laws : CatLaws clean}.
Context (pages : list (list string)) (ip_literal : string → bool).
Implicit Types (r : Redis) (f : FlavorAdmin) (o : oracle) (w : world CatState) (s : Sys).
#[local] Abbreviation CInv := (CInv clean).
#[local] Abbreviation stored := (stored clean).
#[local] Abbreviation redis w := (cs_redis (w_db w)).
#[local] Abbreviation store s := (cs_redis (sy_state s)).
#[local] Abbreviation begin st n := (World st n false []).

(** ** The order of a list *)

#[local] Instance by_name_total : Total by_name.
Proof.
  intros f g. unfold by_name. rewrite (bool_decide_ext (lower (fa_Name g) = _) (lower (fa_Name f) = lower (fa_Name g))) by done.
  case_bool_decide; apply (total String.le).
Qed.
#[local] Instance by_name_trans : Transitive by_name.
Proof.
  intros f g h. unfold by_name. repeat case_bool_decide; try congruence; intros Hfg Hgh.
  - by transitivity (fa_ID g).
  - exfalso. match goal with H : lower (fa_Name f) ≠ _ |- _ => apply H end.
    apply (anti_symm String.le); [done|]. congruence.
  - by transitivity (lower (fa_Name g)).
Qed.

Lemma filter_sorted {A} (R : A → A → Prop) (P : A → Prop) `{∀ x, Decision (P x)} (l : list A) :
  StronglySorted R l → StronglySorted R (filter P l).
Proof.
  induction 1 as [|x l Hl IH Hx]; [constructor|]. rewrite filter_cons. case_decide; [|done]. constructor; [done|].
  rewrite Forall_forall in *. intros y [_ Hy]%list_elem_of_filter. auto.
Qed.

(** ** The repository *)

Lemma stored_uuid r id f : stored r id f → uuid_parse id = Some id.
Proof. intros (p & _ & _ & Hg & <- & _). apply Hg. Qed.

(** The flavors behind listed ids. *)
Lemma pipeline_reads t r ids : Forall (λ id, ∃ f, stored r id f) ids →
  ∃ fs, exec_error (pipeline_get ids t r) = None ∧ decode_flavors (pipeline_get ids t r) = inr fs ∧ Forall2 (stored r) ids fs.
Proof.
  induction 1 as [|id ids [f Hf] _ (fs & He & Hd & H2)]; [by exists []|]. exists (f :: fs).
  unfold pipeline_get in *. cbn. rewrite (stored_uuid _ _ _ Hf). cbn.
  destruct (stored_look clean r t id f Hf) as (p & -> & _ & Hp). cbn. rewrite Hp, Hd. split_and!; [done..|by constructor].
Qed.

Lemma listed_flavors r ids fs : Forall2 (stored r) ids fs → NoDup ids →
  NoDup fs ∧ ∀ f, f ∈ fs ↔ stored r (fa_ID f) f ∧ fa_ID f ∈ ids.
Proof.
  intros H2. assert (ids = (λ f, fa_ID f) <$> fs) as ->.
  { induction H2 as [|id f ids fs (p & _ & _ & _ & <- & _) _ IH]; [done|]. cbn. by rewrite <-IH. }
  intros Hnd. split; [by eapply NoDup_fmap_1|]. intros f. split.
  - intros Hin. split; [|apply (list_elem_of_fmap_2 (λ f, fa_ID f)), Hin]. apply list_elem_of_lookup in Hin as [k Hk].
    eapply Forall2_lookup_r in H2 as (id & Hid & Hst); [|done]. rewrite list_lookup_fmap, Hk in Hid. by injection Hid as <-.
  - intros [Hst (g & Heq & Hg)%list_elem_of_fmap]. apply list_elem_of_lookup in Hg as [k Hk].
    eapply Forall2_lookup_r in H2 as (id & Hid & Hst'); [|done]. rewrite list_lookup_fmap, Hk in Hid. injection Hid as <-.
    rewrite <-Heq in Hst'. rewrite (stored_inj clean r (fa_ID f) f g Hst Hst'). by apply list_elem_of_lookup_2 in Hk.
Qed.

Lemma ids_look t r : CInv r → rlook t KIds r = r !! KIds.
Proof. intros Hr. unfold rlook. by destruct (ci_ids _ _ Hr) as [->|[m ->]]. Qed.

(** A whole list, or an error of Redis. *)
Lemma repo_List_reads o w : CInv (redis w) →
  (∃ fs w', repo_List o w = (inr fs, w') ∧ w_db w' = w_db w ∧ StronglySorted by_name fs ∧ NoDup fs ∧
    ∀ f, f ∈ fs ↔ stored (redis w) (fa_ID f) f) ∨
  (∃ e n w', repo_List o w = (inl (ERedis e), w') ∧ w_db w' = w_db w ∧ or_fault o n = Some e).
Proof.
  intros Hr. unfold repo_List, mbind, M_bind, rread, rcall. cbn. destruct w as [[r ready] n ab lk]. cbn in *.
  destruct (or_fault o n) as [e|] eqn:He; [right; exists e, n; eexists; split_and!; [done| |done]; by destruct (or_landed o n)|].
  rewrite (ids_look _ _ Hr). destruct (ci_ids _ _ Hr) as [Hm|[m Hm]]; rewrite Hm.
  { left. exists []. eexists. split_and!; [done|done|constructor|constructor|]. intros f. split; [set_solver|].
    intros (p & Hp & _). destruct (proj1 (ci_listed _ _ Hr (fa_ID f)) (ex_intro _ _ Hp)) as (m & Hm' & _). congruence. }
  cbn. set (ids := merge_sort String.le (elements m)). assert (ids ≡ₚ elements m) as Hperm by apply merge_sort_Permutation.
  assert (∀ id, id ∈ ids ↔ is_Some (r !! KFlavor id)) as Hids.
  { intros id. rewrite Hperm, elem_of_elements, (ci_listed _ _ Hr), Hm. split; [eauto|]. by intros (m' & [= <-] & ?). }
  case_bool_decide as Hnone.
  { left. exists []. eexists. split_and!; [done|done|constructor|constructor|]. intros f. split; [set_solver|]. intros Hst.
    assert (fa_ID f ∈ omap uuid_parse ids) as Hin; [|by rewrite Hnone in Hin; apply not_elem_of_nil in Hin].
    apply list_elem_of_omap. exists (fa_ID f). split; [|by eapply stored_uuid]. apply Hids. destruct Hst as (p & ? & _). eauto. }
  cbn. destruct (or_fault o (S n)) as [e|] eqn:He'; [right; exists e, (S n); eexists; split_and!; [done| |done]; by destruct (or_landed o (S n))|].
  destruct (pipeline_reads (or_clock o (S n)) r ids) as (fs & -> & -> & H2).
  { apply Forall_forall. intros id [v Hv]%Hids. destruct (ci_flavor _ _ Hr _ _ Hv) as (f & ? & _). eauto. }
  apply listed_flavors in H2 as [Hnd Hin]; [|rewrite Hperm; apply NoDup_elements].
  left. eexists _, _. split_and!; [done|done|apply (StronglySorted_merge_sort by_name)| |].
  - by rewrite merge_sort_Permutation.
  - intros f. rewrite merge_sort_Permutation, Hin, Hids. split; [by intros [? _]|]. intros Hst. split; [done|].
    destruct Hst as (p & ? & _). eauto.
Qed.

Lemma FindByID_reads id o w : CInv (redis w) → ∃ res w', FindByID id o w = (res, w') ∧ w_db w' = w_db w ∧
  ((∃ f, res = inr f ∧ stored (redis w) id f) ∨ (res = inl ENotFound ∧ redis w !! KFlavor id = None) ∨
   ∃ e n, res = inl (ERedis e) ∧ or_fault o n = Some e).
Proof.
  intros Hr. unfold FindByID, mbind, M_bind, rread, rcall. cbn. destruct w as [[r ready] n ab lk]. cbn in *.
  destruct (or_fault o n) as [e|] eqn:He; [eexists _, _; split_and!; [done|by destruct (or_landed o n)|eauto 10]|].
  destruct (rlook (or_clock o n) (KFlavor id) r) as [v|] eqn:Hl.
  - destruct (CInv_look clean _ _ _ _ Hr Hl) as (f & p & -> & Hst & -> & _). eexists _, _. split_and!; [done|done|eauto].
  - eexists _, _. split_and!; [done|done|]. right. left. split; [done|]. eapply (CInv_absent clean); [done|left; by eexists|done].
Qed.

(** ** The service *)

(** What a reader may see. *)
Definition shown r (scope : ReadScope) f : Prop := stored r (fa_ID f) f ∧ visible scope f = true.

Lemma cat_Get_reads id scope o w : CInv (redis w) → ∃ res w', cat_Get id scope o w = (res, w') ∧ w_db w' = w_db w ∧
  ((∃ f, res = inr (fa_Flavor f) ∧ fa_ID f = id ∧ shown (redis w) scope f) ∨
   (res = inl ENotFound ∧ ∀ f, shown (redis w) scope f → fa_ID f ≠ id) ∨
   ∃ e n, res = inl (ERedis e) ∧ or_fault o n = Some e).
Proof.
  intros Hr. destruct (FindByID_reads id o w Hr) as (res & w' & Hrun & Hw & Hcase).
  unfold cat_Get, mbind, M_bind. rewrite Hrun. destruct Hcase as [(f & -> & Hst)|[[-> Hn]|(e & n & -> & He)]].
  - pose proof Hst as (p & _ & _ & _ & <- & _). destruct (visible scope f) eqn:Hv; eexists _, _; split_and!; [done|done| |done|done|].
    + left. by exists f.
    + right. left. split; [done|]. intros g [Hg Hv'] Heq. rewrite Heq in Hg. rewrite (stored_inj clean _ _ g f Hg Hst) in Hv'. congruence.
  - eexists _, _. split_and!; [done|done|]. right. left. split; [done|]. intros f [(p & Hp & _) _] <-. congruence.
  - eexists _, _. split_and!; [done|done|eauto 10].
Qed.

Lemma get_all_reads ids scope o w : CInv (redis w) → ∃ res w', get_all scope ids o w = (res, w') ∧ w_db w' = w_db w ∧
  ((∃ fs, res = inr (fa_Flavor <$> fs) ∧ (λ f, fa_ID f) <$> fs = ids ∧ Forall (shown (redis w) scope) fs) ∨
   (res = inl ENotFound ∧ ∃ id, id ∈ ids ∧ ∀ f, shown (redis w) scope f → fa_ID f ≠ id) ∨
   ∃ e n, res = inl (ERedis e) ∧ or_fault o n = Some e).
Proof.
  revert w. induction ids as [|id ids IH]; intros w Hr.
  { eexists _, w. split_and!; [done|done|]. left. by exists []. }
  destruct (cat_Get_reads id scope o w Hr) as (res & w1 & Hrun & Hw1 & Hcase). cbn [get_all]. unfold mbind, M_bind. rewrite Hrun.
  destruct Hcase as [(f & -> & Hid & Hf)|[[-> Hn]|(e & n & -> & He)]].
  - destruct (IH w1) as (res2 & w2 & -> & Hw2 & Hcase); [by rewrite Hw1|]. rewrite Hw1 in Hcase.
    destruct Hcase as [(fs & -> & <- & Hfs)|[(-> & id' & Hin & Hn)|(e & n & -> & He)]]; eexists _, w2; (split_and!; [done|congruence|]).
    + left. exists (f :: fs). split_and!; [done|cbn; congruence|by constructor].
    + right. left. split; [done|]. exists id'. split; [by right|done].
    + eauto 10.
  - eexists _, w1. split_and!; [done|done|]. right. left. split; [done|]. exists id. split; [by left|done].
  - eexists _, w1. split_and!; [done|done|eauto 10].
Qed.

(** C27.  Readers see exactly what is there.  In every reachable state: [Get]
    answers with the flavor stored under the id when the reader may see it and
    with not-found exactly when there is no such flavor; [BatchGet] answers a
    batch of 1 to 100 distinct ids with exactly those flavors in the order
    asked for, or with no part of them when one of them cannot be shown; [List]
    answers with every flavor the reader may see and the filter admits, each
    once, ordered by name.  An archived flavor is shown to no public reader, the
    only other answers are errors of Redis itself, and nothing is changed. *)
Theorem catalog_reads s scope o n : rtc (cat_step clean pages ip_literal canonical_ids) cat_start s →
  let r := store s in
  let w := begin (sy_state s) n in
  let redis_failed {A} (res : CErr + A) := ∃ e k, res = inl (ERedis e) ∧ or_fault o k = Some e in
  (∀ f, shown r PublicRead f → fa_Active f = true) ∧
  (∀ id, ∃ res w', cat_Get id scope o w = (res, w') ∧ sy_state s = w_db w' ∧
     ((∃ f, res = inr (fa_Flavor f) ∧ fa_ID f = id ∧ shown r scope f) ∨
      (res = inl ENotFound ∧ ∀ f, shown r scope f → fa_ID f ≠ id) ∨ redis_failed res)) ∧
  (∀ ids, NoDup ids → (1 ≤ length ids ≤ 100)%nat → ∃ res w', cat_BatchGet ids scope o w = (res, w') ∧ sy_state s = w_db w' ∧
     ((∃ fs, res = inr (fa_Flavor <$> fs) ∧ (λ f, fa_ID f) <$> fs = ids ∧ Forall (shown r scope) fs) ∨
      (res = inl ENotFound ∧ ∃ id, id ∈ ids ∧ ∀ f, shown r scope f → fa_ID f ≠ id) ∨ redis_failed res)) ∧
  (∀ active, ∃ res w', cat_List active scope o w = (res, w') ∧ sy_state s = w_db w' ∧
     ((∃ fs, res = inr (fa_Flavor <$> fs) ∧ StronglySorted by_name fs ∧ NoDup fs ∧
         ∀ f, f ∈ fs ↔ shown r scope f ∧ ∀ a, active = Some a → fa_Active f = a) ∨ redis_failed res)).
Proof.
  intros Hreach r w redis_failed. destruct (reach_ok clean pages ip_literal _ _ _ (λ o H, H) (catalog_start_ok clean) Hreach) as [HI _].
  split_and!.
  - intros f [_ Hv]. unfold visible in Hv. by rewrite orb_false_r in Hv.
  - intros id. destruct (cat_Get_reads id scope o w HI) as (res & w' & ? & ? & ?). eauto.
  - intros ids Hnd Hlen. unfold cat_BatchGet. rewrite !bool_decide_eq_false_2 by lia. rewrite bool_decide_eq_true_2 by done. cbn.
    destruct (get_all_reads ids scope o w HI) as (res & w' & ? & ? & ?). eauto.
  - intros active. unfold cat_List, mbind, M_bind.
    destruct (repo_List_reads o w HI) as [(fs & w' & -> & Hw & Hs & Hnd & Hin)|(e & k & w' & -> & Hw & He)].
    + eexists _, w'. split_and!; [done|done|]. left. eexists. split_and!; [done|by apply filter_sorted|by apply NoDup_filter|].
      intros f. rewrite list_elem_of_filter, Hin. unfold shown. destruct (visible scope f); cbn; [|naive_solver].
      destruct active as [a|]; [rewrite bool_decide_eq_true|]; naive_solver.
    + eexists _, w'. split_and!; [done|done|]. right. by exists e, k.
Qed.
End reads.
