(* ===== verification/CatCreate.v ===== *)
(** Catalog service: a keyed request takes effect once.  For a day after it
    did, every request with its key gets the first answer or is refused, and
    changes nothing. *)

From S2P Require Import Prelude Effects GoStd InvModel CatModel CatService CatInv CatSystem CatIdem CatClaims.

Section once.
Context {uuid : UuidLib} {lib : CatLib} {acl : RedisAcl} (clean : string → Prop) {laws : CatLaws clean}.
Context (pages : list (list string)) (ip_literal : string → bool).
Implicit Types (r : Redis) (f g : FlavorAdmin) (o : oracle) (w : world CatState) (s : Sys).
#[local] Abbreviation CInv := (CInv clean).
#[local] Abbreviation redis w := (cs_redis (w_db w)).
#[local] Abbreviation store s := (cs_redis (sy_state s)).
#[local] Abbreviation begin st n := (World st n false []).
#[local] Abbreviation cat_step := (cat_step clean pages ip_literal).

(** ** Runs keep the cached answers *)

(** Environments whose clocks stay before [T]. *)
Definition before (T : Z) (o : oracle) : Prop := canonical_ids o ∧ ∀ n, or_clock o n < T.

Lemma kept_cat_Create timely T cx i : kept timely T (cat_Create pages ip_literal cx i).
Proof.
  unfold cat_Create. apply kept_bind; [apply kept_lift|]. intros fd. apply kept_bind; [apply kept_now|]. intros now.
  apply kept_bind; [apply kept_uuid|]. intros id. destruct (cc_request cx).
  - apply kept_bind; [apply kept_create; exact ip_literal|]. intros [g fl]. apply kept_ret.
  - apply kept_bind; [apply kept_create; exact ip_literal|]. intros [g fl]. apply kept_ret.
Qed.

Lemma cat_step_keeps P timely T s s' : (∀ o, P o → timely → ∀ n, or_clock o n < T) → cat_step P s s' → keeps timely T (store s) (store s').
Proof.
  intros HP Hstep. destruct Hstep as [st jobs cx i o n Ho Hi|st jobs cx id i o n f g w' Ho Hi Hrun|st jobs cx id i o n f g w' Ho Hi Hrun|st jobs cx id o n f g w' Ho Hrun|st jobs1 j jobs2 o n Ho|st jobs].
  - apply (kept_cat_Create timely T cx i o (begin st n)). auto.
  - destruct (kept_plans ip_literal timely T cx id i) as (H & _ & _). specialize (H o (begin st n) (HP o Ho)). by rewrite Hrun in H.
  - destruct (kept_plans ip_literal timely T cx id i) as (_ & H & _). specialize (H o (begin st n) (HP o Ho)). by rewrite Hrun in H.
  - destruct (kept_plans ip_literal timely T cx id (MkFlavorInput None None None None None None None)) as (_ & _ & H).
    specialize (H o (begin st n) (HP o Ho)). by rewrite Hrun in H.
  - apply (kept_update timely T _ _ _ _ o (begin st n)). auto.
  - done.
Qed.

Lemma reach_keeps P timely T s s' : (∀ o, P o → timely → ∀ n, or_clock o n < T) → rtc (cat_step P) s s' → keeps timely T (store s) (store s').
Proof. intros HP. induction 1 as [|x y z Hxy Hyz IH]; [done|]. etrans; [by eapply cat_step_keeps|done]. Qed.

Lemma reach_canonical s : rtc (cat_step canonical_ids) cat_start s → canonical_keys (store s).
Proof.
  intros Hr. eapply (reach_keeps canonical_ids False 0) in Hr; [|done]. apply Hr. intros raw v Hv. exact (False_ind _ (lookup_empty_Some _ _ Hv)).
Qed.

(** ** Parts that change nothing at all *)

Definition still {A} (m : M CatState CErr A) : Prop := ∀ o w, w_db (m o w).2 = w_db w.

Lemma still_ret {A} (a : A) : still (mret a).
Proof. done. Qed.
Lemma still_throw {A} e : still (throw e : M CatState CErr A).
Proof. done. Qed.
Lemma still_bind {A B} (m : M CatState CErr A) (k : A → M CatState CErr B) : still m → (∀ a, still (k a)) → still (m ≫= k).
Proof.
  intros Hm Hk o w. specialize (Hm o w). unfold mbind, M_bind. destruct (m o w) as [[e|a] w1]; [done|].
  cbn in Hm. by rewrite Hk.
Qed.
Lemma still_try_read {A} (g : Z → Redis → A) : still (try (rread g) : M CatState CErr (CErr + A)).
Proof.
  intros o w. unfold try, rread, rcall. destruct w as [[r b] n ab l]. cbn. destruct (or_fault o n); cbn; [by destruct (or_landed o n)|done].
Qed.
Lemma still_record cx a b f : still (NewRecord cx a b f).
Proof.
  unfold NewRecord. destruct (ManagerID cx); [|done]. destruct (_ || _); [done|]. by apply still_bind.
Qed.
Lemma still_some j e : still (match j with Some s => mret s | None => throw e end : M CatState CErr string).
Proof. by destruct j. Qed.
Lemma still_encode j : still (encode j).
Proof. by destruct j. Qed.
Lemma still_lookup cx a id rq : still (LookupMutation cx a id rq).
Proof.
  unfold LookupMutation. destruct (mutationFingerprint _ _ _ _) as [e|[hash status]]; [done|].
  apply still_bind; [apply still_try_read|]. intros [e|[[]|]]; by repeat case_match.
Qed.

(** ** A mutation that took effect is cached *)

Definition reply_body (status : Z) (payload : string) : string := if bool_decide (status = 204) then "" else payload.

Lemma fingerprint_hash cx a id rq hash status : mutationFingerprint cx a id rq = inr (hash, status) →
  hash_ok hash = true ∧ (status = 204 ↔ a = AArchive) ∧ (status = 200 ∨ status = 204).
Proof.
  unfold mutationFingerprint. destruct (ManagerID cx); [|done]. destruct (method_of a) as [[m st]|] eqn:Hm; [|done].
  destruct (_ || _); [done|]. intros [= <- <-]. split; [apply jl_sha|]. destruct a; simplify_eq/=; naive_solver lia.
Qed.

Definition took_effect (cx : CCtx) (a : Action) (f' : FlavorAdmin) (rq : IdemRequest) (T : Z) r : Prop :=
  ∃ hash status payload, mutationFingerprint cx a (fa_ID f') rq = inr (hash, status) ∧ flavor_json f' = Some payload ∧
    r !! KMutation (rq_Key rq) = Some (VStr (reply_json (MkCachedReply hash status (reply_body status payload))) (Some T)).

Lemma updateIdempotent_effect cx a previous f' rq o w res w1 : CInv (redis w) → revision clean previous f' →
  updateIdempotent cx a previous f' rq o w = (res, w1) →
  redis w1 = redis w ∨ ∃ n, took_effect cx a f' rq (or_clock o n + IdemTTL) (redis w1).
Proof.
  intros Hr Hrv. unfold updateIdempotent. destruct (mutationFingerprint cx a (fa_ID f') rq) as [e|[hash status]] eqn:Hfp;
    [intros [= <- <-]; by left|].
  assert (∀ A (m : M CatState CErr A) (k : A → M CatState CErr FlavorAdmin) w2, redis w2 = redis w → still m →
    (m ≫= k) o w2 = (res, w1) → redis w1 = redis w ∨ ∃ a w3, m o w2 = (inr a, w3) ∧ redis w3 = redis w ∧ k a o w3 = (res, w1)) as Hpeel.
  { intros A m k w2 Hw2 Hm Hrun. specialize (Hm o w2). apply bind_cases in Hrun as [(e & Hrun & _)|(x & w3 & Hrun & Hrest)]; rewrite Hrun in Hm; cbn in Hm.
    - left. by rewrite Hm.
    - right. exists x, w3. by rewrite Hm. }
  intros Hrun. apply Hpeel in Hrun as [?|(rec & w2 & Hrec & Hw2 & Hrun)]; [by left| |done|apply still_record].
  apply record_facts in Hrec as (Hrec & _ & _ & Hbe & Hch).
  apply Hpeel in Hrun as [?|(history & w3 & Hh & Hw3 & Hrun)]; [by left| |done|apply still_some].
  apply Hpeel in Hrun as [?|(payload & w4 & Hp & Hw4 & Hrun)]; [by left| |done|apply still_some].
  apply Hpeel in Hrun as [?|(expected & w5 & He & Hw5 & Hrun)]; [by left| |done|apply still_some].
  destruct (record_json rec) eqn:Jr; [|done]. injection Hh as -> _. destruct (flavor_json f') eqn:Jf; [|done]. injection Hp as -> _.
  destruct (flavor_json previous) eqn:Jp; [|done]. injection He as -> _.
  apply bind_cases in Hrun as [(e & Hrun & _)|(v & w6 & Hrun & Hrest)]; [unfold try in Hrun; by destruct (rcall _ o w5)|].
  apply try_ok in Hrun. apply rcall_cases in Hrun as (t & x & r & Hz & -> & Hcase). rewrite Hw5 in Hz.
  assert (redis w1 = redis w6) as ->.
  { destruct v as [e|[z| |raw]]; repeat case_match; by injection Hrest as _ <-. }
  destruct (mutationReplayScript_ok clean _ previous f' rec payload expected history (redis w) Hr Hrv Jf Jp (Hrec _ eq_refl) (Hch _ eq_refl) Hbe
    _ _ _ _ _ _ (ex_intro _ _ eq_refl) Hz) as [(raw & c & _ & -> & _)|[(z & _ & _ & ->)|(_ & _ & _ & _ & _ & Hc)]].
  - left. destruct Hcase as [[_ ?]|(e & _ & [?|?])]; congruence.
  - left. destruct Hcase as [[_ ?]|(e & _ & [?|?])]; congruence.
  - destruct Hcase as [[_ Hw6]|(e & _ & [Hw6|Hw6])]; [right|right|left; congruence];
      exists (w_tick w5); exists hash, status, payload; rewrite Hw6; by split_and!.
Qed.

(** ** A request that finds the answer *)

Lemma decode_cached c hash status id orig : clean (ca_hash c) → clean (ca_body c) →
  decodeMutationReply (reply_json c) hash status id = inr orig →
  ca_hash c = hash ∧ ca_status c = status ∧ (status = 204 → orig = None) ∧
  (status ≠ 204 → ∃ f, flavor_of (ca_body c) = Some f ∧ fa_ID f = id ∧ orig = Some (set_replay true f)).
Proof.
  intros H1 H2. unfold decodeMutationReply. rewrite jl_reply by done. destruct (_ || _); [done|].
  destruct (negb (bool_decide (ca_hash c = hash))) eqn:Hh; [done|]. apply negb_false_iff, bool_decide_eq_true in Hh.
  destruct (negb (bool_decide (ca_status c = status))) eqn:Hs; [done|]. apply negb_false_iff, bool_decide_eq_true in Hs.
  case_bool_decide as H204.
  - case_bool_decide; [|done]. intros [= <-]. by split_and!.
  - destruct (flavor_of (ca_body c)) as [f|]; [|done]. case_bool_decide; [|done]. intros [= <-]. split_and!; try done. eauto.
Qed.

Section hit.
Context (T : Z) (c : CachedReply) (key : string) (Hch : clean (ca_hash c)) (Hcb : clean (ca_body c)).
Context (cx : CCtx) (rq : IdemRequest) (Hrq : cc_request cx = Some rq) (Hkey : rq_Key rq = key).
Context (o : oracle) (Ho : ∀ n, or_clock o n < T) (w : world CatState).
Context (Hw : redis w !! KMutation key = Some (VStr (reply_json c) (Some T))).

Lemma replay_hit a id v w' : replayMutation cx a id o w = (inr v, w') →
  ∃ orig, v = Some orig ∧ mutationFingerprint cx a id rq = inr (ca_hash c, ca_status c) ∧
    decodeMutationReply (reply_json c) (ca_hash c) (ca_status c) id = inr orig.
Proof.
  unfold replayMutation. rewrite Hrq. unfold LookupMutation. destruct (mutationFingerprint cx a id rq) as [e|[hash status]]; [done|].
  intros (res & w1 & Hres & Hrest)%bind_ok. apply try_ok in Hres. unfold rread in Hres.
  apply rcall_cases in Hres as (t & x & r & [= <- <-] & -> & [[-> _]|(e & -> & _)]); [|done].
  rewrite Hkey in Hrest. unfold rlook in Hrest. rewrite Hw in Hrest. cbn in Hrest. rewrite bool_decide_eq_true_2 in Hrest by done.
  destruct (decodeMutationReply (reply_json c) hash status id) as [e|orig] eqn:Hd; [done|]. injection Hrest as <- _.
  destruct (decode_cached _ _ _ _ _ Hch Hcb Hd) as (<- & <- & _). eauto.
Qed.

(** The answer of the replay, and nothing else happens. *)
Lemma still_replay a id : still (replayMutation cx a id).
Proof. unfold replayMutation. rewrite Hrq. apply still_lookup. Qed.

Lemma update_hit id i res w' : cat_Update ip_literal cx id i o w = (res, w') →
  redis w' = redis w ∧ ∀ g, res = inr g → mutationFingerprint cx AUpdate id rq = inr (ca_hash c, ca_status c) ∧
    ∃ f, flavor_of (ca_body c) = Some f ∧ g = set_replay true f.
Proof.
  unfold cat_Update. destruct (negb (hasUpdate i)); [intros [= <- <-]; done|]. intros Hrun. pose proof (still_replay AUpdate id o w) as Hs.
  apply bind_cases in Hrun as [(e & Hrun & ->)|(v & w1 & Hrun & Hrest)]; rewrite Hrun in Hs; cbn in Hs; [by rewrite Hs|].
  destruct (replay_hit _ _ _ _ Hrun) as (orig & -> & Hfp & Hd). destruct (fingerprint_hash _ _ _ _ _ _ Hfp) as (_ & H204 & _).
  destruct (decode_cached _ _ _ _ _ Hch Hcb Hd) as (_ & _ & _ & Hf). destruct Hf as (f & Hf & _ & ->); [by intros ?%H204|].
  injection Hrest as <- <-. rewrite Hs. split; [done|]. intros g [= <-]. eauto.
Qed.

Lemma replace_hit id i res w' : cat_Replace ip_literal cx id i o w = (res, w') →
  redis w' = redis w ∧ ∀ g, res = inr g → mutationFingerprint cx AReplace id rq = inr (ca_hash c, ca_status c) ∧
    ∃ f, flavor_of (ca_body c) = Some f ∧ g = set_replay true f.
Proof.
  unfold cat_Replace. intros Hrun. pose proof (still_replay AReplace id o w) as Hs.
  apply bind_cases in Hrun as [(e & Hrun & ->)|(v & w1 & Hrun & Hrest)]; rewrite Hrun in Hs; cbn in Hs; [by rewrite Hs|].
  destruct (replay_hit _ _ _ _ Hrun) as (orig & -> & Hfp & Hd). destruct (fingerprint_hash _ _ _ _ _ _ Hfp) as (_ & H204 & _).
  destruct (decode_cached _ _ _ _ _ Hch Hcb Hd) as (_ & _ & _ & Hf). destruct Hf as (f & Hf & _ & ->); [by intros ?%H204|].
  injection Hrest as <- <-. rewrite Hs. split; [done|]. intros g [= <-]. eauto.
Qed.

Lemma archive_hit id res w' : cat_Archive cx id o w = (res, w') →
  redis w' = redis w ∧ (res = inr tt → mutationFingerprint cx AArchive id rq = inr (ca_hash c, ca_status c)).
Proof.
  unfold cat_Archive. intros Hrun. pose proof (still_replay AArchive id o w) as Hs.
  apply bind_cases in Hrun as [(e & Hrun & ->)|(v & w1 & Hrun & Hrest)]; rewrite Hrun in Hs; cbn in Hs; [by rewrite Hs|].
  destruct (replay_hit _ _ _ _ Hrun) as (orig & -> & Hfp & _). injection Hrest as <- <-. by rewrite Hs.
Qed.

(** A request in flight finds it in its script. *)
Lemma commit_hit a previous f' : rq_Scope rq ≠ "" → redis (repo_Update cx a previous f' o w).2 = redis w.
Proof.
  intros Hsc. unfold repo_Update. rewrite Hrq. rewrite bool_decide_eq_false_2 by done. unfold updateIdempotent.
  destruct (mutationFingerprint cx a (fa_ID f') rq) as [e|[hash status]]; [done|].
  assert (∀ A (m : M CatState CErr A) (k : A → M CatState CErr FlavorAdmin) w2, w_db w2 = w_db w → still m →
    (∀ x w3, w_db w3 = w_db w → redis (k x o w3).2 = redis w) → redis ((m ≫= k) o w2).2 = redis w) as Hpeel.
  { intros A m k w2 Hw2 Hm Hk. specialize (Hm o w2). unfold mbind, M_bind. destruct (m o w2) as [[e|x] w3]; cbn in *; [congruence|].
    apply Hk. congruence. }
  apply Hpeel; [done|apply still_record|]. intros rec w2 H2. apply Hpeel; [done|apply still_some|]. intros history w3 H3.
  apply Hpeel; [done|apply still_some|]. intros payload w4 H4. apply Hpeel; [done|apply still_some|]. intros expected w5 H5.
  match goal with |- redis ((try (rcall ?g) ≫= ?k) o w5).2 = _ => set (scr := g); set (fin := k) end.
  assert (∀ t, t < T → (scr t (redis w)).2 = redis w) as Hscr.
  { intros t Ht. unfold scr, mutationReplayScript. rewrite Hkey. unfold types_ok, rtype, rget, rlook. rewrite Hw. cbn.
    rewrite (bool_decide_eq_true_2 (t < T)) by done. cbn. repeat case_match; done. }
  unfold mbind, M_bind, try, rcall. rewrite H5. specialize (Hscr (or_clock o (w_tick w5)) (Ho _)).
  destruct (scr _ (redis w)) as [x r]. cbn in Hscr. subst r.
  assert (∀ v w6, redis w6 = redis w → redis (fin v o w6).2 = redis w) as Hfin.
  { intros v w6 H6. unfold fin. destruct v as [e|[z| |raw]]; repeat case_match; done. }
  destruct (or_fault o (w_tick w5)).
  - apply (Hfin (inl _) (World _ _ _ _)). cbn. by destruct (or_landed _ _).
  - by apply (Hfin (inr x) (World _ _ _ _)).
Qed.
End hit.

(** ** Mutations *)

Lemma repo_Update_effect j rq o n s : sys_ok clean s → j ∈ sy_jobs s → cc_request (jb_cx j) = Some rq → rq_Scope rq ≠ "" →
  let w1 := (repo_Update (jb_cx j) (jb_action j) (jb_read j) (jb_write j) o (begin (sy_state s) n)).2 in
  redis w1 = store s ∨ ∃ m, took_effect (jb_cx j) (jb_action j) (jb_write j) rq (or_clock o m + IdemTTL) (redis w1).
Proof.
  intros [HI Hj] Hin Hrq Hsc. rewrite Forall_forall in Hj. destruct (Hj j Hin) as [Hrv _]. unfold repo_Update.
  rewrite Hrq, bool_decide_eq_false_2 by done.
  destruct (updateIdempotent _ _ _ _ _ o (begin (sy_state s) n)) as [res w1] eqn:Hrun.
  exact (updateIdempotent_effect _ _ _ _ _ o (begin (sy_state s) n) res w1 HI Hrv Hrun).
Qed.

Lemma reply_clean hash status payload f : hash_ok hash = true → flavor_json f = Some payload →
  let c := MkCachedReply hash status (reply_body status payload) in clean (ca_hash c) ∧ clean (ca_body c).
Proof.
  intros [_ Hh]%andb_true_iff Hp. split; [by apply jl_hex|]. cbn. unfold reply_body. case_bool_decide; [apply jl_empty|by eapply jl_body].
Qed.

(** What a keyed mutation in flight does, and what the key does afterwards. *)
Lemma mutation_once s j rq o n :
  rtc (cat_step canonical_ids) cat_start s → j ∈ sy_jobs s → cc_request (jb_cx j) = Some rq → rq_Scope rq ≠ "" →
  let w1 := (repo_Update (jb_cx j) (jb_action j) (jb_read j) (jb_write j) o (begin (sy_state s) n)).2 in
  redis w1 = store s ∨
  ∃ m, let T := or_clock o m + IdemTTL in
    ∀ jobs s' o' n' cx' rq', rtc (cat_step (before T)) (MkSys (w_db w1) jobs) s' → before T o' →
      cc_request cx' = Some rq' → rq_Key rq' = rq_Key rq →
      let same a id := mutationFingerprint cx' a id rq' = mutationFingerprint (jb_cx j) (jb_action j) (fa_ID (jb_write j)) rq in
      let w := begin (sy_state s') n' in
      (∀ id i res w2, cat_Update ip_literal cx' id i o' w = (res, w2) →
         redis w2 = store s' ∧ ∀ g, res = inr g → same AUpdate id ∧ g = set_replay true (jb_write j)) ∧
      (∀ id i res w2, cat_Replace ip_literal cx' id i o' w = (res, w2) →
         redis w2 = store s' ∧ ∀ g, res = inr g → same AReplace id ∧ g = set_replay true (jb_write j)) ∧
      (∀ id res w2, cat_Archive cx' id o' w = (res, w2) → redis w2 = store s' ∧ (res = inr tt → same AArchive id)) ∧
      (∀ a f g, rq_Scope rq' ≠ "" → redis (repo_Update cx' a f g o' w).2 = store s').
Proof.
  intros Hreach Hin Hrq Hsc w1. pose proof (reach_ok clean pages ip_literal _ _ _ (λ o H, H) (catalog_start_ok clean) Hreach) as Hok.
  destruct (repo_Update_effect j rq o n s Hok Hin Hrq Hsc) as [Hsame|(m & hash & status & payload & Hfp & Hp & Hc)]; [by left|]. right.
  exists m. intros T jobs s' o' n' cx' rq' Hrtc [_ Ho'] Hrq' Hkey same w.
  pose proof (kept_update False T (jb_cx j) (jb_action j) (jb_read j) (jb_write j) o (begin (sy_state s) n) (λ H, match H with end)
    (reach_canonical s Hreach)) as [Hcan _].
  destruct (reach_keeps (before T) True T _ _ (λ o Hb _, proj2 Hb) Hrtc Hcan) as [_ Hkeep].
  specialize (Hkeep I (KMutation (rq_Key rq)) _ I Hc). rewrite <-Hkey in Hkeep.
  destruct (fingerprint_hash _ _ _ _ _ _ Hfp) as (Hh & _). destruct (reply_clean hash status payload _ Hh Hp) as [C1 C2].
  assert (good clean (jb_write j)) as Hg.
  { destruct Hok as [_ Hj]. rewrite Forall_forall in Hj. apply (Hj j Hin). }
  assert (∀ a id, a ≠ AArchive → mutationFingerprint cx' a id rq' = inr (hash, status) →
    ∀ f, flavor_of (reply_body status payload) = Some f → set_replay true f = set_replay true (jb_write j)) as Hans.
  { intros a id Ha Hfp' f. destruct (fingerprint_hash _ _ _ _ _ _ Hfp') as (_ & H204 & _). unfold reply_body.
    rewrite bool_decide_eq_false_2 by (by intros ?%H204). rewrite (jl_flavor _ _ (gd_clean _ _ Hg) Hp). by intros [= <-]. }
  unfold same. rewrite Hfp. split_and!.
  - intros id i res w2 Hrun. destruct (update_hit T _ _ C1 C2 cx' rq' Hrq' eq_refl o' Ho' w Hkeep id i res w2 Hrun) as [Hw Hres].
    split; [done|]. intros g Hg'. destruct (Hres g Hg') as (Hfp' & f & Hf & ->). split; [done|]. by apply (Hans AUpdate id).
  - intros id i res w2 Hrun. destruct (replace_hit T _ _ C1 C2 cx' rq' Hrq' eq_refl o' Ho' w Hkeep id i res w2 Hrun) as [Hw Hres].
    split; [done|]. intros g Hg'. destruct (Hres g Hg') as (Hfp' & f & Hf & ->). split; [done|]. by apply (Hans AReplace id).
  - intros id res w2 Hrun. exact (archive_hit T _ _ C1 C2 cx' rq' Hrq' eq_refl o' Ho' w Hkeep id res w2 Hrun).
  - intros a f g Hs. exact (commit_hit T _ _ cx' rq' Hrq' eq_refl o' Ho' w Hkeep a f g Hs).
Qed.
End once.

(** Catalog service: a keyed creation takes effect once. *)


Section create.
Context {uuid : UuidLib} {lib : CatLib} {acl : RedisAcl} (clean : string → Prop) {laws : CatLaws clean}.
Context (pages : list (list string)) (ip_literal : string → bool).
Implicit Types (r : Redis) (f g : FlavorAdmin) (o : oracle) (w : world CatState) (s : Sys).
#[local] Abbreviation CInv := (CInv clean).
#[local] Abbreviation good := (good clean).
#[local] Abbreviation stored := (stored clean).
#[local] Abbreviation redis w := (cs_redis (w_db w)).
#[local] Abbreviation store s := (cs_redis (sy_state s)).
#[local] Abbreviation begin st n := (World st n false []).
#[local] Abbreviation cat_step := (cat_step clean pages ip_literal).

(** ** A creation that took effect is cached *)

Definition was_created f (rq : IdemRequest) (T : Z) r : Prop :=
  ∃ payload, flavor_json f = Some payload ∧ hash_ok (rq_PayloadHash rq) = true ∧ stored r (fa_ID f) f ∧
    r !! KIdem (rq_Key rq) = Some (VStr (created_json (rq_PayloadHash rq) payload) (Some T)).

Lemma peel {A B} (m : M CatState CErr A) (k : A → M CatState CErr B) r o w res w1 : aside m → same_catalog r (redis w) →
  (m ≫= k) o w = (res, w1) →
  same_catalog r (redis w1) ∨ ∃ a w2, m o w = (inr a, w2) ∧ same_catalog r (redis w2) ∧ k a o w2 = (res, w1).
Proof.
  intros Hm Hs Hrun. specialize (Hm o w). apply bind_cases in Hrun as [(e & Hrun & _)|(a & w2 & Hrun & Hrest)]; rewrite Hrun in Hm; cbn in Hm.
  - left. by etrans.
  - right. exists a, w2. split_and!; [done|by etrans|done].
Qed.

(** The keys of a creation. *)
Lemma aside_keys (rq : IdemRequest) (payload : string) :
  aside (if negb (hash_ok (rq_PayloadHash rq)) then throw EIdemUnavailable
         else if negb (bool_decide (uuid_parse (rq_RawKey rq) = Some (rq_Key rq))) then throw EIdemUnavailable
         else PrepareIdempotency pages ;;
              mret (KIdem (rq_Key rq), KIdem (rq_RawKey rq), rq_PayloadHash rq, created_json (rq_PayloadHash rq) payload)
         : M CatState CErr (RKey * RKey * string * string)).
Proof.
  destruct (negb _); [apply aside_throw|]. destruct (negb _); [apply aside_throw|].
  apply aside_bind; [apply aside_prepare|]. intros ?. apply aside_ret.
Qed.

Lemma hash_not_empty h : hash_ok h = true → h ≠ "".
Proof. by intros H ->. Qed.

Lemma repo_create_effect cx f rq o w res w1 : CInv (redis w) → (fa_ID f ≠ uuid_nil → good f) →
  fa_IdempotentReplay f = false → fa_CreatedAt f = fa_UpdatedAt f → repo_create pages cx f (Some rq) o w = (res, w1) →
  same_catalog (redis w) (redis w1) ∨
  (∃ n, was_created f rq (or_clock o n + IdemTTL) (redis w1)) ∧ ∀ g fl, res = inr (g, fl) → g = f ∧ fl = false.
Proof.
  intros Hr Hg Hrep Ht Hrun. unfold repo_create in Hrun.
  apply (peel _ _ (redis w)) in Hrun as [?|(rec & w2 & Hrec & S2 & Hrun)]; [by left| |apply aside_record|done].
  apply record_facts in Hrec as (Hrec & Hnil & Hact & _). specialize (Hg Hnil).
  apply (peel _ _ (redis w)) in Hrun as [?|(history & w3 & Hh%encode_answer & S3 & Hrun)]; [by left| |apply aside_encode|done].
  apply (peel _ _ (redis w)) in Hrun as [?|(payload & w4 & Hp%encode_answer & S4 & Hrun)]; [by left| |apply aside_encode|done].
  apply (peel _ _ (redis w)) in Hrun as [?|(q & w5 & Hq & S5 & Hrun)]; [by left| |by apply aside_keys|done].
  destruct (hash_ok (rq_PayloadHash rq)) eqn:Hhash; [|done]. destruct (negb (bool_decide (uuid_parse _ = _))); [done|].
  cbn [negb] in Hq. apply bind_ok in Hq as ([] & w50 & _ & [= <- <-]).
  apply bind_cases in Hrun as [(e & Hrun & _)|(v & w6 & Hrun & Hrest)]; [unfold try in Hrun; by destruct (rcall _ o _)|].
  apply try_ok in Hrun. apply rcall_cases in Hrun as (t & y & r & Hz & -> & Hcase).
  destruct (createFlavorScript_ok clean _ f rec payload history _ _ (KIdem (rq_Key rq)) (KIdem (rq_RawKey rq)) _ (CInv_same clean _ _ S5 Hr) Hg Hrep Hp
    (Hrec _ Hh) I Ht Hact _ _ Hz) as (_ & _ & [(-> & Hst & _ & Hc)|[Hno ->]]).
  - assert (redis w1 = redis w6) as -> by (destruct v as [e|[z| |raw]]; repeat case_match; by injection Hrest as _ <-).
    destruct Hcase as [[-> ->]|(e & -> & [->| ->])]; [right|right|by left].
    + split; [|by injection Hrest as <- _; intros g fl [= <- <-]]. eexists. exists payload. split_and!; [done..|]. by apply Hc, hash_not_empty.
    + split; [|by injection Hrest as <- _]. eexists. exists payload. split_and!; [done..|]. by apply Hc, hash_not_empty.
  - left. assert (redis w1 = redis w6) as -> by (destruct v as [e|[z| |raw]]; repeat case_match; by injection Hrest as _ <-).
    destruct Hcase as [[_ ->]|(e & _ & [->| ->])]; done.
Qed.

(** ** A creation that finds the answer *)

(** Parts that change nothing while all keys are canonical. *)
Definition unmoved {A} (m : M CatState CErr A) : Prop := ∀ o w, canonical_keys (redis w) → redis (m o w).2 = redis w.

Lemma unmoved_bind {A B} (m : M CatState CErr A) (k : A → M CatState CErr B) : unmoved m → (∀ a, unmoved (k a)) → unmoved (m ≫= k).
Proof.
  intros Hm Hk o w Hc. specialize (Hm o w Hc). unfold mbind, M_bind. destruct (m o w) as [[e|a] w1]; [done|].
  cbn in Hm. rewrite Hk; [done|]. by rewrite Hm.
Qed.
Lemma unmoved_still {A} (m : M CatState CErr A) : still m → unmoved m.
Proof. intros Hm o w _. by rewrite Hm. Qed.
Lemma unmoved_for {A} (l : list A) k : (∀ x, unmoved (k x)) → unmoved (for_each l k).
Proof. intros Hk. induction l; [by apply unmoved_still|]. apply unmoved_bind; [done|]. by intros []. Qed.
Lemma unmoved_reconcile raw id : uuid_parse raw = Some id → raw ≠ id →
  unmoved (try (rcall (λ t r, (tt, reconcileIdempotencyScript (KIdem raw) (KIdem id) t r))) : M CatState CErr (CErr + unit)).
Proof.
  intros Hp Hne o w Hc. unfold try, rcall, reconcileIdempotencyScript. cbn.
  rewrite bool_decide_eq_true_2; [by destruct (or_fault _ _); cbn; [destruct (or_landed _ _)|]|].
  unfold rtype, rlook. destruct (redis w !! KIdem raw) as [v|] eqn:Hl; [|done]. apply Hc in Hl. congruence.
Qed.

Lemma unmoved_prepare : unmoved (PrepareIdempotency pages).
Proof.
  unfold PrepareIdempotency. apply unmoved_bind; [by intros o w|]. intros [|]; [by intros o w|].
  apply unmoved_bind; [|intros _; by intros o w]. apply unmoved_for. intros keys.
  apply unmoved_bind; [apply unmoved_still, still_try_read|]. intros [e|_]; [by intros o w|].
  apply unmoved_for. intros raw. destruct (uuid_parse raw) as [id|] eqn:Hp; [|by intros o w].
  case_bool_decide; [by intros o w|]. apply unmoved_bind; [by apply unmoved_reconcile|]. intros [e|_]; by intros o w.
Qed.

Section hit.
Context (T : Z) (key h body : string) (Hh : clean h) (Hb : clean body).
Context (o : oracle) (Ho : ∀ n, or_clock o n < T).

Lemma script_hit id kname klegacy payload history hash cached t r : t < T → hash ≠ "" →
  r !! KIdem key = Some (VStr (created_json h body) (Some T)) →
  createFlavorScript id kname (KIdem key) klegacy payload history hash cached t r =
    (if bool_decide (h = hash) then RReplay body else RCode (-5), r).
Proof.
  intros Ht Hne Hr. unfold createFlavorScript. rewrite bool_decide_eq_false_2 by done.
  unfold cached_create, types_ok, rtype, rget, rlook. cbn. rewrite Hr. cbn. rewrite (bool_decide_eq_true_2 (t < T)) by done. cbn.
  rewrite (jl_created h body Hh Hb).
  cbn. by destruct (bool_decide (h = hash)).
Qed.

Lemma repo_create_hit cx f rq w res w1 : rq_Key rq = key → canonical_keys (redis w) →
  redis w !! KIdem key = Some (VStr (created_json h body) (Some T)) → repo_create pages cx f (Some rq) o w = (res, w1) →
  redis w1 = redis w ∧ ∀ g fl, res = inr (g, fl) → rq_PayloadHash rq = h ∧ flavor_of body = Some g ∧ fl = true.
Proof.
  intros Hkey Hcan Hw Hrun. unfold repo_create in Hrun.
  assert (∀ A (m : M CatState CErr A) (k : A → M CatState CErr (FlavorAdmin * bool)) w2, redis w2 = redis w → unmoved m →
    (m ≫= k) o w2 = (res, w1) → (redis w1 = redis w ∧ ∃ e, res = inl e) ∨
    ∃ a w3, m o w2 = (inr a, w3) ∧ redis w3 = redis w ∧ k a o w3 = (res, w1)) as Hpeel.
  { intros A m k w2 Hw2 Hm Hrun2. specialize (Hm o w2). rewrite Hw2 in Hm. specialize (Hm Hcan).
    apply bind_cases in Hrun2 as [(e & Hrun2 & ->)|(x & w3 & Hrun2 & Hrest)]; rewrite Hrun2 in Hm; cbn in Hm; [left; eauto|right; eauto]. }
  assert (∀ P : Prop, (redis w1 = redis w ∧ ∃ e, res = inl e) ∨ P →
    (P → redis w1 = redis w ∧ ∀ g fl, res = inr (g, fl) → rq_PayloadHash rq = h ∧ flavor_of body = Some g ∧ fl = true) →
    redis w1 = redis w ∧ ∀ g fl, res = inr (g, fl) → rq_PayloadHash rq = h ∧ flavor_of body = Some g ∧ fl = true) as Hor.
  { intros P [[? [e ->]]|HP] Hk; [by split|by apply Hk]. }
  apply Hpeel in Hrun; [|done|apply unmoved_still, still_record]. eapply Hor; [exact Hrun|clear Hrun]. intros (rec & w2 & _ & H2 & Hrun).
  apply Hpeel in Hrun; [|done|apply unmoved_still, still_encode]. eapply Hor; [exact Hrun|clear Hrun]. intros (history & w3 & _ & H3 & Hrun).
  apply Hpeel in Hrun; [|done|apply unmoved_still, still_encode]. eapply Hor; [exact Hrun|clear Hrun]. intros (payload & w4 & _ & H4 & Hrun).
  apply Hpeel in Hrun; [|done|repeat case_match; try (by apply unmoved_still); apply unmoved_bind; [apply unmoved_prepare|intros ?; by apply unmoved_still]].
  eapply Hor; [exact Hrun|clear Hrun]. intros (q & w5 & Hq & H5 & Hrun).
  destruct (hash_ok (rq_PayloadHash rq)) eqn:Hhash; [|done]. destruct (negb (bool_decide (uuid_parse _ = _))); [done|].
  cbn [negb] in Hq. apply bind_ok in Hq as ([] & w50 & _ & [= <- <-]).
  apply bind_cases in Hrun as [(e & Hrun & _)|(v & w6 & Hrun & Hrest)]; [unfold try in Hrun; by destruct (rcall _ o _)|].
  apply try_ok in Hrun. apply rcall_cases in Hrun as (t & y & r & Hz & -> & Hcase). rewrite H5, Hkey in Hz.
  rewrite script_hit in Hz by (done || apply Ho || by apply hash_not_empty). injection Hz as <- <-.
  destruct Hcase as [[-> H6]|(e & -> & Hw6)].
  - case_bool_decide as Heq; [|injection Hrest as <- <-; done].
    destruct (flavor_of body) as [g|] eqn:Hf; [|injection Hrest as <- <-; done].
    case_bool_decide; injection Hrest as <- <-; [done|]. split; [done|]. intros g' fl [= <- <-]. done.
  - assert (redis w6 = redis w) as H6 by (destruct Hw6; congruence). injection Hrest as <- <-. done.
Qed.
End hit.

(** ** Creations *)

(** A keyed creation validates, then lets the repository create a fresh flavor. *)
Lemma cat_Create_cases cx i rq o w res w1 : cc_request cx = Some rq → cat_Create pages ip_literal cx i o w = (res, w1) →
  (redis w1 = redis w ∧ ∃ e, res = inl e) ∨
  ∃ f w2 rres, redis w2 = redis w ∧ fa_IdempotentReplay f = false ∧ fa_CreatedAt f = fa_UpdatedAt f ∧
    (canonical_ids o → clean_input clean i → fa_ID f ≠ uuid_nil → good f) ∧ repo_create pages cx f (Some rq) o w2 = (rres, w1) ∧
    res = match rres with inl e => inl e | inr (g, fl) => inr (if (fl : bool) then set_replay true g else g) end.
Proof.
  intros Hrq. unfold cat_Create. destruct (validateCreateInput ip_literal i) as [e|fd] eqn:Hv; [intros [= <- <-]; left; eauto|].
  rewrite Hrq. intros Hrun. right.
  apply bind_cases in Hrun as [(e & Hrun & _)|(fd' & w2 & [= <- <-] & Hrun)]; [done|].
  apply bind_cases in Hrun as [(e & Hrun & _)|(now' & w3 & Hnow & Hrun)]; [done|].
  apply bind_cases in Hrun as [(e & Hrun & _)|(id' & w4 & Hid & Hrun)]; [done|].
  assert (redis w4 = redis w) as Hw4 by (injection Hid as _ <-; injection Hnow as _ <-; done).
  destruct (repo_create pages cx (flavor_from id' fd now' now') (Some rq) o w4) as [rres w5] eqn:Hcr.
  exists (flavor_from id' fd now' now'), w4, rres. split; [done|]. split; [done|]. split; [done|]. split.
  - intros Ho Hi Hne. apply (flavor_from_good clean ip_literal i); try done. injection Hid as <- _. apply Ho.
  - apply bind_cases in Hrun as [(e & Hrun & ->)|([g fl] & w6 & Hrun & [= <- <-])]; rewrite Hrun in Hcr; by injection Hcr as <- <-.
Qed.

(** The same of a keyed creation. *)
Lemma creation_once s cx rq i o n res w1 :
  rtc (cat_step canonical_ids) cat_start s → canonical_ids o → clean_input clean i → cc_request cx = Some rq →
  cat_Create pages ip_literal cx i o (begin (sy_state s) n) = (res, w1) →
  same_catalog (store s) (redis w1) ∨
  ∃ f m, let T := or_clock o m + IdemTTL in
    stored (redis w1) (fa_ID f) f ∧ (∀ g, res = inr g → g = f) ∧
    ∀ jobs s' o' n' cx' rq' i' res' w2, rtc (cat_step (before T)) (MkSys (w_db w1) jobs) s' → before T o' →
      cc_request cx' = Some rq' → rq_Key rq' = rq_Key rq →
      cat_Create pages ip_literal cx' i' o' (begin (sy_state s') n') = (res', w2) →
      redis w2 = store s' ∧ ∀ g, res' = inr g → rq_PayloadHash rq' = rq_PayloadHash rq ∧ g = set_replay true f.
Proof.
  intros Hreach Ho Hi Hrq Hrun. pose proof (reach_ok clean pages ip_literal _ _ _ (λ o H, H) (catalog_start_ok clean) Hreach) as [HI _].
  pose proof (kept_cat_Create pages ip_literal False 0 cx i o (begin (sy_state s) n) (λ H, match H with end)
    (reach_canonical clean pages ip_literal s Hreach)) as [Hcan _]. rewrite Hrun in Hcan. cbn [snd] in Hcan.
  destruct (cat_Create_cases _ _ _ _ _ _ _ Hrq Hrun) as [[Hs _]|(f & w2 & rres & Hw2 & Hrep & Ht & Hg & Hcr & ->)]; [left; by rewrite Hs|].
  cbn in Hw2. rewrite <-Hw2 in HI. destruct (repo_create_effect _ _ _ _ _ _ _ HI (Hg Ho Hi) Hrep Ht Hcr) as [Hs|[(m & p & Hp & Hh & Hst & Hc) Hres]];
    [left; by rewrite <-Hw2|].
  right. exists f, m. split; [done|]. split.
  { intros g. destruct rres as [e|[g' fl]]; [done|]. destruct (Hres g' fl eq_refl) as [-> ->]. by intros [= <-]. }
  intros jobs s' o' n' cx' rq' i' res' w3 Hrtc [_ Ho'] Hrq' Hkey Hrun'.
  destruct (reach_keeps clean pages ip_literal (before _) True _ _ _ (λ o Hb _, proj2 Hb) Hrtc Hcan) as [Hcan' Hkeep].
  specialize (Hkeep I (KIdem (rq_Key rq)) _ I Hc).
  destruct (cat_Create_cases _ _ _ _ _ _ _ Hrq' Hrun') as [[Hs (e & ->)]|(f' & w4 & rres' & Hw4 & _ & _ & _ & Hcr' & ->)]; [by split|]. cbn in Hw4.
  assert (clean (rq_PayloadHash rq)) as C1 by (apply jl_hex; by apply andb_true_iff in Hh as [_ ?]).
  destruct (repo_create_hit _ _ _ _ C1 (jl_body _ _ Hp) o' Ho' cx' f' rq' w4 rres' w3 Hkey ltac:(by rewrite Hw4) ltac:(by rewrite Hw4) Hcr') as [Hw3 Hres'].
  split; [congruence|]. intros g. destruct rres' as [e|[g' fl]]; [done|]. destruct (Hres' g' fl eq_refl) as (-> & Hf & ->). intros [= <-].
  split; [done|]. pose proof Hst as (_ & _ & _ & Hgood & _ & _). rewrite (jl_flavor _ _ (gd_clean _ _ Hgood) Hp) in Hf. by injection Hf as <-.
Qed.

(** C26.  A keyed request takes effect at most once.  Take an update, replacement
    or archiving in flight with an idempotency key, at any reachable moment, and
    send its script, with whatever failure or lost reply.  Either it had no
    effect, or for the next 24 hours, whatever other requests do in between, any
    mutation that comes with the same key changes nothing, and succeeds only if
    it is the same request - same actor, method, flavor and payload digest -
    with the answer of the first one, marked as a replay; the same holds for
    mutations with this key that were already in flight.  And send a creation
    with a key in any reachable state: either the catalog is as it was, or a new
    flavor is stored and for 24 hours - updates of that very flavor included -
    no creation with the key creates anything, and it succeeds only with the
    same payload digest and then answers with the flavor as it was first
    created, marked as a replay.  The keys of creations and those of updates,
    replacements and archivings are separate: one kind does not bind the other. *)
Theorem keyed_request_once s n : rtc (cat_step canonical_ids) cat_start s →
  (∀ j rq o, j ∈ sy_jobs s → cc_request (jb_cx j) = Some rq → rq_Scope rq ≠ "" →
     let w1 := (repo_Update (jb_cx j) (jb_action j) (jb_read j) (jb_write j) o (begin (sy_state s) n)).2 in
     redis w1 = store s ∨
     ∃ m, let T := or_clock o m + IdemTTL in
       ∀ jobs s' o' n' cx' rq', rtc (cat_step (before T)) (MkSys (w_db w1) jobs) s' → before T o' →
         cc_request cx' = Some rq' → rq_Key rq' = rq_Key rq →
         let same a id := mutationFingerprint cx' a id rq' = mutationFingerprint (jb_cx j) (jb_action j) (fa_ID (jb_write j)) rq in
         let w := begin (sy_state s') n' in
         (∀ id i res w2, cat_Update ip_literal cx' id i o' w = (res, w2) →
            redis w2 = store s' ∧ ∀ g, res = inr g → same AUpdate id ∧ g = set_replay true (jb_write j)) ∧
         (∀ id i res w2, cat_Replace ip_literal cx' id i o' w = (res, w2) →
            redis w2 = store s' ∧ ∀ g, res = inr g → same AReplace id ∧ g = set_replay true (jb_write j)) ∧
         (∀ id res w2, cat_Archive cx' id o' w = (res, w2) → redis w2 = store s' ∧ (res = inr tt → same AArchive id)) ∧
         (∀ a f g, rq_Scope rq' ≠ "" → redis (repo_Update cx' a f g o' w).2 = store s')) ∧
  (∀ cx rq i o res w1, canonical_ids o → clean_input clean i → cc_request cx = Some rq →
     cat_Create pages ip_literal cx i o (begin (sy_state s) n) = (res, w1) →
     same_catalog (store s) (redis w1) ∨
     ∃ f m, let T := or_clock o m + IdemTTL in
       stored (redis w1) (fa_ID f) f ∧ (∀ g, res = inr g → g = f) ∧
       ∀ jobs s' o' n' cx' rq' i' res' w2, rtc (cat_step (before T)) (MkSys (w_db w1) jobs) s' → before T o' →
         cc_request cx' = Some rq' → rq_Key rq' = rq_Key rq →
         cat_Create pages ip_literal cx' i' o' (begin (sy_state s') n') = (res', w2) →
         redis w2 = store s' ∧ ∀ g, res' = inr g → rq_PayloadHash rq' = rq_PayloadHash rq ∧ g = set_replay true f).
Proof.
  intros Hs. split; [intros j rq o; by apply mutation_once|intros cx rq i o res w1; by apply creation_once].
Qed.
End create.
