(* ===== verification/CatJson.v ===== *)
(** Catalog service: the strict reading of request bodies ([decodeJSON],
    [uniqueJSONValue] and [containsNull] of [internal/handler/v1/catalog.go]).

    The tokenizer and the decoder of [encoding/json] are parameters: the tokens
    of a body, whether the text ends after them, and the fields a body sets. *)

From S2P Require Import Prelude CatModel CatService.

Inductive JTok :=
  | TObj | TEndObj | TArr | TEndArr
  | TStr (s : string) | TNum (s : string) | TBool (b : bool) | TNull.
#[global] Instance JTok_eq_dec : EqDecision JTok.
Proof. solve_decision. Defined.

(** What [Token] hands out until it fails, and whether it fails with [io.EOF]. *)
Record JTokens := MkJTokens { jt_tokens : list JTok; jt_eof : bool }.

Class JsonLib := {
  json_tokens : string → JTokens;
  json_input : string → option FlavorInput
}.

(** The values the parser builds; a leaf is the token itself. *)
Inductive JVal :=
  | JLeaf (t : JTok)
  | JObject (members : list (string * JVal))
  | JArray (values : list JVal).

Definition max_depth : nat := 16.

(** [uniqueJSONValue] and its two loops, with the number of tokens as fuel.
    [Token] fails on a closing bracket where a value is due. *)
Fixpoint uniqueJSONValue (fuel : nat) (depth : nat) (ts : list JTok) : option (JVal * list JTok) :=
  match fuel with
  | 0%nat => None
  | S fuel =>
      if bool_decide (max_depth < depth)%nat then None
      else match ts with
      | [] => None
      | TObj :: ts => object_loop fuel depth [] ts
      | TArr :: ts => array_loop fuel depth [] ts
      | TEndObj :: _ | TEndArr :: _ => None
      | t :: ts => Some (JLeaf t, ts)
      end
  end
with object_loop (fuel : nat) (depth : nat) (document : list (string * JVal)) (ts : list JTok) : option (JVal * list JTok) :=
  match fuel with
  | 0%nat => None
  | S fuel =>
      match ts with
      | [] => None
      | TEndObj :: ts => Some (JObject document, ts)
      | TEndArr :: _ => None
      | TStr key :: ts =>
          if bool_decide (key ∈ document.*1) then None
          else match uniqueJSONValue fuel (S depth) ts with
          | Some (value, ts) => object_loop fuel depth (document ++ [(key, value)]) ts
          | None => None
          end
      | _ :: _ => None
      end
  end
with array_loop (fuel : nat) (depth : nat) (values : list JVal) (ts : list JTok) : option (JVal * list JTok) :=
  match fuel with
  | 0%nat => None
  | S fuel =>
      match ts with
      | [] => None
      | TEndArr :: ts => Some (JArray values, ts)
      | TEndObj :: _ => None
      | ts =>
          match uniqueJSONValue fuel (S depth) ts with
          | Some (value, ts) => array_loop fuel depth (values ++ [value]) ts
          | None => None
          end
      end
  end.

Fixpoint containsNull (v : JVal) : bool :=
  match v with
  | JLeaf TNull => true
  | JLeaf _ => false
  | JObject members => existsb (λ m, containsNull m.2) members
  | JArray values => existsb containsNull values
  end.

Definition flavor_fields : list string := ["name"; "description"; "price"; "image_url"; "allergens"; "recipe"; "active"].

Definition member (key : string) (members : list (string * JVal)) : option JVal :=
  snd <$> find (λ m, bool_decide (m.1 = key)) members.

(** A price that is an object has exactly its two fields. *)
Definition price_ok (document : list (string * JVal)) : bool :=
  match member "price" document with
  | Some (JObject price) =>
      bool_decide ("amount_minor" ∈ price.*1) && bool_decide ("currency" ∈ price.*1) && bool_decide (length price = 2%nat)
  | _ => true
  end.

Definition decodeJSON {json : JsonLib} (body : string) : option FlavorInput :=
  if bool_decide (body = "") then None
  else
    let '(MkJTokens ts eof) := json_tokens body in
    match uniqueJSONValue (length ts) 0 ts with
    | None => None
    | Some (rawDocument, rest) =>
        if negb (bool_decide (rest = []) && eof) then None
        else match rawDocument with
        | JObject document =>
            if negb (forallb (λ m, bool_decide (m.1 ∈ flavor_fields)) document) then None
            else if negb (price_ok document) then None
            else if containsNull rawDocument then None
            else json_input body
        | _ => None
        end
    end.

(** ** What is accepted *)

Section ind.
Context (P : JVal → Prop) (Hleaf : ∀ t, P (JLeaf t)).
Context (Hobj : ∀ l, Forall (λ m, P m.2) l → P (JObject l)) (Harr : ∀ l, Forall P l → P (JArray l)).
Fixpoint JVal_nested (v : JVal) : P v :=
  match v with
  | JLeaf t => Hleaf t
  | JObject l => Hobj l ((fix go (l : list (string * JVal)) : Forall (λ m, P m.2) l :=
      match l with [] => @List.Forall_nil _ _ | m :: l => @List.Forall_cons _ _ m l (JVal_nested m.2) (go l) end) l)
  | JArray l => Harr l ((fix go l : Forall P l :=
      match l with [] => @List.Forall_nil _ _ | v :: l => @List.Forall_cons _ _ v l (JVal_nested v) (go l) end) l)
  end.
End ind.

(** The tokens of a value. *)
Fixpoint flatten (v : JVal) : list JTok :=
  match v with
  | JLeaf t => [t]
  | JObject l => TObj :: (l ≫= λ m, TStr m.1 :: flatten m.2) ++ [TEndObj]
  | JArray l => TArr :: (l ≫= flatten) ++ [TEndArr]
  end.

Definition scalar (t : JTok) : bool := match t with TStr _ | TNum _ | TBool _ | TNull => true | _ => false end.

(** Nested at most to [max_depth], no key twice in an object. *)
Inductive well_formed (depth : nat) : JVal → Prop :=
  | wf_leaf t : (depth ≤ max_depth)%nat → scalar t = true → well_formed depth (JLeaf t)
  | wf_object l : (depth ≤ max_depth)%nat → NoDup l.*1 → Forall (λ m, well_formed (S depth) m.2) l → well_formed depth (JObject l)
  | wf_array l : (depth ≤ max_depth)%nat → Forall (well_formed (S depth)) l → well_formed depth (JArray l).

Definition members_tokens (l : list (string * JVal)) : list JTok := l ≫= λ m, TStr m.1 :: flatten m.2.

Lemma unique_sound fuel :
  (∀ d ts v rest, uniqueJSONValue fuel d ts = Some (v, rest) → ts = flatten v ++ rest ∧ well_formed d v) ∧
  (∀ d doc ts v rest, object_loop fuel d doc ts = Some (v, rest) → NoDup doc.*1 →
     ∃ l, v = JObject (doc ++ l) ∧ ts = members_tokens l ++ TEndObj :: rest ∧ NoDup (doc ++ l).*1 ∧ Forall (λ m, well_formed (S d) m.2) l) ∧
  (∀ d vs ts v rest, array_loop fuel d vs ts = Some (v, rest) →
     ∃ l, v = JArray (vs ++ l) ∧ ts = (l ≫= flatten) ++ TEndArr :: rest ∧ Forall (well_formed (S d)) l).
Proof.
  induction fuel as [|fuel (IHv & IHo & IHa)]; [done|]. split_and!.
  - intros d ts v rest. cbn. case_bool_decide; [done|].
    destruct ts as [|[] ts]; try done; try (by intros [= <- <-]; split; [|constructor; [lia|]]).
    + intros Hl. apply IHo in Hl as (l & -> & -> & Hnd & Hwf); [|constructor]. cbn. rewrite <-app_assoc. split; [done|].
      constructor; [lia|done..].
    + intros Hl. apply IHa in Hl as (l & -> & -> & Hwf). cbn. rewrite <-app_assoc. split; [done|]. constructor; [lia|done].
  - intros d doc ts v rest. cbn. destruct ts as [|[] ts]; try done.
    + intros [= <- <-] Hnd. exists []. by rewrite app_nil_r.
    + case_bool_decide as Hin; [done|]. destruct (uniqueJSONValue fuel (S d) ts) as [[x ts']|] eqn:Hx; [|done].
      intros Hl Hnd. apply IHv in Hx as [-> Hwf]. apply IHo in Hl as (l & -> & -> & Hnd' & Hl).
      * exists ((s, x) :: l). unfold members_tokens. cbn. rewrite <-!app_assoc in *. cbn in *. split_and!; try done. by constructor.
      * rewrite fmap_app. cbn. apply NoDup_app. split_and!; [done| |apply NoDup_singleton]. intros k Hk ->%list_elem_of_singleton. done.
  - intros d vs ts v rest. cbn.
    assert (∀ ts', ts' = ts → match uniqueJSONValue fuel (S d) ts' with Some (value, ts) => array_loop fuel d (vs ++ [value]) ts | None => None end = Some (v, rest) →
      ∃ l, v = JArray (vs ++ l) ∧ ts = (l ≫= flatten) ++ TEndArr :: rest ∧ Forall (well_formed (S d)) l) as Hgo.
    { intros ts' -> Hl. destruct (uniqueJSONValue fuel (S d) ts) as [[x ts']|] eqn:Hx; [|done].
      apply IHv in Hx as [-> Hwf]. apply IHa in Hl as (l & -> & -> & Hl). exists (x :: l). cbn. rewrite <-!app_assoc. split_and!; try done. by constructor. }
    destruct ts as [|[] ts]; try done; try by apply Hgo. intros [= <- <-]. exists []. by rewrite app_nil_r.
Qed.

Lemma flatten_length v : (1 ≤ length (flatten v))%nat.
Proof. destruct v; cbn; lia. Qed.
Lemma flatten_head d v rest : well_formed d v → ∃ t ts, flatten v ++ rest = t :: ts ∧ t ≠ TEndObj ∧ t ≠ TEndArr.
Proof. destruct 1 as [t _ Ht|l|l]; cbn; eexists _, _; (split; [done|]); [by destruct t|done..]. Qed.

Definition parsed_back (v : JVal) : Prop := ∀ fuel d rest, well_formed d v → (length (flatten v) ≤ fuel)%nat →
  uniqueJSONValue fuel d (flatten v ++ rest) = Some (v, rest).

Lemma object_back d l doc fuel rest : Forall (λ m, parsed_back m.2) l → Forall (λ m, well_formed (S d) m.2) l →
  NoDup (doc ++ l).*1 → (length (members_tokens l) < fuel)%nat →
  object_loop fuel d doc (members_tokens l ++ TEndObj :: rest) = Some (JObject (doc ++ l), rest).
Proof.
  intros Hl. revert doc fuel. induction Hl as [|[k x] l Hx _ IH]; intros doc fuel Hwf Hnd Hf; (destruct fuel as [|fuel]; [lia|]).
  - cbn. by rewrite app_nil_r.
  - apply Forall_cons in Hwf as [Hw Hwf]. unfold members_tokens in *. cbn in *. rewrite <-app_assoc. rewrite length_app in Hf.
    rewrite bool_decide_eq_false_2.
    2:{ rewrite fmap_app, fmap_cons, NoDup_app in Hnd. destruct Hnd as (_ & Hno & _). intros Hk. apply (Hno k Hk). by left. }
    rewrite Hx by (done || lia). rewrite IH; [by rewrite <-app_assoc|done|by rewrite <-app_assoc|lia].
Qed.

Lemma array_back d l vs fuel rest : Forall parsed_back l → Forall (well_formed (S d)) l → (length (l ≫= flatten) < fuel)%nat →
  array_loop fuel d vs ((l ≫= flatten) ++ TEndArr :: rest) = Some (JArray (vs ++ l), rest).
Proof.
  intros Hl. revert vs fuel. induction Hl as [|x l Hx _ IH]; intros vs fuel Hwf Hf; (destruct fuel as [|fuel]; [lia|]).
  - cbn. by rewrite app_nil_r.
  - apply Forall_cons in Hwf as [Hw Hwf]. cbn [mbind list_bind] in *. rewrite <-app_assoc. rewrite length_app in Hf.
    pose proof (flatten_length x).
    assert (uniqueJSONValue fuel (S d) (flatten x ++ (l ≫= flatten) ++ TEndArr :: rest) = Some (x, (l ≫= flatten) ++ TEndArr :: rest)) as E
      by (apply Hx; [done|lia]).
    destruct (flatten_head _ x ((l ≫= flatten) ++ TEndArr :: rest) Hw) as (t & ts & Heq & H1 & H2).
    unfold mbind in *. rewrite Heq in *. cbn. destruct t; try done; rewrite E; rewrite IH by (done || lia); by rewrite <-app_assoc.
Qed.

Lemma unique_complete v : parsed_back v.
Proof.
  induction v as [t|l IH|l IH] using JVal_nested; intros fuel d rest Hwf Hf; (destruct fuel as [|fuel]; [by cbn in Hf; lia|]);
    inversion_clear Hwf as [? Hd Ht|? Hd Hnd Hl|? Hd Hl]; cbn; rewrite bool_decide_eq_false_2 by lia.
  - by destruct t.
  - rewrite <-app_assoc. cbn in Hf. rewrite length_app in Hf. cbn in Hf. apply (object_back d l [] fuel rest); try done. unfold members_tokens. lia.
  - rewrite <-app_assoc. cbn in Hf. rewrite length_app in Hf. cbn in Hf. apply (array_back d l [] fuel rest); try done. lia.
Qed.

(** Nulls are found wherever they are. *)
Lemma containsNull_spec d v : well_formed d v → containsNull v = bool_decide (TNull ∈ flatten v).
Proof.
  intros Hwf. apply eq_bool_prop_intro. rewrite bool_decide_spec. revert d Hwf.
  induction v as [t|l IH|l IH] using JVal_nested; intros d Hwf; inversion_clear Hwf as [? Hd Ht|? Hd Hnd Hl|? Hd Hl].
  - cbn. rewrite list_elem_of_singleton. destruct t; cbn; naive_solver.
  - cbn [containsNull flatten]. rewrite Is_true_true, existsb_exists, elem_of_cons, elem_of_app, list_elem_of_bind, list_elem_of_singleton.
    rewrite Forall_forall in IH. rewrite Forall_forall in Hl. split.
    + intros (m & Hm%list_elem_of_In & Hn). right. left. exists m. split; [|done]. right. apply (IH m Hm _ (Hl m Hm)). by rewrite Is_true_true.
    + intros [?|[(m & [?|Hn]%elem_of_cons & Hm)|?]]; [done..| |done]. exists m. split; [by apply list_elem_of_In|].
      apply Is_true_true, (IH m Hm _ (Hl m Hm)), Hn.
  - cbn [containsNull flatten]. rewrite Is_true_true, existsb_exists, elem_of_cons, elem_of_app, list_elem_of_bind, list_elem_of_singleton.
    rewrite Forall_forall in IH. rewrite Forall_forall in Hl. split.
    + intros (x & Hx%list_elem_of_In & Hn). right. left. exists x. split; [|done]. apply (IH x Hx _ (Hl x Hx)). by rewrite Is_true_true.
    + intros [?|[(x & Hn & Hx)|?]]; [done| |done]. exists x. split; [by apply list_elem_of_In|]. apply Is_true_true, (IH x Hx _ (Hl x Hx)), Hn.
Qed.

Lemma member_spec key l : NoDup l.*1 → ∀ v, member key l = Some v ↔ (key, v) ∈ l.
Proof.
  unfold member. induction l as [|[k x] l IH]; intros Hnd v; cbn; [split; [done|set_solver]|].
  apply NoDup_cons in Hnd as [Hk Hnd]. rewrite elem_of_cons. case_bool_decide as Heq; cbn.
  - subst k. split; [intros [= <-]; by left|]. intros [[= <-]|Hin]; [done|]. destruct Hk. apply (list_elem_of_fmap_2 fst) in Hin. done.
  - rewrite IH by done. split; [by right|]. intros [[= ? ?]|?]; [congruence|done].
Qed.

(** A price in a document has exactly an amount and a currency. *)
Definition price_exact (document : list (string * JVal)) : Prop :=
  ∀ price, ("price", JObject price) ∈ document → price.*1 ≡ₚ ["amount_minor"; "currency"].

Lemma price_ok_spec d document : well_formed d (JObject document) → price_ok document = true ↔ price_exact document.
Proof.
  inversion_clear 1 as [|? Hd Hnd Hl|]. unfold price_ok, price_exact. rewrite Forall_forall in Hl.
  assert (∀ price, ("price", JObject price) ∈ document → NoDup price.*1) as Hprice.
  { intros price Hin. specialize (Hl _ Hin). by inversion_clear Hl. }
  destruct (member "price" document) as [v|] eqn:Hm.
  - apply member_spec in Hm; [|done].
    assert (∀ price, ("price", JObject price) ∈ document → v = JObject price) as Hv.
    { intros price Hin. apply member_spec in Hin; [|done]. apply member_spec in Hm; [|done]. congruence. }
    destruct v as [t|price|l]; [split; [intros _ price Hin%Hv; done|done]| |split; [intros _ price Hin%Hv; done|done]].
    rewrite !andb_true_iff, !bool_decide_eq_true. split.
    + intros [[Ha Hc] Hlen] price' Hin. pose proof (Hv _ Hin) as [= <-]. symmetry. apply submseteq_length_Permutation.
      * apply NoDup_submseteq; [repeat constructor; set_solver|]. intros k Hk. set_solver.
      * rewrite length_fmap. cbn. lia.
    + intros Hp. specialize (Hp _ Hm). rewrite Hp. split_and!; [set_solver|set_solver|]. apply Permutation_length in Hp. by rewrite length_fmap in Hp.
  - split; [|done]. intros _ price Hin. apply member_spec in Hin; [|done]. congruence.
Qed.

(** C28.  A body is accepted exactly when it is one JSON object and nothing else,
    nested at most 16 deep, in which no object has a key twice, whose keys are
    fields of a flavor in their exact spelling, whose price, if it is an object,
    has exactly an amount and a currency, and which contains no null at any
    depth - and encoding/json reads it into the input without a type error; it
    then means what the decoder reads.  The number of tokens is enough fuel. *)
Theorem request_body_exact {json : JsonLib} body i :
  decodeJSON body = Some i ↔
  body ≠ "" ∧ json_input body = Some i ∧ jt_eof (json_tokens body) = true ∧
  ∃ document, jt_tokens (json_tokens body) = flatten (JObject document) ∧ well_formed 0 (JObject document) ∧
    Forall (λ m, m.1 ∈ flavor_fields) document ∧ price_exact document ∧ TNull ∉ flatten (JObject document).
Proof.
  unfold decodeJSON. destruct (json_tokens body) as [ts eof]. cbn [jt_tokens jt_eof]. split.
  - case_bool_decide as Hb; [done|]. destruct (uniqueJSONValue _ 0 ts) as [[raw rest]|] eqn:Hu; [|done].
    apply (unique_sound (length ts)) in Hu as [-> Hwf]. case_bool_decide as Hrest; [|done]. subst rest. destruct eof; [|done]. cbn [andb negb].
    destruct raw as [|document|]; [done| |done]. destruct (forallb _ document) eqn:Hf; [|done]. cbn [negb].
    destruct (price_ok document) eqn:Hp; [|done]. cbn [negb]. destruct (containsNull (JObject document)) eqn:Hn; [done|].
    intros Hi. split_and!; [done..|]. exists document. rewrite app_nil_r. rewrite (containsNull_spec _ _ Hwf), bool_decide_eq_false in Hn.
    rewrite (price_ok_spec _ _ Hwf) in Hp. split_and!; try done.
    rewrite forallb_forall in Hf. apply Forall_forall. intros m Hm%list_elem_of_In. by eapply bool_decide_eq_true, Hf.
  - intros (Hb & Hi & -> & document & -> & Hwf & Hf & Hp & Hn). rewrite bool_decide_eq_false_2 by done.
    pose proof (unique_complete (JObject document) _ 0%nat [] Hwf (le_n _)) as E. rewrite app_nil_r in E. rewrite E.
    rewrite bool_decide_eq_true_2 by done. cbn [andb negb].
    rewrite (proj2 (price_ok_spec _ _ Hwf) Hp), (containsNull_spec _ _ Hwf), bool_decide_eq_false_2 by done.
    assert (forallb (λ m : string * JVal, bool_decide (m.1 ∈ flavor_fields)) document = true) as ->; [|done].
    apply forallb_forall. intros m Hm%list_elem_of_In. rewrite Forall_forall in Hf. apply bool_decide_eq_true_2, Hf, Hm.
Qed.
