(* ===== verification/CatHandler.v ===== *)
(** Catalog service: authentication and idempotency middleware
    ([internal/auth], [internal/middleware]), the REST handlers and routes
    ([internal/handler/v1], [internal/router]) and the gRPC server
    ([internal/transport/grpc]).

    A request carries the values of its Authorization and Idempotency-Key
    headers.  The JWT and JSON libraries are parameters; a response is its
    status with the value it carries. *)

From S2P Require Import Prelude Effects GoStd InvModel FulHandler CatModel CatService CatJson.

(** ** Requests and responses *)

Inductive CatRequest :=
  | CHealth
  | CList (active : list string)
  | CCreate (body : string)
  | CRecipe (flavor_id : string)
  | CGet (flavor_id : string)
  | CReplace (flavor_id body : string)
  | CUpdate (flavor_id body : string)
  | CArchive (flavor_id body : string).

Inductive CatResp :=
  | CFail (status : Z) (code : string)
  | COkHealth
  | COkList (items : list Flavor)
  | COkFlavor (f : Flavor)
  | COkAdmin (status : Z) (f : FlavorAdmin) (replayed : bool)
  | COkRecipe (id recipe : string) (updated : Z)
  | CNoContent.

(** What the middleware leaves for the handlers: the locals and the context. *)
Record CLocals := MkCLocals { lo_UserID : string; lo_Role : string; lo_cx : CCtx }.
Definition no_locals : CLocals := MkCLocals "" "" (MkCCtx None None).

Section handler.
Context {uuid : UuidLib} {lib : CatLib} {acl : RedisAcl} {jwt : Jwt} {json : JsonLib}.
Context (pages : list (list string)) (ip_literal : string → bool) (v : Verifier).
Abbreviation C := (M CatState CErr).

(** ** Authentication *)

(** [(v *Verifier) Parse]. *)
Definition cat_Parse (raw : string) : option Claims :=
  match ParseWithClaims (vf_secret v) (vf_issuer v) (vf_audience v) raw with
  | None => None
  | Some claims =>
      if bool_decide (cl_IssuedAt claims = None) || bool_decide (cl_ExpiresAt claims = None) then None
      else if bool_decide (uuid_parse (cl_Subject claims) = None) || negb (Role_Valid (cl_Role claims)) then None
      else Some claims
  end.

(** The claims of the only token. *)
Definition bearer_claims (auth : list string) : option Claims :=
  match auth with
  | [header] =>
      match fields header with
      | [scheme; raw] => if equal_fold scheme "Bearer" then cat_Parse raw else None
      | _ => None
      end
  | _ => None
  end.

Definition unauthorized : CatResp := CFail 401 "UNAUTHORIZED".

Definition cat_authenticate (auth : list string) (required : bool) : CatResp + CLocals :=
  if bool_decide (auth = []) && negb required then inr no_locals
  else match bearer_claims auth with
  | None => inl unauthorized
  | Some claims => inr (MkCLocals (cl_Subject claims) (cl_Role claims) (cat_WithActor (cl_Subject claims) (cl_Role claims) (MkCCtx None None)))
  end.

Definition ManagerRequired (lo : CLocals) : CatResp :=
  if bool_decide (lo_UserID lo = "") then unauthorized else CFail 403 "FORBIDDEN".

Definition RequireManager (auth : list string) (next : CLocals → C CatResp) : C CatResp :=
  match cat_authenticate auth true with
  | inl r => mret r
  | inr lo => if negb (bool_decide (lo_Role lo = RoleManager)) then mret (ManagerRequired lo) else next lo
  end.
Definition AuthenticateIfPresent (auth : list string) (next : CLocals → C CatResp) : C CatResp :=
  match cat_authenticate auth false with inl r => mret r | inr lo => next lo end.

(** ** The Idempotency-Key *)

(** [method] is PUT, PATCH or DELETE with the id of the path, or POST. *)
Definition Idempotency (keys : list string) (method : string) (flavor_id body : string) (next : CLocals → C CatResp) (lo : CLocals) : C CatResp :=
  let raw := trim_space (default "" (head keys)) in
  if bool_decide (keys = []) || (bool_decide (length keys = 1%nat) && bool_decide (raw = "")) then next lo
  else match (if bool_decide (length keys = 1%nat) then uuid_parse raw else None) with
  | None => mret (CFail 400 "INVALID_IDEMPOTENCY_KEY")
  | Some key =>
      let with_request scope := next (MkCLocals (lo_UserID lo) (lo_Role lo)
        (MkCCtx (cc_actor (lo_cx lo)) (Some (MkIdemRequest key raw (sha_hex body) scope)))) in
      if bool_decide (method = "POST") then with_request ""
      else match uuid_parse flavor_id with
      | Some id =>
          if bool_decide (id = uuid_nil) || bool_decide (key = uuid_nil) then mret (CFail 400 "INVALID_ARGUMENT")
          else with_request (method +:+ ":" +:+ id)
      | None => mret (CFail 400 "INVALID_ARGUMENT")
      end
  end.

(** ** Handlers *)

Definition handleServiceError (e : CErr) : CatResp :=
  match e with
  | EIdemConflict => CFail 409 "IDEMPOTENCY_CONFLICT"
  | EIdemUnavailable => CFail 503 "IDEMPOTENCY_UNAVAILABLE"
  | EInvalidInput _ => CFail 400 "INVALID_INPUT"
  | ENotFound => CFail 404 "FLAVOR_NOT_FOUND"
  | ENameConflict => CFail 409 "FLAVOR_NAME_CONFLICT"
  | EUpdateConflict => CFail 409 "FLAVOR_UPDATE_CONFLICT"
  | _ => CFail 500 "INTERNAL_ERROR"
  end.
Definition bad_id : CatResp := CFail 400 "INVALID_ARGUMENT".
Definition bad_body : CatResp := CFail 400 "INVALID_REQUEST".

Definition answer {A} (m : C A) (k : A → CatResp) : C CatResp :=
  r ← try m; match r with inl e => mret (handleServiceError e) | inr a => mret (k a) end.

Definition readScope (lo : CLocals) : ReadScope := if bool_decide (lo_Role lo = RoleManager) then ManagerRead else PublicRead.

Definition h_List (active : list string) (lo : CLocals) : C CatResp :=
  let go (a : option bool) :=
    if bool_decide (a = Some false) && negb (bool_decide (readScope lo = ManagerRead)) then mret (ManagerRequired lo)
    else answer (cat_List a (readScope lo)) COkList in
  match active with
  | [] => go None
  | [raw] => if bool_decide (raw = "true") then go (Some true) else if bool_decide (raw = "false") then go (Some false) else mret bad_id
  | _ => mret bad_id
  end.
Definition h_Get (flavor_id : string) (lo : CLocals) : C CatResp :=
  match uuid_parse flavor_id with None => mret bad_id | Some id => answer (cat_Get id (readScope lo)) COkFlavor end.
Definition h_Create (body : string) (lo : CLocals) : C CatResp :=
  match decodeJSON body with
  | None => mret bad_body
  | Some input => answer (cat_Create pages ip_literal (lo_cx lo) input) (λ f, COkAdmin 201 f (fa_IdempotentReplay f))
  end.
Definition h_Update (flavor_id body : string) (lo : CLocals) : C CatResp :=
  match uuid_parse flavor_id with
  | None => mret bad_id
  | Some id =>
      match decodeJSON body with
      | None => mret bad_body
      | Some input => answer (cat_Update ip_literal (lo_cx lo) id input) (λ f, COkAdmin 200 f (fa_IdempotentReplay f))
      end
  end.
Definition h_Replace (flavor_id body : string) (lo : CLocals) : C CatResp :=
  match uuid_parse flavor_id with
  | None => mret bad_id
  | Some id =>
      match decodeJSON body with
      | None => mret bad_body
      | Some input => answer (cat_Replace ip_literal (lo_cx lo) id input) (λ f, COkAdmin 200 f (fa_IdempotentReplay f))
      end
  end.
Definition h_Archive (flavor_id : string) (lo : CLocals) : C CatResp :=
  match uuid_parse flavor_id with None => mret bad_id | Some id => answer (cat_Archive (lo_cx lo) id) (λ _, CNoContent) end.
Definition h_GetRecipe (flavor_id : string) (lo : CLocals) : C CatResp :=
  match uuid_parse flavor_id with
  | None => mret bad_id
  | Some id => answer (cat_GetRecipe id) (λ '(id, recipe, updated), COkRecipe id recipe updated)
  end.

(** [Setup]. *)
Definition cat_router (auth keys : list string) (q : CatRequest) : C CatResp :=
  match q with
  | CHealth => mret COkHealth
  | CList active => AuthenticateIfPresent auth (h_List active)
  | CCreate body => RequireManager auth (Idempotency keys "POST" "" body (h_Create body))
  | CRecipe id => RequireManager auth (h_GetRecipe id)
  | CGet id => AuthenticateIfPresent auth (h_Get id)
  | CReplace id body => RequireManager auth (Idempotency keys "PUT" id body (h_Replace id body))
  | CUpdate id body => RequireManager auth (Idempotency keys "PATCH" id body (h_Update id body))
  | CArchive id body => RequireManager auth (Idempotency keys "DELETE" id body (h_Archive id))
  end.
End handler.

(** Catalog service: the gRPC server ([internal/transport/grpc]).

    [rx_before] and [rx_after] are what the context of a call says before the
    handler runs and after it failed. *)


(** ** Messages *)

Record PbMoney := MkPbMoney { pm_AmountMinor : option Z; pm_Currency : option string }.
Record PbFlavorInput := MkPbFlavorInput {
  pi_Name : option string; pi_Description : option string; pi_Price : option PbMoney; pi_ImageUrl : option string;
  pi_Allergens : option (list Z); pi_Recipe : option string; pi_Active : option bool
}.
Record PbFlavor := MkPbFlavor {
  pf_Id : string; pf_Name : string; pf_Description : string; pf_Price : PbMoney; pf_ImageUrl : option string;
  pf_Allergens : list Z; pf_Active : bool; pf_CreatedAt : Timestamp; pf_UpdatedAt : Timestamp
}.

Inductive CatRpc :=
  | GCreate (flavor : option PbFlavorInput)
  | GGet (flavor_id : string)
  | GList (active : option bool)
  | GBatchGet (flavor_ids : list string)
  | GUpdate (flavor_id : string) (flavor : option PbFlavorInput)
  | GDelete (flavor_id : string).

Inductive CatRpcResp :=
  | GAdmin (f : PbFlavor) (recipe : string)
  | GFlavor (f : PbFlavor)
  | GFlavors (l : list PbFlavor)
  | GDeleted.

(** [rpcError]: the code and the reason of its details. *)
Record GErr := MkGErr { ge_Code : Code; ge_Reason : string }.

Definition invalidInput : GErr := MkGErr InvalidArgument "INVALID_ARGUMENT".
Definition unauthenticated : GErr := MkGErr Unauthenticated "UNAUTHORIZED".

Definition serviceError (e : CErr) : GErr :=
  match e with
  | ERedis DbCanceled => MkGErr Canceled "CANCELLED"
  | ERedis DbDeadline => MkGErr DeadlineExceeded "DEADLINE_EXCEEDED"
  | EInvalidInput _ => invalidInput
  | ENotFound => MkGErr NotFound "FLAVOR_NOT_FOUND"
  | ENameConflict => MkGErr AlreadyExists "FLAVOR_NAME_CONFLICT"
  | EUpdateConflict => MkGErr Aborted "FLAVOR_UPDATE_CONFLICT"
  | ERedis DbNet | ERedis DbConnect => MkGErr Unavailable "CATALOG_UNAVAILABLE"
  | _ => MkGErr Internal "INTERNAL_ERROR"
  end.

(** ** Mapping *)

Definition allergenModels (n : Z) : option string :=
  if bool_decide (n = 1) then Some "MILK"
  else if bool_decide (n = 2) then Some "EGG"
  else if bool_decide (n = 3) then Some "PEANUT"
  else if bool_decide (n = 4) then Some "TREE_NUT"
  else if bool_decide (n = 5) then Some "SOY"
  else if bool_decide (n = 6) then Some "GLUTEN"
  else None.
(** [pb.Allergen_value["ALLERGEN_" + value]]; an unknown name is 0. *)
Definition allergen_value (s : string) : Z :=
  if bool_decide (s = "MILK") then 1
  else if bool_decide (s = "EGG") then 2
  else if bool_decide (s = "PEANUT") then 3
  else if bool_decide (s = "TREE_NUT") then 4
  else if bool_decide (s = "SOY") then 5
  else if bool_decide (s = "GLUTEN") then 6
  else 0.

Definition inputFromProto (in_ : option PbFlavorInput) : GErr + FlavorInput :=
  match in_ with
  | None => inl invalidInput
  | Some i =>
      let finish price :=
        match pi_Allergens i with
        | None => inr (MkFlavorInput (pi_Name i) (pi_Description i) price (pi_ImageUrl i) None (pi_Recipe i) (pi_Active i))
        | Some values =>
            match mapM allergenModels values with
            | None => inl invalidInput
            | Some l => inr (MkFlavorInput (pi_Name i) (pi_Description i) price (pi_ImageUrl i) (Some l) (pi_Recipe i) (pi_Active i))
            end
        end in
      match pi_Price i with
      | None => finish None
      | Some p =>
          match pm_AmountMinor p, pm_Currency p with
          | Some a, Some c => finish (Some (MkMoney a c))
          | _, _ => inl invalidInput
          end
      end
  end.

Definition flavorToProto (f : Flavor) : PbFlavor :=
  MkPbFlavor (fl_ID f) (fl_Name f) (fl_Description f)
    (MkPbMoney (Some (mo_AmountMinor (fl_Price f))) (Some (mo_Currency (fl_Price f))))
    (if bool_decide (fl_ImageURL f = "") then None else Some (fl_ImageURL f))
    (allergen_value <$> fl_Allergens f) (fl_Active f) (ts_New (fl_CreatedAt f)) (ts_New (fl_UpdatedAt f)).
Definition adminToProto (f : FlavorAdmin) : CatRpcResp := GAdmin (flavorToProto (fa_Flavor f)) (fa_Recipe f).

(** What a client reads back. *)
Definition flavor_of_proto (p : PbFlavor) : option Flavor :=
  allergens ← mapM allergenModels (pf_Allergens p);
  amount ← pm_AmountMinor (pf_Price p);
  currency ← pm_Currency (pf_Price p);
  Some (MkFlavor (pf_Id p) (pf_Name p) (pf_Description p) (MkMoney amount currency) (default "" (pf_ImageUrl p)) allergens
    (pf_Active p) (AsTime (pf_CreatedAt p)) (AsTime (pf_UpdatedAt p))).

Record RpcCtx := MkRpcCtx { rx_before : option dberr; rx_after : option dberr }.

Section grpc.
Context {uuid : UuidLib} {lib : CatLib} {acl : RedisAcl} {jwt : Jwt}.
Context (pages : list (list string)) (ip_literal : string → bool) (v : Verifier).
Abbreviation C := (M CatState CErr).
Abbreviation Reply := (GErr + CatRpcResp)%type.

(** The identity and the context of a call. *)
Record GCtx := MkGCtx { gx_identity : option Claims; gx_cx : CCtx }.

Definition g_requireManager (c : GCtx) : option GErr :=
  match gx_identity c with
  | None => Some unauthenticated
  | Some claims => if negb (bool_decide (cl_Role claims = RoleManager)) then Some (MkGErr PermissionDenied "FORBIDDEN") else None
  end.
Definition g_readScope (c : GCtx) : ReadScope :=
  match gx_identity c with
  | Some claims => if bool_decide (cl_Role claims = RoleManager) then ManagerRead else PublicRead
  | None => PublicRead
  end.

Definition g_answer {A} (m : C A) (k : A → CatRpcResp) : C Reply :=
  r ← try m; match r with inl e => mret (inl (serviceError e)) | inr a => mret (inr (k a)) end.

(** [CreateFlavor], [GetFlavor], [ListFlavors], [BatchGetFlavors],
    [UpdateFlavor] and [DeleteFlavor]. *)
Definition CreateFlavor (flavor : option PbFlavorInput) (c : GCtx) : C Reply :=
  match inputFromProto flavor with
  | inl e => mret (inl e)
  | inr input => g_answer (cat_Create pages ip_literal (gx_cx c) input) adminToProto
  end.
Definition GetFlavor (flavor_id : string) (c : GCtx) : C Reply :=
  match uuid_parse flavor_id with
  | None => mret (inl invalidInput)
  | Some id => g_answer (cat_Get id (g_readScope c)) (λ f, GFlavor (flavorToProto f))
  end.
Definition ListFlavors (active : option bool) (c : GCtx) : C Reply :=
  match (if bool_decide (active = Some false) then g_requireManager c else None) with
  | Some e => mret (inl e)
  | None => g_answer (cat_List active (g_readScope c)) (λ l, GFlavors (flavorToProto <$> l))
  end.
Definition BatchGetFlavors (flavor_ids : list string) (c : GCtx) : C Reply :=
  if bool_decide (length flavor_ids < 1)%nat || bool_decide (100 < length flavor_ids)%nat then mret (inl invalidInput)
  else match mapM uuid_parse flavor_ids with
  | None => mret (inl invalidInput)
  | Some ids => g_answer (cat_BatchGet ids (g_readScope c)) (λ l, GFlavors (flavorToProto <$> l))
  end.
Definition UpdateFlavor (flavor_id : string) (flavor : option PbFlavorInput) (c : GCtx) : C Reply :=
  match uuid_parse flavor_id with
  | None => mret (inl invalidInput)
  | Some id =>
      match inputFromProto flavor with
      | inl e => mret (inl e)
      | inr input => g_answer (cat_Replace ip_literal (gx_cx c) id input) adminToProto
      end
  end.
Definition DeleteFlavor (flavor_id : string) (c : GCtx) : C Reply :=
  match uuid_parse flavor_id with
  | None => mret (inl invalidInput)
  | Some id => g_answer (cat_Archive (gx_cx c) id) (λ _, GDeleted)
  end.

Definition g_handler (q : CatRpc) (c : GCtx) : C Reply :=
  match q with
  | GCreate flavor => CreateFlavor flavor c
  | GGet id => GetFlavor id c
  | GList active => ListFlavors active c
  | GBatchGet ids => BatchGetFlavors ids c
  | GUpdate id flavor => UpdateFlavor id flavor c
  | GDelete id => DeleteFlavor id c
  end.

(** The part of the interceptor after the token was read. *)
Definition g_proceed (rx : RpcCtx) (q : CatRpc) (c : GCtx) : C Reply :=
  match (match q with GGet _ | GList _ | GBatchGet _ => None | _ => g_requireManager c end) with
  | Some e => mret (inl e)
  | None =>
      match rx_before rx with
      | Some e => mret (inl (serviceError (ERedis e)))
      | None =>
          response ← g_handler q c;
          match response, rx_after rx with
          | inl _, Some e => mret (inl (serviceError (ERedis e)))
          | _, _ => mret response
          end
      end
  end.

(** [interceptor]; [auth] are the authorization values of the metadata. *)
Definition cat_interceptor (rx : RpcCtx) (auth : list string) (q : CatRpc) : C Reply :=
  match auth with
  | [] => g_proceed rx q (MkGCtx None (MkCCtx None None))
  | _ =>
      match bearer_claims v auth with
      | None => mret (inl unauthenticated)
      | Some claims => g_proceed rx q (MkGCtx (Some claims) (cat_WithActor (cl_Subject claims) (cl_Role claims) (MkCCtx None None)))
      end
  end.
End grpc.
