(* ===== verification/CatAccess.v ===== *)
(** Catalog service: who may do and see what, over REST and over gRPC. *)

From S2P Require Import Prelude Effects GoStd InvModel FulHandler CatModel CatService CatInv CatSystem CatIdem CatClaims CatReads.
From S2P Require Import CatJson CatHandler.

Section access.
Context {uuid : UuidLib} {lib : CatLib} {acl : RedisAcl} {jwt : Jwt} {json : JsonLib} (clean : string → Prop) {laws : CatLaws clean}.
Context (pages : list (list string)) (ip_literal : string → bool) (v : Verifier).
Implicit Types (o : oracle) (w : world CatState) (s : Sys) (auth : list string).
#[local] Abbreviation CInv := (CInv clean).
#[local] Abbreviation redis w := (cs_redis (w_db w)).
#[local] Abbreviation store s := (cs_redis (sy_state s)).
#[local] Abbreviation begin st n := (World st n false []).

(** The request carries one valid token, of a manager. *)
Definition by_manager auth : Prop := ∃ claims, bearer_claims v auth = Some claims ∧ cl_Role claims = RoleManager.

(** What a response shows to someone who is not a manager. *)
Definition public_resp (r : CatResp) : Prop :=
  match r with
  | COkAdmin _ _ _ | COkRecipe _ _ _ => False
  | COkFlavor f => fl_Active f = true
  | COkList l => Forall (λ f, fl_Active f = true) l
  | _ => True
  end.
Definition public_reply (r : GErr + CatRpcResp) : Prop :=
  match r with
  | inr (GAdmin _ _) => False
  | inr (GFlavor f) => pf_Active f = true
  | inr (GFlavors l) => Forall (λ f, pf_Active f = true) l
  | _ => True
  end.

(** A computation that answers, and for someone who is not a manager neither
    touches the catalog nor shows more than the public may see. *)
Definition guarded {A} (manager : Prop) (shows : A → Prop) (m : M CatState CErr A) : Prop := ∀ o w, CInv (redis w) →
  ∃ a w', m o w = (inr a, w') ∧ (manager ∨ same_catalog (redis w) (redis w') ∧ shows a).

Lemma guarded_ret {A} manager (shows : A → Prop) a : shows a → guarded manager shows (mret a).
Proof. intros Ha o w _. exists a, w. split; [done|]. by right. Qed.

(** ** Reading *)

Lemma public_active r f : shown clean r PublicRead f → fa_Active f = true.
Proof. intros [_ Hv]. unfold visible in Hv. by rewrite orb_false_r in Hv. Qed.

Lemma fail_public e : public_resp (handleServiceError e).
Proof. by destruct e. Qed.

(** The answer to a reader is public unless the scope is the manager's. *)
Lemma answer_guarded {A} (manager : Prop) (m : M CatState CErr A) (k : A → CatResp) :
  (manager ∨ ∀ o w, CInv (redis w) → ∃ res w', m o w = (res, w') ∧ w_db w' = w_db w ∧ ∀ a, res = inr a → public_resp (k a)) →
  guarded manager public_resp (answer m k).
Proof.
  intros Hm o w Hr. unfold answer, mbind, M_bind, try. destruct (m o w) as [res w'] eqn:Hrun.
  destruct Hm as [Hm|Hm]; [destruct res; eexists _, w'; eauto|].
  destruct (Hm o w Hr) as (res' & w1 & Hrun' & Hw & Hp). rewrite Hrun in Hrun'. injection Hrun' as <- <-.
  destruct res as [e|a]; eexists _, w'; (split; [done|]); right; rewrite Hw; (split; [done|]); [apply fail_public|by apply Hp].
Qed.

Lemma g_answer_guarded {A} (manager : Prop) (m : M CatState CErr A) (k : A → CatRpcResp) :
  (manager ∨ ∀ o w, CInv (redis w) → ∃ res w', m o w = (res, w') ∧ w_db w' = w_db w ∧ ∀ a, res = inr a → public_reply (inr (k a))) →
  guarded manager public_reply (g_answer m k).
Proof.
  intros Hm o w Hr. unfold g_answer, mbind, M_bind, try. destruct (m o w) as [res w'] eqn:Hrun.
  destruct Hm as [Hm|Hm]; [destruct res; eexists _, w'; eauto|].
  destruct (Hm o w Hr) as (res' & w1 & Hrun' & Hw & Hp). rewrite Hrun in Hrun'. injection Hrun' as <- <-.
  destruct res as [e|a]; eexists _, w'; (split; [done|]); right; rewrite Hw; (split; [done|]); [done|by apply Hp].
Qed.

Lemma get_public id o w : CInv (redis w) → ∃ res w', cat_Get id PublicRead o w = (res, w') ∧ w_db w' = w_db w ∧
  ∀ f, res = inr f → fl_Active f = true.
Proof.
  intros Hr. destruct (cat_Get_reads clean id PublicRead o w Hr) as (res & w' & Hrun & Hw & Hc). exists res, w'. split_and!; try done.
  intros f ->. destruct Hc as [(g & [= ->] & _ & Hg%public_active)|[[? _]|(? & ? & ? & _)]]; done.
Qed.

Lemma list_public active o w : CInv (redis w) → ∃ res w', cat_List active PublicRead o w = (res, w') ∧ w_db w' = w_db w ∧
  ∀ l, res = inr l → Forall (λ f, fl_Active f = true) l.
Proof.
  intros Hr. unfold cat_List, mbind, M_bind.
  destruct (repo_List_reads clean o w Hr) as [(fs & w' & -> & Hw & _)|(e & k & w' & -> & Hw & _)]; eexists _, w'; (split_and!; [done..|]); [|done].
  intros l [= <-]. apply Forall_fmap, Forall_forall. intros f [Hv%andb_true_iff _]%list_elem_of_filter. destruct Hv as [Hv _].
  unfold visible in Hv. by rewrite orb_false_r in Hv.
Qed.

Lemma batch_public ids o w : CInv (redis w) → ∃ res w', cat_BatchGet ids PublicRead o w = (res, w') ∧ w_db w' = w_db w ∧
  ∀ l, res = inr l → Forall (λ f, fl_Active f = true) l.
Proof.
  intros Hr. unfold cat_BatchGet. destruct (_ || _); [eexists _, w; by split_and!|]. destruct (negb _); [eexists _, w; by split_and!|].
  destruct (get_all_reads clean ids PublicRead o w Hr) as (res & w' & Hrun & Hw & Hc). exists res, w'. split_and!; try done.
  intros l ->. destruct Hc as [(fs & [= ->] & _ & Hfs)|[[? _]|(? & ? & ? & _)]]; [|done..].
  apply Forall_fmap. eapply Forall_impl; [exact Hfs|]. intros f Hf. by apply (public_active _ _ Hf).
Qed.

(** ** Over REST *)

Lemma unauthorized_public : public_resp unauthorized.
Proof. done. Qed.
Lemma manager_required_public lo : public_resp (ManagerRequired lo).
Proof. unfold ManagerRequired. by case_bool_decide. Qed.

Lemma authenticated auth required lo : cat_authenticate v auth required = inr lo → lo_Role lo = RoleManager → by_manager auth.
Proof.
  unfold cat_authenticate. destruct (_ && _); [by intros [= <-]|]. destruct (bearer_claims v auth) as [claims|] eqn:Hc; [|done].
  intros [= <-]. cbn. by exists claims.
Qed.

Lemma RequireManager_guarded auth next : (∀ lo o w, ∃ a w', next lo o w = (inr a, w')) →
  guarded (by_manager auth) public_resp (RequireManager v auth next).
Proof.
  intros Hn. unfold RequireManager. destruct (cat_authenticate v auth true) as [r|lo] eqn:Ha.
  - apply guarded_ret. unfold cat_authenticate in Ha. rewrite andb_false_r in Ha. destruct (bearer_claims v auth); [done|]. by injection Ha as <-.
  - case_bool_decide as Hr; [|apply guarded_ret, manager_required_public]. intros o w _.
    destruct (Hn lo o w) as (a & w' & ?). exists a, w'. split; [done|]. left. by eapply authenticated.
Qed.

Lemma AuthenticateIfPresent_guarded auth next :
  (∀ lo, cat_authenticate v auth false = inr lo → guarded (by_manager auth) public_resp (next lo)) →
  guarded (by_manager auth) public_resp (AuthenticateIfPresent v auth next).
Proof.
  intros Hn. unfold AuthenticateIfPresent. destruct (cat_authenticate v auth false) as [r|lo] eqn:Ha; [|by apply Hn].
  apply guarded_ret. unfold cat_authenticate in Ha. destruct (_ && _); [done|]. destruct (bearer_claims v auth); [done|]. by injection Ha as <-.
Qed.

Lemma scope_cases auth lo : cat_authenticate v auth false = inr lo → by_manager auth ∨ readScope lo = PublicRead.
Proof. intros Ha. unfold readScope. case_bool_decide; [|by right]. left. by eapply authenticated. Qed.

Lemma answers {A} (m : M CatState CErr A) (k : A → CatResp) o w : ∃ a w', answer m k o w = (inr a, w').
Proof. unfold answer, mbind, M_bind, try. destruct (m o w) as [[] w']; eauto. Qed.

Lemma Idempotency_answers keys method id body next lo o w :
  (∀ lo, ∃ a w', next lo o w = (inr a, w')) → ∃ a w', Idempotency keys method id body next lo o w = (inr a, w').
Proof.
  intros Hn. unfold Idempotency. destruct (_ || _); [apply Hn|]. destruct (if bool_decide (length keys = 1%nat) then _ else _); [|by eexists _, _].
  case_bool_decide; [apply Hn|]. destruct (uuid_parse id); [|by eexists _, _]. destruct (_ || _); [by eexists _, _|apply Hn].
Qed.

Lemma router_guarded auth keys q : guarded (by_manager auth) public_resp (cat_router pages ip_literal v auth keys q).
Proof.
  destruct q as [|active|body|id|id|id body|id body|id body]; cbn [cat_router].
  - by apply guarded_ret.
  - apply AuthenticateIfPresent_guarded. intros lo Ha. unfold h_List.
    assert (∀ a, guarded (by_manager auth) public_resp
      (if bool_decide (a = Some false) && negb (bool_decide (readScope lo = ManagerRead)) then mret (ManagerRequired lo)
       else answer (cat_List a (readScope lo)) COkList)) as Hgo.
    { intros a. destruct (_ && _); [apply guarded_ret, manager_required_public|]. apply answer_guarded.
      destruct (scope_cases _ _ Ha) as [?| ->]; [by left|]. right. apply list_public. }
    destruct active as [|raw []]; [apply Hgo| |by apply guarded_ret]. 
    destruct (bool_decide (raw = "true")); [apply (Hgo (Some true))|].
    destruct (bool_decide (raw = "false")); [apply (Hgo (Some false))|by apply guarded_ret].
  - apply RequireManager_guarded. intros lo o w. apply Idempotency_answers. intros lo'. unfold h_Create. destruct (decodeJSON body); [apply answers|by eexists _, _].
  - apply RequireManager_guarded. intros lo o w. unfold h_GetRecipe. destruct (uuid_parse id); [apply answers|by eexists _, _].
  - apply AuthenticateIfPresent_guarded. intros lo Ha. unfold h_Get. destruct (uuid_parse id); [|by apply guarded_ret].
    apply answer_guarded. destruct (scope_cases _ _ Ha) as [?| ->]; [by left|]. right. apply get_public.
  - apply RequireManager_guarded. intros lo o w. apply Idempotency_answers. intros lo'. unfold h_Replace.
    destruct (uuid_parse id); [|by eexists _, _]. destruct (decodeJSON body); [apply answers|by eexists _, _].
  - apply RequireManager_guarded. intros lo o w. apply Idempotency_answers. intros lo'. unfold h_Update.
    destruct (uuid_parse id); [|by eexists _, _]. destruct (decodeJSON body); [apply answers|by eexists _, _].
  - apply RequireManager_guarded. intros lo o w. apply Idempotency_answers. intros lo'. unfold h_Archive.
    destruct (uuid_parse id); [apply answers|by eexists _, _].
Qed.

(** ** Over gRPC *)

Definition identity_ok auth (c : GCtx) : Prop := ∀ claims, gx_identity c = Some claims → bearer_claims v auth = Some claims.

Lemma g_manager auth c : identity_ok auth c → g_requireManager c = None → by_manager auth.
Proof.
  unfold g_requireManager, identity_ok. destruct (gx_identity c) as [claims|]; [|done]. intros Hi. case_bool_decide; [|done].
  intros _. exists claims. auto.
Qed.
Lemma g_scope auth c : identity_ok auth c → by_manager auth ∨ g_readScope c = PublicRead.
Proof.
  unfold g_readScope, identity_ok. destruct (gx_identity c) as [claims|]; [|by right]. intros Hi. case_bool_decide; [|by right].
  left. exists claims. auto.
Qed.

Lemma g_answers {A} (m : M CatState CErr A) (k : A → CatRpcResp) o w : ∃ a w', g_answer m k o w = (inr a, w').
Proof. unfold g_answer, mbind, M_bind, try. destruct (m o w) as [[] w']; eauto. Qed.

Lemma handler_guarded auth q c : identity_ok auth c →
  match q with GGet _ | GList _ | GBatchGet _ => True | _ => by_manager auth end →
  guarded (by_manager auth) public_reply (g_handler pages ip_literal q c).
Proof.
  intros Hi Hm. assert (∀ l, Forall (λ f, fl_Active f = true) l → Forall (λ f, pf_Active f = true) (flavorToProto <$> l)) as Hmap.
  { intros l Hl. by apply Forall_fmap. }
  destruct q as [fl|id|active|ids|id fl|id]; cbn [g_handler].
  - unfold CreateFlavor. destruct (inputFromProto fl); [by apply guarded_ret|]. apply g_answer_guarded. by left.
  - unfold GetFlavor. destruct (uuid_parse id); [|by apply guarded_ret]. apply g_answer_guarded.
    destruct (g_scope _ _ Hi) as [?| ->]; [by left|]. right. apply get_public.
  - unfold ListFlavors. destruct (if bool_decide _ then _ else _); [by apply guarded_ret|]. apply g_answer_guarded.
    destruct (g_scope _ _ Hi) as [?| ->]; [by left|]. right. intros o w Hr.
    destruct (list_public active o w Hr) as (res & w' & ? & ? & Hl). exists res, w'. split_and!; try done. intros l Hres. by apply Hmap, Hl.
  - unfold BatchGetFlavors. destruct (_ || _); [by apply guarded_ret|]. destruct (mapM _ _); [|by apply guarded_ret]. apply g_answer_guarded.
    destruct (g_scope _ _ Hi) as [?| ->]; [by left|]. right. intros o w Hr.
    destruct (batch_public l o w Hr) as (res & w' & ? & ? & Hl). exists res, w'. split_and!; try done. intros l' Hres. by apply Hmap, Hl.
  - unfold UpdateFlavor. destruct (uuid_parse id); [|by apply guarded_ret]. destruct (inputFromProto fl); [by apply guarded_ret|].
    apply g_answer_guarded. by left.
  - unfold DeleteFlavor. destruct (uuid_parse id); [|by apply guarded_ret]. apply g_answer_guarded. by left.
Qed.

Lemma proceed_guarded rx auth q c : identity_ok auth c → guarded (by_manager auth) public_reply (g_proceed pages ip_literal rx q c).
Proof.
  intros Hi. unfold g_proceed. destruct (match q with GGet _ | GList _ | GBatchGet _ => None | _ => _ end) eqn:Hq; [by apply guarded_ret|].
  destruct (rx_before rx); [by apply guarded_ret|]. intros o w Hr.
  destruct (handler_guarded auth q c Hi) with (o := o) (w := w) as (a & w' & Hrun & Hg); [destruct q; try done; by eapply g_manager|done|].
  unfold mbind, M_bind. rewrite Hrun. destruct a as [e|a]; [destruct (rx_after rx)|]; eexists _, w'; (split; [done|]); naive_solver.
Qed.

Lemma interceptor_guarded rx auth q : guarded (by_manager auth) public_reply (cat_interceptor pages ip_literal v rx auth q).
Proof.
  unfold cat_interceptor. destruct auth as [|h auth]; [by apply proceed_guarded|].
  destruct (bearer_claims v (h :: auth)) as [claims|] eqn:Hb; [|by apply guarded_ret]. apply proceed_guarded. intros claims' [= <-]. done.
Qed.

(** C29.  Access to the catalog, over REST and over gRPC.  Every request is
    answered.  The catalog changes, a recipe or the full record of a flavor is
    shown, and an archived flavor is listed or shown only for a request with
    exactly one valid bearer token, of a manager.  A request that presents an
    invalid, malformed or repeated token is refused as unauthenticated, even
    where none would be needed. *)
Theorem catalog_access s o n auth : rtc (cat_step clean pages ip_literal canonical_ids) cat_start s →
  let w := begin (sy_state s) n in
  (∀ keys q, ∃ resp w', cat_router pages ip_literal v auth keys q o w = (inr resp, w') ∧
     (by_manager auth ∨ same_catalog (store s) (redis w') ∧ public_resp resp) ∧
     (auth ≠ [] → bearer_claims v auth = None → q ≠ CHealth → resp = CFail 401 "UNAUTHORIZED" ∧ w' = w)) ∧
  (∀ rx q, ∃ reply w', cat_interceptor pages ip_literal v rx auth q o w = (inr reply, w') ∧
     (by_manager auth ∨ same_catalog (store s) (redis w') ∧ public_reply reply) ∧
     (auth ≠ [] → bearer_claims v auth = None → reply = inl unauthenticated ∧ w' = w)).
Proof.
  intros Hreach w. destruct (reach_ok clean pages ip_literal _ _ _ (λ o H, H) (catalog_start_ok clean) Hreach) as [HI _]. split.
  - intros keys q. destruct (router_guarded auth keys q o w HI) as (resp & w' & Hrun & Hg). exists resp, w'. split_and!; [done..|].
    intros Hne Hb Hq. assert (∀ req, cat_authenticate v auth req = inl unauthorized) as Hauth.
    { intros req. unfold cat_authenticate. rewrite bool_decide_eq_false_2 by done. cbn. by rewrite Hb. }
    destruct q; try done; cbn [cat_router] in Hrun; unfold AuthenticateIfPresent, RequireManager in Hrun; rewrite Hauth in Hrun; by injection Hrun as <- <-.
  - intros rx q. destruct (interceptor_guarded rx auth q o w HI) as (reply & w' & Hrun & Hg). exists reply, w'. split_and!; [done..|].
    intros Hne Hb. unfold cat_interceptor in Hrun. destruct auth; [done|]. rewrite Hb in Hrun. by injection Hrun as <- <-.
Qed.
End access.
