(* ===== verification/CatDemo.v ===== *)
(** Catalog service: a concrete library that satisfies the laws the theorems
    rely on, and small runs on which their hypotheses hold. *)

From Stdlib Require Import Ascii.
From S2P Require Import Prelude Effects GoStd InvModel InvDemo CatModel CatService CatInv CatSystem CatIdem CatClaims.
From S2P Require Import CatCreate CatReads GoStd FulHandler CatJson CatHandler CatAccess.

(** ** A lossless encoding *)

(** A list of texts: every character is preceded by a dot, every text ends with
    a semicolon. *)
Fixpoint put_text (s rest : string) : string :=
  match s with "" => String ";"%char rest | String c s => String "."%char (String c (put_text s rest)) end.
Definition put (l : list string) : string := foldr put_text "" l.
Fixpoint get_texts (s : string) : option (list string) :=
  match s with
  | "" => Some []
  | String "."%char (String c s) =>
      match get_texts s with Some (t :: l) => Some (String c t :: l) | _ => None end
  | String ";"%char s => (λ l, "" :: l) <$> get_texts s
  | _ => None
  end.
Lemma get_put l : get_texts (put l) = Some l.
Proof.
  induction l as [|s l IH]; [done|]. cbn [put foldr]. change (foldr put_text "" l) with (put l).
  induction s as [|c s IHs]; cbn [put_text get_texts]; [by rewrite IH|by rewrite IHs].
Qed.

Fixpoint put_pos (p : positive) : string :=
  match p with xH => "" | xO p => String "0"%char (put_pos p) | xI p => String "1"%char (put_pos p) end.
Fixpoint get_pos (s : string) : positive :=
  match s with "" => xH | String "0"%char s => xO (get_pos s) | String _ s => xI (get_pos s) end.
Definition put_Z (z : Z) : string :=
  match z with Z0 => "" | Zpos p => String "+"%char (put_pos p) | Zneg p => String "-"%char (put_pos p) end.
Definition get_Z (s : string) : Z :=
  match s with "" => 0 | String "+"%char s => Zpos (get_pos s) | String _ s => Zneg (get_pos s) end.
Lemma get_put_Z z : get_Z (put_Z z) = z.
Proof.
  assert (∀ p, get_pos (put_pos p) = p) as H by (intros p; induction p as [p IH|p IH|]; cbn; by rewrite ?IH).
  destruct z; cbn; by rewrite ?H.
Qed.
Definition put_bool (b : bool) : string := if b then "1" else "".

Definition put_flavor (f : FlavorAdmin) : string :=
  let fl := fa_Flavor f in
  put ([fl_ID fl; fl_Name fl; fl_Description fl; put_Z (mo_AmountMinor (fl_Price fl)); mo_Currency (fl_Price fl); fl_ImageURL fl;
    put_bool (fl_Active fl); put_Z (fl_CreatedAt fl); put_Z (fl_UpdatedAt fl); fa_Recipe f] ++ fl_Allergens fl).
Definition get_flavor (s : string) : option FlavorAdmin :=
  match get_texts s with
  | Some (id :: name :: description :: amount :: currency :: image :: active :: created :: updated :: recipe :: allergens) =>
      Some (MkFlavorAdmin (MkFlavor id name description (MkMoney (get_Z amount) currency) image allergens
        (negb (bool_decide (active = ""))) (get_Z created) (get_Z updated)) recipe false)
  | _ => None
  end.
Definition put_reply (c : CachedReply) : string := put [ca_hash c; put_Z (ca_status c); ca_body c].
Definition get_reply (s : string) : option CachedReply :=
  match get_texts s with Some [h; st; b] => Some (MkCachedReply h (get_Z st) b) | _ => None end.
Lemma get_put_reply c : get_reply (put_reply c) = Some c.
Proof. unfold get_reply, put_reply. rewrite get_put, get_put_Z. by destruct c. Qed.

(** A digest of 64 hexadecimal digits: those of the last 32 bytes. *)
Definition hex_digit (n : nat) : Ascii.ascii := Ascii.ascii_of_nat (if bool_decide (n < 10)%nat then 48 + n else 87 + n).
Fixpoint hex_bytes (n : nat) (s : list Z) : string :=
  match n, s with
  | 0%nat, _ => ""
  | S n, [] => String "0"%char (String "0"%char (hex_bytes n []))
  | S n, b :: s => String (hex_digit (Z.to_nat (b / 16 mod 16))) (String (hex_digit (Z.to_nat (b mod 16))) (hex_bytes n s))
  end.

Lemma hex_digit_hex n : (n < 16)%nat → bool_decide (is_Some (unhex (byte_of (hex_digit n)))) = true.
Proof. intros Hn. do 16 (destruct n as [|n]; [reflexivity|]). lia. Qed.
Lemma hex_bytes_ok n s : String.length (hex_bytes n s) = (2 * n)%nat ∧ is_hex (hex_bytes n s) = true.
Proof.
  revert s. induction n as [|n IH]; intros s; [done|].
  assert (∀ z, (Z.to_nat (z mod 16) < 16)%nat) as H16 by (intros z; pose proof (Z.mod_pos_bound z 16); lia).
  destruct s as [|b s]; cbn [hex_bytes String.length].
  - destruct (IH []) as [-> Hh]. split; [lia|exact Hh].
  - destruct (IH s) as [-> Hh]. split; [lia|]. unfold is_hex. cbn [bytes forallb]. unfold is_hex in Hh. by rewrite !hex_digit_hex, Hh.
Qed.

#[local] Instance demo_cat : CatLib := {|
  flavor_json := λ f, Some (put_flavor f);
  flavor_of := get_flavor;
  record_json := λ rec, Some (put [ar_ID rec; ar_ActorID rec; ar_FlavorID rec; put_Z (ar_OccurredAt rec)]);
  created_json := λ h b, put_reply (MkCachedReply h 201 b);
  reply_json := put_reply;
  reply_of := get_reply;
  lua_cached := get_reply;
  legacy_conflict := "conflict";
  sha_hex := λ s, hex_bytes 32 (reverse (bytes s));
  lower := to_lower
|}.
#[local] Instance demo_acl : RedisAcl := λ _ _, true.
Definition any_text (_ : string) : Prop := True.

#[local] Instance demo_cat_laws : CatLaws any_text.
Proof.
  split; try done.
  - intros [[id na de [am cu] im al ac ct ut] rc fl] p _ [= <-]. unfold flavor_of, demo_cat, get_flavor, put_flavor, set_replay. rewrite get_put. cbn.
    rewrite !get_put_Z. by destruct ac.
  - intros s. unfold hash_ok. destruct (hex_bytes_ok 32 (reverse (bytes s))) as [Hl Hh]. unfold sha_hex, demo_cat. rewrite Hl, Hh. done.
  - intros h b _ _. exact (get_put_reply _).
  - intros c _ _. exact (get_put_reply _).
  - intros c _ _. exact (get_put_reply _).
Qed.

(** ** A day at the catalog *)

Definition cat_ids : list string := (λ n, demo_id (300 + N.of_nat n)) <$> seq 0 60.
Definition cat_oracle (t : Z) : oracle :=
  Oracle (λ _, None) (λ _, false) (λ _, t) (λ n, default (demo_id 300) (cat_ids !! n)).

Lemma cat_oracle_ids t : canonical_ids (cat_oracle t).
Proof.
  assert (Forall (λ s, String.length s = 36%nat) cat_ids) as H by (apply (bool_decide_unpack _); by vm_compute).
  intros n. unfold uuid_parse, demo_uuid. cbn [or_uuid cat_oracle].
  rewrite bool_decide_eq_true_2; [done|]. destruct (cat_ids !! n) as [s|] eqn:Hs; [|by vm_compute].
  rewrite Forall_lookup in H. exact (H n s Hs).
Qed.
Lemma cat_oracle_before t T : t < T → before T (cat_oracle t).
Proof. intros Ht. split; [apply cat_oracle_ids|by intros n]. Qed.

#[local] Abbreviation no_ip := (λ _ : string, false).
#[local] Abbreviation cstep_demo P := (cat_step any_text [] no_ip P).
#[local] Abbreviation begin st n := (World st n false []).
#[local] Abbreviation redis w := (cs_redis (w_db w)).

Definition digest_a : string := hex_bytes 32 [].
Definition vanilla_input : FlavorInput :=
  MkFlavorInput (Some " Vanilla ") (Some "") (Some (MkMoney 5900 "THB")) None (Some ["MILK"; "EGG"]) (Some "milk, eggs, sugar") None.
Definition cheaper : FlavorInput := MkFlavorInput None None (Some (MkMoney 4900 "THB")) None None None None.
Definition vanilla_id : string := demo_id 301.

Lemma demo_clean i : clean_input any_text i.
Proof. split_and!; try done. intros l _. by apply Forall_forall. Qed.

(** A manager creates a flavor with a key, then lowers its price with another. *)
Definition keyed (rq : IdemRequest) : CCtx := cat_WithActor manager "MANAGER" (MkCCtx None (Some rq)).
Definition rq_create : IdemRequest := MkIdemRequest key1 key1 digest_a "".
Definition rq_update : IdemRequest := MkIdemRequest key2 key2 digest_a ("PATCH:" +:+ vanilla_id).

Definition w_created_v : world CatState := (cat_Create [] no_ip (keyed rq_create) vanilla_input (cat_oracle hour) (begin (sy_state cat_start) 0)).2.
Definition s_created : Sys := MkSys (w_db w_created_v) [].
Lemma reach_created P : P (cat_oracle hour) → rtc (cstep_demo P) cat_start s_created.
Proof. intros HP. apply rtc_once. exact (S_create any_text [] no_ip P _ [] (keyed rq_create) vanilla_input (cat_oracle hour) 0 HP (demo_clean _)). Qed.

Definition plan_v := update_plan no_ip (keyed rq_update) vanilla_id cheaper (cat_oracle (2 * hour)) (begin (sy_state s_created) 0).
Definition vanilla_read : FlavorAdmin := MkFlavorAdmin (MkFlavor vanilla_id "Vanilla" "" (MkMoney 5900 "THB") "" ["EGG"; "MILK"] true hour hour) "milk, eggs, sugar" false.
Definition vanilla_new : FlavorAdmin := touch (2 * hour) (MkFlavorAdmin (MkFlavor vanilla_id "Vanilla" "" (MkMoney 4900 "THB") "" ["EGG"; "MILK"] true hour hour) "milk, eggs, sugar" false).
Definition job_v : Job := MkJob (keyed rq_update) AUpdate vanilla_read vanilla_new.
Definition s_planned : Sys := MkSys (w_db plan_v.2) [job_v].
Lemma reach_planned : rtc (cstep_demo canonical_ids) cat_start s_planned.
Proof.
  eapply rtc_r; [apply reach_created, cat_oracle_ids|]. eapply (S_update any_text [] no_ip canonical_ids _ [] (keyed rq_update) vanilla_id cheaper
    (cat_oracle (2 * hour)) 0 vanilla_read vanilla_new); [apply cat_oracle_ids|apply demo_clean|].
  apply run_pair. vm_compute. reflexivity.
Qed.
Definition commit_v : (CErr + FlavorAdmin) * world CatState :=
  repo_Update (keyed rq_update) AUpdate vanilla_read vanilla_new (cat_oracle (3 * hour)) (begin (sy_state s_planned) 0).

Lemma catalog_invariant_witness : ∃ f, stored any_text (cs_redis (sy_state s_created)) vanilla_id f ∧
  audited (cs_redis (sy_state s_created)) vanilla_id f ∧
  cs_redis (sy_state s_created) !! nameKey (fa_Name f) = Some (VStr vanilla_id None).
Proof.
  apply (proj1 (catalog_invariant any_text [] no_ip s_created (reach_created _ (cat_oracle_ids _))) vanilla_id
    (VStr (put_flavor vanilla_read) None)). vm_compute. reflexivity.
Defined.

Lemma no_lost_update_witness :
  stored any_text (cs_redis (sy_state s_planned)) vanilla_id vanilla_read ∧ stored any_text (redis commit_v.2) vanilla_id vanilla_new.
Proof.
  refine (proj2 (proj2 (no_lost_update any_text [] no_ip s_planned reach_planned) job_v (cat_oracle (3 * hour)) 0%nat vanilla_new commit_v.2 _ _ _)).
  - by left.
  - apply run_pair. vm_compute. reflexivity.
  - reflexivity.
Defined.

(** The update, sent a second time five hours later. *)
Lemma catalog_reads_witness :
  cat_Get vanilla_id PublicRead (cat_oracle hour) (begin (sy_state s_created) 0) =
    (inr (fa_Flavor vanilla_read), begin (sy_state s_created) 1) ∧
  ∃ f, fa_Flavor vanilla_read = fa_Flavor f ∧ shown any_text (cs_redis (sy_state s_created)) PublicRead f.
Proof.
  assert (cat_Get vanilla_id PublicRead (cat_oracle hour) (begin (sy_state s_created) 0) =
    (inr (fa_Flavor vanilla_read), begin (sy_state s_created) 1)) as Hget by (vm_compute; reflexivity).
  split; [exact Hget|].
  destruct (catalog_reads any_text [] no_ip s_created PublicRead (cat_oracle hour) 0%nat (reach_created _ (cat_oracle_ids _))) as (_ & H & _).
  destruct (H vanilla_id) as (res & w' & Hrun & _ & Hcase). rewrite Hget in Hrun. injection Hrun as <- <-.
  destruct Hcase as [(f & [= Hf] & _ & Hs)|[[? _]|(e & k & ? & _)]]; [|discriminate..]. exists f. split; [exact Hf|exact Hs].
Defined.

(** The creation, sent a second time five hours later, after the update. *)
Lemma keyed_request_once_witness :
  (redis commit_v.2 ≠ cs_redis (sy_state s_planned) ∧
   ∀ res w2, cat_Update no_ip (keyed rq_update) vanilla_id cheaper (cat_oracle (8 * hour)) (begin (w_db commit_v.2) 0) = (res, w2) →
     redis w2 = redis commit_v.2 ∧ ∀ g, res = inr g → g = set_replay true vanilla_new) ∧
  (cs_redis (sy_state s_created) !! KFlavor vanilla_id ≠ None ∧
   ∃ f, stored any_text (cs_redis (sy_state s_created)) (fa_ID f) f ∧
     ∀ res w2, cat_Create [] no_ip (keyed rq_create) vanilla_input (cat_oracle (6 * hour)) (begin (w_db commit_v.2) 0) = (res, w2) →
       redis w2 = redis commit_v.2 ∧ ∀ g, res = inr g → g = set_replay true f).
Proof.
  split.
  {
    assert (redis commit_v.2 ≠ cs_redis (sy_state s_planned)) as Hne.
    { intros H. apply (f_equal (lookup (KMutation key2))) in H. vm_compute in H. discriminate. }
    split; [exact Hne|]. intros res w2 Hrun.
    destruct (keyed_request_once any_text [] no_ip s_planned 0%nat reach_planned) as [Hmut _].
    destruct (Hmut job_v rq_update (cat_oracle (3 * hour))
      ltac:(by left) eq_refl ltac:(vm_compute; discriminate)) as [H|(m & H)]; [destruct (Hne H)|].
    destruct (H [] (MkSys (w_db commit_v.2) []) (cat_oracle (8 * hour)) 0%nat (keyed rq_update) rq_update (rtc_refl _ _)
      (cat_oracle_before (8 * hour) (3 * hour + IdemTTL) eq_refl) eq_refl eq_refl) as [Hupd _].
    destruct (Hupd _ _ _ _ Hrun) as [? Hg]. split; [done|]. intros g Hres. apply (Hg g Hres).
  }
  split; [vm_compute; discriminate|].
  destruct (keyed_request_once any_text [] no_ip cat_start 0%nat (rtc_refl _ _)) as [_ Hcreate].
  destruct (Hcreate (keyed rq_create) rq_create vanilla_input (cat_oracle hour)
    (cat_Create [] no_ip (keyed rq_create) vanilla_input (cat_oracle hour) (begin (sy_state cat_start) 0)).1 w_created_v
    (cat_oracle_ids _) (demo_clean _) eq_refl ltac:(by apply run_pair)) as [Hs|(f & m & Hst & _ & H)].
  { specialize (Hs (KFlavor vanilla_id) (λ H, H)). vm_compute in Hs. discriminate. }
  exists f. split; [exact Hst|]. intros res w2 Hrun.
  destruct (H [] (MkSys (w_db commit_v.2) []) (cat_oracle (6 * hour)) 0%nat (keyed rq_create) rq_create vanilla_input res w2) as [Hw Hg].
  - eapply rtc_l; [|eapply rtc_once].
    + eapply (S_update any_text [] no_ip _ _ [] (keyed rq_update) vanilla_id cheaper (cat_oracle (2 * hour)) 0 vanilla_read vanilla_new);
        [by apply cat_oracle_before|apply demo_clean|]. apply run_pair. vm_compute. reflexivity.
    + exact (S_commit any_text [] no_ip (before (hour + IdemTTL)) _ [] job_v [] (cat_oracle (3 * hour)) 0
        (cat_oracle_before (3 * hour) (hour + IdemTTL) eq_refl)).
  - by apply cat_oracle_before.
  - reflexivity.
  - reflexivity.
  - exact Hrun.
  - split; [exact Hw|]. intros g Hres. apply (Hg g Hres).
Defined.

(** ** Requests *)

#[local] Instance demo_jwt : Jwt := λ _ _ _ raw,
  if bool_decide (raw = "good") then Some (MkClaims RoleManager manager (Some 0) (Some (24 * hour))) else None.
(** Every body is [{"price": {"amount_minor": 4900, "currency": "THB"}}]. *)
#[local] Instance demo_json : JsonLib := {|
  json_tokens := λ _, MkJTokens (flatten (JObject [("price"%string,
    JObject [("amount_minor"%string, JLeaf (TNum "4900")); ("currency"%string, JLeaf (TStr "THB"))])])) true;
  json_input := λ _, Some cheaper
|}.
Definition demo_verifier : Verifier := MkVerifier "secret" "issuer" "audience".

Example demo_body : decodeJSON "{...}" = Some cheaper.
Proof. reflexivity. Qed.

(** A manager's PATCH changes the price; without a token it is refused. *)
Definition patched (auth : list string) : (CErr + CatResp) * world CatState :=
  cat_router [] no_ip demo_verifier auth [key2] (CUpdate vanilla_id "{...}") (cat_oracle (3 * hour)) (begin (sy_state s_created) 0).
Lemma catalog_access_witness :
  (∃ f, (patched ["Bearer good"]).1 = inr (COkAdmin 200 f false) ∧ mo_AmountMinor (fl_Price (fa_Flavor f)) = 4900) ∧
  (patched []).1 = inr (CFail 401 "UNAUTHORIZED") ∧ same_catalog (cs_redis (sy_state s_created)) (redis (patched []).2).
Proof.
  split; [eexists; split; vm_compute; reflexivity|]. split; [vm_compute; reflexivity|].
  destruct (proj1 (catalog_access any_text [] no_ip demo_verifier s_created (cat_oracle (3 * hour)) 0%nat []
    (reach_created _ (cat_oracle_ids _))) [key2] (CUpdate vanilla_id "{...}")) as (resp & w' & Hrun & [(claims & Hb & _)|[Hs _]] & _).
  - vm_compute in Hb. discriminate.
  - unfold patched. rewrite Hrun. exact Hs.
Defined.
