(* ===== verification/OrdHttp.v ===== *)
(** Order service: its HTTP handlers ([internal/handler]), its gRPC server
    ([internal/grpc]), its client of the Fulfillment service
    ([internal/client/fulfillment_client.go]) and its publisher of events
    ([internal/publisher]).

    Requests are as Fiber hands them over: header names are in the canonical
    form that fasthttp gives them ([HeaderKeys]), a path parameter is text. *)

From S2P Require Import Prelude Effects GoStd InvModel FulModel OrdModel OrdService.
#[local] Open Scope string_scope.
#[local] Open Scope list_scope.
#[local] Open Scope Z_scope.

(** ** Headers *)

Class HeaderKeys := canonical_key : string → string.
(** Names of letters, digits and hyphens. *)
Definition plain_name (s : string) : bool :=
  forallb (λ b, between 48 57 b || between 65 90 b || between 97 122 b || (b =? 45)) (bytes s).
(** Making a name canonical changes only the case of its letters, and names that
    differ only in case have one canonical form. *)
Class HeaderLaws (keys : HeaderKeys) := {
  canonical_lower : ∀ k, to_lower (canonical_key k) = to_lower k;
  canonical_again : ∀ k, canonical_key (canonical_key k) = canonical_key k;
  canonical_fold : ∀ k k', plain_name k' = true → to_lower k = to_lower k' → canonical_key k = canonical_key k'
}.

Abbreviation Headers := (list (string * string)).

Section headers.
Context {keys : HeaderKeys}.

(** The headers of an arriving request. *)
Definition parse_headers (raw : Headers) : Headers := (λ kv, (canonical_key kv.1, kv.2)) <$> raw.
(** [c.Get(name)]: the first value, or nothing. *)
Definition header_get (name : string) (h : Headers) : string :=
  match filter (λ kv, kv.1 = canonical_key name) h with [] => "" | kv :: _ => kv.2 end.
End headers.

(** ** Answers *)

Inductive HResp :=
  | HCreated (r : CheckoutResponse)
  | HOrder (order : Order)
  | HNoContent
  | HErr (status : Z) (code message : string) (details : option string).

(** What [encoding/json] makes of a body: the pickup time and the items of an
    order, the reason of a cancellation. *)
Class OrderJson := { decode_create : string → option (Z * list OrderItemInput); decode_reason : string → option string }.

Record OrderRequest := MkOrderRequest { oq_Headers : list (string * string); oq_Body : string }.
(** The routes of [cmd/server/main.go]. *)
Inductive OrderRoute :=
  | RouteCreate
  | RouteGet (id : string)
  | RoutePaymentSucceeded (id : string)
  | RoutePaymentFailed (id : string)
  | RouteCancel (id : string)
  | RouteStoreCancel (id : string).

Section handlers.
Context {X : Type} {uuid : UuidLib} {pg : PgUuid} {ids : OrderIds} {inv : InventoryClient X} {keys : HeaderKeys} {json : OrderJson}.
(** The clients, which pass on the bearer header that the caller stored, and the
    token of the Payment service. *)
Context (env_for : option string → Env) (paymentToken : string).
Abbreviation Svc := (M (OSt X) SErr).

Definition writeError (e : SErr) : HResp :=
  match e with
  | SApp e => HErr (ae_HTTPStatus e) (ae_Code e) (ae_Message e) (ae_Details e)
  | _ => HErr 500 "INTERNAL_ERROR" "an unexpected error occurred" None
  end.
Definition h_fail (code message : string) (status : Z) : Svc HResp := mret (writeError (SApp (app code message status))).

(** [if err != nil { return writeError(c, err) }]. *)
Definition or_write {A} (m : Svc A) (k : A → Svc HResp) : Svc HResp :=
  r ← (try m : Svc (SErr + A));
  match r with inl e => mret (writeError e) | inr a => k a end.

Definition authenticatedUserID (q : OrderRequest) : option string := uuid_parse (header_get "X-User-ID" (oq_Headers q)).
(** The Authorization header, if it is a bearer token. *)
Definition caller_bearer (q : OrderRequest) : option string :=
  let bearer := trim_space (header_get "Authorization" (oq_Headers q)) in
  if has_prefix "bearer " (to_lower bearer) then Some bearer else None.

Definition h_CreateOrder (q : OrderRequest) : Svc HResp :=
  match decode_create (oq_Body q) with
  | None => h_fail "INVALID_JSON" "request body must be valid JSON" 400
  | Some (pickup, items) =>
      match authenticatedUserID q with
      | None => h_fail "UNAUTHENTICATED" "authenticated customer identity is required" 401
      | Some customer =>
          or_write (PlaceOrder (env_for (caller_bearer q)) (MkCreateOrderInput customer pickup items)
                      (header_get "Idempotency-Key" (oq_Headers q)))
            (λ r, mret (HCreated r))
      end
  end.

Definition h_GetOrder (id : string) (q : OrderRequest) : Svc HResp :=
  match authenticatedUserID q with
  | None => h_fail "UNAUTHENTICATED" "authenticated customer identity is required" 401
  | Some userID =>
      or_write (GetOrder id) (λ order,
        if negb (bool_decide (userID = o_CustomerID order)) then h_fail "FORBIDDEN" "order does not belong to this customer" 403
        else mret (HOrder order))
  end.

Definition authorizePaymentService (q : OrderRequest) (next : Svc HResp) : Svc HResp :=
  if bool_decide (header_get "X-Payment-Service-Token" (oq_Headers q) = paymentToken) then next
  else h_fail "UNAUTHENTICATED" "payment service authentication required" 401.
Definition h_PaymentSucceeded (id : string) (q : OrderRequest) : Svc HResp :=
  authorizePaymentService q (or_write (ConfirmPayment id) (λ _, mret HNoContent)).
Definition h_PaymentFailed (id : string) (q : OrderRequest) : Svc HResp :=
  authorizePaymentService q (or_write (CancelOrder id "PAYMENT_FAILED") (λ _, mret HNoContent)).

Definition h_CancelOrder (id : string) (q : OrderRequest) : Svc HResp :=
  match decode_reason (oq_Body q) with
  | None => h_fail "INVALID_JSON" "request body must be valid JSON" 400
  | Some reason =>
      if negb (bool_decide (reason = "CUSTOMER_REQUEST")) then h_fail "INVALID_ARGUMENT" "reason must be CUSTOMER_REQUEST" 400
      else or_write (GetOrder id) (λ order,
        match authenticatedUserID q with
        | Some userID =>
            if bool_decide (userID = o_CustomerID order) then or_write (CancelOrder (o_ID order) reason) (λ _, mret HNoContent)
            else h_fail "FORBIDDEN" "order does not belong to this customer" 403
        | None => h_fail "FORBIDDEN" "order does not belong to this customer" 403
        end)
  end.

Definition h_StoreCancelOrder (id : string) (q : OrderRequest) : Svc HResp :=
  match authenticatedUserID q, caller_bearer q with
  | Some _, Some bearer =>
      let role := header_get "X-User-Role" (oq_Headers q) in
      if negb (bool_decide (role = "STAFF")) && negb (bool_decide (role = "MANAGER")) then
        h_fail "FORBIDDEN" "staff or manager role is required" 403
      else or_write (StoreCancelOrder (env_for (Some bearer)) id) (λ _, mret HNoContent)
  | _, _ => h_fail "UNAUTHENTICATED" "authenticated staff identity is required" 401
  end.

Definition order_app (route : OrderRoute) (q : OrderRequest) : Svc HResp :=
  match route with
  | RouteCreate => h_CreateOrder q
  | RouteGet id => h_GetOrder id q
  | RoutePaymentSucceeded id => h_PaymentSucceeded id q
  | RoutePaymentFailed id => h_PaymentFailed id q
  | RouteCancel id => h_CancelOrder id q
  | RouteStoreCancel id => h_StoreCancelOrder id q
  end.
End handlers.

(** ** The gRPC server *)

Record PbOrderItem := MkPbOrderItem { bi_FlavorId : string; bi_FlavorName : string; bi_Portions : Z; bi_UnitPriceMinor : Z; bi_SubtotalMinor : Z }.
Record PbOrderDetails := MkPbOrderDetails {
  bd_OrderId : string; bd_CustomerId : string; bd_Status : string; bd_PickupAt : string; bd_TotalAmountMinor : Z; bd_Currency : string;
  bd_Items : list PbOrderItem; bd_PaymentIntentId : string
}.

Section grpc.
Context {X : Type} {uuid : UuidLib} {pg : PgUuid}.
Abbreviation G := (M (OSt X) RpcErr).

Definition item_toProto (it : OrderItem) : PbOrderItem :=
  MkPbOrderItem (oi_FlavorID it) (oi_FlavorName it) (oi_Portions it) (oi_UnitPriceMinor it) (oi_SubtotalMinor it).
Definition status_text (s : OrderStatus) : string :=
  match s with
  | StatusPendingPayment => "PENDING_PAYMENT"
  | StatusCancelPending => "CANCEL_PENDING"
  | StatusPaymentConfirming => "PAYMENT_CONFIRMING"
  | StatusPaid => "PAID"
  | StatusPreparing => "PREPARING"
  | StatusReadyForPickup => "READY_FOR_PICKUP"
  | StatusCompleted => "COMPLETED"
  | StatusCancelled => "CANCELLED"
  | StatusStoreCancelPending => "STORE_CANCEL_PENDING"
  end.

(** The order of a request, after its id was checked; messages are given without
    the id and the cause that they quote. *)
Definition order_of (orderID : string) : G Order :=
  match uuid_parse orderID with
  | None => throw (RpcStatus InvalidArgument "invalid order_id: must be a UUID")
  | Some _ =>
      r ← (try (Get orderID) : G (RErr + Order));
      match r with
      | inl RNotFound => throw (RpcStatus NotFound "order not found")
      | inl _ => throw (RpcStatus Internal "failed to get order")
      | inr order => mret order
      end
  end.

(** [StreamOrderItems] over the messages of its stream: [None] is an error of
    [Recv], the end of the list the end of the stream. *)
Fixpoint grpc_StreamOrderItems (recv : list (option string)) (items : list PbOrderItem) : G (list PbOrderItem) :=
  match recv with
  | [] => mret items
  | None :: _ => throw (RpcStatus Internal "recv error")
  | Some id :: recv =>
      let orderID := trim_space id in
      if bool_decide (orderID = "") then grpc_StreamOrderItems recv items
      else order ← order_of orderID; grpc_StreamOrderItems recv (items ++ (item_toProto <$> o_Items order))
  end.

Definition grpc_GetOrderDetails (req : option string) : G PbOrderDetails :=
  match req with
  | None => throw (RpcStatus InvalidArgument "request is required")
  | Some id =>
      let orderID := trim_space id in
      if bool_decide (orderID = "") then throw (RpcStatus InvalidArgument "order_id is required")
      else
        order ← order_of orderID;
        mret (MkPbOrderDetails (o_ID order) (o_CustomerID order) (status_text (o_Status order)) (format_rfc3339 (o_PickupAt order))
          (o_TotalAmountMinor order) (o_Currency order) (item_toProto <$> o_Items order) (o_CheckoutSessionID order))
  end.
End grpc.

(** ** The client of Fulfillment *)

(** The answer to a GET: nothing if the call failed, else status and body. *)
Abbreviation HttpGet := (string → option string → option (Z * string)).
Record CapacityJson := MkCapacityJson { cp_active_ticket_count : Z; cp_active_count : Z; cp_capacity : Z; cp_count : Z }.
(** [encoding/json] on a ticket (its status) and on a capacity; [url.Parse] of
    the base with the path and the query in place. *)
Class FulfillmentJson := { decode_ticket : string → option string; decode_capacity : string → option CapacityJson; capacity_url : string → string → option string }.

Section fulfillment_client.
Context {uuid : UuidLib} {json : FulfillmentJson}.
Context (get : HttpGet) (baseURL : string).

Definition client_GetTicket (bearer : option string) (orderID : string) : TicketErr + string :=
  match uuid_parse orderID with
  | None => inl TicketOther
  | Some id =>
      match get (baseURL +:+ "/api/v1/fulfillments/" +:+ id) bearer with
      | None => inl TicketOther
      | Some (code, body) =>
          if code =? 404 then inl ErrTicketNotFound
          else if (code =? 401) || (code =? 403) then inl ErrTicketForbidden
          else if negb (code =? 200) then inl TicketOther
          else match decode_ticket body with
          | None => inl TicketOther
          | Some st => if bool_decide (st = "") then inl TicketOther else inr st
          end
      end
  end.

Definition first_count (d : CapacityJson) : Z :=
  let count := cp_active_ticket_count d in
  let count := if (count =? 0) && (0 <? cp_active_count d) then cp_active_count d else count in
  let count := if (count =? 0) && (0 <? cp_capacity d) then cp_capacity d else count in
  if (count =? 0) && (0 <? cp_count d) then cp_count d else count.

Definition client_CheckSlotCapacity (slotStart : Z) : option Z :=
  match capacity_url baseURL (format_rfc3339 slotStart) with
  | None => None
  | Some url =>
      match get url None with
      | None => None
      | Some (code, body) =>
          if code =? 404 then Some 0
          else if negb (code =? 200) then None
          else first_count <$> decode_capacity body
      end
  end.
End fulfillment_client.

(** ** The publisher of events

    [rabbitPublisher]: one session at a time, of which the next sequence number
    is kept.  What the network answers is given with each call. *)

Record ConnectRun := MkConnectRun { cr_dial : bool; cr_restore : bool; cr_channel : bool; cr_exchange : bool; cr_confirm : bool; cr_clear : bool }.
Definition connectRabbitMQ (r : ConnectRun) : option Z :=
  if negb (cr_dial r) then None
  else if negb (cr_restore r) then None
  else if negb (cr_channel r) then None
  else if negb (cr_exchange r) then None
  else if negb (cr_confirm r) then None
  else if negb (cr_clear r) then None
  else Some 1.

Inductive Returns := NoReturn | ReturnOf (id : string) | ReturnsClosed.
(** What the select hears first: a return, a confirmation, with what waits on the
    other channel then, or the end of the context. *)
Inductive Heard :=
  | HeardReturn (r : Returns)
  | HeardConfirm (tag : Z) (ack : bool) (returns : Returns)
  | HeardClosed
  | HeardDone.
Record PublishRun := MkPublishRun { ur_ctx : bool; ur_connect : ConnectRun; ur_deadline : bool; ur_publish : bool; ur_heard : Heard; ur_clear : bool }.

Record Publisher := MkPublisher { pu_session : option Z; pu_closed : bool }.
Definition discardConnection (p : Publisher) : Publisher := MkPublisher None (pu_closed p).
Definition ensureConnected (r : ConnectRun) (p : Publisher) : option Publisher :=
  if pu_closed p then None
  else match pu_session p with
  | Some _ => Some p
  | None => match connectRabbitMQ r with None => None | Some next => Some (MkPublisher (Some next) (pu_closed p)) end
  end.

(** Whether the event with sequence number [seq] was confirmed. *)
Definition heard_ok (seq : Z) (h : Heard) : bool :=
  match h with
  | HeardReturn _ | HeardClosed | HeardDone => false
  | HeardConfirm tag ack returns =>
      if negb (tag =? seq) then false
      else if negb ack then false
      else match returns with NoReturn => true | ReturnOf _ | ReturnsClosed => false end
  end.
(** [Publish]: whether it succeeds. *)
Definition publisher_Publish (r : PublishRun) (p : Publisher) : bool * Publisher :=
  if negb (ur_ctx r) then (false, p)
  else match ensureConnected (ur_connect r) p with
  | None => (false, p)
  | Some p =>
      match pu_session p with
      | None => (false, p)
      | Some seq =>
          let ok := ur_deadline r && ur_publish r && heard_ok seq (ur_heard r) && ur_clear r in
          if ok then (true, MkPublisher (Some (seq + 1)) (pu_closed p)) else (false, discardConnection p)
      end
  end.
Definition publisher_Close (p : Publisher) : Publisher := if pu_closed p then p else discardConnection (MkPublisher (pu_session p) true).

(** Success means that the broker confirmed this very message, on the session it
    was sent in, and did not return it.  After a failure there is no session, so
    that nothing a broker says late can confirm a later attempt.  A closed
    publisher never succeeds again. *)
Lemma publish_confirmed r p ok p' : publisher_Publish r p = (ok, p') →
  pu_closed p' = pu_closed p ∧
  if ok then pu_closed p = false ∧ ∃ seq, ur_heard r = HeardConfirm seq true NoReturn ∧ pu_session p' = Some (seq + 1) ∧
    (pu_session p = Some seq ∨ (pu_session p = None ∧ seq = 1))
  else p' = p ∨ pu_session p' = None.
Proof.
  unfold publisher_Publish. destruct (negb (ur_ctx r)); [intros [= <- <-]; auto|].
  unfold ensureConnected. destruct (pu_closed p) eqn:Hc; [intros [= <- <-]; auto|].
  assert (∀ seq q, pu_session q = Some seq → pu_closed q = false → (pu_session p = Some seq ∨ (pu_session p = None ∧ seq = 1)) →
    (let ok := ur_deadline r && ur_publish r && heard_ok seq (ur_heard r) && ur_clear r in
     if ok then (true, MkPublisher (Some (seq + 1)) (pu_closed q)) else (false, discardConnection q)) = (ok, p') →
    pu_closed p' = false ∧ if ok then false = false ∧ ∃ seq, ur_heard r = HeardConfirm seq true NoReturn ∧ pu_session p' = Some (seq + 1) ∧
      (pu_session p = Some seq ∨ (pu_session p = None ∧ seq = 1)) else p' = p ∨ pu_session p' = None) as Hgo.
  { intros seq q Hq Hqc Hp. cbv zeta. destruct (_ && _) eqn:Hb; intros [= <- <-]; cbn; [|by auto]. split; [done|]. split; [done|].
    exists seq. split_and!; try done. apply andb_true_iff in Hb as [[_ Hh]%andb_true_iff _]. unfold heard_ok in Hh.
    destruct (ur_heard r) as [|tag ack returns| |]; try done. destruct (tag =? seq) eqn:Ht; [|done]. apply Z.eqb_eq in Ht as ->.
    destruct ack; [|done]. by destruct returns. }
  destruct (pu_session p) as [seq|] eqn:Hs.
  - rewrite Hs. apply Hgo; auto.
  - destruct (connectRabbitMQ _) as [next|] eqn:Hn; [|intros [= <- <-]; auto]. cbn [pu_session]. apply Hgo; [done..|].
    right. split; [done|]. unfold connectRabbitMQ in Hn. repeat case_match; congruence.
Qed.
