(* ===== verification/Gateway.v ===== *)
(** API gateway ([api-gateway/internal]): tokens, identity headers, limits and
    routes in front of the services, and with it what the Order service may rely
    on.

    Fiber's choice of a route by method and path, its limiter, and the proxy that
    hands a request to a service are parameters. *)

From S2P Require Import Prelude Effects GoStd InvModel FulModel FulHandler OrdModel OrdService OrdSteps OrdTheorems OrdPlaceClaims OrdHttp.
#[local] Open Scope string_scope.
#[local] Open Scope list_scope.
#[local] Open Scope Z_scope.

(** ** Headers and identity *)

(** The headers, the locals that the middleware sets, and the peer. *)
Record GCtx := MkGCtx { gc_Headers : Headers; gc_UserID : string; gc_UserRole : string; gc_IP : string }.
Definition set_gheaders (f : Headers → Headers) (c : GCtx) : GCtx := MkGCtx (f (gc_Headers c)) (gc_UserID c) (gc_UserRole c) (gc_IP c).
Definition set_locals (id role : string) (c : GCtx) : GCtx := MkGCtx (gc_Headers c) id role (gc_IP c).

Section middleware.
Context {uuid : UuidLib} {jwt : Jwt} {keys : HeaderKeys}.

Definition header_del (k : string) (h : Headers) : Headers := filter (λ kv, kv.1 ≠ canonical_key k) h.
(** [Header.Set]: the first header of that name, or a new one. *)
Fixpoint header_set (k v : string) (h : Headers) : Headers :=
  match h with
  | [] => [(canonical_key k, v)]
  | kv :: h => if bool_decide (kv.1 = canonical_key k) then (kv.1, v) :: h else kv :: header_set k v h
  end.

Definition identity_header (key : string) : bool :=
  let lower := to_lower key in
  has_prefix "x-user" lower || has_prefix "x-role" lower || has_prefix "x-authenticated-" lower.
Definition StripIdentityHeaders (h : Headers) : Headers :=
  foldl (λ h k, header_del k h) h (filter (λ k, identity_header k = true) h.*1).

Definition HeaderXUserID : string := "X-User-ID".
Definition HeaderXUserRole : string := "X-User-Role".
Definition InjectUserHeaders (c : GCtx) : GCtx :=
  let c := if bool_decide (gc_UserID c = "") then c else set_gheaders (header_set HeaderXUserID (gc_UserID c)) c in
  if bool_decide (gc_UserRole c = "") then c else set_gheaders (header_set HeaderXUserRole (gc_UserRole c)) c.

(** [(v *Verifier) Parse]. *)
Definition gw_Parse (v : Verifier) (raw : string) : option Claims :=
  match ParseWithClaims (vf_secret v) (vf_issuer v) (vf_audience v) raw with
  | None => None
  | Some claims =>
      if bool_decide (cl_IssuedAt claims = None) || bool_decide (cl_ExpiresAt claims = None) then None
      else if bool_decide (uuid_parse (cl_Subject claims) = None) || negb (Role_Valid (cl_Role claims)) then None
      else Some claims
  end.

(** [authenticate]; [None] is the answer 401. *)
Definition gw_authenticate (v : Verifier) (required : bool) (c : GCtx) : option GCtx :=
  let c := set_locals "" "" c in
  let count := length (filter (λ kv, equal_fold kv.1 "Authorization" = true) (gc_Headers c)) in
  if bool_decide (count = 0%nat) && negb required then Some c
  else if negb (bool_decide (count = 1%nat)) then None
  else match fields (header_get "Authorization" (gc_Headers c)) with
  | [scheme; raw] =>
      if negb (equal_fold scheme "Bearer") then None
      else match gw_Parse v raw with
      | None => None
      | Some claims => Some (set_locals (cl_Subject claims) (cl_Role claims) c)
      end
  | _ => None
  end.

(** ** Limits

    Where the limiter keeps its counts is its own affair. *)

Record RateLimiterConfig := MkLimiterConfig { lc_Max : Z; lc_Expiration : Z; lc_Key : option (GCtx → string) }.
Definition DefaultPublicRateLimit : Z := 100.
Definition DefaultAuthRateLimit : Z := 300.
Definition DefaultRateLimitWindow : Z := minute.
Definition limiter_config (max : Z) (configs : list RateLimiterConfig) : RateLimiterConfig :=
  let cfg := MkLimiterConfig max DefaultRateLimitWindow None in
  match configs with
  | [] => cfg
  | c :: _ => MkLimiterConfig (if 0 <? lc_Max c then lc_Max c else lc_Max cfg)
                (if 0 <? lc_Expiration c then lc_Expiration c else lc_Expiration cfg)
                (match lc_Key c with Some k => Some k | None => lc_Key cfg end)
  end.
Definition user_key (c : GCtx) : string := if bool_decide (gc_UserID c = "") then "ip:" +:+ gc_IP c else "user:" +:+ gc_UserID c.

(** [limiter.New]: whether it lets the request of a key pass now. *)
Context (passes : Z → Z → string → bool).
Context {R : Type} (refuse : Z → string → R).
Definition limited (cfg : RateLimiterConfig) (key : GCtx → string) (next : GCtx → R) (c : GCtx) : R :=
  if passes (lc_Max cfg) (lc_Expiration cfg) ((default key (lc_Key cfg)) c) then next c else refuse 429 "RATE_LIMITED".
Definition PublicRateLimiter (configs : list RateLimiterConfig) : (GCtx → R) → GCtx → R :=
  limited (limiter_config DefaultPublicRateLimit configs) gc_IP.
Definition AuthenticatedRateLimiter (configs : list RateLimiterConfig) : (GCtx → R) → GCtx → R :=
  limited (limiter_config DefaultAuthRateLimit configs) user_key.

Definition RequireAuth (v : Verifier) (next : GCtx → R) (c : GCtx) : R :=
  match gw_authenticate v true c with None => refuse 401 "UNAUTHORIZED" | Some c => next (InjectUserHeaders c) end.
Definition AuthenticateIfPresent (v : Verifier) (next : GCtx → R) (c : GCtx) : R :=
  match gw_authenticate v false c with None => refuse 401 "UNAUTHORIZED" | Some c => next (InjectUserHeaders c) end.

(** ** Routes *)

Inductive Service := SAuth | SCatalog | SInventory | SOrder | SFulfillment | SAnalytics | SPayment | SNotification.
#[global] Instance Service_eq_dec : EqDecision Service.
Proof. solve_decision. Defined.
Inductive Chain := ChPublic | ChOptional | ChRequired.
Record GRoute := MkGRoute { gr_Method : option string; gr_Path : string; gr_Chain : Chain; gr_Service : Service }.

(** In the order of their registration, below /api/v1; [None] is any method. *)
Definition gw_routes : list GRoute := [
  MkGRoute (Some "POST") "/auth/signup" ChPublic SAuth;
  MkGRoute (Some "POST") "/auth/login" ChPublic SAuth;
  MkGRoute None "/auth/*" ChRequired SAuth;
  MkGRoute (Some "GET") "/flavors" ChOptional SCatalog;
  MkGRoute (Some "GET") "/flavors/*" ChOptional SCatalog;
  MkGRoute None "/flavors" ChRequired SCatalog;
  MkGRoute None "/flavors/*" ChRequired SCatalog;
  MkGRoute (Some "GET") "/inventory/availability" ChOptional SInventory;
  MkGRoute None "/inventory/*" ChRequired SInventory;
  MkGRoute None "/orders" ChRequired SOrder;
  MkGRoute None "/orders/*" ChRequired SOrder;
  MkGRoute None "/fulfillments/*" ChRequired SFulfillment;
  MkGRoute None "/analytics/*" ChRequired SAnalytics;
  MkGRoute (Some "POST") "/payments/webhook" ChPublic SPayment;
  MkGRoute None "/payments" ChRequired SPayment;
  MkGRoute None "/payments/*" ChRequired SPayment;
  MkGRoute (Some "GET") "/notifications/stream" ChRequired SNotification
].

(** Whether Fiber matches a method and a path against a registered pattern, and
    what a service answers to the forwarded headers. *)
Context (matches : option string → string → bool) (proxy : Service → Headers → R).

Definition handle_route (v : Verifier) (r : GRoute) : GCtx → R :=
  let forward c := proxy (gr_Service r) (gc_Headers c) in
  match gr_Chain r with
  | ChPublic => PublicRateLimiter [] forward
  | ChOptional => AuthenticateIfPresent v forward
  | ChRequired => RequireAuth v (AuthenticatedRateLimiter [] forward)
  end.
Definition gateway (v : Verifier) (raw : Headers) (ip : string) : R :=
  match list_find (λ r, matches (gr_Method r) (gr_Path r) = true) gw_routes with
  | None => refuse 404 "NOT_FOUND"
  | Some (_, r) => handle_route v r (MkGCtx (StripIdentityHeaders (parse_headers raw)) "" "" ip)
  end.
End middleware.

(** ** The proxy of event streams

    [internal/proxy/sse.go]; the connection header of the upstream request is
    the transport's own, and names of headers it reads are ASCII. *)

(** An upstream answer: a buffered body, or what successive reads of its stream
    give, with the bytes and whether the read failed. *)
Record Upstream := MkUpstream { us_Status : Z; us_Headers : Headers; us_Body : string; us_Stream : option (list (string * bool)) }.
Inductive SseAnswer :=
  | SseFail (status : Z) (code : string)
  | SseBody (status : Z) (h : Headers) (body : string)
  | SseStream (h : Headers) (written : list string).

(** Reading, writing and flushing until one of them fails; [write_ok n] says
    whether the write and the flush of the [n]-th chunk succeed.  The result is
    what was flushed. *)
Fixpoint stream_copy (write_ok : nat → bool * bool) (n : nat) (reads : list (string * bool)) : list string :=
  match reads with
  | [] => []
  | (chunk, failed) :: reads =>
      let rest n := if (failed : bool) then [] else stream_copy write_ok n reads in
      if bool_decide (chunk = "") then rest n
      else if negb (write_ok n).1 then []
      else if negb (write_ok n).2 then []
      else chunk :: rest (S n)
  end.

Section sse.
Context {keys : HeaderKeys}.

Definition sse_request (h : Headers) : Headers :=
  foldl (λ req kv, if equal_fold kv.1 "Connection" || equal_fold kv.1 "Upgrade" then req else header_set kv.1 kv.2 req) [] h.
Definition sse_response (upstream : Headers) : Headers :=
  foldl (λ c kv, if equal_fold kv.1 "Connection" || equal_fold kv.1 "Transfer-Encoding" then c else header_set kv.1 kv.2 c) [] upstream.
Definition sse_handler (call : Headers → option Upstream) (write_ok : nat → bool * bool) (h : Headers) : SseAnswer :=
  match call (sse_request h) with
  | None => SseFail 502 "BAD_GATEWAY"
  | Some resp =>
      let c := sse_response (us_Headers resp) in
      if negb (us_Status resp =? 200) then SseBody (us_Status resp) c (us_Body resp)
      else
        let c := header_set "Connection" "keep-alive" (header_set "Cache-Control" "no-cache" (header_set "Content-Type" "text/event-stream" c)) in
        match us_Stream resp with
        | None => SseBody 200 c (us_Body resp)
        | Some reads => SseStream c (stream_copy write_ok 0 reads)
        end
  end.
End sse.

(** The chunks up to and with the first failed read. *)
Fixpoint read_chunks (reads : list (string * bool)) : list string :=
  match reads with
  | [] => []
  | (chunk, failed) :: reads => (if bool_decide (chunk = "") then [] else [chunk]) ++ (if (failed : bool) then [] else read_chunks reads)
  end.
(** What the client sees is what upstream sent, without gaps, up to the first
    failure, and all of it if no write fails. *)
Lemma stream_copy_prefix write_ok reads : ∀ n, stream_copy write_ok n reads `prefix_of` read_chunks reads ∧
  ((∀ k, write_ok k = (true, true)) → stream_copy write_ok n reads = read_chunks reads).
Proof.
  induction reads as [|[chunk failed] reads IH]; intros n; cbn [stream_copy read_chunks]; [done|].
  assert (∀ m, (if (failed : bool) then [] else stream_copy write_ok m reads) `prefix_of` (if (failed : bool) then [] else read_chunks reads) ∧
    ((∀ k, write_ok k = (true, true)) → (if (failed : bool) then [] else stream_copy write_ok m reads) = if (failed : bool) then [] else read_chunks reads)) as H.
  { intros m. destruct failed; [done|apply IH]. }
  case_bool_decide; [apply H|]. destruct (write_ok n) as [w f] eqn:E. cbn [fst snd].
  destruct w; cbn [negb]; [|split; [apply prefix_nil|intros Hall; by rewrite Hall in E]].
  destruct f; cbn [negb]; [|split; [apply prefix_nil|intros Hall; by rewrite Hall in E]].
  destruct (H (S n)) as [H1 H2]. cbn [app]. split; [by apply prefix_cons|]. intros Hall. by rewrite H2.
Qed.

(** ** What services can rely on *)

Section identity.
Context {uuid : UuidLib} {jwt : Jwt} {keys : HeaderKeys} {laws : HeaderLaws keys}.

Lemma get_set k v h : header_get k (header_set k v h) = v.
Proof.
  unfold header_get. induction h as [|kv h IH]; cbn [header_set]; [by rewrite filter_cons, decide_True|].
  case_bool_decide as E; rewrite filter_cons; [by rewrite decide_True|]. by rewrite decide_False.
Qed.
Lemma get_set_ne k k' v h : canonical_key k ≠ canonical_key k' → header_get k (header_set k' v h) = header_get k h.
Proof.
  intros Hne. unfold header_get. induction h as [|kv h IH]; cbn [header_set]; [by rewrite filter_cons, decide_False by (cbn; congruence)|].
  case_bool_decide as E; rewrite !filter_cons; cbn [fst].
  - by rewrite !decide_False by congruence.
  - destruct (decide (kv.1 = canonical_key k)); [done|exact IH].
Qed.
Lemma canonical_ne k k' : to_lower k ≠ to_lower k' → canonical_key k ≠ canonical_key k'.
Proof. intros H E. apply H. by rewrite <-(canonical_lower k), <-(canonical_lower k'), E. Qed.
Lemma identity_lower k k' : to_lower k = to_lower k' → identity_header k = identity_header k'.
Proof. unfold identity_header. by intros ->. Qed.
Lemma identity_canonical k : identity_header (canonical_key k) = identity_header k.
Proof. apply identity_lower, canonical_lower. Qed.

(** Stripping removes exactly the headers that look like an identity. *)
Lemma foldl_del ks : ∀ h, foldl (λ h k, header_del k h) h ks = filter (λ kv, kv.1 ∉ canonical_key <$> ks) h.
Proof.
  induction ks as [|k ks IH]; intros h; cbn [foldl fmap list_fmap].
  - induction h as [|kv h IHh]; [done|]. rewrite filter_cons, decide_True by apply not_elem_of_nil. by f_equal.
  - rewrite IH. unfold header_del. rewrite list_filter_filter. apply list_filter_iff. intros kv. rewrite not_elem_of_cons. tauto.
Qed.
Lemma strip_filter raw : StripIdentityHeaders (parse_headers raw) = filter (λ kv, identity_header kv.1 = false) (parse_headers raw).
Proof.
  unfold StripIdentityHeaders. rewrite foldl_del. apply filter_ext_in. intros kv Hkv.
  assert (canonical_key kv.1 = kv.1) as Hc by (apply list_elem_of_fmap in Hkv as (x & -> & _); apply canonical_again).
  rewrite <-not_true_iff_false. f_equiv. rewrite list_elem_of_fmap. split.
  - intros (k & -> & [Hk Hin]%list_elem_of_filter). by rewrite identity_canonical.
  - intros Hi. exists kv.1. split; [done|]. apply list_elem_of_filter. split; [done|]. by apply list_elem_of_fmap_2.
Qed.
Lemma get_stripped k raw : header_get k (StripIdentityHeaders (parse_headers raw)) = if identity_header k then "" else header_get k (parse_headers raw).
Proof.
  rewrite strip_filter. unfold header_get. rewrite list_filter_filter. destruct (identity_header k) eqn:Hk.
  - destruct (filter _ (parse_headers raw)) as [|kv l] eqn:E; [done|]. assert (kv ∈ kv :: l) as Hin by by left.
    rewrite <-E in Hin. apply list_elem_of_filter in Hin as [[E1 Hi] _]. rewrite E1, identity_canonical in Hi. congruence.
  - rewrite (filter_ext_in _ (λ kv, kv.1 = canonical_key k)); [done|]. intros kv _. split; [tauto|]. intros E. split; [done|].
    by rewrite E, identity_canonical.
Qed.

(** The claims of the one bearer token that a client presents. *)
Definition presented (v : Verifier) (raw : Headers) : option Claims :=
  match filter (λ kv, equal_fold kv.1 "Authorization" = true) raw with
  | [kv] =>
      match fields kv.2 with
      | [scheme; token] => if equal_fold scheme "Bearer" then gw_Parse v token else None
      | _ => None
      end
  | _ => None
  end.
Lemma presented_subject v raw claims : presented v raw = Some claims → ∃ u, uuid_parse (cl_Subject claims) = Some u.
Proof.
  unfold presented. intros Hp. repeat case_match; try done. unfold gw_Parse in Hp. destruct (ParseWithClaims _ _ _ _) as [c|]; [|done].
  destruct (_ || _); [done|]. destruct (bool_decide (uuid_parse (cl_Subject c) = None)) eqn:Hu; [done|]. destruct (negb _); [done|].
  injection Hp as <-. apply bool_decide_eq_false in Hu. destruct (uuid_parse (cl_Subject c)) as [u|]; [eauto|done].
Qed.
Lemma authorization_headers raw : filter (λ kv, equal_fold kv.1 "Authorization" = true) (StripIdentityHeaders (parse_headers raw)) =
  parse_headers (filter (λ kv, equal_fold kv.1 "Authorization" = true) raw).
Proof.
  rewrite strip_filter, list_filter_filter. unfold parse_headers. induction raw as [|kv raw IH]; [done|]. cbn [fmap list_fmap].
  rewrite !filter_cons, IH. cbn [fst]. assert (equal_fold (canonical_key kv.1) "Authorization" = equal_fold kv.1 "Authorization") as E
    by (unfold equal_fold; by rewrite canonical_lower).
  destruct (decide (equal_fold kv.1 "Authorization" = true)) as [Ha|Ha].
  - rewrite decide_True; [done|]. rewrite E. split; [done|]. rewrite identity_canonical.
    unfold equal_fold in Ha. apply bool_decide_eq_true in Ha. by rewrite (identity_lower _ _ Ha).
  - rewrite decide_False; [done|]. rewrite E. tauto.
Qed.
Lemma authenticate_presented v raw ip required : let c := MkGCtx (StripIdentityHeaders (parse_headers raw)) "" "" ip in
  gw_authenticate v required c =
    if bool_decide (filter (λ kv, equal_fold kv.1 "Authorization" = true) raw = []) && negb required then Some c
    else (λ claims, set_locals (cl_Subject claims) (cl_Role claims) c) <$> presented v raw.
Proof.
  intros c. unfold gw_authenticate, presented. cbn [set_locals gc_Headers c]. rewrite authorization_headers. unfold parse_headers at 1 2.
  rewrite length_fmap. destruct (filter _ raw) as [|kv [|kv' l]] eqn:E; cbn [length].
  { rewrite !bool_decide_eq_true_2 by done. by destruct required. }
  2:{ rewrite !bool_decide_eq_false_2 by done. done. }
  rewrite (bool_decide_eq_false_2 (1%nat = 0%nat)), (bool_decide_eq_false_2 ([kv] = [])), (bool_decide_eq_true_2 (1%nat = 1%nat)) by done. cbn [andb negb].
  assert (header_get "Authorization" (StripIdentityHeaders (parse_headers raw)) = kv.2) as ->.
  { rewrite get_stripped. change (identity_header "Authorization") with false. cbv iota. unfold header_get.
    rewrite (filter_ext_in _ (λ x, equal_fold x.1 "Authorization" = true)).
    2:{ intros x (y & -> & _)%list_elem_of_fmap. cbn [fst]. unfold equal_fold. rewrite bool_decide_eq_true, canonical_lower. split.
        - intros E1. by rewrite <-(canonical_lower y.1), E1, canonical_lower.
        - intros E1. by apply canonical_fold. }
    assert (filter (λ x, equal_fold x.1 "Authorization" = true) (parse_headers raw) = parse_headers [kv]) as ->; [|done].
    rewrite <-E. unfold parse_headers. clear E. induction raw as [|x raw IH]; [done|]. cbn [fmap list_fmap]. rewrite !filter_cons, IH. cbn [fst].
    unfold equal_fold. rewrite canonical_lower. by case_decide. }
  destruct (fields kv.2) as [|scheme [|token [|]]]; try done. destruct (equal_fold scheme "Bearer"); [|done]. cbn [negb]. by destruct (gw_Parse v token).
Qed.

(** What a service sees of a request by [who], or by nobody: their id and role,
    no other header that looks like an identity, and the rest as it was sent. *)
Record vouched (who : option Claims) (raw h : Headers) : Prop := {
  vo_id : header_get "X-User-ID" h = default "" (cl_Subject <$> who);
  vo_role : header_get "X-User-Role" h = default "" (cl_Role <$> who);
  vo_none : ∀ k, identity_header k = true → to_lower k ≠ "x-user-id" → to_lower k ≠ "x-user-role" → header_get k h = "";
  vo_rest : ∀ k, identity_header k = false → header_get k h = header_get k (parse_headers raw)
}.

Lemma get_inject k c : header_get k (gc_Headers (InjectUserHeaders c)) =
  if bool_decide (canonical_key k = canonical_key HeaderXUserRole) && negb (bool_decide (gc_UserRole c = "")) then gc_UserRole c
  else if bool_decide (canonical_key k = canonical_key HeaderXUserID) && negb (bool_decide (gc_UserID c = "")) then gc_UserID c
  else header_get k (gc_Headers c).
Proof.
  assert (∀ name v h, header_get k (header_set name v h) = if bool_decide (canonical_key k = canonical_key name) then v else header_get k h) as Hset.
  { intros name v h. case_bool_decide as E; [|by apply get_set_ne]. unfold header_get. rewrite E. apply get_set. }
  unfold InjectUserHeaders. repeat case_bool_decide; cbn [gc_Headers set_gheaders gc_UserRole gc_UserID andb negb] in *; rewrite ?Hset; repeat case_bool_decide; done.
Qed.
Lemma inject_vouched who raw ip : let id := default "" (cl_Subject <$> who) in let role := default "" (cl_Role <$> who) in
  vouched who raw (gc_Headers (InjectUserHeaders (MkGCtx (StripIdentityHeaders (parse_headers raw)) id role ip))).
Proof.
  intros id role. assert (canonical_key "X-User-ID" ≠ canonical_key "X-User-Role") as Hne by (by apply canonical_ne).
  split; [| |intros k Hk H1 H2|intros k Hk]; rewrite get_inject; cbn [gc_Headers gc_UserID gc_UserRole]; rewrite get_stripped.
  - rewrite bool_decide_eq_false_2 by done. cbn [andb]. rewrite bool_decide_eq_true_2 by done. cbn [andb].
    change (identity_header "X-User-ID") with true. cbv iota. fold id. by case_bool_decide.
  - rewrite bool_decide_eq_true_2 by done. cbn [andb]. fold role. case_bool_decide; [|done]. cbn [negb].
    rewrite bool_decide_eq_false_2 by done. done.
  - rewrite Hk, (bool_decide_eq_false_2 (canonical_key k = canonical_key HeaderXUserRole)), (bool_decide_eq_false_2 (canonical_key k = canonical_key HeaderXUserID))
      by by apply canonical_ne. done.
  - assert (∀ name, identity_header name = true → canonical_key k ≠ canonical_key name) as Hk'.
    { intros name Hn E. rewrite <-identity_canonical, <-E, identity_canonical in Hn. congruence. }
    rewrite Hk, (bool_decide_eq_false_2 (canonical_key k = canonical_key HeaderXUserRole)), (bool_decide_eq_false_2 (canonical_key k = canonical_key HeaderXUserID))
      by by apply Hk'. done.
Qed.
Lemma strip_vouched raw : vouched None raw (StripIdentityHeaders (parse_headers raw)).
Proof. pose proof (inject_vouched None raw "") as H. exact H. Qed.

Definition no_authorization (raw : Headers) : Prop := filter (λ kv, equal_fold kv.1 "Authorization" = true) raw = [].

Section routes.
Context (passes : Z → Z → string → bool) {R : Type} (refuse : Z → string → R).
Context (matches : option string → string → bool) (proxy : Service → Headers → R).
Abbreviation gw := (gateway passes refuse matches proxy).

Lemma route_chains r : r ∈ gw_routes →
  (gr_Chain r = ChPublic → gr_Service r ∈ [SAuth; SPayment]) ∧ (gr_Chain r = ChOptional → gr_Service r ∈ [SCatalog; SInventory]).
Proof.
  revert r. apply Forall_forall. unfold gw_routes. repeat constructor; cbn; try done; intros _; set_solver.
Qed.

(** A request on a route that needs a token. *)
Lemma required_route v raw ip i r : list_find (λ r, matches (gr_Method r) (gr_Path r) = true) gw_routes = Some (i, r) → gr_Chain r = ChRequired →
  match presented v raw with
  | None => gw v raw ip = refuse 401 "UNAUTHORIZED"
  | Some claims =>
      if passes 300 minute ("user:" +:+ cl_Subject claims) then ∃ h, gw v raw ip = proxy (gr_Service r) h ∧ vouched (Some claims) raw h
      else gw v raw ip = refuse 429 "RATE_LIMITED"
  end.
Proof.
  intros Hf Hc. unfold gateway. rewrite Hf. unfold handle_route. rewrite Hc. unfold RequireAuth. rewrite authenticate_presented, andb_false_r.
  destruct (presented v raw) as [claims|] eqn:Hp; cbn [fmap option_fmap option_map]; [|done].
  assert (cl_Subject claims ≠ "") as Hs by (apply presented_subject in Hp as [u Hu]; intros E; by rewrite E, uuid_parse_empty in Hu).
  unfold AuthenticatedRateLimiter, limited. cbn [limiter_config lc_Max lc_Expiration lc_Key default].
  assert (∀ c, gc_UserID (InjectUserHeaders c) = gc_UserID c) as Hid by (intros c; unfold InjectUserHeaders; by repeat case_bool_decide).
  unfold user_key. rewrite Hid. cbn [gc_UserID set_locals]. rewrite bool_decide_eq_false_2 by done.
  change DefaultAuthRateLimit with 300. change DefaultRateLimitWindow with minute.
  destruct (passes _ _ _); [|done]. eexists. split; [done|]. apply (inject_vouched (Some claims) raw ip).
Qed.

(** On whose behalf a service may be called: that of the token's owner, or of
    nobody, where the routes allow it. *)
Definition entitled (v : Verifier) (raw : Headers) (svc : Service) (who : option Claims) : Prop :=
  (is_Some who ∧ who = presented v raw) ∨
  (who = None ∧ (svc ∈ [SAuth; SPayment] ∨ (svc ∈ [SCatalog; SInventory] ∧ no_authorization raw))).
Lemma gateway_cases v raw ip :
  (∃ status code, gw v raw ip = refuse status code) ∨
  ∃ svc h who, gw v raw ip = proxy svc h ∧ vouched who raw h ∧ entitled v raw svc who.
Proof.
  destruct (list_find (λ r, matches (gr_Method r) (gr_Path r) = true) gw_routes) as [[i r]|] eqn:Hf.
  2:{ left. unfold gateway. rewrite Hf. eauto. }
  pose proof Hf as (Hr & _ & _)%list_find_Some. apply list_elem_of_lookup_2, route_chains in Hr as [Hpub Hopt].
  destruct (gr_Chain r) eqn:Hc.
  - unfold gateway. rewrite Hf. unfold handle_route. rewrite Hc. unfold PublicRateLimiter, limited. destruct (passes _ _ _); [|eauto].
    right. do 3 eexists. split; [done|]. split; [apply strip_vouched|]. right. split; [done|]. left. by apply Hpub.
  - unfold gateway. rewrite Hf. unfold handle_route. rewrite Hc. unfold AuthenticateIfPresent. rewrite authenticate_presented, andb_true_r.
    case_bool_decide as Hn.
    + right. do 3 eexists. split; [done|]. split; [apply (inject_vouched None)|]. right. split; [done|]. right. split; [by apply Hopt|done].
    + destruct (presented v raw) as [claims|] eqn:Hp; cbn [fmap option_fmap option_map]; [|eauto].
      right. do 3 eexists. split; [done|]. split; [apply (inject_vouched (Some claims))|]. left. split; [eauto|done].
  - pose proof (required_route v raw ip i r Hf Hc) as H. destruct (presented v raw) as [claims|] eqn:Hp; [|eauto].
    destruct (passes _ _ _); [|eauto]. destruct H as (h & E & Hv). right. exists (gr_Service r), h, (Some claims). split_and!; [done..|]. left. by rewrite Hp.
Qed.

(** C14.  The gateway vouches for whom it forwards.  A request is refused, or
    handed to one service with the id and role of the owner of its one bearer
    token, or without any, which only the public routes of Auth and Payment and
    requests for Catalog and Inventory without an Authorization header see.
    Nothing else that looks like an identity gets through, whatever the client
    sent, and every other header arrives as it was sent.  On a route that needs a
    token, one without is answered with 401 and one beyond its owner's limit of
    300 a minute with 429. *)
Theorem gateway_identity v raw ip :
  ((∃ status code, gw v raw ip = refuse status code) ∨
   ∃ svc h who, gw v raw ip = proxy svc h ∧ vouched who raw h ∧ entitled v raw svc who) ∧
  ∀ i r, list_find (λ r, matches (gr_Method r) (gr_Path r) = true) gw_routes = Some (i, r) → gr_Chain r = ChRequired →
    match presented v raw with
    | None => gw v raw ip = refuse 401 "UNAUTHORIZED"
    | Some claims =>
        if passes 300 minute ("user:" +:+ cl_Subject claims) then ∃ h, gw v raw ip = proxy (gr_Service r) h ∧ vouched (Some claims) raw h
        else gw v raw ip = refuse 429 "RATE_LIMITED"
    end.
Proof. split; [apply gateway_cases|]. intros i r. apply required_route. Qed.
End routes.
End identity.

(** ** Orders of other customers *)

Section frames.
Context {X : Type} {uuid : UuidLib} {pg : PgUuid} {ids : OrderIds} {inv : InventoryClient X}.
Implicit Types (s : OSt X) (w : world (OSt X)).

(** Orders of customers other than [u] are as in [s0]. *)
Definition theirs (u : string) s0 s : Prop :=
  rows_keyed (od s) ∧ ∀ k x, o_CustomerID x ≠ u → orders (od s) !! k = Some x ↔ orders (od s0) !! k = Some x.
(** The order that [id] names, if any, is one of [u]. *)
Definition mine (u id : string) s : Prop := ∀ x, row id x s → o_CustomerID x = u.
Definition own (u id : string) s0 s : Prop := theirs u s0 s ∧ mine u id s.

Lemma theirs_refl u s : rows_keyed (od s) → theirs u s s.
Proof. by split. Qed.
Lemma theirs_orders u s0 s s' : orders (od s') = orders (od s) → theirs u s0 s → theirs u s0 s'.
Proof. intros E [H1 H2]. split; [intros i x; rewrite E; apply H1|]. intros k x. rewrite E. apply H2. Qed.
Lemma mine_orders u id s s' : orders (od s') = orders (od s) → mine u id s → mine u id s'.
Proof. intros E H x [H1 H2]. apply H. split; [done|]. by rewrite <-E. Qed.
Lemma own_upd u id s0 s x y : own u id s0 s → row id x s → identity y = identity x → own u id s0 (on_orders <[o_ID x := y]> s).
Proof.
  intros [[Hk Ht] Hm] Hr E. pose proof (Hm x Hr) as Hx. destruct Hr as [Hpg Hrow]. unfold identity in E. injection E as E1 E2 E3 E4 E5 E6 E7 E8 E9 E10 E11 E12 E13.
  split; [split|].
  - by apply rows_keyed_upd.
  - intros k z Hz. cbn. rewrite lookup_insert_Some. rewrite <-Ht by done. split.
    + intros [[<- <-]|[_ H]]; [congruence|done].
    + intros H. right. split; [|done]. intros <-. congruence.
  - intros z [H1 H2]. cbn in H2. apply lookup_insert_Some in H2 as [[_ <-]|[Hne H2]]; [congruence|]. congruence.
Qed.

Lemma BeginTransition_own u id s0 target : preserves (own u id s0) (BeginTransition (X := X) id target).
Proof.
  unfold BeginTransition. destruct (transition_target target) as [terminal|]; [|apply preserves_throw].
  apply preserves_transaction. intros o w a w' Ho _ H _. run_inv H. apply first_row in Hrun as [Hr Hw]; [|apply Ho].
  destruct (_ || _); [run_inv H; by rewrite Hw|]. destruct (negb _); run_inv H. cbn [w_db]. rewrite Hw. unfold on_orders at 1. rewrite alter_row by apply Hr.
  by apply own_upd.
Qed.
Lemma BindCheckout_own u id s0 session url : preserves (own u id s0) (BindCheckout (X := X) id session url).
Proof.
  apply preserves_transaction. intros o w a w' Ho _ H _. run_inv H. apply first_row in Hrun as [Hr Hw]; [|apply Ho].
  destruct (_ || _); run_inv H. destruct (negb _ && _); run_inv H. apply first_ok in Hrun0 as [-> _]. case_bool_decide.
  - unfold Updates in Hrun. run_inv Hrun. cbn [w_db]. rewrite Hw. unfold on_orders at 1. rewrite alter_row by apply Hr. by apply own_upd.
  - run_inv Hrun. cbn [w_db]. by rewrite Hw.
Qed.
Lemma MarkCancelled_own u id s0 eid e : preserves (own u id s0) (MarkCancelled (X := X) id eid e).
Proof.
  apply preserves_transaction. intros o w a w' Ho _ H _. run_inv H.
  apply updatewhere_row in Hrun as [[-> E]|(order & t & -> & Hr & Hin & E)]; [..|apply Ho].
  - rewrite bool_decide_eq_true_2 in H by lia. run_inv H. apply first_ok in Hrun as [E2 _]. case_bool_decide; run_inv H. by rewrite E2, E.
  - rewrite bool_decide_eq_false_2 in H by lia. run_inv H. apply createevent_ok in Hrun as (c & v & Hv & Hc). rewrite Hc, E.
    pose proof (own_upd u id s0 (w_db w) order (set_status StatusCancelled t order) Ho Hr eq_refl) as [H1 H2].
    split; [by eapply theirs_orders|by eapply mine_orders].
Qed.
Lemma Create_theirs u s0 order : o_CustomerID order = u → uuid_parse (o_ID order) = Some (o_ID order) →
  uuid_parse (o_ReservationID order) = Some (o_ReservationID order) → preserves (theirs u s0) (Create (X := X) order).
Proof.
  intros Hu Hid Hrid. apply preserves_transaction. intros o w a w' [Hk Ht] _ H _. run_inv H. apply stmt_ok in H as (_ & _ & s & H & ->).
  cbn [w_db] in *. case_bool_decide as E1; [done|]. destruct (existsb _ _); [done|]. destruct (existsb _ (map_to_list _)) in H; [done|]. simplify_eq.
  assert (Hnone : orders (od (w_db w)) !! o_ID order = None) by (by apply eq_None_not_Some). split.
  - intros i x. cbn. rewrite lookup_insert_Some. intros [[<- <-]|[_ Hx]]; [done|by apply Hk].
  - intros k x Hx. cbn. rewrite lookup_insert_Some, <-Ht by done. split.
    + intros [[<- <-]|[_ H]]; [by destruct Hx|done].
    + intros H. right. split; [|done]. intros <-. congruence.
Qed.

(** Predicates on the order rows alone. *)
Definition on_rows (P : OSt X → Prop) : Prop := ∀ s s', orders (od s') = orders (od s) → P s → P s'.
Lemma theirs_rows u s0 : on_rows (theirs u s0).
Proof. intros s s'. apply theirs_orders. Qed.
Lemma own_rows u id s0 : on_rows (own u id s0).
Proof. intros s s' E [H1 H2]. split; [by eapply theirs_orders|by eapply mine_orders]. Qed.
Lemma rows_inventory {A} P (f : nat → X → A * X) : on_rows P → preserves P (inventory f).
Proof. intros HP o w Hw. unfold inventory. destruct (f _ _). cbn. by apply (HP (w_db w)). Qed.
Lemma rows_call {A} P (f : nat → A) : preserves P (call (X := X) f).
Proof. by intros o w. Qed.
Lemma rows_fail {A} P e : preserves P (fail e : M (OSt X) SErr A).
Proof. apply preserves_throw. Qed.
Lemma rows_repo {A} P (m : M (OSt X) RErr A) : preserves P m → preserves P (repo m).
Proof. intros Hm. by apply preserves_try. Qed.
Lemma rows_bykey P c k : preserves P (GetByIdempotencyKey (X := X) c k).
Proof. unfold GetByIdempotencyKey. preserve. Qed.
Lemma rows_get P id : preserves P (Get (X := X) id).
Proof. unfold Get. preserve. apply preserves_pool_stmt. intros t s a s' Hs H. destruct (find_order id s); by simplify_eq. Qed.
Hint Resolve theirs_rows own_rows rows_inventory rows_call rows_fail rows_repo rows_bykey rows_get BeginTransition_own BindCheckout_own MarkCancelled_own : preserves.

Lemma GetOrder_keeps P id : preserves P (GetOrder (X := X) id).
Proof. unfold GetOrder. preserve. Qed.
Lemma existing_keeps P c k h : preserves P (existing_order (X := X) c k h).
Proof. unfold existing_order. preserve. Qed.
Lemma check_pickup_keeps P env p items : preserves P (check_pickup (X := X) env p items).
Proof. unfold check_pickup, CountOrdersInSlot. preserve. Qed.
Hint Resolve existing_keeps check_pickup_keeps : preserves.

Lemma reserve_theirs u s0 draft p : o_CustomerID draft = u → uuid_parse (o_ID draft) = Some (o_ID draft) →
  preserves (theirs u s0) (reserve_and_save (X := X) draft p).
Proof.
  intros Hu Hid. unfold reserve_and_save. preserve. apply rows_repo, Create_theirs; [done..|]. by eapply uuid_parse_canonical.
Qed.
Lemma placeOrder_theirs u s0 env input key : co_CustomerID input = u → uuid_parse u = Some u →
  preserves (theirs u s0) (placeOrder (X := X) env input key).
Proof.
  intros <- Hu. unfold placeOrder. rewrite Hu. preserve. apply reserve_theirs; [done|]. apply uuid_sha1_canonical.
Qed.
Lemma startPayment_own u s0 env order : preserves (own u (o_ID order) s0) (startPayment (X := X) env order).
Proof. unfold startPayment, bind_checkout. preserve. Qed.
Lemma finishCancellation_own u s0 order : preserves (own u (o_ID order) s0) (finishCancellation (X := X) order).
Proof. unfold finishCancellation, commitCancellation. preserve. Qed.

(** The answer is the order or the row with its link. *)
Lemma startPayment_answer env order o w resp w' : startPayment (X := X) env order o w = (inr resp, w') → rows_keyed (od (w_db w)) →
  ck_Order resp = order ∨ row (o_ID order) (ck_Order resp) (w_db w').
Proof.
  unfold startPayment. destruct (negb _); [intros H; run_inv H; by left|]. intros H Hk. unfold call in H. run_inv H. destruct (negb _); [done|].
  destruct (negb _ && negb _) eqn:Hg.
  - bool_guards. right. apply bind_checkout_ok in H as (B1 & B2 & _); [|done..]. by split.
  - run_inv H. injection Hrun as Ha <-. clear Ha. destruct a as [e|[session url]]; [done|]. destruct (valid_checkout env session url) eqn:Hv; [|done].
    unfold valid_checkout in Hv. apply andb_true_iff in Hv as [Hv _]. bool_guards. right. apply bind_checkout_ok in H as (B1 & B2 & _); [|done..]. by split.
Qed.
Lemma PlaceOrder_theirs u env input key o w : odb_ok (od (w_db w)) → co_CustomerID input = u → uuid_parse u = Some u →
  let '(r, w') := PlaceOrder (X := X) env input key o w in
  theirs u (w_db w) (w_db w') ∧ (∀ resp, r = inr resp → o_CustomerID (ck_Order resp) = u).
Proof.
  intros Hok Hc Hu. unfold PlaceOrder, mbind, M_bind. pose proof (placeOrder_theirs u (w_db w) env input key Hc Hu o w (theirs_refl u _ (od_keyed _ Hok))) as Ht.
  destruct (placeOrder env input key o w) as [[e|order] w1] eqn:Hp; cbn in Ht; [done|].
  apply placed_keyed in Hp as (Hok1 & c & k & items & Hv & (K1 & K2 & K3 & K4)); [|done].
  assert (c = u) as -> by (destruct Hv as [V _ _ _ _]; congruence).
  assert (own u (o_ID order) (w_db w) (w_db w1)) as Ho.
  { split; [done|]. intros x [Hpg Hx]. pose proof (row_of_id _ order (w_db w1) (od_keyed _ Hok1) eq_refl K1) as [Hpg' _]. congruence. }
  pose proof (startPayment_own u (w_db w) env order o w1 Ho) as Ho2. destruct (startPayment env order o w1) as [r w2] eqn:Hs. cbn in Ho2.
  split; [apply Ho2|]. intros resp ->. apply startPayment_answer in Hs as [->|Hr]; [done|by apply Ho2|apply Hok1].
Qed.

Lemma CancelOrder_own u id s0 reason : pg_uuid id = Some id → preserves (own u id s0) (CancelOrder (X := X) id reason).
Proof.
  intros Hid. unfold CancelOrder. destruct (_ && _); [apply rows_fail|]. intros o w Ho. unfold mbind, M_bind, repo, try.
  pose proof (BeginTransition_own u id s0 StatusCancelPending o w Ho) as Ho1.
  destruct (BeginTransition id StatusCancelPending o w) as [[e|order] w1] eqn:Hb; cbn in Ho1; [by destruct e|].
  apply begin_post in Hb as [[Hpg Hr] _]; [|apply Ho]. assert (o_ID order = id) as <- by congruence.
  case_bool_decide; [done|]. destruct (negb _); [done|]. by apply finishCancellation_own.
Qed.
End frames.

(** ** Orders behind the gateway *)

Inductive Reply := Answered (r : HResp) | Refused (status : Z) (code : string) | Elsewhere (svc : Service).
(** The order that an answer shows. *)
Definition shown (r : Reply) : option Order :=
  match r with Answered (HCreated resp) => Some (ck_Order resp) | Answered (HOrder order) => Some order | _ => None end.
(** The headers the Order service reads. *)
Definition order_headers : list string := ["X-User-ID"; "X-User-Role"; "Authorization"; "Idempotency-Key"; "X-Payment-Service-Token"].

Section orders.
Context {X : Type} {uuid : UuidLib} {pg : PgUuid} {ids : OrderIds} {inv : InventoryClient X} {json : OrderJson}.
Context {jwt : Jwt} {keys : HeaderKeys} {laws : HeaderLaws keys}.
Context (env_for : option string → Env) (paymentToken : string).
Context (passes : Z → Z → string → bool) (matches : option string → string → bool).
(** What the proxy makes of the headers on their way: it keeps those of the
    Order service. *)
Context (hop : Headers → Headers).
Definition hop_keeps : Prop := ∀ h k, k ∈ order_headers → header_get k (hop h) = header_get k h.

Definition shop (v : Verifier) (raw : Headers) (ip : string) (route : OrderRoute) (body : string) : M (OSt X) SErr Reply :=
  gateway passes (λ status code, mret (Refused status code)) matches
    (λ svc h, if bool_decide (svc = SOrder) then r ← order_app env_for paymentToken route (MkOrderRequest (hop h) body); mret (Answered r)
              else mret (Elsewhere svc)) v raw ip.

(** What a request on behalf of [claims] may do. *)
Definition allowed (claims : Claims) (raw : Headers) (route : OrderRoute) (u : string) (s s' : OSt X) : Prop :=
  match route with
  | RouteCreate => theirs u s s'
  | RouteGet _ => s' = s
  | RouteCancel id => theirs u s s' ∧ ∀ x, row id x s → o_CustomerID x ≠ u → s' = s
  | RouteStoreCancel _ => s' ≠ s → cl_Role claims ∈ [RoleStaff; RoleManager]
  | RoutePaymentSucceeded _ | RoutePaymentFailed _ => s' ≠ s → header_get "X-Payment-Service-Token" (parse_headers raw) = paymentToken
  end.

Lemma or_write_run {A} (m : M (OSt X) SErr A) k o w : or_write m k o w =
  match m o w with (inl e, w') => (inr (writeError e), w') | (inr a, w') => k a o w' end.
Proof. unfold or_write, mbind, M_bind, try. by destruct (m o w) as [[e|a] w']. Qed.
Lemma writeError_shown e : shown (Answered (writeError e)) = None.
Proof. by destruct e. Qed.
Lemma getorder_row id o w order w' : rows_keyed (od (w_db w)) → GetOrder (X := X) id o w = (inr order, w') → row id order (w_db w) ∧ w_db w' = w_db w.
Proof.
  intros Hk. unfold GetOrder. destruct (uuid_parse id); [|done]. unfold repo, try, mbind, M_bind. destruct (Get id o w) as [[e|x] w1] eqn:Hg; [done|].
  intros [= <- <-]. by apply get_row in Hg.
Qed.

(** A handler that answers, stays within [P] and shows only orders of [u]. *)
Definition within (P : OSt X → Prop) (u : string) (run : (SErr + HResp) * world (OSt X)) : Prop :=
  ∃ a w', run = (inr a, w') ∧ P (w_db w') ∧ ∀ x, shown (Answered a) = Some x → o_CustomerID x = u.
Lemma within_fail (P : OSt X → Prop) u code message status o w : P (w_db w) → within P u (h_fail code message status o w).
Proof. intros HP. do 2 eexists. split; [done|]. by split. Qed.
Lemma within_write {A} (P : OSt X → Prop) u (m : M (OSt X) SErr A) k o w : P (w_db (m o w).2) →
  (∀ a w', m o w = (inr a, w') → within P u (k a o w')) → within P u (or_write m k o w).
Proof.
  intros HP Hk. rewrite or_write_run. destruct (m o w) as [[e|a] w'] eqn:Hm; [|by apply Hk]. do 2 eexists. split; [done|]. split; [done|].
  intros x. by rewrite writeError_shown.
Qed.
Lemma within_done (P : OSt X → Prop) u (m : M (OSt X) SErr unit) o w : P (w_db (m o w).2) → within P u (or_write m (λ _, mret HNoContent) o w).
Proof. intros HP. apply within_write; [done|]. intros [] w' E. do 2 eexists. split; [done|]. split; [|done]. by rewrite E in HP. Qed.

Lemma create_allowed u q o w : odb_ok (od (w_db w)) → uuid_parse u = Some u → authenticatedUserID q = Some u →
  within (theirs u (w_db w)) u (h_CreateOrder env_for q o w).
Proof.
  intros Hok Hu Hid. unfold h_CreateOrder. destruct (decode_create _) as [[pickup items]|]; [|by apply within_fail, theirs_refl, od_keyed].
  rewrite Hid. pose proof (PlaceOrder_theirs u (env_for (caller_bearer q)) (MkCreateOrderInput u pickup items)
    (header_get "Idempotency-Key" (oq_Headers q)) o w Hok eq_refl Hu) as H.
  apply within_write; destruct (PlaceOrder _ _ _ o w) as [r w1]; destruct H as [H1 H2]; [done|]. intros resp w' [= -> ->].
  do 2 eexists. split; [done|]. split; [done|]. intros x [= <-]. by apply H2.
Qed.
Lemma get_allowed u id q o w : authenticatedUserID q = Some u → within (λ s, s = w_db w) u (h_GetOrder id q o w).
Proof.
  intros Hid. unfold h_GetOrder. rewrite Hid. pose proof (GetOrder_keeps (X := X) (λ s, s = w_db w) id o w eq_refl) as Hs.
  apply within_write; [done|]. intros order w' E. rewrite E in Hs. cbn in Hs. case_bool_decide; [|by apply within_fail].
  do 2 eexists. split; [done|]. split; [done|]. by intros x [= <-].
Qed.
Lemma cancel_allowed u id q o w : odb_ok (od (w_db w)) → authenticatedUserID q = Some u →
  within (λ s, theirs u (w_db w) s ∧ ∀ x, row id x (w_db w) → o_CustomerID x ≠ u → s = w_db w) u (h_CancelOrder id q o w).
Proof.
  intros Hok Hid. pose proof (od_keyed _ Hok) as Hk. set (P := λ s : OSt X, _).
  assert (∀ s, s = w_db w → P s) as Hsame by (intros s ->; split; [by apply theirs_refl|done]).
  unfold h_CancelOrder. destruct (decode_reason _) as [reason|]; [|by apply within_fail, Hsame]. destruct (negb _); [by apply within_fail, Hsame|].
  pose proof (GetOrder_keeps (X := X) (λ s, s = w_db w) id o w eq_refl) as Hs. apply within_write; [by apply Hsame|]. intros order w1 E.
  rewrite E in Hs. cbn in Hs. apply getorder_row in E as [Hrow _]; [|done]. rewrite Hid. case_bool_decide as Hown; [|by apply within_fail, Hsame].
  pose proof (row_of_id _ order (w_db w) Hk eq_refl (proj2 Hrow)) as Hrow'.
  assert (own u (o_ID order) (w_db w) (w_db w1)) as Ho.
  { rewrite Hs. split; [by apply theirs_refl|]. intros x Hx. by rewrite (row_unique _ _ _ _ Hx Hrow'). }
  apply within_done. split; [apply (CancelOrder_own u (o_ID order) (w_db w) reason (proj1 Hrow') o w1 Ho)|].
  intros x Hx Hne. rewrite (row_unique _ _ _ _ Hx Hrow) in Hne. congruence.
Qed.

(** The handlers, for a request whose headers name [u] and [claims]. *)
Lemma order_app_allowed claims u raw q route o w : odb_ok (od (w_db w)) → uuid_parse u = Some u →
  authenticatedUserID q = Some u → header_get "X-User-Role" (oq_Headers q) = cl_Role claims →
  header_get "X-Payment-Service-Token" (oq_Headers q) = header_get "X-Payment-Service-Token" (parse_headers raw) →
  within (allowed claims raw route u (w_db w)) u (order_app env_for paymentToken route q o w).
Proof.
  intros Hok Hu Hid Hrole Htok. destruct route as [|id|id|id|id|id]; cbn [order_app].
  - by apply create_allowed.
  - by apply get_allowed.
  - unfold h_PaymentSucceeded, authorizePaymentService. rewrite Htok. case_bool_decide; [by apply within_done; intros _|by apply within_fail; intros []].
  - unfold h_PaymentFailed, authorizePaymentService. rewrite Htok. case_bool_decide; [by apply within_done; intros _|by apply within_fail; intros []].
  - by apply cancel_allowed.
  - unfold h_StoreCancelOrder. rewrite Hid. destruct (caller_bearer q) as [bearer|]; [|by apply within_fail; intros []]. rewrite Hrole.
    destruct (_ && _) eqn:Hr; [by apply within_fail; intros []|]. apply within_done. intros _.
    apply andb_false_iff in Hr as [Hr|Hr]; bool_guards; rewrite Hr; set_solver.
Qed.

Lemma allowed_idle claims raw route u s : odb_ok (od s) → allowed claims raw route u s s.
Proof.
  intros Hok. destruct route; cbn; try done; [|split; [|done]]; by apply theirs_refl, od_keyed.
Qed.

(** C13.  Nobody acts on another's orders through the gateway.  Whatever headers a
    client sends and however paths are matched, a request without exactly one
    valid bearer token reaches the Order service never and changes nothing; one
    with a token shows at most orders of the token's owner, places orders only in
    the owner's name and touches no order of anybody else, also when it fails on
    the way; a cancellation of somebody else's order changes nothing at all; the
    store's cancellation needs a staff or manager token, and the reports of the
    Payment service need its own token. *)
Theorem orders_through_gateway v raw ip route body o w : hop_keeps → oreachable (w_db w) →
  ∃ r w', shop v raw ip route body o w = (inr r, w') ∧
    match presented v raw with
    | None => w_db w' = w_db w ∧ shown r = None
    | Some claims => ∃ u, uuid_parse (cl_Subject claims) = Some u ∧ (∀ x, shown r = Some x → o_CustomerID x = u) ∧
        allowed claims raw route u (w_db w) (w_db w')
    end.
Proof.
  intros Hhop Hr%reachable_ok. unfold shop. set (refuse := λ status code, _). set (proxy := λ svc h, _).
  assert (∀ r, shown r = None → ∃ r' w', (inr r : SErr + Reply, w) = (inr r', w') ∧
    match presented v raw with
    | None => w_db w' = w_db w ∧ shown r' = None
    | Some claims => ∃ u, uuid_parse (cl_Subject claims) = Some u ∧ (∀ x, shown r' = Some x → o_CustomerID x = u) ∧ allowed claims raw route u (w_db w) (w_db w')
    end) as Hidle.
  { intros r Hn. exists r, w. split; [done|]. destruct (presented v raw) as [claims|] eqn:Hp; [|done]. apply presented_subject in Hp as [u Hu].
    exists u. split; [done|]. rewrite Hn. split; [done|]. by apply allowed_idle. }
  destruct (gateway_cases passes refuse matches proxy v raw ip) as [(status & code & ->)|(svc & h & who & -> & Hv & He)]; [by apply Hidle|].
  unfold proxy. case_bool_decide as Hs; [subst svc|by apply Hidle].
  destruct He as [[[claims ->] Hp]|[_ [He|[He _]]]]; [|set_solver..]. rewrite <-Hp. symmetry in Hp. apply presented_subject in Hp as [u Hu].
  destruct Hv as [V1 V2 _ V4]. destruct (order_app_allowed claims u raw (MkOrderRequest (hop h) body) route o w) as (a & w' & E & Ha & Hsh).
  - done.
  - by eapply uuid_parse_canonical.
  - unfold authenticatedUserID. cbn. by rewrite Hhop, V1 by set_solver.
  - cbn. by rewrite Hhop, V2 by set_solver.
  - cbn. rewrite Hhop by set_solver. by apply V4.
  - exists (Answered a), w'. split; [unfold mbind, M_bind; by rewrite E|]. exists u. by split_and!.
Qed.
End orders.
