(* ===== verification/GwDemo.v ===== *)
(** API gateway: a customer's order behind it and another customer's attempts on
    it, on which the hypotheses of the gateway's theorems are shown to hold. *)

From S2P Require Import Prelude Effects GoStd InvModel InvDemo FulModel FulHandler OrdModel OrdService OrdSteps OrdTheorems OrdStock OrdInventory OrdDemo OrdHttp Gateway.
#[local] Open Scope string_scope.
#[local] Open Scope list_scope.
#[local] Open Scope Z_scope.

#[local] Instance lower_keys : HeaderKeys := to_lower.
#[local] Instance lower_laws : HeaderLaws lower_keys.
Proof. split; unfold canonical_key, lower_keys; [apply to_lower_again..|done]. Qed.

Definition customer2 : string := demo_id 33.
Definition door_claims (who role : string) : Claims := MkClaims role who (Some 0) (Some 1).
#[local] Instance door_tokens : Jwt := λ _ _ _ raw,
  if bool_decide (raw = "one") then Some (door_claims customer1 "CUSTOMER")
  else if bool_decide (raw = "two") then Some (door_claims customer2 "CUSTOMER") else None.
#[local] Instance door_json : OrderJson := {| decode_create := λ _, None; decode_reason := Some |}.

Definition door : Verifier := MkVerifier "secret" "issuer" "audience".
(** The second customer, who pretends to be the first. *)
Definition spoofed : Headers := [("X-uSER-iD", customer1); ("X-Role", "MANAGER"); ("authorization", "bearer two")].
Definition only_orders (method : option string) (path : string) : bool := bool_decide (path = "/orders/*").

(** The first customer sees the order; the second is told 403. *)
Example door_own : ∃ x, (shop (λ _, demo_env) "pay" (λ _ _ _, true) only_orders id door [("Authorization", "Bearer one")] "10.0.0.1"
  (RouteGet (o_ID demo_order)) "" (clock_from hour) w_placed).1 = inr (Answered (HOrder x)) ∧ o_CustomerID x = customer1.
Proof. eexists. split; [vm_compute; reflexivity|reflexivity]. Qed.
Example door_other : (shop (λ _, demo_env) "pay" (λ _ _ _, true) only_orders id door spoofed "10.0.0.1"
  (RouteGet (o_ID demo_order)) "" (clock_from hour) w_placed).1 = inr (Answered (HErr 403 "FORBIDDEN" "order does not belong to this customer" None)).
Proof. vm_compute. reflexivity. Qed.

Lemma orders_route : list_find (λ r, only_orders (gr_Method r) (gr_Path r) = true) gw_routes = Some (10%nat, MkGRoute None "/orders/*" ChRequired SOrder).
Proof. vm_compute. reflexivity. Qed.
Lemma spoofed_claims : presented door spoofed = Some (door_claims customer2 "CUSTOMER").
Proof. vm_compute. reflexivity. Qed.

Lemma gateway_identity_witness : (∃ h, gateway (λ _ _ _, true) (λ _ _, None) only_orders (λ svc h, Some (svc, h)) door spoofed "10.0.0.1" = Some (SOrder, h) ∧
    vouched (Some (door_claims customer2 "CUSTOMER")) spoofed h) ∧
  gateway (λ _ _ _, true) (λ status _, Some (status, [])) only_orders (λ _ h, Some (0, h)) door (take 2 spoofed) "10.0.0.1" = Some (401, []).
Proof.
  split.
  - pose proof (proj2 (gateway_identity (λ _ _ _, true) (λ _ _, None) only_orders (λ svc h, Some (svc, h)) door spoofed "10.0.0.1") _ _ orders_route eq_refl) as H.
    rewrite spoofed_claims in H. exact H.
  - pose proof (proj2 (gateway_identity (λ _ _ _, true) (λ status _, Some (status, [])) only_orders (λ _ h, Some (0, h)) door (take 2 spoofed) "10.0.0.1") _ _
      orders_route eq_refl) as H.
    replace (presented door (take 2 spoofed)) with (@None Claims) in H by (vm_compute; reflexivity). exact H.
Defined.

Lemma orders_through_gateway_witness : ∃ r w', shop (λ _, demo_env) "pay" (λ _ _ _, true) only_orders id door spoofed "10.0.0.1"
    (RouteCancel (o_ID demo_order)) "CUSTOMER_REQUEST" (clock_from hour) w_placed = (inr r, w') ∧ w_db w' = w_db w_placed.
Proof.
  destruct (orders_through_gateway (λ _, demo_env) "pay" (λ _ _ _, true) only_orders id door spoofed "10.0.0.1" (RouteCancel (o_ID demo_order))
    "CUSTOMER_REQUEST" (clock_from hour) w_placed) as (r & w' & E & H); [by intros h k _|apply reachable_placed|].
  exists r, w'. split; [exact E|]. rewrite spoofed_claims in H.
  destruct H as (u & Hu & _ & _ & Hc). replace (cl_Subject _) with customer2 in Hu by reflexivity.
  assert (u = customer2) as -> by (vm_compute in Hu; injection Hu as <-; vm_compute; reflexivity). apply (Hc (order_at w_placed)); [|vm_compute; discriminate].
  split; [vm_compute; reflexivity|]. apply order_at_row. vm_compute. reflexivity.
Defined.
