(* ===== verification/InvHttp.v ===== *)
(** Batch Inventory: its HTTP interface ([internal/transport/http.go] and
    [internal/auth/verifier.go]), who may change or see stock through it, and in
    whose name.

    A request is what [net/http] hands over: the route and its path value,
    headers by their ASCII names with their values, the raw query and the body, or nothing if
    reading it failed.  [encoding/json] and [net/url] are parameters. *)

From S2P Require Import Prelude Effects GoStd InvModel InvStore InvOps InvReserve InvSystem InvDemo InvTransport InvTheorems FulModel FulHandler CatJson.
#[local] Open Scope string_scope.
#[local] Open Scope list_scope.
#[local] Open Scope Z_scope.

Record IRequest := MkIRequest { iq_Header : list (string * list string); iq_RawQuery : string; iq_Body : option string }.

Inductive IRoute :=
  | GetAvailability
  | GetBatches
  | GetBatch (id : string)
  | PostBatches
  | PostWaste (id : string).

Inductive IResp :=
  | IAvailability (items : list Availability) (as_of : Z)
  | IBatches (items : list Batch)
  | IBatch (status : Z) (b : Batch)
  | IWaste (status : Z) (r : WasteRecord)
  | IFail (status : Z) (code message : string).

Class InvHttpLib := {
  (** the tokens of a body *)
  inv_tokens : string → JTokens;
  (** the members of an object, with the text of their values *)
  inv_members : string → option (list (string * string));
  (** strict decoding into the two inputs *)
  inv_create : string → option CreateInput;
  inv_waste : string → option WasteInput;
  (** [url.ParseQuery] *)
  parse_query : string → option (list (string * list string))
}.

(** ** Headers and queries *)

(** [Header.Values] of a name in canonical form, [Header.Get]. *)
Definition header_values (name : string) (h : list (string * list string)) : list string :=
  default [] (snd <$> find (λ e, bool_decide (e.1 = name)) h).
Definition first_value (values : list string) : string := default "" (head values).

(** [strings.ToLower(strings.TrimSpace(strings.Split(ct, ";")[0]))] of ASCII text. *)
Fixpoint before_semicolon (l : list Z) : list Z :=
  match l with [] => [] | b :: l => if b =? 59 then [] else b :: before_semicolon l end.
Definition media_type (contentType : string) : string := to_lower (trim_space (of_bytes (before_semicolon (bytes contentType)))).

Definition queryValid {lib : InvHttpLib} (rawQuery : string) (allowed : list string) : bool :=
  match parse_query rawQuery with
  | None => false
  | Some q => forallb (λ kv, bool_decide (kv.1 ∈ allowed) && match kv.2 with [v] => negb (bool_decide (v = "")) | _ => false end) q
  end.
(** [r.URL.Query().Get(key)]. *)
Definition query_get {lib : InvHttpLib} (key rawQuery : string) : string :=
  first_value (header_values key (default [] (parse_query rawQuery))).

(** ** Bodies *)

(** [uniqueJSON] and its loops over objects and arrays, with the number of tokens
    as fuel: the tokens left after one value. *)
Fixpoint uniqueJSON (fuel : nat) (ts : list JTok) : option (list JTok) :=
  match fuel with
  | 0%nat => None
  | S fuel =>
      match ts with
      | [] => None
      | TObj :: ts => unique_members fuel [] ts
      | TArr :: ts => unique_values fuel ts
      | TEndObj :: _ | TEndArr :: _ => None
      | _ :: ts => Some ts
      end
  end
with unique_members (fuel : nat) (seen : list string) (ts : list JTok) : option (list JTok) :=
  match fuel with
  | 0%nat => None
  | S fuel =>
      match ts with
      | TEndObj :: ts => Some ts
      | TStr key :: ts =>
          if bool_decide (key ∈ seen) then None
          else match uniqueJSON fuel ts with
          | None => None
          | Some ts => unique_members fuel (key :: seen) ts
          end
      | _ => None
      end
  end
with unique_values (fuel : nat) (ts : list JTok) : option (list JTok) :=
  match fuel with
  | 0%nat => None
  | S fuel =>
      match ts with
      | TEndArr :: ts => Some ts
      | [] | TEndObj :: _ => None
      | ts =>
          match uniqueJSON fuel ts with
          | None => None
          | Some ts => unique_values fuel ts
          end
      end
  end.

Definition max_body : Z := 2 ^ 20.
Definition create_fields : list string :=
  ["batch_code"; "flavor_id"; "production_date"; "expires_at"; "initial_portions"; "unit_cost_minor"; "currency"].
Definition waste_fields : list string := ["portions"; "reason"; "note"; "idempotency_key"].

Definition decode {lib : InvHttpLib} {T} (allowed : list string) (typed : string → option T) (r : IRequest) : option T :=
  if negb (bool_decide (media_type (first_value (header_values "Content-Type" (iq_Header r))) = "application/json")) then None
  else match iq_Body r with
  | None => None
  | Some raw =>
      if max_body <? Z.of_nat (String.length raw) then None
      else if negb (has_prefix "{" (trim_space raw)) then None
      else
        let '(MkJTokens ts eof) := inv_tokens raw in
        match uniqueJSON (length ts) ts with
        | None => None
        | Some rest =>
            if negb (bool_decide (rest = []) && eof) then None
            else match inv_members raw with
            | None => None
            | Some fields =>
                if negb (forallb (λ kv, bool_decide (kv.1 ∈ allowed) && negb (bool_decide (trim_space kv.2 = "null"))) fields) then None
                else typed raw
            end
        end
  end.

(** ** Identity *)

Section handlers.
Context {uuid : UuidLib} {dig : Digest} {jwt : Jwt} {lib : InvHttpLib}.
Context (catalog : option (string → option IErr)) (v : Verifier).
Abbreviation S_ := (M DB IErr).

(** [(v *Verifier) Parse]. *)
Definition inv_Parse (raw : string) : option Claims :=
  match ParseWithClaims (vf_secret v) (vf_issuer v) (vf_audience v) raw with
  | None => None
  | Some claims =>
      if bool_decide (cl_IssuedAt claims = None) || bool_decide (cl_ExpiresAt claims = None) then None
      else if bool_decide (uuid_parse (cl_Subject claims) = None) || negb (Role_Valid (cl_Role claims)) then None
      else Some claims
  end.

Definition failure (e : IErr) : IResp := let c := classify e in IFail (cl_HTTP c) (cl_Name c) (cl_Message c).
Definition authFailure (code : Z) : IResp :=
  if code =? 403 then IFail 403 "FORBIDDEN" "Forbidden" else IFail code "UNAUTHORIZED" "Unauthorized".

(** The claims, if there are any, or the answer. *)
Definition identity (r : IRequest) (required : bool) : IResp + option Claims :=
  let headers := header_values "Authorization" (iq_Header r) in
  if bool_decide (headers = []) && negb required then inr None
  else match headers with
  | [header] =>
      match fields header with
      | [scheme; raw] =>
          if negb (equal_fold scheme "Bearer") then inl (authFailure 401)
          else match inv_Parse raw with
          | None => inl (authFailure 401)
          | Some claims => inr (Some claims)
          end
      | _ => inl (authFailure 401)
      end
  | _ => inl (authFailure 401)
  end.

(** With [required] there are claims or an answer. *)
Definition protect (manager : bool) (fn : Ctx → Claims → S_ IResp) (r : IRequest) : S_ IResp :=
  match identity r true with
  | inl resp => mret resp
  | inr None => mret (authFailure 401)
  | inr (Some claims) =>
      if negb (bool_decide (cl_Role claims = RoleManager)) && (manager || negb (bool_decide (cl_Role claims = RoleStaff)))
      then mret (authFailure 403)
      else fn (MkCtx (WithActor (cl_Subject claims) (cl_Role claims)) None) claims
  end.

(** [None] is an error. *)
Definition withRESTKey (r : IRequest) (c : Ctx) : option Ctx :=
  let values := mjoin ((filter (λ e, equal_fold e.1 "Idempotency-Key" = true) (iq_Header r)).*2) in
  match values with
  | [] => Some c
  | [value] => if bool_decide (trim_space value = "") then Some c else WithRESTKey c (trim_space value)
  | _ => None
  end.

(** ** Handlers *)

Definition or_fail {A} (m : S_ A) (k : A → IResp) : S_ IResp :=
  r ← (try m : S_ (IErr + A));
  mret (match r with inl e => failure e | inr a => k a end).

Definition handle_availability (r : IRequest) : S_ IResp :=
  match identity r false with
  | inl resp => mret resp
  | inr _ =>
      if negb (queryValid (iq_RawQuery r) ["flavor_id"]) then mret (failure (ErrInvalid ""))
      else or_fail (AvailabilityOf (query_get "flavor_id" (iq_RawQuery r))) (λ x, IAvailability x.1 x.2)
  end.
Definition handle_list (r : IRequest) : S_ IResp :=
  protect false (λ _ _,
    if negb (queryValid (iq_RawQuery r) ["flavor_id"; "status"]) then mret (failure (ErrInvalid ""))
    else or_fail (ListBatches (query_get "flavor_id" (iq_RawQuery r)) (query_get "status" (iq_RawQuery r))) IBatches) r.
Definition handle_get (id : string) (r : IRequest) : S_ IResp :=
  protect false (λ _ _, or_fail (Get id) (IBatch 200)) r.
Definition handle_create (r : IRequest) : S_ IResp :=
  protect true (λ c _,
    match decode create_fields inv_create r with
    | None => mret (failure (ErrInvalid ""))
    | Some in_ =>
        match withRESTKey r c with
        | None => mret (failure (ErrInvalid ""))
        | Some c => or_fail (Create catalog c in_) (IBatch 201)
        end
    end) r.
Definition handle_waste (id : string) (r : IRequest) : S_ IResp :=
  protect false (λ c claims,
    match decode waste_fields inv_waste r with
    | None => mret (failure (ErrInvalid ""))
    | Some in_ =>
        match withRESTKey r c with
        | None => mret (failure (ErrInvalid ""))
        | Some c => or_fail (Waste c id (cl_Subject claims) in_) (IWaste 201)
        end
    end) r.

Definition inventory_http (route : IRoute) (r : IRequest) : S_ IResp :=
  match route with
  | GetAvailability => handle_availability r
  | GetBatches => handle_list r
  | GetBatch id => handle_get id r
  | PostBatches => handle_create r
  | PostWaste id => handle_waste id r
  end.
End handlers.

(** ** Bodies without doubled members *)

Inductive distinct : JVal → Prop :=
  | dis_leaf t : scalar t = true → distinct (JLeaf t)
  | dis_object l : NoDup l.*1 → Forall (λ m, distinct m.2) l → distinct (JObject l)
  | dis_array l : Forall distinct l → distinct (JArray l).

Lemma unique_distinct fuel :
  (∀ ts rest, uniqueJSON fuel ts = Some rest → ∃ x, ts = flatten x ++ rest ∧ distinct x) ∧
  (∀ seen ts rest, unique_members fuel seen ts = Some rest →
     ∃ l, ts = members_tokens l ++ TEndObj :: rest ∧ NoDup l.*1 ∧ (∀ k, k ∈ l.*1 → k ∉ seen) ∧ Forall (λ m, distinct m.2) l) ∧
  (∀ ts rest, unique_values fuel ts = Some rest → ∃ l, ts = (l ≫= flatten) ++ TEndArr :: rest ∧ Forall distinct l).
Proof.
  induction fuel as [|fuel (IHv & IHo & IHa)]; [done|]. split_and!.
  - intros ts rest. cbn. destruct ts as [|t ts]; [done|].
    assert (scalar t = true → Some ts = Some rest → ∃ x, t :: ts = flatten x ++ rest ∧ distinct x) as Hleaf.
    { intros Ht [= ->]. exists (JLeaf t). split; [done|]. by constructor. }
    destruct t; try done; try by apply Hleaf.
    + intros (l & -> & Hnd & _ & Hl)%IHo. exists (JObject l). cbn. rewrite <-app_assoc. split; [done|]. by constructor.
    + intros (l & -> & Hl)%IHa. exists (JArray l). cbn. rewrite <-app_assoc. split; [done|]. by constructor.
  - intros seen ts rest. cbn. destruct ts as [|[] ts]; try done.
    + intros [= <-]. exists []. split_and!; [done|constructor|by intros k ?%elem_of_nil|constructor].
    + case_bool_decide as Hin; [done|]. destruct (uniqueJSON fuel ts) as [ts'|] eqn:Hx; [|done]. apply IHv in Hx as (x & -> & Hx).
      intros (l & -> & Hnd & Hs & Hl)%IHo. exists ((s, x) :: l). unfold members_tokens. cbn. rewrite <-!app_assoc. split_and!; [done|..].
      * constructor; [|done]. intros Hk. apply (Hs s Hk). by left.
      * intros k [->|Hk]%elem_of_cons; [done|]. intros Hk'. apply (Hs k Hk). by right.
      * by constructor.
  - intros ts rest. cbn. destruct ts as [|t ts]; [done|].
    assert (match uniqueJSON fuel (t :: ts) with Some ts => unique_values fuel ts | None => None end = Some rest →
      ∃ l, t :: ts = (l ≫= flatten) ++ TEndArr :: rest ∧ Forall distinct l) as Hgo.
    { destruct (uniqueJSON fuel (t :: ts)) as [ts'|] eqn:Hx; [|done]. apply IHv in Hx as (x & -> & Hx). intros (l & -> & Hl)%IHa.
      exists (x :: l). cbn. rewrite <-!app_assoc. split; [done|]. by constructor. }
    destruct t; try done; try by apply Hgo. intros [= <-]. by exists [].
Qed.
(** The fuel suffices: the tokens of such a value are accepted. *)
Definition accepted_back (x : JVal) : Prop := ∀ fuel rest, distinct x → (length (flatten x) ≤ fuel)%nat → uniqueJSON fuel (flatten x ++ rest) = Some rest.
Lemma distinct_head x rest : distinct x → ∃ t ts, flatten x ++ rest = t :: ts ∧ t ≠ TEndObj ∧ t ≠ TEndArr.
Proof. destruct 1 as [t Ht|l|l]; cbn; eexists _, _; (split; [done|]); [by destruct t|done..]. Qed.
Lemma members_back l seen fuel rest : Forall (λ m, accepted_back m.2) l → Forall (λ m, distinct m.2) l → NoDup l.*1 → (∀ k, k ∈ l.*1 → k ∉ seen) →
  (length (members_tokens l) < fuel)%nat → unique_members fuel seen (members_tokens l ++ TEndObj :: rest) = Some rest.
Proof.
  intros Hl. revert seen fuel. induction Hl as [|[k x] l Hx _ IH]; intros seen fuel Hd Hnd Hs Hf; (destruct fuel as [|fuel]; [lia|]); [done|].
  apply Forall_cons in Hd as [Hdx Hd]. apply NoDup_cons in Hnd as [Hk Hnd]. unfold members_tokens in *. cbn in *. rewrite <-app_assoc.
  rewrite length_app in Hf. rewrite bool_decide_eq_false_2 by (apply Hs; by left). rewrite Hx by (done || lia).
  apply IH; [done..| |lia]. intros k' Hk'. apply not_elem_of_cons. split; [intros ->; done|]. apply Hs. by right.
Qed.
Lemma values_back l fuel rest : Forall accepted_back l → Forall distinct l → (length (l ≫= flatten) < fuel)%nat →
  unique_values fuel ((l ≫= flatten) ++ TEndArr :: rest) = Some rest.
Proof.
  intros Hl. revert fuel. induction Hl as [|x l Hx _ IH]; intros fuel Hd Hf; (destruct fuel as [|fuel]; [lia|]); [done|].
  apply Forall_cons in Hd as [Hdx Hd]. cbn [mbind list_bind] in *. rewrite <-app_assoc. rewrite length_app in Hf. pose proof (flatten_length x).
  assert (uniqueJSON fuel (flatten x ++ (l ≫= flatten) ++ TEndArr :: rest) = Some ((l ≫= flatten) ++ TEndArr :: rest)) as E by (apply Hx; [done|lia]).
  destruct (distinct_head x ((l ≫= flatten) ++ TEndArr :: rest) Hdx) as (t & ts & Heq & H1 & H2). unfold mbind in *. rewrite Heq in *. cbn.
  destruct t; try done; rewrite E; apply IH; (done || lia).
Qed.
Lemma unique_accepts x : accepted_back x.
Proof.
  induction x as [t|l IH|l IH] using JVal_nested; intros fuel rest Hd Hf; (destruct fuel as [|fuel]; [by cbn in Hf; lia|]);
    inversion_clear Hd as [? Ht|? Hnd Hl|? Hl]; cbn.
  - by destruct t.
  - rewrite <-app_assoc. cbn in Hf. rewrite length_app in Hf. cbn in Hf. apply (members_back l [] fuel rest); try done; [set_solver|]. unfold members_tokens. lia.
  - rewrite <-app_assoc. cbn in Hf. rewrite length_app in Hf. cbn in Hf. apply values_back; try done. lia.
Qed.
Lemma unique_exact ts : uniqueJSON (length ts) ts = Some [] ↔ ∃ x, ts = flatten x ∧ distinct x.
Proof.
  split.
  - intros (x & -> & Hx)%(proj1 (unique_distinct _)). exists x. by rewrite app_nil_r.
  - intros (x & -> & Hx). pose proof (unique_accepts x (length (flatten x)) [] Hx (le_n _)) as H. by rewrite app_nil_r in H.
Qed.
(** An accepted body is small and one JSON value, in which no object names a
    member twice. *)
Definition strict_body {lib : InvHttpLib} (r : IRequest) : Prop :=
  ∃ raw x, iq_Body r = Some raw ∧ Z.of_nat (String.length raw) ≤ max_body ∧ inv_tokens raw = MkJTokens (flatten x) true ∧ distinct x.
Lemma decode_strict {lib : InvHttpLib} {T} allowed (typed : string → option T) r in_ : decode allowed typed r = Some in_ → strict_body r.
Proof.
  unfold decode. destruct (negb _); [done|]. destruct (iq_Body r) as [raw|] eqn:Hb; [|done]. destruct (max_body <? _) eqn:Hm; [done|].
  destruct (negb _); [done|]. destruct (inv_tokens raw) as [ts eof] eqn:Ht. destruct (uniqueJSON _ ts) as [rest|] eqn:Hu; [|done].
  destruct (negb (_ && _)) eqn:He; [done|]. intros _. bool_guards. subst. apply unique_exact in Hu as (x & -> & Hx). exists raw, x. split_and!; [done|lia|done|done].
Qed.

(** ** In whose name *)

Section access.
Context {uuid : UuidLib} {dig : Digest} {jwt : Jwt} {lib : InvHttpLib}.
Context (catalog : option (string → option IErr)) (v : Verifier).
Abbreviation I := (M DB IErr).

(** Between [d0] and [d] the history only grew, by entries of [u] in [role], and
    reservations are as they were. *)
Definition signed (u role : string) (d0 d : DB) : Prop :=
  (∃ ms, inventory_movements d = inventory_movements d0 ++ ms ∧ Forall (λ m, mv_Actor m = Some (u, role)) ms) ∧
  (∃ ws, waste_records d = waste_records d0 ++ ws ∧ Forall (λ x, ws_ActorID x = Some u) ws) ∧
  reservations d = reservations d0 ∧ reservation_allocations d = reservation_allocations d0.

Lemma signed_refl u role d : signed u role d d.
Proof. split_and!; [exists []; by rewrite app_nil_r|exists []; by rewrite app_nil_r|done..]. Qed.
Lemma signed_same u role d0 d d' : inventory_movements d' = inventory_movements d → waste_records d' = waste_records d →
  reservations d' = reservations d → reservation_allocations d' = reservation_allocations d → signed u role d0 d → signed u role d0 d'.
Proof. intros H1 H2 H3 H4. unfold signed. by rewrite H1, H2, H3, H4. Qed.
Lemma signed_movement u role d0 d m : mv_Actor m = Some (u, role) → signed u role d0 d → signed u role d0 (add_movement m d).
Proof.
  intros Hm [(ms & E & Hms) H]. split; [|exact H]. exists (ms ++ [m]). cbn. rewrite E, app_assoc. split; [done|].
  apply Forall_app. split; [done|]. by constructor.
Qed.
Lemma signed_waste u role d0 d x : ws_ActorID x = Some u → signed u role d0 d → signed u role d0 (add_waste x d).
Proof.
  intros Hx (H1 & (ws & E & Hws) & H). split; [exact H1|]. split; [|exact H]. exists (ws ++ [x]). cbn. rewrite E, app_assoc. split; [done|].
  apply Forall_app. split; [done|]. by constructor.
Qed.

Section frame.
Context (u role : string) (d0 : DB).
Abbreviation keeps := (preserves (signed u role d0)).
Abbreviation mine := (MkCtx (Some (u, role))).

Ltac same := intros; lazymatch goal with Hd : signed u role d0 ?d |- _ => apply (signed_same u role d0 d); [reflexivity..|exact Hd] end.

Lemma signed_exec_batches f : keeps (exec (set_batches f) : I unit).
Proof. apply preserves_exec. same. Qed.
Lemma signed_low f fl : keeps (exec (set_low_notified fl f) : I unit).
Proof. apply preserves_exec. same. Qed.
Lemma signed_outbox e t : keeps (insert_outbox e t).
Proof. apply preserves_stmt. intros t' d a d' Hd [= _ <-]. revert Hd. same. Qed.
Lemma signed_lockFlavors ids : keeps (lockFlavors ids).
Proof.
  unfold lockFlavors. generalize ""%string. induction (merge_sort _ ids) as [|id l IH]; intros prev; cbn; [apply preserves_ret|].
  case_bool_decide; [done|]. apply preserves_bind; [apply preserves_lock|done].
Qed.
Lemma signed_scan id : keeps (scanBatch id).
Proof. unfold scanBatch. preserve. Qed.
Lemma signed_alert fl t : keeps (CheckAndNotifyLowStock fl t).
Proof. pose proof signed_low. pose proof signed_outbox. unfold CheckAndNotifyLowStock. preserve. Qed.
Lemma signed_reset fl t : keeps (ResetLowStockNotified fl t).
Proof. pose proof signed_low. unfold ResetLowStockNotified. preserve. Qed.
Lemma signed_insert_idem k h : keeps (insert_idem k h).
Proof. apply preserves_stmt. intros t d n d' Hd [= E]. destruct (_ !! _); simplify_eq; [done|]. revert Hd. same. Qed.
Lemma signed_update k r : keeps (update_response k r).
Proof. apply preserves_stmt. intros t d n d' Hd [= E]. destruct (_ !! _); simplify_eq; [|done]. revert Hd. same. Qed.
Lemma signed_claim h keys : ∀ prev claimed replay, keeps (claim_keys h prev keys claimed replay).
Proof.
  pose proof signed_insert_idem. induction keys as [|key keys IH]; intros prev claimed replay; cbn; preserve.
Qed.
Lemma signed_mutate `{!JsonResult T} keys input (fn : I T) : keeps fn → keeps (mutateKeys keys input fn).
Proof.
  intros Hfn. unfold mutateKeys, invalid. pose proof signed_claim. pose proof signed_update. destruct keys; [apply preserves_throw|].
  apply preserves_transaction_body. unfold mutateKeys_body, persist_response. preserve.
Qed.
Lemma signed_move key batch res kind n t : keeps (movement (mine key) batch res kind n t).
Proof. unfold movement. apply preserves_bind; [apply preserves_new_uuid|]. intros id. apply preserves_exec. intros d. by apply signed_movement. Qed.
Lemma signed_create key bid code cost in_ : keeps (create_batch (mine key) bid code cost in_).
Proof.
  pose proof signed_lockFlavors. pose proof signed_move. pose proof signed_reset. unfold create_batch, ignore, now, wrapInvalid.
  assert (∀ b, keeps (insert_batch b)).
  { intros b. apply preserves_stmt. intros t d a d' Hd E. case_bool_decide; [done|]. destruct (existsb _ _); [done|]. injection E as _ <-. revert Hd. same. }
  preserve.
Qed.
Lemma signed_waste_body key bid in_ : u ≠ "" → keeps (waste_body (mine key) bid u in_).
Proof.
  intros Hu. pose proof signed_lockFlavors. pose proof signed_scan. pose proof signed_move. pose proof signed_outbox. pose proof signed_alert.
  pose proof signed_exec_batches.
  assert (∀ x, ws_ActorID x = Some u → keeps (exec (add_waste x) : I unit)) as Hw
    by (intros x Hx; apply preserves_exec; intros d; by apply signed_waste).
  unfold waste_body, recordWaste, saveBatch, now, invalid. rewrite (bool_decide_eq_false_2 (u = "")) by done.
  preserve; apply Hw; done.
Qed.
Lemma signed_Create key in_ : keeps (Create catalog (mine key) in_).
Proof.
  pose proof signed_create. unfold Create, wrapInvalid, invalid, mutate. cbn [currentActor cx_Actor]. destruct (_ || _); [apply preserves_throw|].
  destruct (ID _); [|apply preserves_throw].
  assert (∀ T (j : JsonResult T) op k input, keeps (lookupRESTMutation (T := T) op k input)) by (intros; unfold lookupRESTMutation; preserve).
  unfold batchCode, wrapInvalid.
  preserve; try (by apply signed_mutate); apply preserves_transaction_body; preserve.
Qed.
Lemma signed_Waste key bid actor in_ : u ≠ "" → ID actor = Some u → keeps (Waste (mine key) bid actor in_).
Proof.
  intros Hu Ha. unfold Waste, invalid. rewrite Ha. destruct (ID bid); [|apply preserves_throw]. destruct (ID (wi_Key in_)); [|apply preserves_throw].
  destruct (_ || _); [apply preserves_throw|]. by apply signed_mutate, signed_waste_body.
Qed.
End frame.

(** Reading changes nothing. *)
Lemma reads_only {A} (m : I A) o w : (∀ d, preserves (λ s, s = d) m) → w_db (m o w).2 = w_db w.
Proof. intros Hm. by apply (Hm (w_db w) o w). Qed.
Lemma Get_reads id d : preserves (λ s, s = d) (Get id).
Proof. unfold Get, invalid. preserve. Qed.
Lemma List_reads flavor status d : preserves (λ s, s = d) (ListBatches flavor status).
Proof. unfold ListBatches, invalid. preserve. Qed.
Lemma Availability_reads flavor d : preserves (λ s, s = d) (AvailabilityOf flavor).
Proof. unfold AvailabilityOf, invalid. preserve. Qed.

(** ** What a request may do *)

(** The claims of the one bearer token of a request. *)
Definition shown_claims (r : IRequest) : option Claims := match identity v r true with inr claims => claims | inl _ => None end.
Definition may_change (route : IRoute) (role : string) : Prop :=
  match route with PostBatches => role = RoleManager | PostWaste _ => role ∈ [RoleStaff; RoleManager] | _ => False end.
Definition refused (resp : IResp) : bool := match resp with IFail _ _ _ => true | _ => false end.
(** Batches, with their costs, or records of waste. *)
Definition discloses (resp : IResp) : bool := match resp with IBatches _ | IBatch _ _ | IWaste _ _ => true | _ => false end.
Definition carried_out (resp : IResp) : bool := match resp with IBatch status _ | IWaste status _ => status =? 201 | _ => false end.

(** An answer of a handler behind [protect], for [claims]. *)
Record lawful (route : IRoute) (r : IRequest) (claims : Claims) (u : string) (o : oracle) (d d' : DB) (resp : IResp) : Prop := {
  lw_change : d' = d ∨ (may_change route (cl_Role claims) ∧ signed u (cl_Role claims) d d');
  lw_refused : (∀ n, or_landed o n = false) → refused resp = true → d' = d;
  lw_body : carried_out resp = true → strict_body r
}.
Definition obeys (route : IRoute) (r : IRequest) (claims : Claims) (u : string) (m : I IResp) : Prop :=
  ∀ o w, ∃ resp w', m o w = (inr resp, w') ∧ lawful route r claims u o (w_db w) (w_db w') resp.

Lemma obeys_fail route r claims u resp : refused resp = true → obeys route r claims u (mret resp).
Proof. intros Hr o w. exists resp, w. split; [done|]. split; [by left|done|]. by destruct resp. Qed.
Lemma or_fail_run {A} (m : I A) k o w : or_fail m k o w = (inr (match (m o w).1 with inl e => failure e | inr a => k a end), (m o w).2).
Proof. unfold or_fail, mbind, M_bind, try. by destruct (m o w) as [[e|a] w']. Qed.
Lemma obeys_read {A} route r claims u (m : I A) k : (∀ d, preserves (λ s, s = d) m) → (∀ a, carried_out (k a) = false) → obeys route r claims u (or_fail m k).
Proof.
  intros Hm Hk o w. do 2 eexists. split; [apply or_fail_run|]. rewrite reads_only by done. split; [by left|done|]. destruct (m o w).1; [done|]. by rewrite Hk.
Qed.
Lemma obeys_write {A} route r claims u (m : I A) k : (∀ d0, preserves (signed u (cl_Role claims) d0) m) → atomic m → may_change route (cl_Role claims) →
  strict_body r → (∀ a, refused (k a) = false) → obeys route r claims u (or_fail m k).
Proof.
  intros Hm Ha Hc Hb Hk o w. do 2 eexists. split; [apply or_fail_run|]. specialize (Hm (w_db w) o w (signed_refl _ _ _)).
  split; [right; by split| |done]. intros Ho. destruct (m o w) as [[e|a] w'] eqn:E; cbn; [|by rewrite Hk]. intros _. by eapply Ha.
Qed.

(** [Create] and [Waste] as the handlers call them: the actor is the token's
    owner, or there is none and nothing happens. *)
Lemma with_key_actor r c c' : withRESTKey r c = Some c' → cx_Actor c' = cx_Actor c.
Proof.
  unfold withRESTKey. destruct (mjoin _) as [|value [|]]; [by intros [= <-]| |done]. case_bool_decide; [by intros [= <-]|].
  unfold WithRESTKey. destruct (ID _); [|done]. by intros [= <-].
Qed.
Lemma actor_cases claims u : uuid_parse (cl_Subject claims) = Some u →
  WithActor (cl_Subject claims) (cl_Role claims) = Some (u, cl_Role claims) ∧ ID (cl_Subject claims) = Some u ∨
  WithActor (cl_Subject claims) (cl_Role claims) = None ∧ (cl_Role claims ∈ [RoleStaff; RoleManager] → ID (cl_Subject claims) = None).
Proof.
  intros Hu. unfold WithActor, ID. rewrite Hu. case_bool_decide; cbn; [by right|]. case_bool_decide; cbn; [by left|]. case_bool_decide; cbn; [by left|].
  right. split; [done|]. intros Hr. exfalso. set_solver.
Qed.

Lemma create_obeys r claims u : uuid_parse (cl_Subject claims) = Some u → cl_Role claims = RoleManager →
  obeys PostBatches r claims u
    (match decode create_fields inv_create r with
     | None => mret (failure (ErrInvalid ""))
     | Some in_ =>
         match withRESTKey r (MkCtx (WithActor (cl_Subject claims) (cl_Role claims)) None) with
         | None => mret (failure (ErrInvalid ""))
         | Some c => or_fail (Create catalog c in_) (IBatch 201)
         end
     end).
Proof.
  intros Hu Hr. destruct (decode _ _ r) as [in_|] eqn:Hd; [|by apply obeys_fail]. destruct (withRESTKey r _) as [[actor key]|] eqn:Hk; [|by apply obeys_fail].
  apply with_key_actor in Hk. cbn in Hk. subst actor. apply obeys_write; [|apply atomic_Create|done|by eapply decode_strict|done].
  intros d0. destruct (actor_cases claims u Hu) as [[-> _]|[-> _]]; [apply signed_Create|]. apply preserves_throw.
Qed.
Lemma waste_obeys id r claims u : uuid_parse (cl_Subject claims) = Some u → cl_Role claims ∈ [RoleStaff; RoleManager] →
  obeys (PostWaste id) r claims u
    (match decode waste_fields inv_waste r with
     | None => mret (failure (ErrInvalid ""))
     | Some in_ =>
         match withRESTKey r (MkCtx (WithActor (cl_Subject claims) (cl_Role claims)) None) with
         | None => mret (failure (ErrInvalid ""))
         | Some c => or_fail (Waste c id (cl_Subject claims) in_) (IWaste 201)
         end
     end).
Proof.
  intros Hu Hr. destruct (decode _ _ r) as [in_|] eqn:Hd; [|by apply obeys_fail]. destruct (withRESTKey r _) as [[actor key]|] eqn:Hk; [|by apply obeys_fail].
  apply with_key_actor in Hk. cbn in Hk. subst actor. apply obeys_write; [|apply atomic_Waste|done|by eapply decode_strict|done].
  intros d0. destruct (actor_cases claims u Hu) as [[-> Hid]|[-> Hid]].
  - apply signed_Waste; [|done]. intros ->. apply uuid_parse_canonical in Hu. by rewrite uuid_parse_empty in Hu.
  - unfold Waste, invalid. rewrite Hid by done. destruct (ID id); apply preserves_throw.
Qed.

Lemma protect_cases manager fn r o w : protect v manager fn r o w =
  match shown_claims r with
  | None => (inr (authFailure 401), w)
  | Some claims =>
      if negb (bool_decide (cl_Role claims = RoleManager)) && (manager || negb (bool_decide (cl_Role claims = RoleStaff))) then (inr (authFailure 403), w)
      else fn (MkCtx (WithActor (cl_Subject claims) (cl_Role claims)) None) claims o w
  end.
Proof.
  unfold protect, shown_claims. assert (∀ resp, identity v r true = inl resp → resp = authFailure 401) as Hi
    by (unfold identity; rewrite andb_false_r; intros resp; repeat case_match; by intros [= <-]).
  destruct (identity v r true) as [resp|[claims|]]; [by rewrite (Hi resp)| |done]. by destruct (_ && _).
Qed.
Lemma shown_subject r claims : shown_claims r = Some claims → ∃ u, uuid_parse (cl_Subject claims) = Some u.
Proof.
  unfold shown_claims, identity. rewrite andb_false_r. repeat case_match; try done. intros [= ->]. unfold inv_Parse in *.
  repeat case_match; simplify_eq. bool_guards. destruct (uuid_parse (cl_Subject claims)) as [u|]; [eauto|done].
Qed.
Lemma availability_identity r : identity v r false =
  if bool_decide (header_values "Authorization" (iq_Header r) = []) then inr None
  else match shown_claims r with None => inl (authFailure 401) | Some claims => inr (Some claims) end.
Proof.
  unfold shown_claims, identity. rewrite andb_true_r, andb_false_r. case_bool_decide as Hn; [done|]. by repeat case_match; simplify_eq.
Qed.

(** What holds of a request and its answer. *)
Definition accounted (route : IRoute) (r : IRequest) (o : oracle) (d d' : DB) (resp : IResp) : Prop :=
  ((∀ n, or_landed o n = false) → refused resp = true → d' = d) ∧
  (carried_out resp = true → strict_body r) ∧
  match shown_claims r with
  | None => d' = d ∧ (resp = authFailure 401 ∨ (route = GetAvailability ∧ header_values "Authorization" (iq_Header r) = [] ∧ discloses resp = false))
  | Some claims => ∃ u, uuid_parse (cl_Subject claims) = Some u ∧
      (d' = d ∨ (may_change route (cl_Role claims) ∧ signed u (cl_Role claims) d d')) ∧
      (discloses resp = true → cl_Role claims ∈ [RoleStaff; RoleManager])
  end.

Lemma protect_accounted route (manager : bool) fn r o w :
  (∀ claims u, uuid_parse (cl_Subject claims) = Some u → (if manager then cl_Role claims = RoleManager else cl_Role claims ∈ [RoleStaff; RoleManager]) →
     obeys route r claims u (fn (MkCtx (WithActor (cl_Subject claims) (cl_Role claims)) None) claims)) →
  ∃ resp w', protect v manager fn r o w = (inr resp, w') ∧ accounted route r o (w_db w) (w_db w') resp.
Proof.
  intros Hfn. rewrite protect_cases. unfold accounted. destruct (shown_claims r) as [claims|] eqn:Hs; [|by eexists _, w; split_and!; [..|by left]].
  destruct (shown_subject r claims Hs) as [u Hu]. destruct (_ && _) eqn:Hg.
  { eexists _, w. split_and!; [done..|]. exists u. split_and!; [done|by left|done]. }
  assert (if manager then cl_Role claims = RoleManager else cl_Role claims ∈ [RoleStaff; RoleManager]) as Hr.
  { apply andb_false_iff in Hg as [Hg|Hg]; [bool_guards; destruct manager; [done|set_solver]|].
    apply orb_false_iff in Hg as [-> Hg]. bool_guards. set_solver. }
  destruct (Hfn claims u Hu Hr o w) as (resp & w' & E & [L1 L2 L3]). exists resp, w'. split_and!; [done..|]. exists u. split_and!; [done..|].
  intros _. destruct manager; [set_solver|done].
Qed.

(** The one route that needs no token. *)
Definition answer_availability (r : IRequest) : I IResp :=
  if negb (queryValid (iq_RawQuery r) ["flavor_id"]) then mret (failure (ErrInvalid ""))
  else or_fail (AvailabilityOf (query_get "flavor_id" (iq_RawQuery r))) (λ x, IAvailability x.1 x.2).
Lemma availability_answer r o w : ∃ resp w', answer_availability r o w = (inr resp, w') ∧ w_db w' = w_db w ∧ discloses resp = false ∧ carried_out resp = false.
Proof.
  unfold answer_availability. destruct (negb _); [by eexists _, w|]. do 2 eexists. split; [apply or_fail_run|].
  rewrite reads_only by apply Availability_reads. split; [done|]. by destruct (AvailabilityOf _ o w).1.
Qed.
Lemma availability_accounted r o w : ∃ resp w', handle_availability v r o w = (inr resp, w') ∧ accounted GetAvailability r o (w_db w) (w_db w') resp.
Proof.
  unfold handle_availability. rewrite availability_identity. fold (answer_availability r). unfold accounted.
  destruct (availability_answer r o w) as (resp & w' & E & Hw & Hd & Hc).
  case_bool_decide as Hn; destruct (shown_claims r) as [claims|] eqn:Hs;
    [..|exists (authFailure 401), w; by split_and!; [..|left]]; exists resp, w'; rewrite Hw, Hc; (split; [done|]); split_and!; try done.
  - destruct (shown_subject r claims Hs) as [u Hu]. exists u. split_and!; [done|by left|by rewrite Hd].
  - right. by split_and!.
  - destruct (shown_subject r claims Hs) as [u Hu]. exists u. split_and!; [done|by left|by rewrite Hd].
Qed.

(** C5.  The HTTP interface of the inventory answers every request.  Without one
    valid bearer token it answers 401, except availability to clients that send
    no Authorization header, and changes nothing.  Only a manager's token can add
    a batch and only a staff or manager token record waste; all that such a
    request adds to the history names the token's owner and role, and it leaves
    reservations alone.  Batches and their costs are shown only to staff and
    managers.  A refused request has changed nothing (unless a COMMIT was carried
    out whose confirmation was lost), and a request that was carried out had a
    body of at most one mebibyte with no member named twice, at any depth. *)
Theorem inventory_access route r o w : ∃ resp w', inventory_http catalog v route r o w = (inr resp, w') ∧
  ((∀ n, or_landed o n = false) → refused resp = true → w_db w' = w_db w) ∧
  (carried_out resp = true → strict_body r) ∧
  match shown_claims r with
  | None => w_db w' = w_db w ∧
      (resp = authFailure 401 ∨ (route = GetAvailability ∧ header_values "Authorization" (iq_Header r) = [] ∧ discloses resp = false))
  | Some claims => ∃ u, uuid_parse (cl_Subject claims) = Some u ∧
      (w_db w' = w_db w ∨ (may_change route (cl_Role claims) ∧ signed u (cl_Role claims) (w_db w) (w_db w'))) ∧
      (discloses resp = true → cl_Role claims ∈ [RoleStaff; RoleManager])
  end.
Proof.
  destruct route as [| |id| |id]; cbn [inventory_http];
    [|apply protect_accounted; intros claims u Hu Hr..].
  - apply availability_accounted.
  - destruct (negb _); [by apply obeys_fail|]. apply obeys_read; [apply List_reads|done].
  - apply obeys_read; [apply Get_reads|done].
  - by apply create_obeys.
  - by apply waste_obeys.
Qed.
End access.

(** ** A small example *)

#[local] Instance counter_json : InvHttpLib := {|
  inv_tokens := λ raw, MkJTokens (if bool_decide (raw = "{twice}") then [TObj; TStr "currency"; TStr "THB"; TStr "currency"; TStr "USD"; TEndObj] else [TObj; TEndObj]) true;
  inv_members := λ _, Some [];
  inv_create := λ _, match create1 with ReqCreate _ in_ => Some in_ | _ => None end;
  inv_waste := λ _, None;
  parse_query := λ _, Some []
|}.
#[local] Instance counter_tokens : Jwt := λ _ _ _ raw,
  if bool_decide (raw = "m") then Some (MkClaims "MANAGER" manager (Some 0) (Some 1))
  else if bool_decide (raw = "s") then Some (MkClaims "STAFF" (demo_id 40) (Some 0) (Some 1)) else None.
Definition counter (token body : string) : IRequest :=
  MkIRequest [("Authorization", ["Bearer " +:+ token]); ("Content-Type", ["Application/JSON; charset=utf-8"])] "" (Some body).
Definition post (token body : string) : IErr + IResp :=
  (inventory_http demo_catalog (MkVerifier "" "" "") PostBatches (counter token body) (clock_from hour) w_empty).1.

(** The manager adds a batch, staff may not, nobody may without a token, and a
    member named twice is refused. *)
Example counter_manager : (match post "m" "{}" with inr (IBatch 201 b) => b_Available b | _ => 0 end) = 20.
Proof. vm_compute. reflexivity. Qed.
Example counter_staff : post "s" "{}" = inr (IFail 403 "FORBIDDEN" "Forbidden").
Proof. vm_compute. reflexivity. Qed.
Example counter_nobody : post "x" "{}" = inr (IFail 401 "UNAUTHORIZED" "Unauthorized").
Proof. vm_compute. reflexivity. Qed.
Example counter_twice : post "m" "{twice}" = inr (IFail 400 "INVALID_ARGUMENT" "Invalid request").
Proof. vm_compute. reflexivity. Qed.
