(* ===== verification/AnaModel.v ===== *)
(** Analytics service: the documents of [internal/models] with their decoding,
    float64 arithmetic, the dates of [internal/service], and the MongoDB
    collections of [internal/repository].

    [encoding/json] is a parameter: it fills the fields that the [UnmarshalJSON]
    methods declare, and the methods themselves are written out.  The collection
    of daily documents has its unique index on the date. *)

From Stdlib Require Import SpecFloat.
From S2P Require Import Prelude Effects GoStd.
#[local] Open Scope string_scope.
#[local] Open Scope Z_scope.

(** ** float64 *)

Abbreviation float64 := spec_float.
#[global] Instance float64_eq_dec : EqDecision float64.
Proof. solve_decision. Defined.

Definition f_zero : float64 := S754_zero false.
Definition f_of_int (z : Z) : float64 := binary_normalize 53 1024 z 0 false.
Definition f_mul : float64 → float64 → float64 := SFmul 53 1024.
Definition f_div : float64 → float64 → float64 := SFdiv 53 1024.
Definition f_add : float64 → float64 → float64 := SFadd 53 1024.
Definition f_positive (x : float64) : bool := match SFcompare x f_zero with Some Gt => true | _ => false end.
Definition f_is_zero (x : float64) : bool := match SFcompare x f_zero with Some Eq => true | _ => false end.

(** [int64(x)]: towards zero; what does not fit is the least integer, as amd64
    has it. *)
Definition MinInt64 : Z := - 2^63.
Definition int64_of (x : float64) : Z :=
  match x with
  | S754_zero _ => 0
  | S754_finite s m e =>
      let z := if 0 <=? e then Z.pos m * 2 ^ e else Z.pos m / 2 ^ (- e) in
      let z := if s then - z else z in
      if (MinInt64 <=? z) && (z <=? MaxInt64) then z else MinInt64
  | _ => MinInt64
  end.

(** Amounts between units and their hundredths. *)
Definition minor_of (x : float64) : Z := int64_of (f_mul x (f_of_int 100)).
Definition major_of (z : Z) : float64 := f_div (f_of_int z) (f_of_int 100).

(** ** Daily documents *)

Record Financials := MkFinancials {
  fi_GrossSalesMinor : Z; fi_TotalOrders : Z; fi_AverageOrderValueMinor : Z; fi_Currency : string
}.
Record Operations := MkOperations { op_ScoopsSold : Z; op_WasteRate : float64 }.
Record WasteByReason := MkWasteByReason { wr_Reason : string; wr_Portions : Z; wr_CostLostMinor : Z }.
Record WasteStats := MkWasteStats { ws_TotalWastePortions : Z; ws_CostLostMinor : Z; ws_WasteByReason : list WasteByReason }.
Record FlavorStat := MkFlavorStat {
  fs_FlavorID : string; fs_Name : string; fs_ScoopsSold : Z; fs_RevenueMinor : Z; fs_WastePortions : Z; fs_CostLostMinor : Z
}.
Record Analytics := MkAnalytics {
  an_Date : string; an_Financials : Financials; an_Operations : Operations; an_WasteStats : WasteStats;
  an_FlavorStats : list FlavorStat; an_ReversedOrderIDs : list string
}.

(** ** Events *)

Record OrderPlacedItem := MkPlacedItem {
  pi_FlavorID : string; pi_FlavorName : string; pi_Portions : Z; pi_UnitPrice : float64; pi_UnitPriceMinor : Z;
  pi_Subtotal : float64; pi_SubtotalMinor : Z
}.
Record OrderPlacedData := MkPlacedData {
  pd_OrderID : string; pd_TotalAmount : float64; pd_TotalAmountMinor : Z; pd_Currency : string; pd_Items : list OrderPlacedItem
}.
Record OrderCancelledData := MkCancelledData {
  cd_OrderID : string; cd_Reason : string; cd_WasPaid : bool; cd_TotalAmountMinor : Z; cd_Currency : string;
  cd_Items : list OrderPlacedItem; cd_PaidAt : string
}.
Record WasteRecordedData := MkWasteData {
  wd_WasteID : string; wd_BatchID : string; wd_FlavorID : string; wd_FlavorName : string; wd_Portions : Z; wd_Reason : string;
  wd_CostLostMinor : Z; wd_Currency : string
}.
(** The CloudEvents envelope. *)
Record Envelope (D : Type) := MkEnvelope {
  en_ID : string; en_Type : string; en_Time : string; en_Source : string; en_Traceparent : string; en_Data : D
}.
Arguments MkEnvelope {D}.
Arguments en_ID {D}.
Arguments en_Time {D}.
Arguments en_Data {D}.

(** *** What the decoder fills in: the fields of [aux] in each [UnmarshalJSON].
    An outer field hides an embedded one of the same key. *)
Record ItemJson := MkItemJson {
  ij_flavorId : string; ij_flavorName : string; ij_portions : Z; ij_unitPrice : float64; ij_unitPriceMinor : Z; ij_subtotalMinor : Z;
  ij_flavor_id : string; ij_flavor_name : string; ij_unit_price : float64; ij_unit_price_minor : Z;
  ij_subtotal : float64; ij_subtotal_minor : Z
}.
Record PlacedJson := MkPlacedJson {
  pj_orderId : string; pj_totalAmount : float64; pj_totalAmountMinor : Z; pj_items : list ItemJson;
  pj_order_id : string; pj_total_amount : float64; pj_total_amount_minor : Z; pj_currency : string
}.
Record CancelledJson := MkCancelledJson {
  cj_orderId : string; cj_reason : string; cj_was_paid : bool; cj_total_amount_minor : Z; cj_currency : string;
  cj_items : list ItemJson; cj_paid_at : string; cj_order_id : string
}.
Record WasteJson := MkWasteJson {
  wj_wasteId : string; wj_batchId : string; wj_flavorId : string; wj_flavorName : string; wj_portions : Z; wj_reason : string;
  wj_costLostMinor : Z; wj_waste_id : string; wj_batch_id : string; wj_flavor_id : string; wj_flavor_name : string;
  wj_cost_lost_minor : Z; wj_currency : string
}.

Class AnaJson := {
  decode_placed : string → option (Envelope PlacedJson);
  decode_cancelled : string → option (Envelope CancelledJson);
  decode_waste : string → option (Envelope WasteJson)
}.

(** [if s == ""] the other spelling. *)
Definition or_else (s t : string) : string := if bool_decide (s = "") then t else s.
Definition if_positive (z old : Z) : Z := if 0 <? z then z else old.

(** An amount from its two spellings in units and its value in hundredths. *)
Definition amounts (units snake : float64) (minor : Z) : float64 * Z :=
  if f_is_zero units then
    if 0 <? minor then (major_of minor, minor)
    else if f_positive snake then (snake, minor_of snake)
    else (units, minor)
  else if minor =? 0 then (units, minor_of units) else (units, minor).

Definition item_UnmarshalJSON (j : ItemJson) : OrderPlacedItem :=
  let '(unitPrice, unitPriceMinor) := amounts (ij_unitPrice j) (ij_unit_price j) (if_positive (ij_unit_price_minor j) (ij_unitPriceMinor j)) in
  let '(subtotal, subtotalMinor) := amounts f_zero (ij_subtotal j) (if_positive (ij_subtotal_minor j) (ij_subtotalMinor j)) in
  MkPlacedItem (or_else (ij_flavorId j) (ij_flavor_id j)) (or_else (ij_flavorName j) (ij_flavor_name j)) (ij_portions j)
    unitPrice unitPriceMinor subtotal subtotalMinor.

Definition placed_UnmarshalJSON (j : PlacedJson) : OrderPlacedData :=
  let '(amount, minor) := amounts (pj_totalAmount j) (pj_total_amount j) (if_positive (pj_total_amount_minor j) (pj_totalAmountMinor j)) in
  MkPlacedData (or_else (pj_orderId j) (pj_order_id j)) amount minor (pj_currency j) (item_UnmarshalJSON <$> pj_items j).

Definition cancelled_UnmarshalJSON (j : CancelledJson) : OrderCancelledData :=
  MkCancelledData (or_else (cj_orderId j) (cj_order_id j)) (cj_reason j) (cj_was_paid j) (cj_total_amount_minor j) (cj_currency j)
    (item_UnmarshalJSON <$> cj_items j) (cj_paid_at j).

Definition waste_UnmarshalJSON (j : WasteJson) : WasteRecordedData :=
  MkWasteData (or_else (wj_wasteId j) (wj_waste_id j)) (or_else (wj_batchId j) (wj_batch_id j)) (or_else (wj_flavorId j) (wj_flavor_id j))
    (or_else (wj_flavorName j) (wj_flavor_name j)) (wj_portions j) (wj_reason j)
    (if_positive (wj_cost_lost_minor j) (wj_costLostMinor j)) (wj_currency j).

Definition map_data {D D'} (f : D → D') (e : Envelope D) : Envelope D' :=
  MkEnvelope (en_ID e) (en_Type _ e) (en_Time e) (en_Source _ e) (en_Traceparent _ e) (f (en_Data e)).

(** ** Dates *)

Record Civil := MkCivil { cv_Year : Z; cv_Month : Z; cv_Day : Z }.

(** One or two digits ([getnum]). *)
Definition getnum (fixed : bool) (l : list Z) : option (Z * list Z) :=
  match digits 2 0 l with
  | Some r => Some r
  | None => if fixed then None else digits 1 0 l
  end.
Definition literal (b : Z) (l : list Z) : option (list Z) :=
  match l with b' :: l => if b' =? b then Some l else None | [] => None end.

(** The chunk "2006-01-02" of a layout; the day of the month is checked at the
    end of [Parse]. *)
Definition parse_ymd (l : list Z) : option (Civil * list Z) :=
  '(y, l) ← digits 4 0 l; l ← literal 45 l;
  '(m, l) ← getnum true l; l ← (if between 1 12 m then literal 45 l else None);
  '(d, l) ← getnum true l;
  Some (MkCivil y m d, l).
Definition day_ok (c : Civil) : bool := between 1 (days_in (cv_Month c) (cv_Year c)) (cv_Day c).

(** [time.Parse("2006-01-02", s)]. *)
Definition parse_day (s : string) : option Civil :=
  '(c, l) ← parse_ymd (bytes s);
  if bool_decide (l = []) && day_ok c then Some c else None.

Fixpoint skip_digits (l : list Z) : list Z :=
  match l with b :: l' => if between 48 57 b then skip_digits l' else l | [] => [] end.
(** A fraction of a second that the layout does not mention. *)
Definition skip_fraction (l : list Z) : list Z :=
  match l with
  | p :: d :: l' => if ((p =? 46) || (p =? 44)) && between 48 57 d then skip_digits l' else l
  | _ => l
  end.
(** "Z07:00". *)
Definition parse_zone (l : list Z) : option (list Z) :=
  match l with
  | 90 :: l => Some l
  | sign :: l =>
      '(hr, l) ← digits 2 0 l; l ← literal 58 l; '(mm, l) ← digits 2 0 l;
      if ((sign =? 43) || (sign =? 45)) && (hr <=? 24) && (mm <=? 60) then Some l else None
  | [] => None
  end.

(** The date of [time.Parse(time.RFC3339, s)] in its own zone: the hour may have
    one digit, and a comma may start the fraction. *)
Definition parse_rfc3339_day (s : string) : option Civil :=
  '(c, l) ← parse_ymd (bytes s); l ← literal 84 l;
  '(h, l) ← getnum false l; l ← (if h <? 24 then literal 58 l else None);
  '(mi, l) ← getnum true l; l ← (if mi <? 60 then literal 58 l else None);
  '(sec, l) ← getnum true l;
  if negb (sec <? 60) then None
  else l ← parse_zone (skip_fraction l); if bool_decide (l = []) && day_ok c then Some c else None.

(** [t.Format("2006-01-02")]. *)
Definition pad2 (n : Z) : list Z := [48 + n / 10 mod 10; 48 + n mod 10].
Definition format_day (c : Civil) : string :=
  of_bytes (pad2 (cv_Year c / 100) ++ pad2 (cv_Year c) ++ [45] ++ pad2 (cv_Month c) ++ [45] ++ pad2 (cv_Day c)).

(** [t.Format("Jan 2")]. *)
Definition month_names : list string := ["Jan"; "Feb"; "Mar"; "Apr"; "May"; "Jun"; "Jul"; "Aug"; "Sep"; "Oct"; "Nov"; "Dec"].
Definition format_label (c : Civil) : string :=
  default "" (month_names !! Z.to_nat (cv_Month c - 1)) +:+ " " +:+
  of_bytes (if cv_Day c <? 10 then [48 + cv_Day c] else pad2 (cv_Day c)).

(** The date of a day counted from 1 January 1970. *)
Definition civil_from_days (z : Z) : Civil :=
  let z := z + 719468 in
  let era := z / 146097 in
  let doe := z - era * 146097 in
  let yoe := (doe - doe / 1460 + doe / 36524 - doe / 146096) / 365 in
  let doy := doe - (365 * yoe + yoe / 4 - yoe / 100) in
  let mp := (5 * doy + 2) / 153 in
  let d := doy - (153 * mp + 2) / 5 + 1 in
  let m := if mp <? 10 then mp + 3 else mp - 9 in
  MkCivil (if m <=? 2 then yoe + era * 400 + 1 else yoe + era * 400) m d.

(** [t.AddDate(0, months, days)]: months beyond the year and days beyond the
    month carry over. *)
Definition AddDate (months days : Z) (c : Civil) : Civil :=
  let m := cv_Month c - 1 + months in
  civil_from_days (days_from_civil (cv_Year c + m / 12) (m mod 12 + 1) 1 + (cv_Day c + days - 1)).

(** The bytes of two strings, as MongoDB compares them. *)
Fixpoint bytes_leb (l l' : list Z) : bool :=
  match l, l' with
  | [], _ => true
  | _, [] => false
  | b :: l, b' :: l' => (b <? b') || ((b =? b') && bytes_leb l l')
  end.
Definition mongo_leb (s t : string) : bool := bytes_leb (bytes s) (bytes t).

Example rfc3339_utc : format_day <$> parse_rfc3339_day "2026-09-01T23:30:00.5Z" = Some "2026-09-01".
Proof. reflexivity. Qed.
Example rfc3339_zone : format_day <$> parse_rfc3339_day "2026-09-01T23:30:00-05:00" = Some "2026-09-01".
Proof. reflexivity. Qed.
Example rfc3339_bad : parse_rfc3339_day "2026-02-30T00:00:00Z" = None.
Proof. reflexivity. Qed.
Example add_month : AddDate (-1) 0 (MkCivil 2026 3 31) = MkCivil 2026 3 3.
Proof. reflexivity. Qed.
Example label_sep : format_label (MkCivil 2026 9 1) = "Sep 1".
Proof. reflexivity. Qed.
Example minor_truncates : minor_of (f_div (f_of_int 1999) (f_of_int 100)) = 1998.
Proof. reflexivity. Qed.

(** ** The collections *)

Record ProcessedEvent := MkProcessed { pe_EventType : string; pe_ProcessedAt : Z }.
(** [daily_aggregates] by date and [processed_events] by id. *)
Record NDB := MkNDB { n_days : gmap string Analytics; n_events : gmap string ProcessedEvent }.
Definition empty_ndb : NDB := MkNDB ∅ ∅.
Definition set_days (f : gmap string Analytics → gmap string Analytics) (d : NDB) : NDB := MkNDB (f (n_days d)) (n_events d).
Definition set_events (f : gmap string ProcessedEvent → gmap string ProcessedEvent) (d : NDB) : NDB := MkNDB (n_days d) (f (n_events d)).

Inductive NErr := NInvalidPeriod | NInvalidDate | NDb (e : dberr).
#[global] Instance NErr_eq_dec : EqDecision NErr.
Proof. solve_decision. Defined.
#[global] Instance NErr_db : DbError NErr := NDb.

Abbreviation N_ := (M NDB NErr).

Definition mongo_read {A} (f : NDB → A) : N_ A := pool_query (λ _, f).
(** A write whose error may hide that it took effect. *)
Definition mongo_write {A} (f : NDB → dberr + (A * NDB)) : N_ A := λ o w,
  let n := w_tick w in
  match or_fault o n with
  | None => pool_stmt (λ _, f) o w
  | Some e =>
      let d := match f (w_db w) with inr (_, d) => if or_landed o n then d else w_db w | inl _ => w_db w end in
      (inl (of_db e), World d (S n) (w_aborted w) (w_locks w))
  end.

(** *** [internal/repository] *)

Definition FindByDate (date : string) : N_ (option Analytics) := mongo_read (λ d, n_days d !! date).

(** The [$set] of all fields but the reversed orders. *)
Definition set_fields (a : Analytics) (old : option Analytics) : Analytics :=
  MkAnalytics (an_Date a) (an_Financials a) (an_Operations a) (an_WasteStats a) (an_FlavorStats a)
    (match old with Some old => an_ReversedOrderIDs old | None => [] end).
Definition Save (a : Analytics) : N_ unit :=
  mongo_write (λ d, inr (tt, set_days (λ m, <[an_Date a := set_fields a (m !! an_Date a)]> m) d)).

Definition add_reversed (orderID : string) (a : Analytics) : Analytics :=
  MkAnalytics (an_Date a) (an_Financials a) (an_Operations a) (an_WasteStats a) (an_FlavorStats a) (an_ReversedOrderIDs a ++ [orderID]).
(** The upsert: a day that has the order does not match, and inserting it again
    violates the unique index. *)
Definition upsert_reversal (a : Analytics) (orderID : string) (d : NDB) : dberr + (bool * NDB) :=
  let old := n_days d !! an_Date a in
  match old with
  | Some r => if bool_decide (orderID ∈ an_ReversedOrderIDs r) then inl (DbUnique "date")
              else inr (true, set_days <[an_Date a := add_reversed orderID (set_fields a old)]> d)
  | None => inr (true, set_days <[an_Date a := add_reversed orderID (set_fields a old)]> d)
  end.
Definition SaveReversal (a : Analytics) (orderID : string) : N_ bool :=
  r ← try (mongo_write (upsert_reversal a orderID));
  match r with
  | inr modified => mret modified
  | inl (NDb (DbUnique c)) =>
      existing ← try (mongo_read (λ d, match n_days d !! an_Date a with
                                       | Some r => bool_decide (orderID ∈ an_ReversedOrderIDs r)
                                       | None => false
                                       end));
      match existing with inr true => mret false | _ => throw (NDb (DbUnique c)) end
  | inl e => throw e
  end.

(** [Find] without a sort order: [natural] is the order MongoDB hands the
    documents out in. *)
Definition FindByDateRange (natural : list Analytics → list Analytics) (startDate endDate : string) : N_ (list Analytics) :=
  mongo_read (λ d, natural (filter (λ a, mongo_leb startDate (an_Date a) && mongo_leb (an_Date a) endDate = true) (snd <$> map_to_list (n_days d)))).

Definition IsProcessed (eventID : string) : N_ bool :=
  if bool_decide (eventID = "") then mret false else mongo_read (λ d, bool_decide (is_Some (n_events d !! eventID))).
Definition MarkProcessed (eventID eventType : string) : N_ unit :=
  if bool_decide (eventID = "") then mret tt
  else t ← go_now; mongo_write (λ d, inr (tt, set_events <[eventID := MkProcessed eventType t]> d)).
