(* ===== verification/AnaService.v ===== *)
(** Analytics service: [internal/service], the message handler of
    [internal/messaging], the summary of [internal/factory] and the HTTP
    interface ([internal/middleware], [internal/handler], [internal/router]).

    The process runs in a time zone of fixed offset [tz]. *)

From Stdlib Require Import SpecFloat.
From S2P Require Import Prelude Effects GoStd FulHandler AnaModel.
#[local] Open Scope string_scope.
#[local] Open Scope Z_scope.

(** ** Events to daily documents *)

Definition extractDate (timestamp : string) : NErr + string :=
  if bool_decide (timestamp = "") then inl NInvalidDate
  else match parse_rfc3339_day timestamp with
  | Some c => inr (format_day c)
  | None => match parse_day timestamp with Some c => inr (format_day c) | None => inl NInvalidDate end
  end.

Definition new_day (date : string) : Analytics :=
  MkAnalytics date (MkFinancials 0 0 0 "") (MkOperations 0 f_zero) (MkWasteStats 0 0 []) [] [].

Definition getOrCreateAnalytics (date : string) : N_ Analytics :=
  if bool_decide (date = "") then throw NInvalidDate
  else match parse_day date with
  | None => throw NInvalidDate
  | Some _ => record ← FindByDate date; mret (default (new_day date) record)
  end.

(** Change the first entry that matches, or append a new one. *)
Fixpoint upsert {A} (matches : A → bool) (f : A → A) (fresh : A) (l : list A) : list A :=
  match l with
  | [] => [fresh]
  | x :: l => if matches x then f x :: l else x :: upsert matches f fresh l
  end.

Definition is_flavor (id : string) (fs : FlavorStat) : bool := bool_decide (fs_FlavorID fs = id).
Definition waste_rate (waste scoops : Z) : float64 := f_div (f_of_int waste) (f_of_int scoops).

Definition amount_minor (d : OrderPlacedData) : Z :=
  if (pd_TotalAmountMinor d =? 0) && f_positive (pd_TotalAmount d) then minor_of (pd_TotalAmount d) else pd_TotalAmountMinor d.
Definition subtotal_minor (i : OrderPlacedItem) : Z :=
  if (pi_SubtotalMinor i =? 0) && f_positive (pi_Subtotal i) then minor_of (pi_Subtotal i) else pi_SubtotalMinor i.

Definition add_sale (i : OrderPlacedItem) (fs : FlavorStat) : FlavorStat :=
  MkFlavorStat (fs_FlavorID fs) (or_else (pi_FlavorName i) (fs_Name fs)) (wrap64 (fs_ScoopsSold fs + pi_Portions i))
    (wrap64 (fs_RevenueMinor fs + subtotal_minor i)) (fs_WastePortions fs) (fs_CostLostMinor fs).
Definition sale_stats (l : list FlavorStat) (i : OrderPlacedItem) : list FlavorStat :=
  upsert (is_flavor (pi_FlavorID i)) (add_sale i) (MkFlavorStat (pi_FlavorID i) (pi_FlavorName i) (pi_Portions i) (subtotal_minor i) 0 0) l.

(** [ProcessOrderPlaced] between reading and saving the document. *)
Definition place_on (data : OrderPlacedData) (r : Analytics) : Analytics :=
  let fi := an_Financials r in
  let gross := wrap64 (fi_GrossSalesMinor fi + amount_minor data) in
  let orders := wrap64 (fi_TotalOrders fi + 1) in
  let average := if 0 <? orders then gross `quot` orders else fi_AverageOrderValueMinor fi in
  let scoops := foldl (λ n i, wrap64 (n + pi_Portions i)) (op_ScoopsSold (an_Operations r)) (pd_Items data) in
  MkAnalytics (an_Date r)
    (MkFinancials gross orders average (or_else (pd_Currency data) (fi_Currency fi)))
    (MkOperations scoops (if 0 <? scoops then waste_rate (ws_TotalWastePortions (an_WasteStats r)) scoops else op_WasteRate (an_Operations r)))
    (an_WasteStats r) (foldl sale_stats (an_FlavorStats r) (pd_Items data)) (an_ReversedOrderIDs r).

Definition sub_sale (i : OrderPlacedItem) (fs : FlavorStat) : FlavorStat :=
  MkFlavorStat (fs_FlavorID fs) (fs_Name fs) (wrap64 (fs_ScoopsSold fs - pi_Portions i))
    (wrap64 (fs_RevenueMinor fs - pi_SubtotalMinor i)) (fs_WastePortions fs) (fs_CostLostMinor fs).
Definition reversal_stats (l : list FlavorStat) (i : OrderPlacedItem) : list FlavorStat :=
  upsert (is_flavor (pi_FlavorID i)) (sub_sale i)
    (MkFlavorStat (pi_FlavorID i) (pi_FlavorName i) (wrap64 (- pi_Portions i)) (wrap64 (- pi_SubtotalMinor i)) 0 0) l.

(** [reversePaidOrder] between reading and saving the document. *)
Definition reverse_on (data : OrderCancelledData) (r : Analytics) : Analytics :=
  let fi := an_Financials r in
  let gross := wrap64 (fi_GrossSalesMinor fi - cd_TotalAmountMinor data) in
  let orders := wrap64 (fi_TotalOrders fi - 1) in
  let scoops := foldl (λ n i, wrap64 (n - pi_Portions i)) (op_ScoopsSold (an_Operations r)) (cd_Items data) in
  MkAnalytics (an_Date r)
    (MkFinancials gross orders (if 0 <? orders then gross `quot` orders else 0) (fi_Currency fi))
    (MkOperations scoops (if 0 <? scoops then waste_rate (ws_TotalWastePortions (an_WasteStats r)) scoops else f_zero))
    (an_WasteStats r) (foldl reversal_stats (an_FlavorStats r) (cd_Items data)) (an_ReversedOrderIDs r).

Definition add_reason (d : WasteRecordedData) (x : WasteByReason) : WasteByReason :=
  MkWasteByReason (wr_Reason x) (wrap64 (wr_Portions x + wd_Portions d)) (wrap64 (wr_CostLostMinor x + wd_CostLostMinor d)).
Definition add_waste (d : WasteRecordedData) (fs : FlavorStat) : FlavorStat :=
  MkFlavorStat (fs_FlavorID fs) (or_else (wd_FlavorName d) (fs_Name fs)) (fs_ScoopsSold fs) (fs_RevenueMinor fs)
    (wrap64 (fs_WastePortions fs + wd_Portions d)) (wrap64 (fs_CostLostMinor fs + wd_CostLostMinor d)).

(** [ProcessWasteRecorded] between reading and saving the document. *)
Definition waste_on (data : WasteRecordedData) (r : Analytics) : Analytics :=
  let ws := an_WasteStats r in
  let total := wrap64 (ws_TotalWastePortions ws + wd_Portions data) in
  let scoops := op_ScoopsSold (an_Operations r) in
  MkAnalytics (an_Date r) (an_Financials r)
    (MkOperations scoops (if 0 <? scoops then waste_rate total scoops else op_WasteRate (an_Operations r)))
    (MkWasteStats total (wrap64 (ws_CostLostMinor ws + wd_CostLostMinor data))
       (upsert (λ x, bool_decide (wr_Reason x = wd_Reason data)) (add_reason data)
          (MkWasteByReason (wd_Reason data) (wd_Portions data) (wd_CostLostMinor data)) (ws_WasteByReason ws)))
    (upsert (is_flavor (wd_FlavorID data)) (add_waste data)
       (MkFlavorStat (wd_FlavorID data) (wd_FlavorName data) 0 0 (wd_Portions data) (wd_CostLostMinor data)) (an_FlavorStats r))
    (an_ReversedOrderIDs r).

(** ** The service *)

Definition of_sum {A} (r : NErr + A) : N_ A := match r with inl e => throw e | inr a => mret a end.

Definition ProcessOrderPlaced (event : Envelope OrderPlacedData) : N_ unit :=
  processed ← IsProcessed (en_ID event);
  if (processed : bool) then mret tt
  else
    date ← of_sum (extractDate (en_Time event));
    record ← getOrCreateAnalytics date;
    Save (place_on (en_Data event) record) ;;
    (try (MarkProcessed (en_ID event) "OrderPlaced") : N_ (NErr + unit)) ;;
    mret tt.

Definition reversePaidOrder (data : OrderCancelledData) : N_ unit :=
  if bool_decide (cd_OrderID data = "") then throw NInvalidDate
  else
    date ← of_sum (extractDate (cd_PaidAt data));
    record ← getOrCreateAnalytics date;
    if bool_decide (cd_OrderID data ∈ an_ReversedOrderIDs record) then mret tt
    else SaveReversal (reverse_on data record) (cd_OrderID data) ;; mret tt.

Definition ProcessOrderCancelled (event : Envelope OrderCancelledData) : N_ unit :=
  processed ← IsProcessed (en_ID event);
  if (processed : bool) then mret tt
  else
    (if cd_WasPaid (en_Data event) then reversePaidOrder (en_Data event) else mret tt) ;;
    MarkProcessed (en_ID event) "OrderCancelled".

Definition ProcessWasteRecorded (event : Envelope WasteRecordedData) : N_ unit :=
  processed ← IsProcessed (en_ID event);
  if (processed : bool) then mret tt
  else
    date ← of_sum (extractDate (en_Time event));
    record ← getOrCreateAnalytics date;
    Save (waste_on (en_Data event) record) ;;
    (try (MarkProcessed (en_ID event) "WasteRecorded") : N_ (NErr + unit)) ;;
    mret tt.

(** ** The consumer *)

Record NDelivery := MkNDelivery { nd_RoutingKey : string; nd_Body : string }.
Inductive NVerdict := NAck | NNack (requeue : bool).
#[global] Instance NVerdict_eq_dec : EqDecision NVerdict.
Proof. solve_decision. Defined.

Definition isPermanentError (e : NErr) : bool := match e with NInvalidDate | NInvalidPeriod => true | NDb _ => false end.

Definition settle {A} (m : N_ A) : N_ NVerdict :=
  r ← (try m : N_ (NErr + A));
  match r with inl e => mret (NNack (negb (isPermanentError e))) | inr _ => mret NAck end.

Definition processMessage {json : AnaJson} (d : NDelivery) : N_ NVerdict :=
  let key := nd_RoutingKey d in
  if bool_decide (key ∈ ["order.placed"; "OrderPlaced"]) then
    match decode_placed (nd_Body d) with
    | None => mret (NNack false)
    | Some e => settle (ProcessOrderPlaced (map_data placed_UnmarshalJSON e))
    end
  else if bool_decide (key ∈ ["order.cancelled"; "OrderCancelled"]) then
    match decode_cancelled (nd_Body d) with
    | None => mret (NNack false)
    | Some e => settle (ProcessOrderCancelled (map_data cancelled_UnmarshalJSON e))
    end
  else if bool_decide (key ∈ ["inventory.waste"; "WasteRecorded"]) then
    match decode_waste (nd_Body d) with
    | None => mret (NNack false)
    | Some e => settle (ProcessWasteRecorded (map_data waste_UnmarshalJSON e))
    end
  else mret (NNack false).

(** ** The summary *)

Record FlavorSales := MkFlavorSales { sa_FlavorID : string; sa_FlavorName : string; sa_Portions : Z; sa_Revenue : float64 }.
Record FlavorWaste := MkFlavorWaste { fw_FlavorID : string; fw_FlavorName : string; fw_Portions : Z }.
Record SalesTrendData := MkSalesTrend { st_Date : string; st_Label : string; st_Revenue : float64; st_Orders : Z; st_Scoops : Z }.
Record AnalyticsSummary := MkSummary {
  su_TotalRevenue : float64; su_TotalOrders : Z; su_TotalScoops : Z; su_TotalWaste : Z;
  su_SalesByFlavor : list FlavorSales; su_WasteByFlavor : list FlavorWaste; su_SalesTrend : list SalesTrendData
}.

(** The orders that nobody promises: of the documents of a query and of the
    entries of a Go map. *)
Class Unordered := { natural : list Analytics → list Analytics; map_range : ∀ {A : Type}, gmap string A → list A }.
Class UnorderedLaws (un : Unordered) := {
  natural_perm : ∀ l, natural l ≡ₚ l;
  map_range_perm : ∀ {A : Type} (m : gmap string A), map_range m ≡ₚ (map_to_list m).*2
}.

Definition formatDateLabel (dateStr : string) : string :=
  match parse_day dateStr with None => dateStr | Some c => format_label c end.

Definition flavor_revenue (fs : FlavorStat) : float64 := major_of (fs_RevenueMinor fs).
Definition sold (fs : FlavorStat) : bool := (0 <? fs_ScoopsSold fs) || f_positive (flavor_revenue fs).

Definition sales_step (m : gmap string FlavorSales) (fs : FlavorStat) : gmap string FlavorSales :=
  if sold fs then
    <[fs_FlavorID fs :=
        match m !! fs_FlavorID fs with
        | Some x => MkFlavorSales (sa_FlavorID x) (or_else (fs_Name fs) (sa_FlavorName x)) (wrap64 (sa_Portions x + fs_ScoopsSold fs))
                      (f_add (sa_Revenue x) (flavor_revenue fs))
        | None => MkFlavorSales (fs_FlavorID fs) (fs_Name fs) (fs_ScoopsSold fs) (flavor_revenue fs)
        end]> m
  else m.
Definition waste_step (m : gmap string FlavorWaste) (fs : FlavorStat) : gmap string FlavorWaste :=
  if 0 <? fs_WastePortions fs then
    <[fs_FlavorID fs :=
        match m !! fs_FlavorID fs with
        | Some x => MkFlavorWaste (fw_FlavorID x) (or_else (fs_Name fs) (fw_FlavorName x)) (wrap64 (fw_Portions x + fs_WastePortions fs))
        | None => MkFlavorWaste (fs_FlavorID fs) (fs_Name fs) (fs_WastePortions fs)
        end]> m
  else m.

(** The four totals. *)
Record Totals := MkTotals { to_Revenue : float64; to_Orders : Z; to_Scoops : Z; to_Waste : Z }.
Definition gross_sales (r : Analytics) : float64 := major_of (fi_GrossSalesMinor (an_Financials r)).
Definition totals_step (t : Totals) (r : Analytics) : Totals :=
  MkTotals (f_add (to_Revenue t) (gross_sales r)) (wrap64 (to_Orders t + fi_TotalOrders (an_Financials r)))
    (wrap64 (to_Scoops t + op_ScoopsSold (an_Operations r))) (wrap64 (to_Waste t + ws_TotalWastePortions (an_WasteStats r))).
Definition trend (r : Analytics) : SalesTrendData :=
  MkSalesTrend (an_Date r) (formatDateLabel (an_Date r)) (gross_sales r) (fi_TotalOrders (an_Financials r)) (op_ScoopsSold (an_Operations r)).

Section summary.
Context {un : Unordered} (tz : Z).

Definition BuildAnalyticsSummaryResponse (records : list Analytics) : AnalyticsSummary :=
  let t := foldl totals_step (MkTotals f_zero 0 0 0) records in
  let stats := records ≫= an_FlavorStats in
  MkSummary (to_Revenue t) (to_Orders t) (to_Scoops t) (to_Waste t)
    (map_range (foldl sales_step ∅ stats)) (map_range (foldl waste_step ∅ stats)) (trend <$> records).

Definition today (now : Z) : Civil := civil_from_days ((now + tz) / day).

Definition period_start (period : string) (c : Civil) : option Civil :=
  if bool_decide (period = "1d") then Some (AddDate 0 (-1) c)
  else if bool_decide (period = "1w") then Some (AddDate 0 (-7) c)
  else if bool_decide (period = "1m") then Some (AddDate (-1) 0 c)
  else if bool_decide (period = "6m") then Some (AddDate (-6) 0 c)
  else None.

Definition GetAnalyticsSummary (period : string) : N_ AnalyticsSummary :=
  now ← go_now;
  match period_start period (today now) with
  | None => throw NInvalidPeriod
  | Some startDate =>
      records ← FindByDateRange natural (format_day startDate) (format_day (today now));
      mret (BuildAnalyticsSummaryResponse records)
  end.
End summary.

(** ** The HTTP interface

    A query without a period, or with an empty one, has the period "1w". *)

Inductive NRequest := NHealth | NSummary (period : string).
Inductive NResp := NFail (status : Z) (code : string) | NOkHealth | NOkSummary (s : AnalyticsSummary).

Section http.
Context {jwt : Jwt} {un : Unordered} (tz : Z) (v : Verifier).

(** [(v *Verifier) Parse]. *)
Definition ana_Parse (raw : string) : option Claims :=
  if bool_decide (vf_secret v = "") then None
  else match ParseWithClaims (vf_secret v) (vf_issuer v) (vf_audience v) raw with
  | None => None
  | Some claims =>
      if bool_decide (cl_IssuedAt claims = None) || bool_decide (cl_ExpiresAt claims = None) then None
      else if bool_decide (cl_Subject claims = "") || negb (Role_Valid (cl_Role claims)) then None
      else Some claims
  end.

Definition ana_unauthorized : NResp := NFail 401 "UNAUTHORIZED".
(** [authenticate] on the values of the Authorization headers. *)
Definition ana_authenticate (auth : list string) : NResp + Claims :=
  match auth with
  | [header] =>
      match fields header with
      | [scheme; raw] =>
          if negb (equal_fold scheme "Bearer") then inl ana_unauthorized
          else match ana_Parse raw with None => inl ana_unauthorized | Some claims => inr claims end
      | _ => inl ana_unauthorized
      end
  | _ => inl ana_unauthorized
  end.
Definition RequireRole (allowedRoles : list string) (auth : list string) (next : N_ NResp) : N_ NResp :=
  match ana_authenticate auth with
  | inl r => mret r
  | inr claims => if bool_decide (cl_Role claims ∈ allowedRoles) then next else mret (NFail 403 "FORBIDDEN")
  end.

Definition handle_summary (period : string) : N_ NResp :=
  r ← (try (GetAnalyticsSummary tz (or_else period "1w")) : N_ (NErr + AnalyticsSummary));
  match r with
  | inl NInvalidPeriod => mret (NFail 400 "HTTP_400")
  | inl _ => mret (NFail 500 "UNKNOWN_ERROR")
  | inr s => mret (NOkSummary s)
  end.

Definition ana_router (auth : list string) (q : NRequest) : N_ NResp :=
  match q with
  | NHealth => mret NOkHealth
  | NSummary period => RequireRole [RoleManager] auth (handle_summary period)
  end.
End http.

(** ** Line items of orders *)

(** [StreamOrderItems] over a client stream: what opening it, each [Send] and
    the final receive answer; [None] is an error, [Some None] the end of the
    stream or an empty answer. *)
Record OrderItemDetail := MkItemDetail { od_FlavorID : string; od_FlavorName : string; od_Portions : Z; od_UnitPriceMinor : Z; od_SubtotalMinor : Z }.
Record OrderStream := MkOrderStream { os_open : bool; os_send : string → bool; os_recv : option (option (list OrderItemDetail)) }.
Definition StreamOrderItems (s : OrderStream) (orderIDs : list string) : option (list OrderItemDetail) :=
  if negb (os_open s) then None
  else if negb (forallb (os_send s) orderIDs) then None
  else match os_recv s with None => None | Some answer => Some (default [] answer) end.
Definition BatchQueryOrderItems (client : option OrderStream) (orderIDs : list string) : option (list OrderItemDetail) :=
  match client with None => None | Some s => StreamOrderItems s orderIDs end.

(** [GetOrderDetails] on the answer of the Order service; [None] is an error,
    [Some None] an empty answer. *)
Record OrderReply := MkOrderReply {
  oy_OrderId : string; oy_CustomerId : string; oy_Status : string; oy_PickupAt : string; oy_TotalAmountMinor : Z; oy_Currency : string;
  oy_Items : list OrderItemDetail
}.
Record OrderDetails := MkOrderDetails {
  ot_OrderID : string; ot_CustomerID : string; ot_Status : string; ot_CreatedAt : string; ot_TotalAmountMinor : Z; ot_Currency : string;
  ot_Items : list OrderItemDetail
}.
Definition GetOrderDetails (call : string → option (option OrderReply)) (orderID : string) : option (option OrderDetails) :=
  match call orderID with
  | None => None
  | Some None => Some None
  | Some (Some r) => Some (Some (MkOrderDetails (oy_OrderId r) (oy_CustomerId r) (oy_Status r) (oy_PickupAt r) (oy_TotalAmountMinor r) (oy_Currency r) (oy_Items r)))
  end.
