(* ===== verification/AnaRun.v ===== *)
(** Analytics service: what the daily documents stand for.

    A ledger lists the sales, refunds and wastes that were applied, oldest
    first; a daily document is the fold of its entries, and each of its meters
    shows the sum of what they are worth, modulo 2^64.  So the order in which
    events arrive does not matter, and a refund takes back its sale. *)

From Stdlib Require Import SpecFloat.
From S2P Require Import Prelude Effects GoStd AnaModel AnaService.
#[local] Open Scope string_scope.
#[local] Open Scope list_scope.
#[local] Open Scope Z_scope.

Inductive Entry :=
  | ESale (date : string) (d : OrderPlacedData)
  | ERefund (date : string) (d : OrderCancelledData)
  | EWaste (date : string) (d : WasteRecordedData).

Definition entry_date (e : Entry) : string := match e with ESale date _ | ERefund date _ | EWaste date _ => date end.
Definition apply_entry (r : Analytics) (e : Entry) : Analytics :=
  match e with
  | ESale _ d => place_on d r
  | ERefund _ d => add_reversed (cd_OrderID d) (reverse_on d r)
  | EWaste _ d => waste_on d r
  end.
Definition entries (date : string) (ledger : list Entry) : list Entry := filter (λ e, entry_date e = date) ledger.
Definition day_of (date : string) (ledger : list Entry) : option Analytics :=
  match entries date ledger with [] => None | es => Some (foldl apply_entry (new_day date) es) end.

(** ** Meters *)

Inductive Meter :=
  | Gross | Orders | Scoops | WastePortions | Cost
  | FlavorScoops (flavor : string) | FlavorRevenue (flavor : string) | FlavorWasted (flavor : string) | FlavorCost (flavor : string)
  | ReasonPortions (reason : string) | ReasonCost (reason : string).

(** The entry of a key, as the loops find it. *)
Fixpoint first_of {A} (key : A → string) (k : string) (g : A → Z) (l : list A) : Z :=
  match l with [] => 0 | x :: l => if bool_decide (key x = k) then g x else first_of key k g l end.

Definition reading (m : Meter) (r : Analytics) : Z :=
  match m with
  | Gross => fi_GrossSalesMinor (an_Financials r)
  | Orders => fi_TotalOrders (an_Financials r)
  | Scoops => op_ScoopsSold (an_Operations r)
  | WastePortions => ws_TotalWastePortions (an_WasteStats r)
  | Cost => ws_CostLostMinor (an_WasteStats r)
  | FlavorScoops f => first_of fs_FlavorID f fs_ScoopsSold (an_FlavorStats r)
  | FlavorRevenue f => first_of fs_FlavorID f fs_RevenueMinor (an_FlavorStats r)
  | FlavorWasted f => first_of fs_FlavorID f fs_WastePortions (an_FlavorStats r)
  | FlavorCost f => first_of fs_FlavorID f fs_CostLostMinor (an_FlavorStats r)
  | ReasonPortions x => first_of wr_Reason x wr_Portions (ws_WasteByReason (an_WasteStats r))
  | ReasonCost x => first_of wr_Reason x wr_CostLostMinor (ws_WasteByReason (an_WasteStats r))
  end.

Definition of_flavor (f : string) (i : OrderPlacedItem) : bool := bool_decide (pi_FlavorID i = f).

Definition worth (m : Meter) (e : Entry) : Z :=
  match e, m with
  | ESale _ d, Gross => amount_minor d
  | ESale _ d, Orders => 1
  | ESale _ d, Scoops => sum_by pi_Portions (pd_Items d)
  | ESale _ d, FlavorScoops f => sum_where (of_flavor f) pi_Portions (pd_Items d)
  | ESale _ d, FlavorRevenue f => sum_where (of_flavor f) subtotal_minor (pd_Items d)
  | ERefund _ d, Gross => - cd_TotalAmountMinor d
  | ERefund _ d, Orders => - 1
  | ERefund _ d, Scoops => - sum_by pi_Portions (cd_Items d)
  | ERefund _ d, FlavorScoops f => - sum_where (of_flavor f) pi_Portions (cd_Items d)
  | ERefund _ d, FlavorRevenue f => - sum_where (of_flavor f) pi_SubtotalMinor (cd_Items d)
  | EWaste _ d, WastePortions => wd_Portions d
  | EWaste _ d, Cost => wd_CostLostMinor d
  | EWaste _ d, FlavorWasted f => if bool_decide (wd_FlavorID d = f) then wd_Portions d else 0
  | EWaste _ d, FlavorCost f => if bool_decide (wd_FlavorID d = f) then wd_CostLostMinor d else 0
  | EWaste _ d, ReasonPortions x => if bool_decide (wd_Reason d = x) then wd_Portions d else 0
  | EWaste _ d, ReasonCost x => if bool_decide (wd_Reason d = x) then wd_CostLostMinor d else 0
  | _, _ => 0
  end.

(** The integers that a decoder hands out fit into 64 bits. *)
Definition item_ints (i : OrderPlacedItem) : Prop := in64 (pi_Portions i) ∧ in64 (pi_SubtotalMinor i).
Definition entry_ints (e : Entry) : Prop :=
  match e with
  | ESale _ d => Forall item_ints (pd_Items d)
  | ERefund _ d => Forall item_ints (cd_Items d)
  | EWaste _ d => in64 (wd_Portions d) ∧ in64 (wd_CostLostMinor d)
  end.

(** ** Sums modulo 2^64 *)

Lemma wrap64_add a b : wrap64 (wrap64 a + b) = wrap64 (a + b).
Proof.
  unfold wrap64. f_equal. replace ((a + 2 ^ 63) mod 2 ^ 64 - 2 ^ 63 + b + 2 ^ 63) with ((a + 2 ^ 63) mod 2 ^ 64 + b) by lia.
  rewrite Zplus_mod_idemp_l. f_equal. lia.
Qed.
Lemma int64_of_in64 x : in64 (int64_of x).
Proof.
  unfold in64, int64_of, MinInt64, MaxInt64. destruct x as [s|s| |s m e]; try lia. cbv zeta.
  match goal with |- context [if (?a <=? ?z) && _ then _ else _] => destruct (Z.leb_spec a z); cbn [andb]; [destruct (Z.leb_spec z 9223372036854775807)|] end; lia.
Qed.
Lemma subtotal_in64 i : item_ints i → in64 (subtotal_minor i).
Proof. intros [_ H]. unfold subtotal_minor. destruct (_ && _); [apply int64_of_in64|done]. Qed.

Section first.
Context {A : Type} (key : A → string).
Implicit Types (l : list A) (f : A → A) (g : A → Z).

(** Changing or adding the entry of [k'] moves the meter of [k] by [c] if the
    keys agree, and not otherwise. *)
Lemma first_upsert k k' f fresh g c l S : (∀ x, key (f x) = key x) → key fresh = k' →
  (∀ x, g (f x) = wrap64 (g x + c)) → g fresh = wrap64 c → first_of key k g l = wrap64 S →
  first_of key k g (upsert (λ x, bool_decide (key x = k')) f fresh l) = wrap64 (S + if bool_decide (k' = k) then c else 0).
Proof.
  intros Hkey <- Hf Hfresh. induction l as [|x l IH]; cbn [first_of upsert].
  - intros HS. case_bool_decide; [|by rewrite Z.add_0_r]. rewrite Hfresh, <-wrap64_add, <-HS. done.
  - destruct (bool_decide_reflect (key x = key fresh)) as [Hx|Hx]; cbn [first_of]; rewrite ?Hkey; [rewrite Hx|].
    + case_bool_decide; [|by rewrite Z.add_0_r]. intros HS. by rewrite Hf, HS, wrap64_add.
    + destruct (bool_decide_reflect (key x = k)) as [Hk|Hk]; [|done]. intros ->. rewrite bool_decide_eq_false_2 by congruence. by rewrite Z.add_0_r.
Qed.
Lemma first_upsert_same k (p : A → bool) f fresh g l : (∀ x, key (f x) = key x) → (∀ x, g (f x) = g x) → g fresh = 0 →
  first_of key k g (upsert p f fresh l) = first_of key k g l.
Proof.
  intros Hkey Hf Hfresh. induction l as [|x l IH]; cbn [first_of upsert]; [by case_bool_decide|].
  destruct (p x); cbn [first_of]; [by rewrite Hkey, Hf|by rewrite IH].
Qed.
Lemma upsert_keys k f fresh l : (∀ x, key (f x) = key x) → key fresh = k → NoDup (key <$> l) →
  NoDup (key <$> upsert (λ x, bool_decide (key x = k)) f fresh l).
Proof.
  intros Hkey <-. induction l as [|x l IH]; cbn [upsert fmap list_fmap]; intros Hl; [apply NoDup_singleton|]. inv Hl.
  destruct (bool_decide_reflect (key x = key fresh)) as [Hx|Hx]; cbn [fmap list_fmap]; constructor; rewrite ?Hkey; auto.
  intros Hin. apply list_elem_of_fmap in Hin as (y & Hy & Hin). assert (∀ l, y ∈ upsert (λ x, bool_decide (key x = key fresh)) f fresh l →
    key y = key fresh ∨ key y ∈ key <$> l) as Hup.
  { clear -Hkey. induction l as [|z l IH]; cbn [upsert]; [rewrite list_elem_of_singleton; intros ->; by left|].
    case_bool_decide; rewrite elem_of_cons; intros [->|Hz]; cbn; rewrite ?elem_of_cons, ?Hkey; auto.
    - right. right. by apply list_elem_of_fmap_2.
    - destruct (IH Hz); auto. }
  destruct (Hup _ Hin); [congruence|]. rewrite <-Hy in *. done.
Qed.
End first.

Lemma foldl_sums {A} (h : A → Z) (l : list A) n S : n = wrap64 S → foldl (λ n i, wrap64 (n + h i)) n l = wrap64 (S + sum_by h l).
Proof.
  revert n S. induction l as [|x l IH]; intros n S ->; cbn [foldl sum_by]; [by rewrite Z.add_0_r|].
  rewrite (IH _ (S + h x)) by apply wrap64_add. f_equal. lia.
Qed.
(** A loop over the items that moves the meter of a flavor. *)
Lemma foldl_flavor (step : list FlavorStat → OrderPlacedItem → list FlavorStat) (h : OrderPlacedItem → Z) (g : FlavorStat → Z) flavor items l S :
  (∀ l i S, i ∈ items → first_of fs_FlavorID flavor g l = wrap64 S →
     first_of fs_FlavorID flavor g (step l i) = wrap64 (S + if bool_decide (pi_FlavorID i = flavor) then h i else 0)) →
  first_of fs_FlavorID flavor g l = wrap64 S →
  first_of fs_FlavorID flavor g (foldl step l items) = wrap64 (S + sum_where (of_flavor flavor) h items).
Proof.
  revert l S. induction items as [|i items IH]; intros l S Hstep Hl; cbn [foldl]; [by rewrite Z.add_0_r|].
  unfold sum_where. cbn [sum_by]. rewrite Z.add_assoc. apply IH; [intros; apply Hstep; [set_solver|done]|]. apply Hstep; [set_solver|done].
Qed.
Lemma foldl_flavor_same (step : list FlavorStat → OrderPlacedItem → list FlavorStat) (g : FlavorStat → Z) flavor items l :
  (∀ l i, first_of fs_FlavorID flavor g (step l i) = first_of fs_FlavorID flavor g l) →
  first_of fs_FlavorID flavor g (foldl step l items) = first_of fs_FlavorID flavor g l.
Proof. intros H. revert l. induction items as [|i items IH]; intros l; cbn [foldl]; [done|]. by rewrite IH, H. Qed.

(** ** One entry moves every meter by its worth *)

Lemma place_reading date d r m S : Forall item_ints (pd_Items d) → reading m r = wrap64 S →
  reading m (place_on d r) = wrap64 (S + worth m (ESale date d)).
Proof.
  intros Hi HS. rewrite Forall_forall in Hi. destruct m; cbn [reading worth] in *; rewrite ?Z.add_0_r; try done.
  - cbn. by rewrite HS, wrap64_add.
  - cbn. by rewrite HS, wrap64_add.
  - by apply foldl_sums.
  - apply foldl_flavor; [|done]. intros l i S' Hin HS'.
    apply (first_upsert fs_FlavorID flavor (pi_FlavorID i)); try done. cbn. symmetry. apply wrap64_id, Hi, Hin.
  - apply foldl_flavor; [|done]. intros l i S' Hin HS'.
    apply (first_upsert fs_FlavorID flavor (pi_FlavorID i)); try done. cbn. symmetry. apply wrap64_id, subtotal_in64, Hi, Hin.
  - cbn [an_FlavorStats place_on]. rewrite foldl_flavor_same; [done|]. intros l i. by apply first_upsert_same.
  - cbn [an_FlavorStats place_on]. rewrite foldl_flavor_same; [done|]. intros l i. by apply first_upsert_same.
Qed.

Lemma sum_by_opp {A} (h : A → Z) l : sum_by (λ x, - h x) l = - sum_by h l.
Proof. induction l as [|x l IH]; cbn; [done|]. lia. Qed.
Lemma sum_where_negate {A} P (h : A → Z) l : sum_where P (λ x, - h x) l = - sum_where P h l.
Proof. unfold sum_where. rewrite <-sum_by_opp. apply sum_by_ext. intros x _. by destruct (P x). Qed.

Lemma reverse_reading date d r m S : reading m r = wrap64 S →
  reading m (add_reversed (cd_OrderID d) (reverse_on d r)) = wrap64 (S + worth m (ERefund date d)).
Proof.
  intros HS. destruct m; cbn [reading worth] in *; rewrite ?Z.add_0_r; try done.
  - cbn. by rewrite HS, <-Z.add_opp_r, wrap64_add.
  - cbn. by rewrite HS, <-Z.add_opp_r, wrap64_add.
  - rewrite <-sum_by_opp. by apply (foldl_sums (λ i, - pi_Portions i)).
  - rewrite <-sum_where_negate. apply foldl_flavor; [|done]. intros l i S' Hin HS'. by apply (first_upsert fs_FlavorID flavor (pi_FlavorID i)).
  - rewrite <-sum_where_negate. apply foldl_flavor; [|done]. intros l i S' Hin HS'. by apply (first_upsert fs_FlavorID flavor (pi_FlavorID i)).
  - cbn [an_FlavorStats reverse_on add_reversed]. rewrite foldl_flavor_same; [done|]. intros l i. by apply first_upsert_same.
  - cbn [an_FlavorStats reverse_on add_reversed]. rewrite foldl_flavor_same; [done|]. intros l i. by apply first_upsert_same.
Qed.

Lemma waste_reading date d r m S : in64 (wd_Portions d) → in64 (wd_CostLostMinor d) → reading m r = wrap64 S →
  reading m (waste_on d r) = wrap64 (S + worth m (EWaste date d)).
Proof.
  intros Hp%wrap64_id Hc%wrap64_id HS. destruct m; cbn [reading worth] in *; rewrite ?Z.add_0_r; try done.
  - cbn. by rewrite HS, wrap64_add.
  - cbn. by rewrite HS, wrap64_add.
  - cbn [an_FlavorStats waste_on]. by rewrite first_upsert_same.
  - cbn [an_FlavorStats waste_on]. by rewrite first_upsert_same.
  - by apply (first_upsert fs_FlavorID flavor (wd_FlavorID d)).
  - by apply (first_upsert fs_FlavorID flavor (wd_FlavorID d)).
  - by apply (first_upsert wr_Reason reason (wd_Reason d)).
  - by apply (first_upsert wr_Reason reason (wd_Reason d)).
Qed.

Lemma apply_reading e r m S : entry_ints e → reading m r = wrap64 S → reading m (apply_entry r e) = wrap64 (S + worth m e).
Proof. destruct e; cbn [entry_ints apply_entry]; [apply place_reading|intros _; apply reverse_reading|intros []; by apply waste_reading]. Qed.

(** The meters of a day show the sum of its entries. *)
Lemma fold_reading es r m S : Forall entry_ints es → reading m r = wrap64 S →
  reading m (foldl apply_entry r es) = wrap64 (S + sum_by (worth m) es).
Proof.
  intros Hes. revert r S. induction Hes as [|e es He _ IH]; intros r S HS; cbn [foldl sum_by]; [by rewrite Z.add_0_r|].
  rewrite (IH _ (S + worth m e)) by by apply apply_reading. f_equal. lia.
Qed.
Lemma day_reading ledger date m : Forall entry_ints ledger →
  reading m (default (new_day date) (day_of date ledger)) = wrap64 (sum_by (worth m) (entries date ledger)).
Proof.
  intros Hl. assert (Forall entry_ints (entries date ledger)) as He.
  { rewrite Forall_forall in *. intros e [_ H]%list_elem_of_filter. auto. }
  assert (reading m (foldl apply_entry (new_day date) (entries date ledger)) = wrap64 (sum_by (worth m) (entries date ledger))) as H.
  { apply (fold_reading _ _ _ 0); [done|]. by destruct m. }
  unfold day_of. destruct (entries date ledger) as [|e es]; [|exact H]. cbn. by destruct m.
Qed.

(** ** The other fields *)

(** Averages and rates are those of the totals; keys do not repeat. *)
Record day_fields (r : Analytics) : Prop := {
  df_average : 0 < fi_TotalOrders (an_Financials r) →
    fi_AverageOrderValueMinor (an_Financials r) = fi_GrossSalesMinor (an_Financials r) `quot` fi_TotalOrders (an_Financials r);
  df_rate : 0 < op_ScoopsSold (an_Operations r) →
    op_WasteRate (an_Operations r) = waste_rate (ws_TotalWastePortions (an_WasteStats r)) (op_ScoopsSold (an_Operations r));
  df_flavors : NoDup (fs_FlavorID <$> an_FlavorStats r);
  df_reasons : NoDup (wr_Reason <$> ws_WasteByReason (an_WasteStats r))
}.

Lemma foldl_flavor_keys (step : list FlavorStat → OrderPlacedItem → list FlavorStat) items l :
  (∀ l i, NoDup (fs_FlavorID <$> l) → NoDup (fs_FlavorID <$> step l i)) →
  NoDup (fs_FlavorID <$> l) → NoDup (fs_FlavorID <$> foldl step l items).
Proof. intros H. revert l. induction items as [|i items IH]; intros l Hl; cbn [foldl]; auto. Qed.

Lemma apply_fields r e : day_fields r → day_fields (apply_entry r e).
Proof.
  intros [Ha Hr Hf Hw]. destruct e as [date d|date d|date d]; split; cbn [apply_entry place_on reverse_on waste_on add_reversed
    an_Financials an_Operations an_WasteStats an_FlavorStats fi_TotalOrders fi_AverageOrderValueMinor fi_GrossSalesMinor op_ScoopsSold op_WasteRate
    ws_TotalWastePortions ws_WasteByReason]; try done;
    try (intros Hpos; by rewrite (proj2 (Z.ltb_lt _ _) Hpos)).
  - apply foldl_flavor_keys; [|done]. intros l i. by apply (upsert_keys fs_FlavorID).
  - apply foldl_flavor_keys; [|done]. intros l i. by apply (upsert_keys fs_FlavorID).
  - by apply (upsert_keys fs_FlavorID).
  - by apply (upsert_keys wr_Reason).
Qed.
Lemma new_day_fields date : day_fields (new_day date).
Proof. split; cbn; [lia|lia|constructor|constructor]. Qed.
Lemma day_of_fields ledger date r : day_of date ledger = Some r → day_fields r.
Proof.
  assert (∀ es, day_fields (foldl apply_entry (new_day date) es)) as H.
  { intros es. induction es as [|e es IH] using rev_ind; [apply new_day_fields|]. rewrite foldl_app. by apply apply_fields. }
  unfold day_of. specialize (H (entries date ledger)). destruct (entries date ledger); [done|]. by intros [= <-].
Qed.
Lemma apply_date r e : an_Date (apply_entry r e) = an_Date r.
Proof. by destruct e. Qed.
Lemma day_of_date ledger date r : day_of date ledger = Some r → an_Date r = date.
Proof.
  assert (∀ es, an_Date (foldl apply_entry (new_day date) es) = date) as H.
  { intros es. induction es as [|e es IH] using rev_ind; [done|]. rewrite foldl_app. cbn. by rewrite apply_date. }
  unfold day_of. specialize (H (entries date ledger)). destruct (entries date ledger); [done|]. by intros [= <-].
Qed.

(** The reversed orders of a day are those of its refunds. *)
Definition refund_of (date : string) (e : Entry) : option string :=
  match e with ERefund date' d => if bool_decide (date' = date) then Some (cd_OrderID d) else None | _ => None end.
Lemma day_of_reversed ledger date r : day_of date ledger = Some r → an_ReversedOrderIDs r = omap (refund_of date) ledger.
Proof.
  assert (an_ReversedOrderIDs (foldl apply_entry (new_day date) (entries date ledger)) = omap (refund_of date) ledger) as H.
  { induction ledger as [|e ledger IH] using rev_ind; [done|]. unfold entries. rewrite filter_app, omap_app, foldl_app.
    fold (entries date ledger). rewrite filter_cons, filter_nil.
    destruct e as [date' d|date' d|date' d]; cbn; case_decide; try case_bool_decide; try done; cbn; rewrite ?app_nil_r; try done.
    by rewrite IH. }
  unfold day_of. destruct (entries date ledger); [done|]. by intros [= <-].
Qed.
Lemma day_of_None ledger date : day_of date ledger = None → entries date ledger = [].
Proof. unfold day_of. by destruct (entries date ledger). Qed.

(** One more entry. *)
Lemma entries_snoc date ledger e : entries date (ledger ++ [e]) = entries date ledger ++ (if decide (entry_date e = date) then [e] else []).
Proof. unfold entries. by rewrite filter_app, filter_cons, filter_nil. Qed.
Lemma day_of_snoc ledger e date : day_of date (ledger ++ [e]) =
  if decide (entry_date e = date) then Some (apply_entry (default (new_day date) (day_of date ledger)) e) else day_of date ledger.
Proof.
  unfold day_of. rewrite entries_snoc. destruct (decide (entry_date e = date)) as [He|He]; [|by rewrite app_nil_r].
  destruct (entries date ledger) as [|x l] eqn:E; [done|]. change ((x :: l) ++ [e]) with (x :: (l ++ [e])).
  f_equal. change (x :: l ++ [e]) with ((x :: l) ++ [e]). by rewrite foldl_app.
Qed.

(** Analytics service: what handling one message does to the collections, on
    every branch and with any failure, and the service as a system of
    deliveries, redeliveries, crashes and expiring markers. *)

#[local] Open Scope string_scope.
#[local] Open Scope list_scope.
#[local] Open Scope Z_scope.

(** ** Dates *)

Lemma digit_48 x : 0 ≤ x ≤ 9 → digit (48 + x) = Some x.
Proof. intros H. unfold digit, between. rewrite !(proj2 (Z.leb_le _ _)) by lia. cbn. f_equal. lia. Qed.
Lemma digit_range b d : digit b = Some d → 0 ≤ d ≤ 9.
Proof. unfold digit, between. destruct (Z.leb_spec 48 b), (Z.leb_spec b 57); cbn; intros [= <-]; lia. Qed.

Lemma pad2_digits n acc k l : digits (S (S k)) acc (pad2 n ++ l) = digits k (acc * 100 + n mod 100) l.
Proof.
  cbn [pad2 app digits]. pose proof (Z.mod_pos_bound (n / 10) 10). pose proof (Z.mod_pos_bound n 10). rewrite !digit_48 by lia. cbn.
  change 100 with (10 * 10) at 2. rewrite Z.rem_mul_r by lia. f_equal. lia.
Qed.
Lemma pad2_read n l : 0 ≤ n < 100 → digits 2 0 (pad2 n ++ l) = Some (n, l).
Proof. intros Hn. rewrite pad2_digits, Z.mod_small by lia. done. Qed.
Lemma pad4_read n l : 0 ≤ n < 10000 → digits 4 0 (pad2 (n / 100) ++ pad2 n ++ l) = Some (n, l).
Proof.
  intros Hn. rewrite !pad2_digits, (Z.mod_small (n / 100)); [|split; [apply Z.div_pos; lia|apply Z.div_lt_upper_bound; lia]].
  cbn [digits]. repeat f_equal. pose proof (Z.div_mod n 100). lia.
Qed.
Lemma digits_range n acc l v l' : digits n acc l = Some (v, l') → 0 ≤ acc → acc * 10 ^ Z.of_nat n ≤ v < (acc + 1) * 10 ^ Z.of_nat n.
Proof.
  revert acc l. induction n as [|n IH]; intros acc l; cbn [digits]; [intros [= <- <-]; lia|].
  destruct l as [|b l]; [done|]. destruct (digit b) as [d|] eqn:Hd; [|done]. apply digit_range in Hd. cbn. intros H ?.
  apply IH in H; [|lia]. rewrite Nat2Z.inj_succ, Z.pow_succ_r by lia. nia.
Qed.

Lemma parse_ymd_range l c l' : parse_ymd l = Some (c, l') → 0 ≤ cv_Year c < 10000 ∧ 1 ≤ cv_Month c ≤ 12.
Proof.
  unfold parse_ymd. destruct (digits 4 0 l) as [[y l1]|] eqn:Hy; [|done]. cbn. destruct (literal 45 l1) as [l2|]; [|done]. cbn.
  destruct (getnum true l2) as [[m l3]|]; [|done]. cbn. unfold between.
  destruct (Z.leb_spec 1 m); [|done]. destruct (Z.leb_spec m 12); [|done]. cbn. destruct (literal 45 l3) as [l4|]; [|done]. cbn.
  destruct (getnum true l4) as [[d l5]|]; [|done]. cbn. intros [= <- <-]. apply digits_range in Hy; [|done]. cbn in *. lia.
Qed.

(** A date that was read is written and read back. *)
Lemma parse_format_day c : 0 ≤ cv_Year c < 10000 → 1 ≤ cv_Month c ≤ 12 → day_ok c = true → parse_day (format_day c) = Some c.
Proof.
  intros Hy Hm Hd. destruct c as [y m d]. cbn [cv_Year cv_Month cv_Day] in *. unfold parse_day, format_day. cbn [cv_Year cv_Month cv_Day].
  assert (1 ≤ d ≤ 31) as Hd'.
  { unfold day_ok, between in Hd. cbn in Hd. apply andb_true_iff in Hd as [H1%Z.leb_le H2%Z.leb_le]. unfold days_in in H2. repeat case_match; lia. }
  rewrite bytes_of_bytes.
  2:{ unfold pad2. cbn [app]. repeat constructor;
      match goal with |- context [?a mod 10] => pose proof (Z.mod_pos_bound a 10) | _ => idtac end; lia. }
  unfold parse_ymd, getnum. rewrite pad4_read by done. cbn [mbind option_bind app literal]. rewrite Z.eqb_refl. cbn [mbind option_bind].
  rewrite pad2_read by lia. cbn [mbind option_bind]. unfold between. rewrite !(proj2 (Z.leb_le _ _)) by lia.
  cbn [andb app literal]. rewrite Z.eqb_refl. cbn [mbind option_bind]. rewrite <-(app_nil_r (pad2 d)), pad2_read by lia.
  cbn [mbind option_bind]. by rewrite Hd.
Qed.

(** Dates of events are dates of the calendar. *)
Lemma extractDate_civil ts date : extractDate ts = inr date → ∃ c, date = format_day c ∧ 0 ≤ cv_Year c < 10000 ∧ 1 ≤ cv_Month c ≤ 12 ∧ day_ok c = true.
Proof.
  unfold extractDate. case_bool_decide; [done|]. destruct (parse_rfc3339_day ts) as [c|] eqn:E1.
  - intros [= <-]. unfold parse_rfc3339_day in E1. destruct (parse_ymd (bytes ts)) as [[c' l]|] eqn:Hc; [|done]. cbn [mbind option_bind] in E1.
    apply parse_ymd_range in Hc as [H1 H2]. destruct (literal 84 l) as [l1|]; [|done]. cbn [mbind option_bind] in E1.
    destruct (getnum false l1) as [[h l2]|]; [|done]. cbn [mbind option_bind] in E1. destruct (h <? 24); [|done].
    destruct (literal 58 l2) as [l3|]; [|done]. cbn [mbind option_bind] in E1. destruct (getnum true l3) as [[mi l4]|]; [|done].
    cbn [mbind option_bind] in E1. destruct (mi <? 60); [|done]. destruct (literal 58 l4) as [l5|]; [|done]. cbn [mbind option_bind] in E1.
    destruct (getnum true l5) as [[sec l6]|]; [|done]. cbn [mbind option_bind] in E1. destruct (sec <? 60); [|done]. cbn [negb] in E1.
    destruct (parse_zone (skip_fraction l6)) as [l7|]; [|done]. cbn [mbind option_bind] in E1. case_bool_decide; [|done]. cbn [andb] in E1.
    destruct (day_ok c') eqn:Hd; [|done]. injection E1 as <-. by exists c'.
  - destruct (parse_day ts) as [c|] eqn:E2; [|done]. intros [= <-]. unfold parse_day in E2.
    destruct (parse_ymd (bytes ts)) as [[c' l]|] eqn:Hc; [|done]. cbn [mbind option_bind] in E2. apply parse_ymd_range in Hc as [H1 H2].
    case_bool_decide; [|done]. cbn [andb] in E2. destruct (day_ok c') eqn:Hd; [|done]. injection E2 as <-. by exists c'.
Qed.
Lemma extractDate_ok ts date : extractDate ts = inr date → date ≠ "" ∧ is_Some (parse_day date).
Proof. intros (c & -> & H1 & H2 & H3)%extractDate_civil. rewrite (parse_format_day c H1 H2 H3). split; [done|eauto]. Qed.

(** ** What a message asks for *)

Inductive Parsed := PPlaced (e : Envelope OrderPlacedData) | PCancelled (e : Envelope OrderCancelledData) | PWaste (e : Envelope WasteRecordedData).
Definition parsed_id (p : Parsed) : string := match p with PPlaced e => en_ID e | PCancelled e => en_ID e | PWaste e => en_ID e end.

Definition on_date (ts : string) (f : string → Entry) : option Entry := match extractDate ts with inr date => Some (f date) | inl _ => None end.
Definition parsed_entry (p : Parsed) : option Entry :=
  match p with
  | PPlaced e => on_date (en_Time e) (λ date, ESale date (en_Data e))
  | PCancelled e =>
      if negb (cd_WasPaid (en_Data e)) || bool_decide (cd_OrderID (en_Data e) = "") then None
      else on_date (cd_PaidAt (en_Data e)) (λ date, ERefund date (en_Data e))
  | PWaste e => on_date (en_Time e) (λ date, EWaste date (en_Data e))
  end.

Section messages.
Context {json : AnaJson}.

Definition parse_message (d : NDelivery) : option Parsed :=
  let key := nd_RoutingKey d in
  if bool_decide (key ∈ ["order.placed"; "OrderPlaced"]) then PPlaced ∘ map_data placed_UnmarshalJSON <$> decode_placed (nd_Body d)
  else if bool_decide (key ∈ ["order.cancelled"; "OrderCancelled"]) then PCancelled ∘ map_data cancelled_UnmarshalJSON <$> decode_cancelled (nd_Body d)
  else if bool_decide (key ∈ ["inventory.waste"; "WasteRecorded"]) then PWaste ∘ map_data waste_UnmarshalJSON <$> decode_waste (nd_Body d)
  else None.
Definition event_id (d : NDelivery) : string := match parse_message d with Some p => parsed_id p | None => "" end.
Definition wants (d : NDelivery) : option Entry := p ← parse_message d; parsed_entry p.

Definition handle (p : Parsed) : N_ unit :=
  match p with PPlaced e => ProcessOrderPlaced e | PCancelled e => ProcessOrderCancelled e | PWaste e => ProcessWasteRecorded e end.
Lemma processMessage_parsed d :
  processMessage d = match parse_message d with None => mret (NNack false) | Some p => settle (handle p) end.
Proof.
  unfold processMessage, parse_message. repeat case_bool_decide; try done.
  - by destruct (decode_placed _).
  - by destruct (decode_cancelled _).
  - by destruct (decode_waste _).
Qed.
End messages.

(** ** One call *)

Section calls.
Context (o : oracle).
Implicit Types (w : world NDB) (d : NDB).

(** The environment broke in. *)
Definition hurt (e : NErr) : Prop := ¬ reliable o ∧ ∃ er, e = NDb er.

Lemma mongo_read_cases {A} (f : NDB → A) w r w' : mongo_read f o w = (r, w') →
  w_db w' = w_db w ∧ (r = inr (f (w_db w)) ∨ ∃ e, r = inl e ∧ hurt e).
Proof.
  unfold mongo_read, pool_query, pool_stmt. destruct (or_fault o (w_tick w)) as [e|] eqn:Hf; intros [= <- <-]; split; auto.
  right. eexists. split; [done|]. split; [intros Hr; by rewrite Hr in Hf|eauto].
Qed.
Lemma mongo_write_cases {A} (f : NDB → dberr + (A * NDB)) w a d r w' : f (w_db w) = inr (a, d) → mongo_write f o w = (r, w') →
  (r = inr a ∧ w_db w' = d) ∨ ∃ e, r = inl e ∧ hurt e ∧ (w_db w' = d ∨ w_db w' = w_db w).
Proof.
  intros Ha. unfold mongo_write, pool_stmt. destruct (or_fault o (w_tick w)) as [e|] eqn:Hf; rewrite Ha; intros [= <- <-]; [|by left].
  right. eexists. split; [done|]. split; [split; [intros Hr; by rewrite Hr in Hf|eauto]|]. cbn. destruct (or_landed o (w_tick w)); auto.
Qed.

Definition mark (id : string) (m : option ProcessedEvent) d : NDB := match m with Some x => set_events <[id := x]> d | None => d end.

Lemma IsProcessed_cases id w r w' : IsProcessed id o w = (r, w') → w_db w' = w_db w ∧
  (r = inr (bool_decide (id ≠ "" ∧ is_Some (n_events (w_db w) !! id))) ∨ ∃ e, r = inl e ∧ hurt e).
Proof.
  unfold IsProcessed. destruct (bool_decide_reflect (id = "")) as [Hid|Hid].
  - intros [= <- <-]. split; [done|]. left. rewrite bool_decide_eq_false_2; [done|tauto].
  - intros [Hd H]%mongo_read_cases. split; [done|]. destruct H as [->|H]; [|by right]. left. do 2 f_equal. apply bool_decide_ext. tauto.
Qed.
Lemma MarkProcessed_cases id ty w r w' : MarkProcessed id ty o w = (r, w') →
  ∃ m, w_db w' = mark id m (w_db w) ∧ (id = "" → m = None) ∧ ((r = inr tt ∧ (id ≠ "" → is_Some m)) ∨ ∃ e, r = inl e ∧ hurt e).
Proof.
  unfold MarkProcessed. destruct (bool_decide_reflect (id = "")) as [Hid|Hid].
  - intros [= <- <-]. exists None. split_and!; try done. left. split; [done|]. tauto.
  - intros H. unfold mbind, M_bind, go_now in H. eapply mongo_write_cases in H; [|done]. cbn [w_db] in H.
    destruct H as [[-> ->]|(e & -> & He & [->| ->])].
    + exists (Some (MkProcessed ty (or_clock o (w_tick w)))). split_and!; [done|done|]. left. eauto.
    + exists (Some (MkProcessed ty (or_clock o (w_tick w)))). split_and!; [done|done|]. right. eauto.
    + exists None. split_and!; [done|done|]. right. eauto.
Qed.

Definition day_in (date : string) d : Analytics := default (new_day date) (n_days d !! date).
Lemma getOrCreate_cases date w r w' : date ≠ "" → is_Some (parse_day date) → getOrCreateAnalytics date o w = (r, w') →
  w_db w' = w_db w ∧ (r = inr (day_in date (w_db w)) ∨ ∃ e, r = inl e ∧ hurt e).
Proof.
  intros Hne [c Hc]. unfold getOrCreateAnalytics. rewrite bool_decide_eq_false_2, Hc by done. unfold mbind, M_bind, FindByDate.
  destruct (mongo_read _ o w) as [res w1] eqn:H. apply mongo_read_cases in H as [Hd [->|(e & -> & He)]]; intros [= <- <-]; eauto.
Qed.

Definition put (e : Entry) d : NDB := set_days <[entry_date e := apply_entry (day_in (entry_date e) d) e]> d.
Definition dated d : Prop := ∀ date r, n_days d !! date = Some r → an_Date r = date.
Lemma day_in_date date d : dated d → an_Date (day_in date d) = date.
Proof. intros Hd. unfold day_in. destruct (n_days d !! date) eqn:E; [by apply Hd in E|done]. Qed.
Lemma set_fields_kept a date d : an_ReversedOrderIDs a = an_ReversedOrderIDs (day_in date d) → set_fields a (n_days d !! date) = a.
Proof. unfold set_fields, day_in. destruct a. cbn. intros ->. by destruct (n_days d !! date). Qed.

Lemma Save_cases e w r w' : dated (w_db w) → (∀ date c, e ≠ ERefund date c) → Save (apply_entry (day_in (entry_date e) (w_db w)) e) o w = (r, w') →
  (r = inr tt ∧ w_db w' = put e (w_db w)) ∨ ∃ er, r = inl er ∧ hurt er ∧ (w_db w' = put e (w_db w) ∨ w_db w' = w_db w).
Proof.
  intros Hd He H. eapply mongo_write_cases in H; [|done].
  replace (set_days _ (w_db w)) with (put e (w_db w)) in H; [exact H|]. unfold put, set_days. rewrite apply_date, (day_in_date _ _ Hd).
  rewrite set_fields_kept; [done|]. destruct e; [done|by destruct (He date d)|done].
Qed.
Lemma SaveReversal_cases date c w r w' : dated (w_db w) → cd_OrderID c ∉ an_ReversedOrderIDs (day_in date (w_db w)) →
  SaveReversal (reverse_on c (day_in date (w_db w))) (cd_OrderID c) o w = (r, w') →
  ((∃ b, r = inr b) ∧ w_db w' = put (ERefund date c) (w_db w)) ∨
  ∃ er, r = inl er ∧ hurt er ∧ (w_db w' = put (ERefund date c) (w_db w) ∨ w_db w' = w_db w).
Proof.
  intros Hd Hnew. unfold SaveReversal. set (a := reverse_on c (day_in date (w_db w))).
  assert (an_Date a = date) as Ha by exact (day_in_date date _ Hd).
  assert (upsert_reversal a (cd_OrderID c) (w_db w) = inr (true, put (ERefund date c) (w_db w))) as Hup.
  { assert (add_reversed (cd_OrderID c) (set_fields a (n_days (w_db w) !! date)) = apply_entry (day_in date (w_db w)) (ERefund date c)) as E
      by by rewrite set_fields_kept.
    unfold upsert_reversal, put. rewrite Ha, E. cbn [entry_date]. unfold day_in in Hnew. destruct (n_days (w_db w) !! date) as [old|]; [|done].
    by rewrite bool_decide_eq_false_2. }
  unfold mbind, M_bind, try. destruct (mongo_write _ o w) as [res w1] eqn:H. eapply mongo_write_cases in H; [|exact Hup].
  destruct H as [[-> Hw]|(e & -> & (Hr & er & ->) & Hw)]; [intros [= <- <-]; left; eauto|].
  destruct er; try (intros [= <- <-]; right; eexists; split; [done|]; split; [split; eauto|done]).
  destruct (mongo_read _ o w1) as [res w2] eqn:Hread. apply mongo_read_cases in Hread as [Hw2 Hres]. rewrite <-Hw2 in Hw.
  destruct res as [e|[]].
  - intros [= <- <-]. right. eexists. split; [done|]. split; [split; eauto|done].
  - destruct Hres as [[= Hin]|(? & ? & _)]; [|done]. intros [= <- <-]. left. split; [eauto|]. destruct Hw as [|Hw]; [done|].
    exfalso. rewrite (day_in_date _ _ Hd), <-Hw2, Hw in Hin. unfold day_in in Hnew. destruct (n_days (w_db w) !! date); [|done].
    symmetry in Hin. by apply bool_decide_eq_true in Hin.
  - intros [= <- <-]. right. eexists. split; [done|]. split; [split; eauto|done].
Qed.
End calls.

(** ** One message *)

Definition reversed_in (e : Entry) (d : NDB) : Prop :=
  match e with ERefund date c => cd_OrderID c ∈ an_ReversedOrderIDs (day_in date d) | _ => False end.

Section message.
Context {json : AnaJson}.
Implicit Types (d : NDB) (dl : NDelivery).

(** How a handled message ends; [R]: the database answered throughout. *)
Definition ends (R : Prop) dl (v : NVerdict) (m : option ProcessedEvent) : Prop :=
  v ≠ NNack false ∧ (event_id dl = "" → m = None) ∧ (R → v = NAck ∧ (event_id dl ≠ "" → is_Some m)).
Definition unseen dl d : Prop := event_id dl = "" ∨ n_events d !! event_id dl = None.

Inductive fx (R : Prop) dl d : NVerdict → NDB → Prop :=
  | fx_seen : event_id dl ≠ "" → is_Some (n_events d !! event_id dl) → fx R dl d NAck d
  | fx_reject : wants dl = None → fx R dl d (NNack false) d
  | fx_retry : ¬ R → fx R dl d (NNack true) d
  | fx_done v m : (∀ e, wants dl = Some e → reversed_in e d) → unseen dl d → ends R dl v m → fx R dl d v (mark (event_id dl) m d)
  | fx_apply e v m : wants dl = Some e → ¬ reversed_in e d → unseen dl d → ends R dl v m → fx R dl d v (mark (event_id dl) m (put e d)).

Lemma unseen_false id d : ¬ (id ≠ "" ∧ is_Some (n_events d !! id)) → id = "" ∨ n_events d !! id = None.
Proof. intros H. destruct (decide (id = "")); [by left|]. right. apply eq_None_not_Some. tauto. Qed.

(** What an event of a sale or of waste does. *)
Lemma count_fx dl o w id ts (f : string → Entry) ty r w' :
  event_id dl = id → wants dl = on_date ts f → dated (w_db w) →
  (∀ date, entry_date (f date) = date) → (∀ date x c, f date ≠ ERefund x c) →
  (processed ← IsProcessed id;
   if (processed : bool) then mret tt
   else date ← of_sum (extractDate ts); record ← getOrCreateAnalytics date; Save (apply_entry record (f date)) ;;
        (try (MarkProcessed id ty) : N_ (NErr + unit)) ;; mret tt) o w = (r, w') →
  fx (reliable o) dl (w_db w) (match r with inl e => NNack (negb (isPermanentError e)) | inr _ => NAck end) (w_db w').
Proof.
  intros Hid Hw Hd Hdate Hno. unfold mbind, M_bind. destruct (IsProcessed id o w) as [p w1] eqn:Hp.
  apply IsProcessed_cases in Hp as [E1 [->|(e & -> & Hr & er & ->)]].
  2:{ intros [= <- <-]. rewrite E1. by apply fx_retry. }
  destruct (bool_decide_reflect (id ≠ "" ∧ is_Some (n_events (w_db w) !! id))) as [[H1 H2]|Hnew].
  { intros [= <- <-]. rewrite E1. apply fx_seen; by rewrite Hid. }
  unfold on_date in Hw. destruct (extractDate ts) as [e|date] eqn:Ets; cbn [of_sum].
  { intros [= <- <-]. rewrite E1. assert (e = NInvalidDate) as -> by (unfold extractDate in Ets; repeat case_match; congruence). by apply fx_reject. }
  destruct (extractDate_ok _ _ Ets) as [Hne Hday]. unfold mret, M_ret. destruct (getOrCreateAnalytics date o w1) as [g w2] eqn:Hg.
  apply getOrCreate_cases in Hg as [E2 [->|(e & -> & Hr & er & ->)]]; try done.
  2:{ intros [= <- <-]. rewrite E2, E1. by apply fx_retry. }
  rewrite E1 in E2. rewrite E1, <-E2. rewrite <-E2 in Hd. rewrite <-(Hdate date) at 1.
  destruct (Save _ o w2) as [s w3] eqn:Hs. apply Save_cases in Hs; [|done|apply Hno].
  assert (wants dl = Some (f date) ∧ ¬ reversed_in (f date) (w_db w2) ∧ unseen dl (w_db w2)) as (H1 & H2 & H3).
  { split; [done|]. split; [specialize (Hno date); destruct (f date) as [| x c|]; cbn; try tauto; by destruct (Hno x c)|].
    unfold unseen. rewrite Hid, E2. by apply unseen_false. }
  destruct Hs as [[-> E3]|(e & -> & (Hr & er & ->) & [E3|E3])].
  - destruct (MarkProcessed id ty o w3) as [r4 w4] eqn:Hm. unfold try. rewrite Hm. intros [= <- <-].
    apply MarkProcessed_cases in Hm as (m & E4 & Hm1 & Hm2). rewrite E4, E3, <-Hid. eapply fx_apply; [done..|]. split; [done|]. rewrite Hid.
    split; [done|]. intros HR. split; [done|]. destruct Hm2 as [[_ ?]|(e & _ & ? & _)]; done.
  - intros [= <- <-]. rewrite E3. apply (fx_apply _ _ _ (f date) _ None); done.
  - intros [= <- <-]. rewrite E3. by apply fx_retry.
Qed.

Lemma placed_fx dl e o w r w' : parse_message dl = Some (PPlaced e) → dated (w_db w) → ProcessOrderPlaced e o w = (r, w') →
  fx (reliable o) dl (w_db w) (match r with inl e => NNack (negb (isPermanentError e)) | inr _ => NAck end) (w_db w').
Proof.
  intros Hp Hd. apply (count_fx _ _ _ _ (en_Time e) (λ date, ESale date (en_Data e))); try done.
  - unfold event_id. by rewrite Hp.
  - unfold wants. by rewrite Hp.
Qed.
Lemma waste_fx dl e o w r w' : parse_message dl = Some (PWaste e) → dated (w_db w) → ProcessWasteRecorded e o w = (r, w') →
  fx (reliable o) dl (w_db w) (match r with inl e => NNack (negb (isPermanentError e)) | inr _ => NAck end) (w_db w').
Proof.
  intros Hp Hd. apply (count_fx _ _ _ _ (en_Time e) (λ date, EWaste date (en_Data e))); try done.
  - unfold event_id. by rewrite Hp.
  - unfold wants. by rewrite Hp.
Qed.

(** A paid cancellation: refunded now or before, rejected, or to be retried. *)
Lemma reverse_cases c o w r w' : dated (w_db w) → reversePaidOrder c o w = (r, w') →
  let entry := if bool_decide (cd_OrderID c = "") then None else on_date (cd_PaidAt c) (λ date, ERefund date c) in
  (r = inl NInvalidDate ∧ entry = None ∧ w_db w' = w_db w) ∨
  (∃ e, entry = Some e ∧ reversed_in e (w_db w) ∧ r = inr tt ∧ w_db w' = w_db w) ∨
  (∃ e, entry = Some e ∧ ¬ reversed_in e (w_db w) ∧ (r = inr tt ∨ ∃ er, r = inl er ∧ hurt o er) ∧ w_db w' = put e (w_db w)) ∨
  (∃ er, r = inl er ∧ hurt o er ∧ w_db w' = w_db w).
Proof.
  intros Hd. unfold reversePaidOrder. case_bool_decide; [intros [= <- <-]; by left|]. unfold mbind, M_bind, on_date.
  destruct (extractDate (cd_PaidAt c)) as [e|date] eqn:Ets; cbn [of_sum].
  { intros [= <- <-]. left. split_and!; try done. f_equal. unfold extractDate in Ets; repeat case_match; congruence. }
  destruct (extractDate_ok _ _ Ets) as [Hne Hday]. unfold mret, M_ret. destruct (getOrCreateAnalytics date o w) as [g w2] eqn:Hg.
  apply getOrCreate_cases in Hg as [E2 [->|(e & -> & He)]]; try done.
  2:{ intros [= <- <-]. do 3 right. eauto. }
  destruct (bool_decide_reflect (cd_OrderID c ∈ an_ReversedOrderIDs (day_in date (w_db w)))) as [Hin|Hin].
  { intros [= <- <-]. right. left. eexists. split; [done|]. done. }
  rewrite <-E2 in Hin |- *. rewrite <-E2 in Hd. destruct (SaveReversal _ _ o w2) as [s w3] eqn:Hs.
  apply SaveReversal_cases in Hs as [[[b ->] E3]|(er & -> & He & [E3|E3])]; try done; intros [= <- <-].
  - right. right. left. eexists. split; [done|]. split; [done|]. split; [by left|done].
  - right. right. left. eexists. split; [done|]. split; [done|]. split; [right; eauto|done].
  - do 3 right. rewrite <-E3. eauto.
Qed.

Lemma cancelled_fx dl e o w r w' : parse_message dl = Some (PCancelled e) → dated (w_db w) → ProcessOrderCancelled e o w = (r, w') →
  fx (reliable o) dl (w_db w) (match r with inl e => NNack (negb (isPermanentError e)) | inr _ => NAck end) (w_db w').
Proof.
  intros Hp Hd. assert (event_id dl = en_ID e) as Hid by (unfold event_id; by rewrite Hp).
  assert (wants dl = parsed_entry (PCancelled e)) as Hw by (unfold wants; by rewrite Hp). cbn [parsed_entry] in Hw.
  unfold ProcessOrderCancelled, mbind, M_bind. destruct (IsProcessed (en_ID e) o w) as [p w1] eqn:Hproc.
  apply IsProcessed_cases in Hproc as [E1 [->|(er & -> & Hr & x & ->)]].
  2:{ intros [= <- <-]. rewrite E1. by apply fx_retry. }
  destruct (bool_decide_reflect (en_ID e ≠ "" ∧ is_Some (n_events (w_db w) !! en_ID e))) as [[H1 H2]|Hnew].
  { intros [= <- <-]. rewrite E1. apply fx_seen; by rewrite Hid. }
  rewrite <-E1 in Hnew, Hd |- *. apply unseen_false in Hnew. rewrite <-Hid in Hnew. fold (unseen dl (w_db w1)) in Hnew.
  assert (∀ w2 r4 w4, MarkProcessed (en_ID e) "OrderCancelled" o w2 = (r4, w4) →
    ∃ m, w_db w4 = mark (event_id dl) m (w_db w2) ∧
      ends (reliable o) dl (match r4 with inl e => NNack (negb (isPermanentError e)) | inr _ => NAck end) m) as Hmark.
  { intros w2 r4 w4 (m & E4 & Hm1 & Hm2)%MarkProcessed_cases. exists m. rewrite Hid. split; [done|]. unfold ends. rewrite Hid.
    destruct Hm2 as [[-> ?]|(er & -> & Hr & x & ->)]; split_and!; done. }
  destruct (cd_WasPaid (en_Data e)); cbn [negb orb] in Hw.
  - destruct (reversePaidOrder (en_Data e) o w1) as [rr w2] eqn:Hrev. apply reverse_cases in Hrev; [|done]. cbv zeta in Hrev. rewrite <-Hw in Hrev.
    destruct Hrev as [(-> & H1 & E2)|[(x & H1 & H2 & -> & E2)|[(x & H1 & H2 & H3 & E2)|(er & -> & (Hr & y & ->) & E2)]]].
    + intros [= <- <-]. rewrite E2. by apply fx_reject.
    + destruct (MarkProcessed _ _ o w2) as [r4 w4] eqn:Hm. intros [= <- <-]. apply Hmark in Hm as (m & -> & Hends).
      rewrite E2. apply fx_done; [|done|done]. intros e' He'. by simplify_eq.
    + destruct H3 as [->|(er & -> & Hr & y & ->)].
      * destruct (MarkProcessed _ _ o w2) as [r4 w4] eqn:Hm. intros [= <- <-]. apply Hmark in Hm as (m & -> & Hends).
        rewrite E2. by eapply fx_apply.
      * intros [= <- <-]. rewrite E2. by apply (fx_apply _ _ _ x _ None).
    + intros [= <- <-]. rewrite E2. by apply fx_retry.
  - unfold mret, M_ret. destruct (MarkProcessed _ _ o w1) as [r4 w4] eqn:Hm. intros [= <- <-].
    apply Hmark in Hm as (m & -> & Hends). apply fx_done; [|done|done]. by rewrite Hw.
Qed.

(** Every message is answered. *)
Lemma processMessage_fx dl o w : dated (w_db w) →
  ∃ v, (processMessage dl o w).1 = inr v ∧ fx (reliable o) dl (w_db w) v (w_db (processMessage dl o w).2).
Proof.
  intros Hd. rewrite processMessage_parsed. destruct (parse_message dl) as [p|] eqn:Hp.
  2:{ exists (NNack false). split; [done|]. apply fx_reject. unfold wants. by rewrite Hp. }
  unfold settle, mbind, M_bind, try. destruct (handle p o w) as [r w'] eqn:Hrun.
  exists (match r with inl e => NNack (negb (isPermanentError e)) | inr _ => NAck end). split; [by destruct r|].
  assert (fx (reliable o) dl (w_db w) (match r with inl e => NNack (negb (isPermanentError e)) | inr _ => NAck end) (w_db w')); [|by destruct r].
  destruct p; [by eapply placed_fx|by eapply cancelled_fx|by eapply waste_fx].
Qed.
End message.
