(* ===== verification/AnaClaims.v ===== *)
(** Analytics service: what the daily documents show, over any run of
    deliveries with repetitions, failures and crashes, and what a run without
    failures shows exactly; the summary and who gets it. *)

From Stdlib Require Import SpecFloat.
From S2P Require Import Prelude Effects GoStd FulHandler AnaModel AnaService AnaRun.
#[local] Open Scope string_scope.
#[local] Open Scope list_scope.
#[local] Open Scope Z_scope.

(** ** The system

    The broker delivers messages in any order and as often as it likes; a
    handler runs to its end, or its process dies on the way, which leaves what
    the same run with failing calls would leave.  MongoDB drops markers of
    processed events.  The log lists the attempts, newest first, [None] for one
    that was cut off. *)

Record NSys := MkNSys { ns_db : NDB; ns_log : list (NDelivery * option NVerdict) }.
Definition nsys_start : NSys := MkNSys empty_ndb [].

(** The integers of decoded events fit their Go types. *)
Definition json_ints (j : ItemJson) : Prop := in64 (ij_portions j) ∧ in64 (ij_subtotalMinor j) ∧ in64 (ij_subtotal_minor j).
Class AnaJsonLaws (json : AnaJson) := {
  ajl_placed : ∀ body e, decode_placed body = Some e → Forall json_ints (pj_items (en_Data e));
  ajl_cancelled : ∀ body e, decode_cancelled body = Some e → Forall json_ints (cj_items (en_Data e));
  ajl_waste : ∀ body e, decode_waste body = Some e →
    in64 (wj_portions (en_Data e)) ∧ in64 (wj_costLostMinor (en_Data e)) ∧ in64 (wj_cost_lost_minor (en_Data e))
}.

Lemma if_positive_in64 x y : in64 x → in64 y → in64 (if_positive x y).
Proof. unfold if_positive. by destruct (0 <? x). Qed.
Lemma item_ints_decoded j : json_ints j → item_ints (item_UnmarshalJSON j).
Proof.
  intros (H1 & H2 & H3). unfold item_UnmarshalJSON. destruct (amounts (ij_unitPrice j) _ _). unfold amounts. cbn [f_is_zero].
  pose proof (if_positive_in64 _ _ H3 H2). repeat case_match; simplify_eq; split; try done; apply int64_of_in64.
Qed.
Lemma items_decoded l : Forall json_ints l → Forall item_ints (item_UnmarshalJSON <$> l).
Proof. intros H. apply Forall_fmap. eapply Forall_impl; [exact H|]. apply item_ints_decoded. Qed.
Lemma wants_ints {json : AnaJson} {laws : AnaJsonLaws json} dl e : wants dl = Some e → entry_ints e.
Proof.
  unfold wants, parse_message. repeat case_bool_decide; try done.
  - destruct (decode_placed _) as [p|] eqn:Hp; [|done]. cbn. unfold on_date. destruct (extractDate _); [done|]. intros [= <-].
    unfold placed_UnmarshalJSON. cbn. destruct (amounts _ _ _). cbn. eapply items_decoded, ajl_placed, Hp.
  - destruct (decode_cancelled _) as [p|] eqn:Hp; [|done]. cbn. destruct (_ || _); [done|]. unfold on_date. destruct (extractDate _); [done|].
    intros [= <-]. cbn. eapply items_decoded, ajl_cancelled, Hp.
  - destruct (decode_waste _) as [p|] eqn:Hp; [|done]. cbn. unfold on_date. destruct (extractDate _); [done|]. intros [= <-].
    apply ajl_waste in Hp as (I1 & I2 & I3). split; [done|]. by apply if_positive_in64.
Qed.

Section system.
Context {json : AnaJson}.

Inductive nstep (s : NSys) : NSys → Prop :=
  | N_deliver dl o n v w' : processMessage dl o (World (ns_db s) n false []) = (inr v, w') →
      nstep s (MkNSys (w_db w') ((dl, Some v) :: ns_log s))
  | N_crash dl o n : nstep s (MkNSys (w_db (processMessage dl o (World (ns_db s) n false [])).2) ((dl, None) :: ns_log s))
  | N_expire id : nstep s (MkNSys (set_events (delete id) (ns_db s)) (ns_log s)).

(** Deliveries to a service whose database answers: none is cut off by a crash and
    no marker expires (they are kept for seven days). *)
Inductive nstep_ok (s : NSys) : NSys → Prop :=
  | NO_deliver dl o n v w' : reliable o → processMessage dl o (World (ns_db s) n false []) = (inr v, w') →
      nstep_ok s (MkNSys (w_db w') ((dl, Some v) :: ns_log s)).

(** An event id names one event. *)
Definition honest (log : list (NDelivery * option NVerdict)) : Prop :=
  ∀ x y, x ∈ log → y ∈ log → event_id x.1 ≠ "" → event_id x.1 = event_id y.1 → wants x.1 = wants y.1.

(** An entry is in the ledger; for a refund: one of the same order on that day. *)
Definition counted (e : Entry) (ledger : list Entry) : Prop :=
  match e with
  | ERefund date c => ∃ c', ERefund date c' ∈ ledger ∧ cd_OrderID c' = cd_OrderID c
  | _ => e ∈ ledger
  end.
(** The order and day of a refund. *)
Definition refund_key (e : Entry) : option (string * string) := match e with ERefund date c => Some (date, cd_OrderID c) | _ => None end.

Lemma counted_in e ledger : e ∈ ledger → counted e ledger.
Proof. destruct e; cbn; eauto. Qed.
Lemma counted_mono e l l' : (∀ x, x ∈ l → x ∈ l') → counted e l → counted e l'.
Proof. intros H. destruct e; cbn; [auto| |auto]. intros (c & ? & ?). eauto. Qed.

Record booked (s : NSys) (ledger : list Entry) : Prop := {
  bk_days : ∀ date, n_days (ns_db s) !! date = day_of date ledger;
  bk_from : ledger ⊆+ omap (λ x, wants x.1) (ns_log s);
  bk_acked : ∀ dl e, (dl, Some NAck) ∈ ns_log s → wants dl = Some e → counted e ledger;
  bk_marked : ∀ id, is_Some (n_events (ns_db s) !! id) → id ≠ "" ∧ ∃ x, x ∈ ns_log s ∧ event_id x.1 = id ∧
    ∀ e, wants x.1 = Some e → counted e ledger;
  bk_once : NoDup (omap refund_key ledger);
  bk_dead : ∀ dl, (dl, Some (NNack false)) ∈ ns_log s → wants dl = None
}.

Lemma booked_dated s ledger : booked s ledger → dated (ns_db s).
Proof. intros Hb date r. rewrite (bk_days _ _ Hb). apply day_of_date. Qed.
Lemma booked_day_in s ledger date : booked s ledger → day_in date (ns_db s) = default (new_day date) (day_of date ledger).
Proof. intros Hb. unfold day_in. by rewrite (bk_days _ _ Hb). Qed.

(** Which refunds the documents know. *)
Lemma elem_of_refunds date (ledger : list Entry) id : id ∈ omap (refund_of date) ledger ↔ ∃ c, ERefund date c ∈ ledger ∧ cd_OrderID c = id.
Proof.
  rewrite list_elem_of_omap. split.
  - intros (e & He & Hr). destruct e as [|date' c|]; cbn in Hr; try done. case_bool_decide; [|done]. subst. injection Hr as <-. eauto.
  - intros (c & Hc & <-). exists (ERefund date c). split; [done|]. cbn. by rewrite bool_decide_eq_true_2.
Qed.
Lemma booked_reversed s ledger e : booked s ledger → reversed_in e (ns_db s) ↔ is_Some (refund_key e) ∧ counted e ledger.
Proof.
  intros Hb. destruct e as [|date c|]; cbn; try (split; [done|by intros [[? ?] _]]).
  rewrite (booked_day_in _ _ _ Hb), <-elem_of_refunds. destruct (day_of date ledger) as [r|] eqn:E; cbn.
  - rewrite (day_of_reversed _ _ _ E). split; [eauto|tauto].
  - apply day_of_None in E. split; [by intros ?%not_elem_of_nil|]. intros [_ (c' & Hc & _)%elem_of_refunds].
    assert (ERefund date c' ∈ entries date ledger) as Hin by by apply list_elem_of_filter. rewrite E in Hin. by apply not_elem_of_nil in Hin.
Qed.

(** One message and its ledger. *)
Lemma booked_deliver R s ledger dl v d' out :
  booked s ledger → (event_id dl ≠ "" → ∀ x, x ∈ ns_log s → event_id x.1 = event_id dl → wants x.1 = wants dl) →
  fx R dl (ns_db s) v d' → (out = Some v ∨ out = None) →
  ∃ ledger', booked (MkNSys d' ((dl, out) :: ns_log s)) ledger' ∧
    ((ledger' = ledger ∧ (¬ R ∨ is_Some (n_events (ns_db s) !! event_id dl) ∨ ∀ e, wants dl = Some e → reversed_in e (ns_db s))) ∨
     ∃ e, wants dl = Some e ∧ ledger' = ledger ++ [e] ∧ unseen dl (ns_db s)).
Proof.
  intros Hb Hhon Hfx Hout. pose proof Hb as [B1 B2 B3 B4 B5 B6].
  assert (Hgrow : ledger ⊆+ omap (λ x, wants x.1) ((dl, out) :: ns_log s)).
  { cbn. destruct (wants dl); [by apply submseteq_cons|done]. }
  (* the ledger stays: enough that an acknowledged message is counted and a dead one wants nothing *)
  assert (Hstay : ∀ m, (v = NAck → ∀ e, wants dl = Some e → counted e ledger) → (v = NNack false → wants dl = None) →
    (is_Some m → event_id dl ≠ "" ∧ ∀ e, wants dl = Some e → counted e ledger) →
    booked (MkNSys (mark (event_id dl) m (ns_db s)) ((dl, out) :: ns_log s)) ledger).
  { intros m Hack Hdead Hm. split; cbn [ns_db ns_log]; try done.
    - intros date. rewrite <-B1. by destruct m.
    - intros dl' e [[= -> Ho]|Hin]%elem_of_cons; [|eauto]. intros He. destruct Hout; simplify_eq. eauto.
    - intros id Hid. assert (is_Some m ∧ id = event_id dl ∨ is_Some (n_events (ns_db s) !! id)) as [[Hsm ->]|Hold].
      { destruct m as [x|]; [|by right]. cbn in Hid. rewrite lookup_insert_is_Some' in Hid. destruct Hid as [->|]; [left; eauto|by right]. }
      + destruct (Hm Hsm) as [H1 H2]. split; [done|]. exists (dl, out). split; [by left|]. done.
      + destruct (B4 id Hold) as (H1 & x & H2 & H3). split; [done|]. exists x. split; [by right|done].
    - intros dl' [[= -> Ho]|Hin]%elem_of_cons; [|eauto]. destruct Hout; simplify_eq. eauto. }
  destruct Hfx as [Hne [x Hx]|Hnone|Hr|v m Hrev Hun (Hv & Hm & _)|e v m He Hrev Hun (Hv & Hm & _)].
  - exists ledger. split; [|left; split; [done|right; left; eauto]]. apply (Hstay None); [|done|by intros [? ?]]. intros _ e He.
    destruct (B4 (event_id dl) ltac:(eauto)) as (_ & y & Hy & Hid & Hc). apply Hc. by rewrite (Hhon Hne y Hy Hid).
  - exists ledger. split; [|left; split; [done|right; right; by rewrite Hnone]]. apply (Hstay None); [done|done|by intros [? ?]].
  - exists ledger. split; [|left; split; [done|by left]]. apply (Hstay None); [done|done|by intros [? ?]].
  - exists ledger. split; [|left; split; [done|by right; right]]. assert (∀ e, wants dl = Some e → counted e ledger) as Hc.
    { intros e He. by apply (booked_reversed s ledger e Hb), Hrev. }
    apply Hstay; [done|done|]. intros [x ->]. split; [|done]. intros H0. by specialize (Hm H0).
  - exists (ledger ++ [e]). split; [|right; eauto].
    assert (Hmono : ∀ x, x ∈ ledger → x ∈ ledger ++ [e]) by (intros; apply elem_of_app; by left).
    assert (Hcount : ∀ e', wants dl = Some e' → counted e' (ledger ++ [e])).
    { intros e' ?. simplify_eq. apply counted_in, elem_of_app. right. by left. }
    split; cbn [ns_db ns_log].
    + intros date. transitivity (n_days (put e (ns_db s)) !! date); [by destruct m|]. cbn. rewrite day_of_snoc.
      destruct (decide (entry_date e = date)) as [<-|Hd]; [|by rewrite lookup_insert_ne, B1].
      by rewrite lookup_insert_eq, (booked_day_in _ _ _ Hb).
    + cbn. rewrite He, Permutation_app_comm. by apply submseteq_skip.
    + intros dl' e' [[= -> Ho]|Hin]%elem_of_cons; [auto|]. intros He'. eapply counted_mono; [exact Hmono|]. eauto.
    + intros id Hid. assert (is_Some m ∧ id = event_id dl ∨ is_Some (n_events (ns_db s) !! id)) as [[[x ->] ->]|Hold].
      { destruct m as [x|]; [|by right]. cbn in Hid. rewrite lookup_insert_is_Some' in Hid. destruct Hid as [->|]; [left; eauto|by right]. }
      * split; [intros H0; by specialize (Hm H0)|]. exists (dl, out). split; [by left|]. done.
      * destruct (B4 id Hold) as (H1 & x & H2 & H3 & H4). split; [done|]. exists x. split; [by right|]. split; [done|].
        intros e' He'. eapply counted_mono; [exact Hmono|]. eauto.
    + rewrite omap_app. apply NoDup_app. split; [done|]. split.
      * intros k Hk Hk'. destruct e as [|date c|]; cbn in Hk'; try by apply not_elem_of_nil in Hk'. apply list_elem_of_singleton in Hk' as ->.
        apply Hrev, (booked_reversed s ledger _ Hb). split; [cbn; eauto|]. apply list_elem_of_omap in Hk as (e' & He' & Hk).
        destruct e' as [|date' c'|]; cbn in Hk; simplify_eq. cbn. eauto.
      * destruct e; cbn; [constructor|apply NoDup_singleton|constructor].
    + intros dl' [[= -> Ho]|Hin]%elem_of_cons; [|eauto]. destruct Hout; simplify_eq.
Qed.

Lemma honest_tail x log : honest (x :: log) → honest log.
Proof. intros H y z Hy Hz. apply H; by right. Qed.
Lemma honest_head x log : honest (x :: log) → event_id x.1 ≠ "" → ∀ y, y ∈ log → event_id y.1 = event_id x.1 → wants y.1 = wants x.1.
Proof. intros H Hne y Hy Hid. symmetry. apply H; [by left|by right|done|done]. Qed.

Lemma booked_start : booked nsys_start [].
Proof.
  split; cbn.
  - intros date. by rewrite lookup_empty.
  - done.
  - by intros dl e ?%not_elem_of_nil.
  - intros id. rewrite lookup_empty. by intros [? ?].
  - constructor.
  - by intros dl ?%not_elem_of_nil.
Qed.
Lemma booked_reachable s : rtc nstep nsys_start s → honest (ns_log s) → ∃ ledger, booked s ledger.
Proof.
  revert s. apply (rtc_ind_r (λ s, honest (ns_log s) → ∃ ledger, booked s ledger)); [intros _; exists []; apply booked_start|].
  intros s s' _ Hstep IH Hh. destruct Hstep as [dl o n v w' Hrun|dl o n|id]; cbn [ns_log] in Hh.
  - destruct (IH (honest_tail _ _ Hh)) as [ledger Hb]. destruct (processMessage_fx dl o (World (ns_db s) n false []) (booked_dated _ _ Hb)) as (v' & E & Hfx).
    rewrite Hrun in E, Hfx. injection E as ->. destruct (booked_deliver _ _ _ _ _ _ _ Hb (honest_head _ _ Hh) Hfx (or_introl eq_refl)) as (l & Hl & _). eauto.
  - destruct (IH (honest_tail _ _ Hh)) as [ledger Hb]. destruct (processMessage_fx dl o (World (ns_db s) n false []) (booked_dated _ _ Hb)) as (v' & E & Hfx).
    destruct (booked_deliver _ _ _ _ _ _ _ Hb (honest_head _ _ Hh) Hfx (or_intror eq_refl)) as (l & Hl & _). eauto.
  - destruct (IH Hh) as [ledger [B1 B2 B3 B4 B5 B6]]. exists ledger. split; try done. intros id'. cbn. rewrite lookup_delete_is_Some. intros [_ H]. auto.
Qed.

Lemma booked_ints {laws : AnaJsonLaws json} s ledger : booked s ledger → Forall entry_ints ledger.
Proof.
  intros Hb. apply Forall_forall. intros e He.
  pose proof (elem_of_submseteq _ _ _ He (bk_from _ _ Hb)) as (x & _ & Hx)%list_elem_of_omap.
  by eapply wants_ints.
Qed.

(** C38.  Nothing is lost, whatever fails.  Over any run - messages repeated and
    out of order, calls that fail with or without effect, crashes in between,
    markers that expire - there is a ledger of sales, refunds and wastes such
    that every daily document is the fold of its entries: every meter (gross
    sales, orders, scoops, waste and its cost, in total and per flavor and
    reason) shows the sum of what they are worth, modulo 2^64, the averages and
    the rates are those of the totals, and no flavor has two rows.  Each entry
    stems from a delivery of its own; every acknowledged event is in the ledger;
    no order is refunded twice on a day; and a message is dropped only if there
    was nothing to count. *)
Theorem analytics_ledger {laws : AnaJsonLaws json} s : rtc nstep nsys_start s → honest (ns_log s) →
  ∃ ledger,
    (∀ date, n_days (ns_db s) !! date = day_of date ledger) ∧
    (∀ date r, n_days (ns_db s) !! date = Some r → day_fields r ∧ ∀ m, reading m r = wrap64 (sum_by (worth m) (entries date ledger))) ∧
    ledger ⊆+ omap (λ x, wants x.1) (ns_log s) ∧
    (∀ dl e, (dl, Some NAck) ∈ ns_log s → wants dl = Some e → counted e ledger) ∧
    NoDup (omap refund_key ledger) ∧
    (∀ dl, (dl, Some (NNack false)) ∈ ns_log s → wants dl = None).
Proof.
  intros Hs Hh. destruct (booked_reachable s Hs Hh) as [ledger Hb]. exists ledger. pose proof Hb as [B1 B2 B3 B4 B5 B6]. split_and!; try done.
  intros date r Hr. rewrite B1 in Hr. split; [by eapply day_of_fields|]. intros m.
  pose proof (day_reading ledger date m (booked_ints _ _ Hb)) as H. by rewrite Hr in H.
Qed.

(** ** Runs without failures *)

(** One delivery of each event. *)
Fixpoint distinct (l : list NDelivery) : list NDelivery :=
  match l with [] => [] | x :: l => x :: filter (λ y, event_id y ≠ event_id x) (distinct l) end.

Lemma distinct_sub l x : x ∈ distinct l → x ∈ l.
Proof.
  revert x. induction l as [|y l IH]; intros x; cbn; [done|]. rewrite !elem_of_cons. intros [->|[_ H]%list_elem_of_filter]; auto.
Qed.
Lemma distinct_all l x : x ∈ l → ∃ y, y ∈ distinct l ∧ event_id y = event_id x.
Proof.
  induction l as [|z l IH]; cbn; [by intros ?%not_elem_of_nil|]. intros [->|Hx]%elem_of_cons; [exists z; by split; [left|]|].
  destruct (IH Hx) as (y & Hy & E). destruct (decide (event_id y = event_id z)) as [Hz|Hz].
  - exists z. split; [by left|congruence].
  - exists y. split; [|done]. right. by apply list_elem_of_filter.
Qed.
Lemma distinct_ids l : NoDup (event_id <$> distinct l).
Proof.
  induction l as [|x l IH]; cbn; [constructor|]. constructor; [|by apply NoDup_fmap_filter].
  intros (y & Hy & [Hne _]%list_elem_of_filter)%list_elem_of_fmap. done.
Qed.
Lemma filter_all {A} (P : A → Prop) `{!∀ x, Decision (P x)} (l : list A) : (∀ x, x ∈ l → P x) → filter P l = l.
Proof.
  induction l as [|x l IH]; intros Hall; [done|]. rewrite filter_cons, decide_True by (apply Hall; by left).
  f_equal. apply IH. intros y Hy. apply Hall. by right.
Qed.
Lemma filter_key_perm {A} (key : A → string) (l : list A) z : NoDup (key <$> l) → z ∈ l → l ≡ₚ z :: filter (λ y, key y ≠ key z) l.
Proof.
  induction l as [|x l IH]; [by intros _ ?%not_elem_of_nil|]. intros Hl. rewrite fmap_cons in Hl. apply NoDup_cons in Hl as [Hx Hl].
  rewrite filter_cons. intros [->|Hz]%elem_of_cons.
  - rewrite decide_False by tauto. f_equiv. symmetry. rewrite filter_all; [done|]. intros y Hy E. apply Hx. rewrite <-E. by apply list_elem_of_fmap_2.
  - rewrite decide_True by (intros E; apply Hx; rewrite E; by apply list_elem_of_fmap_2). rewrite Permutation_swap. f_equiv. by apply IH.
Qed.

(** A repeated delivery adds nothing. *)
Lemma distinct_known x l y : y ∈ l → event_id y = event_id x → (∀ z, z ∈ l → event_id z = event_id x → wants z = wants x) →
  omap wants (distinct (x :: l)) ≡ₚ omap wants (distinct l).
Proof.
  intros Hy Hid Hw. destruct (distinct_all _ _ Hy) as (z & Hz & Ez). assert (event_id z = event_id x) as E by congruence.
  rewrite (filter_key_perm event_id (distinct l) z (distinct_ids l) Hz) at 1. cbn [distinct]. cbn. rewrite E.
  by rewrite (Hw z (distinct_sub _ _ Hz) E).
Qed.
Lemma distinct_new x l : (∀ y, y ∈ l → event_id y ≠ event_id x) →
  omap wants (distinct (x :: l)) ≡ₚ option_list (wants x) ++ omap wants (distinct l).
Proof.
  intros H. cbn [distinct]. rewrite filter_all by (intros y Hy; by apply H, distinct_sub). cbn. by destruct (wants x).
Qed.

(** An order is cancelled by one event. *)
Definition cancelled_once (log : list (NDelivery * option NVerdict)) : Prop :=
  ∀ x y e e', x ∈ log → y ∈ log → wants x.1 = Some e → wants y.1 = Some e' → is_Some (refund_key e) → refund_key e = refund_key e' →
    event_id x.1 = event_id y.1.
Definition all_named (log : list (NDelivery * option NVerdict)) : Prop := ∀ x, x ∈ log → is_Some (wants x.1) → event_id x.1 ≠ "".

(** The ledger of a run without failures: the distinct events, all marked. *)
Record exact (s : NSys) (ledger : list Entry) : Prop := {
  ex_booked : booked s ledger;
  ex_perm : ledger ≡ₚ omap wants (distinct (ns_log s).*1);
  ex_marked : ∀ x, x ∈ ns_log s → is_Some (wants x.1) → is_Some (n_events (ns_db s) !! event_id x.1)
}.

Lemma exact_deliver s ledger dl v d' : exact s ledger → let log := (dl, Some v) :: ns_log s in
  honest log → cancelled_once log → all_named log → fx True dl (ns_db s) v d' → ∃ ledger', exact (MkNSys d' log) ledger'.
Proof.
  intros [Hb Hperm Hmarked] log Hh Hc Hn Hfx.
  destruct (booked_deliver True s ledger dl v d' (Some v) Hb (honest_head _ _ Hh) Hfx (or_introl eq_refl)) as (ledger' & Hb' & Hl). exists ledger'.
  assert (Hkeep : ∀ id, is_Some (n_events (ns_db s) !! id) → is_Some (n_events d' !! id)).
  { assert (∀ m d id, is_Some (n_events d !! id) → is_Some (n_events (mark (event_id dl) m d) !! id)) as Hm.
    { intros [x|] d id H; [|done]. cbn. apply lookup_insert_is_Some'. by right. }
    intros id H. destruct Hfx; try done; by apply Hm. }
  assert (Hself : is_Some (wants dl) → is_Some (n_events d' !! event_id dl)).
  { intros Hw. assert (event_id dl ≠ "") as Hne by (apply (Hn (dl, Some v)); [by left|done]).
    destruct Hfx as [?|?|Hr|v m ?? (_ & _ & He)|e v m ??? (_ & _ & He)]; [done|by rewrite H in Hw; destruct Hw|done|..];
      destruct (He I) as [_ [x ->]]; try done; cbn; rewrite lookup_insert_eq; eauto. }
  assert (Hmarked' : ∀ x, x ∈ log → is_Some (wants x.1) → is_Some (n_events d' !! event_id x.1)).
  { intros x [->|Hx]%elem_of_cons; [done|]. intros Hw. auto. }
  split; [done| |done]. cbn [ns_log]. unfold log. cbn [fmap list_fmap fst].
  destruct (decide (Exists (λ y, event_id y.1 = event_id dl) (ns_log s))) as [(y & Hy & Hid)%Exists_exists|Hnew].
  - assert (is_Some (wants dl) → is_Some (n_events (ns_db s) !! event_id dl)) as Hseen.
    { intros Hw. rewrite <-Hid. apply Hmarked; [done|]. rewrite (honest_head _ _ Hh) with (y := y); [done| |done|done].
      apply (Hn (dl, Some v)); [by left|done]. }
    destruct Hl as [[-> _]|(e & He & _ & Hun)].
    2:{ exfalso. destruct (Hseen (mk_is_Some _ _ He)) as [z Hz]. destruct Hun as [H0|H0]; [|by rewrite H0 in Hz].
        apply (Hn (dl, Some v)); [by left|by exists e|done]. }
    rewrite Hperm. symmetry. apply (distinct_known dl _ y.1); [by apply list_elem_of_fmap_2|done|].
    intros z (x & -> & Hx)%list_elem_of_fmap Ez. destruct (decide (event_id dl = "")) as [H0|H0]; [|by apply (honest_head _ _ Hh)].
    assert (∀ x, x ∈ log → event_id x.1 = "" → wants x.1 = None) as Hnone.
    { intros x' Hx' H1. apply eq_None_not_Some. intros Hs. by apply (Hn x' Hx' Hs). }
    rewrite (Hnone x) by (first [by right|congruence]). symmetry. apply (Hnone (dl, Some v)); [by left|done].
  - assert (∀ y, y ∈ ns_log s → event_id y.1 ≠ event_id dl) as Hne by (intros y Hy E; apply Hnew, Exists_exists; eauto).
    rewrite distinct_new by (intros z (x & -> & Hx)%list_elem_of_fmap; by apply Hne). rewrite <-Hperm.
    destruct Hl as [[-> Hwhy]|(e & He & -> & _)]; [|by rewrite He, Permutation_app_comm].
    destruct (wants dl) as [e|] eqn:He; [|done]. exfalso. destruct Hwhy as [?|[Hs|Hrev]]; [done| |].
    + destruct (bk_marked _ _ Hb _ Hs) as (_ & x & Hx & Hid & _). by apply (Hne x Hx).
    + apply (booked_reversed s ledger e Hb) in Hrev as [Hk Hcount]; [|done]. destruct e as [|date c|]; try by destruct Hk.
      destruct Hcount as (c' & Hin & Hid). pose proof (elem_of_submseteq _ _ _ Hin (bk_from _ _ Hb)) as (x & Hx & Hw)%list_elem_of_omap.
      apply (Hne x Hx). eapply (Hc x (dl, Some v)); [by right|by left|exact Hw|exact He|done|]. cbn. by rewrite Hid.
Qed.

Lemma fx_calm (R : Prop) dl d v d' : R → fx R dl d v d' → fx True dl d v d'.
Proof.
  intros HR [? ?|?|?|v' m H1 H2 (H3 & H4 & H5)|e v' m H1 H2 H2' (H3 & H4 & H5)];
    [by apply fx_seen|by apply fx_reject|done|apply fx_done; auto; split_and!; auto|eapply fx_apply; eauto; split_and!; auto].
Qed.
Lemma exact_reachable s : rtc nstep_ok nsys_start s → honest (ns_log s) → cancelled_once (ns_log s) → all_named (ns_log s) → ∃ ledger, exact s ledger.
Proof.
  revert s. apply (rtc_ind_r (λ s, honest (ns_log s) → cancelled_once (ns_log s) → all_named (ns_log s) → ∃ ledger, exact s ledger)).
  { intros _ _ _. exists []. split; [apply booked_start|done|by intros x ?%not_elem_of_nil]. }
  intros s s' _ [dl o n v w' Ho Hrun] IH Hh Hc Hn. cbn [ns_log] in *. destruct IH as [ledger He].
  { by eapply honest_tail. }
  { intros x y e e' Hx Hy. apply Hc; by right. }
  { intros x Hx. apply Hn. by right. }
  destruct (processMessage_fx dl o (World (ns_db s) n false []) (booked_dated _ _ (ex_booked _ _ He))) as (v' & E & Hfx).
  rewrite Hrun in E, Hfx. injection E as ->. apply (exact_deliver s ledger dl v' (w_db w')); try done. by apply (fx_calm (reliable o)).
Qed.

(** A cancellation carries the facts of the sale it takes back. *)
Definition same_facts (p : OrderPlacedData) (c : OrderCancelledData) : Prop :=
  amount_minor p = cd_TotalAmountMinor c ∧ pd_Items p = cd_Items c ∧ Forall (λ i, subtotal_minor i = pi_SubtotalMinor i) (cd_Items c).
Lemma refund_worth date p c m : same_facts p c → worth m (ERefund date c) = - worth m (ESale date p).
Proof.
  intros (H1 & H2 & H3). destruct m; cbn; rewrite ?H1, ?H2; try done. f_equal. apply sum_by_ext. intros i Hi.
  rewrite Forall_forall in H3. by rewrite (H3 i Hi).
Qed.

(** C39.  Each event counts exactly once, in a run in which the database answers,
    the consumer does not crash and no marker of a processed event expires (they
    are kept for seven days); an event id names one event, every event that counts
    has one, and an order is cancelled by one event.  Then, after any deliveries in
    any order and with any repetitions, every meter of every day shows the sum,
    modulo 2^64, of what the distinct events of that day are worth - so neither
    repetition nor order of arrival matters.  And a paid cancellation that carries
    the amounts and items of its sale and falls on the same day takes back exactly
    what the sale added, whichever of the two arrived first. *)
Theorem analytics_exactly_once {laws : AnaJsonLaws json} s : rtc nstep_ok nsys_start s →
  honest (ns_log s) → cancelled_once (ns_log s) → all_named (ns_log s) →
  (∀ date m, reading m (day_in date (ns_db s)) = wrap64 (sum_by (worth m) (entries date (omap wants (distinct (ns_log s).*1))))) ∧
  (∀ date m p c rest, same_facts p c → omap wants (distinct (ns_log s).*1) ≡ₚ ESale date p :: ERefund date c :: rest →
     reading m (day_in date (ns_db s)) = wrap64 (sum_by (worth m) (entries date rest))).
Proof.
  intros Hs Hh Hc Hn. destruct (exact_reachable s Hs Hh Hc Hn) as [ledger [Hb Hperm _]].
  assert (∀ date m, reading m (day_in date (ns_db s)) = wrap64 (sum_by (worth m) (entries date (omap wants (distinct (ns_log s).*1))))) as H.
  { intros date m. rewrite (booked_day_in _ _ _ Hb), (day_reading ledger date m (booked_ints _ _ Hb)). f_equal. apply sum_by_perm.
    unfold entries. by rewrite Hperm. }
  split; [done|]. intros date m p c rest Hpc E. rewrite H. f_equal. unfold entries.
  rewrite (sum_by_perm (worth m) _ (filter (λ e, entry_date e = date) (ESale date p :: ERefund date c :: rest))) by by rewrite E.
  rewrite !filter_cons, !decide_True by done. cbn [sum_by]. rewrite (refund_worth date p c m Hpc). lia.
Qed.
End system.
