(* ===== verification/AnaSummary.v ===== *)
(** Analytics service: the summary adds up the daily documents of its period,
    flavor by flavor, and only managers get it. *)

From Stdlib Require Import SpecFloat.
From S2P Require Import Prelude Effects GoStd FulHandler AnaModel AnaService AnaRun AnaClaims.
#[local] Open Scope string_scope.
#[local] Open Scope list_scope.
#[local] Open Scope Z_scope.

(** ** Sums *)

(** Floating-point sums from the left. *)
Definition f_sum (l : list float64) : float64 := match l with [] => f_zero | x :: l => foldl f_add x l end.
Lemma f_sum_snoc l x : l ≠ [] → f_sum (l ++ [x]) = f_add (f_sum l) x.
Proof. destruct l as [|y l]; [done|]. intros _. cbn. by rewrite foldl_app. Qed.

Lemma totals_sum l : foldl totals_step (MkTotals f_zero 0 0 0) l =
  MkTotals (foldl f_add f_zero (gross_sales <$> l)) (wrap64 (sum_by (λ r, fi_TotalOrders (an_Financials r)) l))
    (wrap64 (sum_by (λ r, op_ScoopsSold (an_Operations r)) l)) (wrap64 (sum_by (λ r, ws_TotalWastePortions (an_WasteStats r)) l)).
Proof.
  induction l as [|r l IH] using rev_ind; [done|]. rewrite foldl_app, IH, !sum_by_app, fmap_app, foldl_app. cbn.
  unfold totals_step. cbn [to_Revenue to_Orders to_Scoops to_Waste]. by rewrite !wrap64_add, !Z.add_0_r.
Qed.

Definition sold_of (f : string) (stats : list FlavorStat) : list FlavorStat := filter (λ fs, sold fs = true ∧ fs_FlavorID fs = f) stats.
Definition wasted_of (f : string) (stats : list FlavorStat) : list FlavorStat := filter (λ fs, 0 < fs_WastePortions fs ∧ fs_FlavorID fs = f) stats.
Definition stat_ints (fs : FlavorStat) : Prop := in64 (fs_ScoopsSold fs) ∧ in64 (fs_WastePortions fs).

Lemma sold_of_snoc f stats fs : sold_of f (stats ++ [fs]) = sold_of f stats ++ (if decide (sold fs = true ∧ fs_FlavorID fs = f) then [fs] else []).
Proof. unfold sold_of. by rewrite filter_app, filter_cons, filter_nil. Qed.
Lemma wasted_of_snoc f stats fs : wasted_of f (stats ++ [fs]) = wasted_of f stats ++ (if decide (0 < fs_WastePortions fs ∧ fs_FlavorID fs = f) then [fs] else []).
Proof. unfold wasted_of. by rewrite filter_app, filter_cons, filter_nil. Qed.

(** The row of a flavor sums up its days. *)
Lemma sales_lookup f stats : Forall stat_ints stats →
  match foldl sales_step ∅ stats !! f with
  | None => sold_of f stats = []
  | Some x => sold_of f stats ≠ [] ∧ sa_FlavorID x = f ∧ sa_Portions x = wrap64 (sum_by fs_ScoopsSold (sold_of f stats)) ∧
      sa_Revenue x = f_sum (flavor_revenue <$> sold_of f stats)
  end.
Proof.
  induction stats as [|fs stats IH] using rev_ind; [cbn [foldl]; by rewrite lookup_empty|]. intros [Hs [Hfs _]%Forall_singleton]%Forall_app.
  specialize (IH Hs). rewrite foldl_app, sold_of_snoc. cbn [foldl]. set (m := foldl sales_step ∅ stats) in *. unfold sales_step.
  destruct (sold fs) eqn:Hsold; [|rewrite decide_False by (by intros [? _]); by rewrite app_nil_r].
  destruct (decide (fs_FlavorID fs = f)) as [Hf|Hf].
  - rewrite decide_True, Hf, lookup_insert_eq by done. destruct (m !! f) as [x|].
    + destruct IH as (H1 & H2 & H3 & H4). cbn [sa_FlavorID sa_Portions sa_Revenue]. split_and!; try done.
      * by destruct (sold_of f stats).
      * rewrite sum_by_app, H3, wrap64_add. cbn. by rewrite Z.add_0_r.
      * rewrite fmap_app, H4. cbn. rewrite f_sum_snoc; [done|]. by destruct (sold_of f stats).
    + rewrite IH. cbn. split_and!; [done|done|by rewrite Z.add_0_r, wrap64_id by apply Hfs|done].
  - rewrite decide_False, lookup_insert_ne, app_nil_r by (done || tauto). done.
Qed.
Lemma waste_lookup f stats : Forall stat_ints stats →
  match foldl waste_step ∅ stats !! f with
  | None => wasted_of f stats = []
  | Some x => wasted_of f stats ≠ [] ∧ fw_FlavorID x = f ∧ fw_Portions x = wrap64 (sum_by fs_WastePortions (wasted_of f stats))
  end.
Proof.
  induction stats as [|fs stats IH] using rev_ind; [cbn [foldl]; by rewrite lookup_empty|]. intros [Hs [_ Hfs]%Forall_singleton]%Forall_app.
  specialize (IH Hs). rewrite foldl_app, wasted_of_snoc. cbn [foldl]. set (m := foldl waste_step ∅ stats) in *. unfold waste_step.
  destruct (Z.ltb_spec 0 (fs_WastePortions fs)) as [Hw|Hw]; [|rewrite decide_False by lia; by rewrite app_nil_r].
  destruct (decide (fs_FlavorID fs = f)) as [Hf|Hf].
  - rewrite decide_True, Hf, lookup_insert_eq by done. destruct (m !! f) as [x|].
    + destruct IH as (H1 & H2 & H3). cbn [fw_FlavorID fw_Portions]. split_and!; try done.
      * by destruct (wasted_of f stats).
      * rewrite sum_by_app, H3, wrap64_add. cbn. by rewrite Z.add_0_r.
    + rewrite IH. cbn. split_and!; [done|done|by rewrite Z.add_0_r, wrap64_id by apply Hfs].
  - rewrite decide_False, lookup_insert_ne, app_nil_r by (done || tauto). done.
Qed.

(** ** The calendar *)

Definition civil_ok (c : Civil) : bool := between 1 12 (cv_Month c) && day_ok c.
Definition days_of (c : Civil) : Z := days_from_civil (cv_Year c) (cv_Month c) (cv_Day c).
(** Later dates have greater keys. *)
Definition date_key (c : Civil) : Z := cv_Year c * 10000 + cv_Month c * 100 + cv_Day c.

(** Years begin in March: day [doy] of year [yoe] of a cycle of 400. *)
Definition year_start (yoe : Z) : Z := 365 * yoe + yoe / 4 - yoe / 100.
Definition in_year (yoe doy : Z) : Prop :=
  0 ≤ yoe < 400 ∧ 0 ≤ doy ≤ 365 ∧ (year_start yoe + doy < year_start (yoe + 1) ∨ (yoe = 399 ∧ year_start yoe + doy < 146097)).
Definition march_date (era yoe doy : Z) : Civil :=
  let mp := (5 * doy + 2) / 153 in
  let m := if mp <? 10 then mp + 3 else mp - 9 in
  MkCivil (if m <=? 2 then yoe + era * 400 + 1 else yoe + era * 400) m (doy - (153 * mp + 2) / 5 + 1).

Ltac name_div x k q := let H := fresh in pose proof (Z.div_mod x k ltac:(done)) as H; let H' := fresh in pose proof (Z.mod_pos_bound x k ltac:(done)) as H';
  set (q := x / k) in *; set (x mod k) in *.

Lemma year_of_day doe : 0 ≤ doe < 146097 → let yoe := (doe - doe / 1460 + doe / 36524 - doe / 146096) / 365 in in_year yoe (doe - year_start yoe).
Proof.
  intros Hd yoe. unfold in_year, year_start. name_div doe 1460 a. name_div doe 36524 b. name_div doe 146096 c.
  name_div (doe - a + b - c) 365 y. subst yoe. name_div y 4 e. name_div y 100 f. name_div (y + 1) 4 e'. name_div (y + 1) 100 f'.
  assert (c = 0 ∨ c = 1) as Hc by lia. assert (b = 0 ∨ b = 1 ∨ b = 2 ∨ b = 3 ∨ b = 4) as Hb by lia.
  assert (f = 0 ∨ f = 1 ∨ f = 2 ∨ f = 3 ∨ f = 4) as Hf by lia.
  destruct Hc as [Hc|Hc], Hb as [Hb|[Hb|[Hb|[Hb|Hb]]]], Hf as [Hf|[Hf|[Hf|[Hf|Hf]]]]; rewrite Hc, Hb, Hf in *; clear Hc Hb Hf; try lia.
Qed.

(** The date of a day. *)
Lemma civil_march z : ∃ era yoe doy, z + 719468 = era * 146097 + year_start yoe + doy ∧ in_year yoe doy ∧ civil_from_days z = march_date era yoe doy.
Proof.
  set (era := (z + 719468) / 146097). set (doe := z + 719468 - era * 146097).
  assert (0 ≤ doe < 146097) as Hd by (pose proof (Z.div_mod (z + 719468) 146097); pose proof (Z.mod_pos_bound (z + 719468) 146097); lia).
  pose proof (year_of_day doe Hd) as H. cbv zeta in H. set (yoe := (doe - doe / 1460 + doe / 36524 - doe / 146096) / 365) in H.
  exists era, yoe, (doe - year_start yoe). split; [lia|]. split; [done|]. done.
Qed.
Lemma year_start_mono a b : a ≤ b → year_start a ≤ year_start b.
Proof. intros H. unfold year_start. name_div a 4 p. name_div a 100 q. name_div b 4 p'. name_div b 100 q'. lia. Qed.
Lemma march_later era yoe doy era' yoe' doy' : in_year yoe doy → in_year yoe' doy' → yoe + 400 * era < yoe' + 400 * era' →
  era * 146097 + year_start yoe + doy < era' * 146097 + year_start yoe' + doy'.
Proof.
  intros (Hy & Hd & Hb) (Hy' & Hd' & Hb') Hlt. assert (0 ≤ year_start yoe' ∧ year_start 0 = 0) as [H0 H1].
  { split; [|done]. change 0 with (year_start 0). apply year_start_mono. lia. }
  assert (year_start (yoe + 1) ≤ 146096) as Hmax by (change 146096 with (year_start 400); apply year_start_mono; lia).
  destruct (decide (era = era')) as [->|]; [|lia]. pose proof (year_start_mono (yoe + 1) yoe'). lia.
Qed.

(** Month and day, and their order. *)
Lemma march_parts era yoe doy : in_year yoe doy → let c := march_date era yoe doy in let mp := (5 * doy + 2) / 153 in
  0 ≤ mp ≤ 11 ∧ 12 * cv_Year c + cv_Month c = 12 * (yoe + 400 * era) + mp + 3 ∧ 1 ≤ cv_Month c ≤ 12 ∧ 1 ≤ cv_Day c ≤ 31.
Proof.
  intros (Hy & Hd & _). unfold march_date. cbv zeta. name_div (5 * doy + 2) 153 mp. name_div (153 * mp + 2) 5 k. cbn [cv_Year cv_Month cv_Day].
  assert (0 ≤ mp ≤ 11) by lia. split; [done|]. destruct (Z.ltb_spec mp 10).
  - rewrite (proj2 (Z.leb_gt _ _)) by lia. lia.
  - rewrite (proj2 (Z.leb_le _ _)) by lia. lia.
Qed.
Lemma civil_lt z z' : z < z' → date_key (civil_from_days z) < date_key (civil_from_days z').
Proof.
  intros Hlt. destruct (civil_march z) as (era & yoe & doy & E & Hin & ->). destruct (civil_march z') as (era' & yoe' & doy' & E' & Hin' & ->).
  pose proof (march_parts era yoe doy Hin) as H. pose proof (march_parts era' yoe' doy' Hin') as H'. cbv zeta in H, H'.
  destruct (Z.lt_trichotomy (yoe + 400 * era) (yoe' + 400 * era')) as [Hy|[Hy|Hy]].
  - unfold date_key. lia.
  - assert (era = era' ∧ yoe = yoe') as [-> ->] by (destruct Hin, Hin'; lia). assert (doy < doy') as Hd by lia.
    pose proof (Z.div_le_mono (5 * doy + 2) (5 * doy' + 2) 153 ltac:(lia) ltac:(lia)) as Hm.
    destruct (decide ((5 * doy + 2) / 153 = (5 * doy' + 2) / 153)) as [Em|]; [|unfold date_key; lia].
    unfold march_date in *. cbv zeta in *. rewrite <-Em in *. cbn [cv_Year cv_Month cv_Day] in *. unfold date_key. cbn [cv_Year cv_Month cv_Day]. lia.
  - pose proof (march_later era' yoe' doy' era yoe doy Hin' Hin Hy). lia.
Qed.
Lemma civil_le z z' : z ≤ z' ↔ date_key (civil_from_days z) ≤ date_key (civil_from_days z').
Proof.
  split; intros H; destruct (Z.lt_trichotomy z z') as [Hz|[->|Hz]]; try lia; apply civil_lt in Hz; lia.
Qed.
Lemma civil_range z : 1 ≤ cv_Month (civil_from_days z) ≤ 12 ∧ 1 ≤ cv_Day (civil_from_days z) ≤ 31.
Proof. destruct (civil_march z) as (era & yoe & doy & _ & Hin & ->). apply (march_parts era yoe doy Hin). Qed.

(** The day of a date, and back. *)
Lemma days_march era yoe doy : in_year yoe doy → days_of (march_date era yoe doy) = era * 146097 + year_start yoe + doy - 719468.
Proof.
  intros Hin. pose proof (march_parts era yoe doy Hin) as (Hmp & _ & _). destruct Hin as (Hy & Hd & _). unfold march_date in *. cbv zeta in *.
  set (mp := (5 * doy + 2) / 153) in *. unfold days_of, days_from_civil. cbn [cv_Year cv_Month cv_Day]. cbv zeta.
  assert (∀ y m, y = yoe + era * 400 → (m + 9) mod 12 = mp → y / 400 * 146097 +
    ((y - y / 400 * 400) * 365 + (y - y / 400 * 400) / 4 - (y - y / 400 * 400) / 100 + ((153 * ((m + 9) mod 12) + 2) / 5 + (doy - (153 * mp + 2) / 5 + 1) - 1)) -
    719468 = era * 146097 + year_start yoe + doy - 719468) as H.
  { intros y m -> ->. rewrite Z.div_add, (Z.div_small yoe), Z.add_0_l by lia. replace (yoe + era * 400 - era * 400) with yoe by lia. unfold year_start. lia. }
  destruct (Z.ltb_spec mp 10).
  - rewrite (proj2 (Z.leb_gt (mp + 3) 2)) by lia. apply H; [done|]. replace (mp + 3 + 9) with (mp + 1 * 12) by lia. rewrite Z.mod_add by done. apply Z.mod_small. lia.
  - rewrite (proj2 (Z.leb_le (mp - 9) 2)) by lia. apply H; [lia|]. replace (mp - 9 + 9) with mp by lia. apply Z.mod_small. lia.
Qed.
Lemma days_of_civil z : days_of (civil_from_days z) = z.
Proof. destruct (civil_march z) as (era & yoe & doy & E & Hin & ->). rewrite days_march by done. lia. Qed.

Lemma civil_ok_range c : civil_ok c = true → 1 ≤ cv_Month c ≤ 12 ∧ 1 ≤ cv_Day c ≤ days_in (cv_Month c) (cv_Year c) ∧ cv_Day c ≤ 31.
Proof.
  unfold civil_ok, day_ok, between. rewrite !andb_true_iff, !Z.leb_le. intros [[? ?] [? Hd]]. split_and!; try done. unfold days_in in Hd. repeat case_match; lia.
Qed.
(** A date of the calendar is some day of its March year. *)
Lemma march_month mp d era yoe : 0 ≤ mp ≤ 11 → 1 ≤ d → (153 * mp + 2) / 5 + d ≤ (153 * (mp + 1) + 2) / 5 →
  march_date era yoe ((153 * mp + 2) / 5 + d - 1) =
    MkCivil (if 10 <=? mp then yoe + era * 400 + 1 else yoe + era * 400) (if 10 <=? mp then mp - 9 else mp + 3) d.
Proof.
  intros Hmp Hd Hu. unfold march_date. cbv zeta. assert ((5 * ((153 * mp + 2) / 5 + d - 1) + 2) / 153 = mp) as ->.
  { name_div (153 * mp + 2) 5 k. name_div (153 * (mp + 1) + 2) 5 k'. symmetry. apply (Z.div_unique _ _ _ (5 * (k + d - 1) + 2 - 153 * mp)); lia. }
  destruct (Z.ltb_spec mp 10), (Z.leb_spec 10 mp); try lia.
  - rewrite (proj2 (Z.leb_gt (mp + 3) 2)) by lia. f_equal. lia.
  - rewrite (proj2 (Z.leb_le (mp - 9) 2)) by lia. f_equal. lia.
Qed.
Lemma leap_start yoe : 0 ≤ yoe < 400 → year_start yoe + 365 ≤ year_start (yoe + 1) ∧
  ((yoe + 1) mod 4 = 0 → (yoe + 1) mod 100 ≠ 0 → year_start yoe + 366 ≤ year_start (yoe + 1)).
Proof. intros H. unfold year_start. name_div yoe 4 a. name_div yoe 100 b. name_div (yoe + 1) 4 a'. name_div (yoe + 1) 100 b'. lia. Qed.
Lemma leap_cycle y : leap y = true → let yoe := (y - 1) mod 400 in yoe = 399 ∨ ((yoe + 1) mod 4 = 0 ∧ (yoe + 1) mod 100 ≠ 0).
Proof.
  unfold leap. rewrite andb_true_iff, orb_true_iff, negb_true_iff, Z.eqb_eq, Z.eqb_neq, Z.eqb_eq. cbv zeta.
  pose proof (Z.div_mod (y - 1) 400 ltac:(done)). pose proof (Z.mod_pos_bound (y - 1) 400 ltac:(done)).
  set (q := (y - 1) / 400) in *. set (yoe := (y - 1) mod 400) in *.
  name_div y 4 a. name_div y 100 b. name_div y 400 c. name_div (yoe + 1) 4 a'. name_div (yoe + 1) 100 b'. lia.
Qed.
Lemma march_of c : civil_ok c = true → ∃ era yoe doy, in_year yoe doy ∧ march_date era yoe doy = c.
Proof.
  intros (Hm & Hd & H31)%civil_ok_range. destruct c as [y m d]. cbn [cv_Year cv_Month cv_Day] in *.
  set (Y := if m <=? 2 then y - 1 else y). set (mp := if m <=? 2 then m + 9 else m - 3).
  exists (Y / 400), (Y mod 400), ((153 * mp + 2) / 5 + d - 1). pose proof (Z.mod_pos_bound Y 400 ltac:(done)) as HY. pose proof (Z.div_mod Y 400 ltac:(done)) as HY'.
  pose proof (leap_start _ HY) as [H1 H2].
  assert ((153 * mp + 2) / 5 + d ≤ (153 * (mp + 1) + 2) / 5 ∧ (m ≠ 2 → (153 * mp + 2) / 5 + d ≤ 337) ∧ (153 * 11 + 2) / 5 = 337 ∧ 0 ≤ (153 * mp + 2) / 5) as (Hnext & Hyear & Hfeb & Hpos).
  { assert (m = 1 ∨ m = 2 ∨ m = 3 ∨ m = 4 ∨ m = 5 ∨ m = 6 ∨ m = 7 ∨ m = 8 ∨ m = 9 ∨ m = 10 ∨ m = 11 ∨ m = 12) as Hc by lia.
    unfold days_in in Hd. clear -Hd Hc. repeat destruct Hc as [Hc|Hc]; subst m; subst mp; cbn in *; try (destruct (leap y)); Z.to_euclidean_division_equations; lia. }
  split.
  - split; [done|]. assert (m = 2 → Y mod 400 = 399 ∨ (if leap y then year_start (Y mod 400) + 366 ≤ year_start (Y mod 400 + 1) else True)) as Hleap.
    { intros ->. destruct (leap y) eqn:E; [|by right]. apply leap_cycle in E. cbn in Y. subst Y. cbv zeta in E. tauto. }
    destruct (decide (m = 2)) as [->|Hne]; [|lia]. change mp with 11 in *. rewrite Hfeb in *. unfold days_in in Hd. cbn in Hd.
    destruct (Hleap eq_refl) as [E|E].
    + split; [destruct (leap y); lia|]. right. split; [done|]. rewrite E. unfold year_start. change (399 / 4) with 99. change (399 / 100) with 3. destruct (leap y); lia.
    + destruct (leap y); lia.
  - rewrite march_month; [|subst mp; destruct (Z.leb_spec m 2); lia|lia|done]. subst mp Y. destruct (Z.leb_spec m 2).
    + rewrite (proj2 (Z.leb_le _ _)) by lia. f_equal; lia.
    + rewrite (proj2 (Z.leb_gt _ _)) by lia. f_equal; lia.
Qed.
(** The day of a date is that date. *)
Lemma civil_of_days c : civil_ok c = true → civil_from_days (days_of c) = c.
Proof.
  intros (era & yoe & doy & Hin & <-)%march_of. rewrite days_march by done.
  destruct (civil_march (era * 146097 + year_start yoe + doy - 719468)) as (era' & yoe' & doy' & E & Hin' & ->).
  assert (yoe + 400 * era = yoe' + 400 * era') as Hy.
  { destruct (Z.lt_trichotomy (yoe + 400 * era) (yoe' + 400 * era')) as [Hy|[Hy|Hy]]; [|done|].
    - pose proof (march_later _ _ _ _ _ _ Hin Hin' Hy). lia.
    - pose proof (march_later _ _ _ _ _ _ Hin' Hin Hy). lia. }
  assert (era = era' ∧ yoe = yoe') as [-> ->] by (destruct Hin, Hin'; lia). f_equal. lia.
Qed.

(** Dates compare like their texts. *)
Lemma pad2_leb a b l l' : 0 ≤ a < 100 → 0 ≤ b < 100 → bytes_leb (pad2 a ++ l) (pad2 b ++ l') = (a <? b) || ((a =? b) && bytes_leb l l').
Proof.
  intros Ha Hb. unfold pad2. cbn [app bytes_leb]. rewrite !(Z.mod_small (_ / 10)) by (split; [apply Z.div_pos; lia|apply Z.div_lt_upper_bound; lia]).
  pose proof (Z.div_mod a 10). pose proof (Z.div_mod b 10). pose proof (Z.mod_pos_bound a 10). pose proof (Z.mod_pos_bound b 10).
  set (p := a / 10) in *. set (q := a mod 10) in *. set (p' := b / 10) in *. set (q' := b mod 10) in *.
  destruct (Z.ltb_spec a b), (Z.eqb_spec a b), (Z.ltb_spec (48 + p) (48 + p')), (Z.eqb_spec (48 + p) (48 + p')), (Z.ltb_spec (48 + q) (48 + q')),
    (Z.eqb_spec (48 + q) (48 + q')); cbn; try done; lia.
Qed.
Definition written (c : Civil) : Prop := 0 ≤ cv_Year c < 10000 ∧ 1 ≤ cv_Month c ≤ 12 ∧ 1 ≤ cv_Day c ≤ 31.
Lemma format_leb c c' : written c → written c' →
  mongo_leb (format_day c) (format_day c') = bool_decide (date_key c ≤ date_key c').
Proof.
  intros [Hy H1] [Hy' H2]. destruct c as [y m d], c' as [y' m' d']. cbn [cv_Year cv_Month cv_Day] in *.
  unfold mongo_leb, format_day, date_key. cbn [cv_Year cv_Month cv_Day].
  rewrite !bytes_of_bytes.
  2,3: unfold pad2; cbn [app]; repeat constructor; match goal with |- context [?a mod 10] => pose proof (Z.mod_pos_bound a 10) | _ => idtac end; lia.
  assert (∀ n, pad2 n = pad2 (n mod 100)) as Hpad.
  { intros n. unfold pad2. replace 100 with (10 * 10) by done. rewrite Z.rem_mul_r by lia.
    replace (n mod 10 + 10 * ((n / 10) mod 10)) with (n mod 10 + (n / 10) mod 10 * 10) by lia. rewrite Z.div_add, Z.mod_add by lia.
    rewrite (Z.div_small (n mod 10)), Z.add_0_l, !Z.mod_mod; [done|lia|lia|]. apply Z.mod_pos_bound. lia. }
  rewrite (Hpad y), (Hpad y'). assert (∀ z, 0 ≤ z < 10000 → 0 ≤ z / 100 < 100) as Hdiv.
  { intros z Hz. split; [apply Z.div_pos; lia|apply Z.div_lt_upper_bound; lia]. }
  pose proof (Hdiv y Hy). pose proof (Hdiv y' Hy'). pose proof (Z.mod_pos_bound y 100). pose proof (Z.mod_pos_bound y' 100).
  pose proof (Z.div_mod y 100). pose proof (Z.div_mod y' 100). rewrite !pad2_leb by lia. cbn [app bytes_leb]. rewrite Z.ltb_irrefl, Z.eqb_refl. cbn [orb andb].
  rewrite pad2_leb by lia. cbn [app bytes_leb]. rewrite Z.ltb_irrefl, Z.eqb_refl. cbn [orb andb].
  rewrite <-(app_nil_r (pad2 d)), <-(app_nil_r (pad2 d')), pad2_leb by lia. cbn [bytes_leb]. rewrite andb_true_r.
  set (p := y / 100) in *. set (q := y mod 100) in *. set (p' := y' / 100) in *. set (q' := y' mod 100) in *.
  destruct (Z.ltb_spec p p'), (Z.eqb_spec p p'), (Z.ltb_spec q q'), (Z.eqb_spec q q'), (Z.ltb_spec m m'), (Z.eqb_spec m m'), (Z.ltb_spec d d'), (Z.eqb_spec d d'); cbn;
    first [rewrite bool_decide_eq_true_2 by lia; done|rewrite bool_decide_eq_false_2 by lia; done|lia].
Qed.

(** ** Documents of reachable databases *)

Lemma wrap64_range z : in64 (wrap64 z).
Proof. unfold in64, wrap64. pose proof (Z.mod_pos_bound (z + 2 ^ 63) (2 ^ 64)). lia. Qed.
Lemma first_of_elem {A} (key : A → string) g l x : NoDup (key <$> l) → x ∈ l → first_of key (key x) g l = g x.
Proof.
  induction l as [|y l IH]; [by intros _ ?%not_elem_of_nil|]. intros Hl. rewrite fmap_cons in Hl. apply NoDup_cons in Hl as [Hy Hl].
  cbn [first_of]. intros [->|Hx]%elem_of_cons; [by rewrite bool_decide_eq_true_2|]. rewrite bool_decide_eq_false_2; [auto|].
  intros E. apply Hy. rewrite E. by apply list_elem_of_fmap_2.
Qed.
Lemma booked_stats {json : AnaJson} {laws : AnaJsonLaws json} s ledger date r : booked s ledger → n_days (ns_db s) !! date = Some r →
  Forall stat_ints (an_FlavorStats r).
Proof.
  intros Hb Hr. rewrite (bk_days _ _ Hb) in Hr. apply Forall_forall. intros fs Hfs. pose proof (df_flavors _ (day_of_fields _ _ _ Hr)) as Hnd.
  assert (∀ m, in64 (reading m r)) as H.
  { intros m. pose proof (day_reading ledger date m (booked_ints _ _ Hb)) as E. rewrite Hr in E. cbn in E. rewrite E. apply wrap64_range. }
  pose proof (H (FlavorScoops (fs_FlavorID fs))) as H1. pose proof (H (FlavorWasted (fs_FlavorID fs))) as H2. cbn in H1, H2.
  rewrite first_of_elem in H1, H2 by done. by split.
Qed.

(** ** The summary *)

(** The documents of a period. *)
Definition documents (start_ end_ : string) (d : NDB) : list Analytics :=
  filter (λ a, mongo_leb start_ (an_Date a) && mongo_leb (an_Date a) end_ = true) (map_to_list (n_days d)).*2.

(** What a summary of the documents [docs] says. *)
Record sums_up (docs : list Analytics) (su : AnalyticsSummary) : Prop := {
  sp_revenue : su_TotalRevenue su = foldl f_add f_zero (gross_sales <$> docs);
  sp_orders : su_TotalOrders su = wrap64 (sum_by (λ r, fi_TotalOrders (an_Financials r)) docs);
  sp_scoops : su_TotalScoops su = wrap64 (sum_by (λ r, op_ScoopsSold (an_Operations r)) docs);
  sp_waste : su_TotalWaste su = wrap64 (sum_by (λ r, ws_TotalWastePortions (an_WasteStats r)) docs);
  sp_trend : su_SalesTrend su = trend <$> docs;
  sp_sales_once : NoDup (sa_FlavorID <$> su_SalesByFlavor su);
  sp_sales : ∀ f p x, (∃ y, y ∈ su_SalesByFlavor su ∧ sa_FlavorID y = f ∧ sa_Portions y = p ∧ sa_Revenue y = x) ↔
    let days := sold_of f (docs ≫= an_FlavorStats) in
    days ≠ [] ∧ p = wrap64 (sum_by fs_ScoopsSold days) ∧ x = f_sum (flavor_revenue <$> days);
  sp_waste_once : NoDup (fw_FlavorID <$> su_WasteByFlavor su);
  sp_wasted : ∀ f p, (∃ y, y ∈ su_WasteByFlavor su ∧ fw_FlavorID y = f ∧ fw_Portions y = p) ↔
    let days := wasted_of f (docs ≫= an_FlavorStats) in days ≠ [] ∧ p = wrap64 (sum_by fs_WastePortions days)
}.

Section summary.
Context {un : Unordered} {ulaws : UnorderedLaws un}.

Lemma elem_of_range {A} (m : gmap string A) y : y ∈ map_range m ↔ ∃ f, m !! f = Some y.
Proof.
  rewrite map_range_perm, list_elem_of_fmap. split.
  - intros ([f x] & -> & Hx%elem_of_map_to_list). eauto.
  - intros [f Hf]. exists (f, y). split; [done|]. by apply elem_of_map_to_list.
Qed.
(** Rows of a map that carry their key. *)
Lemma range_keys {A} (key : A → string) (m : gmap string A) : (∀ f y, m !! f = Some y → key y = f) → NoDup (key <$> map_range m).
Proof.
  intros H. rewrite map_range_perm, <-list_fmap_compose. rewrite (list_fmap_ext _ fst); [apply NoDup_fst_map_to_list|].
  intros i [f y] Hy. cbn. apply list_elem_of_lookup_2, elem_of_map_to_list in Hy. eauto.
Qed.

Lemma build_sums_up docs : Forall (λ r, Forall stat_ints (an_FlavorStats r)) docs → sums_up docs (BuildAnalyticsSummaryResponse docs).
Proof.
  intros Hdocs. assert (Forall stat_ints (docs ≫= an_FlavorStats)) as Hs.
  { apply Forall_forall. intros fs (r & Hfs & Hr)%list_elem_of_bind. rewrite Forall_forall in Hdocs. specialize (Hdocs r Hr).
    rewrite Forall_forall in Hdocs. auto. }
  unfold BuildAnalyticsSummaryResponse. rewrite totals_sum. set (stats := docs ≫= an_FlavorStats) in *.
  split; cbn [su_TotalRevenue su_TotalOrders su_TotalScoops su_TotalWaste su_SalesTrend su_SalesByFlavor su_WasteByFlavor]; try done.
  - apply range_keys. intros f y Hy. pose proof (sales_lookup f stats Hs) as H. rewrite Hy in H. tauto.
  - intros f p x. fold stats. cbv zeta. pose proof (sales_lookup f stats Hs) as H. split.
    + intros (y & [g Hg]%elem_of_range & <- & <- & <-). pose proof (sales_lookup g stats Hs) as Hy. rewrite Hg in Hy.
      destruct Hy as (H1 & H2 & H3 & H4). by rewrite H2.
    + intros (Hne & -> & ->). destruct (_ !! f) as [y|] eqn:E; [|done]. destruct H as (_ & H2 & H3 & H4). exists y.
      split; [apply elem_of_range; eauto|done].
  - apply range_keys. intros f y Hy. pose proof (waste_lookup f stats Hs) as H. rewrite Hy in H. tauto.
  - intros f p. fold stats. cbv zeta. pose proof (waste_lookup f stats Hs) as H. split.
    + intros (y & [g Hg]%elem_of_range & <- & <-). pose proof (waste_lookup g stats Hs) as Hy. rewrite Hg in Hy.
      destruct Hy as (H1 & H2 & H3). by rewrite H2.
    + intros (Hne & ->). destruct (_ !! f) as [y|] eqn:E; [|done]. destruct H as (_ & H2 & H3). exists y.
      split; [apply elem_of_range; eauto|done].
Qed.

(** ** The period *)

(** The day on which a period begins that ends on day [z]. *)
Definition months_before (k : Z) (c : Civil) : Z := days_from_civil (cv_Year c + (cv_Month c - 1 - k) / 12) ((cv_Month c - 1 - k) mod 12 + 1) 1 + (cv_Day c - 1).
Definition first_day (period : string) (z : Z) : option Z :=
  if bool_decide (period = "1d") then Some (z - 1)
  else if bool_decide (period = "1w") then Some (z - 7)
  else if bool_decide (period = "1m") then Some (months_before 1 (civil_from_days z))
  else if bool_decide (period = "6m") then Some (months_before 6 (civil_from_days z))
  else None.
Lemma days_linear y m d k : days_from_civil y m (d + k) = days_from_civil y m d + k.
Proof. unfold days_from_civil. lia. Qed.
Lemma AddDate_days k z : AddDate 0 k (civil_from_days z) = civil_from_days (z + k).
Proof.
  destruct (civil_range z) as [Hm _]. unfold AddDate. f_equal. rewrite Z.add_0_r. rewrite (Z.div_small (_ - 1)), (Z.mod_small (_ - 1)) by lia.
  rewrite <-days_linear, Z.add_0_r. replace (cv_Month (civil_from_days z) - 1 + 1) with (cv_Month (civil_from_days z)) by lia.
  replace (1 + (cv_Day (civil_from_days z) + k - 1)) with (cv_Day (civil_from_days z) + k) by lia. rewrite days_linear. f_equal. apply days_of_civil.
Qed.
Lemma period_first period z : period_start period (civil_from_days z) = civil_from_days <$> first_day period z.
Proof.
  unfold period_start, first_day, months_before. rewrite !AddDate_days. repeat case_bool_decide; try done; cbn [fmap option_fmap option_map]; f_equal;
    unfold AddDate; rewrite Z.add_0_r, <-?Z.add_opp_r; done.
Qed.
(** A period begins in this year or the last. *)
Lemma key_year z z' : z ≤ z' → cv_Year (civil_from_days z) ≤ cv_Year (civil_from_days z').
Proof. intros H%civil_le. destruct (civil_range z), (civil_range z'). unfold date_key in H. lia. Qed.
Lemma first_of_month y m : 1 ≤ m ≤ 12 → civil_from_days (days_of (MkCivil y m 1)) = MkCivil y m 1.
Proof.
  intros Hm. apply civil_of_days. unfold civil_ok, day_ok, between, days_in. cbn [cv_Year cv_Month cv_Day].
  rewrite !(proj2 (Z.leb_le _ _)); try lia; repeat case_match; lia.
Qed.
Lemma months_before_bounds k z : 0 ≤ k ≤ 12 → let c := civil_from_days z in
  months_before k c ≤ z ∧ cv_Year c - 1 ≤ cv_Year (civil_from_days (months_before k c)).
Proof.
  intros Hk c. destruct (civil_range z) as [Hm Hd]. fold c in Hm, Hd. unfold months_before. set (y' := cv_Year c + _). set (m' := _ mod 12 + 1).
  assert (1 ≤ m' ≤ 12 ∧ cv_Year c - 1 ≤ y' ∧ 12 * y' + m' = 12 * cv_Year c + cv_Month c - k) as (Hm' & Hy' & E).
  { subst y' m'. pose proof (Z.div_mod (cv_Month c - 1 - k) 12). pose proof (Z.mod_pos_bound (cv_Month c - 1 - k) 12). lia. }
  change (days_from_civil y' m' 1) with (days_of (MkCivil y' m' 1)). split.
  - assert (days_of (MkCivil y' m' 1) ≤ days_of (MkCivil (cv_Year c) (cv_Month c) 1)) as H.
    { apply civil_le. rewrite !first_of_month by done. unfold date_key. cbn [cv_Year cv_Month cv_Day]. lia. }
    assert (z = days_of (MkCivil (cv_Year c) (cv_Month c) 1) + (cv_Day c - 1)) as Hz; [|lia].
    unfold days_of. cbn [cv_Year cv_Month cv_Day]. rewrite <-days_linear. replace (1 + (cv_Day c - 1)) with (cv_Day c) by lia. symmetry. apply days_of_civil.
  - transitivity y'; [done|]. pose proof (key_year (days_of (MkCivil y' m' 1)) (days_of (MkCivil y' m' 1) + (cv_Day c - 1)) ltac:(lia)) as H.
    by rewrite first_of_month in H.
Qed.
Lemma week_before_year z : cv_Year (civil_from_days z) - 1 ≤ cv_Year (civil_from_days (z - 7)).
Proof.
  set (y := cv_Year (civil_from_days z)). assert (days_of (MkCivil y 1 1) ≤ z) as H.
  { apply civil_le. rewrite first_of_month by lia. destruct (civil_range z). unfold date_key. cbn [cv_Year cv_Month cv_Day]. lia. }
  assert (days_of (MkCivil y 1 1) = days_of (MkCivil (y - 1) 12 25) + 7) as E.
  { unfold days_of, days_from_civil. cbn [cv_Year cv_Month cv_Day]. change (1 <=? 2) with true. change (12 <=? 2) with false. cbv iota.
    change ((153 * ((1 + 9) mod 12) + 2) / 5) with 306. change ((153 * ((12 + 9) mod 12) + 2) / 5) with 275. lia. }
  pose proof (key_year (days_of (MkCivil (y - 1) 12 25)) (z - 7) ltac:(lia)) as Hk. by rewrite civil_of_days in Hk.
Qed.
Lemma first_written period z first : first_day period z = Some first → 1 ≤ cv_Year (civil_from_days z) < 10000 →
  written (civil_from_days first) ∧ written (civil_from_days z).
Proof.
  intros Hf Hz. split; [|split; [lia|apply civil_range]]. split; [|apply civil_range].
  assert (first ≤ z ∧ cv_Year (civil_from_days z) - 1 ≤ cv_Year (civil_from_days first)) as [H1 H2].
  { unfold first_day in Hf. pose proof (week_before_year z). pose proof (key_year (z - 7) (z - 1)).
    repeat case_bool_decide; simplify_eq; try (apply months_before_bounds; lia); lia. }
  apply key_year in H1. lia.
Qed.

(** ** The documents of a period *)

Context {json : AnaJson}.
Lemma wants_dated dl e : wants dl = Some e → ∃ c, entry_date e = format_day c ∧ 0 ≤ cv_Year c < 10000 ∧ civil_ok c = true.
Proof.
  assert (∀ ts f, (∀ date, entry_date (f date) = date) → on_date ts f = Some e →
    ∃ c, entry_date e = format_day c ∧ 0 ≤ cv_Year c < 10000 ∧ civil_ok c = true) as H.
  { intros ts f Hf. unfold on_date. destruct (extractDate ts) as [|date] eqn:E; [done|]. intros [= <-]. rewrite Hf.
    apply extractDate_civil in E as (c & -> & H1 & H2 & H3). exists c. split_and!; try done; try lia. unfold civil_ok, between.
    by rewrite !(proj2 (Z.leb_le _ _)), H3 by lia. }
  unfold wants. destruct (parse_message dl) as [[p|p|p]|]; cbn; [|destruct (_ || _); [done|]| |done]; by apply H.
Qed.
Lemma booked_civil s ledger date r : booked s ledger → n_days (ns_db s) !! date = Some r →
  an_Date r = date ∧ ∃ c, date = format_day c ∧ written c ∧ civil_ok c = true.
Proof.
  intros Hb Hr. split; [by eapply booked_dated|]. rewrite (bk_days _ _ Hb) in Hr. unfold day_of in Hr.
  destruct (entries date ledger) as [|e es] eqn:E; [done|]. assert (e ∈ entries date ledger) as He by (rewrite E; by left).
  apply list_elem_of_filter in He as [Hd He]. pose proof (elem_of_submseteq _ _ _ He (bk_from _ _ Hb)) as (x & _ & Hx)%list_elem_of_omap.
  destruct (wants_dated _ _ Hx) as (c & Hc & Hy & Hok). exists c. split; [congruence|]. split; [|done].
  pose proof (civil_ok_range c Hok). split; [done|lia].
Qed.

(** The documents between two days, each once. *)
Record covers (d : NDB) (first last : Z) (docs : list Analytics) : Prop := {
  co_once : NoDup (an_Date <$> docs);
  co_in : ∀ r, r ∈ docs ↔ ∃ c, written c ∧ civil_ok c = true ∧ an_Date r = format_day c ∧ n_days d !! format_day c = Some r ∧ first ≤ days_of c ≤ last
}.
Lemma documents_cover s ledger first last : booked s ledger → written (civil_from_days first) → written (civil_from_days last) →
  covers (ns_db s) first last (natural (documents (format_day (civil_from_days first)) (format_day (civil_from_days last)) (ns_db s))).
Proof.
  intros Hb Hf Hl. assert (∀ r, r ∈ (map_to_list (n_days (ns_db s))).*2 ↔ n_days (ns_db s) !! an_Date r = Some r) as Hmem.
  { intros r. rewrite list_elem_of_fmap. split.
    - intros ([date r'] & -> & Hr%elem_of_map_to_list). cbn. by destruct (booked_civil _ _ _ _ Hb Hr) as [-> _].
    - intros Hr. exists (an_Date r, r). split; [done|]. by apply elem_of_map_to_list. }
  split.
  - rewrite natural_perm. unfold documents. apply NoDup_fmap_filter. rewrite <-list_fmap_compose.
    rewrite (list_fmap_ext _ fst); [apply NoDup_fst_map_to_list|]. intros i [date r] Hr%list_elem_of_lookup_2%elem_of_map_to_list. cbn.
    by destruct (booked_civil _ _ _ _ Hb Hr).
  - intros r. rewrite natural_perm. unfold documents. rewrite list_elem_of_filter, Hmem. split.
    + intros [Hrange Hr]. destruct (booked_civil _ _ _ _ Hb Hr) as (_ & c & E & Hw & Hok). exists c. rewrite E in Hr, Hrange |- *. split_and!; try done.
      all: rewrite !format_leb in Hrange by done; apply andb_true_iff in Hrange as [H1%bool_decide_eq_true H2%bool_decide_eq_true].
      all: rewrite <-(civil_of_days c Hok), <-civil_le in H1, H2; done.
    + intros (c & Hw & Hok & E & Hr & Hc). rewrite E, !format_leb by done. split; [|done]. rewrite <-(civil_of_days c Hok).
      apply andb_true_iff. split; apply bool_decide_eq_true_2, (proj1 (civil_le _ _)); lia.
Qed.

(** ** The request *)

(** What a manager's request for a summary is answered with. *)
Definition summary_answer (d : NDB) (period : string) (z : Z) (r : NResp) : Prop :=
  match first_day (or_else period "1w") z with
  | None => r = NFail 400 "HTTP_400"
  | Some first => ∃ docs su, r = NOkSummary su ∧ covers d first z docs ∧ sums_up docs su
  end.

Lemma ana_authenticate_inl {jwt : Jwt} v auth r : ana_authenticate v auth = inl r → r = NFail 401 "UNAUTHORIZED".
Proof. unfold ana_authenticate. repeat case_match; intros ?; by simplify_eq. Qed.

(** C40.  Summaries.  A request for a summary leaves the database as it is and is
    always answered.  Without exactly one bearer token that names a user, a valid
    role and its lifetime the answer is 401, to anyone but a manager 403.  A
    manager who names no known period gets 400; if the query fails, 500; otherwise
    a summary of exactly the daily documents from the first day of the period up
    to today - one day back, seven days back, or the same day one or six months
    back - each once: the totals and the trend take in all of them, the sales of a
    flavor the daily rows of it in which its scoops or its revenue are positive,
    and its waste those in which its waste is.  A row that refunds have made
    negative counts in the totals and not in the sales of its flavor. *)
Theorem analytics_summary {laws : AnaJsonLaws json} {jwt : Jwt} tz v auth period s o n :
  rtc nstep nsys_start s → honest (ns_log s) → 1 ≤ cv_Year (today tz (or_clock o n)) < 10000 →
  ∃ r w', ana_router tz v auth (NSummary period) o (World (ns_db s) n false []) = (inr r, w') ∧ w_db w' = ns_db s ∧
    match ana_authenticate v auth with
    | inl _ => r = NFail 401 "UNAUTHORIZED"
    | inr claims =>
        if decide (cl_Role claims = RoleManager)
        then summary_answer (ns_db s) period ((or_clock o n + tz) / day) r ∨ (r = NFail 500 "UNKNOWN_ERROR" ∧ is_Some (or_fault o (S n)))
        else r = NFail 403 "FORBIDDEN"
    end.
Proof.
  intros Hs Hh Hy. destruct (booked_reachable s Hs Hh) as [ledger Hb]. unfold ana_router, RequireRole.
  destruct (ana_authenticate v auth) as [r|claims] eqn:Ha.
  { exists r. eexists. split; [done|]. split; [done|]. by apply ana_authenticate_inl in Ha. }
  destruct (decide (cl_Role claims = RoleManager)) as [Hm|Hm].
  2:{ rewrite bool_decide_eq_false_2 by (by intros ?%list_elem_of_singleton). do 2 eexists. split; [done|]. by split. }
  rewrite bool_decide_eq_true_2 by (rewrite Hm; by left). unfold handle_summary, GetAnalyticsSummary, try, go_now, mbind, M_bind. cbn [w_tick w_db w_aborted w_locks].
  unfold summary_answer. set (z := (or_clock o n + tz) / day) in *. change (today tz (or_clock o n)) with (civil_from_days z) in *. rewrite period_first.
  destruct (first_day (or_else period "1w") z) as [first|] eqn:Hf; cbn [fmap option_fmap option_map].
  2:{ do 2 eexists. split; [done|]. split; [done|]. by left. }
  unfold FindByDateRange, mongo_read, pool_query, pool_stmt. cbn [w_tick w_db w_aborted w_locks]. destruct (or_fault o (S n)) as [e|].
  { do 2 eexists. split; [done|]. split; [done|]. right. split; [done|eauto]. }
  destruct (first_written _ _ _ Hf Hy) as [Hw1 Hw2]. pose proof (documents_cover s ledger first z Hb Hw1 Hw2) as Hc.
  do 2 eexists. split; [done|]. split; [done|]. left. do 2 eexists. split; [done|]. split; [exact Hc|]. apply build_sums_up.
  apply Forall_forall. intros r (c & _ & _ & _ & Hr & _)%(co_in _ _ _ _ Hc). by eapply booked_stats.
Qed.
End summary.
