(* ===== verification/AnaDemo.v ===== *)
(** Analytics service: concrete runs, and where a count can go wrong. *)

From Stdlib Require Import SpecFloat.
From S2P Require Import Prelude Effects GoStd FulHandler AnaModel AnaService AnaRun AnaClaims AnaSummary.
#[local] Open Scope string_scope.
#[local] Open Scope list_scope.
#[local] Open Scope Z_scope.

(** ** A shop with three events

    Two cups of vanilla for 98.00 are sold, the order is cancelled and three
    portions of mango are thrown away. *)

Definition two_cups : ItemJson := MkItemJson "" "" 2 f_zero 0 0 "vanilla" "Vanilla" f_zero 4900 f_zero 9800.
Definition sale_event : Envelope PlacedJson :=
  MkEnvelope "e1" "order.placed" "2026-09-01T10:00:00Z" "order" "" (MkPlacedJson "" f_zero 0 [two_cups] "o1" f_zero 9800 "THB").
Definition refund_event : Envelope CancelledJson :=
  MkEnvelope "e2" "order.cancelled" "2026-09-02T10:00:00Z" "order" ""
    (MkCancelledJson "" "spilt" true 9800 "THB" [two_cups] "2026-09-01T10:00:00Z" "o1").
Definition waste_event : Envelope WasteJson :=
  MkEnvelope "e3" "inventory.waste" "2026-09-01T20:00:00Z" "inventory" ""
    (MkWasteJson "" "" "" "" 3 "MELTED" 0 "w1" "b1" "mango" "Mango" 4500 "THB").
#[local] Instance demo_events : AnaJson := {|
  decode_placed := λ body, if bool_decide (body = "sale") then Some sale_event else None;
  decode_cancelled := λ body, if bool_decide (body = "refund") then Some refund_event else None;
  decode_waste := λ body, if bool_decide (body = "waste") then Some waste_event else None
|}.
#[local] Instance demo_event_laws : AnaJsonLaws demo_events.
Proof.
  split; intros body e; cbn; case_bool_decide; try done; intros [= <-]; unfold json_ints, in64; cbn; repeat constructor; cbn; lia.
Qed.
#[local] Instance demo_order : Unordered := {| natural := λ l, l; map_range := λ A m, (map_to_list m).*2 |}.
#[local] Instance demo_order_laws : UnorderedLaws demo_order.
Proof. split; done. Qed.
#[local] Instance demo_tokens : Jwt := λ _ _ _ raw,
  if bool_decide (raw = "manager-token") then Some (MkClaims RoleManager "11111111-1111-1111-1111-111111111111" (Some 0) (Some 1)) else None.

(** 2 September 2026, noon. *)
Definition ana_noon : Z := (days_of (MkCivil 2026 9 2)) * day + 12 * hour.
Definition fine_db : oracle := Oracle (λ _, None) (λ _, false) (λ _, ana_noon) (λ _, "").
(** The [k]-th call fails and has no effect. *)
Definition fails_at (k : nat) : oracle := Oracle (λ n, if bool_decide (n = k) then Some DbNet else None) (λ _, false) (λ _, ana_noon) (λ _, "").

Definition sale_msg : NDelivery := MkNDelivery "order.placed" "sale".
Definition refund_msg : NDelivery := MkNDelivery "OrderCancelled" "refund".
Definition waste_msg : NDelivery := MkNDelivery "inventory.waste" "waste".

Definition handle (o : oracle) (dl : NDelivery) (s : NSys) : NSys :=
  let '(r, w) := processMessage dl o (World (ns_db s) 0 false []) in
  MkNSys (w_db w) ((dl, match r with inr v => Some v | inl _ => None end) :: ns_log s).
Definition after_three : NSys := handle fine_db waste_msg (handle fine_db sale_msg (handle fine_db refund_msg (handle fine_db sale_msg nsys_start))).

Lemma handle_ok o dl s v : reliable o → (processMessage dl o (World (ns_db s) 0 false [])).1 = inr v → nstep_ok s (handle o dl s).
Proof.
  intros Ho Hv. unfold handle. destruct (processMessage dl o _) as [r w] eqn:E. cbn in Hv. subst r. by eapply NO_deliver.
Qed.
Lemma fine_db_reliable : reliable fine_db.
Proof. done. Qed.
Lemma ok_step s s' : nstep_ok s s' → nstep s s'.
Proof. intros []. by eapply N_deliver. Qed.
Lemma after_three_ok : rtc nstep_ok nsys_start after_three.
Proof.
  repeat (eapply rtc_r; [|eapply (handle_ok _ _ _ NAck); [apply fine_db_reliable|by vm_compute]]). constructor.
Qed.
Lemma after_three_reachable : rtc nstep nsys_start after_three.
Proof. induction after_three_ok; [constructor|]. eapply rtc_l; [by apply ok_step|done]. Qed.
Lemma after_three_log : ns_log after_three = [(waste_msg, Some NAck); (sale_msg, Some NAck); (refund_msg, Some NAck); (sale_msg, Some NAck)].
Proof. by vm_compute. Qed.

Ltac log_cases := repeat match goal with
  | Hx : _ ∈ _ :: _ |- _ => apply elem_of_cons in Hx as [->|Hx]
  | Hx : _ ∈ [] |- _ => by apply not_elem_of_nil in Hx
  end.
Lemma after_three_honest : honest (ns_log after_three).
Proof. rewrite after_three_log. intros x y Hx Hy. log_cases; intros _ E; try done; by vm_compute in E. Qed.
Lemma after_three_cancelled : cancelled_once (ns_log after_three).
Proof.
  rewrite after_three_log. intros x y e e' Hx Hy. log_cases; intros He He' Hk E; try done; vm_compute in He; injection He as <-; try (by destruct Hk);
    vm_compute in He'; injection He' as <-; done.
Qed.
Lemma after_three_named : all_named (ns_log after_three).
Proof. rewrite after_three_log. intros x Hx. log_cases; intros _; by vm_compute. Qed.

(** ** Witnesses *)

Lemma analytics_ledger_witness : rtc nstep nsys_start after_three ∧ honest (ns_log after_three) ∧
  ∃ ledger, n_days (ns_db after_three) !! "2026-09-01" = day_of "2026-09-01" ledger ∧ ledger ⊆+ omap (λ x, wants x.1) (ns_log after_three) ∧
    (∀ e, wants sale_msg = Some e → counted e ledger).
Proof.
  split; [exact after_three_reachable|]. split; [exact after_three_honest|].
  destruct (analytics_ledger after_three after_three_reachable after_three_honest) as (ledger & H1 & _ & H3 & H4 & _).
  exists ledger. split; [apply H1|]. split; [exact H3|]. intros e He. apply (H4 sale_msg); [|exact He]. rewrite after_three_log. right. left.
Defined.

Lemma analytics_exactly_once_witness : rtc nstep_ok nsys_start after_three ∧ honest (ns_log after_three) ∧
  cancelled_once (ns_log after_three) ∧ all_named (ns_log after_three) ∧
  reading Gross (day_in "2026-09-01" (ns_db after_three)) = 0 ∧
  reading WastePortions (day_in "2026-09-01" (ns_db after_three)) = 3.
Proof.
  split; [exact after_three_ok|]. split; [exact after_three_honest|]. split; [exact after_three_cancelled|]. split; [exact after_three_named|].
  destruct (analytics_exactly_once after_three after_three_ok after_three_honest after_three_cancelled after_three_named) as [H _].
  split; rewrite H, after_three_log; vm_compute; reflexivity.
Defined.

Definition shop_verifier : Verifier := MkVerifier "secret" "gelato" "gelato-api".
Lemma analytics_summary_witness : rtc nstep nsys_start after_three ∧ honest (ns_log after_three) ∧
  1 ≤ cv_Year (today 0 (or_clock fine_db 0)) < 10000 ∧
  ∃ su w' docs, ana_router 0 shop_verifier ["Bearer manager-token"] (NSummary "1w") fine_db (World (ns_db after_three) 0 false []) = (inr (NOkSummary su), w') ∧
    covers (ns_db after_three) (days_of (MkCivil 2026 8 26)) (days_of (MkCivil 2026 9 2)) docs ∧ sums_up docs su.
Proof.
  split; [exact after_three_reachable|]. split; [exact after_three_honest|].
  assert (1 ≤ cv_Year (today 0 (or_clock fine_db 0)) < 10000) as Hy by (vm_compute; split; congruence).
  split; [exact Hy|].
  destruct (analytics_summary 0 shop_verifier ["Bearer manager-token"] "1w" after_three fine_db 0 after_three_reachable after_three_honest Hy) as (r & w' & E & _ & Hr).
  assert (ana_authenticate shop_verifier ["Bearer manager-token"] = inr (MkClaims RoleManager "11111111-1111-1111-1111-111111111111" (Some 0) (Some 1))) as Ha
    by (vm_compute; reflexivity).
  rewrite Ha in Hr. destruct (decide _) as [_|Hn]; [|by destruct Hn]. destruct Hr as [Hr|[_ [e He]]]; [|discriminate].
  destruct Hr as (docs & su & -> & Hc & Hs). exists su, w', docs. split; [exact E|]. split; [exact Hc|exact Hs].
Defined.

(** ** Where a count can go wrong *)

(** A sale whose marker could not be written is acknowledged all the same; when
    the broker hands it out again it counts twice. *)
Example sale_counted_twice : let s := handle fine_db sale_msg (handle (fails_at 4) sale_msg nsys_start) in
  ns_log s = [(sale_msg, Some NAck); (sale_msg, Some NAck)] ∧ reading Orders (day_in "2026-09-01" (ns_db s)) = 2.
Proof. vm_compute. split; reflexivity. Qed.

(** A second worker that counts an event between another's read and its save is
    overwritten: of a sale and a waste, only the sale is left. *)
Example update_lost :
  let d0 := (empty_ndb : NDB) in
  let data := en_Data (map_data placed_UnmarshalJSON sale_event) in
  let '(read, w1) := getOrCreateAnalytics "2026-09-01" fine_db (World d0 0 false []) in
  let '(other, w2) := processMessage waste_msg fine_db w1 in
  match read with
  | inr record => other = inr NAck ∧ reading WastePortions (day_in "2026-09-01" (w_db w2)) = 3 ∧
      reading WastePortions (day_in "2026-09-01" (w_db (Save (place_on data record) fine_db w2).2)) = 0
  | inl _ => False
  end.
Proof. vm_compute. split; [reflexivity|]. split; reflexivity. Qed.

(** An amount that comes only in units loses a hundredth: 19.99 counts 1998. *)
Example amount_truncated :
  pd_TotalAmountMinor (placed_UnmarshalJSON (MkPlacedJson "o2" (f_div (f_of_int 1999) (f_of_int 100)) 0 [] "" f_zero 0 "THB")) = 1998.
Proof. reflexivity. Qed.
