(* ===== verification/AuthLimits.v ===== *)
(** Auth service: the limits on credential work ([rateBudget] and
    [CredentialLimiter] of [internal/middleware/boundaries.go], [RateLimiter]
    of [internal/middleware/ratelimit.go]).

    A table maps an identity to a counter and the end of its window.  The
    operations read the clock under the lock of the table, so that they see it
    move forward; they get its value as an argument. *)

From S2P Require Import Prelude GoStd.

(** ** Operations *)

Record rateWindow := MkWindow { rw_count : Z; rw_expires : Z }.
#[global] Instance rateWindow_eq_dec : EqDecision rateWindow.
Proof. solve_decision. Defined.

Record rateBudget := MkBudget { rb_windows : gmap string rateWindow; rb_limit : Z; rb_maxKeys : Z; rb_window : Z }.

Definition newRateBudget (limit maxKeys : Z) : rateBudget := MkBudget ∅ limit maxKeys minute.

Definition set_windows (ws : gmap string rateWindow) (l : rateBudget) : rateBudget :=
  MkBudget ws (rb_limit l) (rb_maxKeys l) (rb_window l).

(** The windows that have not ended. *)
Definition unexpired (now : Z) (ws : gmap string rateWindow) : gmap string rateWindow :=
  filter (λ e, now < rw_expires e.2) ws.

(** Seconds until an instant, rounded up. *)
Definition seconds_until (expires now : Z) : Z := (expires - now + second - 1) `quot` second.

Definition allow (key : string) (now : Z) (l : rateBudget) : (bool * Z) * rateBudget :=
  let ws := unexpired now (rb_windows l) in
  let count_in (entry : rateWindow) :=
    if bool_decide (rb_limit l ≤ rw_count entry) then ((false, seconds_until (rw_expires entry) now), set_windows ws l)
    else ((true, 0), set_windows (<[key := MkWindow (rw_count entry + 1) (rw_expires entry)]> ws) l) in
  match ws !! key with
  | Some entry => count_in entry
  | None =>
      if bool_decide (rb_maxKeys l ≤ Z.of_nat (size ws)) then ((false, rb_window l `quot` second), set_windows ws l)
      else count_in (MkWindow 0 (now + rb_window l))
  end.

(** [work] counts the slots taken in the channel. *)
Record CredentialLimiter := MkCredentialLimiter { cr_transport : rateBudget; cr_accounts : rateBudget; cr_work : nat }.
Definition work_slots : nat := 4.
Definition NewCredentialLimiter : CredentialLimiter := MkCredentialLimiter (newRateBudget 600 2048) (newRateBudget 20 4096) 0.

(** [Handle]: the budget of the network peer. *)
Definition limiter_Handle (peer : string) (now : Z) (l : CredentialLimiter) : (bool * Z) * CredentialLimiter :=
  let '(r, b) := allow peer now (cr_transport l) in (r, MkCredentialLimiter b (cr_accounts l) (cr_work l)).

(** [Acquire]: [None] is a slot, [Some] the seconds to wait.  Its two steps are
    apart, because other requests run between them. *)
Definition take_slot (l : CredentialLimiter) : option CredentialLimiter :=
  if bool_decide (cr_work l < work_slots)%nat then Some (MkCredentialLimiter (cr_transport l) (cr_accounts l) (S (cr_work l))) else None.
Definition release_slot (l : CredentialLimiter) : CredentialLimiter :=
  MkCredentialLimiter (cr_transport l) (cr_accounts l) (pred (cr_work l)).
Definition account_budget (email : string) (now : Z) (l : CredentialLimiter) : (bool * Z) * CredentialLimiter :=
  let '(r, b) := allow email now (cr_accounts l) in (r, MkCredentialLimiter (cr_transport l) b (cr_work l)).
Definition Acquire (email : string) (now : Z) (l : CredentialLimiter) : option Z * CredentialLimiter :=
  match take_slot l with
  | None => (Some 1, l)
  | Some l =>
      let '((allowed, retry), l) := account_budget email now l in
      if (allowed : bool) then (None, l) else (Some retry, release_slot l)
  end.

(** *** Failed credentials *)

Record RateLimiter := MkRateLimiter { rl_maxFailures : Z; rl_window : Z; rl_acctFailures : gmap string rateWindow }.
Definition DefaultMaxFailedAttempts : Z := 5.
Definition DefaultRateLimitWindow : Z := 15 * minute.
Definition NewRateLimiter (maxFailures window : Z) : RateLimiter :=
  MkRateLimiter (if bool_decide (maxFailures ≤ 0) then DefaultMaxFailedAttempts else maxFailures)
    (if bool_decide (window ≤ 0) then DefaultRateLimitWindow else window) ∅.

Definition set_failures (ws : gmap string rateWindow) (l : RateLimiter) : RateLimiter := MkRateLimiter (rl_maxFailures l) (rl_window l) ws.
Definition cleanupExpired (now : Z) (l : RateLimiter) : RateLimiter := set_failures (unexpired now (rl_acctFailures l)) l.

Section keys.
(** [strings.ToLower] *)
Context (lower_text : string → string).
Definition account_key (account : string) : string := lower_text (trim_space account).

Definition IsBlocked (account : string) (now : Z) (l : RateLimiter) : (bool * Z) * RateLimiter :=
  let l := cleanupExpired now l in
  let key := account_key account in
  if bool_decide (key = "") then ((false, 0), l)
  else match rl_acctFailures l !! key with
  | Some rec =>
      if bool_decide (rl_maxFailures l ≤ rw_count rec) && bool_decide (now < rw_expires rec)
      then let retry := seconds_until (rw_expires rec) now in
           ((true, if bool_decide (retry < 1) then 1 else retry), l)
      else ((false, 0), l)
  | None => ((false, 0), l)
  end.

Definition RecordFailure (account : string) (now : Z) (l : RateLimiter) : RateLimiter :=
  let l := cleanupExpired now l in
  let key := account_key account in
  if bool_decide (key = "") then l
  else
    let fresh := MkWindow 0 (now + rl_window l) in
    let rec := match rl_acctFailures l !! key with
               | Some r => if negb (bool_decide (now < rw_expires r)) then fresh else r
               | None => fresh
               end in
    set_failures (<[key := MkWindow (rw_count rec + 1) (rw_expires rec)]> (rl_acctFailures l)) l.

Definition Reset (account : string) (l : RateLimiter) : RateLimiter :=
  let key := account_key account in
  if bool_decide (key = "") then l else set_failures (delete key (rl_acctFailures l)) l.
End keys.

(** Auth service: what the limits guarantee.

    [credential_limits] covers every interleaving of the requests that use a
    [CredentialLimiter]; the times at which an identity was let in are kept in
    a log that the limiter does not see. *)


(** ** Counting in windows *)

(** [hits], the newest first, fall into windows of length [W] with at most [L]
    hits each, and the last window ends by [next]. *)
Inductive spaced (W : Z) (L : nat) : list Z → Z → Prop :=
  | spaced_none next : spaced W L [] next
  | spaced_window g rest s next : spaced W L rest s → Forall (λ t, s ≤ t < s + W) g → (length g ≤ L)%nat → s + W ≤ next →
      spaced W L (g ++ rest) next.

(** How many of them are in the interval of length [W] that starts at [a]. *)
Definition hits_in (W a : Z) (hits : list Z) : nat := length (filter (λ t, a ≤ t < a + W) hits).

Lemma hits_in_app W a l k : hits_in W a (l ++ k) = (hits_in W a l + hits_in W a k)%nat.
Proof. unfold hits_in. by rewrite filter_app, length_app. Qed.
Lemma hits_in_le W a l : (hits_in W a l ≤ length l)%nat.
Proof. unfold hits_in. apply length_filter. Qed.
Lemma hits_in_none W a l : Forall (λ t, ¬ (a ≤ t < a + W)) l → hits_in W a l = 0%nat.
Proof. unfold hits_in. induction 1 as [|t l Ht _ IH]; [done|]. by rewrite filter_cons_False. Qed.

Section spaced.
Context (W : Z) (L : nat) (HW : 0 ≤ W).

Lemma spaced_mono hits next next' : spaced W L hits next → next ≤ next' → spaced W L hits next'.
Proof. destruct 1; intros; [constructor|econstructor; eauto; lia]. Qed.

Lemma spaced_before hits next : spaced W L hits next → Forall (λ t, t < next) hits.
Proof.
  induction 1 as [|g rest s next _ IH Hg _ Hn]; [constructor|]. apply Forall_app. split.
  - eapply Forall_impl; [exact Hg|]. cbn. lia.
  - eapply Forall_impl; [exact IH|]. cbn. lia.
Qed.

Lemma spaced_past hits next a : spaced W L hits next → next ≤ a → hits_in W a hits = 0%nat.
Proof. intros H%spaced_before Ha. apply hits_in_none. eapply Forall_impl; [exact H|]. cbn. lia. Qed.

(** Only the last window reaches into an interval that outlasts it. *)
Lemma spaced_last hits next a : spaced W L hits next → next ≤ a + W → (hits_in W a hits ≤ L)%nat.
Proof.
  destruct 1 as [|g rest s next Hr Hg Hl Hn]; intros Ha; [cbn; lia|].
  rewrite hits_in_app, (spaced_past rest s) by (done || lia). pose proof (hits_in_le W a g). lia.
Qed.

Lemma spaced_bound hits next a : spaced W L hits next → (hits_in W a hits ≤ 2 * L)%nat.
Proof.
  induction 1 as [|g rest s next Hr IH Hg Hl Hn]; [cbn; lia|]. rewrite hits_in_app.
  destruct (decide (a + W ≤ s)) as [Hs|Hs].
  - rewrite (hits_in_none W a g); [done|]. eapply Forall_impl; [exact Hg|]. cbn. lia.
  - pose proof (hits_in_le W a g). pose proof (spaced_last rest s a Hr ltac:(lia)). lia.
Qed.

(** The entry of an identity accounts for its hits up to the instant [now]. *)
Definition tracked (now : Z) (hits : list Z) (entry : option rateWindow) : Prop :=
  match entry with
  | Some e => rw_expires e ≤ now + W ∧ ∃ g rest, hits = g ++ rest ∧ spaced W L rest (rw_expires e - W) ∧
      Forall (λ t, rw_expires e - W ≤ t < rw_expires e) g ∧ Z.of_nat (length g) = rw_count e ∧ (length g ≤ L)%nat
  | None => spaced W L hits now
  end.

Lemma tracked_spaced now hits entry : tracked now hits entry → ∃ next, spaced W L hits next.
Proof.
  destruct entry as [e|]; [|eauto]. intros (_ & g & rest & -> & Hr & Hg & _ & Hl). exists (rw_expires e).
  apply (spaced_window _ _ g rest (rw_expires e - W)); try done; [|lia]. eapply Forall_impl; [exact Hg|]. cbn. lia.
Qed.
Lemma tracked_bound now hits entry a : tracked now hits entry → (hits_in W a hits ≤ 2 * L)%nat.
Proof. intros [next H]%tracked_spaced. by eapply spaced_bound. Qed.

(** Time goes by, and expired entries are dropped. *)
Lemma tracked_expire now now' hits (ws : gmap string rateWindow) key : now ≤ now' →
  tracked now hits (ws !! key) → tracked now' hits (unexpired now' ws !! key).
Proof.
  intros Hn Ht. unfold unexpired. destruct (ws !! key) as [e|] eqn:E.
  - destruct (decide (now' < rw_expires e)) as [Hlt|Hge].
    + rewrite (map_lookup_filter_Some_2 _ ws key e) by done. destruct Ht as [Hx Ht]. split; [lia|done].
    + rewrite map_lookup_filter_None_2 by (right; intros x Hx; simplify_eq/=; lia).
      destruct Ht as (_ & g & rest & -> & Hr & Hg & _ & Hl). apply (spaced_window _ _ g rest (rw_expires e - W)); try done; [|lia].
      eapply Forall_impl; [exact Hg|]. cbn. lia.
  - rewrite map_lookup_filter_None_2 by by left. by eapply spaced_mono.
Qed.

(** One more hit, in the window that is open or in a new one. *)
Definition open_window (now : Z) (entry : option rateWindow) : rateWindow := default (MkWindow 0 (now + W)) entry.

Lemma tracked_hit now hits entry (e := open_window now entry) : 0 < W → tracked now hits entry → now < rw_expires e → rw_count e < Z.of_nat L →
  tracked now (now :: hits) (Some (MkWindow (rw_count e + 1) (rw_expires e))).
Proof.
  subst e. destruct entry as [e|]; cbn; intros Hpos.
  - intros (Hx & g & rest & -> & Hr & Hg & Hc & Hl) Hlt Hc'. split; [done|]. exists (now :: g), rest. cbn [length].
    split_and!; try done; try lia. constructor; [lia|done].
  - intros Hsp _ Hlt. split; [lia|]. exists [now], hits. cbn. split_and!; try done; try lia.
    + eapply spaced_mono; [exact Hsp|lia].
    + constructor; [lia|constructor].
Qed.
End spaced.

(** ** A budget *)

(** The times at which a key was let in, the newest first. *)
Definition times_of (key : string) (log : list (string * Z)) : list Z := snd <$> filter (λ x, x.1 = key) log.

Record budget_ok (now : Z) (log : list (string * Z)) (l : rateBudget) : Prop := {
  bo_keys : Z.of_nat (size (rb_windows l)) ≤ rb_maxKeys l;
  bo_tracked : ∀ key, tracked (rb_window l) (Z.to_nat (rb_limit l)) now (times_of key log) (rb_windows l !! key)
}.

Definition same_limits (l l' : rateBudget) : Prop :=
  rb_limit l' = rb_limit l ∧ rb_maxKeys l' = rb_maxKeys l ∧ rb_window l' = rb_window l.

Lemma size_unexpired now ws : (size (unexpired now ws) ≤ size ws)%nat.
Proof. apply map_size_filter. Qed.

Lemma budget_expire now now' log l : now ≤ now' → 0 ≤ rb_window l → budget_ok now log l →
  budget_ok now' log (set_windows (unexpired now' (rb_windows l)) l).
Proof.
  intros Hn HW [Hk Ht]. split; cbn.
  - pose proof (size_unexpired now' (rb_windows l)). lia.
  - intros key. by eapply tracked_expire.
Qed.

Lemma unexpired_spec now ws key e : unexpired now ws !! key = Some e → ws !! key = Some e ∧ now < rw_expires e.
Proof. unfold unexpired. rewrite map_lookup_filter_Some. done. Qed.

Lemma times_of_cons key t log key' : times_of key' ((key, t) :: log) = if decide (key = key') then t :: times_of key' log else times_of key' log.
Proof. unfold times_of. rewrite filter_cons. cbn. by destruct (decide (key = key')). Qed.

(** Let in for one more time. *)
Lemma budget_hit key now log l (e := open_window (rb_window l) now (rb_windows l !! key)) : 0 < rb_window l → budget_ok now log l →
  now < rw_expires e → rw_count e < rb_limit l → (rb_windows l !! key = None → Z.of_nat (size (rb_windows l)) < rb_maxKeys l) →
  budget_ok now ((key, now) :: log) (set_windows (<[key := MkWindow (rw_count e + 1) (rw_expires e)]> (rb_windows l)) l).
Proof.
  subst e. intros HW [Hk Ht] Hx Hc Hfree. split; cbn [rb_windows rb_maxKeys rb_limit rb_window set_windows].
  - destruct (rb_windows l !! key) eqn:E.
    + rewrite map_size_insert_Some by (by eexists). done.
    + rewrite map_size_insert_None by done. specialize (Hfree eq_refl). lia.
  - intros key'. rewrite times_of_cons. destruct (decide (key = key')) as [<-|Hne].
    + rewrite lookup_insert_eq. apply tracked_hit; try done. lia.
    + by rewrite lookup_insert_ne.
Qed.

Lemma seconds_until_bounds expires now W : now < expires ≤ now + W → 1 ≤ seconds_until expires now ≤ (W + second - 1) `quot` second.
Proof.
  unfold seconds_until, second. intros H. rewrite !Z.quot_div_nonneg by lia. split.
  - apply Z.div_le_lower_bound; lia.
  - apply Z.div_le_mono; lia.
Qed.
Lemma seconds_until_enough expires now : expires ≤ now + seconds_until expires now * second ∨ expires ≤ now.
Proof.
  unfold seconds_until, second. destruct (decide (expires ≤ now)); [by right|left]. rewrite Z.quot_div_nonneg by lia.
  pose proof (Z.mul_div_le (expires - now + 1000000000 - 1) 1000000000). pose proof (Z.mod_pos_bound (expires - now + 1000000000 - 1) 1000000000).
  pose proof (Z.div_mod (expires - now + 1000000000 - 1) 1000000000). lia.
Qed.

(** What a call answers, and the log it leaves. *)
Lemma allow_ok key now now' log l r l' : now ≤ now' → 0 < rb_window l → rb_window l `mod` second = 0 → budget_ok now log l →
  allow key now' l = (r, l') →
  same_limits l l' ∧ budget_ok now' (if r.1 then (key, now') :: log else log) l' ∧
  (r.1 = false → 0 < rb_limit l → 1 ≤ r.2 ≤ rb_window l `quot` second).
Proof.
  intros Hn HW Hm Hb Ha. pose proof (budget_expire now now' log l Hn ltac:(lia) Hb) as Hb'.
  assert (1 ≤ rb_window l `quot` second ∧ (rb_window l + second - 1) `quot` second = rb_window l `quot` second) as [Hq1 Hq2].
  { unfold second in *. rewrite !Z.quot_div_nonneg by lia. apply Z.mod_divide in Hm as [q Hq]; [|lia]. rewrite Hq in *.
    rewrite Z.div_mul by lia. split; [lia|]. rewrite <-Z.add_sub_assoc, Z.add_comm, Z.div_add by lia. done. }
  set (l1 := set_windows (unexpired now' (rb_windows l)) l) in *.
  assert (∀ e, e = open_window (rb_window l1) now' (rb_windows l1 !! key) → now' < rw_expires e →
    (rb_windows l1 !! key = None → Z.of_nat (size (rb_windows l1)) < rb_maxKeys l1) → 
    (if bool_decide (rb_limit l ≤ rw_count e) then ((false, seconds_until (rw_expires e) now'), l1)
     else ((true, 0), set_windows (<[key := MkWindow (rw_count e + 1) (rw_expires e)]> (rb_windows l1)) l1)) = (r, l') →
    (rw_expires e ≤ now' + rb_window l) →
    same_limits l l' ∧ budget_ok now' (if r.1 then (key, now') :: log else log) l' ∧
    (r.1 = false → 0 < rb_limit l → 1 ≤ r.2 ≤ rb_window l `quot` second)) as Hcount.
  { intros e He Hx Hfree Heq Hw. case_bool_decide as Hlim; simplify_eq/=; (split; [by split_and!|]); (split; [|try done]).
    - done.
    - intros _ _. rewrite <-Hq2. by apply seconds_until_bounds.
    - apply (budget_hit key now' log l1); try done. cbn in *. lia. }
  unfold allow in Ha. fold l1 in Ha. destruct (unexpired now' (rb_windows l) !! key) as [e|] eqn:E.
  - destruct (unexpired_spec _ _ _ _ E) as [_ Hx]. destruct Hb' as [_ Ht]. specialize (Ht key). cbn in Ht. rewrite E in Ht.
    apply (Hcount e); try done; cbn; rewrite ?E; try done. apply Ht.
  - case_bool_decide as Hfull.
    + simplify_eq/=. split; [by split_and!|]. split; [done|]. intros _ _. lia.
    + apply (Hcount (MkWindow 0 (now' + rb_window l))); try done; cbn; rewrite ?E; try done; lia.
Qed.

(** ** Requests that share a limiter *)

(** The limiter, how many requests hold a slot before and after their account
    budget was checked, the time of the last check, who was let in when, and
    the waiting times that refusals told. *)
Record LSys := MkLSys {
  ls_limiter : CredentialLimiter; ls_entering : nat; ls_working : nat; ls_now : Z;
  ls_accounts : list (string * Z); ls_peers : list (string * Z); ls_waits : list Z
}.

Inductive lstep (s : LSys) : LSys → Prop :=
  | L_peer peer t retry l : ls_now s ≤ t → limiter_Handle peer t (ls_limiter s) = ((true, retry), l) →
      lstep s (MkLSys l (ls_entering s) (ls_working s) t (ls_accounts s) ((peer, t) :: ls_peers s) (ls_waits s))
  | L_peer_refused peer t retry l : ls_now s ≤ t → limiter_Handle peer t (ls_limiter s) = ((false, retry), l) →
      lstep s (MkLSys l (ls_entering s) (ls_working s) t (ls_accounts s) (ls_peers s) (retry :: ls_waits s))
  | L_take l : take_slot (ls_limiter s) = Some l →
      lstep s (MkLSys l (S (ls_entering s)) (ls_working s) (ls_now s) (ls_accounts s) (ls_peers s) (ls_waits s))
  | L_busy : take_slot (ls_limiter s) = None →
      lstep s (MkLSys (ls_limiter s) (ls_entering s) (ls_working s) (ls_now s) (ls_accounts s) (ls_peers s) (1 :: ls_waits s))
  | L_admit email t retry l n : ls_entering s = S n → ls_now s ≤ t → account_budget email t (ls_limiter s) = ((true, retry), l) →
      lstep s (MkLSys l n (S (ls_working s)) t ((email, t) :: ls_accounts s) (ls_peers s) (ls_waits s))
  | L_refuse email t retry l n : ls_entering s = S n → ls_now s ≤ t → account_budget email t (ls_limiter s) = ((false, retry), l) →
      lstep s (MkLSys (release_slot l) n (ls_working s) t (ls_accounts s) (ls_peers s) (retry :: ls_waits s))
  | L_release n : ls_working s = S n →
      lstep s (MkLSys (release_slot (ls_limiter s)) (ls_entering s) n (ls_now s) (ls_accounts s) (ls_peers s) (ls_waits s)).

Definition lsys_start (now : Z) : LSys := MkLSys NewCredentialLimiter 0 0 now [] [] [].

Definition budget_of (limit maxKeys : Z) (l : rateBudget) : Prop := rb_limit l = limit ∧ rb_maxKeys l = maxKeys ∧ rb_window l = minute.

Record limits_ok (s : LSys) : Prop := {
  lo_work : cr_work (ls_limiter s) = (ls_entering s + ls_working s)%nat;
  lo_slots : (cr_work (ls_limiter s) ≤ work_slots)%nat;
  lo_accounts : budget_of 20 4096 (cr_accounts (ls_limiter s)) ∧ budget_ok (ls_now s) (ls_accounts s) (cr_accounts (ls_limiter s));
  lo_peers : budget_of 600 2048 (cr_transport (ls_limiter s)) ∧ budget_ok (ls_now s) (ls_peers s) (cr_transport (ls_limiter s));
  lo_waits : Forall (λ r, 1 ≤ r ≤ 60) (ls_waits s)
}.

Lemma budget_start now limit maxKeys : 0 ≤ maxKeys → budget_ok now [] (newRateBudget limit maxKeys).
Proof. intros H. split; cbn; [done|]. intros key. rewrite lookup_empty. constructor. Qed.

Lemma budget_later now now' log l : now ≤ now' → budget_ok now log l → budget_ok now' log l.
Proof.
  intros Hn [Hk Ht]. split; [done|]. intros key. specialize (Ht key). destruct (rb_windows l !! key) as [e|].
  - destruct Ht as [Hx Ht]. split; [lia|done].
  - by eapply spaced_mono.
Qed.

(** A call of [allow] in the system. *)
Lemma budget_call limit maxKeys key now t log b allowed retry b' : now ≤ t → 0 < limit → budget_of limit maxKeys b → budget_ok now log b →
  allow key t b = ((allowed, retry), b') →
  budget_of limit maxKeys b' ∧ budget_ok t (if allowed : bool then (key, t) :: log else log) b' ∧ (allowed = false → 1 ≤ retry ≤ 60).
Proof.
  intros Ht Hl (H1 & H2 & H3) Hok Ha. eapply allow_ok in Ha as ((E1 & E2 & E3) & Hok' & Hr); try done; rewrite ?H3; try done.
  split; [unfold budget_of; by rewrite E1, E2, E3|]. split; [done|]. intros Hf. rewrite H3, H1 in Hr. by apply Hr.
Qed.

Ltac let_in H := match type of H with (let '(_, _) := ?x in _) = _ => let E := fresh "Hallow" in destruct x as [[? ?] ?] eqn:E; simplify_eq/= end.

Lemma lstep_ok s s' : lstep s s' → limits_ok s → limits_ok s'.
Proof.
  intros Hs [Hw Hsl [Ha Hao] [Hp Hpo] Hwt].
  destruct Hs as [peer t retry l Ht H|peer t retry l Ht H|l H|H|email t retry l n Hn Ht H|email t retry l n Hn Ht H|n Hn].
  - unfold limiter_Handle in H. let_in H. eapply (budget_call 600 2048) in Hallow as (? & ? & _); try done.
    split; cbn; try done. split; [done|]. by eapply budget_later.
  - unfold limiter_Handle in H. let_in H. eapply (budget_call 600 2048) in Hallow as (? & ? & Hr); try done.
    split; cbn; try done; [|constructor; auto]. split; [done|]. by eapply budget_later.
  - unfold take_slot in H. case_bool_decide; simplify_eq. split; cbn; try done; lia.
  - split; cbn; try done. constructor; [lia|done].
  - unfold account_budget in H. let_in H. eapply (budget_call 20 4096) in Hallow as (? & ? & _); try done.
    split; cbn; try done; [lia|]. split; [done|]. by eapply budget_later.
  - unfold account_budget in H. let_in H. eapply (budget_call 20 4096) in Hallow as (? & ? & Hr); try done.
    split; cbn; try done; try lia; [|constructor; auto]. split; [done|]. by eapply budget_later.
  - split; cbn; try done; lia.
Qed.

Lemma limits_reachable now s : rtc lstep (lsys_start now) s → limits_ok s.
Proof.
  apply (rtc_ind_r limits_ok).
  - split; cbn; try done; try lia; split; try done; by apply budget_start.
  - intros s1 s2 _ Hs Hok. by eapply lstep_ok.
Qed.

(** Whoever comes back after the time it was told is let in, if there is room. *)
Lemma allow_again key t t' retry l l' : 0 < rb_limit l → allow key t l = ((false, retry), l') →
  Z.of_nat (size (rb_windows l')) < rb_maxKeys l' → t + retry * second ≤ t' → (allow key t' l').1 = (true, 0).
Proof.
  intros Hl Ha Hroom Ht. unfold allow in Ha.
  destruct (unexpired t (rb_windows l) !! key) as [e|] eqn:E; repeat case_bool_decide; simplify_eq/=; try lia.
  apply unexpired_spec in E as [E Hx]. destruct (seconds_until_enough (rw_expires e) t); [|lia].
  unfold allow. cbn [rb_windows set_windows rb_maxKeys rb_limit rb_window].
  destruct (unexpired t' (unexpired t (rb_windows l)) !! key) as [e'|] eqn:E'.
  - apply unexpired_spec in E' as [[E' _]%unexpired_spec Hx']. simplify_eq. lia.
  - pose proof (size_unexpired t' (unexpired t (rb_windows l))).
    rewrite bool_decide_eq_false_2 by lia. rewrite bool_decide_eq_false_2 by (cbn; lia). done.
Qed.

(** C35.  Credential work is bounded in every interleaving of signups and logins: at
    most four requests work on credentials at a time; in any minute one account
    is let in at most 40 times and one network peer at most 1200 times (two
    fixed windows can meet in it); the tables of the limiter stay within their
    sizes whatever identities clients send; every refusal tells to wait between
    one and sixty seconds; and an account that comes back after that time is let
    in, unless the table is full. *)
Theorem credential_limits now s : rtc lstep (lsys_start now) s →
  (ls_working s ≤ work_slots)%nat ∧
  (∀ email a, hits_in minute a (times_of email (ls_accounts s)) ≤ 40)%nat ∧
  (∀ peer a, hits_in minute a (times_of peer (ls_peers s)) ≤ 1200)%nat ∧
  Z.of_nat (size (rb_windows (cr_accounts (ls_limiter s)))) ≤ 4096 ∧
  Z.of_nat (size (rb_windows (cr_transport (ls_limiter s)))) ≤ 2048 ∧
  Forall (λ r, 1 ≤ r ≤ 60) (ls_waits s) ∧
  ∀ email t retry l t', account_budget email t (ls_limiter s) = ((false, retry), l) →
    Z.of_nat (size (rb_windows (cr_accounts l))) < 4096 → t + retry * second ≤ t' → (account_budget email t' l).1 = (true, 0).
Proof.
  intros H%limits_reachable. destruct H as [Hw Hsl [(A1 & A2 & A3) [Ak At]] [(P1 & P2 & P3) [Pk Pt]] Hwt].
  rewrite A1, A3 in At. rewrite P1, P3 in Pt. split_and!; try done; try lia.
  - intros email a. apply (tracked_bound minute 20) with (ls_now s) (rb_windows (cr_accounts (ls_limiter s)) !! email); [done|apply At].
  - intros peer a. apply (tracked_bound minute 600) with (ls_now s) (rb_windows (cr_transport (ls_limiter s)) !! peer); [done|apply Pt].
  - intros email t retry l t' H Hroom Ht. unfold account_budget in *. let_in H.
    assert (rb_maxKeys r = 4096) as Hmax. { unfold allow in Hallow. repeat case_match; simplify_eq/=; done. }
    pose proof (allow_again email t t' retry (cr_accounts (ls_limiter s)) r ltac:(lia) Hallow) as Hag. rewrite Hmax in Hag. specialize (Hag Hroom Ht).
    by destruct (allow email t' r) as [? ?].
Qed.
