(* ===== verification/AuthModel.v ===== *)
(** Auth service: users, signup receipts, outbox and audit rows of PostgreSQL
    ([auth-service/internal/model], [internal/repository]), access tokens
    ([internal/auth/token.go]) and the account operations
    ([internal/service/auth_service.go]).

    bcrypt, JSON, SHA-256, [net/mail], Unicode lower case and the JWT library are
    parameters.  The state lists the hashes that passwords were compared with:
    a comparison is the work that a caller could time. *)

From S2P Require Import Prelude Effects GoStd InvModel FulHandler AuthLimits.

(** ** Data *)

Definition UserStatusActive : string := "ACTIVE".
Definition UserStatusDisabled : string := "DISABLED".
Definition UserStatus_Valid (s : string) : bool := bool_decide (s = UserStatusActive) || bool_decide (s = UserStatusDisabled).

(** The fields of a user that its JSON shows. *)
Record Profile := MkProfile {
  pr_ID : string; pr_Email : string; pr_DisplayName : string; pr_Role : string; pr_Status : string; pr_CreatedAt : Z
}.
#[global] Instance Profile_eq_dec : EqDecision Profile.
Proof. solve_decision. Defined.

Record User := MkUser { us_Profile : Profile; us_PasswordHash : string; us_UpdatedAt : Z; us_IdempotentReplay : bool }.
#[global] Instance User_eq_dec : EqDecision User.
Proof. solve_decision. Defined.
Definition us_ID (u : User) : string := pr_ID (us_Profile u).
Definition us_Email (u : User) : string := pr_Email (us_Profile u).
Definition us_Role (u : User) : string := pr_Role (us_Profile u).
Definition us_Status (u : User) : string := pr_Status (us_Profile u).

(** A row of [outbox_events]. *)
Record AEvent := MkAEvent {
  ae_ID : string; ae_EventType : string; ae_Payload : string; ae_CreatedAt : Z; ae_PublishedAt : option Z;
  ae_Attempts : Z; ae_NextAttemptAt : Z
}.
#[global] Instance AEvent_eq_dec : EqDecision AEvent.
Proof. solve_decision. Defined.

(** A row of [auth_signup_idempotency]. *)
Record Receipt := MkReceipt { rc_RequestHash : string; rc_PasswordHash : string; rc_Response : option string; rc_ExpiresAt : Z }.
#[global] Instance Receipt_eq_dec : EqDecision Receipt.
Proof. solve_decision. Defined.

(** A row of [auth_audit_logs]; the metadata is a JSON object. *)
Inductive MetaVal := MText (s : string) | MFlag (b : bool) | MNum (n : Z).
#[global] Instance MetaVal_eq_dec : EqDecision MetaVal.
Proof. solve_decision. Defined.
Record AuditRecord := MkAuditRecord {
  au_ID : string; au_EventType : string; au_UserID : option string; au_IPAddress : string; au_UserAgent : string;
  au_Metadata : gmap string MetaVal; au_CreatedAt : Z
}.
#[global] Instance AuditRecord_eq_dec : EqDecision AuditRecord.
Proof. solve_decision. Defined.

Record ADB := MkADB {
  a_users : gmap string User; a_outbox : gmap string AEvent; a_receipts : gmap string Receipt; a_audit : gmap string AuditRecord
}.
Definition empty_adb : ADB := MkADB ∅ ∅ ∅ ∅.
Definition set_users (f : gmap string User → gmap string User) (d : ADB) : ADB := MkADB (f (a_users d)) (a_outbox d) (a_receipts d) (a_audit d).
Definition set_outbox (f : gmap string AEvent → gmap string AEvent) (d : ADB) : ADB := MkADB (a_users d) (f (a_outbox d)) (a_receipts d) (a_audit d).
Definition set_receipts (f : gmap string Receipt → gmap string Receipt) (d : ADB) : ADB := MkADB (a_users d) (a_outbox d) (f (a_receipts d)) (a_audit d).
Definition set_audit (f : gmap string AuditRecord → gmap string AuditRecord) (d : ADB) : ADB := MkADB (a_users d) (a_outbox d) (a_receipts d) (f (a_audit d)).

(** The database, the hashes compared with, and the limiters of the process. *)
Record ASt := MkASt { as_db : ADB; as_compares : list string; as_limiter : CredentialLimiter; as_failures : RateLimiter }.

Inductive AErr :=
  | AInvalidInput (what : string)
  | AInvalidCredentials
  | AUnauthorized
  | AUserNotFound
  | AEmailAlreadyExists
  | AIdemConflict
  | AIdemUnavailable
  | AInvalidToken
  | ASign
  | ACredentialCheck
  | AHash
  | AEncode
  | AAuditConflict
  | AInvalidEvent
  | AStore
  | AClaimLost
  | APublish
  | AUnroutable
  | ADbErr (e : dberr).
#[global] Instance AErr_eq_dec : EqDecision AErr.
Proof. solve_decision. Defined.
#[global] Instance AErr_db : DbError AErr := ADbErr.

(** ** Libraries *)

(** What [bcrypt.CompareHashAndPassword] says. *)
Inductive Compared := CMatch | CMismatch | CFailed.
#[global] Instance Compared_eq_dec : EqDecision Compared.
Proof. solve_decision. Defined.

Class AuthLib := {
  (** [mail.ParseAddress]: the name and the address *)
  parse_address : string → option (string * string);
  (** [strings.ToLower], and LOWER of PostgreSQL *)
  lower_text : string → string;
  pg_lower : string → string;
  (** bcrypt: from a salt, the cost and the password; the comparison *)
  bcrypt_hash : string → Z → string → option string;
  bcrypt_compare : string → string → Compared;
  (** SHA-256 of the JSON of an email and a display name *)
  signup_digest : string → string → string;
  (** the JSON of a user and its decoding *)
  user_json : Profile → option string;
  user_of : string → option Profile;
  (** the payload of the event of a user: id, email, display name, role and
      status; and its decoding to id, role and status *)
  payload_json : string → string → string → string → string → option string;
  payload_of : string → option (string * string * string);
  (** signing claims with HS256 for a secret, an issuer and an audience *)
  sign_claims : string → string → string → Claims → option string
}.

(** ** Access tokens *)

Record TokenManager := MkTokenManager { tm_secret : string; tm_issuer : string; tm_audience : string; tm_ttl : Z }.

(** [jwt.NewNumericDate]: whole seconds. *)
Definition numeric_date (t : Z) : Z := truncate t second.

(** A byte that starts no rune; [utf8.ValidString]. *)
Definition bad_rune (p : Z * list Z) : bool := bool_decide (p.1 = RuneError) && bool_decide (length p.2 = 1%nat).
Definition utf8_valid (s : string) : bool := forallb (λ p, negb (bad_rune p)) (runes s).

Record SignUpInput := MkSignUpInput { su_Email : string; su_Password : string; su_DisplayName : string }.
Record LoginInput := MkLoginInput { li_Email : string; li_Password : string }.
Record AuthResult := MkAuthResult { ar_AccessToken : string; ar_TokenType : string; ar_ExpiresIn : Z; ar_User : User }.
#[global] Instance AuthResult_eq_dec : EqDecision AuthResult.
Proof. solve_decision. Defined.
Record AuthService := MkAuthService { sv_tokens : TokenManager; sv_bcryptCost : Z; sv_dummyHash : string }.

(** What a receipt holds; the event that a signup stores. *)
Record SignupReplay := MkSignupReplay { sr_User : User; sr_PasswordHash : string }.
Record NewEvent := MkNewEvent { ne_ID : string; ne_EventType : string; ne_Payload : string }.

Section auth.
Context {uuid : UuidLib} {lib : AuthLib} {jwt : Jwt}.
Abbreviation A := (M ASt AErr).

Definition claims_for (now ttl : Z) (user : User) : Claims :=
  MkClaims (us_Role user) (us_ID user) (Some (numeric_date now)) (Some (numeric_date (now + ttl))).

Definition Issue (tm : TokenManager) (user : User) : A string :=
  if bool_decide (us_ID user = uuid_nil) || negb (Role_Valid (us_Role user)) || negb (bool_decide (us_Status user = UserStatusActive))
  then throw AInvalidToken
  else
    now ← go_now;
    match sign_claims (tm_secret tm) (tm_issuer tm) (tm_audience tm) (claims_for now (tm_ttl tm) user) with
    | Some raw => mret raw
    | None => throw ASign
    end.

Definition auth_Parse (tm : TokenManager) (raw : string) : option Claims :=
  match ParseWithClaims (tm_secret tm) (tm_issuer tm) (tm_audience tm) raw with
  | None => None
  | Some claims =>
      match cl_IssuedAt claims, cl_ExpiresAt claims with
      | Some iat, Some exp =>
          if negb (bool_decide (iat < exp)) then None
          else match uuid_parse (cl_Subject claims) with
          | None => None
          | Some id => if bool_decide (id = uuid_nil) || negb (Role_Valid (cl_Role claims)) then None else Some claims
          end
      | _, _ => None
      end
  end.

Definition ExpiresInSeconds (tm : TokenManager) : Z := tm_ttl tm `quot` second.

(** ** Statements *)

Definition on_db {B} (f : Z → ADB → dberr + (B * ADB)) : Z → ASt → dberr + (B * ASt) := λ t s,
  match f t (as_db s) with
  | inl e => inl e
  | inr (b, d) => inr (b, MkASt d (as_compares s) (as_limiter s) (as_failures s))
  end.
Definition adb_stmt {B} (f : Z → ADB → dberr + (B * ADB)) : A B := stmt (on_db f).
Definition adb_read {B} (f : Z → ADB → B) : A B := pool_stmt (on_db (λ t d, inr (f t d, d))).

(** A statement outside a transaction that writes: an error may hide that it
    took effect. *)
Definition adb_write {B} (f : Z → ADB → dberr + (B * ADB)) : A B := λ o w,
  let n := w_tick w in
  match or_fault o n with
  | None => pool_stmt (on_db f) o w
  | Some e =>
      let s := match on_db f (or_clock o n) (w_db w) with
               | inr (_, s) => if or_landed o n then s else w_db w
               | inl _ => w_db w
               end in
      (inl (of_db e), World s (S n) (w_aborted w) (w_locks w))
  end.

(** ** The repository *)

Definition email_taken (email : string) (d : ADB) : bool := existsb (λ u, bool_decide (us_Email u.2 = email)) (map_to_list (a_users d)).

(** The CHECK constraints of the table, and text that PostgreSQL can store. *)
Definition user_checks (user : User) : bool :=
  bool_decide (pg_lower (us_Email user) = us_Email user) && Role_Valid (us_Role user) && UserStatus_Valid (us_Status user)
  && negb (contains_nul (us_Email user)) && negb (contains_nul (pr_DisplayName (us_Profile user))).

(** [INSERT INTO users ... RETURNING created_at, updated_at]: the primary key
    and the index on the email. *)
Definition stored_user (user : User) (t : Z) : User :=
  let p := us_Profile user in
  MkUser (MkProfile (pr_ID p) (pr_Email p) (pr_DisplayName p) (pr_Role p) (pr_Status p) t) (us_PasswordHash user) t (us_IdempotentReplay user).
Definition insert_user (user : User) (t : Z) (d : ADB) : dberr + (User * ADB) :=
  if negb (user_checks user) then inl (DbPg "23514")
  else if bool_decide (is_Some (a_users d !! us_ID user)) then inl (DbUnique "users_pkey")
  else if email_taken (us_Email user) d then inl (DbUnique "users_email_unique")
  else inr (stored_user user t, set_users <[us_ID user := stored_user user t]> d).

Definition insert_event (id event_type payload : string) (t : Z) (d : ADB) : dberr + (unit * ADB) :=
  if bool_decide (is_Some (a_outbox d !! id)) then inl (DbUnique "outbox_events_pkey")
  else inr (tt, set_outbox <[id := MkAEvent id event_type payload t None 0 t]> d).

Definition insertUserAndOutbox (user : User) (event : NewEvent) : A User :=
  r ← try (adb_stmt (insert_user user));
  match r with
  | inl (ADbErr (DbUnique _)) => throw AEmailAlreadyExists
  | inl e => throw e
  | inr u =>
      id ← (if bool_decide (ne_ID event = uuid_nil) then new_uuid else mret (ne_ID event) : A string);
      adb_stmt (insert_event id (ne_EventType event) (ne_Payload event)) ;;
      mret u
  end.

Definition CreateWithOutbox (user : User) (event : NewEvent) : A User :=
  transaction (u ← insertUserAndOutbox user event; mret (Commit u)).

(** [scanUser]. *)
Definition scanUser (r : option User) : A User := match r with Some u => mret u | None => throw AUserNotFound end.
Definition user_by_email (email : string) (d : ADB) : option User :=
  snd <$> find (λ u, bool_decide (us_Email u.2 = email)) (map_to_list (a_users d)).
Definition FindByEmail (email : string) : A User := r ← adb_read (λ _ d, user_by_email email d); scanUser r.
Definition auth_FindByID (id : string) : A User := r ← adb_read (λ _ d, a_users d !! id); scanUser r.

(** *** Receipts *)

(** The columns of a row against a request; a decoded user has no hash. *)
Definition scanSignup (row : Receipt) (fingerprint : string) : AErr + SignupReplay :=
  if negb (bool_decide (fingerprint = rc_RequestHash row)) then inl AIdemConflict
  else match rc_Response row ≫= user_of with
  | None => inl AIdemUnavailable
  | Some p =>
      if bool_decide (pr_ID p = uuid_nil) || negb (bool_decide (pr_Role p = RoleCustomer)) || is_zero_time (pr_CreatedAt p)
         || bool_decide (rc_PasswordHash row = "")
      then inl AIdemUnavailable
      else inr (MkSignupReplay (MkUser p "" zero_time false) (rc_PasswordHash row))
  end.

Definition live (t : Z) (r : Receipt) : bool := bool_decide (t < rc_ExpiresAt r).

(** A statement whose error shows as unavailable storage. *)
Definition unavailable {B} (m : A B) : A B :=
  r ← try m; match r with inl _ => throw AIdemUnavailable | inr b => mret b end.

Definition of_scan {B} (r : AErr + SignupReplay) (k : SignupReplay → A B) : A B := match r with inl e => throw e | inr s => k s end.

Definition live_receipt (key : string) (t : Z) (d : ADB) : option Receipt :=
  row ← a_receipts d !! key; if live t row then Some row else None.
Definition LookupSignup (key fingerprint : string) : A (option SignupReplay) :=
  r ← unavailable (adb_read (live_receipt key));
  match r with
  | None => mret None
  | Some row => of_scan (scanSignup row fingerprint) (λ s, mret (Some s))
  end.

Definition receipt_ttl : Z := 24 * hour.

Definition delete_expired (key : string) (t : Z) (d : ADB) : dberr + (unit * ADB) :=
  inr (tt, match a_receipts d !! key with
           | Some row => if live t row then d else set_receipts (delete key) d
           | None => d
           end).
(** [INSERT ... ON CONFLICT DO NOTHING]: whether a row was inserted. *)
Definition claim_receipt (key fingerprint hash : string) (t : Z) (d : ADB) : dberr + (bool * ADB) :=
  if bool_decide (is_Some (a_receipts d !! key)) then inr (false, d)
  else inr (true, set_receipts <[key := MkReceipt fingerprint hash None (t + receipt_ttl)]> d).
Definition with_response (response : string) (r : Receipt) : Receipt :=
  MkReceipt (rc_RequestHash r) (rc_PasswordHash r) (Some response) (rc_ExpiresAt r).
Definition set_response (key response : string) (_ : Z) (d : ADB) : dberr + (unit * ADB) :=
  inr (tt, set_receipts (alter (with_response response) key) d).

(** The body of the transaction; a replay leaves it to the rollback. *)
Definition signup_body (user : User) (event : NewEvent) (key fingerprint : string) : A (txend (SignupReplay * bool)) :=
  unavailable (adb_stmt (delete_expired key)) ;;
  inserted ← unavailable (adb_stmt (claim_receipt key fingerprint (us_PasswordHash user)));
  if negb (inserted : bool) then
    row ← unavailable (adb_stmt (λ _ d, inr (a_receipts d !! key, d)));
    match row with
    | None => throw AIdemUnavailable
    | Some row => of_scan (scanSignup row fingerprint) (λ s, mret (Leave (s, true)))
    end
  else
    u ← insertUserAndOutbox user event;
    match user_json (us_Profile u) with
    | None => throw AIdemUnavailable
    | Some response =>
        unavailable (adb_stmt (set_response key response)) ;;
        mret (Commit (MkSignupReplay u (us_PasswordHash u), false))
    end.

(** Errors of the body are answers; [Begin] and [Commit] that fail show as
    unavailable storage. *)
Definition body_result {B} (r : AErr + txend B) : txend (AErr + B) :=
  match r with inl e => Leave (inl e) | inr (Commit x) => Commit (inr x) | inr (Leave x) => Leave (inr x) end.
Definition CreateSignup (user : User) (event : NewEvent) (key fingerprint : string) : A (SignupReplay * bool) :=
  r ← unavailable (transaction (b ← try (signup_body user event key fingerprint); mret (body_result b)));
  match r with inl e => throw e | inr x => mret x end.

(** The keys of the expired receipts that one statement deletes: up to 1000,
    the oldest first. *)
Definition older (x y : string * Receipt) : Prop :=
  rc_ExpiresAt x.2 < rc_ExpiresAt y.2 ∨ (rc_ExpiresAt x.2 = rc_ExpiresAt y.2 ∧ String.le x.1 y.1).
#[global] Instance older_dec x y : Decision (older x y).
Proof. unfold older. solve_decision. Defined.
Definition cleanup_batch : nat := 1000.
Definition expired_keys (t : Z) (d : ADB) : list string :=
  fst <$> take cleanup_batch (merge_sort older (filter (λ x, live t x.2 = false) (map_to_list (a_receipts d)))).
Definition CleanupSignupReceipts : A Z :=
  adb_write (λ t d, inr (Z.of_nat (length (expired_keys t d)), set_receipts (λ m, foldr delete m (expired_keys t d)) d)).

(** ** The service *)

Definition NormalizeEmail (raw : string) : option string :=
  let email := lower_text (trim_space raw) in
  if bool_decide (email = "") || bool_decide (254 < Z.of_nat (String.length email)) then None
  else match parse_address email with
  | Some (name, address) => if bool_decide (name = "") && bool_decide (address = email) then Some email else None
  | None => None
  end.

Definition validatePassword (password : string) (minimumCharacters : Z) : bool :=
  utf8_valid password && bool_decide (minimumCharacters ≤ rune_count password) && bool_decide (Z.of_nat (String.length password) ≤ 72).

(** [bcrypt.CompareHashAndPassword]. *)
Definition comparePassword (hash password : string) : A Compared := λ o w,
  (inr (bcrypt_compare hash password),
   World (MkASt (as_db (w_db w)) (as_compares (w_db w) ++ [hash]) (as_limiter (w_db w)) (as_failures (w_db w)))
     (w_tick w) (w_aborted w) (w_locks w)).

Definition verifySignupReplay (result : SignupReplay) (password : string) : A User :=
  c ← comparePassword (sr_PasswordHash result) password;
  match c with
  | CMismatch => throw AIdemConflict
  | CFailed => throw AIdemUnavailable
  | CMatch => let u := sr_User result in mret (MkUser (us_Profile u) (us_PasswordHash u) (us_UpdatedAt u) true)
  end.

Definition valid_name (displayName : string) : bool :=
  negb (bool_decide (displayName = "")) && utf8_valid displayName && bool_decide (rune_count displayName ≤ 100).

Definition registered_event : string := "user.registered".

(** What is created for checked input; the salt is random. *)
Definition create_account (s : AuthService) (key : option string) (email displayName password : string) : A User :=
  salt ← new_uuid;
  match bcrypt_hash salt (sv_bcryptCost s) password with
  | None => throw AHash
  | Some hash =>
      id ← new_uuid;
      let user := MkUser (MkProfile id email displayName RoleCustomer UserStatusActive zero_time) hash zero_time false in
      match payload_json id email displayName RoleCustomer UserStatusActive with
      | None => throw AEncode
      | Some payload =>
          event_id ← new_uuid;
          let event := MkNewEvent event_id registered_event payload in
          match key with
          | Some key =>
              r ← CreateSignup user event key (signup_digest email displayName);
              if (r : SignupReplay * bool).2 then verifySignupReplay r.1 password else mret (sr_User r.1)
          | None => CreateWithOutbox user event
          end
      end
  end.

Definition auth_SignUp (s : AuthService) (key : option string) (input : SignUpInput) : A User :=
  match NormalizeEmail (su_Email input) with
  | None => throw (AInvalidInput "email")
  | Some email =>
      let displayName := trim_space (su_DisplayName input) in
      if negb (valid_name displayName) then throw (AInvalidInput "display_name")
      else if negb (validatePassword (su_Password input) 8) then throw (AInvalidInput "password")
      else
        cached ← match key with Some key => LookupSignup key (signup_digest email displayName) | None => mret None end;
        match cached with
        | Some cached => verifySignupReplay cached (su_Password input)
        | None => create_account s key email displayName (su_Password input)
        end
  end.

Definition auth_Login (s : AuthService) (input : LoginInput) : A AuthResult :=
  match NormalizeEmail (li_Email input) with
  | None => throw AInvalidCredentials
  | Some email =>
      if negb (validatePassword (li_Password input) 1) then throw AInvalidCredentials
      else
        found ← try (FindByEmail email);
        match found with
        | inl AUserNotFound => comparePassword (sv_dummyHash s) (li_Password input) ;; throw AInvalidCredentials
        | inl e => throw e
        | inr user =>
            if negb (bool_decide (us_Status user = UserStatusActive)) then
              comparePassword (sv_dummyHash s) (li_Password input) ;; throw AInvalidCredentials
            else
              c ← comparePassword (us_PasswordHash user) (li_Password input);
              match c with
              | CMismatch => throw AInvalidCredentials
              | CFailed => throw ACredentialCheck
              | CMatch =>
                  accessToken ← Issue (sv_tokens s) user;
                  mret (MkAuthResult accessToken "Bearer" (ExpiresInSeconds (sv_tokens s)) user)
              end
        end
  end.

Definition GetCurrentUser (id : string) : A User :=
  found ← try (auth_FindByID id);
  match found with
  | inl AUserNotFound => throw AUnauthorized
  | inl e => throw e
  | inr user => if negb (bool_decide (us_Status user = UserStatusActive)) then throw AUnauthorized else mret user
  end.
End auth.
