(* ===== verification/AuthSteps.v ===== *)
(** Auth service: the abstract account machine, and the proof that the
    operations of the repository and of the service take no other step.

    A step is one committed transaction or one statement outside of one.  The
    clock readings of a step satisfy [P], so that a run can be confined to a
    span of time.  [A_operate] is an operator who changes the role or the
    status of an account by hand; no operation of the service does. *)

From S2P Require Import Prelude Effects GoStd InvModel FulHandler AuthLimits AuthModel.

(** What is relied on of the libraries. *)
Class AuthLaws {uuid : UuidLib} (lib : AuthLib) := {
  al_lower : ∀ s, lower_text (lower_text s) = lower_text s;
  al_address : ∀ e, parse_address e = Some ("", e) → utf8_valid e = true;
  al_payload : ∀ id email name role status p, uuid_parse id = Some id → utf8_valid email = true → utf8_valid name = true →
    Role_Valid role = true → UserStatus_Valid status = true → payload_json id email name role status = Some p → payload_of p = Some (id, role, status);
  al_user : ∀ p s, uuid_parse (pr_ID p) = Some (pr_ID p) → utf8_valid (pr_Email p) = true → utf8_valid (pr_DisplayName p) = true →
    Role_Valid (pr_Role p) = true → UserStatus_Valid (pr_Status p) = true → user_json p = Some s → user_of s = Some p;
  al_hash : ∀ salt cost pw h, bcrypt_hash salt cost pw = Some h →
    h ≠ "" ∧ bcrypt_compare h pw = CMatch ∧ ∀ pw', bcrypt_compare h pw' ≠ CFailed
}.

(** [strings.ToLower] maps rune by rune, and no letter has white space as its
    lower case: text that was trimmed stays trimmed. *)
Class TrimLaw (lib : AuthLib) :=
  lower_trimmed : ∀ s, trim_space (lower_text (trim_space s)) = lower_text (trim_space s).

(** [uuid.New] hands out canonical identifiers other than nil. *)
Definition good_ids {uuid : UuidLib} (o : oracle) : Prop := ∀ n, uuid_parse (or_uuid o n) = Some (or_uuid o n) ∧ or_uuid o n ≠ uuid_nil.

(** The account stays the same but for its role and status. *)
Definition same_account (u v : User) : Prop :=
  us_ID v = us_ID u ∧ us_Email v = us_Email u ∧ pr_DisplayName (us_Profile v) = pr_DisplayName (us_Profile u) ∧
  pr_CreatedAt (us_Profile v) = pr_CreatedAt (us_Profile u) ∧ us_PasswordHash v = us_PasswordHash u.
Definition operated (role status : string) (u : User) (t : Z) : User :=
  let p := us_Profile u in
  MkUser (MkProfile (pr_ID p) (pr_Email p) (pr_DisplayName p) role status (pr_CreatedAt p)) (us_PasswordHash u) t (us_IdempotentReplay u).

(** An event whose delivery state changes. *)
Definition same_event (e f : AEvent) : Prop :=
  ae_ID f = ae_ID e ∧ ae_EventType f = ae_EventType e ∧ ae_Payload f = ae_Payload e ∧ ae_CreatedAt f = ae_CreatedAt e.

Section machine.
Context {uuid : UuidLib} {lib : AuthLib} {jwt : Jwt} (cost : Z).
Implicit Types (d : ADB) (u : User).

(** A user as signup makes it from checked input. *)
Definition new_user u : Prop :=
  us_Role u = RoleCustomer ∧ us_Status u = UserStatusActive ∧ us_IdempotentReplay u = false ∧
  uuid_parse (us_ID u) = Some (us_ID u) ∧ us_ID u ≠ uuid_nil ∧
  (∃ raw, NormalizeEmail raw = Some (us_Email u)) ∧ valid_name (pr_DisplayName (us_Profile u)) = true ∧
  ∃ salt pw, bcrypt_hash salt cost pw = Some (us_PasswordHash u) ∧ validatePassword pw 8 = true.

Definition payload_for u : option string :=
  payload_json (us_ID u) (us_Email u) (pr_DisplayName (us_Profile u)) RoleCustomer UserStatusActive.

Definition email_free (email : string) d : Prop := ∀ id v, a_users d !! id = Some v → us_Email v ≠ email.

(** The rows of a new account. *)
Definition add_account u (eid payload : string) (t : Z) d : ADB :=
  set_outbox <[eid := MkAEvent eid registered_event payload t None 0 t]> (set_users <[us_ID u := u]> d).
Definition can_add u (eid payload : string) d : Prop :=
  new_user u ∧ a_users d !! us_ID u = None ∧ email_free (us_Email u) d ∧ a_outbox d !! eid = None ∧ payload_for u = Some payload.

Definition new_receipt u (response : string) (t : Z) : Receipt :=
  MkReceipt (signup_digest (us_Email u) (pr_DisplayName (us_Profile u))) (us_PasswordHash u) (Some response) (t + receipt_ttl).

Inductive astep (P : Z → Prop) d : ADB → Prop :=
  | A_account u eid payload t : P t → P (pr_CreatedAt (us_Profile u)) → can_add u eid payload d → astep P d (add_account u eid payload t d)
  | A_signup u eid payload t key response t0 t1 : P t → P (pr_CreatedAt (us_Profile u)) → P t0 → P t1 → can_add u eid payload d →
      (∀ row, a_receipts d !! key = Some row → live t0 row = false) → user_json (us_Profile u) = Some response →
      astep P d (set_receipts <[key := new_receipt u response t1]> (add_account u eid payload t d))
  | A_cleanup ks t : P t → (∀ k row, k ∈ ks → a_receipts d !! k = Some row → live t row = false) →
      astep P d (set_receipts (λ m, foldr delete m ks) d)
  | A_audit r : a_audit d !! au_ID r = None → astep P d (set_audit <[au_ID r := r]> d)
  | A_deliver eid e f : a_outbox d !! eid = Some e → ae_PublishedAt e = None → same_event e f → astep P d (set_outbox <[eid := f]> d)
  | A_operate id u role status t : a_users d !! id = Some u → Role_Valid role = true → UserStatus_Valid status = true →
      astep P d (set_users <[id := operated role status u t]> d).

(** [m] changes the database by such steps only, whatever fails. *)
Definition acts {B} (m : M ASt AErr B) : Prop := ∀ P o w, (∀ n, P (or_clock o n)) → good_ids o →
  rtc (astep P) (as_db (w_db w)) (as_db (w_db (m o w).2)).
(** [m] leaves the database alone. *)
Definition idles {B} (m : M ASt AErr B) : Prop := ∀ o w, as_db (w_db (m o w).2) = as_db (w_db w).

Lemma idles_acts {B} (m : M ASt AErr B) : idles m → acts m.
Proof. intros H P o w _ _. by rewrite H. Qed.
Lemma acts_bind {B C} (m : M ASt AErr B) (f : B → M ASt AErr C) : acts m → (∀ b, acts (f b)) → acts (m ≫= f).
Proof.
  intros Hm Hf P o w HP Hid. unfold mbind, M_bind. specialize (Hm P o w HP Hid). destruct (m o w) as [[e|b] w1]; [done|].
  etrans; [exact Hm|by apply Hf].
Qed.
Lemma acts_try {B} (m : M ASt AErr B) : acts m → acts (try m).
Proof. intros Hm P o w HP Hid. specialize (Hm P o w HP Hid). unfold try. by destruct (m o w). Qed.
Lemma acts_unavailable {B} (m : M ASt AErr B) : acts m → acts (unavailable m).
Proof. intros Hm. apply acts_bind; [by apply acts_try|]. intros [e|b]; by apply idles_acts. Qed.
Lemma idles_read {B} (f : Z → ADB → B) : idles (adb_read f).
Proof. intros o w. unfold adb_read, pool_stmt, on_db. by destruct (or_fault _ _). Qed.
Lemma idles_ret {B} (b : B) : idles (mret b).
Proof. done. Qed.
Lemma idles_throw {B} e : idles (throw e : M ASt AErr B).
Proof. done. Qed.
Lemma idles_compare h pw : idles (comparePassword h pw).
Proof. done. Qed.
Lemma idles_uuid : idles new_uuid.
Proof. done. Qed.
Lemma idles_now : idles go_now.
Proof. done. Qed.
Lemma idles_bind {B C} (m : M ASt AErr B) (f : B → M ASt AErr C) : idles m → (∀ b, idles (f b)) → idles (m ≫= f).
Proof.
  intros Hm Hf o w. unfold mbind, M_bind. specialize (Hm o w). destruct (m o w) as [[e|b] w1]; [done|]. by rewrite Hf.
Qed.
Lemma idles_try {B} (m : M ASt AErr B) : idles m → idles (try m : M ASt AErr _).
Proof. intros Hm o w. specialize (Hm o w). unfold try. by destruct (m o w). Qed.
Lemma acts_write {B} (f : Z → ADB → dberr + (B * ADB)) :
  (∀ P t d b d', P t → f t d = inr (b, d') → rtc (astep P) d d') → acts (adb_write f).
Proof.
  intros Hf P o w HP _. unfold adb_write, pool_stmt, on_db. specialize (Hf P (or_clock o (w_tick w)) (as_db (w_db w))).
  destruct (or_fault _ _) as [e|]; destruct (f _ _) as [?|[b d']]; cbn; try done; [|by eapply Hf].
  destruct (or_landed _ _); [by eapply Hf|done].
Qed.
Lemma acts_transaction {B} (body : M ASt AErr (txend B)) :
  (∀ P o w b w', (∀ n, P (or_clock o n)) → good_ids o → body o w = (inr (Commit b), w') → rtc (astep P) (as_db (w_db w)) (as_db (w_db w'))) →
  acts (transaction body).
Proof.
  intros Hb P o w HP Hid. destruct (transaction body o w) as [r w'] eqn:H. cbn.
  apply transaction_cases in H as [->|(b & w1 & H & _ & ->)]; [done|]. by eapply Hb in H.
Qed.
End machine.

Create HintDb acts.
#[export] Hint Resolve idles_read idles_ret idles_throw idles_compare idles_uuid idles_now idles_try idles_acts acts_try : acts.
Ltac acting :=
  repeat first
    [ solve [eauto with acts]
    | progress cbv beta zeta
    | lazymatch goal with
      | |- acts _ (_ ≫= _) => apply acts_bind; [|intros ?]
      | |- idles (_ ≫= _) => apply idles_bind; [|intros ?]
      | |- acts _ (match ?x with _ => _ end) => destruct x eqn:?
      | |- idles (match ?x with _ => _ end) => destruct x eqn:?
      end ].

(** ** The operations *)

Section operations.
Context {uuid : UuidLib} {lib : AuthLib} {jwt : Jwt} (cost : Z).

Lemma acts_fresh {B} (f : string → M ASt AErr B) : (∀ id, uuid_parse id = Some id → id ≠ uuid_nil → acts cost (f id)) → acts cost (new_uuid ≫= f).
Proof.
  intros Hf P o w HP Hid. destruct (Hid (w_tick w)) as [H1 H2].
  exact (Hf _ H1 H2 P o (World (w_db w) (S (w_tick w)) (w_aborted w) (w_locks w)) HP Hid).
Qed.

Lemma adb_stmt_ok {B} (f : Z → ADB → dberr + (B * ADB)) o w b w' : adb_stmt f o w = (inr b, w') →
  f (or_clock o (w_tick w)) (as_db (w_db w)) = inr (b, as_db (w_db w')).
Proof.
  intros (_ & _ & s & H & ->)%stmt_ok. unfold on_db in H. destruct (f _ _) as [?|[b' d]]; [done|]. by simplify_eq.
Qed.

Lemma unavailable_ok {B} (m : M ASt AErr B) o w b w' : unavailable m o w = (inr b, w') → m o w = (inr b, w').
Proof.
  intros ([e|x] & w1 & H1%try_ok & H)%bind_ok; [done|]. by apply ret_ok in H as [-> ->].
Qed.

Lemma email_taken_free email d : email_taken email d = false → email_free email d.
Proof.
  intros H id v Hv Heq. assert (email_taken email d = true); [|congruence]. apply existsb_exists. exists (id, v).
  split; [by apply list_elem_of_In, elem_of_map_to_list|]. by apply bool_decide_eq_true.
Qed.

Lemma insert_user_ok user t d u d' : insert_user user t d = inr (u, d') →
  u = stored_user user t ∧ a_users d !! us_ID user = None ∧ email_free (us_Email user) d ∧ d' = set_users <[us_ID u := u]> d.
Proof.
  unfold insert_user. destruct (user_checks user); [|done]. cbn. case_bool_decide as Hid; [done|].
  destruct (email_taken _ _) eqn:He; [done|]. intros [= <- <-]. split_and!; [done|by apply eq_None_not_Some|by apply email_taken_free|done].
Qed.

(** Both rows of an account, and when they were written. *)
Lemma insertUserAndOutbox_ok user event o w u w' : insertUserAndOutbox user event o w = (inr u, w') →
  ∃ t t' eid, (∃ n, t = or_clock o n) ∧ (∃ n, t' = or_clock o n) ∧ u = stored_user user t ∧
    a_users (as_db (w_db w)) !! us_ID user = None ∧ email_free (us_Email user) (as_db (w_db w)) ∧
    a_outbox (as_db (w_db w)) !! eid = None ∧
    as_db (w_db w') = set_outbox <[eid := MkAEvent eid (ne_EventType event) (ne_Payload event) t' None 0 t']>
      (set_users <[us_ID user := u]> (as_db (w_db w))).
Proof.
  intros (r & w1 & H1%try_ok & H)%bind_ok. destruct r as [e|u1]; [by destruct e as [| | | | | | | | | | | | | | | | | |[]]|].
  apply adb_stmt_ok in H1 as (-> & Hid & Hem & Hd1)%insert_user_ok.
  apply bind_ok in H as (eid & w2 & Huuid & H). apply bind_ok in H as ([] & w3 & Hev%adb_stmt_ok & [-> ->]%ret_ok).
  assert (as_db (w_db w2) = as_db (w_db w1)) as E2.
  { case_bool_decide; [by apply new_uuid_ok in Huuid as [_ ->]|by apply ret_ok in Huuid as [_ ->]]. }
  rewrite E2, Hd1 in Hev. unfold insert_event in Hev. case_bool_decide as Hfree; [done|]. simplify_eq/=.
  exists (or_clock o (w_tick w)), (or_clock o (w_tick w2)), eid. split_and!; try done; try by eexists.
  by apply eq_None_not_Some.
Qed.

(** A user to be created, and its event. *)
Definition ready (user : User) (event : NewEvent) : Prop :=
  new_user cost user ∧ ne_EventType event = registered_event ∧ payload_for user = Some (ne_Payload event).

Lemma new_user_stored user t : new_user cost user → new_user cost (stored_user user t).
Proof. done. Qed.

Lemma CreateWithOutbox_acts user event : ready user event → acts cost (CreateWithOutbox user event).
Proof.
  intros (Hnew & Hty & Hpay). apply acts_transaction. intros P o w u w' HP _ H.
  apply bind_ok in H as (u' & w1 & H & [[= ->] ->]%ret_ok).
  apply insertUserAndOutbox_ok in H as (t & t' & eid & [n ->] & [n' ->] & -> & Hid & Hem & Hev & ->). rewrite Hty.
  apply rtc_once. apply (A_account cost P _ (stored_user user (or_clock o n)) eid (ne_Payload event) (or_clock o n')); [apply HP..|].
  by split_and!.
Qed.

(** What a signup with a key commits. *)
Lemma signup_commits user event key o w x w' : signup_body user event key (signup_digest (us_Email user) (pr_DisplayName (us_Profile user))) o w = (inr (Commit x), w') →
  ∃ t t' eid t0 t1 response, (∃ n, t = or_clock o n) ∧ (∃ n, t' = or_clock o n) ∧ (∃ n, t0 = or_clock o n) ∧ (∃ n, t1 = or_clock o n) ∧
    a_users (as_db (w_db w)) !! us_ID user = None ∧ email_free (us_Email user) (as_db (w_db w)) ∧ a_outbox (as_db (w_db w)) !! eid = None ∧
    (∀ row, a_receipts (as_db (w_db w)) !! key = Some row → live t0 row = false) ∧
    user_json (us_Profile (stored_user user t)) = Some response ∧
    x = (MkSignupReplay (stored_user user t) (us_PasswordHash user), false) ∧
    as_db (w_db w') = set_receipts <[key := new_receipt (stored_user user t) response t1]>
      (set_outbox <[eid := MkAEvent eid (ne_EventType event) (ne_Payload event) t' None 0 t']>
        (set_users <[us_ID user := stored_user user t]> (as_db (w_db w)))).
Proof.
  intros H. apply bind_ok in H as ([] & w1 & Hdel%unavailable_ok%adb_stmt_ok & H).
  apply bind_ok in H as (ins & w2 & Hclaim%unavailable_ok%adb_stmt_ok & H). unfold claim_receipt in Hclaim. injection Hdel as Hdel.
  case_bool_decide as Hold; injection Hclaim as <- E2; cbn [negb] in H.
  { apply bind_ok in H as ([row|] & w3 & _ & H); [|done]. by destruct (scanSignup _ _). }
  assert (a_receipts (as_db (w_db w)) !! key = None ∧ as_db (w_db w1) = as_db (w_db w) ∨
    (∃ row, a_receipts (as_db (w_db w)) !! key = Some row ∧ live (or_clock o (w_tick w)) row = false ∧
      as_db (w_db w1) = set_receipts (delete key) (as_db (w_db w)))) as Hcase.
  { destruct (a_receipts (as_db (w_db w)) !! key) as [row|] eqn:E; [|by left].
    destruct (live _ row) eqn:El; [|by right; eauto]. destruct Hold. rewrite <-Hdel, E. by eexists. }
  apply bind_ok in H as (u & w3 & Hins & H). destruct (user_json (us_Profile u)) as [response|] eqn:Hjson; [|done].
  apply bind_ok in H as ([] & w4 & Hset%unavailable_ok%adb_stmt_ok & [Hx ->]%ret_ok). injection Hset as E4. injection Hx as ->.
  apply insertUserAndOutbox_ok in Hins as (t & t' & eid & Ht & Ht' & -> & Hid & Hem & Hev & Hd3).
  rewrite Hd3 in E4. rewrite <-E2 in Hid, Hem, Hev, E4. rewrite <-E4.
  exists t, t', eid, (or_clock o (w_tick w)), (or_clock o (w_tick w1)), response.
  destruct Hcase as [[Hn Ed]|(row & Hr & Hl & Ed)]; rewrite Ed in *; (split_and!; [done|done|by eexists|by eexists|done..| | |done| ]); try done.
  - intros row Hrow. congruence.
  - unfold set_receipts, set_outbox, set_users. cbn. by rewrite alter_insert_eq.
  - intros row' Hrow. by simplify_eq.
  - unfold set_receipts, set_outbox, set_users. cbn. by rewrite alter_insert_eq, insert_delete_eq.
Qed.

Lemma CreateSignup_acts user event key : ready user event →
  acts cost (CreateSignup user event key (signup_digest (us_Email user) (pr_DisplayName (us_Profile user)))).
Proof.
  intros (Hnew & Hty & Hpay). apply acts_bind; [apply acts_unavailable, acts_transaction|intros [e|x]; acting].
  intros P o w x w' HP _ H. apply bind_ok in H as (b & w1 & H%try_ok & [Hb ->]%ret_ok).
  destruct b as [e|[y|y]]; cbn in Hb; simplify_eq.
  apply signup_commits in H as (t & t' & eid & t0 & t1 & response & [? ->] & [? ->] & [? ->] & [? ->] & Hid & Hem & Hev & Hrow & Hjson & -> & ->).
  rewrite Hty. apply rtc_once.
  apply (A_signup cost P _ (stored_user user (or_clock o x)) eid (ne_Payload event) (or_clock o x0) key response (or_clock o x1) (or_clock o x2)); try apply HP; done.
Qed.

Lemma verifySignupReplay_idles result password : idles (verifySignupReplay result password).
Proof. apply idles_bind; [done|]. by intros []. Qed.

Lemma create_account_acts s key email displayName password raw : sv_bcryptCost s = cost → NormalizeEmail raw = Some email →
  valid_name displayName = true → validatePassword password 8 = true → acts cost (create_account s key email displayName password).
Proof.
  intros Hcost He Hn Hp. apply acts_bind; [acting|]. intros salt. rewrite Hcost. destruct (bcrypt_hash _ _ _) as [hash|] eqn:Hhash; [|acting].
  apply acts_fresh. intros id Hid Hnil. destruct (payload_json _ _ _ _ _) as [payload|] eqn:Hpay; [|acting].
  apply acts_bind; [acting|]. intros eid.
  set (user := MkUser _ hash zero_time false). set (event := MkNewEvent _ _ _).
  assert (ready user event) as Hready by (split_and!; eauto; split_and!; eauto).
  destruct key as [key|]; [|by apply CreateWithOutbox_acts].
  apply acts_bind; [by apply (CreateSignup_acts user event key)|]. intros [r b]. destruct b; [|acting].
  apply idles_acts, verifySignupReplay_idles.
Qed.

Lemma LookupSignup_idles key fingerprint : idles (LookupSignup key fingerprint).
Proof.
  unfold LookupSignup, unavailable. apply idles_bind; [|intros [row|]; [|acting]].
  - apply idles_bind; [acting|]. intros []; acting.
  - unfold of_scan. destruct (scanSignup _ _); acting.
Qed.

Lemma auth_SignUp_acts s key input : sv_bcryptCost s = cost → acts cost (auth_SignUp s key input).
Proof.
  intros Hcost. unfold auth_SignUp. destruct (NormalizeEmail _) as [email|] eqn:He; [|acting].
  destruct (valid_name _) eqn:Hn; [|acting]. destruct (validatePassword _ _) eqn:Hp; [|acting]. cbn [negb].
  apply acts_bind; [apply idles_acts; destruct key; [apply LookupSignup_idles|acting]|]. intros [c|].
  - apply idles_acts, verifySignupReplay_idles.
  - by eapply create_account_acts.
Qed.

Lemma FindByEmail_idles email : idles (FindByEmail email).
Proof. apply idles_bind; [acting|]. intros []; acting. Qed.

Lemma auth_Login_idles s input : idles (auth_Login s input).
Proof.
  unfold auth_Login. destruct (NormalizeEmail _) as [email|]; [|acting]. destruct (validatePassword _ _); [|acting]. cbn [negb].
  apply idles_bind; [apply idles_try, FindByEmail_idles|]. intros [e|user].
  - destruct e; acting.
  - destruct (bool_decide _); cbn [negb]; [|acting]. apply idles_bind; [done|]. intros []; acting.
    unfold Issue. destruct (_ || _); acting.
Qed.

Lemma GetCurrentUser_idles id : idles (GetCurrentUser id).
Proof.
  apply idles_bind; [apply idles_try, idles_bind; [acting|intros []; acting]|]. intros [[]|]; acting.
Qed.

Lemma expired_keys_spec t d key row : key ∈ expired_keys t d → a_receipts d !! key = Some row → live t row = false.
Proof.
  intros ([k r] & -> & Hin)%list_elem_of_fmap Hrow. apply elem_of_take in Hin as (i & Hin & _). apply list_elem_of_lookup_2 in Hin.
  rewrite merge_sort_Permutation in Hin. apply list_elem_of_filter in Hin as [Hl Hin]. apply elem_of_map_to_list in Hin. cbn in *. by simplify_eq.
Qed.

Lemma CleanupSignupReceipts_acts : acts cost CleanupSignupReceipts.
Proof.
  apply acts_write. intros P t d b d' HP [= <- <-]. apply rtc_once. apply (A_cleanup cost P d _ t); [done|].
  intros k row Hk Hrow. by eapply expired_keys_spec.
Qed.
End operations.
