(* ===== verification/AuthOutbox.v ===== *)
(** Auth service: delivery of committed events ([internal/outbox]).

    [DispatchOne] is one attempt of a worker; its three parts are apart, because
    other workers run between them.  A message is the CloudEvent that leaves the
    service.  What RabbitMQ answers in the course of one attempt is a value. *)

From S2P Require Import Prelude Effects GoStd InvModel FulHandler AuthLimits AuthModel AuthSteps.

(** ** Messages *)

Definition millisecond : Z := 1000000.
Definition RoutingKey : string := registered_event.
Definition EventType : string := "com.gelatoflow.auth.user-registered.v1".

Record CloudEvent := MkCloudEvent {
  ce_SpecVersion : string; ce_ID : string; ce_Source : string; ce_Type : string; ce_Subject : string; ce_Time : Z;
  ce_DataContentType : string; ce_UserID : string; ce_Role : string; ce_Status : string
}.
#[global] Instance CloudEvent_eq_dec : EqDecision CloudEvent.
Proof. solve_decision. Defined.
Record AMessage := MkAMessage { ms_ID : string; ms_CreatedAt : Z; ms_Body : CloudEvent }.
#[global] Instance AMessage_eq_dec : EqDecision AMessage.
Proof. solve_decision. Defined.

(** [json.Marshal] of the body does not fail: it holds texts and a time. *)
Definition MessageFor {lib : AuthLib} (event : AEvent) : option AMessage :=
  if bool_decide (ae_ID event = uuid_nil) || negb (bool_decide (ae_EventType event = RoutingKey)) || is_zero_time (ae_CreatedAt event)
     || bool_decide (64 * 1024 < Z.of_nat (String.length (ae_Payload event)))
  then None
  else match payload_of (ae_Payload event) with
  | None => None
  | Some (user_id, role, status) =>
      if bool_decide (user_id = uuid_nil) || negb (Role_Valid role) || negb (UserStatus_Valid status) then None
      else Some (MkAMessage (ae_ID event) (ae_CreatedAt event)
        (MkCloudEvent "1.0" (ae_ID event) "urn:gelatoflow:auth-service" EventType ("users/" +:+ user_id) (ae_CreatedAt event)
          "application/json" user_id role status))
  end.

(** ** One attempt on RabbitMQ *)

Inductive Returned := NotReturned | WasReturned | ReturnsClosed.
#[global] Instance Returned_eq_dec : EqDecision Returned.
Proof. solve_decision. Defined.
(** Whether each call succeeds, the confirmation ([None] if waiting for it
    failed), and what the channel of returned messages holds after it. *)
Record BrokerRun := MkBrokerRun {
  br_insecure : bool; br_dial : bool; br_channel : bool; br_exchange : bool; br_confirm : bool; br_publish : bool;
  br_ack : option bool; br_returns : Returned
}.
Definition Rabbit_Publish (r : BrokerRun) : option AErr :=
  if br_insecure r then Some APublish
  else if negb (br_dial r) then Some APublish
  else if negb (br_channel r) then Some APublish
  else if negb (br_exchange r) then Some APublish
  else if negb (br_confirm r) then Some APublish
  else if negb (br_publish r) then Some APublish
  else if negb (bool_decide (br_ack r = Some true)) then Some APublish
  else match br_returns r with
  | WasReturned => Some AUnroutable
  | ReturnsClosed => Some APublish
  | NotReturned => None
  end.

(** The broker took the message and had a queue for it. *)
Definition delivered (r : BrokerRun) : Prop := br_publish r = true ∧ br_ack r = Some true ∧ br_returns r = NotReturned.

(** ** The worker *)

Definition retryDelay (attempt : Z) : Z := Z.min (2 ^ Z.min (Z.max (attempt - 1) 0) 9 * second) (5 * minute).

(** [Milliseconds], and back to an interval of PostgreSQL. *)
Definition in_millis (d : Z) : Z := d `quot` millisecond * millisecond.

Definition due (t : Z) (e : AEvent) : bool := bool_decide (ae_PublishedAt e = None) && bool_decide (ae_NextAttemptAt e ≤ t).
(** Rows with their primary keys, in the order of the claiming statement. *)
Definition sooner (x y : string * AEvent) : Prop :=
  let '(i, e) := x in let '(j, f) := y in
  ae_NextAttemptAt e < ae_NextAttemptAt f ∨
  (ae_NextAttemptAt e = ae_NextAttemptAt f ∧
    (ae_CreatedAt e < ae_CreatedAt f ∨ (ae_CreatedAt e = ae_CreatedAt f ∧ String.le i j))).
#[global] Instance sooner_dec x y : Decision (sooner x y).
Proof. destruct x, y. unfold sooner. solve_decision. Defined.

Definition due_events (t : Z) (d : ADB) : list (string * AEvent) :=
  merge_sort sooner (filter (λ x, due t x.2 = true) (map_to_list (a_outbox d))).

Definition leased (timeout t : Z) (e : AEvent) : AEvent :=
  MkAEvent (ae_ID e) (ae_EventType e) (ae_Payload e) (ae_CreatedAt e) (ae_PublishedAt e) (ae_Attempts e + 1)
    (t + in_millis (timeout + 10 * second)).

(** The claiming UPDATE: the row it returns, if any. *)
Definition claim_event (timeout : Z) (t : Z) (d : ADB) : dberr + (option AEvent * ADB) :=
  match due_events t d with
  | [] => inr (None, d)
  | (id, e) :: _ =>
      if bool_decide (MaxInt32 < ae_Attempts e + 1) then inl (DbPg "22003")
      else inr (Some (leased timeout t e), set_outbox <[id := leased timeout t e]> d)
  end.

Definition finished (ok : bool) (attempts t : Z) (e : AEvent) : AEvent :=
  MkAEvent (ae_ID e) (ae_EventType e) (ae_Payload e) (ae_CreatedAt e) (if ok then Some t else None) (ae_Attempts e)
    (t + in_millis (retryDelay attempts)).

(** The finishing UPDATE: how many rows it changed. *)
Definition finish_event (event : AEvent) (ok : bool) (t : Z) (d : ADB) : dberr + (Z * ADB) :=
  match a_outbox d !! ae_ID event with
  | Some e =>
      if bool_decide (ae_Attempts e = ae_Attempts event) && bool_decide (ae_PublishedAt e = None)
      then inr (1, set_outbox <[ae_ID event := finished ok (ae_Attempts event) t e]> d)
      else inr (0, d)
  | None => inr (0, d)
  end.

Section worker.
Context {uuid : UuidLib} {lib : AuthLib} (timeout : Z) (publish : AMessage → M ASt AErr (option AErr)).

(** Whether there was an event, and the error. *)
Definition DispatchOne : M ASt AErr (bool * option AErr) :=
  claimed ← try (adb_write (claim_event timeout));
  match claimed with
  | inl _ => mret (false, Some AStore)
  | inr None => mret (false, None)
  | inr (Some event) =>
      publishErr ← match MessageFor event with None => mret (Some AInvalidEvent) | Some message => publish message end;
      done ← try (adb_write (finish_event event (bool_decide (publishErr = None))));
      match done with
      | inl _ => mret (true, Some AStore)
      | inr n => if negb (bool_decide (n = 1)) then mret (true, Some AClaimLost) else mret (true, publishErr)
      end
  end.
End worker.

(** What is logged of an error. *)
Definition Category (e : AErr) : string :=
  match e with
  | AStore => "storage_unavailable"
  | AInvalidEvent => "invalid_event"
  | AUnroutable => "unroutable"
  | AClaimLost => "claim_superseded"
  | _ => "delivery_unconfirmed"
  end.

(** ** Its steps *)

Section steps.
Context {uuid : UuidLib} {lib : AuthLib} {jwt : Jwt} (cost : Z).

Lemma due_events_spec t d id e : (id, e) ∈ due_events t d ↔ a_outbox d !! id = Some e ∧ due t e = true.
Proof. unfold due_events. rewrite merge_sort_Permutation, list_elem_of_filter, elem_of_map_to_list. cbn. tauto. Qed.

Lemma claim_event_ok timeout t d r d' : claim_event timeout t d = inr (r, d') →
  (r = None ∧ d' = d ∧ due_events t d = []) ∨
  ∃ id e, head (due_events t d) = Some (id, e) ∧ a_outbox d !! id = Some e ∧ due t e = true ∧ r = Some (leased timeout t e) ∧
    d' = set_outbox <[id := leased timeout t e]> d.
Proof.
  unfold claim_event. destruct (due_events t d) as [|[id e] l] eqn:E; [intros [= <- <-]; by left|].
  case_bool_decide; [done|]. intros [= <- <-]. right. exists id, e.
  destruct (proj1 (due_events_spec t d id e)) as [H1 H2]; [rewrite E; by left|]. by split_and!.
Qed.

Lemma due_pending t e : due t e = true → ae_PublishedAt e = None ∧ ae_NextAttemptAt e ≤ t.
Proof. unfold due. by intros [H1%bool_decide_eq_true H2%bool_decide_eq_true]%andb_true_iff. Qed.

Lemma finish_event_ok event ok t d n d' : finish_event event ok t d = inr (n, d') →
  (n = 0 ∧ d' = d ∧ ∀ e, a_outbox d !! ae_ID event = Some e → ae_Attempts e ≠ ae_Attempts event ∨ ae_PublishedAt e ≠ None) ∨
  ∃ e, n = 1 ∧ a_outbox d !! ae_ID event = Some e ∧ ae_Attempts e = ae_Attempts event ∧ ae_PublishedAt e = None ∧
    d' = set_outbox <[ae_ID event := finished ok (ae_Attempts event) t e]> d.
Proof.
  unfold finish_event. destruct (a_outbox d !! _) as [e|] eqn:E; [|intros [= <- <-]; left; by split_and!].
  destruct (bool_decide _ && _) eqn:Hb; intros [= <- <-].
  - apply andb_true_iff in Hb as [H1%bool_decide_eq_true H2%bool_decide_eq_true]. right. by exists e.
  - left. split_and!; try done. intros f [= <-]. apply andb_false_iff in Hb as [H%bool_decide_eq_false|H%bool_decide_eq_false]; auto.
Qed.

Lemma finish_event_acts event ok : acts cost (adb_write (finish_event event ok)).
Proof.
  apply acts_write. intros P t d n d' _ [(-> & -> & _)|(e & -> & He & _ & Hp & ->)]%finish_event_ok; [done|].
  apply rtc_once. by eapply A_deliver.
Qed.

Lemma claim_event_acts timeout : acts cost (adb_write (claim_event timeout)).
Proof.
  apply acts_write. intros P t d n d' _ [(-> & -> & _)|(id & e & _ & He & [Hp _]%due_pending & -> & ->)]%claim_event_ok; [done|].
  apply rtc_once. by eapply A_deliver.
Qed.

Lemma DispatchOne_acts timeout publish : (∀ m, idles (publish m)) → acts cost (DispatchOne timeout publish).
Proof.
  intros Hp. apply acts_bind; [apply acts_try, claim_event_acts|]. intros [e|[event|]]; [acting| |acting].
  apply acts_bind; [destruct (MessageFor event); [apply idles_acts, Hp|acting]|]. intros err.
  apply acts_bind; [apply acts_try, finish_event_acts|]. intros [e|n]; acting.
Qed.
End steps.
