(* ===== verification/AuthHandler.v ===== *)
(** Auth service: the audit log ([internal/audit]), the middleware
    ([internal/middleware]), the handlers ([internal/handler]) and the routes
    ([internal/router]).

    A request carries the values of the headers that are looked at.  The JSON
    tokenizer and the parser of media types are parameters; a response is its
    status with a code or the value it carries. *)

From S2P Require Import Prelude Effects GoStd InvModel FulHandler FulModel CatJson AuthLimits AuthModel.

Class HttpLib := {
  (** what [json.Decoder] reads *)
  http_tokens : string → JTokens;
  (** [mime.ParseMediaType]: the media type and its charset parameter, empty if
      there is none *)
  parse_media_type : string → option (string * string)
}.

Record ARequest := MkARequest {
  rq_peer : string; rq_agent : string; rq_types : list string; rq_encodings : list string; rq_auth : list string; rq_keys : list string;
  rq_body : string
}.

Inductive AResp :=
  | AFail (status : Z) (code : string)
  | ALimited (retry : Z)
  | ACreated (p : Profile) (replayed : bool)
  | ALoggedIn (token kind : string) (expires_in : Z) (p : Profile)
  | AMe (p : Profile)
  | AHealthy.
#[global] Instance AResp_eq_dec : EqDecision AResp.
Proof. solve_decision. Defined.

Inductive ARoute := RHealth | RSignUp (r : ARequest) | RLogin (r : ARequest) | RMe (r : ARequest).

(** ** Credentials in a body *)

(** The members of the object, after its opening brace. *)
Fixpoint credential_loop (required : list string) (fields : gmap string string) (ts : list JTok) : option (gmap string string * list JTok) :=
  match ts with
  | TEndObj :: rest => Some (fields, rest)
  | TStr key :: TStr value :: ts =>
      if negb (bool_decide (key ∈ required)) || bool_decide (is_Some (fields !! key)) then None
      else credential_loop required (<[key := value]> fields) ts
  | _ => None
  end.

Definition decodeCredentials {http : HttpLib} (body : string) (required : list string) : option (gmap string string) :=
  if negb (utf8_valid body) then None
  else match http_tokens body with
  | MkJTokens (TObj :: ts) eof =>
      match credential_loop required ∅ ts with
      | Some (fields, rest) =>
          if negb (bool_decide (size fields = length required)) || negb (bool_decide (rest = [])) || negb eof then None else Some fields
      | None => None
      end
  | _ => None
  end.

(** ** Audit records *)

Definition EventUserRegistered : string := "USER_REGISTERED".
Definition EventLoginSuccess : string := "LOGIN_SUCCESS".
Definition EventLoginFailed : string := "LOGIN_FAILED".
Definition EventLoginError : string := "LOGIN_ERROR".

Definition replacement : Z * list Z := (RuneError, [0xEF; 0xBF; 0xBD]).

(** [strings.ToValidUTF8]: one replacement for a run of bad bytes. *)
Fixpoint to_valid (in_run : bool) (l : list (Z * list Z)) : list (Z * list Z) :=
  match l with
  | [] => []
  | p :: l => if bad_rune p then if in_run then to_valid true l else replacement :: to_valid true l else p :: to_valid false l
  end.
Definition text_of (l : list (Z * list Z)) : string := of_bytes (mjoin (snd <$> l)).

Definition MaxAgent : Z := 512.
(** The three corrections of the user agent, each marked in the metadata. *)
Definition fix_utf8 (x : string * gmap string MetaVal) : string * gmap string MetaVal :=
  let '(agent, meta) := x in
  if negb (utf8_valid agent) then (text_of (to_valid false (runes agent)), <["user_agent_invalid_utf8" := MFlag true]> meta) else x.
Definition fix_nul (x : string * gmap string MetaVal) : string * gmap string MetaVal :=
  let '(agent, meta) := x in
  if contains_nul agent then (of_bytes (bytes agent ≫= λ b, if b =? 0 then replacement.2 else [b]), <["user_agent_sanitized" := MFlag true]> meta) else x.
Definition fix_length (x : string * gmap string MetaVal) : string * gmap string MetaVal :=
  let '(agent, meta) := x in
  if bool_decide (MaxAgent < rune_count agent) then
    (text_of (take (Z.to_nat MaxAgent) (runes agent)),
     <["user_agent_original_characters" := MNum (rune_count agent)]> (<["user_agent_truncated" := MFlag true]> meta))
  else x.
Definition normalizeRecord (r : AuditRecord) : AuditRecord :=
  let '(agent, meta) := fix_length (fix_nul (fix_utf8 (au_UserAgent r, au_Metadata r))) in
  MkAuditRecord (au_ID r) (au_EventType r) (au_UserID r) (au_IPAddress r) agent meta (au_CreatedAt r).

Definition auditWriteTimeout : Z := 500000000.
(** [deadline] is the one of the request. *)
Definition auditWriteBudget (deadline now : Z) : Z :=
  let remaining := deadline - now in
  if bool_decide (now < deadline) then
    if bool_decide (30 * second < remaining) then 30 * second
    else if bool_decide (auditWriteTimeout < remaining) then remaining else auditWriteTimeout
  else auditWriteTimeout.

Section audit.
Context {conn : PgConn}.
Abbreviation A := (M ASt AErr).

(** [DbUnique] is code 23505; a network error is one that can time out, one
    that the driver calls safe to retry, or a closed connection. *)
Definition retryableAuditError (e : AErr) : bool :=
  match e with
  | ADbErr (DbPg code) => bool_decide (code ∈ ["40001"; "40P01"; "57P01"; "57P02"; "57P03"]) || has_prefix "08" code
  | ADbErr (DbUnique _) => false
  | ADbErr DbNet => true
  | ADbErr e => pg_Timeout e || pg_SafeToRetry e
  | _ => false
  end.

(** [INSERT ... ON CONFLICT(id) DO NOTHING]: whether a row was inserted.  Text
    has to fit its column. *)
Definition insert_audit (r : AuditRecord) (_ : Z) (d : ADB) : dberr + (bool * ADB) :=
  if bool_decide (MaxAgent < rune_count (au_UserAgent r)) || bool_decide (45 < rune_count (au_IPAddress r)) then inl (DbPg "22001")
  else if contains_nul (au_UserAgent r) || negb (utf8_valid (au_UserAgent r)) then inl (DbPg "22021")
  else if bool_decide (is_Some (a_audit d !! au_ID r)) then inr (false, d)
  else inr (true, set_audit <[au_ID r := r]> d).

Definition audit_insert (r : AuditRecord) : A unit :=
  inserted ← adb_write (insert_audit r);
  if (inserted : bool) then mret tt
  else
    same ← adb_read (λ _ d, bool_decide (a_audit d !! au_ID r = Some r));
    if (same : bool) then mret tt else throw AAuditConflict.

(** [n] attempts are left; [until] is the end of the budget. *)
Fixpoint retryAuditWrite (n : nat) (until : Z) (write : A unit) : A unit :=
  match n with
  | O => mret tt
  | S n =>
      r ← try write;
      now ← go_now;
      match r with
      | inr _ => mret tt
      | inl e =>
          if negb (retryableAuditError e) || bool_decide (until ≤ now) || bool_decide (n = O) then throw e
          else
            now ← go_now;
            if bool_decide (until ≤ now) then throw (ADbErr DbDeadline) else retryAuditWrite n until write
      end
  end.

Definition audit_attempts : nat := 3.
(** The records come without an id and a time. *)
Definition audit_Log (deadline : Z) (event_type : string) (user_id : option string) (ip agent : string) (meta : gmap string MetaVal) : A unit :=
  id ← new_uuid;
  created ← go_now;
  let r := normalizeRecord (MkAuditRecord id event_type user_id ip agent meta (truncate created 1000)) in
  now ← go_now;
  retryAuditWrite audit_attempts (now + auditWriteBudget deadline now) (audit_insert r).
End audit.

(** ** Middleware and handlers *)

Definition CredentialBodyLimit : Z := 16 * 1024.

Definition RequireCredentialJSON {http : HttpLib} (r : ARequest) : option AResp :=
  let encoding := trim_space (default "" (head (rq_encodings r))) in
  let typed := match parse_media_type (default "" (head (rq_types r))) with
               | Some (media, charset) => bool_decide (media = "application/json") && (bool_decide (charset = "") || equal_fold charset "utf-8")
               | None => false
               end in
  if negb (bool_decide (length (rq_types r) = 1%nat)) || negb typed || bool_decide (1 < length (rq_encodings r))%nat
     || (negb (bool_decide (encoding = "")) && negb (equal_fold encoding "identity"))
  then Some (AFail 415 "UNSUPPORTED_MEDIA_TYPE")
  else if bool_decide (CredentialBodyLimit < Z.of_nat (String.length (rq_body r))) then Some (AFail 413 "REQUEST_TOO_LARGE")
  else None.

(** No header is no key; anything but one UUID is refused. *)
Definition bindSignupKey {uuid : UuidLib} (keys : list string) : option (option string) :=
  match keys with
  | [] => Some None
  | [raw] =>
      match uuid_parse (trim_space raw) with
      | Some key => if bool_decide (key = uuid_nil) then None else Some (Some key)
      | None => None
      end
  | _ => None
  end.

Definition auth_handleServiceError (e : AErr) : AResp :=
  match e with
  | AIdemConflict => AFail 409 "IDEMPOTENCY_CONFLICT"
  | AIdemUnavailable => AFail 503 "IDEMPOTENCY_UNAVAILABLE"
  | AInvalidInput _ => AFail 400 "INVALID_INPUT"
  | AEmailAlreadyExists => AFail 409 "EMAIL_ALREADY_EXISTS"
  | _ => AFail 500 "INTERNAL_ERROR"
  end.
Definition invalidCredentials : AResp := AFail 401 "INVALID_CREDENTIALS".
Definition auth_unauthorized : AResp := AFail 401 "UNAUTHORIZED".

Section handler.
Context {uuid : UuidLib} {lib : AuthLib} {jwt : Jwt} {http : HttpLib} {conn : PgConn}.
Context (s : AuthService).
Abbreviation A := (M ASt AErr).

(** An operation on a limiter, at the time it reads. *)
Definition with_limiter {B} (f : Z → CredentialLimiter → B * CredentialLimiter) : A B := λ o w,
  let st := w_db w in
  let '(b, l) := f (or_clock o (w_tick w)) (as_limiter st) in
  (inr b, World (MkASt (as_db st) (as_compares st) l (as_failures st)) (S (w_tick w)) (w_aborted w) (w_locks w)).
Definition with_failures {B} (f : Z → RateLimiter → B * RateLimiter) : A B := λ o w,
  let st := w_db w in
  let '(b, l) := f (or_clock o (w_tick w)) (as_failures st) in
  (inr b, World (MkASt (as_db st) (as_compares st) (as_limiter st) l) (S (w_tick w)) (w_aborted w) (w_locks w)).

Definition is_blocked (email : string) : A (bool * Z) := with_failures (IsBlocked lower_text email).
Definition record_failure (email : string) : A unit := with_failures (λ t l, (tt, RecordFailure lower_text email t l)).
Definition reset_failures (email : string) : A unit := with_failures (λ _ l, (tt, Reset lower_text email l)).
Definition acquire (email : string) : A (option Z) := with_limiter (Acquire email).
Definition release : A unit := with_limiter (λ _ l, (tt, release_slot l)).

(** [reportAuditFailure]: the write is best effort. *)
Definition report (m : A unit) : A unit := try m ≫= λ _ : AErr + unit, mret tt.

Definition field (key : string) (fields : gmap string string) : string := default "" (fields !! key).

(** Between a slot and its release. *)
Definition slotted (email : string) (work : A AResp) : A AResp :=
  blocked ← is_blocked email;
  if (blocked : bool * Z).1 then mret (ALimited blocked.2)
  else
    slot ← acquire email;
    match slot with
    | Some retry => mret (ALimited retry)
    | None => resp ← work; release ;; mret resp
    end.

Definition signup_work (r : ARequest) (deadline : Z) (email : string) (fields : gmap string string) : A AResp :=
  match bindSignupKey (rq_keys r) with
  | None => mret (AFail 400 "INVALID_IDEMPOTENCY_KEY")
  | Some key =>
      res ← try (auth_SignUp s key (MkSignUpInput email (field "password" fields) (field "display_name" fields)));
      match res with
      | inl e => mret (auth_handleServiceError e)
      | inr user =>
          (if us_IdempotentReplay user then mret tt
           else
             reset_failures email ;;
             report (audit_Log deadline EventUserRegistered (Some (us_ID user)) (rq_peer r) (rq_agent r)
               (<["email" := MText (us_Email user)]> (<["display_name" := MText (pr_DisplayName (us_Profile user))]>
                 (<["role" := MText (us_Role user)]> ∅))))) ;;
          mret (ACreated (us_Profile user) (us_IdempotentReplay user))
      end
  end.

Definition h_SignUp (r : ARequest) (deadline : Z) : A AResp :=
  match decodeCredentials (rq_body r) ["email"; "password"; "display_name"] with
  | None => mret (AFail 400 "INVALID_REQUEST")
  | Some fields =>
      match NormalizeEmail (field "email" fields) with
      | None => mret (AFail 400 "INVALID_INPUT")
      | Some email => slotted email (signup_work r deadline email fields)
      end
  end.

Definition failed_meta (email reason : string) : gmap string MetaVal := <["email" := MText email]> (<["reason" := MText reason]> ∅).

Definition login_work (r : ARequest) (deadline : Z) (email : string) (fields : gmap string string) : A AResp :=
  res ← try (auth_Login s (MkLoginInput email (field "password" fields)));
  match res with
  | inl AInvalidCredentials =>
      record_failure email ;;
      report (audit_Log deadline EventLoginFailed None (rq_peer r) (rq_agent r) (failed_meta email "invalid_credentials")) ;;
      mret invalidCredentials
  | inl e =>
      report (audit_Log deadline EventLoginError None (rq_peer r) (rq_agent r) (<["reason" := MText "authentication_service_unavailable"]> ∅)) ;;
      mret (auth_handleServiceError e)
  | inr result =>
      reset_failures email ;;
      report (audit_Log deadline EventLoginSuccess (Some (us_ID (ar_User result))) (rq_peer r) (rq_agent r)
        (<["email" := MText (us_Email (ar_User result))]> (<["role" := MText (us_Role (ar_User result))]> ∅))) ;;
      mret (ALoggedIn (ar_AccessToken result) (ar_TokenType result) (ar_ExpiresIn result) (us_Profile (ar_User result)))
  end.

Definition h_Login (r : ARequest) (deadline : Z) : A AResp :=
  match decodeCredentials (rq_body r) ["email"; "password"] with
  | None => mret (AFail 400 "INVALID_REQUEST")
  | Some fields =>
      match NormalizeEmail (field "email" fields) with
      | None =>
          report (audit_Log deadline EventLoginFailed None (rq_peer r) (rq_agent r) (failed_meta "" "invalid_email_format")) ;;
          mret invalidCredentials
      | Some email => slotted email (login_work r deadline email fields)
      end
  end.

(** The claims of the only Authorization header. *)
Definition RequireAccessToken (auth : list string) : option Claims :=
  match auth with
  | [header] =>
      match fields header with
      | [scheme; raw] => if equal_fold scheme "Bearer" then auth_Parse (sv_tokens s) raw else None
      | _ => None
      end
  | _ => None
  end.

Definition h_Me (subject : string) : A AResp :=
  match uuid_parse subject with
  | None => mret auth_unauthorized
  | Some id =>
      res ← try (GetCurrentUser id);
      match res with
      | inl AUnauthorized => mret auth_unauthorized
      | inl e => mret (auth_handleServiceError e)
      | inr user => mret (AMe (us_Profile user))
      end
  end.

(** [limiter.Handle] and [RequireCredentialJSON] before a handler. *)
Definition credential_route (timeout : Z) (r : ARequest) (next : ARequest → Z → A AResp) : A AResp :=
  start ← go_now;
  admitted ← with_limiter (limiter_Handle (rq_peer r));
  if negb (admitted : bool * Z).1 then mret (ALimited admitted.2)
  else match RequireCredentialJSON r with
  | Some resp => mret resp
  | None => next r (start + timeout)
  end.

Definition auth_serve (timeout : Z) (route : ARoute) : A AResp :=
  match route with
  | RHealth => ping ← try (adb_read (λ _ _, tt)); match ping with inl _ => mret (AFail 503 "unavailable") | inr _ => mret AHealthy end
  | RSignUp r => credential_route timeout r h_SignUp
  | RLogin r => credential_route timeout r h_Login
  | RMe r => match RequireAccessToken (rq_auth r) with None => mret auth_unauthorized | Some claims => h_Me (cl_Subject claims) end
  end.
End handler.
