(* ===== verification/AuthInv.v ===== *)
(** Auth service: what holds in every reachable database, however requests, the
    workers and operators interleave and whatever fails. *)

From S2P Require Import Prelude Effects GoStd InvModel FulHandler FulModel CatJson AuthLimits AuthModel AuthSteps AuthOutbox AuthHandler.

(** ** Every request takes steps of the machine *)

Section acts.
Context {uuid : UuidLib} {lib : AuthLib} {jwt : Jwt} {http : HttpLib} {conn : PgConn} (s : AuthService).

Lemma with_limiter_idles {B} (f : Z → CredentialLimiter → B * CredentialLimiter) : idles (with_limiter f).
Proof. intros o w. unfold with_limiter. by destruct (f _ _). Qed.
Lemma with_failures_idles {B} (f : Z → RateLimiter → B * RateLimiter) : idles (with_failures f).
Proof. intros o w. unfold with_failures. by destruct (f _ _). Qed.

Lemma audit_insert_acts cost r : acts cost (audit_insert r).
Proof.
  apply acts_bind; [|intros []; acting]. apply acts_write. intros P t d b d' _. unfold insert_audit.
  destruct (_ || _); [done|]. destruct (_ || _); [done|]. case_bool_decide as H; intros [= <- <-]; [done|].
  apply rtc_once, A_audit. by apply eq_None_not_Some.
Qed.
Lemma retryAuditWrite_acts cost n until write : acts cost write → acts cost (retryAuditWrite n until write).
Proof. intros Hw. induction n as [|n IH]; cbn; acting. Qed.
Lemma audit_Log_acts cost deadline ty uid ip agent meta : acts cost (audit_Log deadline ty uid ip agent meta).
Proof. unfold audit_Log. acting. apply retryAuditWrite_acts, audit_insert_acts. Qed.
Lemma report_acts cost deadline ty uid ip agent meta : acts cost (report (audit_Log deadline ty uid ip agent meta)).
Proof. apply acts_bind; [apply acts_try, audit_Log_acts|acting]. Qed.

Lemma slotted_acts cost email work : acts cost work → acts cost (slotted email work).
Proof.
  intros Hw. apply acts_bind; [apply idles_acts, with_failures_idles|]. intros [[] retry]; [acting|].
  apply acts_bind; [apply idles_acts, with_limiter_idles|]. intros [r|]; [acting|].
  apply acts_bind; [done|]. intros resp. apply acts_bind; [apply idles_acts, with_limiter_idles|acting].
Qed.

Lemma h_SignUp_acts r deadline : acts (sv_bcryptCost s) (h_SignUp s r deadline).
Proof.
  unfold h_SignUp. destruct (decodeCredentials _ _) as [fields|]; [|acting]. destruct (NormalizeEmail _) as [email|]; [|acting].
  apply slotted_acts. unfold signup_work. destruct (bindSignupKey _) as [key|]; [|acting].
  apply acts_bind; [by apply acts_try, auth_SignUp_acts|]. intros [e|user]; [acting|]. apply acts_bind; [|acting].
  destruct (us_IdempotentReplay user); [acting|]. apply acts_bind; [apply idles_acts, with_failures_idles|]. intros _. apply report_acts.
Qed.

Lemma h_Login_acts cost r deadline : acts cost (h_Login s r deadline).
Proof.
  unfold h_Login. destruct (decodeCredentials _ _) as [fields|]; [|acting].
  destruct (NormalizeEmail _) as [email|]; [|apply acts_bind; [apply report_acts|acting]].
  apply slotted_acts. apply acts_bind; [apply idles_acts, idles_try, auth_Login_idles|].
  intros [e|result]; [destruct e|]; repeat (apply acts_bind; [first [apply report_acts|apply idles_acts, with_failures_idles]|intros ?]); acting.
Qed.

Lemma auth_serve_acts timeout route : acts (sv_bcryptCost s) (auth_serve s timeout route).
Proof.
  assert (∀ r next, (∀ d, acts (sv_bcryptCost s) (next r d)) → acts (sv_bcryptCost s) (credential_route timeout r next)) as Hroute.
  { intros r next Hnext. apply acts_bind; [acting|]. intros start. apply acts_bind; [apply idles_acts, with_limiter_idles|].
    intros [[] retry]; [|acting]. cbn [negb fst]. destruct (RequireCredentialJSON r); acting. }
  destruct route as [|r|r|r]; cbn.
  - acting.
  - apply Hroute. intros d. apply h_SignUp_acts.
  - apply Hroute. intros d. apply h_Login_acts.
  - destruct (RequireAccessToken _ _) as [claims|]; [|acting]. unfold h_Me. destruct (uuid_parse _) as [id|]; [|acting].
    apply acts_bind; [apply idles_acts, idles_try, GetCurrentUser_idles|]. intros [[]|]; acting.
Qed.
End acts.

(** ** The invariant *)

Section inv.
Context {uuid : UuidLib} {lib : AuthLib} {laws : AuthLaws lib} (cost : Z).
Implicit Types (d : ADB) (u v : User) (e : AEvent).

(** An account as the table may hold it. *)
Definition account_ok u : Prop :=
  Role_Valid (us_Role u) = true ∧ UserStatus_Valid (us_Status u) = true ∧
  uuid_parse (us_ID u) = Some (us_ID u) ∧ us_ID u ≠ uuid_nil ∧
  (∃ raw, NormalizeEmail raw = Some (us_Email u)) ∧ valid_name (pr_DisplayName (us_Profile u)) = true ∧
  ∃ salt pw, bcrypt_hash salt cost pw = Some (us_PasswordHash u) ∧ validatePassword pw 8 = true.

(** The event that announces a user, and the receipt of its signup. *)
Definition announces u e : Prop := payload_for u = Some (ae_Payload e).
Definition receipt_of v (r : Receipt) : Prop := ∃ u response t, new_user cost u ∧ same_account u v ∧ user_json (us_Profile u) = Some response ∧ r = new_receipt u response t.

(** No two events announce the same user. *)
Definition announced_once d : Prop := ∀ i j e f id u, a_outbox d !! i = Some e → a_outbox d !! j = Some f →
  a_users d !! id = Some u → announces u e → announces u f → i = j.

Record AInv d : Prop := {
  ai_users : ∀ id u, a_users d !! id = Some u → us_ID u = id ∧ account_ok u;
  ai_emails : ∀ i j u v, a_users d !! i = Some u → a_users d !! j = Some v → us_Email u = us_Email v → i = j;
  ai_events : ∀ eid e, a_outbox d !! eid = Some e → ae_ID e = eid ∧ ae_EventType e = registered_event ∧ ∃ id u, a_users d !! id = Some u ∧ announces u e;
  ai_announced : ∀ id u, a_users d !! id = Some u → ∃ eid e, a_outbox d !! eid = Some e ∧ announces u e;
  ai_once : announced_once d;
  ai_receipts : ∀ key r, a_receipts d !! key = Some r → ∃ id v, a_users d !! id = Some v ∧ receipt_of v r
}.

Lemma normal_email_valid raw email : NormalizeEmail raw = Some email → utf8_valid email = true.
Proof using laws.
  unfold NormalizeEmail. destruct (_ || _); [done|]. destruct (parse_address _) as [[name addr]|] eqn:Hp; [|done].
  destruct (bool_decide _ && _) eqn:Hb; [|done]. apply andb_true_iff in Hb as [->%bool_decide_eq_true ->%bool_decide_eq_true].
  intros [= <-]. by eapply al_address.
Qed.

Lemma valid_name_utf8 n : valid_name n = true → utf8_valid n = true.
Proof. unfold valid_name. rewrite !andb_true_iff. tauto. Qed.

Lemma announces_id u e : account_ok u → announces u e → payload_of (ae_Payload e) = Some (us_ID u, RoleCustomer, UserStatusActive).
Proof using laws.
  intros (_ & _ & Hid & _ & [raw Hraw] & Hn & _) H. eapply al_payload; try exact H; try done.
  - by eapply normal_email_valid.
  - by apply valid_name_utf8.
Qed.

Lemma new_user_ok u : new_user cost u → account_ok u.
Proof. intros (Hr & Hs & _ & H1 & H2 & H3 & H4 & H5). unfold account_ok. rewrite Hr, Hs. by split_and!. Qed.

Lemma same_account_announces u v e : same_account u v → announces u e ↔ announces v e.
Proof. intros (H1 & H2 & H3 & _). unfold announces, payload_for. by rewrite H1, H2, H3. Qed.
Lemma same_account_trans u v x : same_account u v → same_account v x → same_account u x.
Proof. intros (H1 & H2 & H3 & H4 & H5) (E1 & E2 & E3 & E4 & E5). unfold same_account. by rewrite E1, E2, E3, E4, E5. Qed.
Lemma operated_same role status u t : same_account u (operated role status u t).
Proof. done. Qed.
Lemma receipt_of_operated role status v t r : receipt_of v r → receipt_of (operated role status v t) r.
Proof. intros (u & resp & t' & Hn & Hs & Hj & ->). exists u, resp, t'. done. Qed.

Lemma empty_ainv : AInv empty_adb.
Proof. split; intros *; rewrite ?lookup_empty; done. Qed.

(** An event that announces two accounts announces one. *)
Lemma announces_same u v e : account_ok u → account_ok v → announces u e → announces v e → us_ID u = us_ID v.
Proof using laws. intros Hu Hv H1%announces_id H2%announces_id; [|done..]. congruence. Qed.

Lemma add_account_once u eid payload t d : AInv d → can_add cost u eid payload d → announced_once (add_account u eid payload t d).
Proof using laws.
  intros [Hu He Hev Han Honce Hrc] (Hnew%new_user_ok & Hid & Hem & Hfree & Hpay) i j e f id x Hi Hj Hx Hae Haf. cbn in *.
  assert (∀ k g v, a_outbox d !! k = Some g → account_ok v → announces v g → ∃ y, a_users d !! us_ID v = Some y) as Hold.
  { intros k g v Hk Hv Hg. destruct (Hev k g Hk) as (_ & _ & l & y & Hy & Hag). destruct (Hu l y Hy) as [<- Hy'].
    exists y. by rewrite (announces_same v y g). }
  assert (us_ID x = id ∧ account_ok x) as [Hxid Hxok].
  { apply lookup_insert_Some in Hx as [[<- <-]|[_ Hx]]; auto. }
  apply lookup_insert_Some in Hi as [[<- <-]|[_ Hi]]; apply lookup_insert_Some in Hj as [[<- <-]|[_ Hj]]; [done|..].
  - destruct (Hold j f x) as [y Hy]; [done..|]. pose proof (announces_same x u _ Hxok Hnew Hae Hpay). congruence.
  - destruct (Hold i e x) as [y Hy]; [done..|]. pose proof (announces_same x u _ Hxok Hnew Haf Hpay). congruence.
  - destruct (Hold i e x) as [y Hy]; [done..|]. rewrite lookup_insert_ne in Hx by congruence. by apply (Honce i j e f id x).
Qed.

(** An invariant of accounts and of what refers to them. *)
Lemma add_account_inv u eid payload t d : AInv d → can_add cost u eid payload d → AInv (add_account u eid payload t d).
Proof.
  intros [Hu He Hev Han Honce Hrc] (Hnew & Hid & Hem & Hfree & Hpay). split; cbn.
  - intros id v [[<- <-]|[_ Hv]]%lookup_insert_Some; [by split; [|apply new_user_ok]|auto].
  - intros i j v x [[<- <-]|[_ Hv]]%lookup_insert_Some [[<- <-]|[_ Hx]]%lookup_insert_Some Heq; [done| | |eauto].
    + by destruct (Hem j x Hx).
    + by destruct (Hem i v Hv).
  - intros i e [[<- <-]|[_ Hi]]%lookup_insert_Some.
    + split_and!; try done. exists (us_ID u), u. by rewrite lookup_insert_eq.
    + destruct (Hev i e Hi) as (H1 & H2 & id & v & Hv & Ha). split_and!; try done. exists id, v. split; [|done].
      rewrite lookup_insert_ne; [done|]. intros <-. congruence.
  - intros id v [[<- <-]|[_ Hv]]%lookup_insert_Some.
    + exists eid. eexists. by rewrite lookup_insert_eq.
    + destruct (Han id v Hv) as (i & e & Hi & Ha). exists i, e. rewrite lookup_insert_ne; [done|]. intros <-. congruence.
  - apply (add_account_once u eid payload t d); [by split|done].
  - intros key r Hr. destruct (Hrc key r Hr) as (id & v & Hv & H). exists id, v. rewrite lookup_insert_ne; [done|]. intros <-. congruence.
Qed.

Lemma foldr_delete_lookup {B} (m : gmap string B) ks k x : foldr delete m ks !! k = Some x → m !! k = Some x.
Proof. induction ks as [|k' ks IH]; cbn; [done|]. by intros [_ H]%lookup_delete_Some; auto. Qed.

Lemma astep_inv P d d' : astep cost P d d' → AInv d → AInv d'.
Proof.
  intros Hs Hinv. destruct Hs as [u eid payload t _ _ Hadd|u eid payload t key resp t0 t1 _ _ _ _ Hadd Hold Hj|ks t _ Hks|r Hr|eid e f He Hp Hsame|id u role status t Hu Hrole Hst].
  - by apply add_account_inv.
  - destruct (add_account_inv u eid payload t d Hinv Hadd) as [Hu He Hev Han Honce Hrc]. split; cbn in *; try done.
    intros k r [[<- <-]|[_ Hr]]%lookup_insert_Some; [|eauto]. exists (us_ID u), u. rewrite lookup_insert_eq. split; [done|].
    exists u, resp, t1. split_and!; try done. apply Hadd.
  - destruct Hinv. split; cbn; try done. intros k r Hr%foldr_delete_lookup. eauto.
  - by destruct Hinv.
  - destruct Hinv as [Hu Hem Hev Han Honce Hrc]. destruct Hsame as (E1 & E2 & E3 & E4). split; cbn; try done.
    + intros i x [[<- <-]|[_ Hi]]%lookup_insert_Some; [|eauto]. destruct (Hev eid e He) as (H1 & H2 & id & u & Hid & Ha).
      rewrite E1, E2. split_and!; try done. exists id, u. split; [done|]. unfold announces. by rewrite E3.
    + intros id u Hid. destruct (Han id u Hid) as (i & x & Hi & Ha). destruct (decide (i = eid)) as [->|Hne].
      * exists eid, f. rewrite lookup_insert_eq. simplify_eq. split; [done|]. unfold announces. by rewrite E3.
      * exists i, x. by rewrite lookup_insert_ne.
    + intros i j x y id u Hi Hj Hid Hx Hy. assert (∀ k z, <[eid := f]> (a_outbox d) !! k = Some z → ∃ z', a_outbox d !! k = Some z' ∧ ae_Payload z' = ae_Payload z) as Hz.
      { intros k z [[<- <-]|[_ Hk]]%lookup_insert_Some; eauto. }
      apply Hz in Hi as (x' & Hi & Ex), Hj as (y' & Hj & Ey). unfold announces in *. rewrite <-Ex in Hx. rewrite <-Ey in Hy. by eapply Honce.
  - destruct Hinv as [Huo Hem Hev Han Honce Hrc]. destruct (Huo id u Hu) as [Hid (_ & _ & Hok)]. split; cbn.
    + intros i v [[<- <-]|[_ Hv]]%lookup_insert_Some; [|auto]. by split; [|split; [|split]].
    + intros i j v x [[<- <-]|[_ Hv]]%lookup_insert_Some [[<- <-]|[_ Hx]]%lookup_insert_Some Heq; [done| | |eauto].
      * by apply (Hem id j u x).
      * by apply (Hem i id v u).
    + intros i e Hi. destruct (Hev i e Hi) as (H1 & H2 & j & v & Hv & Ha). split_and!; try done. destruct (decide (j = id)) as [->|Hne].
      * exists id, (operated role status u t). rewrite lookup_insert_eq. split; [done|]. by simplify_eq.
      * exists j, v. by rewrite lookup_insert_ne.
    + intros j v [[<- <-]|[_ Hv]]%lookup_insert_Some; [|eauto]. apply (Han id u Hu).
    + intros i j x y k v Hi Hj Hk Hx Hy. cbn in *. apply lookup_insert_Some in Hk as [[<- <-]|[_ Hv]].
      * by apply (Honce i j x y id u).
      * by apply (Honce i j x y k v).
    + intros key r Hr. destruct (Hrc key r Hr) as (j & v & Hv & H). destruct (decide (j = id)) as [->|Hne].
      * exists id, (operated role status u t). rewrite lookup_insert_eq. split; [done|]. apply receipt_of_operated. by simplify_eq.
      * exists j, v. by rewrite lookup_insert_ne.
Qed.

Lemma asteps_inv P d d' : rtc (astep cost P) d d' → AInv d → AInv d'.
Proof. induction 1 as [|d d1 d' H _ IH]; [done|]. intros Hi. apply IH. by eapply astep_inv. Qed.

End inv.
