(* ===== verification/AuthLogin.v ===== *)
(** Auth service: signups with an Idempotency-Key take effect once; what logins
    answer and who accepts their tokens. *)

From S2P Require Import AnaService InvHttp Gateway.
From S2P Require Import Prelude Effects GoStd InvModel FulHandler FulModel CatJson AuthLimits AuthModel AuthSteps AuthOutbox AuthHandler AuthInv NotService CatModel CatService CatHandler.

Section signup.
Context {uuid : UuidLib} {lib : AuthLib} {laws : AuthLaws lib} {jwt : Jwt} (s : AuthService).
Implicit Types (d : ADB) (u : User) (o : oracle) (w : world ASt).

(** ** What the first request leaves *)

(** The account, with the receipt under the key. *)
Definition created_by (key : string) (input : SignUpInput) o d d' u (r : Receipt) : Prop :=
  a_users d' = <[us_ID u := u]> (a_users d) ∧ a_receipts d' !! key = Some r ∧ a_users d !! us_ID u = None ∧
  (∃ n m response, pr_CreatedAt (us_Profile u) = or_clock o n ∧ user_json (us_Profile u) = Some response ∧ r = new_receipt u response (or_clock o m)) ∧
  NormalizeEmail (su_Email input) = Some (us_Email u) ∧ pr_DisplayName (us_Profile u) = trim_space (su_DisplayName input) ∧
  valid_name (pr_DisplayName (us_Profile u)) = true ∧ validatePassword (su_Password input) 8 = true ∧
  us_Role u = RoleCustomer ∧ us_Status u = UserStatusActive ∧ us_IdempotentReplay u = false ∧ (∃ n, us_ID u = or_uuid o n) ∧
  ∃ salt, bcrypt_hash salt (sv_bcryptCost s) (su_Password input) = Some (us_PasswordHash u).

(** The database after [m] does not depend on what leaves it alone. *)
Lemma idle_tail {B C} (m : M ASt AErr B) (f : B → M ASt AErr C) o w : (∀ b, idles (f b)) →
  as_db (w_db ((m ≫= f) o w).2) = as_db (w_db (m o w).2).
Proof. intros Hf. unfold mbind, M_bind. destruct (m o w) as [[e|b] w1]; [done|]. apply Hf. Qed.
Lemma idle_head {B C} (m : M ASt AErr B) (f : B → M ASt AErr C) o w : idles m →
  as_db (w_db ((m ≫= f) o w).2) = as_db (w_db w) ∨
  ∃ b w1, m o w = (inr b, w1) ∧ as_db (w_db w1) = as_db (w_db w) ∧ as_db (w_db ((m ≫= f) o w).2) = as_db (w_db (f b o w1).2).
Proof.
  intros Hm. specialize (Hm o w). unfold mbind, M_bind. destruct (m o w) as [[e|b] w1]; [by left|]. right. exists b, w1. done.
Qed.
Lemma unavailable_db {B} (m : M ASt AErr B) o w : as_db (w_db (unavailable m o w).2) = as_db (w_db (m o w).2).
Proof. unfold unavailable, try, mbind, M_bind. destruct (m o w) as [[e|b] w1]; done. Qed.

Lemma CreateSignup_db user event key o w d' : let fp := signup_digest (us_Email user) (pr_DisplayName (us_Profile user)) in
  as_db (w_db (CreateSignup user event key fp o w).2) = d' → d' = as_db (w_db w) ∨
  ∃ n m response, a_users (as_db (w_db w)) !! us_ID user = None ∧ user_json (us_Profile (stored_user user (or_clock o n))) = Some response ∧
    a_users d' = <[us_ID user := stored_user user (or_clock o n)]> (a_users (as_db (w_db w))) ∧
    a_receipts d' !! key = Some (new_receipt (stored_user user (or_clock o n)) response (or_clock o m)).
Proof.
  intros fp <-. unfold CreateSignup. rewrite idle_tail, unavailable_db by by intros [].
  destruct (transaction _ o w) as [r w1] eqn:Ht. cbn [snd].
  apply transaction_cases in Ht as [->|(x & w2 & Hb & _ & ->)]; [by left|right].
  apply bind_ok in Hb as (b & w3 & Hb%try_ok & [Hx ->]%ret_ok). destruct b as [e|[y|y]]; cbn in Hx; simplify_eq.
  apply signup_commits in Hb as (t & t' & eid & t0 & t1 & response & [n ->] & [? ->] & [? ->] & [m ->] & Hid & _ & _ & _ & Hj & -> & Hd).
  exists n, m, response. rewrite Hd. cbn. by rewrite lookup_insert_eq.
Qed.

(** A request with a key changes nothing, or creates one account with its receipt. *)
Lemma auth_SignUp_creates key input o w d' : as_db (w_db (auth_SignUp s (Some key) input o w).2) = d' →
  d' = as_db (w_db w) ∨ ∃ u r, created_by key input o (as_db (w_db w)) d' u r.
Proof.
  unfold auth_SignUp. destruct (NormalizeEmail _) as [email|] eqn:He; [|intros <-; by left].
  destruct (valid_name _) eqn:Hn; [|intros <-; by left]. destruct (validatePassword _ _) eqn:Hp; [|intros <-; by left]. cbn [negb].
  match goal with |- context [(?m ≫= ?f) o w] => destruct (idle_head m f o w (LookupSignup_idles _ _)) as [->|(c & w1 & _ & Hw1 & ->)] end.
  { intros <-. by left. }
  destruct c as [c|]; [rewrite verifySignupReplay_idles; intros <-; by left|]. rewrite <-Hw1. clear Hw1.
  unfold create_account. match goal with |- context [(?m ≫= ?f) o w1] => destruct (idle_head m f o w1 idles_uuid) as [->|(salt & w2 & _ & <- & ->)] end.
  { intros <-. by left. }
  destruct (bcrypt_hash _ _ _) as [hash|] eqn:Hh; [|intros <-; by left].
  match goal with |- context [(?m ≫= ?f) o w2] => destruct (idle_head m f o w2 idles_uuid) as [->|(id & w3 & [Hidn _]%new_uuid_ok & <- & ->)] end.
  { intros <-. by left. }
  destruct (payload_json _ _ _ _ _) as [payload|] eqn:Hpay; [|intros <-; by left].
  match goal with |- context [(?m ≫= ?f) o w3] => destruct (idle_head m f o w3 idles_uuid) as [->|(eid & w4 & _ & <- & ->)] end.
  { intros <-. by left. }
  rewrite idle_tail by (intros [x []]; [apply verifySignupReplay_idles|done]).
  set (user := MkUser _ hash zero_time false). set (event := MkNewEvent _ _ _).
  intros Hd. apply (CreateSignup_db user event key) in Hd as [->|(n & m & response & Hid & Hj & Hu & Hr)]; [by left|right].
  exists (stored_user user (or_clock o n)), (new_receipt (stored_user user (or_clock o n)) response (or_clock o m)).
  split_and!; try done; eauto 10.
Qed.

(** ** What later requests find *)

(** A receipt lasts until it expires. *)
Lemma receipt_kept T cost key r d d' : rc_ExpiresAt r = T → rtc (astep cost (λ t, t < T)) d d' →
  a_receipts d !! key = Some r → a_receipts d' !! key = Some r.
Proof.
  intros HT. assert (∀ t, t < T → live t r = true) as Hlive by (intros t Ht; apply bool_decide_eq_true; lia).
  induction 1 as [|d d1 d' Hs _ IH]; [done|]. intros Hr. apply IH. clear IH.
  destruct Hs as [u eid payload t _ _ _|u eid payload t k resp t0 t1 _ _ H0 _ _ Hold _|ks t Ht Hks| | |]; cbn; try done.
  - destruct (decide (k = key)) as [->|Hne]; [|by rewrite lookup_insert_ne]. specialize (Hold r Hr). by rewrite Hlive in Hold.
  - assert (key ∉ ks) as Hk. { intros Hk. specialize (Hks key r Hk Hr). by rewrite Hlive in Hks. }
    clear -Hk Hr. induction ks as [|k ks IH]; cbn; [done|]. rewrite not_elem_of_cons in Hk. rewrite lookup_delete_ne by naive_solver. naive_solver.
Qed.

(** What a request with the key of a live receipt of [u] is told. *)
Definition replay_answer u (input : SignUpInput) : AErr + User :=
  match NormalizeEmail (su_Email input) with
  | None => inl (AInvalidInput "email")
  | Some email =>
      let displayName := trim_space (su_DisplayName input) in
      if negb (valid_name displayName) then inl (AInvalidInput "display_name")
      else if negb (validatePassword (su_Password input) 8) then inl (AInvalidInput "password")
      else if negb (bool_decide (signup_digest email displayName = signup_digest (us_Email u) (pr_DisplayName (us_Profile u)))) then inl AIdemConflict
      else match bcrypt_compare (us_PasswordHash u) (su_Password input) with
      | CMatch => inr (MkUser (us_Profile u) "" zero_time true)
      | CMismatch => inl AIdemConflict
      | CFailed => inl AIdemUnavailable
      end
  end.

Lemma read_run {B} (f : Z → ADB → B) o w : adb_read f o w =
  match or_fault o (w_tick w) with
  | Some e => (inl (ADbErr e), World (w_db w) (S (w_tick w)) (w_aborted w) (w_locks w))
  | None => (inr (f (or_clock o (w_tick w)) (as_db (w_db w))), World (w_db w) (S (w_tick w)) (w_aborted w) (w_locks w))
  end.
Proof. unfold adb_read, pool_stmt, on_db. destruct (or_fault _ _); [done|]. cbn. by destruct w as [[] ? ? ?]. Qed.

(** With a live receipt nothing is created, whatever fails; without failures
    the answer is exact. *)
Lemma SignUp_replays key input u r response t o w :
  new_user (sv_bcryptCost s) u → user_json (us_Profile u) = Some response → r = new_receipt u response t →
  pr_CreatedAt (us_Profile u) ≠ zero_time → a_receipts (as_db (w_db w)) !! key = Some r → (∀ n, or_clock o n < rc_ExpiresAt r) →
  as_db (w_db (auth_SignUp s (Some key) input o w).2) = as_db (w_db w) ∧
  (reliable o → (auth_SignUp s (Some key) input o w).1 = replay_answer u input).
Proof using laws.
  intros Hnew Hj -> Hz Hr Hlive. unfold auth_SignUp, replay_answer.
  destruct (NormalizeEmail _) as [email|]; [|done]. destruct (valid_name _); [|done]. destruct (validatePassword _ _); [|done]. cbn [negb].
  unfold LookupSignup, unavailable. unfold mbind, M_bind, try. rewrite read_run. destruct (or_fault _ _) as [e|] eqn:Hf.
  { split; [done|]. intros Hrel. by rewrite Hrel in Hf. }
  unfold live_receipt. rewrite Hr. cbn -[new_receipt]. rewrite (bool_decide_eq_true_2 _ (Hlive _) : live _ _ = true). cbn.
  unfold scanSignup. cbn. case_bool_decide as Hd; cbn; [|done].
  destruct Hnew as (Hrole & Hst & Hrep & Hid & Hnil & [raw Hraw] & Hname & salt & pw & Hh & _).
  assert (user_of response = Some (us_Profile u)) as ->.
  { apply al_user; try done.
    - by eapply normal_email_valid.
    - by apply valid_name_utf8.
    - unfold us_Role in Hrole. by rewrite Hrole.
    - unfold us_Status in Hst. by rewrite Hst. }
  apply al_hash in Hh as (Hne & _ & _). unfold is_zero_time.
  rewrite (bool_decide_eq_false_2 (pr_ID _ = _)), (bool_decide_eq_true_2 (pr_Role _ = _)), (bool_decide_eq_false_2 (pr_CreatedAt _ = _)), (bool_decide_eq_false_2 (us_PasswordHash _ = _)) by done.
  cbn. unfold verifySignupReplay, mbind, M_bind, comparePassword. cbn. by destruct (bcrypt_compare _ _).
Qed.

Lemma created_new key input o d d' u r : good_ids o → created_by key input o d d' u r → new_user (sv_bcryptCost s) u.
Proof.
  intros Hid (_ & _ & _ & _ & He & Hn & Hv & Hp & Hr & Hs & Hrep & [n Hu] & salt & Hh). destruct (Hid n) as [H1 H2].
  split_and!; try done; rewrite ?Hu; eauto.
Qed.

(** A retry of the request that created [u] is told so. *)
Lemma replay_same key input o d d' u r : created_by key input o d d' u r →
  replay_answer u input = inr (MkUser (us_Profile u) "" zero_time true).
Proof using laws.
  intros (_ & _ & _ & _ & He & Hn & Hv & Hp & _ & _ & _ & _ & salt & Hh). unfold replay_answer. rewrite He, <-Hn, Hv, Hp.
  rewrite bool_decide_eq_true_2 by done. apply al_hash in Hh as (_ & -> & _). done.
Qed.

(** C31.  A signup with an Idempotency-Key takes effect once.  Whenever such a
    request changes the accounts - even if its answer got lost, or failed to
    commit as far as it could tell - it created one account, with what was
    asked for and a hash of the password, and a receipt for 24 hours.  Until then, after
    any other steps of the service in any order, a request with the same key
    changes nothing, whatever fails; and without failures it is answered from the
    receipt: the original request with the original account, marked as a replay;
    another email, display name or password with a conflict; invalid input as
    without a key. *)
Theorem signup_once key input o w :
  let d := as_db (w_db w) in
  let d1 := as_db (w_db (auth_SignUp s (Some key) input o w).2) in
  good_ids o → (∀ n, or_clock o n ≠ zero_time) → a_users d1 ≠ a_users d →
  ∃ u r n, created_by key input o d d1 u r ∧ rc_ExpiresAt r = or_clock o n + 24 * hour ∧
    replay_answer u input = inr (MkUser (us_Profile u) "" zero_time true) ∧
    ∀ o2 w2 input2, rtc (astep (sv_bcryptCost s) (λ t, t < rc_ExpiresAt r)) d1 (as_db (w_db w2)) → (∀ n, or_clock o2 n < rc_ExpiresAt r) →
      as_db (w_db (auth_SignUp s (Some key) input2 o2 w2).2) = as_db (w_db w2) ∧
      (reliable o2 → (auth_SignUp s (Some key) input2 o2 w2).1 = replay_answer u input2).
Proof using laws.
  intros d d1 Hid Hz Hne. destruct (auth_SignUp_creates key input o w d1 eq_refl) as [E|(u & r & Hc)]; [by rewrite E in Hne|].
  pose proof (created_new _ _ _ _ _ _ _ Hid Hc) as Hnew. pose proof (replay_same _ _ _ _ _ _ _ Hc) as Hsame.
  assert (∃ n m response, pr_CreatedAt (us_Profile u) = or_clock o n ∧ user_json (us_Profile u) = Some response ∧ r = new_receipt u response (or_clock o m))
    as (n & m & response & Ht & Hj & Hr) by apply Hc.
  exists u, r, m. split_and!; [done|by rewrite Hr|done|]. intros o2 w2 input2 Hsteps Hlive.
  eapply SignUp_replays; try done; [by rewrite Ht|]. eapply receipt_kept; [done|exact Hsteps|apply Hc].
Qed.
End signup.

(** Auth service: what logins answer, and that an account that was signed up can
    log in. *)


Section login.
Context {uuid : UuidLib} {lib : AuthLib} {laws : AuthLaws lib} {jwt : Jwt} (s : AuthService).
Implicit Types (d : ADB) (u : User) (o : oracle) (w : world ASt).

Lemma user_by_email_spec email d u : user_by_email email d = Some u → ∃ id, a_users d !! id = Some u ∧ us_Email u = email.
Proof.
  unfold user_by_email. destruct (find _ _) as [[id v]|] eqn:Hf; [|done]. intros [= <-].
  apply find_some in Hf as [Hin%list_elem_of_In%elem_of_map_to_list He%bool_decide_eq_true]. eauto.
Qed.
Lemma user_by_email_found email d id u : AInv (sv_bcryptCost s) d → a_users d !! id = Some u → us_Email u = email → user_by_email email d = Some u.
Proof.
  intros Hinv Hu He. destruct (user_by_email email d) as [v|] eqn:Hf.
  - apply user_by_email_spec in Hf as (j & Hv & Hev). assert (id = j) as -> by (eapply ai_emails; eauto; congruence). congruence.
  - unfold user_by_email in Hf. destruct (find _ _) as [p|] eqn:Hn; [done|].
    assert (bool_decide (us_Email u = email) = false); [|by rewrite bool_decide_eq_true_2 in H].
    apply (find_none _ _ Hn (id, u)). by apply list_elem_of_In, elem_of_map_to_list.
Qed.

(** The account that an email and a password open. *)
Definition opens (input : LoginInput) d u : Prop :=
  NormalizeEmail (li_Email input) = Some (us_Email u) ∧ validatePassword (li_Password input) 1 = true ∧
  a_users d !! us_ID u = Some u ∧ us_Status u = UserStatusActive ∧ bcrypt_compare (us_PasswordHash u) (li_Password input) = CMatch.

(** The hash that the work of a login goes into. *)
Definition compared_hash (email : string) d : string :=
  match user_by_email email d with
  | Some u => if bool_decide (us_Status u = UserStatusActive) then us_PasswordHash u else sv_dummyHash s
  | None => sv_dummyHash s
  end.

(** The answer for an account. *)
Definition login_result u (now : Z) : AErr + AuthResult :=
  match sign_claims (tm_secret (sv_tokens s)) (tm_issuer (sv_tokens s)) (tm_audience (sv_tokens s)) (claims_for now (tm_ttl (sv_tokens s)) u) with
  | Some token => inr (MkAuthResult token "Bearer" (tm_ttl (sv_tokens s) `quot` second) u)
  | None => inl ASign
  end.

(** One evaluation of [auth_Login], without failures. *)
Lemma auth_Login_run input email o w : or_fault o (w_tick w) = None → NormalizeEmail (li_Email input) = Some email → validatePassword (li_Password input) 1 = true →
  let d := as_db (w_db w) in
  let after := World (MkASt d (as_compares (w_db w) ++ [compared_hash email d]) (as_limiter (w_db w)) (as_failures (w_db w))) (S (w_tick w)) (w_aborted w) (w_locks w) in
  AInv (sv_bcryptCost s) d →
  auth_Login s input o w =
  match user_by_email email d with
  | None => (inl AInvalidCredentials, after)
  | Some u =>
      if bool_decide (us_Status u = UserStatusActive) && bool_decide (bcrypt_compare (us_PasswordHash u) (li_Password input) = CMatch)
      then (login_result u (or_clock o (S (w_tick w))), World (w_db after) (S (S (w_tick w))) (w_aborted w) (w_locks w))
      else (inl AInvalidCredentials, after)
  end.
Proof using laws.
  intros Hrel He Hp d after Hinv. unfold auth_Login. rewrite He, Hp. cbn [negb]. unfold FindByEmail, mbind, M_bind, try. rewrite read_run, Hrel.
  subst after. unfold compared_hash. fold d. destruct (user_by_email email d) as [u|] eqn:Hu; cbn; [|done].
  apply user_by_email_spec in Hu as (id & Hu & _). apply (ai_users _ _ Hinv) in Hu as [Hid (Hrole & _ & _ & Hnil & _ & _ & salt & pw & Hh & _)].
  case_bool_decide as Hact; cbn; [|done]. apply al_hash in Hh as (_ & _ & Hok). specialize (Hok (li_Password input)).
  destruct (bcrypt_compare _ _) eqn:Hc; cbn; [|done|done]. unfold Issue. rewrite Hrole, Hact.
  rewrite (bool_decide_eq_false_2 (us_ID u = uuid_nil)) by done. cbn. unfold mbind, M_bind, login_result. cbn.
  repeat rewrite bool_decide_eq_true_2 by done. cbn. by destruct (sign_claims _ _ _ _).
Qed.

(** What a login does when nothing fails. *)
Lemma auth_Login_exact input o w : or_fault o (w_tick w) = None → AInv (sv_bcryptCost s) (as_db (w_db w)) →
  let d := as_db (w_db w) in
  let '(r, w') := auth_Login s input o w in
  as_db (w_db w') = d ∧
  (∀ u, opens input d u → ∃ n, r = login_result u (or_clock o n)) ∧
  ((∀ u, ¬ opens input d u) → r = inl AInvalidCredentials) ∧
  match NormalizeEmail (li_Email input) with
  | Some email => if validatePassword (li_Password input) 1 then as_compares (w_db w') = as_compares (w_db w) ++ [compared_hash email d]
                  else as_compares (w_db w') = as_compares (w_db w)
  | None => as_compares (w_db w') = as_compares (w_db w)
  end.
Proof using laws.
  intros Hrel Hinv d. destruct (NormalizeEmail (li_Email input)) as [email|] eqn:He.
  2:{ unfold auth_Login. rewrite He. split_and!; try done. intros u (Hu & _). congruence. }
  destruct (validatePassword (li_Password input) 1) eqn:Hp.
  2:{ unfold auth_Login. rewrite He, Hp. split_and!; try done. intros u (_ & Hu & _). congruence. }
  rewrite (auth_Login_run input email o w Hrel He Hp Hinv). fold d.
  assert (∀ u, opens input d u → user_by_email email d = Some u) as Hfound.
  { intros u (H1 & _ & Hu & _). eapply user_by_email_found; [done|exact Hu|congruence]. }
  destruct (user_by_email email d) as [u|] eqn:Hu.
  - destruct (bool_decide _ && _) eqn:Hb.
    + apply andb_true_iff in Hb as [Ha%bool_decide_eq_true Hc%bool_decide_eq_true]. split_and!; try done.
      * intros v Hv%Hfound. simplify_eq. eauto.
      * intros Hno. apply user_by_email_spec in Hu as (id & Hu & Hem). destruct (ai_users _ _ Hinv id u Hu) as [<- _].
        destruct (Hno u). by split_and!; [rewrite Hem|..].
    + apply andb_false_iff in Hb. split_and!; try done. intros v Hv. apply Hfound in Hv as E. simplify_eq.
      destruct Hv as (_ & _ & _ & Ha & Hc). destruct Hb as [Hb%bool_decide_eq_false|Hb%bool_decide_eq_false]; done.
  - split_and!; try done. by intros v Hv%Hfound.
Qed.

(** C32.  What a login does on every branch, in any database the service can
    reach and whatever fails.  A malformed email or password is refused with no
    comparison.  A well-formed attempt looks the account up once.  When the lookup
    fails, the answer is that database error, another one than the refusal, and no
    password is compared.  When it answers, the password is compared exactly once -
    with the hash of the account if there is an active one, with a dummy of the
    same cost if there is none or it is disabled; a token is issued for the account
    exactly when the email belongs to an active account with that password (a
    signing error apart); and every other attempt gets one and the same refusal.
    The database does not change. *)
Theorem login_answers input o w : rtc (astep (sv_bcryptCost s) (λ _, True)) empty_adb (as_db (w_db w)) →
  let d := as_db (w_db w) in
  let '(r, w') := auth_Login s input o w in
  as_db (w_db w') = d ∧
  match NormalizeEmail (li_Email input), validatePassword (li_Password input) 1 with
  | Some email, true =>
      match or_fault o (w_tick w) with
      | Some e => r = inl (ADbErr e) ∧ as_compares (w_db w') = as_compares (w_db w)
      | None =>
          as_compares (w_db w') = as_compares (w_db w) ++ [compared_hash email d] ∧
          (∀ u, opens input d u → ∃ n, r = login_result u (or_clock o n)) ∧
          ((∀ u, ¬ opens input d u) → r = inl AInvalidCredentials)
      end
  | _, _ => r = inl AInvalidCredentials ∧ as_compares (w_db w') = as_compares (w_db w)
  end.
Proof using laws.
  intros Hreach d. destruct (or_fault o (w_tick w)) as [e|] eqn:Hf.
  - unfold auth_Login. destruct (NormalizeEmail _) as [email|]; [|done]. destruct (validatePassword _ _); [|done].
    cbn [negb]. unfold FindByEmail, mbind, M_bind, try. by rewrite read_run, Hf.
  - assert (Hinv : AInv (sv_bcryptCost s) d) by (eapply asteps_inv; [exact Hreach|apply empty_ainv]).
    pose proof (auth_Login_exact input o w Hf Hinv) as H. cbv zeta in H. fold d in H.
    destruct (auth_Login s input o w) as [r w'] eqn:Hrun. destruct H as (Hd & Hopen & Hno & Hc). split; [done|].
    destruct (NormalizeEmail (li_Email input)) as [email|] eqn:He.
    + destruct (validatePassword _ _) eqn:Hp; [done|]. split; [|done]. apply Hno. intros u (_ & Hu & _). congruence.
    + split; [|done]. apply Hno. intros u (Hu & _). congruence.
Qed.

(** ** From signup to login *)

(** Accounts stay, but for their role and status. *)
Lemma account_kept cost P d d' id u : rtc (astep cost P) d d' → a_users d !! id = Some u → ∃ v, a_users d' !! id = Some v ∧ same_account u v.
Proof.
  intros H. revert u. induction H as [d|d d1 d' Hs _ IH]; intros u Hu; [by exists u|].
  assert (∃ v, a_users d1 !! id = Some v ∧ same_account u v) as (v & Hv & Hs1).
  { assert (∀ x, a_users d !! us_ID x = None → us_ID x ≠ id) as Hne by (intros x Hx Heq; rewrite Heq in Hx; congruence).
    destruct Hs as [x eid payload t _ _ (_ & Hx & _)|x eid payload t k resp t0 t1 _ _ _ _ (_ & Hx & _) _ _| | | |j x role status t Hx _ _]; cbn; try by exists u.
    - exists u. rewrite lookup_insert_ne by auto. done.
    - exists u. rewrite lookup_insert_ne by auto. done.
    - destruct (decide (j = id)) as [->|Hj]; [|exists u; by rewrite lookup_insert_ne]. simplify_eq. rewrite lookup_insert_eq. by eexists. }
  destruct (IH v Hv) as (x & Hx & Hs2). exists x. split; [done|]. by eapply same_account_trans.
Qed.

(** What a successful signup that is no replay has stored. *)
Definition signed_up (input : SignUpInput) d u : Prop :=
  a_users d !! us_ID u = Some u ∧ NormalizeEmail (su_Email input) = Some (us_Email u) ∧
  pr_DisplayName (us_Profile u) = trim_space (su_DisplayName input) ∧ us_Role u = RoleCustomer ∧ us_Status u = UserStatusActive ∧
  validatePassword (su_Password input) 8 = true ∧ ∃ salt, bcrypt_hash salt (sv_bcryptCost s) (su_Password input) = Some (us_PasswordHash u).

Lemma CreateWithOutbox_ok user event o w u w' : CreateWithOutbox user event o w = (inr u, w') →
  ∃ t, u = stored_user user t ∧ a_users (as_db (w_db w')) !! us_ID user = Some u.
Proof.
  intros (w1 & H)%transaction_ok. destruct H as [(H & _ & ->)|(H & _)].
  - apply bind_ok in H as (x & w2 & Hi & [[= ->] ->]%ret_ok).
    apply insertUserAndOutbox_ok in Hi as (t & t' & eid & _ & _ & -> & _ & _ & _ & ->). exists t. cbn. by rewrite lookup_insert_eq.
  - by apply bind_ok in H as (x & w2 & _ & [? _]%ret_ok).
Qed.

Lemma signup_leaves user event key fp o w x w' : signup_body user event key fp o w = (inr (Leave x), w') → x.2 = true.
Proof.
  intros H. apply bind_ok in H as ([] & w1 & _ & H). apply bind_ok in H as (ins & w2 & _ & H). destruct ins; cbn [negb] in H.
  - apply bind_ok in H as (u & w3 & _ & H). destruct (user_json _); [|done]. by apply bind_ok in H as ([] & w4 & _ & [? _]%ret_ok).
  - apply bind_ok in H as ([row|] & w3 & _ & H); [|done]. unfold of_scan in H. destruct (scanSignup _ _); [done|]. by apply ret_ok in H as [[= ->] _].
Qed.

Lemma CreateSignup_ok user event key o w x w' :
  CreateSignup user event key (signup_digest (us_Email user) (pr_DisplayName (us_Profile user))) o w = (inr (x, false), w') →
  ∃ t, sr_User x = stored_user user t ∧ a_users (as_db (w_db w')) !! us_ID user = Some (stored_user user t).
Proof.
  intros H. apply bind_ok in H as (r & w1 & Ht%unavailable_ok & H). destruct r as [e|y]; [done|]. apply ret_ok in H as [<- ->].
  apply transaction_ok in Ht as (w2 & [(H & _ & ->)|(H & _)]); apply bind_ok in H as (b & w3 & Hb%try_ok & [Hy ->]%ret_ok);
    destruct b as [e|[z|z]]; cbn in Hy; simplify_eq.
  - apply signup_commits in Hb as (t & t' & eid & t0 & t1 & response & _ & _ & _ & _ & _ & _ & _ & _ & _ & [= ->] & ->).
    exists t. cbn. by rewrite lookup_insert_eq.
  - by apply signup_leaves in Hb.
Qed.

Lemma verify_replays x password o w u w' : verifySignupReplay x password o w = (inr u, w') → us_IdempotentReplay u = true.
Proof. intros (c & w1 & _ & H)%bind_ok. destruct c; [|done..]. by apply ret_ok in H as [-> _]. Qed.

Lemma auth_SignUp_ok key input o w u w' : auth_SignUp s key input o w = (inr u, w') → us_IdempotentReplay u = false →
  signed_up input (as_db (w_db w')) u.
Proof.
  unfold auth_SignUp. destruct (NormalizeEmail _) as [email|] eqn:He; [|done]. destruct (valid_name _); [|done].
  destruct (validatePassword _ _) eqn:Hp; [|done]. cbn [negb]. intros H Hrep.
  apply bind_ok in H as (c & w1 & _ & H). destruct c as [c|]; [by apply verify_replays in H; congruence|].
  apply bind_ok in H as (salt & w2 & _ & H). destruct (bcrypt_hash _ _ _) as [hash|] eqn:Hh; [|done].
  apply bind_ok in H as (id & w3 & _ & H). destruct (payload_json _ _ _ _ _) as [payload|]; [|done].
  apply bind_ok in H as (eid & w4 & _ & H). unfold signed_up.
  assert (∃ t, u = stored_user (MkUser (MkProfile id email (trim_space (su_DisplayName input)) RoleCustomer UserStatusActive zero_time) hash zero_time false) t ∧
    a_users (as_db (w_db w')) !! id = Some u) as (t & -> & Hu).
  { destruct key as [key|]; [|by apply CreateWithOutbox_ok in H].
    apply bind_ok in H as ([x b] & w5 & Hc & H). destruct b; [by apply verify_replays in H; congruence|].
    apply ret_ok in H as [-> ->]. apply (CreateSignup_ok (MkUser (MkProfile id email _ _ _ _) _ _ _)) in Hc as (t & Ex & Hu).
    cbn in Ex. exists t. cbn. by rewrite Ex. }
  split_and!; try done. eauto.
Qed.

Lemma validatePassword_shorter pw n m : m ≤ n → validatePassword pw n = true → validatePassword pw m = true.
Proof. unfold validatePassword. rewrite !andb_true_iff, !bool_decide_eq_true. intuition lia. Qed.

Lemma GetCurrentUser_run id o w : reliable o → (GetCurrentUser id o w).1 =
  match a_users (as_db (w_db w)) !! id with
  | Some v => if bool_decide (us_Status v = UserStatusActive) then inr v else inl AUnauthorized
  | None => inl AUnauthorized
  end.
Proof.
  intros Hrel. unfold GetCurrentUser, auth_FindByID, mbind, M_bind, try. rewrite read_run, Hrel. cbn.
  destruct (a_users _ !! id) as [v|]; [|done]. cbn. by case_bool_decide.
Qed.

(** C33.  An account that was signed up can log in.  After a signup that
    succeeded (and was no replay), and any further steps of the service and of
    operators, the account is there with its identity, email, display name and
    password hash; while it is active, the email in any spelling with the same
    normal form and the password of the signup open it, and no password that
    bcrypt tells apart does; the identity in the token finds it again.  Once an
    operator has disabled it, both are refused. *)
Theorem signup_then_login key input o w u w1 w2 : good_ids o → rtc (astep (sv_bcryptCost s) (λ _, True)) empty_adb (as_db (w_db w)) →
  auth_SignUp s key input o w = (inr u, w1) → us_IdempotentReplay u = false →
  rtc (astep (sv_bcryptCost s) (λ _, True)) (as_db (w_db w1)) (as_db (w_db w2)) →
  ∃ v, a_users (as_db (w_db w2)) !! us_ID u = Some v ∧ same_account u v ∧
    ∀ o2 raw pw, reliable o2 → NormalizeEmail raw = NormalizeEmail (su_Email input) →
      let r := (auth_Login s (MkLoginInput raw pw) o2 w2).1 in
      (us_Status v = UserStatusActive → pw = su_Password input → ∃ n, r = login_result v (or_clock o2 n)) ∧
      (us_Status v ≠ UserStatusActive ∨ bcrypt_compare (us_PasswordHash u) pw ≠ CMatch → r = inl AInvalidCredentials) ∧
      (GetCurrentUser (us_ID u) o2 w2).1 = (if bool_decide (us_Status v = UserStatusActive) then inr v else inl AUnauthorized).
Proof using laws.
  intros Hid Hreach Hs Hrep Hsteps. pose proof (auth_SignUp_acts (sv_bcryptCost s) s key input eq_refl (λ _, True) o w (λ _, I) Hid) as Hact.
  rewrite Hs in Hact. cbn in Hact. assert (AInv (sv_bcryptCost s) (as_db (w_db w2))) as Hinv.
  { eapply asteps_inv; [|apply empty_ainv]. etrans; [exact Hreach|]. etrans; [exact Hact|exact Hsteps]. }
  destruct (auth_SignUp_ok key input o w u w1 Hs Hrep) as (Hu & He & Hn & _ & _ & Hp & salt & Hh).
  destruct (account_kept _ _ _ _ _ _ Hsteps Hu) as (v & Hv & Hsame). exists v. split_and!; [done..|].
  intros o2 raw pw Hrel Hraw r. pose proof (auth_Login_exact (MkLoginInput raw pw) o2 w2 (Hrel _) Hinv) as Hlog. cbn zeta in Hlog. subst r.
  destruct (auth_Login s (MkLoginInput raw pw) o2 w2) as [r w3]. destruct Hlog as (_ & Hopen & Hclosed & _).
  destruct Hsame as (Eid & Eem & _ & _ & Eh). apply al_hash in Hh as (_ & Hmatch & _). split_and!.
  - intros Ha ->. apply Hopen. unfold opens. cbn. rewrite Hraw, He, Eem, Eid, Eh.
    split_and!; try done. eapply validatePassword_shorter; [|exact Hp]. lia.
  - intros Hbad. apply Hclosed. intros x (Hx1 & _ & Hx2 & Hx3 & Hx4). cbn in *.
    assert (us_ID x = us_ID u) as Ex by (eapply ai_emails; [done|exact Hx2|exact Hv|congruence]).
    rewrite Ex in Hx2. simplify_eq. rewrite Eh in Hx4. by destruct Hbad.
  - rewrite GetCurrentUser_run by done. by rewrite Hv.
Qed.
End login.

(** ** Tokens

    What Auth issues is what the other services accept.  [JwtAt] is the JWT library at an instant; [JwtLaws] is what is relied on of
    it: a signed token is accepted, with its claims, by whoever has the secret,
    the issuer and the audience, from its issue until it expires. *)

Class JwtAt := jwt_at : Z → Jwt.
Class JwtLaws (lib : AuthLib) (jwts : JwtAt) := jl_signed : ∀ now secret issuer audience claims iat exp raw,
  sign_claims secret issuer audience claims = Some raw → cl_IssuedAt claims = Some iat → cl_ExpiresAt claims = Some exp →
  iat ≤ now < exp → @ParseWithClaims (jwt_at now) secret issuer audience raw = Some claims.

Lemma numeric_date_bounds t : t - second < numeric_date t ≤ t.
Proof.
  unfold numeric_date, truncate. rewrite bool_decide_eq_false_2 by (unfold second; lia).
  pose proof (Z.mod_pos_bound (t - zero_time) second). unfold second in *. lia.
Qed.
Lemma numeric_date_add t d : d `mod` second = 0 → numeric_date (t + d) = numeric_date t + d.
Proof.
  intros Hd. unfold numeric_date, truncate. rewrite bool_decide_eq_false_2 by (unfold second; lia).
  apply Z.mod_divide in Hd as [q ->]; [|done]. replace (t + q * second - zero_time) with (t - zero_time + q * second) by lia.
  rewrite Z.mod_add by done. lia.
Qed.

Section tokens.
Context {uuid : UuidLib} {lib : AuthLib} {laws : AuthLaws lib} {jwts : JwtAt} {jlaws : JwtLaws lib jwts} (s : AuthService).

(** The settings that the services share. *)
Definition shared_verifier : Verifier := MkVerifier (tm_secret (sv_tokens s)) (tm_issuer (sv_tokens s)) (tm_audience (sv_tokens s)).

(** C34.  A token that a login hands out is accepted, for the identity and the
    role of the account, by Auth itself, by the gateway and by the Fulfillment,
    Notification, Catalog, Inventory and Analytics services that share its
    secret, issuer and audience, at every instant from the login until it expires; it expires when it says, at most a
    second before the end of the configured lifetime.  (The configuration admits
    whole seconds from one second on.) *)
Theorem token_accepted input o w res w' now (jwt := jwt_at now) :
  rtc (astep (sv_bcryptCost s) (λ _, True)) empty_adb (as_db (w_db w)) → reliable o →
  second ≤ tm_ttl (sv_tokens s) → tm_ttl (sv_tokens s) `mod` second = 0 → tm_secret (sv_tokens s) ≠ "" →
  auth_Login s input o w = (inr res, w') →
  ∃ n iat, let issued := or_clock o n in
    let claims := MkClaims (us_Role (ar_User res)) (us_ID (ar_User res)) (Some iat) (Some (iat + tm_ttl (sv_tokens s))) in
    issued - second < iat ≤ issued ∧ ar_ExpiresIn res * second = tm_ttl (sv_tokens s) ∧ opens input (as_db (w_db w)) (ar_User res) ∧
    (issued ≤ now < iat + tm_ttl (sv_tokens s) →
      auth_Parse (sv_tokens s) (ar_AccessToken res) = Some claims ∧
      Verifier_Parse shared_verifier (ar_AccessToken res) = Some claims ∧
      NVerifier_Parse shared_verifier (ar_AccessToken res) = Some claims ∧
      cat_Parse shared_verifier (ar_AccessToken res) = Some claims ∧
      gw_Parse shared_verifier (ar_AccessToken res) = Some claims ∧
      inv_Parse shared_verifier (ar_AccessToken res) = Some claims ∧
      ana_Parse shared_verifier (ar_AccessToken res) = Some claims).
Proof using laws jlaws.
  intros Hreach Hrel Httl Hwhole Hsecret Hlog.
  assert (AInv (sv_bcryptCost s) (as_db (w_db w))) as Hinv by (eapply asteps_inv; [exact Hreach|apply empty_ainv]).
  pose proof (auth_Login_exact s input o w (Hrel _) Hinv) as H. cbn zeta in H. rewrite Hlog in H. destruct H as (_ & Hopen & Hclosed & _).
  assert (∃ u, opens input (as_db (w_db w)) u) as [u Hu].
  { destruct (NormalizeEmail (li_Email input)) as [email|] eqn:He; [|by unfold auth_Login in Hlog; rewrite He in Hlog].
    destruct (validatePassword (li_Password input) 1) eqn:Hp; [|by unfold auth_Login in Hlog; rewrite He, Hp in Hlog].
    rewrite (auth_Login_run s input email o w (Hrel _) He Hp Hinv) in Hlog. destruct (user_by_email _ _) as [u|] eqn:Hu; [|done].
    destruct (bool_decide _ && _) eqn:Hb; [|done]. apply andb_true_iff in Hb as [Ha%bool_decide_eq_true Hc%bool_decide_eq_true].
    apply user_by_email_spec in Hu as (id & Hu & Hem). destruct (ai_users _ _ Hinv id u Hu) as [<- _]. exists u. split_and!; try done. by rewrite Hem. }
  destruct (Hopen u Hu) as [n Hres]. unfold login_result in Hres. destruct (sign_claims _ _ _ _) as [raw|] eqn:Hsign; [|done]. injection Hres as ->.
  exists n, (numeric_date (or_clock o n)). cbn zeta. cbn [ar_User ar_ExpiresIn ar_AccessToken].
  pose proof (numeric_date_bounds (or_clock o n)) as Hb.
  split_and!; [lia..| |done|].
  { apply Z.mod_divide in Hwhole as [q ->]; [|done]. rewrite Z.quot_mul by done. done. }
  intros Hnow. pose proof (jl_signed now _ _ _ _ _ _ raw Hsign eq_refl eq_refl) as Hp. cbn [cl_IssuedAt cl_ExpiresAt claims_for] in Hp.
  rewrite numeric_date_add in Hp by done. specialize (Hp ltac:(lia)). unfold claims_for in Hp. rewrite numeric_date_add in Hp by done.
  destruct (ai_users _ _ Hinv (us_ID u) u ltac:(apply Hu)) as [_ (Hrole & _ & Hid & Hnil & _)]. unfold second in *.
  assert (us_ID u ≠ "") as Hne by (intros E; by rewrite E, uuid_parse_empty in Hid).
  unfold auth_Parse, Verifier_Parse, NVerifier_Parse, cat_Parse, gw_Parse, inv_Parse, ana_Parse, nclaims_ok, shared_verifier, jwt. cbn [vf_secret vf_issuer vf_audience].
  rewrite Hp. cbn. rewrite Hid, Hrole.
  rewrite (bool_decide_eq_false_2 (tm_secret _ = _)) by done. rewrite (bool_decide_eq_true_2 (_ < _)) by lia. rewrite (bool_decide_eq_false_2 (us_ID u = uuid_nil)) by done.
  rewrite (bool_decide_eq_false_2 (us_ID u = "")) by done. split_and!; done.
Qed.
End tokens.
