(* ===== verification/AuthDelivery.v ===== *)
(** Auth service: accounts and events in every reachable database, which bodies
    carry credentials, and how events reach the broker. *)

From S2P Require Import Prelude Effects GoStd InvModel FulHandler FulModel CatJson AuthLimits AuthModel AuthSteps AuthOutbox AuthHandler AuthInv.

(** ** Accounts *)

(** What the process does: a request, an attempt of the outbox worker, a round
    of the cleanup. *)
Inductive AOp :=
  | OpServe (timeout : Z) (route : ARoute)
  | OpDispatch (timeout : Z) (run : BrokerRun)
  | OpCleanup.

Section claims.
Context {uuid : UuidLib} {lib : AuthLib} {laws : AuthLaws lib} {jwt : Jwt} {http : HttpLib} {conn : PgConn} (s : AuthService).

Definition run_op (op : AOp) : M ASt AErr unit :=
  match op with
  | OpServe timeout route => auth_serve s timeout route ;; mret tt
  | OpDispatch timeout run => DispatchOne timeout (λ _, mret (Rabbit_Publish run)) ;; mret tt
  | OpCleanup => CleanupSignupReceipts ;; mret tt
  end.

Lemma run_op_acts op : acts (sv_bcryptCost s) (run_op op).
Proof.
  destruct op; (apply acts_bind; [|acting]).
  - apply auth_serve_acts.
  - apply DispatchOne_acts. acting.
  - apply CleanupSignupReceipts_acts.
Qed.

(** C30.  Whatever a request, the outbox worker or the cleanup does and whatever
    fails on the way, the database changes by whole steps of the account
    machine.  In every database that such steps reach, in any order: no two
    accounts share an email; every account has a canonical identity, a
    normalized email, a valid name, role and status, and a bcrypt hash of a
    valid password at the configured cost; every account is announced by exactly
    one event, every event announces an account; and every receipt belongs to an
    account. *)
Theorem accounts_invariant :
  (∀ op o w, good_ids o → rtc (astep (sv_bcryptCost s) (λ _, True)) (as_db (w_db w)) (as_db (w_db (run_op op o w).2))) ∧
  ∀ d, rtc (astep (sv_bcryptCost s) (λ _, True)) empty_adb d →
    (∀ i j u v, a_users d !! i = Some u → a_users d !! j = Some v → us_Email u = us_Email v → i = j) ∧
    (∀ id u, a_users d !! id = Some u → us_ID u = id ∧ account_ok (sv_bcryptCost s) u) ∧
    (∀ id u, a_users d !! id = Some u → ∃ eid e, (a_outbox d !! eid = Some e ∧ announces u e) ∧
       ∀ eid' e', a_outbox d !! eid' = Some e' → announces u e' → eid' = eid) ∧
    (∀ eid e, a_outbox d !! eid = Some e → ae_ID e = eid ∧ ae_EventType e = registered_event ∧ ∃ id u, a_users d !! id = Some u ∧ announces u e) ∧
    ∀ key r, a_receipts d !! key = Some r → ∃ id v, a_users d !! id = Some v ∧ receipt_of (sv_bcryptCost s) v r.
Proof using laws.
  split; [intros op o w Hid; by apply run_op_acts|]. intros d Hd.
  assert (AInv (sv_bcryptCost s) d) as [Hu He Hev Han Honce Hrc] by (eapply asteps_inv; [exact Hd|apply empty_ainv]).
  split_and!; try done. intros id u Hid. destruct (Han id u Hid) as (eid & e & Hi & Ha). exists eid, e. split; [done|].
  intros eid' e' Hi' Ha'. by apply (Honce eid' eid e' e id u).
Qed.
End claims.

(** ** Credentials *)

Section decode.
Context {http : HttpLib}.

(** The tokens of an object of texts. *)
Definition pair_tokens (l : list (string * string)) : list JTok := l ≫= λ p, [TStr p.1; TStr p.2].

Lemma credential_loop_sound required l fields ts fields' rest : length ts = l → credential_loop required fields ts = Some (fields', rest) →
  ∃ kvs, ts = pair_tokens kvs ++ TEndObj :: rest ∧ NoDup kvs.*1 ∧ (∀ k, k ∈ kvs.*1 → k ∈ required ∧ fields !! k = None) ∧
    fields' = list_to_map kvs ∪ fields.
Proof.
  revert fields ts. induction (lt_wf l) as [l _ IH]. intros fields ts Hl H.
  destruct ts as [|[] ts]; try done; cbn in H.
  - injection H as <- <-. exists []. cbn. split_and!; [done|constructor|by intros k Hk%elem_of_nil|]. by rewrite map_empty_union.
  - destruct ts as [|[] ts]; try done. destruct (_ || _) eqn:Hb in H; [done|].
    apply orb_false_iff in Hb as [Hin%negb_false_iff%bool_decide_eq_true Hnone%bool_decide_eq_false].
    eapply (IH (length ts)) in H as (kvs & -> & Hnd & Hk & ->); [|cbn in *; lia|done].
    exists ((s, s0) :: kvs). cbn. split_and!; [done|..].
    + constructor; [|done]. intros Hs. destruct (Hk s Hs) as [_ Hs']. by rewrite lookup_insert_eq in Hs'.
    + intros k [->|Hk']%elem_of_cons; [by split; [|apply eq_None_not_Some]|]. destruct (Hk k Hk') as [H1 H2]. split; [done|].
      destruct (decide (s = k)) as [->|Hne]; [by rewrite lookup_insert_eq in H2|by rewrite lookup_insert_ne in H2].
    + rewrite <-insert_union_r; [by rewrite insert_union_l|]. apply not_elem_of_list_to_map. intros Hs.
      destruct (Hk s Hs) as [_ Hs']. by rewrite lookup_insert_eq in Hs'.
Qed.

Lemma credential_loop_complete required kvs fields rest : NoDup kvs.*1 → (∀ k, k ∈ kvs.*1 → k ∈ required ∧ fields !! k = None) →
  credential_loop required fields (pair_tokens kvs ++ TEndObj :: rest) = Some (list_to_map kvs ∪ fields, rest).
Proof.
  revert fields. induction kvs as [|[k v] kvs IH]; intros fields Hnd Hk; cbn; [by rewrite map_empty_union|].
  apply NoDup_cons in Hnd as [Hnot Hnd]. destruct (Hk k) as [H1 H2]; [by left|].
  rewrite bool_decide_eq_true_2, bool_decide_eq_false_2 by (done || by rewrite H2; intros []). cbn.
  rewrite IH; [|done|].
  - by rewrite <-insert_union_r by (by apply not_elem_of_list_to_map); rewrite insert_union_l.
  - intros k' Hk'. destruct (Hk k') as [H3 H4]; [by right|]. split; [done|]. rewrite lookup_insert_ne; [done|]. intros ->. done.
Qed.

Lemma size_pairs (kvs : list (string * string)) : NoDup kvs.*1 → size (list_to_map kvs : gmap string string) = length kvs.
Proof.
  induction kvs as [|[k v] kvs IH]; intros Hnd; [done|]. apply NoDup_cons in Hnd as [Hk Hnd]. cbn.
  rewrite map_size_insert_None by by apply not_elem_of_list_to_map. by rewrite IH.
Qed.

(** A body carries credentials exactly when it is valid UTF-8, one JSON
    object and nothing after it, whose members are the required ones, each once,
    in any order, and all of them texts; then the texts are read as they are.
    So nulls, numbers, nesting, repeated, missing and unknown members are
    refused, and every such object is accepted. *)
Theorem credentials_exact body required fields : NoDup required →
  decodeCredentials body required = Some fields ↔
  utf8_valid body = true ∧ ∃ members, http_tokens body = MkJTokens (TObj :: pair_tokens members ++ [TEndObj]) true ∧
    members.*1 ≡ₚ required ∧ ∀ k, fields !! k = snd <$> find (λ m, bool_decide (m.1 = k)) members.
Proof.
  intros Hreq. unfold decodeCredentials.
  assert (∀ kvs : list (string * string), NoDup kvs.*1 → ∀ k, (list_to_map kvs : gmap string string) !! k = snd <$> find (λ m, bool_decide (m.1 = k)) kvs) as Hmap.
  { induction kvs as [|[k v] kvs IH]; intros Hnd k'; cbn; [done|]. apply NoDup_cons in Hnd as [_ Hnd]. case_bool_decide as Heq.
    - subst. by rewrite lookup_insert_eq.
    - rewrite lookup_insert_ne by done. by apply IH. }
  destruct (utf8_valid body); cbn [negb]; [|naive_solver]. destruct (http_tokens body) as [ts eof].
  split.
  - destruct ts as [|[] ts]; try done. destruct (credential_loop _ _ _) as [[fs rest]|] eqn:Hl; [|done].
    destruct (_ || _) eqn:Hb; [done|]. intros [= <-]. rewrite !orb_false_iff, !negb_false_iff, !bool_decide_eq_true in Hb. destruct Hb as ((Hsize & ->) & ->).
    apply (credential_loop_sound required (length ts) ∅ ts) in Hl as (kvs & -> & Hnd & Hk & ->); [|done]. rewrite map_union_empty in *.
    split; [done|]. exists kvs. split_and!; [done| |by apply Hmap]. rewrite size_pairs in Hsize by done.
    apply submseteq_length_Permutation; [apply NoDup_submseteq; [done|]; intros k Hin; by apply Hk|]. rewrite length_fmap. lia.
  - intros (_ & kvs & [= -> ->] & Hperm & Hf). assert (NoDup kvs.*1) as Hnd by by rewrite Hperm.
    rewrite credential_loop_complete by (done || intros k Hk; by rewrite <-Hperm). rewrite map_union_empty.
    assert (length kvs = length required) as Hlen by (rewrite <-(length_fmap fst); by apply Permutation_length).
    rewrite size_pairs by done. rewrite !bool_decide_eq_true_2 by done. cbn. f_equal.
    apply map_eq. intros k. by rewrite Hf, Hmap.
Qed.
End decode.

(** Auth service: several outbox workers, a broker and the rest of the service,
    interleaved at the level of single statements, with lost replies and
    crashes.

    An attempt is in flight from its claim to the end of its finishing
    statement.  [ds_broker] lists the messages that RabbitMQ has taken and
    routed. *)


(** Attempts that hold an event and have not reached the broker, and those that
    know how it went. *)
Record DSys := MkDSys { ds_db : ADB; ds_held : list AEvent; ds_tried : list (AEvent * bool); ds_broker : list AMessage }.

(** The rest of the service adds events, fresh ones, and changes none. *)
Definition outbox_grows (d d' : ADB) : Prop :=
  (∀ id e, a_outbox d !! id = Some e → a_outbox d' !! id = Some e) ∧
  (∀ id e, a_outbox d' !! id = Some e → a_outbox d !! id = Some e ∨
     (a_outbox d !! id = None ∧ ae_ID e = id ∧ ae_PublishedAt e = None ∧ ae_Attempts e = 0)).

Section delivery.
Context {uuid : UuidLib} {lib : AuthLib} (cost : Z).
Implicit Types (d : ADB) (e : AEvent) (x : DSys).

(** [taken]: the broker has taken the message.  A confirmation means that, but
    it may also have done so when none arrived. *)
Inductive dstep x : DSys → Prop :=
  | D_claim timeout t e d' : claim_event timeout t (ds_db x) = inr (Some e, d') →
      dstep x (MkDSys d' (e :: ds_held x) (ds_tried x) (ds_broker x))
  | D_claim_lost timeout t r d' : claim_event timeout t (ds_db x) = inr (r, d') →
      dstep x (MkDSys d' (ds_held x) (ds_tried x) (ds_broker x))
  | D_refuse held1 held2 e : ds_held x = held1 ++ e :: held2 → MessageFor e = None →
      dstep x (MkDSys (ds_db x) (held1 ++ held2) ((e, false) :: ds_tried x) (ds_broker x))
  | D_publish held1 held2 e m run (taken : bool) : ds_held x = held1 ++ e :: held2 → MessageFor e = Some m →
      (Rabbit_Publish run = None → taken = true) →
      dstep x (MkDSys (ds_db x) (held1 ++ held2) ((e, bool_decide (Rabbit_Publish run = None)) :: ds_tried x)
        (if taken then m :: ds_broker x else ds_broker x))
  | D_finish tried1 tried2 e ok t n d' : ds_tried x = tried1 ++ (e, ok) :: tried2 → finish_event e ok t (ds_db x) = inr (n, d') →
      dstep x (MkDSys d' (ds_held x) (tried1 ++ tried2) (ds_broker x))
  | D_finish_fails tried1 tried2 e ok : ds_tried x = tried1 ++ (e, ok) :: tried2 →
      dstep x (MkDSys (ds_db x) (ds_held x) (tried1 ++ tried2) (ds_broker x))
  | D_crash : dstep x (MkDSys (ds_db x) [] [] (ds_broker x))
  | D_other d' : rtc (astep cost (λ _, True)) (ds_db x) d' → outbox_grows (ds_db x) d' →
      dstep x (MkDSys d' (ds_held x) (ds_tried x) (ds_broker x)).

Definition in_flight x : list AEvent := ds_held x ++ (ds_tried x).*1.

(** An attempt, by its event and its number. *)
Definition attempt e : string * Z := (ae_ID e, ae_Attempts e).

Record dinv x : Prop := {
  di_ids : ∀ id e, a_outbox (ds_db x) !! id = Some e → ae_ID e = id;
  di_flight : ∀ e, e ∈ in_flight x → ∃ row, a_outbox (ds_db x) !! ae_ID e = Some row ∧ same_event row e ∧ ae_Attempts e ≤ ae_Attempts row;
  di_distinct : NoDup (attempt <$> in_flight x);
  di_tried : ∀ e, (e, true) ∈ ds_tried x → ∃ m, MessageFor e = Some m ∧ m ∈ ds_broker x;
  di_published : ∀ id e, a_outbox (ds_db x) !! id = Some e → ae_PublishedAt e ≠ None → ∃ m, MessageFor e = Some m ∧ m ∈ ds_broker x;
  di_broker : ∀ m, m ∈ ds_broker x → ∃ id e, a_outbox (ds_db x) !! id = Some e ∧ MessageFor e = Some m
}.

Lemma same_event_message e f : same_event e f → MessageFor f = MessageFor e.
Proof. intros (E1 & E2 & E3 & E4). unfold MessageFor. by rewrite E1, E2, E3, E4. Qed.
Lemma same_event_sym e f : same_event e f → same_event f e.
Proof. intros (E1 & E2 & E3 & E4). done. Qed.
Lemma same_event_trans e f g : same_event e f → same_event f g → same_event e g.
Proof. intros (E1 & E2 & E3 & E4) (F1 & F2 & F3 & F4). unfold same_event. by rewrite F1, F2, F3, F4. Qed.
#[local] Hint Resolve same_event_sym same_event_trans : core.

(** A row replaced by one of the same event, with at least as many attempts. *)
Lemma dinv_update x id row row' : dinv x → a_outbox (ds_db x) !! id = Some row → same_event row row' → ae_Attempts row ≤ ae_Attempts row' →
  (ae_PublishedAt row' ≠ None → ∃ m, MessageFor row = Some m ∧ m ∈ ds_broker x) →
  dinv (MkDSys (set_outbox <[id := row']> (ds_db x)) (ds_held x) (ds_tried x) (ds_broker x)).
Proof.
  intros [Hid Hfl Hd Htr Hpub Hbr] Hrow Hsame Hle Hp. split; cbn; try done.
  - intros i e [[<- <-]|[_ Hi]]%lookup_insert_Some; [|auto]. destruct Hsame as [-> _]. auto.
  - intros e He. destruct (Hfl e He) as (r & Hr & Hs & Hl). destruct (decide (id = ae_ID e)) as [->|Hne].
    + rewrite lookup_insert_eq. exists row'. simplify_eq. split_and!; [done|eauto|lia].
    + rewrite lookup_insert_ne by done. eauto.
  - intros i e [[<- <-]|[_ Hi]]%lookup_insert_Some Hpe; [|eauto]. rewrite (same_event_message row row') by done. auto.
  - intros m Hm. destruct (Hbr m Hm) as (i & e & Hi & He). destruct (decide (id = i)) as [->|Hne].
    + exists i, row'. rewrite lookup_insert_eq. split; [done|]. assert (e = row) as -> by congruence. by rewrite (same_event_message row row').
    + exists i, e. by rewrite lookup_insert_ne.
Qed.

(** Attempts that leave. *)
Lemma dinv_fewer x held tried : dinv x → held ⊆ ds_held x → tried ⊆ ds_tried x → NoDup (attempt <$> held ++ tried.*1) →
  dinv (MkDSys (ds_db x) held tried (ds_broker x)).
Proof.
  intros [Hid Hfl Hd Htr Hpub Hbr] H1 H2 Hnd. split; cbn; try done; [|auto].
  intros e He. apply Hfl. unfold in_flight in *. cbn in He. rewrite elem_of_app in *. destruct He as [He|He]; [auto|right].
  apply list_elem_of_fmap in He as (y & -> & Hy). apply list_elem_of_fmap. eauto.
Qed.

(** An attempt that has been to the broker, or was not fit for it. *)
Lemma dinv_tried x held1 held2 e ok broker : dinv x → ds_held x = held1 ++ e :: held2 → ds_broker x ⊆ broker →
  (ok = true → ∃ m, MessageFor e = Some m ∧ m ∈ broker) → (∀ m, m ∈ broker → m ∈ ds_broker x ∨ MessageFor e = Some m) →
  dinv (MkDSys (ds_db x) (held1 ++ held2) ((e, ok) :: ds_tried x) broker).
Proof.
  intros [Hid Hfl Hd Htr Hpub Hbr] Hh Hsub Hok Hnew.
  assert ((held1 ++ held2) ++ e :: (ds_tried x).*1 ≡ₚ in_flight x) as Hperm by (unfold in_flight; rewrite Hh; solve_Permutation).
  split; cbn; try done.
  - intros f Hf. apply Hfl. unfold in_flight in Hf. cbn in Hf. by rewrite Hperm in Hf.
  - unfold in_flight. cbn. by rewrite Hperm.
  - intros f [[= -> <-]|Hf]%elem_of_cons; [by apply Hok|]. destruct (Htr f Hf) as (m & Hm & Hin). eauto.
  - intros id f Hf Hp. destruct (Hpub id f Hf Hp) as (m & Hm & Hin). eauto.
  - intros m [Hm|Hm]%Hnew; [by apply Hbr|]. destruct (Hfl e) as (row & Hrow & Hs & _).
    { unfold in_flight. rewrite Hh. set_solver. }
    exists (ae_ID e), row. split; [done|]. by rewrite <-(same_event_message row e).
Qed.

Lemma dinv_drop x tried1 tried2 p : dinv x → ds_tried x = tried1 ++ p :: tried2 →
  dinv (MkDSys (ds_db x) (ds_held x) (tried1 ++ tried2) (ds_broker x)).
Proof.
  intros Hx Ht. apply dinv_fewer; [done..|rewrite Ht; set_solver|]. destruct Hx as [_ _ Hd _ _ _]. unfold in_flight in Hd. rewrite Ht in Hd.
  eapply sublist_NoDup; [exact Hd|]. rewrite !fmap_app, !fmap_cons. apply sublist_app; [done|]. apply sublist_app; [done|]. by apply sublist_cons.
Qed.

Lemma tried_in_flight x e ok : (e, ok) ∈ ds_tried x → e ∈ in_flight x.
Proof. intros H. apply elem_of_app. right. apply list_elem_of_fmap. by exists (e, ok). Qed.

Lemma dstep_inv x y : dstep x y → dinv x → dinv y.
Proof.
  intros Hs Hx. destruct Hs as [timeout t e d' Hc|timeout t r d' Hc|h1 h2 e Hh Hm|h1 h2 e m run taken Hh Hm Htaken|t1 t2 e ok t n d' Ht Hf|t1 t2 e ok Ht| |d' _ [Hg1 Hg2]].
  - apply claim_event_ok in Hc as [(? & _)|(id & row & _ & Hrow & [Hp _]%due_pending & [= ->] & ->)]; [done|].
    assert (dinv (MkDSys (set_outbox <[id := leased timeout t row]> (ds_db x)) (ds_held x) (ds_tried x) (ds_broker x))) as [Hid Hfl Hd Htr Hpub Hbr].
    { eapply dinv_update; try done; cbn; try lia; by rewrite Hp. }
    split; cbn in *; try done.
    + intros f [->|Hf]%elem_of_cons; [|by apply Hfl]. exists (leased timeout t row). cbn. rewrite (di_ids _ Hx id row Hrow), lookup_insert_eq. by split_and!.
    + constructor; [|done]. intros (f & Heq & Hf)%list_elem_of_fmap. destruct (di_flight _ Hx f Hf) as (r & Hr & _ & Hle).
      injection Heq as E1 E2. rewrite <-E1, (di_ids _ Hx id row Hrow) in Hr. simplify_eq. cbn in E2. lia.
  - apply claim_event_ok in Hc as [(_ & -> & _)|(id & row & _ & Hrow & [Hp _]%due_pending & _ & ->)]; [by destruct x|].
    eapply dinv_update; try done; cbn; try lia; by rewrite Hp.
  - apply dinv_tried; try done. by left.
  - apply dinv_tried; try done.
    + destruct taken; set_solver.
    + intros Hok%bool_decide_eq_true. rewrite (Htaken Hok). exists m. split; [done|by left].
    + intros m'. destruct taken; [intros [->|?]%elem_of_cons|]; auto.
  - assert (dinv (MkDSys d' (ds_held x) (ds_tried x) (ds_broker x))) as Hd'; [|by apply (dinv_drop (MkDSys d' (ds_held x) (ds_tried x) (ds_broker x)) t1 t2 (e, ok))].
    apply finish_event_ok in Hf as [(_ & -> & _)|(row & _ & Hrow & Ha & Hp & ->)]; [by destruct x|].
    eapply dinv_update; try done. intros Hpub. destruct ok; [|done].
    destruct (di_tried _ Hx e) as (m & Hm & Hin); [rewrite Ht; set_solver|]. exists m. split; [|done].
    destruct (di_flight _ Hx e) as (r & Hr & Hsame & _); [eapply (tried_in_flight _ e true); rewrite Ht; set_solver|]. assert (r = row) as -> by congruence. by rewrite <-(same_event_message row e).
  - by eapply dinv_drop.
  - apply dinv_fewer; [done|set_solver..|constructor].
  - destruct Hx as [Hid Hfl Hd Htr Hpub Hbr]. split; cbn; try done.
    + intros id e [He|(_ & He & _)]%Hg2; auto.
    + intros e He. destruct (Hfl e He) as (row & Hrow & H). eauto.
    + intros id e [He|(_ & _ & He & _)]%Hg2 Hp; [eauto|done].
    + intros m Hm. destruct (Hbr m Hm) as (id & e & He & H). eauto.
Qed.

(** Every step of the account machine is one of those in [D_other] or the
    delivery of a pending event. *)
Lemma astep_outbox P d d' : astep cost P d d' →
  outbox_grows d d' ∨ ∃ id e f, a_outbox d !! id = Some e ∧ ae_PublishedAt e = None ∧ same_event e f ∧ d' = set_outbox <[id := f]> d.
Proof.
  assert (∀ eid e, a_outbox d !! eid = None → ae_ID e = eid → ae_PublishedAt e = None → ae_Attempts e = 0 →
    ∀ d1, a_outbox d1 = <[eid := e]> (a_outbox d) → outbox_grows d d1) as Hnew.
  { intros eid e Hn H1 H2 H3 d1 Hd1. split; rewrite Hd1; intros id f.
    - intros Hf. rewrite lookup_insert_ne; [done|]. congruence.
    - intros [[<- <-]|[_ Hf]]%lookup_insert_Some; auto. }
  assert (∀ d1, a_outbox d1 = a_outbox d → outbox_grows d d1) as Hsame by (intros d1 E; split; rewrite E; auto).
  destruct 1 as [u eid payload t _ _ (_ & _ & _ & Hn & _)|u eid payload t k resp t0 t1 _ _ _ _ (_ & _ & _ & Hn & _) _ _| | |eid e f He Hp Hs|].
  - left. by apply (Hnew eid (MkAEvent eid registered_event payload t None 0 t)).
  - left. by apply (Hnew eid (MkAEvent eid registered_event payload t None 0 t)).
  - left. by apply Hsame.
  - left. by apply Hsame.
  - right. eauto 10.
  - left. by apply Hsame.
Qed.

(** A published event is left alone. *)
Lemma dstep_published x y id e : dstep x y → a_outbox (ds_db x) !! id = Some e → ae_PublishedAt e ≠ None → a_outbox (ds_db y) !! id = Some e.
Proof.
  assert (∀ d i row f, a_outbox d !! i = Some row → ae_PublishedAt row = None → a_outbox d !! id = Some e → ae_PublishedAt e ≠ None →
    a_outbox (set_outbox <[i := f]> d) !! id = Some e) as Hother.
  { intros d i row f Hi Hp He Hpe. cbn. rewrite lookup_insert_ne; [done|]. congruence. }
  intros Hs He Hp. destruct Hs as [timeout t f d' Hc|timeout t r d' Hc| | |t1 t2 f ok t n d' Ht Hf| | |d' _ [Hg1 _]]; cbn; auto.
  - apply claim_event_ok in Hc as [(? & _)|(i & row & _ & Hrow & [Hq _]%due_pending & _ & ->)]; [done|eauto].
  - apply claim_event_ok in Hc as [(_ & -> & _)|(i & row & _ & Hrow & [Hq _]%due_pending & _ & ->)]; [done|eauto].
  - apply finish_event_ok in Hf as [(_ & -> & _)|(row & _ & Hrow & _ & Hq & ->)]; [done|eauto].
Qed.

(** The database of the system is one of the account machine. *)
Lemma dstep_accounts x y : dstep x y → rtc (astep cost (λ _, True)) (ds_db x) (ds_db y).
Proof.
  intros Hs. destruct Hs as [timeout t f d' Hc|timeout t r d' Hc| | |t1 t2 f ok t n d' Ht Hf| | |d' Hd _]; cbn; try done.
  - apply claim_event_ok in Hc as [(? & _)|(i & row & _ & Hrow & [Hq _]%due_pending & _ & ->)]; [done|]. by eapply rtc_once, A_deliver.
  - apply claim_event_ok in Hc as [(_ & -> & _)|(i & row & _ & Hrow & [Hq _]%due_pending & _ & ->)]; [done|]. by eapply rtc_once, A_deliver.
  - apply finish_event_ok in Hf as [(_ & -> & _)|(row & _ & Hrow & _ & Hq & ->)]; [done|]. by eapply rtc_once, A_deliver.
Qed.

Definition dsys_start : DSys := MkDSys empty_adb [] [] [].

Lemma dsys_start_inv : dinv dsys_start.
Proof. split; cbn; try done; try (intros *; rewrite ?lookup_empty; done); [by intros e ?%elem_of_nil|constructor|by intros e ?%elem_of_nil|by intros m ?%elem_of_nil]. Qed.

Lemma dreach_inv x : rtc dstep dsys_start x → dinv x.
Proof. apply (rtc_ind_r dinv); [apply dsys_start_inv|]. intros y z _ Hs Hy. by eapply dstep_inv. Qed.
Lemma dreach_accounts x : rtc dstep dsys_start x → rtc (astep cost (λ _, True)) empty_adb (ds_db x).
Proof. apply (rtc_ind_r (λ x, rtc (astep cost (λ _, True)) empty_adb (ds_db x))); [done|]. intros y z _ Hs Hy. etrans; [done|by apply dstep_accounts]. Qed.
Lemma published_stays x y id e : rtc dstep x y → a_outbox (ds_db x) !! id = Some e → ae_PublishedAt e ≠ None → a_outbox (ds_db y) !! id = Some e.
Proof. induction 1 as [|x1 x2 x3 Hs _ IH]; [done|]. intros He Hp. apply IH; [|done]. by eapply dstep_published. Qed.
End delivery.

(** ** Progress of the outbox worker *)

Lemma retryDelay_bounds n : second ≤ retryDelay n ≤ 5 * minute.
Proof.
  unfold retryDelay. assert (1 ≤ 2 ^ Z.min (Z.max (n - 1) 0) 9); [|unfold minute, second in *; lia].
  replace 1 with (2 ^ 0) by done. apply Z.pow_le_mono_r; lia.
Qed.
Lemma retryDelay_mono n m : n ≤ m → retryDelay n ≤ retryDelay m.
Proof.
  intros H. unfold retryDelay. assert (2 ^ Z.min (Z.max (n - 1) 0) 9 ≤ 2 ^ Z.min (Z.max (m - 1) 0) 9) by (apply Z.pow_le_mono_r; lia).
  unfold minute, second. lia.
Qed.
(** Whole milliseconds, so that nothing is lost on the way to PostgreSQL. *)
Lemma retryDelay_millis n : in_millis (retryDelay n) = retryDelay n.
Proof.
  unfold in_millis. pose proof (retryDelay_bounds n) as Hb. assert (∃ q, retryDelay n = q * millisecond) as [q ->].
  { unfold retryDelay. destruct (Z.min_spec (2 ^ Z.min (Z.max (n - 1) 0) 9 * second) (5 * minute)) as [[_ ->]|[_ ->]].
    - exists (2 ^ Z.min (Z.max (n - 1) 0) 9 * 1000). unfold second, millisecond. lia.
    - by exists 300000. }
  by rewrite Z.quot_mul.
Qed.

Section progress.
Context {uuid : UuidLib} {lib : AuthLib} {laws : AuthLaws lib} (cost timeout : Z) (run : BrokerRun).
Implicit Types (o : oracle) (w : world ASt).

Definition dispatch : M ASt AErr (bool * option AErr) := DispatchOne timeout (λ _, mret (Rabbit_Publish run)).

(** The next event, as an attempt at the clock readings [t0] and [t1] leaves it. *)
Definition attempt_error (e : AEvent) : option AErr := match MessageFor e with None => Some AInvalidEvent | Some _ => Rabbit_Publish run end.
Definition attempted (t0 t1 : Z) (e : AEvent) : AEvent :=
  MkAEvent (ae_ID e) (ae_EventType e) (ae_Payload e) (ae_CreatedAt e) (if bool_decide (attempt_error e = None) then Some t1 else None)
    (ae_Attempts e + 1) (t1 + retryDelay (ae_Attempts e + 1)).

Definition put_outbox (f : gmap string AEvent → gmap string AEvent) w : ASt :=
  MkASt (set_outbox f (as_db (w_db w))) (as_compares (w_db w)) (as_limiter (w_db w)) (as_failures (w_db w)).

Lemma write_run {B} (f : Z → ADB → dberr + (B * ADB)) o w : reliable o → adb_write f o w = pool_stmt (on_db f) o w.
Proof. intros H. unfold adb_write. by rewrite H. Qed.

(** One attempt, when the database answers. *)
Lemma dispatch_run o w id e (t0 := or_clock o (w_tick w)) (t1 := or_clock o (S (w_tick w))) : reliable o →
  head (due_events t0 (as_db (w_db w))) = Some (id, e) → ae_ID e = id → ae_Attempts e < MaxInt32 →
  dispatch o w = (inr (true, attempt_error e), World (put_outbox <[id := attempted t0 t1 e]> w) (S (S (w_tick w))) (w_aborted w) (w_locks w)).
Proof.
  intros Hrel Hhead Hid Hmax. assert (a_outbox (as_db (w_db w)) !! id = Some e ∧ due t0 e = true) as [He Hdue].
  { apply due_events_spec. destruct (due_events _ _); [done|]. cbn in Hhead. injection Hhead as ->. by left. }
  destruct (due_pending _ _ Hdue) as [Hpend _].
  unfold dispatch, DispatchOne, mbind, M_bind, try. rewrite write_run by done. unfold pool_stmt, on_db at 1, claim_event. rewrite Hrel. fold t0.
  destruct (due_events t0 _) as [|[i x] l]; [done|]. cbn in Hhead. injection Hhead as -> ->.
  rewrite bool_decide_eq_false_2 by lia. cbn [fst snd].
  rewrite (same_event_message e (leased timeout t0 e)) by done.
  assert (∀ err w1, w1 = World (put_outbox <[id := leased timeout t0 e]> w) (S (w_tick w)) (w_aborted w) (w_locks w) → err = attempt_error e →
    adb_write (finish_event (leased timeout t0 e) (bool_decide (err = None))) o w1 =
    (inr 1, World (put_outbox <[id := attempted t0 t1 e]> w) (S (S (w_tick w))) (w_aborted w) (w_locks w))) as Hfin.
  { intros err w1 -> ->. rewrite write_run by done. unfold pool_stmt, on_db, finish_event. rewrite Hrel.
    cbn [w_tick w_db as_db put_outbox set_outbox a_outbox ae_ID leased]. rewrite Hid, lookup_insert_eq.
    cbn [ae_Attempts ae_PublishedAt leased]. rewrite Hpend, !bool_decide_eq_true_2 by done. cbn [andb].
    unfold finished. cbn [ae_Attempts leased]. rewrite retryDelay_millis. unfold put_outbox, set_outbox. cbn. by rewrite insert_insert_eq. }
  unfold attempt_error in *. destruct (MessageFor e) as [m|]; unfold mret, M_ret; (erewrite Hfin; [|reflexivity|reflexivity]); done.
Qed.

(** Without a due event nothing happens. *)
Lemma dispatch_idle o w : reliable o → due_events (or_clock o (w_tick w)) (as_db (w_db w)) = [] →
  (dispatch o w).1 = inr (false, None) ∧ as_db (w_db (dispatch o w).2) = as_db (w_db w).
Proof.
  intros Hrel Hnone. unfold dispatch, DispatchOne, mbind, M_bind, try. rewrite write_run by done. unfold pool_stmt, on_db, claim_event. rewrite Hrel, Hnone. done.
Qed.

(** [n] attempts, one after the other. *)
Fixpoint dispatches (n : nat) : M ASt AErr (list (bool * option AErr)) :=
  match n with
  | O => mret []
  | S n => r ← dispatch; l ← dispatches n; mret (r :: l)
  end.

Definition pending (d : ADB) : gmap string AEvent := filter (λ x, ae_PublishedAt x.2 = None) (a_outbox d).

(** Every pending event is fit for the broker and due whenever the clock is read. *)
Definition deliverable o (d : ADB) : Prop := ∀ id e, a_outbox d !! id = Some e → ae_ID e = id ∧
  (ae_PublishedAt e = None → MessageFor e ≠ None ∧ ae_Attempts e < MaxInt32 ∧ ∀ n, ae_NextAttemptAt e ≤ or_clock o n).

Lemma pending_due o d t : deliverable o d → (∃ n, t = or_clock o n) → due_events t d = [] → pending d = ∅.
Proof.
  intros Hd [n ->] Hnone. apply map_empty. intros id. destruct (pending d !! id) as [e|] eqn:He; [|done].
  apply map_lookup_filter_Some in He as [He Hp]. destruct (Hd id e He) as [_ (_ & _ & Hdue)]; [done|].
  assert ((id, e) ∈ due_events (or_clock o n) d) as Hin; [|rewrite Hnone in Hin; by apply elem_of_nil in Hin].
  apply due_events_spec. split; [done|]. unfold due. rewrite !bool_decide_eq_true_2 by done. done.
Qed.

Lemma nothing_due d t : pending d = ∅ → due_events t d = [].
Proof.
  intros Hnone. destruct (due_events t d) as [|[id e] l] eqn:Hdue; [done|]. exfalso.
  assert ((id, e) ∈ due_events t d) as [He [Hp _]%due_pending]%due_events_spec by (rewrite Hdue; by left).
  assert (pending d !! id = Some e) as Hin by by apply map_lookup_filter_Some. by rewrite Hnone in Hin.
Qed.

Lemma dispatches_drain n : ∀ o w, reliable o → Rabbit_Publish run = None → deliverable o (as_db (w_db w)) → size (pending (as_db (w_db w))) = n →
  ∃ w', dispatches n o w = (inr (repeat (true, None) n), w') ∧ pending (as_db (w_db w')) = ∅ ∧ deliverable o (as_db (w_db w')).
Proof.
  induction n as [|n IH]; intros o w Hrel Hrun Hdel Hsize.
  - apply map_size_empty_inv in Hsize. by exists w.
  - destruct (due_events (or_clock o (w_tick w)) (as_db (w_db w))) as [|[id e] l] eqn:Hdue.
    { apply (pending_due o) in Hdue; [|done|eauto]. rewrite Hdue, map_size_empty in Hsize. done. }
    assert ((id, e) ∈ due_events (or_clock o (w_tick w)) (as_db (w_db w))) as [He Hd]%due_events_spec by (rewrite Hdue; by left).
    destruct (due_pending _ _ Hd) as [Hp _]. destruct (Hdel id e He) as [Hid (Hm & Hmax & _)]; [done|].
    assert (attempt_error e = None) as Herr by (unfold attempt_error; by destruct (MessageFor e)).
    pose proof (dispatch_run o w id e Hrel ltac:(by rewrite Hdue) Hid Hmax) as Hrun1. rewrite Herr in Hrun1.
    set (e' := attempted _ _ e) in Hrun1. set (w1 := World _ _ _ _) in Hrun1.
    assert (ae_PublishedAt e' ≠ None) as Hpub by (unfold e', attempted; cbn; by rewrite Herr).
    destruct (IH o w1 Hrel Hrun) as (w' & Hrest & Hnone & Hdel').
    + intros i x Hi. apply (lookup_insert_Some (a_outbox (as_db (w_db w)))) in Hi as [[<- <-]|[_ Hi]]; [done|]. by apply Hdel.
    + unfold w1, put_outbox, pending. cbn. rewrite map_filter_insert_False by done.
      rewrite map_filter_delete. unfold pending in Hsize. rewrite map_size_delete_Some by (eexists; by apply map_lookup_filter_Some). lia.
    + exists w'. split_and!; try done. cbn. unfold mbind, M_bind. rewrite Hrun1, Hrest. done.
Qed.

(** C37.  Delivery of events by any number of workers, interleaved with the rest
    of the service, with lost replies and crashes anywhere: an event is marked as
    published only after the broker has taken its message, and then it stays so;
    every message at the broker is the one of a committed event, and that event
    announces a stored account: it carries the identity and time of the event and
    the user's id with the role and status of a new customer, and nothing else of
    the account; two attempts never share an event and a number, so the completion
    of an attempt that was overtaken changes nothing.  And when the database
    answers, the worker makes progress: an attempt takes the event that is due
    first, and marks it as published if the broker confirmed its message; otherwise
    it is tried again after a delay that grows from one second to at most five
    minutes.  If, besides, the broker confirms and every pending event is fit for
    it and already due, as many attempts as there are pending events publish all
    of them, and the next one finds nothing to do. *)
Theorem outbox_delivery x o w : rtc (dstep cost) dsys_start x → reliable o →
  (∀ id e, a_outbox (ds_db x) !! id = Some e → ae_PublishedAt e ≠ None →
     (∃ m, MessageFor e = Some m ∧ m ∈ ds_broker x) ∧ ∀ y, rtc (dstep cost) x y → a_outbox (ds_db y) !! id = Some e) ∧
  (∀ m, m ∈ ds_broker x → ∃ e u, a_outbox (ds_db x) !! ms_ID m = Some e ∧ a_users (ds_db x) !! us_ID u = Some u ∧ announces u e ∧
     m = MkAMessage (ae_ID e) (ae_CreatedAt e) (MkCloudEvent "1.0" (ae_ID e) "urn:gelatoflow:auth-service" EventType ("users/" +:+ us_ID u)
       (ae_CreatedAt e) "application/json" (us_ID u) RoleCustomer UserStatusActive)) ∧
  NoDup (attempt <$> in_flight x) ∧
  (∀ e ok row t, (e, ok) ∈ ds_tried x → a_outbox (ds_db x) !! ae_ID e = Some row → ae_Attempts e < ae_Attempts row →
    finish_event e ok t (ds_db x) = inr (0, ds_db x)) ∧
  (∀ id e, head (due_events (or_clock o (w_tick w)) (as_db (w_db w))) = Some (id, e) → ae_ID e = id → ae_Attempts e < MaxInt32 →
     ∃ e' t, (dispatch o w).1 = inr (true, attempt_error e) ∧ as_db (w_db (dispatch o w).2) = set_outbox <[id := e']> (as_db (w_db w)) ∧
       same_event e e' ∧ ae_Attempts e' = ae_Attempts e + 1 ∧
       ae_PublishedAt e' = (if bool_decide (attempt_error e = None) then Some t else None) ∧
       t + second ≤ ae_NextAttemptAt e' ≤ t + 5 * minute ∧ ae_NextAttemptAt e' = t + retryDelay (ae_Attempts e')) ∧
  (∀ n m, n ≤ m → retryDelay n ≤ retryDelay m) ∧
  (Rabbit_Publish run = None → deliverable o (as_db (w_db w)) →
     let n := size (pending (as_db (w_db w))) in
     ∃ w', dispatches n o w = (inr (repeat (true, None) n), w') ∧ pending (as_db (w_db w')) = ∅ ∧
       (dispatch o w').1 = inr (false, None) ∧ as_db (w_db (dispatch o w').2) = as_db (w_db w')).
Proof using laws.
  intros Hx Hrel. pose proof (dreach_inv _ _ Hx) as [Hid Hfl Hd Htr Hpub Hbr].
  assert (AInv cost (ds_db x)) as Hinv by (eapply asteps_inv; [by apply dreach_accounts|apply empty_ainv]).
  split_and!; [| |done| | | |].
  - intros id e He Hp. split; [by eapply Hpub|]. intros y Hy. by eapply published_stays.
  - intros m Hm. destruct (Hbr m Hm) as (id & e & He & Hmsg). destruct (ai_events _ _ Hinv _ _ He) as (Eid & _ & j & u & Hu & Ha).
    destruct (ai_users _ _ Hinv _ _ Hu) as [<- Hok]. unfold MessageFor in Hmsg. destruct (_ || _); [done|].
    rewrite (announces_id _ _ _ Hok Ha) in Hmsg. destruct (_ || _); [done|]. injection Hmsg as <-.
    exists e, u. cbn. by rewrite Eid.
  - intros e ok row t _ Hrow Hlt. unfold finish_event. rewrite Hrow, bool_decide_eq_false_2; [done|]. lia.
  - intros id e Hhead Hid' Hmax. rewrite (dispatch_run o w id e Hrel Hhead Hid' Hmax). eexists _, (or_clock o (S (w_tick w))).
    cbn [fst snd w_db as_db put_outbox attempted ae_Attempts ae_PublishedAt ae_NextAttemptAt].
    pose proof (retryDelay_bounds (ae_Attempts e + 1)). split_and!; try done; unfold attempted; cbn [ae_NextAttemptAt]; lia.
  - intros n m. apply retryDelay_mono.
  - intros Hrun Hdel n. destruct (dispatches_drain n o w Hrel Hrun Hdel eq_refl) as (w' & Hr & Hnone & Hdel').
    exists w'. split_and!; [done..|apply dispatch_idle; [done|]|apply dispatch_idle; [done|]]; by apply nothing_due.
Qed.
End progress.
