(* ===== verification/AuthAudit.v ===== *)
(** Auth service: the user agent that an audit record keeps is text that its
    column can store.

    The runes of a text determine it: decoding what [text_of] joins gives the
    runes back. *)

From Stdlib Require Import Ascii.
From S2P Require Import Prelude Effects GoStd InvModel FulHandler FulModel CatJson AuthLimits AuthModel AuthHandler AuthSteps AuthLogin.

(** A rune with the bytes that encode it: they decode to it before any text. *)
Definition good_rune (p : Z * list Z) : Prop :=
  p.2 ≠ [] ∧ Forall (λ b, 0 ≤ b < 256) p.2 ∧ bad_rune p = false ∧ (0 ∈ p.2 → p = (0, [0])) ∧
  ∀ rest, decode_rune (p.2 ++ rest) = (p.1, length p.2).

Lemma decode_rune_width l : l ≠ [] → (1 ≤ (decode_rune l).2)%nat.
Proof. destruct l as [|b l]; [done|]. intros _. unfold decode_rune. repeat case_match; cbn; lia. Qed.

Lemma between_spec lo hi b : between lo hi b = true ↔ lo ≤ b ≤ hi.
Proof. unfold between. by rewrite andb_true_iff, !Z.leb_le. Qed.

(** A rune that is not bad is encoded the same way wherever it stands, and has
    no zero byte unless it is zero. *)
Lemma decode_rune_stands b0 l : 0 ≤ b0 → let p := ((decode_rune (b0 :: l)).1, take (decode_rune (b0 :: l)).2 (b0 :: l)) in
  bad_rune p = false → (∀ rest, decode_rune (p.2 ++ rest) = (p.1, length p.2)) ∧ (0 ∈ p.2 → p = (0, [0])).
Proof.
  intros Hpos. cbn [decode_rune]. destruct (b0 <? 128) eqn:E0.
  { intros _. cbn [fst snd take]. split; [intros rest; cbn; by rewrite E0|]. intros [<-|?%elem_of_nil]%elem_of_cons; done. }
  apply Z.ltb_ge in E0 as Hge. destruct (between 194 223 b0) eqn:E1.
  { destruct l as [|b1 l]; [done|]. destruct (continuation b1) eqn:E2; [|done]. intros _. cbn [fst snd take]. split; [intros rest; cbn; by rewrite E0, E1, E2|].
    apply between_spec in E2. intros Hin. repeat (apply elem_of_cons in Hin as [Hin|Hin]; [lia|]). by apply elem_of_nil in Hin. }
  destruct (between 224 239 b0) eqn:E2.
  { destruct l as [|b1 [|b2 l]]; [done..|]. destruct (between _ _ b1 && continuation b2) eqn:E3; [|done].
    intros _. cbn [fst snd take]. split; [intros rest; cbn; by rewrite E0, E1, E2, E3|]. apply andb_true_iff in E3 as [E3%between_spec E4%between_spec].
    intros Hin. repeat (apply elem_of_cons in Hin as [Hin|Hin]; [repeat case_match; lia|]). by apply elem_of_nil in Hin. }
  destruct (between 240 244 b0) eqn:E3; [|done].
  destruct l as [|b1 [|b2 [|b3 l]]]; [done..|]. destruct (between _ _ b1 && continuation b2 && continuation b3) eqn:E4; [|done].
  intros _. cbn [fst snd take]. split; [intros rest; cbn; by rewrite E0, E1, E2, E3, E4|]. rewrite !andb_true_iff in E4. destruct E4 as [[E4%between_spec E5%between_spec] E6%between_spec].
  intros Hin. repeat (apply elem_of_cons in Hin as [Hin|Hin]; [repeat case_match; lia|]). by apply elem_of_nil in Hin.
Qed.

Lemma decode_rune_good l : l ≠ [] → Forall (λ b, 0 ≤ b < 256) l → let p := ((decode_rune l).1, take (decode_rune l).2 l) in
  bad_rune p = false → good_rune p.
Proof.
  intros Hne Hb p Hbad. destruct l as [|b0 l]; [done|]. apply Forall_cons in Hb as Hb'. destruct Hb' as [H0 _].
  destruct (decode_rune_stands b0 l ltac:(lia) Hbad) as [H1 H2]. split_and!; try done.
  - pose proof (decode_rune_width (b0 :: l) Hne). subst p. cbn [snd]. by destruct (decode_rune (b0 :: l)).2; [lia|].
  - by apply Forall_take.
Qed.

(** ** Texts and their runes *)

Lemma runes_fuel_join fuel l : Forall good_rune l → (length (mjoin (snd <$> l)) ≤ fuel)%nat → runes_fuel fuel (mjoin (snd <$> l)) = l.
Proof.
  intros Hl. revert fuel. induction Hl as [|[r c] l Hc _ IH]; intros fuel; [by destruct fuel|].
  destruct Hc as (Hne & _ & _ & _ & Hdec). rewrite fmap_cons. change (mjoin (((r, c) : Z * list Z).2 :: (snd <$> l))) with (c ++ mjoin (snd <$> l)).
  rewrite length_app. specialize (Hdec (mjoin (snd <$> l))). cbn [fst snd] in *. generalize dependent (mjoin (snd <$> l)). intros rest Hdec IH Hf.
  destruct c as [|b c]; [done|]. cbn [length] in Hf. destruct fuel as [|fuel]; [lia|].
  change (runes_fuel (S fuel) ((b :: c) ++ rest)) with (let '(r, n) := decode_rune ((b :: c) ++ rest) in (r, take n ((b :: c) ++ rest)) :: runes_fuel fuel (drop n ((b :: c) ++ rest))).
  rewrite Hdec, take_app_length, drop_app_length. f_equal. apply IH. lia.
Qed.

Lemma join_range l : Forall good_rune l → Forall (λ b, 0 ≤ b < 256) (mjoin (snd <$> l)).
Proof. induction 1 as [|p l (_ & Hp & _) _ IH]; cbn; [constructor|]. by apply Forall_app. Qed.

Lemma bytes_text_of l : Forall good_rune l → bytes (text_of l) = mjoin (snd <$> l).
Proof. intros H. by apply bytes_of_bytes, join_range. Qed.
Lemma runes_text_of l : Forall good_rune l → runes (text_of l) = l.
Proof.
  intros H. unfold runes. rewrite <-bytes_length, bytes_text_of by done. by apply runes_fuel_join.
Qed.

Lemma runes_fuel_good fuel l : Forall (λ b, 0 ≤ b < 256) l → Forall (λ p, bad_rune p = false → good_rune p) (runes_fuel fuel l).
Proof.
  revert l. induction fuel as [|fuel IH]; intros l Hl; cbn; [constructor|]. destruct l as [|b l]; [constructor|].
  pose proof (decode_rune_good (b :: l) ltac:(done) Hl) as Hg. destruct (decode_rune (b :: l)) as [r n]. cbn in Hg. constructor; [done|].
  apply IH. by apply Forall_drop.
Qed.
Lemma runes_good s : Forall (λ p, bad_rune p = false → good_rune p) (runes s).
Proof. apply runes_fuel_good, bytes_range. Qed.

Lemma utf8_valid_good s : utf8_valid s = true ↔ Forall good_rune (runes s).
Proof.
  unfold utf8_valid. rewrite forallb_forall. pose proof (runes_good s) as Hg. rewrite Forall_forall in Hg. rewrite Forall_forall. split.
  - intros H p Hp. apply Hg; [done|]. apply list_elem_of_In in Hp. specialize (H p Hp). by destruct (bad_rune p).
  - intros H p Hp%list_elem_of_In. destruct (H p Hp) as (_ & _ & -> & _). done.
Qed.

Lemma text_of_valid l : Forall good_rune l → utf8_valid (text_of l) = true.
Proof. intros H. apply utf8_valid_good. by rewrite runes_text_of. Qed.

(** ** The user agent *)

Lemma replacement_good : good_rune replacement.
Proof.
  split_and!; try done; [by repeat constructor|]. intros H. by repeat (apply elem_of_cons in H as [H|H]; [done|]); apply elem_of_nil in H.
Qed.

Lemma to_valid_good b l : Forall (λ p, bad_rune p = false → good_rune p) l → Forall good_rune (to_valid b l).
Proof.
  intros H. revert b. induction H as [|p l Hp _ IH]; intros b; cbn; [constructor|]. destruct (bad_rune p) eqn:E; [|constructor; auto].
  destruct b; [done|]. constructor; [apply replacement_good|done].
Qed.

(** Zero bytes are replaced rune by rune. *)
Definition no_zero (p : Z * list Z) : Z * list Z := if bool_decide (0 ∈ p.2) then replacement else p.
Definition sanitize (l : list Z) : list Z := l ≫= λ b, if b =? 0 then replacement.2 else [b].

Lemma sanitize_nonzero l : 0 ∉ l → sanitize l = l.
Proof.
  induction l as [|b l IH]; intros H; [done|]. rewrite not_elem_of_cons in H.
  change (sanitize (b :: l)) with ((if b =? 0 then replacement.2 else [b]) ++ sanitize l). rewrite IH by tauto.
  destruct (Z.eqb_spec b 0); [by destruct H|done].
Qed.
Lemma sanitize_app l k : sanitize (l ++ k) = sanitize l ++ sanitize k.
Proof. unfold sanitize. apply bind_app. Qed.

Lemma sanitize_join l : Forall good_rune l → sanitize (mjoin (snd <$> l)) = mjoin (snd <$> (no_zero <$> l)).
Proof.
  induction 1 as [|p l Hp _ IH]; [done|]. cbn. rewrite sanitize_app. f_equal; [|done]. unfold no_zero.
  destruct Hp as (_ & _ & _ & Hz & _). case_bool_decide as H; [by rewrite (Hz H)|by apply sanitize_nonzero].
Qed.
Lemma no_zero_good p : good_rune p → good_rune (no_zero p).
Proof. unfold no_zero. case_bool_decide; [intros _; apply replacement_good|done]. Qed.

(** The text of runes without zero bytes has none. *)
Lemma no_nul l : Forall good_rune l → Forall (λ p, 0 ∉ p.2) l → contains_nul (text_of l) = false.
Proof.
  intros Hg Hz. unfold contains_nul. rewrite bytes_text_of by done. apply not_true_is_false. intros (b & Hin & Hb%Z.eqb_eq)%existsb_exists. subst b.
  apply list_elem_of_In, list_elem_of_join in Hin as (c & Hc & (p & -> & Hp)%list_elem_of_fmap). rewrite Forall_forall in Hz. by apply (Hz p Hp).
Qed.

(** The runes of a text are its bytes. *)
Lemma runes_fuel_bytes fuel l : (length l ≤ fuel)%nat → mjoin (snd <$> runes_fuel fuel l) = l.
Proof.
  revert l. induction fuel as [|fuel IH]; intros [|b l] Hf; [done|by cbn in Hf; lia|done|].
  pose proof (decode_rune_width (b :: l) ltac:(done)) as Hw. cbn [runes_fuel]. destruct (decode_rune (b :: l)) as [r n]. rewrite fmap_cons.
  change (take n (b :: l) ++ mjoin (snd <$> runes_fuel fuel (drop n (b :: l))) = b :: l).
  rewrite IH, take_drop; [done|]. rewrite length_drop. cbn in *. lia.
Qed.
Lemma runes_bytes s : mjoin (snd <$> runes s) = bytes s.
Proof. apply runes_fuel_bytes. by rewrite bytes_length. Qed.
Lemma text_of_runes s : text_of (runes s) = s.
Proof. unfold text_of. rewrite runes_bytes. apply of_bytes_bytes. Qed.

Lemma no_nul_runes s : contains_nul s = false → Forall (λ p, 0 ∉ p.2) (runes s).
Proof.
  intros H. apply Forall_forall. intros p Hp Hin. assert (contains_nul s = true); [|congruence].
  apply existsb_exists. exists 0. split; [|done]. apply list_elem_of_In. rewrite <-runes_bytes. apply list_elem_of_join. exists p.2. split; [done|].
  apply list_elem_of_fmap. eauto.
Qed.

(** Text that its column can store. *)
Definition storable (s : string) : Prop := utf8_valid s = true ∧ contains_nul s = false ∧ rune_count s ≤ MaxAgent.

Lemma storable_text l : Forall good_rune l → Forall (λ p, 0 ∉ p.2) l → Z.of_nat (length l) ≤ MaxAgent → storable (text_of l).
Proof. intros Hg Hz Hl. split_and!; [by apply text_of_valid|by apply no_nul|]. unfold rune_count. by rewrite runes_text_of. Qed.

(** The three corrections, each on the runes of a text. *)
Lemma fix_utf8_text x : ∃ l, Forall good_rune l ∧ (fix_utf8 x).1 = text_of l.
Proof.
  destruct x as [s meta]. cbn. destruct (utf8_valid s) eqn:E; cbn.
  - exists (runes s). split; [by apply utf8_valid_good|by rewrite text_of_runes].
  - exists (to_valid false (runes s)). split; [apply to_valid_good, runes_good|done].
Qed.
Lemma fix_nul_text x l : Forall good_rune l → x.1 = text_of l → ∃ k, Forall good_rune k ∧ Forall (λ p, 0 ∉ p.2) k ∧ (fix_nul x).1 = text_of k.
Proof.
  destruct x as [s meta]. cbn. intros Hl ->. destruct (contains_nul (text_of l)) eqn:E; cbn.
  - exists (no_zero <$> l). split_and!.
    + apply Forall_fmap. eapply Forall_impl; [exact Hl|]. apply no_zero_good.
    + apply Forall_fmap, Forall_true. intros p. cbn. unfold no_zero. case_bool_decide; [|done].
      intros H1. by repeat (apply elem_of_cons in H1 as [H1|H1]; [done|]); apply elem_of_nil in H1.
    + change (of_bytes (sanitize (bytes (text_of l))) = text_of (no_zero <$> l)). by rewrite bytes_text_of, sanitize_join.
  - exists l. split_and!; try done. apply no_nul_runes in E. by rewrite runes_text_of in E.
Qed.
Lemma fix_length_text x k : Forall good_rune k → Forall (λ p, 0 ∉ p.2) k → x.1 = text_of k → storable (fix_length x).1.
Proof.
  destruct x as [s meta]. cbn. intros Hk Hz ->. case_bool_decide as Hlen; cbn; unfold rune_count in Hlen; rewrite (runes_text_of k) in Hlen by done.
  - rewrite (runes_text_of k) by done. apply (storable_text (take _ k)); [by apply Forall_take..|]. rewrite length_take. unfold MaxAgent in *. lia.
  - apply (storable_text k); try done. unfold MaxAgent in *. lia.
Qed.

(** Any user agent becomes text that can be stored, and such text is kept. *)
Lemma normalizeRecord_agent r : storable (au_UserAgent (normalizeRecord r)) ∧ (storable (au_UserAgent r) → normalizeRecord r = r).
Proof.
  split.
  - destruct (fix_utf8_text (au_UserAgent r, au_Metadata r)) as (l & Hl & El). destruct (fix_nul_text _ l Hl El) as (k & Hk & Hz & Ek).
    unfold normalizeRecord. pose proof (fix_length_text _ k Hk Hz Ek) as H. by destruct (fix_length _).
  - intros (Hv & Hn & Hc). unfold normalizeRecord, fix_utf8. rewrite Hv. cbn [negb]. unfold fix_nul. rewrite Hn.
    unfold fix_length. rewrite bool_decide_eq_false_2 by lia. by destruct r.
Qed.

(** Auth service: audit records are written once, whatever gets lost. *)


Section audit.
Context {conn : PgConn}.
Implicit Types (r : AuditRecord) (o : oracle) (w : world ASt) (d : ADB).

(** Nothing, or the row. *)
Definition adds_row r d d' : Prop := d' = d ∨ (a_audit d !! au_ID r = None ∧ d' = set_audit <[au_ID r := r]> d).
Definition has_row r d : Prop := a_audit d !! au_ID r = Some r.

Lemma adds_row_trans r d1 d2 d3 : adds_row r d1 d2 → adds_row r d2 d3 → adds_row r d1 d3.
Proof.
  intros [->|[H1 ->]] [->|[H2 ->]]; unfold adds_row; auto. cbn in H2. by rewrite lookup_insert_eq in H2.
Qed.

Lemma insert_audit_adds r t d b d' : insert_audit r t d = inr (b, d') → adds_row r d d' ∧ (b = true → has_row r d').
Proof.
  unfold insert_audit. destruct (_ || _); [done|]. destruct (_ || _); [done|]. case_bool_decide as H; intros [= <- <-]; [by split; [left|]|].
  split; [|intros _; apply lookup_insert_eq]. right. split; [by apply eq_None_not_Some|done].
Qed.

Lemma audit_insert_once r o w : let '(res, w') := audit_insert r o w in
  adds_row r (as_db (w_db w)) (as_db (w_db w')) ∧ (res = inr tt → has_row r (as_db (w_db w'))).
Proof.
  unfold audit_insert, mbind, M_bind, adb_write, pool_stmt, on_db. destruct (or_fault o (w_tick w)) as [e|] eqn:Hf.
  - destruct (insert_audit r _ _) as [e'|[b d']] eqn:Hi; cbn; [by split; [left|]|]. apply insert_audit_adds in Hi as [Hi _].
    destruct (or_landed _ _); cbn; split; try done. by left.
  - destruct (insert_audit r _ _) as [e'|[b d']] eqn:Hi; cbn; [by split; [left|]|]. apply insert_audit_adds in Hi as [Hi Hb].
    destruct b; [by split; [|auto]|]. rewrite read_run. cbn [w_tick w_db as_db]. destruct (or_fault o (S (w_tick w))); [done|].
    case_bool_decide as H; unfold mret, M_ret, throw; (split; [done|]); [intros _; exact H|done].
Qed.

Lemma retry_once n until r o w : let '(res, w') := retryAuditWrite (S n) until (audit_insert r) o w in
  adds_row r (as_db (w_db w)) (as_db (w_db w')) ∧ (res = inr tt → has_row r (as_db (w_db w'))).
Proof.
  revert w. induction n as [|n IH]; intros w.
  - cbn. unfold mbind, M_bind, try. pose proof (audit_insert_once r o w) as H. destruct (audit_insert r o w) as [[e|[]] w1]; cbn; [|done].
    rewrite orb_true_r. cbn. by destruct H.
  - change (retryAuditWrite (S (S n)) until (audit_insert r)) with
      (x ← try (audit_insert r); now ← go_now; match x with inr _ => mret tt | inl e =>
        if negb (retryableAuditError e) || bool_decide (until ≤ now) || bool_decide (S n = 0%nat) then throw e
        else now ← go_now; if bool_decide (until ≤ now) then throw (ADbErr DbDeadline) else retryAuditWrite (S n) until (audit_insert r) end).
    unfold mbind, M_bind, try. pose proof (audit_insert_once r o w) as H. destruct (audit_insert r o w) as [[e|[]] w1]; cbn [go_now]; [|done].
    destruct H as [H _]. destruct (_ || _); [done|]. cbn iota beta. destruct (bool_decide _); [done|].
    match goal with |- context [retryAuditWrite (S n) until _ o ?w2] => specialize (IH w2) end.
    destruct (retryAuditWrite (S n) _ _ _ _) as [res w3]. cbn [w_db] in IH. destruct IH as [H2 H3]. split; [|done]. by eapply adds_row_trans.
Qed.

(** The record that a call writes. *)
Definition record_of (ty : string) (uid : option string) (ip agent : string) (meta : gmap string MetaVal) o w : AuditRecord :=
  normalizeRecord (MkAuditRecord (or_uuid o (w_tick w)) ty uid ip agent meta (truncate (or_clock o (S (w_tick w))) 1000)).

Lemma normalizeRecord_id r : au_ID (normalizeRecord r) = au_ID r ∧ au_IPAddress (normalizeRecord r) = au_IPAddress r.
Proof. unfold normalizeRecord. by destruct (fix_length _). Qed.

Lemma insert_audit_fits r t d : storable (au_UserAgent r) → rune_count (au_IPAddress r) ≤ 45 → a_audit d !! au_ID r = None →
  insert_audit r t d = inr (true, set_audit <[au_ID r := r]> d).
Proof.
  intros (Hv & Hn & Hc) Hip Hfree. unfold insert_audit. rewrite !bool_decide_eq_false_2 by lia. rewrite Hv, Hn. cbn.
  by rewrite bool_decide_eq_false_2; [|rewrite Hfree; intros []].
Qed.

Lemma retry_reliable n until r o w : reliable o → storable (au_UserAgent r) → rune_count (au_IPAddress r) ≤ 45 → a_audit (as_db (w_db w)) !! au_ID r = None →
  (retryAuditWrite (S n) until (audit_insert r) o w).1 = inr tt.
Proof.
  intros Hrel Hs Hip Hfree. cbn. unfold mbind, M_bind, try, audit_insert, mbind, M_bind, adb_write, pool_stmt, on_db. rewrite Hrel, insert_audit_fits by done. done.
Qed.

(** The evidence of an authentication event is written once.  Whatever
    fails, and whichever acknowledgements get lost between the up to three
    attempts, a call adds at most one row - with its own identity, over none
    that exists - and changes nothing else; if it reports success the row is
    there.  The user agent of the row is valid UTF-8 without zero bytes of at
    most 512 characters, whatever bytes the client sent, and is kept as it is if
    it was; so no user agent can keep the evidence from being stored, and
    without failures it is. *)
Theorem audit_once deadline ty uid ip agent meta o w :
  let row := record_of ty uid ip agent meta o w in
  let '(res, w') := audit_Log deadline ty uid ip agent meta o w in
  (as_db (w_db w') = as_db (w_db w) ∨
   (a_audit (as_db (w_db w)) !! au_ID row = None ∧ as_db (w_db w') = set_audit <[au_ID row := row]> (as_db (w_db w)))) ∧
  (res = inr tt → a_audit (as_db (w_db w')) !! au_ID row = Some row) ∧
  storable (au_UserAgent row) ∧ (storable agent → au_UserAgent row = agent ∧ au_Metadata row = meta) ∧
  (reliable o → rune_count ip ≤ 45 → a_audit (as_db (w_db w)) !! au_ID row = None → res = inr tt).
Proof.
  intros row. unfold audit_Log, mbind, M_bind, new_uuid, go_now. cbn [w_tick w_db w_aborted w_locks].
  fold (record_of ty uid ip agent meta o w). fold row. set (w1 := World (w_db w) _ _ _). set (until := _ + _).
  pose proof (retry_once 2 until row o w1) as H1. pose proof (retry_reliable 2 until row o w1) as H2.
  change audit_attempts with 3%nat. destruct (retryAuditWrite 3 until (audit_insert row) o w1) as [res w']. destruct H1 as [H1 H1'].
  set (raw := MkAuditRecord (or_uuid o (w_tick w)) ty uid ip agent meta (truncate (or_clock o (S (w_tick w))) 1000)).
  destruct (normalizeRecord_agent raw) as [Hs Hkeep]. split_and!; [done..| |].
  - intros Hst. unfold row, record_of. fold raw. by rewrite (Hkeep Hst).
  - intros Hrel Hip Hfree. apply H2; try done. unfold row, record_of. fold raw. by rewrite (proj2 (normalizeRecord_id raw)).
Qed.
End audit.
