(* ===== verification/AuthLockout.v ===== *)
(** Auth service: wrong passwords for an account are bounded.

    Login requests are handled one after the other, with a clock that does not
    run backwards; what fails in between is open. *)

From S2P Require Import Prelude Effects GoStd InvModel FulHandler FulModel CatJson AuthLimits AuthModel AuthSteps AuthOutbox AuthHandler AuthInv AuthLogin.

(** ** What leaves the failure counters alone *)

(** [m] keeps the counters, and time goes forward. *)
Definition quiet {B} (m : M ASt AErr B) : Prop := ∀ o w,
  as_failures (w_db (m o w).2) = as_failures (w_db w) ∧ (w_tick w ≤ w_tick (m o w).2)%nat.

Lemma calm_bind {B C} (m : M ASt AErr B) (f : B → M ASt AErr C) : quiet m → (∀ b, quiet (f b)) → quiet (m ≫= f).
Proof.
  intros Hm Hf o w. unfold mbind, M_bind. destruct (Hm o w) as [H1 H2]. destruct (m o w) as [[e|b] w1]; [done|]. destruct (Hf b o w1) as [H3 H4].
  cbn in *. split; [congruence|lia].
Qed.
Lemma quiet_try {B} (m : M ASt AErr B) : quiet m → quiet (try m : M ASt AErr _).
Proof. intros Hm o w. specialize (Hm o w). unfold try. by destruct (m o w). Qed.
Lemma calm_ret {B} (b : B) : quiet (mret b).
Proof. by intros o w. Qed.
Lemma calm_throw {B} e : quiet (throw e : M ASt AErr B).
Proof. by intros o w. Qed.
Lemma calm_now : quiet go_now.
Proof. intros o w. cbn. split; [done|lia]. Qed.
Lemma quiet_uuid : quiet new_uuid.
Proof. intros o w. cbn. split; [done|lia]. Qed.
Lemma quiet_compare {lib : AuthLib} h pw : quiet (comparePassword h pw).
Proof. by intros o w. Qed.
Lemma quiet_read {B} (f : Z → ADB → B) : quiet (adb_read f).
Proof. intros o w. rewrite read_run. destruct (or_fault _ _); cbn; (split; [done|lia]). Qed.
Lemma quiet_write {B} (f : Z → ADB → dberr + (B * ADB)) : quiet (adb_write f).
Proof.
  intros o w. unfold adb_write, pool_stmt, on_db. destruct (or_fault _ _); destruct (f _ _) as [?|[? ?]]; try destruct (or_landed _ _); cbn; (split; [done|lia]).
Qed.
Lemma quiet_limiter {B} (f : Z → CredentialLimiter → B * CredentialLimiter) : quiet (with_limiter f).
Proof. intros o w. unfold with_limiter. destruct (f _ _). cbn. split; [done|lia]. Qed.

Create HintDb quiet.
#[export] Hint Resolve quiet_try calm_ret calm_throw calm_now quiet_uuid quiet_compare quiet_read quiet_write quiet_limiter : quiet.
Ltac quieting :=
  repeat first
    [ solve [eauto with quiet]
    | progress cbv beta zeta
    | lazymatch goal with
      | |- quiet (_ ≫= _) => apply calm_bind; [|intros ?]
      | |- quiet (try _) => apply quiet_try
      | |- quiet (match ?x with _ => _ end) => destruct x eqn:?
      end ].

Section quiet.
Context {uuid : UuidLib} {lib : AuthLib} {jwt : Jwt} {http : HttpLib} {conn : PgConn} (s : AuthService).

Lemma auth_Login_quiet input : quiet (auth_Login s input).
Proof. unfold auth_Login, FindByEmail, scanUser, Issue. quieting. Qed.
Lemma audit_Log_quiet deadline ty uid ip agent meta : quiet (audit_Log deadline ty uid ip agent meta).
Proof.
  unfold audit_Log. quieting. generalize audit_attempts. intros k. induction k as [|k IH]; cbn; unfold audit_insert; quieting.
Qed.
Lemma report_quiet deadline ty uid ip agent meta : quiet (report (audit_Log deadline ty uid ip agent meta)).
Proof. apply calm_bind; [apply quiet_try, audit_Log_quiet|quieting]. Qed.

(** ** What one login does to the counters *)

(** The account a request is for. *)
Definition account (r : ARequest) : option string :=
  fields ← decodeCredentials (rq_body r) ["email"; "password"]; NormalizeEmail (field "email" fields).

Definition logged_in (resp : AResp) : bool := match resp with ALoggedIn _ _ _ _ => true | _ => false end.

(** Between the ticks [n] and [n']: the counters are checked; a wrong password is
    counted, a right one clears them. *)
Inductive login_fx (email : string) (o : oracle) (n n' : nat) (l : RateLimiter) : RateLimiter → AResp → Prop :=
  | LX_other i resp : (n ≤ i < n')%nat → resp ≠ invalidCredentials → login_fx email o n n' l (cleanupExpired (or_clock o i) l) resp
  | LX_wrong i j : (n ≤ i < j)%nat → (j < n')%nat → (IsBlocked lower_text email (or_clock o i) l).1.1 = false →
      login_fx email o n n' l (RecordFailure lower_text email (or_clock o j) (cleanupExpired (or_clock o i) l)) invalidCredentials
  | LX_right i resp : (n ≤ i < n')%nat → logged_in resp = true →
      login_fx email o n n' l (Reset lower_text email (cleanupExpired (or_clock o i) l)) resp.

Lemma IsBlocked_cleans email t l : (IsBlocked lower_text email t l).2 = cleanupExpired t l.
Proof. unfold IsBlocked. repeat case_match; done. Qed.

Lemma handleServiceError_other e : auth_handleServiceError e ≠ invalidCredentials.
Proof. by destruct e. Qed.

(** A quiet tail changes neither the counters nor an answer that is fixed. *)
Lemma quiet_tail {B} (m : M ASt AErr B) (resp : AResp) o w r w' : quiet m → (m ≫= λ _, mret resp) o w = (inr r, w') →
  r = resp ∧ as_failures (w_db w') = as_failures (w_db w) ∧ (w_tick w ≤ w_tick w')%nat.
Proof.
  intros Hm (b & w1 & H1 & [-> ->]%ret_ok)%bind_ok. destruct (Hm o w) as [H2 H3]. rewrite H1 in *. done.
Qed.

(** The work of a login, after the check at tick [i]. *)
Lemma login_work_fx r deadline email fields o w resp w' i l :
  as_failures (w_db w) = cleanupExpired (or_clock o i) l → (i < w_tick w)%nat → (IsBlocked lower_text email (or_clock o i) l).1.1 = false →
  login_work s r deadline email fields o w = (inr resp, w') →
  (w_tick w ≤ w_tick w')%nat ∧ ∀ n n', (n ≤ i)%nat → (w_tick w' < n')%nat → login_fx email o n n' l (as_failures (w_db w')) resp.
Proof.
  intros Hl Hi Hb H. apply bind_ok in H as (res & w1 & H1%try_ok & H).
  destruct (auth_Login_quiet (MkLoginInput email (field "password" fields)) o w) as [Hf1 Ht1]. rewrite H1 in Hf1, Ht1. cbn in Hf1, Ht1.
  destruct res as [e|result].
  - destruct (decide (e = AInvalidCredentials)) as [->|He].
    + apply bind_ok in H as ([] & w2 & H2 & H). unfold record_failure, with_failures in H2. injection H2 as <-.
      apply quiet_tail in H as (-> & Hf & Ht); [|apply report_quiet]. rewrite Hf. cbn in *. rewrite Hf1, Hl.
      split; [lia|]. intros n n' Hn Hn'. apply LX_wrong; [lia..|done].
    + assert ((report (audit_Log deadline EventLoginError None (rq_peer r) (rq_agent r) (<["reason" := MText "authentication_service_unavailable"]> ∅))
        ≫= λ _, mret (auth_handleServiceError e)) o w1 = (inr resp, w')) as H2 by by destruct e.
      apply quiet_tail in H2 as (-> & Hf & Ht); [|apply report_quiet]. rewrite Hf, Hf1, Hl. split; [lia|].
      intros n n' Hn Hn'. apply LX_other; [lia|apply handleServiceError_other].
  - apply bind_ok in H as ([] & w2 & H2 & H). unfold reset_failures, with_failures in H2. injection H2 as <-.
    apply quiet_tail in H as (-> & Hf & Ht); [|apply report_quiet]. rewrite Hf. cbn in *. rewrite Hf1, Hl.
    split; [lia|]. intros n n' Hn Hn'. apply LX_right; [lia|done].
Qed.

Lemma h_Login_fx r deadline o w resp w' : h_Login s r deadline o w = (inr resp, w') →
  match account r with
  | None => as_failures (w_db w') = as_failures (w_db w)
  | Some email => login_fx email o (w_tick w) (S (w_tick w')) (as_failures (w_db w)) (as_failures (w_db w')) resp
  end ∧ (w_tick w ≤ w_tick w')%nat.
Proof.
  unfold h_Login, account. destruct (decodeCredentials _ _) as [fields|]; cbn; [|by intros [-> ->]%ret_ok].
  destruct (NormalizeEmail _) as [email|]; [|by intros (_ & H1 & H2)%quiet_tail; [|apply report_quiet]].
  intros H. apply bind_ok in H as ([blocked retry] & w1 & H1 & H). unfold is_blocked, with_failures in H1.
  pose proof (IsBlocked_cleans email (or_clock o (w_tick w)) (as_failures (w_db w))) as Hcl.
  destruct (IsBlocked lower_text email (or_clock o (w_tick w)) (as_failures (w_db w))) as [[b' retry'] l1] eqn:Hblk. cbn in Hcl. injection H1 as <- <- <-.
  destruct b'; cbn in H.
  { apply ret_ok in H as [-> ->]. cbn. rewrite Hcl. split; [apply LX_other; [lia|done]|lia]. }
  apply bind_ok in H as (slot & w2 & H2 & H). destruct (quiet_limiter (Acquire email) o (World (MkASt (as_db (w_db w)) (as_compares (w_db w)) (as_limiter (w_db w)) l1) (S (w_tick w)) (w_aborted w) (w_locks w))) as [Hf2 Ht2].
  unfold acquire in H2. rewrite H2 in Hf2, Ht2. cbn in Hf2, Ht2. destruct slot as [wait|].
  { apply ret_ok in H as [-> ->]. rewrite Hf2, Hcl. split; [apply LX_other; [lia|done]|lia]. }
  apply bind_ok in H as (resp' & w3 & H3 & H). apply bind_ok in H as ([] & w4 & H4 & [-> ->]%ret_ok).
  destruct (quiet_limiter (λ _ l, (tt, release_slot l)) o w3) as [Hf4 Ht4]. unfold release in H4. rewrite H4 in Hf4, Ht4. cbn in Hf4, Ht4. rewrite Hf4.
  assert (w_tick w4 = S (w_tick w3)) as Ht4' by (unfold with_limiter in H4; by injection H4 as <-).
  edestruct (login_work_fx r deadline email fields o w2 resp' w3 (w_tick w) (as_failures (w_db w))) as [Ht3 Hfx];
    [by rewrite Hf2, Hcl|lia|by rewrite Hblk|exact H3|]. split; [apply Hfx; lia|lia].
Qed.

(** ** A run of logins *)

Record Logged := MkLogged { lg_account : option string; lg_start : Z; lg_end : Z; lg_resp : AResp }.

(** Each request with its deadline; the times before and after it are noted. *)
Fixpoint login_run (l : list (ARequest * Z)) : M ASt AErr (list Logged) :=
  match l with
  | [] => mret []
  | (r, deadline) :: l =>
      t0 ← go_now;
      resp ← h_Login s r deadline;
      t1 ← go_now;
      rest ← login_run l;
      mret (MkLogged (account r) t0 t1 resp :: rest)
  end.

Definition wrong (email : string) (x : Logged) : Prop := lg_account x = Some email ∧ lg_resp x = invalidCredentials.
#[global] Instance wrong_dec email x : Decision (wrong email x).
Proof. unfold wrong. solve_decision. Defined.

Definition clock_forward (o : oracle) : Prop := ∀ n m, (n ≤ m)%nat → or_clock o n ≤ or_clock o m.

(** The counters account for the wrong passwords of an email up to [now]. *)
Definition counted (m : nat) (W : Z) (email : string) (now : Z) (l : RateLimiter) (hits : list Z) : Prop :=
  rl_maxFailures l = Z.of_nat m ∧ rl_window l = W ∧ tracked W m now hits (rl_acctFailures l !! email).

(** The counters are keyed by the normal form itself: it was trimmed and put in
    lower case before it was parsed. *)
Lemma normal_email_key {laws : AuthLaws lib} {trim : TrimLaw lib} raw email :
  NormalizeEmail raw = Some email → account_key lower_text email = email.
Proof.
  unfold NormalizeEmail. intros H. assert (email = lower_text (trim_space raw)) as -> by (repeat case_match; by simplify_eq).
  unfold account_key. by rewrite lower_trimmed, al_lower.
Qed.

Section counting.
Context {laws : AuthLaws lib} {trim : TrimLaw lib} (m : nat) (W : Z) (HW : 0 < W) (email : string) (Hemail : account_key lower_text email = email) (Hne : email ≠ "").

Lemma counted_clean now t l hits : now ≤ t → counted m W email now l hits → counted m W email t (cleanupExpired t l) hits.
Proof using HW. intros Ht (H1 & H2 & H3). split_and!; try done. cbn. by eapply (tracked_expire W m). Qed.

Lemma counted_later now t l hits : now ≤ t → counted m W email now l hits → counted m W email t l hits.
Proof using HW.
  intros Ht (H1 & H2 & H3). split_and!; try done. destruct (rl_acctFailures l !! email) as [e|]; [|by eapply spaced_mono].
  destruct H3 as [Hx H3]. split; [lia|done].
Qed.

(** A wrong password that was let through is one more hit. *)
Lemma counted_wrong now t1 t2 l hits : now ≤ t1 → t1 ≤ t2 → counted m W email now l hits → (0 < m)%nat → (IsBlocked lower_text email t1 l).1.1 = false →
  counted m W email t2 (RecordFailure lower_text email t2 (cleanupExpired t1 l)) (t2 :: hits).
Proof using HW Hemail Hne.
  intros H1 H2 Hc Hm Hb. pose proof (counted_clean _ _ _ _ H1 Hc) as Hc1. pose proof (counted_clean _ _ _ _ H2 Hc1) as (E1 & E2 & Ht).
  unfold RecordFailure. rewrite Hemail. rewrite bool_decide_eq_false_2 by done.
  set (l2 := cleanupExpired t2 (cleanupExpired t1 l)) in *. split_and!; try done. cbn [rl_acctFailures set_failures]. rewrite lookup_insert_eq.
  assert (open_window W t2 (rl_acctFailures l2 !! email) =
    match rl_acctFailures l2 !! email with
    | Some r => if negb (bool_decide (t2 < rw_expires r)) then MkWindow 0 (t2 + rl_window l2) else r
    | None => MkWindow 0 (t2 + rl_window l2) end) as <-.
  { destruct (rl_acctFailures l2 !! email) as [r|] eqn:E; cbn; [|by rewrite <-E2]. apply unexpired_spec in E as [_ Hx]. by rewrite bool_decide_eq_true_2. }
  apply tracked_hit; try done.
  - destruct (rl_acctFailures l2 !! email) as [r|] eqn:E; cbn; [|lia]. by apply unexpired_spec in E as [_ Hx].
  - destruct (rl_acctFailures l2 !! email) as [r|] eqn:E; cbn; [|lia]. apply unexpired_spec in E as [E _].
    unfold IsBlocked in Hb. rewrite Hemail, bool_decide_eq_false_2 in Hb by done. apply unexpired_spec in E as Hx.
    change (rl_acctFailures (cleanupExpired t1 l)) with (unexpired t1 (rl_acctFailures l)) in *. rewrite E in Hb.
    destruct Hx as [_ Hx]. rewrite (bool_decide_eq_true_2 (t1 < _)) in Hb by done. rewrite andb_true_r in Hb.
    case_bool_decide as Hcnt; [done|]. destruct Hc as [<- _]. cbn in Hcnt. lia.
Qed.

Lemma counted_other now t1 t2 l hits other : now ≤ t1 → t1 ≤ t2 → account_key lower_text other ≠ email → counted m W email now l hits →
  counted m W email t2 (RecordFailure lower_text other t2 (cleanupExpired t1 l)) hits.
Proof using HW.
  intros H1 H2 Ho Hc. pose proof (counted_clean _ _ _ _ H2 (counted_clean _ _ _ _ H1 Hc)) as (E1 & E2 & Ht).
  unfold RecordFailure. case_bool_decide; [done|]. split_and!; try done. cbn. by rewrite lookup_insert_ne.
Qed.
Lemma counted_reset now t l hits other : now ≤ t → account_key lower_text other ≠ email → counted m W email now l hits →
  counted m W email t (Reset lower_text other (cleanupExpired t l)) hits.
Proof using HW.
  intros Ht Ho Hc. pose proof (counted_clean _ _ _ _ Ht Hc) as (E1 & E2 & H). unfold Reset. case_bool_decide; [done|].
  split_and!; try done. cbn. by rewrite lookup_delete_ne.
Qed.

(** One login, for this account or for another. *)
Lemma counted_login other o n n' l l' resp hits : clock_forward o → (0 < m)%nat → counted m W email (or_clock o n) l hits →
  login_fx other o n n' l l' resp → account_key lower_text other = other → (other = email → logged_in resp = false) →
  ∃ hits', counted m W email (or_clock o n') l' hits' ∧
    if bool_decide (other = email ∧ resp = invalidCredentials) then ∃ j, hits' = or_clock o j :: hits ∧ (n ≤ j < n')%nat else hits' = hits.
Proof using HW Hemail Hne.
  intros Ho Hm Hc Hfx Hkey Hin.
  destruct Hfx as [i resp Hi Hr|i j Hi Hj Hb|i resp Hi Hr].
  - exists hits. rewrite bool_decide_eq_false_2 by naive_solver. split; [|done].
    eapply counted_later; [|apply (counted_clean (or_clock o n) (or_clock o i)); [|done]]; apply Ho; lia.
  - destruct (decide (other = email)) as [->|Hother].
    + exists (or_clock o j :: hits). rewrite bool_decide_eq_true_2 by done. split; [|exists j; split; [done|lia]].
      eapply counted_later; [|apply (counted_wrong (or_clock o n))]; try done; apply Ho; lia.
    + exists hits. rewrite bool_decide_eq_false_2 by naive_solver. split; [|done].
      eapply counted_later; [|apply (counted_other (or_clock o n))]; try done; [apply Ho; lia..|by rewrite Hkey].
  - exists hits. destruct (decide (other = email)) as [->|Hother]; [by rewrite Hin in Hr|]. rewrite bool_decide_eq_false_2 by naive_solver. split; [|done].
    eapply counted_later; [|apply (counted_reset (or_clock o n))]; try done; [apply Ho; lia..|by rewrite Hkey].
Qed.

Lemma account_normal r other : account r = Some other → account_key lower_text other = other.
Proof using laws trim.
  unfold account. destruct (decodeCredentials _ _); [|done]. cbn. apply normal_email_key.
Qed.

(** The wrong passwords of a log, the newest first, against the hits. *)
Definition matched (past : list Logged) (hits : list Z) : Prop := Forall2 (λ x t, lg_start x ≤ t ≤ lg_end x) past hits.

Lemma login_run_counted l : ∀ o w log w' past hits, clock_forward o → (0 < m)%nat → login_run l o w = (inr log, w') →
  (∀ x, x ∈ log → lg_account x = Some email → logged_in (lg_resp x) = false) →
  counted m W email (or_clock o (w_tick w)) (as_failures (w_db w)) hits → matched past hits →
  ∃ hits' now, counted m W email now (as_failures (w_db w')) hits' ∧ matched (reverse (filter (wrong email) log) ++ past) hits'.
Proof using HW Hemail Hne laws trim.
  induction l as [|[r deadline] l IH]; intros o w log w' past hits Ho Hm Hrun Hno Hc Hmat; cbn in Hrun.
  { apply ret_ok in Hrun as [-> ->]. exists hits, (or_clock o (w_tick w)). done. }
  apply bind_ok in Hrun as (t0 & w1 & [-> ->]%go_now_ok & Hrun). apply bind_ok in Hrun as (resp & w2 & Hlog & Hrun).
  apply bind_ok in Hrun as (t1 & w3 & [-> ->]%go_now_ok & Hrun). apply bind_ok in Hrun as (rest & w4 & Hrest & [-> ->]%ret_ok).
  apply h_Login_fx in Hlog as [Hfx Ht]. cbn in Hfx, Ht.
  assert (counted m W email (or_clock o (S (w_tick w))) (as_failures (w_db w)) hits) as Hc1 by (apply (counted_later (or_clock o (w_tick w))); [apply Ho; lia|done]).
  set (x := MkLogged (account r) (or_clock o (w_tick w)) (or_clock o (w_tick w2)) resp) in *.
  assert (∃ hits1, counted m W email (or_clock o (S (w_tick w2))) (as_failures (w_db w2)) hits1 ∧
    matched (if decide (wrong email x) then x :: past else past) hits1) as (hits1 & Hc2 & Hmat1).
  { destruct (account r) as [other|] eqn:Hacc.
    - assert (logged_in resp = false ∨ other ≠ email) as Hin.
      { destruct (decide (other = email)) as [->|]; [left|by right]. apply (Hno x); [by left|done]. }
      destruct (counted_login other o (S (w_tick w)) (S (w_tick w2)) _ _ resp hits Ho Hm Hc1 Hfx) as (hits1 & Hc2 & Hh).
      { by eapply account_normal. } { by intros ->; destruct Hin. }
      exists hits1. split; [done|]. unfold wrong. cbn. case_bool_decide as Hw.
      + destruct Hh as (j & -> & Hj). destruct Hw as [-> ->]. rewrite decide_True by done. constructor; [|done]. cbn.
        split; apply Ho; lia.
      + subst hits1. rewrite decide_False; [done|]. intros [[= ->] ->]. by destruct Hw.
    - exists hits. rewrite Hfx. split; [apply (counted_later (or_clock o (S (w_tick w)))); [apply Ho; lia|done]|]. rewrite decide_False; [done|]. by intros [? _]. }
  destruct (IH o _ rest w4 (if decide (wrong email x) then x :: past else past) hits1 Ho Hm Hrest) as (hits' & now & Hc3 & Hm3); try done.
  { intros y Hy. apply Hno. by right. }
  exists hits', now. split; [done|]. rewrite filter_cons. destruct (decide (wrong email x)); [|done]. by rewrite reverse_cons, <-app_assoc.
Qed.
End counting.

(** ** Logins are always answered *)

Definition answers {B} (x : M ASt AErr B) : Prop := ∀ o w, ∃ b w', x o w = (inr b, w').
Lemma answers_bind {B C} (x : M ASt AErr B) (f : B → M ASt AErr C) : answers x → (∀ b, answers (f b)) → answers (x ≫= f).
Proof. intros Hx Hf o w. destruct (Hx o w) as (b & w1 & E). unfold mbind, M_bind. rewrite E. apply Hf. Qed.
Lemma answers_try {B} (x : M ASt AErr B) : answers (try x : M ASt AErr _).
Proof. intros o w. unfold try. destruct (x o w). eauto. Qed.
Lemma answers_ret {B} (b : B) : answers (mret b).
Proof. intros o w. eexists _, _. reflexivity. Qed.
Lemma answers_limiter {B} (f : Z → CredentialLimiter → B * CredentialLimiter) : answers (with_limiter f).
Proof. intros o w. unfold with_limiter. destruct (f _ _). eauto. Qed.
Lemma answers_failures {B} (f : Z → RateLimiter → B * RateLimiter) : answers (with_failures f).
Proof. intros o w. unfold with_failures. destruct (f _ _). eauto. Qed.
Lemma answers_report x : answers (report x).
Proof. apply answers_bind; [apply answers_try|]. intros ?. apply answers_ret. Qed.

Lemma h_Login_answers r deadline : answers (h_Login s r deadline).
Proof.
  unfold h_Login. destruct (decodeCredentials _ _); [|apply answers_ret]. destruct (NormalizeEmail _) as [email|].
  2:{ apply answers_bind; [apply answers_report|intros; apply answers_ret]. }
  apply answers_bind; [apply answers_failures|]. intros [[] retry]; [apply answers_ret|]. apply answers_bind; [apply answers_limiter|].
  intros [wait|]; [apply answers_ret|]. apply answers_bind; [|intros; apply answers_bind; [apply answers_limiter|intros; apply answers_ret]].
  apply answers_bind; [apply answers_try|].
  intros [[]|]; repeat (apply answers_bind; [first [apply answers_report|apply answers_failures]|intros ?]); apply answers_ret.
Qed.

Lemma login_run_answers l : answers (login_run l).
Proof.
  induction l as [|[r deadline] l IH]; [apply answers_ret|]. cbn. apply answers_bind; [intros o w; eexists _, _; reflexivity|]. intros t0.
  apply answers_bind; [apply h_Login_answers|]. intros resp. apply answers_bind; [intros o w; eexists _, _; reflexivity|]. intros t1.
  apply answers_bind; [done|]. intros rest. apply answers_ret.
Qed.

Lemma matched_count (W a : Z) (l : list Logged) hits : matched l hits →
  (length (filter (λ x, (a ≤ lg_start x ∧ lg_end x < a + W)%Z) l) ≤ hits_in W a hits)%nat.
Proof.
  unfold hits_in. induction 1 as [|x t l hits Hx _ IH]; [done|]. rewrite !filter_cons.
  destruct (decide (a ≤ lg_start x ∧ lg_end x < a + W)) as [H|H]; [rewrite decide_True by lia; cbn; lia|]. destruct (decide _); cbn; lia.
Qed.

(** C36.  Guessing passwords is bounded for logins that are handled one after the
    other with a clock that does not run backwards, starting with no failures
    counted.  However many are sent, to whatever accounts, and whatever fails in
    between: each gets an answer; and an account that none of them logs in to
    successfully (a success resets its counter) is told that its password is wrong
    at most twice the configured number of failures (10 in production) within any
    interval as long as the configured window (15 minutes).  Attempts on other
    accounts do not count.  Logins that run concurrently are not covered: they all
    pass the check before the first of them is counted. *)
Theorem login_lockout {laws : AuthLaws lib} {trim : TrimLaw lib} l o w (m : nat) W : (0 < m)%nat → 0 < W → clock_forward o →
  as_failures (w_db w) = NewRateLimiter (Z.of_nat m) W →
  ∃ log w', login_run l o w = (inr log, w') ∧
    ∀ email a, (∃ raw, NormalizeEmail raw = Some email) → (∀ x, x ∈ log → lg_account x = Some email → logged_in (lg_resp x) = false) →
      (length (filter (λ x, (lg_account x = Some email ∧ lg_resp x = invalidCredentials) ∧ (a ≤ lg_start x ∧ lg_end x < a + W)%Z) log) ≤ 2 * m)%nat.
Proof.
  intros Hm HW Ho Hl. destruct (login_run_answers l o w) as (log & w' & Hrun). exists log, w'. split; [done|]. intros email a [raw Hraw] Hno.
  assert (email ≠ "") as Hne.
  { intros ->. unfold NormalizeEmail in Hraw. destruct (bool_decide (lower_text (trim_space raw) = "")) eqn:E; [done|].
    apply bool_decide_eq_false in E. cbn in Hraw. repeat case_match; simplify_eq; done. }
  pose proof (normal_email_key _ _ Hraw) as Hkey.
  destruct (login_run_counted m W HW email Hkey Hne l o w log w' [] [] Ho Hm Hrun Hno) as (hits & now & (_ & _ & Ht) & Hmat).
  { rewrite Hl. unfold NewRateLimiter. rewrite !bool_decide_eq_false_2 by lia. split_and!; try done. cbn. rewrite lookup_empty. constructor. }
  { constructor. }
  rewrite app_nil_r in Hmat. apply (matched_count W a) in Hmat. pose proof (tracked_bound W m ltac:(lia) now hits _ a Ht).
  set (F := filter (wrong email) log) in *. set (Q := λ x, a ≤ lg_start x ∧ lg_end x < a + W) in Hmat.
  assert (length (filter Q (reverse F)) = length (filter Q F)) as E by (apply Permutation_length; by rewrite (reverse_Permutation F)).
  rewrite E in Hmat. unfold F, Q in Hmat. rewrite list_filter_filter in Hmat.
  etrans; [|etrans; [exact Hmat|exact H]]. apply Nat.eq_le_incl. f_equal. apply list_filter_iff. unfold wrong. tauto.
Qed.
End quiet.
