(* ===== verification/AuthDemo.v ===== *)
(** Auth service: concrete libraries that satisfy the laws the theorems rely on,
    and small runs on which their hypotheses hold. *)

From S2P Require Import Prelude Effects GoStd InvModel InvDemo FulHandler FulModel NotService CatModel CatService CatSystem CatJson CatHandler CatDemo.
From S2P Require Import AuthLimits AuthModel AuthSteps AuthOutbox AuthHandler AuthInv AuthLogin AuthDelivery.
From S2P Require Import AuthDelivery AuthAudit AuthLockout.

(** ** Libraries *)

(** A hash that keeps its salt and the password, tokens that keep what they
    sign, and JSON as a list of texts. *)
Definition demo_compare (hash password : string) : Compared :=
  match get_texts hash with Some [_; p] => if bool_decide (p = password) then CMatch else CMismatch | _ => CFailed end.
Definition put_hash (salt password : string) : string := put [salt; password].
Definition put_profile (p : Profile) : string := put [pr_ID p; pr_Email p; pr_DisplayName p; pr_Role p; pr_Status p; put_Z (pr_CreatedAt p)].
Definition put_payload (id email name role status : string) : string := put [id; email; name; role; status].
Definition put_token (secret issuer audience : string) (c : Claims) : string :=
  put [secret; issuer; audience; cl_Role c; cl_Subject c; put_Z (default 0 (cl_IssuedAt c)); put_Z (default 0 (cl_ExpiresAt c))].
Definition get_profile (s : string) : option Profile :=
  match get_texts s with Some [id; email; name; role; status; created] => Some (MkProfile id email name role status (get_Z created)) | _ => None end.
Definition get_payload (s : string) : option (string * string * string) :=
  match get_texts s with Some [id; _; _; role; status] => Some (id, role, status) | _ => None end.
(** ASCII letters; text with white space at its ends has no lower case here. *)
Definition demo_lower (s : string) : string :=
  let t := to_lower s in if bool_decide (trim_space t = t) then t else "".
#[local] Instance demo_auth : AuthLib := {|
  parse_address := λ e, if utf8_valid e then Some ("", e) else None;
  lower_text := demo_lower;
  pg_lower := to_lower;
  bcrypt_hash := λ salt _ pw, Some (put_hash salt pw);
  bcrypt_compare := demo_compare;
  signup_digest := λ email name, put [email; name];
  user_json := λ p, Some (put_profile p);
  user_of := get_profile;
  payload_json := λ id email name role status, Some (put_payload id email name role status);
  payload_of := get_payload;
  sign_claims := λ secret issuer audience c, Some (put_token secret issuer audience c)
|}.

#[local] Instance demo_auth_laws : AuthLaws demo_auth.
Proof.
  split.
  - intros s. cbn. unfold demo_lower at 2 3. cbv zeta. destruct (bool_decide (trim_space (to_lower s) = to_lower s)) eqn:E; [|reflexivity]. unfold demo_lower. cbv zeta. by rewrite to_lower_again, E.
  - intros e. cbn. destruct (utf8_valid e) eqn:Hv; [|done]. cbn. by intros _.
  - intros id email name role status p _ _ _ _ _ [= <-]. unfold payload_of, demo_auth, get_payload, put_payload. by rewrite get_put.
  - intros [id email name role status created] p _ _ _ _ _ [= <-]. unfold user_of, demo_auth, get_profile, put_profile. by rewrite get_put, get_put_Z.
  - intros salt cost pw h [= <-]. unfold bcrypt_compare, demo_auth, demo_compare, put_hash. rewrite get_put. split_and!.
    + by destruct salt.
    + by rewrite bool_decide_eq_true_2.
    + intros pw'. by case_bool_decide.
Qed.

#[local] Instance demo_trim : TrimLaw demo_auth.
Proof. intros s. cbn. unfold demo_lower. cbv zeta. by case_bool_decide. Qed.

#[local] Instance demo_jwts : JwtAt := λ now secret issuer audience raw,
  match get_texts raw with
  | Some [s; i; a; role; subject; iat; exp] =>
      if bool_decide (s = secret) && bool_decide (i = issuer) && bool_decide (a = audience) && bool_decide (get_Z iat ≤ now < get_Z exp)
      then Some (MkClaims role subject (Some (get_Z iat)) (Some (get_Z exp))) else None
  | _ => None
  end.
#[local] Instance demo_jwt_laws : JwtLaws demo_auth demo_jwts.
Proof.
  intros now secret issuer audience [role subject i e] iat exp raw. intros [= <-] Hi He Hnow. cbn in Hi, He. subst. unfold ParseWithClaims, jwt_at, demo_jwts, put_token.
  rewrite get_put. cbn. rewrite !get_put_Z. by rewrite !bool_decide_eq_true_2.
Qed.
#[local] Instance demo_jwt_now : Jwt := jwt_at 0.
#[local] Instance demo_conn2 : PgConn := {| pg_Timeout := λ _, false; pg_SafeToRetry := λ _, false |}.

(** A body is the list of its members. *)
#[local] Instance demo_http : HttpLib := {|
  http_tokens := λ body, match get_texts body with Some l => MkJTokens (TObj :: (TStr <$> l) ++ [TEndObj]) true | None => MkJTokens [] false end;
  parse_media_type := λ s, Some (s, "")
|}.

Lemma cat_oracle_good t : good_ids (cat_oracle t).
Proof.
  intros n. split; [apply cat_oracle_ids|].
  assert (Forall (λ s, s ≠ uuid_nil) cat_ids) as H by (apply (bool_decide_unpack _); by vm_compute).
  change (or_uuid (cat_oracle t) n) with (default (demo_id 300) (cat_ids !! n)).
  destruct (cat_ids !! n) as [s|] eqn:Hs; [|by intros E; vm_compute in E]. rewrite Forall_lookup in H. exact (H n s Hs).
Qed.

(** ** A day at the desk *)

Definition desk : AuthService := MkAuthService (MkTokenManager "shared secret" "gelato-auth" "gelato" (15 * minute)) 12 (put ["salt"; "dummy"]).
Definition desk_start : ASt := MkASt empty_adb [] NewCredentialLimiter (NewRateLimiter 5 (15 * minute)).
Definition noon : Z := 1700000000 * second.
Definition w_start : world ASt := World desk_start 0 false [].
Definition ann : SignUpInput := MkSignUpInput " Ann@Example.com " "correct horse" "Ann".
Definition w_ann : world ASt := (auth_SignUp desk (Some key1) ann (cat_oracle noon) w_start).2.
Definition d_ann : ADB := as_db (w_db w_ann).

Lemma ann_reachable : rtc (astep 12 (λ _, True)) empty_adb d_ann.
Proof. apply (auth_SignUp_acts 12 desk (Some key1) ann eq_refl (λ _, True) (cat_oracle noon) w_start (λ _, I)). apply cat_oracle_good. Qed.

Definition ann_user : User := Eval vm_compute in
  MkUser (MkProfile (demo_id 302) "ann@example.com" "Ann" RoleCustomer UserStatusActive noon) (put_hash (demo_id 301) "correct horse") noon false.

Lemma signup_once_witness :
  ∃ u r, created_by desk key1 ann (cat_oracle noon) empty_adb d_ann u r ∧ rc_ExpiresAt r = noon + 24 * hour ∧
    (auth_SignUp desk (Some key1) ann (cat_oracle (noon + hour)) w_ann).1 = replay_answer u ann ∧
    replay_answer u ann = inr (MkUser (us_Profile u) "" zero_time true).
Proof.
  destruct (signup_once desk key1 ann (cat_oracle noon) w_start) as (u & r & n & Hc & Hx & Hs & Hlater).
  - apply cat_oracle_good.
  - done.
  - intros E. apply (f_equal size) in E. by vm_compute in E.
  - exists u, r. split_and!; try done. apply (Hlater (cat_oracle (noon + hour)) w_ann ann); [done| |done].
    intros k. rewrite Hx. cbn. unfold hour, minute, second. lia.
Defined.

Lemma login_answers_witness : opens (MkLoginInput "ANN@example.com" "correct horse") d_ann ann_user ∧
  (∃ n, (auth_Login desk (MkLoginInput "ANN@example.com" "correct horse") (cat_oracle noon) w_ann).1 = login_result desk ann_user (or_clock (cat_oracle noon) n)) ∧
  (auth_Login desk (MkLoginInput "ANN@example.com" "correct hors") (cat_oracle noon) w_ann).1 = inl AInvalidCredentials.
Proof.
  assert (opens (MkLoginInput "ANN@example.com" "correct horse") d_ann ann_user) as Ho by (split_and!; by vm_compute).
  split; [done|]. split.
  - pose proof (login_answers desk (MkLoginInput "ANN@example.com" "correct horse") (cat_oracle noon) w_ann ann_reachable) as H.
    cbn zeta in H. destruct (auth_Login _ _ _ _) as [r w']. destruct H as (_ & H).
    replace (NormalizeEmail (li_Email (MkLoginInput "ANN@example.com" "correct horse"))) with (Some "ann@example.com") in H by (by vm_compute).
    replace (validatePassword (li_Password (MkLoginInput "ANN@example.com" "correct horse")) 1) with true in H by (by vm_compute).
    destruct H as (_ & H & _). by apply H.
  - by vm_compute.
Defined.

Lemma signup_then_login_witness :
  ∃ v, a_users d_ann !! us_ID ann_user = Some v ∧ same_account ann_user v ∧ us_Status v = UserStatusActive ∧
    ∃ n, (auth_Login desk (MkLoginInput "ANN@example.com" "correct horse") (cat_oracle noon) w_ann).1 = login_result desk v (or_clock (cat_oracle noon) n).
Proof.
  assert (auth_SignUp desk (Some key1) ann (cat_oracle noon) w_start = (inr ann_user, w_ann)) as Hs by (apply run_pair; by vm_compute).
  destruct (signup_then_login desk (Some key1) ann (cat_oracle noon) w_start ann_user w_ann w_ann (cat_oracle_good noon)
    (rtc_refl _ _) Hs eq_refl (rtc_refl _ _)) as (v & Hv & Hsame & Hlog).
  exists v. assert (v = ann_user) as -> by (vm_compute in Hv; by injection Hv as <-). split; [exact Hv|]. split; [exact Hsame|]. split; [reflexivity|].
  apply (Hlog (cat_oracle noon) "ANN@example.com" "correct horse"); [intros n; reflexivity|by vm_compute|reflexivity..].
Defined.

Definition ann_session : AuthResult := Eval vm_compute in
  MkAuthResult (put_token "shared secret" "gelato-auth" "gelato" (MkClaims RoleCustomer (demo_id 302) (Some noon) (Some (noon + 15 * minute)))) "Bearer" 900 ann_user.

Lemma token_accepted_witness :
  auth_Parse (jwt := jwt_at (noon + minute)) (sv_tokens desk) (ar_AccessToken ann_session) =
    Some (MkClaims RoleCustomer (us_ID ann_user) (Some noon) (Some (noon + 15 * minute))) ∧
  ∃ iat, noon - second < iat ≤ noon ∧
    Verifier_Parse (jwt := jwt_at (noon + minute)) (shared_verifier desk) (ar_AccessToken ann_session) =
      Some (MkClaims RoleCustomer (us_ID ann_user) (Some iat) (Some (iat + 15 * minute))).
Proof.
  split; [by vm_compute|].
  assert (auth_Login desk (MkLoginInput "ANN@example.com" "correct horse") (cat_oracle noon) w_ann =
    (inr ann_session, (auth_Login desk (MkLoginInput "ANN@example.com" "correct horse") (cat_oracle noon) w_ann).2)) as Hl by (apply run_pair; by vm_compute).
  destruct (token_accepted desk _ (cat_oracle noon) w_ann ann_session _ (noon + minute) ann_reachable (λ _, eq_refl)
    ltac:(by vm_compute) ltac:(by vm_compute) ltac:(by vm_compute) Hl) as (n & iat & Hi & _ & _ & H).
  exists iat. split; [exact Hi|]. apply H. cbn [or_clock cat_oracle] in *. change (tm_ttl (sv_tokens desk)) with (15 * minute).
  unfold minute, second in *. lia.
Defined.

Lemma accounts_invariant_witness : ∃ id u, a_users d_ann !! id = Some u ∧ account_ok 12 u ∧ ∃ eid e, a_outbox d_ann !! eid = Some e ∧ announces u e.
Proof.
  destruct (accounts_invariant desk) as [_ H]. destruct (H d_ann ann_reachable) as (_ & Hok & Han & _).
  assert (a_users d_ann !! us_ID ann_user = Some ann_user) as Hu by by vm_compute.
  exists (us_ID ann_user), ann_user. split_and!; [done|by apply Hok in Hu as []|]. destruct (Han _ _ Hu) as (eid & e & He & _). eauto.
Defined.

Lemma credentials_exact_witness :
  decodeCredentials (put ["password"; "correct horse"; "email"; "ann@example.com"]) ["email"; "password"] =
    Some {[ "email" := "ann@example.com"; "password" := "correct horse" ]} ∧
  NoDup ["email"; "password"] ∧ decodeCredentials (put ["email"; "a"; "email"; "b"]) ["email"; "password"] = None.
Proof.
  assert (NoDup ["email"; "password"]) as Hnd by (apply (bool_decide_unpack _); by vm_compute).
  split_and!; [|done|by vm_compute]. apply (credentials_exact _ _ _ Hnd). split; [by vm_compute|].
  exists [("password", "correct horse"); ("email", "ann@example.com")]. split_and!; [by vm_compute|apply Permutation_swap|].
  intros k. cbn. repeat case_bool_decide; subst; try done.
  by rewrite lookup_insert_ne, lookup_singleton_ne.
Defined.

(** One attempt delivers the event of the account. *)
Definition confirmed : BrokerRun := MkBrokerRun false true true true true true (Some true) NotReturned.
Definition ann_event : AEvent := Eval vm_compute in
  MkAEvent (demo_id 303) registered_event (put_payload (demo_id 302) "ann@example.com" "Ann" RoleCustomer UserStatusActive) noon None 0 noon.
Definition ann_message : AMessage := Eval vm_compute in default (MkAMessage "" 0 (MkCloudEvent "" "" "" "" "" 0 "" "" "" "")) (MessageFor ann_event).
Definition ann_leased : AEvent := leased (30 * second) noon ann_event.
Definition d_leased : ADB := set_outbox <[demo_id 303 := ann_leased]> d_ann.
Definition d_published : ADB := set_outbox <[demo_id 303 := finished true 1 noon ann_leased]> d_leased.
Definition delivered_sys : DSys := MkDSys d_published [] [] [ann_message].

Lemma ann_outbox : a_outbox d_ann = {[ demo_id 303 := ann_event ]}.
Proof. apply (bool_decide_unpack _). by vm_compute. Qed.

Lemma delivered_reachable : rtc (dstep 12) dsys_start delivered_sys.
Proof.
  eapply rtc_l.
  { apply (D_other _ dsys_start d_ann ann_reachable). split; intros id e; [done|]. rewrite ann_outbox. intros [<- <-]%lookup_singleton_Some. right. by split_and!. }
  eapply rtc_l; [eapply (D_claim _ _ (30 * second) noon ann_leased d_leased)|].
  { unfold claim_event. cbn [ds_db]. assert (due_events noon d_ann = [(demo_id 303, ann_event)]) as -> by by vm_compute. done. }
  assert (finish_event ann_leased true noon d_leased = inr (1, d_published)) as Hf.
  { unfold finish_event. change (ae_ID ann_leased) with (demo_id 303). unfold d_leased at 1. cbn [set_outbox a_outbox]. by rewrite lookup_insert_eq. }
  eapply rtc_l; [exact (D_publish _ (MkDSys d_leased [ann_leased] [] []) [] [] ann_leased ann_message confirmed true eq_refl eq_refl (λ _, eq_refl))|].
  eapply rtc_l; [exact (D_finish _ (MkDSys d_leased [] [(ann_leased, true)] [ann_message]) [] [] ann_leased true noon 1 d_published eq_refl Hf)|apply rtc_refl].
Qed.

Lemma outbox_delivery_witness : ae_PublishedAt (finished true 1 noon ann_leased) = Some noon ∧
  (∃ m, MessageFor (finished true 1 noon ann_leased) = Some m ∧ m ∈ [ann_message]) ∧
  ∃ w', dispatches (30 * second) confirmed 1 (cat_oracle noon) w_ann = (inr [(true, None)], w') ∧ pending (as_db (w_db w')) = ∅ ∧
    (dispatch (30 * second) confirmed (cat_oracle noon) w').1 = inr (false, None).
Proof.
  destruct (outbox_delivery 12 (30 * second) confirmed delivered_sys (cat_oracle noon) w_ann delivered_reachable (λ _, eq_refl)) as (H & _ & _ & _ & _ & _ & Hp).
  split; [done|]. split.
  { destruct (H (demo_id 303) (finished true 1 noon ann_leased)) as [Hm _]; [apply lookup_insert_eq|done|exact Hm]. }
  assert (size (pending (as_db (w_db w_ann))) = 1%nat) as Hsize by by vm_compute. cbn zeta in Hp. rewrite Hsize in Hp.
  destruct Hp as (w' & H1 & H2 & H3 & _); [reflexivity| |exists w'; exact (conj H1 (conj H2 H3))].
  intros id e. change (as_db (w_db w_ann)) with d_ann. rewrite ann_outbox. intros [<- <-]%lookup_singleton_Some.
  split; [reflexivity|]. intros _. split_and!; [by vm_compute|by vm_compute|]. intros n. by vm_compute.
Defined.

(** Wrong passwords, one after the other. *)
Definition guess (pw : string) : ARequest * Z :=
  (MkARequest "10.0.0.1" "curl" ["application/json"] [] [] [] (put ["email"; "ann@example.com"; "password"; pw]), noon + 5 * second).
Definition guesses : list (ARequest * Z) := guess <$> ["a"; "b"; "c"; "d"; "e"; "f"; "g"].

Lemma login_lockout_witness :
  ∃ log w', login_run desk guesses (cat_oracle noon) w_ann = (inr log, w') ∧
    (lg_resp <$> log) = repeat invalidCredentials 5 ++ repeat (ALimited 900) 2 ∧
    (length (filter (λ x, (lg_account x = Some "ann@example.com" ∧ lg_resp x = invalidCredentials) ∧ (noon ≤ lg_start x ∧ lg_end x < noon + 15 * minute)%Z) log) ≤ 2 * 5)%nat.
Proof.
  destruct (login_lockout desk guesses (cat_oracle noon) w_ann 5 (15 * minute)) as (log & w' & Hrun & H).
  - lia.
  - by vm_compute.
  - by intros n m _.
  - by vm_compute.
  - assert (Some (lg_resp <$> log) = Some (repeat invalidCredentials 5 ++ repeat (ALimited 900) 2)) as Hlog.
    { transitivity (match (login_run desk guesses (cat_oracle noon) w_ann).1 with inr l => Some (lg_resp <$> l) | inl _ => None end); [by rewrite Hrun|].
      by vm_compute. }
    injection Hlog as Hlog. exists log, w'. split; [exact Hrun|]. split; [exact Hlog|]. apply H; [exists "ann@example.com"; by vm_compute|].
    intros x Hx _. apply (list_elem_of_fmap_2 lg_resp) in Hx. rewrite Hlog in Hx. revert Hx. generalize (lg_resp x). apply Forall_forall. repeat constructor.
Defined.

(** One request at work. *)
Definition busy_sys : LSys := MkLSys (MkCredentialLimiter (newRateBudget 600 2048) (MkBudget {[ "ann@example.com" := MkWindow 1 (noon + minute) ]} 20 4096 minute) 1)
  0 1 noon [("ann@example.com", noon)] [] [].
Lemma busy_reachable : rtc lstep (lsys_start noon) busy_sys.
Proof.
  set (l0 := MkCredentialLimiter (newRateBudget 600 2048) (newRateBudget 20 4096) 1).
  eapply rtc_l; [exact (L_take (lsys_start noon) l0 eq_refl)|]. eapply rtc_l; [|apply rtc_refl].
  refine (L_admit (MkLSys l0 1 0 noon [] [] []) "ann@example.com" noon 0 (ls_limiter busy_sys) 0 eq_refl (Z.le_refl _) _). by vm_compute.
Qed.
Lemma credential_limits_witness : (ls_working busy_sys ≤ work_slots)%nat ∧ (hits_in minute noon (times_of "ann@example.com" (ls_accounts busy_sys)) ≤ 40)%nat.
Proof. destruct (credential_limits noon busy_sys busy_reachable) as (H1 & H2 & _). split; [exact H1|apply H2]. Defined.
